(* ===== verification/_CoqProject ===== *)
-Q . S2P
Prelude.v
Locks.v
SeqArith.v
Ksyn.v
KsynQueue.v
KsynSync.v
KsynProps.v
KsynMutex.v
KsynCv.v
KsynCvOps.v
KsynRw.v
KsynHash.v
KsynHashProps.v
KsynHashOps.v
Suspend.v
ThreadState.v
Memory.v
MemoryProps.v
MemoryOps.v
WaitQ.v
WaitQProps.v
Blocking.v
WaitSpec.v
WaitRuns.v
Sema.v
SemaProps.v
SemaSpec.v
SemaLife.v
SemaRuns.v
SemaTraps.v
PQueue.v
Timers.v
TimersProps.v
TimersRuns.v
Exceptions.v
ExceptionsProps.v
ExceptionsCalls.v
Signals.v
SignalsProps.v
SignalsRuns.v
KqChan.v
