(* ===== verification/Prelude.v ===== *)
(** * Verification of darlingserver's duct tape

    darlingserver runs Mach and BSD kernel code for macOS processes on Linux.
    Its C core, the duct tape ([src/duct-tape]), compiles vendored XNU sources
    against a layer of its own: locks and condition variables for the server's
    microthreads ([src/duct-tape/src/locks.c], [condvar.c]), the kernel half of
    the pthread synchronisation primitives
    ([src/duct-tape/pthread/kern_synch.c], with the shims of
    [src/duct-tape/src/psynch.c]), and the tasks and threads of the client
    processes ([src/duct-tape/src/task.c], [thread.c]) and their memory
    ([memory.c]), the waiting and blocking of their threads ([thread.c], over the wait
    queues of [xnu/osfmk/kern/waitq.c]), semaphores ([semaphore.c], over
    [xnu/osfmk/kern/sync_sema.c]), timers ([timer.c], over [xnu/osfmk/kern/timer_call.c]), and
    the exceptions and signals of threads ([thread.c], over [xnu/osfmk/kern/exception.c]),
    and the kqueue channels that tell clients of messages ([kqchan.c]).
    The C++ server ([src/src]) calls into it, and is called back through hooks.

    ** How the parts interact

    A client thread enters the server as a microthread.  Its psynch system calls
    find the wait queue of an address in a hash table (reference counted, freed
    by a delayed clean-up), work on that queue under its lock, sleep on it or
    wake others, and release it.  The queue code sleeps and wakes through
    [psynch.c], which rests on XNU's wait queues; the locks of the server itself
    are [dtape_mutex] and [dtape_condvar], which suspend and resume microthreads
    by the hooks of the server.  A signal makes a microthread save its register
    state and handle the signal with a fresh one; suspension of a task or thread
    uses that signal to stop the threads of the client.

    A thread that waits asserts the wait on a queue, which is its own or one of the
    global queues that addresses hash to, and then blocks: it suspends itself unless
    its state says that it need not wait.  A wake-up, a time-out, a signal or the
    death of the thread takes it off the queue, sets its wait result and asks the
    server to resume it, which puts a suspended microthread on the work queue.
    Semaphores wait and signal this way.  A wait with a deadline enters a timer call:
    the first deadline of all calls is the time for which the server sets a timer of the
    host, and when that expires, a microthread runs the calls that are due.

    A client that receives a signal asks the server what to do with it.  The signal becomes
    a Mach exception, which is offered to the exception ports of the thread, of its task and
    of the host in turn; the host's is the kernel's own, whose server turns the exception
    into a signal again, with which the client goes on.  A debugger is an exception server
    of its own, and may change the signal.

    ** The files

    - [Prelude]: record update, machine integers, return codes, the monad of
      duct-taped code ([Ret], [Panic] for an abort, [Hang] for spent fuel), its
      total-correctness [wp] with rules and tactics, lists.
    - [Locks]: [locks.c] and [condvar.c].  A step relation interleaves any number
      of microthreads and native threads, one step per access to shared state;
      libsimple's spin lock is an interface ([SimpleLock]).  For clients that lock what
      they do not hold and unlock what they hold, without [dtape_mutex_try_lock] on
      microthreads: mutual exclusion, no lost wake-up, progress, the discipline of the wait
      queues, the number of waiters a signal wakes; and the race of [dtape_mutex_try_lock].
    - [SeqArith]: the sequence arithmetic of [synch_internal.h] on 32-bit words.
      A total order within half of the circle; mirror and distance laws on all
      words.
    - [Ksyn]: the data of [kern_synch.c] for one wait queue and its queue
      routines.  [KsynQueue]: the well-formedness of a queue and what the routines
      do to it (sequence-ordered insertion).  [KsynSync]: the operations on a
      queue: sleeping and waking, mutexes, condition variables, read-write
      locks, with the continuations of the sleepers; [ksyn_wait] asserts the wait, and
      [ksyn_block] is the suspension that follows, before which a wake-up is lost.  Where the code drops the
      queue's lock (to allocate, to look up a thread, to wake) an [environment]
      may change the queue; [Rely] ([KsynProps]) states what the operations need
      of it, and an environment without interference is an instance.
    - [KsynMutex]: drop and wait return and keep the invariant, a fair drop hands
      the mutex to the next waiter, and the orders of a wait and the drop meant for it.
    - [KsynCv], [KsynCvOps]: broadcast wakes exactly the right threads; signal,
      wait and continuation return on every path; the orders of a signal and the
      wait meant for it.
    - [KsynRw]: a released lock is granted to the first writer or to the readers
      before it; lock and unlock return; the wake-up of an interrupted writer is
      lost.
    - [KsynHash]: the hash tables, the clean-up and the system calls.
      [KsynHashProps] proves the reference counting, with [ListRely] for what
      other threads may do while the list lock is dropped; [KsynHashOps] states
      what the table promises to its callers, and what the clean-up does.
    - [Suspend]: the suspension of tasks and threads, with a refinement of an
      abstract account of holds.
    - [ThreadState]: register states: which calls succeed, what they change, round
      trips, bounds, and the stack of states around signals.
    - [Memory]: the virtual memory stand-in: copies, allocation, regions, and the
      sharing of pages between processes with its descriptors, entries and files.
      The hooks and the C library are the class [OS]; what [munmap] refuses to remove and
      what the server asks to be mapped are kept in logs.  [MemoryProps] proves the
      account of shared memory against the laws [OSLaws]; [MemoryOps] states it for
      every call, with the look-up of entries, shared remapping and the way of
      bytes from process to process, and has a concrete outside ([flat]).
    - [WaitQ]: wait queues, the blocking primitives, wait timers (an interface,
      [TimerCall]), and the suspension, resumption and running of microthreads.
      [WaitQProps] and [Blocking] prove what each call does, under the account [wf]
      of threads, queues and locks.  [WaitSpec] states it: queues refine lists, the
      account is kept and every call returns, and a thread that suspends itself
      before it is woken is never forgotten.  [WaitRuns] shows the runs in which a
      wake-up is lost, a timer outlives its wait, or a wake-up by name leaves a queue
      locked, and has a concrete server ([Demo]).
    - [Sema]: Mach semaphores and the duct tape's wrapper.  [SemaProps] has their
      account ([swf]) and operations; [SemaSpec] the refinement of a number of
      units with a list of sleepers, and the conservation of units; [SemaLife]
      creation, references, destruction and the end of a task, and the invariant
      over all of it; [SemaRuns] runs of waits, signals and timers, and a concrete
      server ([SemaDemo]); [SemaTraps] the calls of clients, which name semaphores by
      ports ([Ports]), and that threads blocked in them keep their semaphores alive.
    - [PQueue]: the pairing heap of [xnu/libkern/c++/priority_queue.cpp], which is a set
      with keys.  [Timers]: timer calls ([xnu/osfmk/kern/timer_call.c]) on the queue of
      [timer.c], with the host's timer of [server.cpp]; threads that enter, cancel and
      expire calls interleave between their accesses to locks, clock and timer.
      [TimersProps] proves that every run is one of the specification, keeps the queue
      and does not deadlock; [TimersRuns] that due calls fire in order if operations do not
      overlap and no deadline is [UINT64_MAX], and the runs in which a call is lost.
    - [Exceptions]: send rights to ports ([xnu/osfmk/ipc/ipc_port.c]) and the calls that set,
      swap and get exception ports ([xnu/osfmk/kern/ipc_tt.c], [ipc_host.c]).
      [ExceptionsProps] has the account of rights ([Inv]) and what the loops of the calls
      return; [ExceptionsCalls] that every call keeps the account, and that what [swap]
      returns restores live handlers, but for their privilege.  [Signals]: the delivery of exceptions ([exception.c]),
      the kernel's server ([ux_handler.c]) and the way of a signal through them; other
      servers, and what happens while a thread is suspended, are an instance of [World].
      [SignalsProps] proves that every signal is raised to the end with the account kept, if
      servers keep it ([WorldLaws]), and that the call returns exactly if the thread is
      resumed as often as it was suspended; [SignalsRuns] which signal the client gets back, when it gets none, and which handlers
      stop the server.
    - [KqChan]: the thread that waits for a kqueue channel on a port set, and the end of the
      channel, as two threads that interleave with messages, preposts and reads.  Nothing is
      used after it is freed unless the end is interrupted, a channel whose waiter sleeps is
      closed, and the runs in which closing hangs or stops the server.

    ** Bounds and fuel

    C integers are [Z]; every operation that can leave the range of its type is
    reduced ([u32], [s32], [s16] ...).  Loops over a list of the state are
    structural.  The loops that are not take a fuel: the retry of
    [_psynch_mutexdrop_internal] consumes at least one queued element per round,
    so a fuel above the length of the queue is enough; [_psynch_mutexwait]
    retries at most once, so 2 is enough; the loops that free fake entries or
    wake readers remove one element per round; the deletion of a process' table
    removes one queue per round.  The theorems that these calls return are about
    every fuel that is large enough, and say that the result is neither [Panic] nor
    [Hang].  Spinning on a lock that is held ends in [Hang] at once where the code
    takes it unconditionally; the loops that try a lock ([clear_wait_internal],
    [semaphore_dereference]) are given [tries] attempts after the first, and the
    theorems hold for every [tries], 0 included, because the lock is free.  The loop
    that destroys a task's semaphores has the length of the task's list as its fuel.  The
    loop in which a suspended thread waits to be resumed goes round as often as it is
    resumed in vain: its fuel is enough exactly if it is resumed in the end ([resumed]).

    ** Assumptions

    Code that is not under [src], or is third-party, is a parameter: libsimple's
    lock, the sleeps of psynch calls (a sleep, a wake-up that may find nobody), what the
    scheduler knows of a thread ([Timebase]), the names of Mach ports, the servers of exceptions, the memory of clients ([copyin] and [copyout]), and the hooks of the
    server, whose calls are recorded as events.  The counters of ports ([ip_srights],
    [ip_references], [ip_mscount]), of 32 bits, are taken not to overflow.  [assert] is compiled out in this
    build and is not modelled; [panic] and unsafe stubs abort.

    ** Not modelled

    The C++ server but for the suspension and running of microthreads and the calls for
    signals, the other vendored XNU sources (messages, spaces of port names, turnstiles, wait
    queue sets), generated RPC code and the debugging tool.  Of the duct tape: kqueue
    channels on single ports and the events they deliver,
    hosts and processors, information queries and policies of tasks and threads, the copying
    of RPC arguments around the psynch calls, start-up and logging.  They forward to the parts
    named above or to the operating system.  The sleeps of [psynch.c] are modelled on their
    own, not over [WaitQ].  Waits and semaphores are modelled one call at a time, with the places
    where a running thread gives way between its assertion of a wait and its
    suspension (a semaphore's wait does both at once; what it does after its thread runs
    again is a call of its own); memory calls and the calls on exception ports too: the race between a
    shared remapping and its source, which the code acknowledges, is not in the
    model. *)
From Stdlib Require Export ZArith Lia.
From stdpp Require Export base strings functions gmap list sorting.

#[global] Open Scope Z_scope.

(** ** Functional record update

    The sources mutate C structs field by field; the model updates Rocq
    records with [r <| f := v |>] (assign) and [r <| f ::= g |>] (apply [g] to
    the field).  A record opts in with a [Rebuild] instance (its eta-expanded
    constructor); the setter of a projection is derived from it. *)

Class Rebuild (R : Type) := rebuild : R -> R.
Class Update {R T : Type} (proj : R -> T) := update : (T -> T) -> R -> R.
#[global] Hint Mode Rebuild ! : typeclass_instances.

Ltac derive_update :=
  lazymatch goal with
  | |- @Update ?R ?T ?p =>
      let inst := constr:(_ : Rebuild R) in
      let e := eval hnf in (@rebuild R inst) in
      lazymatch eval pattern p in e with
      | ?F p =>
          let u := eval cbv beta in
            (fun (g : T -> T) => F (fun r : R => g (p r))) in
          exact u
      end
  end.
#[global] Hint Extern 0 (Update _) => derive_update : typeclass_instances.

Declare Scope upd_scope.
Delimit Scope upd_scope with upd.
Notation "r <| p := v |>" := (@update _ _ p _ (fun _ => v) r)
  (at level 1, left associativity, format "r  <| p  :=  v |>") : upd_scope.
Notation "r <| p ::= f |>" := (@update _ _ p _ f r)
  (at level 1, left associativity, format "r  <| p  ::=  f |>") : upd_scope.
#[global] Open Scope upd_scope.

(** ** Machine integers

    A C integer of width [w] is a [Z]; every operation that can leave the
    range goes through one of these reductions. *)

Definition u16 (z : Z) : Z := z mod 2 ^ 16.
Definition u32 (z : Z) : Z := z mod 2 ^ 32.
Definition u64 (z : Z) : Z := z mod 2 ^ 64.
Definition s32 (z : Z) : Z := (z + 2 ^ 31) mod 2 ^ 32 - 2 ^ 31.
Definition s16 (z : Z) : Z := (z + 2 ^ 15) mod 2 ^ 16 - 2 ^ 15.

(** [x & m] used as a C condition. *)
Definition has (x m : Z) : bool := negb (Z.land x m =? 0).
(** [x &= ~m] *)
Definition clr (x m : Z) : Z := Z.ldiff x m.

Lemma u32_range z : 0 <= u32 z < 2 ^ 32.
Proof. apply Z.mod_pos_bound; lia. Qed.
Lemma u64_range z : 0 <= u64 z < 2 ^ 64.
Proof. apply Z.mod_pos_bound; lia. Qed.
Lemma u32_id z : 0 <= z < 2 ^ 32 -> u32 z = z.
Proof. apply Z.mod_small. Qed.
Lemma u64_id z : 0 <= z < 2 ^ 64 -> u64 z = z.
Proof. apply Z.mod_small. Qed.
Lemma s32_id z : - 2 ^ 31 <= z < 2 ^ 31 -> s32 z = z.
Proof. unfold s32. intros. rewrite Z.mod_small; lia. Qed.
Lemma s16_id z : - 2 ^ 15 <= z < 2 ^ 15 -> s16 z = z.
Proof. unfold s16. intros. rewrite Z.mod_small; lia. Qed.

Lemma has_clr x m : has (clr x m) m = false.
Proof.
  unfold has, clr. rewrite Z.land_ldiff. reflexivity.
Qed.
Lemma has_lor_r x m : m <> 0 -> has (Z.lor x m) m = true.
Proof.
  intros Hm. unfold has.
  rewrite Z.land_lor_distr_l, Z.land_diag.
  destruct (Z.eqb_spec (Z.lor (Z.land x m) m) 0) as [E|E]; [|done].
  apply Z.lor_eq_0_iff in E. lia.
Qed.

(** ** Kernel return codes (osfmk/mach/kern_return.h) *)

Definition KERN_SUCCESS : Z := 0.
Definition KERN_INVALID_ADDRESS : Z := 1.
Definition KERN_PROTECTION_FAILURE : Z := 2.
Definition KERN_NO_SPACE : Z := 3.
Definition KERN_INVALID_ARGUMENT : Z := 4.
Definition KERN_FAILURE : Z := 5.
Definition KERN_RESOURCE_SHORTAGE : Z := 6.
Definition KERN_INVALID_TASK : Z := 16.
Definition KERN_INVALID_HOST : Z := 22.
Definition KERN_TERMINATED : Z := 37.
Definition KERN_NOT_SUPPORTED : Z := 46.
Definition KERN_NOT_WAITING : Z := 48.

(** ** The effect of running duct-taped C code

    [Ret a s]: the call returned [a] in state [s]; [Panic why]: the code
    called [panic()], reached [dtape_stub_unsafe()] or used memory that is not
    its own (an abort of the server); [Hang]: the fuel given to an unbounded loop
    ran out. *)

Inductive outcome (S A : Type) : Type :=
| Ret (a : A) (s : S)
| Panic (why : string)
| Hang.
Arguments Ret {S A} a s.
Arguments Panic {S A} why.
Arguments Hang {S A}.

Definition M (S A : Type) : Type := S -> outcome S A.

Section Monad.
Context {S : Type}.

Definition ret {A} (a : A) : M S A := fun s => Ret a s.
Definition panic {A} (why : string) : M S A := fun _ => Panic why.
Definition hang {A} : M S A := fun _ => Hang.
Definition bind {A B} (m : M S A) (k : A -> M S B) : M S B :=
  fun s => match m s with
           | Ret a s' => k a s'
           | Panic w => Panic w
           | Hang => Hang
           end.
Definition get : M S S := fun s => Ret s s.
Definition gets {A} (f : S -> A) : M S A := fun s => Ret (f s) s.
Definition modify (f : S -> S) : M S unit := fun s => Ret tt (f s).
Definition when (b : bool) (m : M S unit) : M S unit :=
  if b then m else ret tt.
(** [if (!b) panic(why)] *)
Definition ensure (b : bool) (why : string) : M S unit :=
  if b then ret tt else panic why.

(** Total correctness: the code returns, and what it returns and the state
    it leaves satisfy [Q]. *)
Definition wp {A} (m : M S A) (Q : A -> S -> Prop) (s : S) : Prop :=
  match m s with
  | Ret a s' => Q a s'
  | _ => False
  end.

Lemma wp_ret {A} (a : A) Q s : Q a s -> wp (ret a) Q s.
Proof. done. Qed.
Lemma wp_bind {A B} (m : M S A) (k : A -> M S B) Q s :
  wp m (fun a => wp (k a) Q) s -> wp (bind m k) Q s.
Proof. unfold wp, bind. by destruct (m s). Qed.
Lemma wp_bind_inv {A B} (m : M S A) (k : A -> M S B) Q s :
  wp (bind m k) Q s -> wp m (fun a => wp (k a) Q) s.
Proof. unfold wp, bind. by destruct (m s). Qed.
Lemma wp_mono {A} (m : M S A) (P Q : A -> S -> Prop) s :
  wp m P s -> (forall a s', P a s' -> Q a s') -> wp m Q s.
Proof. unfold wp. destruct (m s); eauto. Qed.
Lemma wp_and {A} (m : M S A) (P Q : A -> S -> Prop) s :
  wp m P s -> wp m Q s -> wp m (fun a s' => P a s' /\ Q a s') s.
Proof. unfold wp. by destruct (m s). Qed.
Lemma wp_get Q s : Q s s -> wp get Q s.
Proof. done. Qed.
Lemma wp_gets {A} (f : S -> A) Q s : Q (f s) s -> wp (gets f) Q s.
Proof. done. Qed.
Lemma wp_modify f Q s : Q tt (f s) -> wp (modify f) Q s.
Proof. done. Qed.
Lemma wp_ensure (b : bool) why Q s : b = true -> Q tt s -> wp (ensure b why) Q s.
Proof. by intros ->. Qed.
Lemma wp_when_true m Q s : wp m Q s -> wp (when true m) Q s.
Proof. done. Qed.
Lemma wp_run {A} (m : M S A) Q s :
  wp m Q s <-> exists a s', m s = Ret a s' /\ Q a s'.
Proof. unfold wp. destruct (m s); naive_solver. Qed.
End Monad.

Declare Scope dt_scope.
Delimit Scope dt_scope with dt.
Notation "x <- c ;; k" := (bind c (fun x => k))
  (at level 100, c at next level, right associativity) : dt_scope.
Notation "c ;;; k" := (bind c (fun _ => k))
  (at level 100, right associativity) : dt_scope.
#[global] Open Scope dt_scope.

(** ** Shared tactics and hints *)

Create HintDb dt discriminated.
#[export] Hint Resolve wp_ret wp_gets wp_modify wp_get : dt.

(** One symbolic-execution step of a [wp] goal. *)
Ltac wp_step :=
  lazymatch goal with
  | |- wp (bind _ _) _ _ => apply wp_bind
  | |- wp (ret _) _ _ => apply wp_ret
  | |- wp get _ _ => apply wp_get
  | |- wp (gets _) _ _ => apply wp_gets
  | |- wp (modify _) _ _ => apply wp_modify
  end; cbv beta.
Ltac wp_go := repeat wp_step.

(** Split the first [if]/[match] on a boolean of the goal. *)
Ltac case_bool :=
  match goal with
  | |- context [if ?b then _ else _] =>
      lazymatch type of b with
      | bool => let E := fresh "E" in destruct b eqn:E
      end
  end.

(** ** Total functions updated at a point *)

Definition upd {K V : Type} `{EqDecision K} (f : K -> V) (k : K) (v : V) : K -> V :=
  fun x => if decide (x = k) then v else f x.

Lemma upd_eq {K V} `{EqDecision K} (f : K -> V) k v : upd f k v k = v.
Proof. unfold upd. by case_decide. Qed.
Lemma upd_ne {K V} `{EqDecision K} (f : K -> V) k v x : x <> k -> upd f k v x = f x.
Proof. unfold upd. by case_decide. Qed.

(** ** Lists *)

Section Lists.
Context {A : Type} `{EqDecision A}.
Implicit Types l : list A.

(** [TAILQ_REMOVE]: unlink the (first) occurrence of an element. *)
Fixpoint unlink (x : A) l : list A :=
  match l with
  | [] => []
  | y :: l' => if decide (x = y) then l' else y :: unlink x l'
  end.

Lemma unlink_notin x l : x ∉ l -> unlink x l = l.
Proof.
  induction l as [|y l IH]; [done|]. intros Hn. cbn.
  case_decide; subst; [set_solver|]. f_equal. apply IH. set_solver.
Qed.
Lemma unlink_length x l : x ∈ l -> length l = Datatypes.S (length (unlink x l)).
Proof.
  induction l as [|y l IH]; [set_solver|]. intros Hx. cbn.
  case_decide; subst; [done|]. cbn. f_equal. apply IH. set_solver.
Qed.
Lemma elem_of_unlink x y l : y ∈ unlink x l -> y ∈ l.
Proof.
  induction l as [|z l IH]; [done|]. cbn. case_decide; set_solver.
Qed.
Lemma elem_of_unlink_ne x y l : y <> x -> y ∈ l -> y ∈ unlink x l.
Proof.
  induction l as [|z l IH]; [set_solver|]. cbn. case_decide; set_solver.
Qed.
Lemma NoDup_unlink x l : NoDup l -> NoDup (unlink x l).
Proof.
  induction 1 as [|y l Hy Hl IH]; cbn; [constructor|].
  case_decide; [done|]. constructor; [|done].
  intros Hc. by apply elem_of_unlink in Hc.
Qed.
Lemma unlink_gone x l : NoDup l -> x ∉ unlink x l.
Proof.
  induction 1 as [|y l Hy Hl IH]; cbn; [set_solver|].
  case_decide; subst; [done|]. set_solver.
Qed.
Lemma elem_of_unlink_iff x y l :
  NoDup l -> y ∈ unlink x l <-> y ∈ l /\ y <> x.
Proof.
  intros Hn. split.
  - intros Hy. split; [by eapply elem_of_unlink|].
    intros ->. by eapply unlink_gone.
  - intros []. by apply elem_of_unlink_ne.
Qed.
Lemma unlink_head x l : unlink x (x :: l) = l.
Proof. cbn. by case_decide. Qed.
Lemma filter_ext_in (P Q : A -> Prop) `{!forall x, Decision (P x), !forall x, Decision (Q x)} l :
  (forall x, x ∈ l -> P x <-> Q x) -> filter P l = filter Q l.
Proof.
  induction l as [|x l IH]; [done|]. intros HPQ. rewrite !filter_cons.
  rewrite IH by (intros y Hy; apply HPQ; by right).
  specialize (HPQ x ltac:(left)). by destruct (decide (P x)), (decide (Q x)); try tauto.
Qed.
Lemma sublist_unlink x l : unlink x l `sublist_of` l.
Proof.
  induction l as [|y l IH]; cbn; [constructor|].
  case_decide; by constructor.
Qed.
End Lists.

Lemma ssorted_mono {A} (R R' : A -> A -> Prop) l :
  (forall a b, a ∈ l -> b ∈ l -> R a b -> R' a b) -> StronglySorted R l -> StronglySorted R' l.
Proof.
  intros HR Hs. induction Hs as [|a l Hs IH Hl]; constructor.
  - apply IH. intros b c Hb Hc. apply HR; by right.
  - rewrite Forall_forall in Hl |- *. intros b Hb. apply HR; [left|by right|by apply Hl].
Qed.
Lemma ssorted_sublist {A} (R : A -> A -> Prop) l k : l `sublist_of` k -> StronglySorted R k -> StronglySorted R l.
Proof.
  induction 1 as [|x l k Hs IH|x l k Hs IH]; intros Hk; [constructor|..]; apply StronglySorted_inv in Hk as [Hk Hx]; [|by apply IH].
  constructor; [by apply IH|]. rewrite Forall_forall in Hx |- *. intros y Hy. apply Hx. eapply elem_of_submseteq; [exact Hy|by apply sublist_submseteq].
Qed.
