(* ===== verification/Locks.v ===== *)
(** The microthread locks of [src/duct-tape/src/locks.c] and the condition
    variables of [src/duct-tape/src/condvar.c]. *)
From S2P Require Import Prelude.
From stdpp Require Import base list sets fin_sets.

(** A microthread ([current_thread() != NULL]) or a native thread of the
    server with no active microthread. *)
Inductive actor := Micro (t : nat) | Native (n : nat).
#[global] Instance actor_eq_dec : EqDecision actor.
Proof. solve_decision. Defined.

(** The native lock of libsimple ([libsimple_lock_t]): [sl_lock] returns
    [None] when the caller has to wait. *)
Class SimpleLock (L : Type) := {
  sl_init : L;
  sl_locked : L -> bool;
  sl_lock : L -> option L;
  sl_unlock : L -> L;
  sl_init_free : sl_locked sl_init = false;
  sl_lock_free l l' : sl_lock l = Some l' -> sl_locked l = false /\ sl_locked l' = true;
  sl_lock_progress l : sl_locked l = false -> is_Some (sl_lock l);
  sl_unlock_free l : sl_locked (sl_unlock l) = false;
}.

(** A lock word: the simplest lock that satisfies the interface. *)
#[global] Program Instance bool_lock : SimpleLock bool := {|
  sl_init := false;
  sl_locked b := b;
  sl_lock b := if b then None else Some true;
  sl_unlock _ := false;
|}.
Next Obligation. done. Qed.
Next Obligation. by intros [] ? [= <-]. Qed.
Next Obligation. intros [] ?; [done|by eexists]. Qed.
Next Obligation. done. Qed.

Module Locks.
Section Locks.
Context {L : Type} `{SimpleLock L}.

Record dtape_mutex := mk_dtape_mutex {
  dtape_owner : option nat;       (* 0 is None *)
  dtape_queue_lock : L;
  dtape_queue_head : list nat;
}.
Record dtape_condvar := mk_dtape_condvar {
  queue_lock : L;
  queue_head : list nat;
}.
#[local] Instance dtape_mutex_rb : Rebuild dtape_mutex := fun r =>
  mk_dtape_mutex (dtape_owner r) (dtape_queue_lock r) (dtape_queue_head r).
#[local] Instance dtape_condvar_rb : Rebuild dtape_condvar := fun r =>
  mk_dtape_condvar (queue_lock r) (queue_head r).

(** Program points.  A point names the next action of the function it is in;
    [LkEnter] is the entry of [dtape_mutex_lock] where [dtape_condvar_wait] calls it;
    [UnLoop .. UnDrop] carry the condition variable when the unlock was called
    by [dtape_condvar_wait]. *)
Inductive pc :=
| Idle
| LkEnter (m : nat) | LkLoop (m : nat) | LkTest (m : nat) | LkTake (m : nat) | LkDrop (m : nat) | LkWait (m : nat)
| NtLoop (m : nat) | NtTest (m : nat) | NtTry (m : nat) | NtTryTest (m : nat)
| TrTest (m : nat) | TrTake (m : nat) | TrDrop (m : nat)
| UnLoop (m : nat) (k : option nat) | UnClear (m : nat) (k : option nat)
| UnWake (m : nat) (k : option nat) | UnDrop (m : nat) (k : option nat)
| CwLock (c m : nat) | CwEnq (c m : nat) | CwWait (c m : nat)
| CsLock (c n : nat) | CsLoop (c n : nat) | CsDrop (c : nat)
| Panicked.

Record world := mk_world {
  w_mtx : nat -> dtape_mutex;
  w_cv : nat -> dtape_condvar;
  w_pc : actor -> pc;
  (** ghost: the actor's last lock call on the mutex returned and it has not
      begun to unlock it *)
  w_crit : actor -> nat -> bool;
}.
#[local] Instance world_rb : Rebuild world := fun r =>
  mk_world (w_mtx r) (w_cv r) (w_pc r) (w_crit r).

Definition dtape_mutex_init : dtape_mutex := mk_dtape_mutex None sl_init [].
Definition dtape_condvar_init : dtape_condvar := mk_dtape_condvar sl_init [].
Definition init : world :=
  mk_world (fun _ => dtape_mutex_init) (fun _ => dtape_condvar_init)
    (fun _ => Idle) (fun _ _ => false).

Definition goto (a : actor) (p : pc) (w : world) : world := w <| w_pc ::= fun f => upd f a p |>.
Definition set_mtx (m : nat) (x : dtape_mutex) (w : world) : world :=
  w <| w_mtx ::= fun f => upd f m x |>.
Definition set_cv (c : nat) (x : dtape_condvar) (w : world) : world :=
  w <| w_cv ::= fun f => upd f c x |>.
Definition set_crit (a : actor) (m : nat) (b : bool) (w : world) : world :=
  w <| w_crit ::= fun f => upd f a (upd (f a) m b) |>.

(** [dtape_hooks->thread_resume]: a microthread that is suspended runs again
    after its suspension point; any other call is ignored. *)
Definition resume (t : nat) (w : world) : world :=
  match w_pc w (Micro t) with
  | LkWait m => goto (Micro t) (LkLoop m) w
  | CwWait c m => goto (Micro t) (LkEnter m) w
  | _ => w
  end.

(** The owner test of [dtape_mutex_assert]: does the current thread own it? *)
Definition dtape_mutex_owned (a : actor) (x : dtape_mutex) : bool :=
  match a, dtape_owner x with
  | Micro t, Some o => bool_decide (o = t)
  | Native _, None => true      (* owner == (uintptr_t)NULL *)
  | _, _ => false
  end.
(** [dtape_mutex_assert]: [true] when the assertion passes. *)
Definition dtape_mutex_assert (a : actor) (x : dtape_mutex) (should_be_owned : bool) : bool :=
  eqb (dtape_mutex_owned a x) should_be_owned.

(** ** [dtape_mutex_lock] *)
Definition dtape_mutex_lock_enter (a : actor) (m : nat) (w : world) : world :=
  match a with
  | Native _ => goto a (NtLoop m) w
  | Micro _ =>
      if dtape_mutex_assert a (w_mtx w m) false then goto a (LkLoop m) w
      else goto a Panicked w
  end.

Definition dtape_mutex_lock_step (a : actor) (w : world) : option world :=
  match a, w_pc w a with
  | Native _, NtLoop m =>
      l ← sl_lock (dtape_queue_lock (w_mtx w m));
      Some (goto a (NtTest m) (set_mtx m ((w_mtx w m) <| dtape_queue_lock := l |>) w))
  | Native _, NtTest m =>
      match dtape_owner (w_mtx w m) with
      | None => Some (goto a Idle (set_crit a m true w))
      | Some _ =>
          Some (goto a (NtLoop m) (set_mtx m ((w_mtx w m) <| dtape_queue_lock ::= sl_unlock |>) w))
      end
  | Micro t, LkEnter m => Some (dtape_mutex_lock_enter a m w)
  | Micro t, LkLoop m =>
      l ← sl_lock (dtape_queue_lock (w_mtx w m));
      Some (goto a (LkTest m) (set_mtx m ((w_mtx w m) <| dtape_queue_lock := l |>) w))
  | Micro t, LkTest m =>
      if bool_decide (dtape_owner (w_mtx w m) = None \/ dtape_owner (w_mtx w m) = Some t)
      then Some (goto a (LkTake m) w)
      else
        (* TAILQ_INSERT_TAIL; thread_suspend releases the queue lock *)
        Some (goto a (LkWait m)
          (set_mtx m ((w_mtx w m) <| dtape_queue_head ::= fun q => q ++ [t] |>
                        <| dtape_queue_lock ::= sl_unlock |>) w))
  | Micro t, LkTake m =>
      Some (goto a (LkDrop m) (set_mtx m ((w_mtx w m) <| dtape_owner := Some t |>) w))
  | Micro t, LkDrop m =>
      Some (goto a Idle (set_crit a m true
        (set_mtx m ((w_mtx w m) <| dtape_queue_lock ::= sl_unlock |>) w)))
  | _, _ => None
  end.

(** ** [dtape_mutex_try_lock] *)
Definition dtape_mutex_try_lock_enter (a : actor) (m : nat) (w : world) : world :=
  match a with
  | Native _ => goto a (NtTry m) w
  | Micro _ =>
      if dtape_mutex_assert a (w_mtx w m) false then goto a (TrTest m) w
      else goto a Panicked w
  end.

Definition dtape_mutex_try_lock_step (a : actor) (w : world) : option world :=
  match a, w_pc w a with
  | Native _, NtTry m =>
      match sl_lock (dtape_queue_lock (w_mtx w m)) with
      | Some l =>
          Some (goto a (NtTryTest m) (set_mtx m ((w_mtx w m) <| dtape_queue_lock := l |>) w))
      | None => Some (goto a Idle w)                     (* return FALSE *)
      end
  | Native _, NtTryTest m =>
      match dtape_owner (w_mtx w m) with
      | None => Some (goto a Idle (set_crit a m true w)) (* return TRUE *)
      | Some _ =>
          Some (goto a Idle (set_mtx m ((w_mtx w m) <| dtape_queue_lock ::= sl_unlock |>) w))
      end
  | Micro t, TrTest m =>
      if bool_decide (dtape_owner (w_mtx w m) = None \/ dtape_owner (w_mtx w m) = Some t)
      then Some (goto a (TrTake m) w)
      else Some (goto a Idle w)                          (* return FALSE *)
  | Micro t, TrTake m =>
      Some (goto a (TrDrop m) (set_mtx m ((w_mtx w m) <| dtape_owner := Some t |>) w))
  | Micro t, TrDrop m =>
      (* return TRUE *)
      Some (goto a Idle (set_crit a m true
        (set_mtx m ((w_mtx w m) <| dtape_queue_lock ::= sl_unlock |>) w)))
  | _, _ => None
  end.

(** ** [dtape_mutex_unlock] *)
Definition dtape_mutex_unlock_enter (a : actor) (m : nat) (k : option nat) (w : world) : world :=
  match a with
  | Native _ =>
      goto a Idle (set_crit a m false
        (set_mtx m ((w_mtx w m) <| dtape_queue_lock ::= sl_unlock |>) w))
  | Micro _ =>
      if dtape_mutex_assert a (w_mtx w m) true
      then goto a (UnLoop m k) (set_crit a m false w)
      else goto a Panicked w
  end.

Definition dtape_mutex_unlock_step (a : actor) (w : world) : option world :=
  match a, w_pc w a with
  | Micro t, UnLoop m k =>
      l ← sl_lock (dtape_queue_lock (w_mtx w m));
      Some (goto a (UnClear m k) (set_mtx m ((w_mtx w m) <| dtape_queue_lock := l |>) w))
  | Micro t, UnClear m k =>
      Some (goto a (UnWake m k) (set_mtx m ((w_mtx w m) <| dtape_owner := None |>) w))
  | Micro t, UnWake m k =>
      match dtape_queue_head (w_mtx w m) with
      | [] => Some (goto a (UnDrop m k) w)
      | link :: q =>
          Some (goto a (UnDrop m k)
            (resume link (set_mtx m ((w_mtx w m) <| dtape_queue_head := q |>) w)))
      end
  | Micro t, UnDrop m k =>
      Some (goto a (match k with None => Idle | Some c => CwEnq c m end)
        (set_mtx m ((w_mtx w m) <| dtape_queue_lock ::= sl_unlock |>) w))
  | _, _ => None
  end.

(** ** [dtape_condvar_wait]

    A native thread has no [mutex_link] to enqueue: the call dereferences
    NULL. *)
Definition dtape_condvar_wait_enter (a : actor) (c m : nat) (w : world) : world :=
  match a with
  | Native _ => goto a Panicked w
  | Micro _ => goto a (CwLock c m) w
  end.

Definition dtape_condvar_wait_step (a : actor) (w : world) : option world :=
  match a, w_pc w a with
  | Micro t, CwLock c m =>
      l ← sl_lock (queue_lock (w_cv w c));
      Some (dtape_mutex_unlock_enter a m (Some c)
        (set_cv c ((w_cv w c) <| queue_lock := l |>) w))
  | Micro t, CwEnq c m =>
      (* TAILQ_INSERT_TAIL; thread_suspend releases the queue lock *)
      Some (goto a (CwWait c m)
        (set_cv c ((w_cv w c) <| queue_head ::= fun q => q ++ [t] |>
                     <| queue_lock ::= sl_unlock |>) w))
  | _, _ => None
  end.

(** ** [dtape_condvar_signal] *)
Definition dtape_condvar_signal_enter (a : actor) (c n : nat) (w : world) : world :=
  goto a (CsLock c n) w.

Definition dtape_condvar_signal_step (a : actor) (w : world) : option world :=
  match w_pc w a with
  | CsLock c n =>
      l ← sl_lock (queue_lock (w_cv w c));
      Some (goto a (CsLoop c n) (set_cv c ((w_cv w c) <| queue_lock := l |>) w))
  | CsLoop c 0 => Some (goto a (CsDrop c) w)
  | CsLoop c (S n) =>
      match queue_head (w_cv w c) with
      | [] => Some (goto a (CsDrop c) w)
      | link :: q =>
          Some (goto a (CsLoop c n)
            (resume link (set_cv c ((w_cv w c) <| queue_head := q |>) w)))
      end
  | CsDrop c =>
      Some (goto a Idle (set_cv c ((w_cv w c) <| queue_lock ::= sl_unlock |>) w))
  | _ => None
  end.

(** ** The system: every actor runs its current call, or calls a function. *)

Definition exec (a : actor) (w : world) : option world :=
  match w_pc w a with
  | LkEnter _ | LkLoop _ | LkTest _ | LkTake _ | LkDrop _ | NtLoop _ | NtTest _ => dtape_mutex_lock_step a w
  | NtTry _ | NtTryTest _ | TrTest _ | TrTake _ | TrDrop _ => dtape_mutex_try_lock_step a w
  | UnLoop _ _ | UnClear _ _ | UnWake _ _ | UnDrop _ _ => dtape_mutex_unlock_step a w
  | CwLock _ _ | CwEnq _ _ => dtape_condvar_wait_step a w
  | CsLock _ _ | CsLoop _ _ | CsDrop _ => dtape_condvar_signal_step a w
  | Idle | LkWait _ | CwWait _ _ | Panicked => None
  end.

Inductive call :=
| CLock (m : nat) | CTryLock (m : nat) | CUnlock (m : nat) | CWait (c m : nat) | CSignal (c n : nat).

Definition enter (a : actor) (f : call) (w : world) : world :=
  match f with
  | CLock m => dtape_mutex_lock_enter a m w
  | CTryLock m => dtape_mutex_try_lock_enter a m w
  | CUnlock m => dtape_mutex_unlock_enter a m None w
  | CWait c m => dtape_condvar_wait_enter a c m w
  | CSignal c n => dtape_condvar_signal_enter a c n w
  end.

(** What a correct client calls: it locks what it does not hold, unlocks and
    waits with what it holds, and only microthreads wait. *)
Definition polite (a : actor) (f : call) (w : world) : bool :=
  match f with
  | CLock m | CTryLock m => negb (w_crit w a m)
  | CUnlock m => w_crit w a m
  | CWait c m => match a with Micro _ => w_crit w a m | Native _ => false end
  | CSignal _ _ => true
  end.
(** [dtape_mutex_try_lock] called from a microthread. *)
Definition micro_try (a : actor) (f : call) : bool :=
  match a, f with Micro _, CTryLock _ => true | _, _ => false end.

(** [step allowed]: one step of a system whose clients make the calls
    [allowed] accepts. *)
Inductive step (allowed : actor -> call -> bool) : world -> world -> Prop :=
| step_exec a w w' : exec a w = Some w' -> step allowed w w'
| step_call a f w :
    w_pc w a = Idle -> polite a f w = true -> allowed a f = true ->
    step allowed w (enter a f w).

Inductive reachable (allowed : actor -> call -> bool) : world -> Prop :=
| reach_init : reachable allowed init
| reach_step w w' : reachable allowed w -> step allowed w w' -> reachable allowed w'.

Definition no_micro_try (a : actor) (f : call) : bool := negb (micro_try a f).
Definition any_call (a : actor) (f : call) : bool := true.


(** ** Invariant *)

(** The actor at this point holds the queue lock of mutex [m]. *)
Definition at_mq (p : pc) (m : nat) : bool :=
  match p with
  | LkTest m' | LkTake m' | LkDrop m' | NtTest m' | NtTryTest m'
  | UnClear m' _ | UnWake m' _ | UnDrop m' _ => bool_decide (m' = m)
  | _ => false
  end.
(** ... the queue lock of condition variable [c]. *)
Definition at_cq (p : pc) (c : nat) : bool :=
  match p with
  | UnLoop _ (Some c') | UnClear _ (Some c') | UnWake _ (Some c') | UnDrop _ (Some c')
  | CwEnq c' _ | CsLoop c' _ | CsDrop c' => bool_decide (c' = c)
  | _ => false
  end.
Definition holds_mq (w : world) (a : actor) (m : nat) : bool :=
  at_mq (w_pc w a) m
  || match a with Native _ => w_crit w a m | Micro _ => false end.

(** Owns the mutex although its lock call has not returned, or although its
    unlock call has begun. *)
Definition at_owner (p : pc) (m : nat) : bool :=
  match p with
  | LkDrop m' | UnLoop m' _ | UnClear m' _ => bool_decide (m' = m)
  | _ => false
  end.
(** Will look at mutex [m] again without being woken: a contender for it, or
    an unlocker about to wake one. *)
Definition at_contend (p : pc) (m : nat) : bool :=
  match p with
  | LkLoop m' | LkTest m' | LkTake m' | UnWake m' _ => bool_decide (m' = m)
  | _ => false
  end.
(** Points inside a call on [m] at which the actor does not hold [m]. *)
Definition at_outside (p : pc) (m : nat) : bool :=
  match p with
  | LkEnter m' | LkLoop m' | LkTest m' | LkTake m' | LkDrop m' | LkWait m'
  | NtLoop m' | NtTest m' | NtTry m' | NtTryTest m'
  | UnLoop m' _ | UnClear m' _ | UnWake m' _ | UnDrop m' _
  | CwEnq _ m' | CwWait _ m' => bool_decide (m' = m)
  | _ => false
  end.
(** Which points an actor can be at when no microthread calls try_lock. *)
Definition at_legal (a : actor) (p : pc) : bool :=
  match p with
  | Idle | CsLock _ _ | CsLoop _ _ | CsDrop _ => true
  | NtLoop _ | NtTest _ | NtTry _ | NtTryTest _ =>
      match a with Native _ => true | Micro _ => false end
  | TrTest _ | TrTake _ | TrDrop _ | Panicked => false
  | _ => match a with Native _ => false | Micro _ => true end
  end.

Record inv (w : world) : Prop := {
  inv_legal a : at_legal a (w_pc w a) = true;
  inv_mq_locked a m :
    holds_mq w a m = true -> sl_locked (dtape_queue_lock (w_mtx w m)) = true;
  inv_mq_unique a b m :
    holds_mq w a m = true -> holds_mq w b m = true -> a = b;
  inv_mq_held m :
    sl_locked (dtape_queue_lock (w_mtx w m)) = true -> exists a, holds_mq w a m = true;
  inv_cq_held c :
    sl_locked (queue_lock (w_cv w c)) = true -> exists a, at_cq (w_pc w a) c = true;
  inv_cq_locked a c : at_cq (w_pc w a) c = true -> sl_locked (queue_lock (w_cv w c)) = true;
  inv_cq_unique a b c :
    at_cq (w_pc w a) c = true -> at_cq (w_pc w b) c = true -> a = b;
  inv_owner t m :
    dtape_owner (w_mtx w m) = Some t <->
    w_crit w (Micro t) m || at_owner (w_pc w (Micro t)) m = true;
  inv_native n m : w_crit w (Native n) m = true -> dtape_owner (w_mtx w m) = None;
  inv_take t m : w_pc w (Micro t) = LkTake m -> dtape_owner (w_mtx w m) = None;
  inv_outside a m : at_outside (w_pc w a) m = true -> w_crit w a m = false;
  inv_cwlock a c m : w_pc w a = CwLock c m -> w_crit w a m = true;
  inv_mq_nodup m : NoDup (dtape_queue_head (w_mtx w m));
  inv_mq_wait t m :
    t ∈ dtape_queue_head (w_mtx w m) <-> w_pc w (Micro t) = LkWait m;
  inv_cq_nodup c : NoDup (queue_head (w_cv w c));
  inv_cq_wait t c :
    t ∈ queue_head (w_cv w c) <-> exists m, w_pc w (Micro t) = CwWait c m;
  inv_wake m :
    dtape_queue_head (w_mtx w m) <> [] -> dtape_owner (w_mtx w m) = None ->
    exists t, at_contend (w_pc w (Micro t)) m = true;
}.

Lemma inv_init : inv init.
Proof.
  constructor; cbn; intros; rewrite ?sl_init_free in *; try done; try (split; intros; try done; set_solver).
  - destruct a; done.
  - destruct a, b; done.
  - constructor.
  - constructor.
Qed.

Lemma holds_mq_true w a m :
  holds_mq w a m = true <->
  at_mq (w_pc w a) m = true \/ (exists n, a = Native n) /\ w_crit w a m = true.
Proof. unfold holds_mq. destruct a; rewrite orb_true_iff; naive_solver. Qed.


(** *** Frame rule

    [moves a w w']: only [a] moved, and what it did to each mutex and each
    condition variable is justified by what it held. *)
Abbreviation qlk w m := (dtape_queue_lock (w_mtx w m)).
Abbreviation clk w c := (queue_lock (w_cv w c)).
Abbreviation own w m := (dtape_owner (w_mtx w m)).
Abbreviation que w m := (dtape_queue_head (w_mtx w m)).
Abbreviation cque w c := (queue_head (w_cv w c)).

Definition cw_at (p : pc) (c : nat) : bool :=
  match p with CwWait c' _ => bool_decide (c' = c) | _ => false end.
Definition lk_at (p : pc) (m : nat) : bool :=
  match p with LkWait m' => bool_decide (m' = m) | _ => false end.

(** How the moving actor changes a wait queue: not at all, by appending its
    link when it suspends, or by being taken off the head. *)
Definition requeued (a : actor) (was now : bool) (q q' : list nat) : Prop :=
  (q' = q /\ now = was)
  \/ (exists t, a = Micro t /\ q' = q ++ [t] /\ was = false /\ now = true)
  \/ (exists t, a = Micro t /\ q = t :: q' /\ now = false).

Record moves (a : actor) (w w' : world) : Prop := {
  mv_pc b : b <> a -> w_pc w' b = w_pc w b;
  mv_crit b m : b <> a -> w_crit w' b m = w_crit w b m;
  mv_legal : at_legal a (w_pc w' a) = true;
  mv_qlock m : qlk w' m = qlk w m \/ holds_mq w a m = true \/ sl_locked (qlk w m) = false;
  mv_hold m : holds_mq w' a m = true ->
    sl_locked (qlk w' m) = true /\ (holds_mq w a m = true \/ sl_locked (qlk w m) = false);
  mv_held m : sl_locked (qlk w' m) = true ->
    holds_mq w' a m = true \/ (holds_mq w a m = false /\ qlk w' m = qlk w m);
  mv_cheld c : sl_locked (clk w' c) = true ->
    at_cq (w_pc w' a) c = true \/ (at_cq (w_pc w a) c = false /\ clk w' c = clk w c);
  mv_clock c : clk w' c = clk w c \/ at_cq (w_pc w a) c = true \/ sl_locked (clk w c) = false;
  mv_chold c : at_cq (w_pc w' a) c = true ->
    sl_locked (clk w' c) = true /\ (at_cq (w_pc w a) c = true \/ sl_locked (clk w c) = false);
  mv_owner m : own w' m = own w m \/
    exists t, a = Micro t /\ holds_mq w a m = true /\
      (own w m = None \/ own w m = Some t) /\ (own w' m = None \/ own w' m = Some t);
  mv_owns t m : a = Micro t ->
    own w' m = Some t <-> w_crit w' a m || at_owner (w_pc w' a) m = true;
  mv_native n m : a = Native n -> w_crit w' a m = true -> own w' m = None;
  mv_take m : w_pc w' a = LkTake m -> own w' m = None;
  mv_outside m : at_outside (w_pc w' a) m = true -> w_crit w' a m = false;
  mv_cwlock c m : w_pc w' a = CwLock c m -> w_crit w' a m = true;
  mv_queue m : requeued a (lk_at (w_pc w a) m) (lk_at (w_pc w' a) m) (que w m) (que w' m);
  mv_cqueue c : requeued a (cw_at (w_pc w a) c) (cw_at (w_pc w' a) c) (cque w c) (cque w' c);
  mv_wake m : que w' m <> [] -> own w' m = None ->
    exists t, at_contend (w_pc w' (Micro t)) m = true;
}.

Lemma lk_at_true p m : lk_at p m = true <-> p = LkWait m.
Proof. destruct p; cbn; rewrite ?bool_decide_eq_true; naive_solver. Qed.
Lemma cw_at_true p c : cw_at p c = true <-> exists m, p = CwWait c m.
Proof. destruct p; cbn; rewrite ?bool_decide_eq_true; naive_solver. Qed.

(** A wait queue whose members are exactly the actors at a waiting point stays
    so, without duplicates, when one actor is requeued. *)
Lemma requeued_ok (a : actor) (at' at_ : actor -> bool) q q' :
  (forall b, b <> a -> at' b = at_ b) ->
  requeued a (at_ a) (at' a) q q' ->
  NoDup q -> (forall t, t ∈ q <-> at_ (Micro t) = true) ->
  NoDup q' /\ (forall t, t ∈ q' <-> at' (Micro t) = true).
Proof.
  intros Ho Hr Hn Hq. destruct Hr as [[-> Hi]|[(t & -> & -> & Hw & Hi)|(t & -> & -> & Hi)]].
  - split; [done|]. intros t. rewrite Hq.
    destruct (decide (Micro t = a)) as [<-|]; [by rewrite Hi|by rewrite Ho].
  - split.
    + apply NoDup_app. split; [done|]. split; [|apply NoDup_singleton].
      intros x Hx Hx'%list_elem_of_singleton. subst. apply Hq in Hx. congruence.
    + intros x. rewrite elem_of_app, list_elem_of_singleton, Hq.
      destruct (decide (x = t)) as [->|]; [naive_solver|].
      rewrite Ho by congruence. naive_solver.
  - inversion Hn as [|? ? Hx Hn']; subst. split; [done|]. intros x.
    destruct (decide (x = t)) as [->|]; [rewrite Hi; naive_solver|].
    rewrite Ho by congruence. rewrite <- Hq. set_solver.
Qed.

Lemma holds_mq_other a b w w' m :
  moves a w w' -> b <> a -> holds_mq w' b m = holds_mq w b m.
Proof.
  intros V Hb. unfold holds_mq. rewrite (mv_pc _ _ _ V b), (mv_crit _ _ _ V b) by done.
  done.
Qed.

Section Moves.
Context (a : actor) (w w' : world) (I : inv w) (V : moves a w w').

Lemma moves_mq_locked b m :
  holds_mq w' b m = true -> sl_locked (qlk w' m) = true.
Proof.
  destruct (decide (b = a)) as [->|Hb]; [by apply V|].
  rewrite (holds_mq_other a b w) by done. intros Hh.
  destruct (mv_qlock _ _ _ V m) as [->|[Ha|Hf]]; [by eapply inv_mq_locked|..].
  - by destruct Hb; eapply inv_mq_unique.
  - pose proof (inv_mq_locked _ I b m Hh). congruence.
Qed.
Lemma moves_mq_holder b m :
  holds_mq w' a m = true -> holds_mq w' b m = true -> b = a.
Proof.
  intros Ha Hh. destruct (decide (b = a)) as [|Hb]; [done|].
  rewrite (holds_mq_other a b w) in Hh by done.
  destruct (mv_hold _ _ _ V m Ha) as [_ [Ha'|Hf]]; [by eapply inv_mq_unique|].
  pose proof (inv_mq_locked _ I b m Hh). congruence.
Qed.
Lemma moves_mq_unique b c m :
  holds_mq w' b m = true -> holds_mq w' c m = true -> b = c.
Proof.
  intros Hb Hc. destruct (decide (b = a)) as [->|]; [symmetry; by eapply moves_mq_holder|].
  destruct (decide (c = a)) as [->|]; [by eapply moves_mq_holder|].
  rewrite (holds_mq_other a b w) in Hb by done.
  rewrite (holds_mq_other a c w) in Hc by done. by eapply inv_mq_unique.
Qed.
Lemma moves_mq_held m :
  sl_locked (qlk w' m) = true -> exists b, holds_mq w' b m = true.
Proof.
  intros Hl. destruct (mv_held _ _ _ V m Hl) as [Ha|[Ha Hs]]; [by exists a|].
  rewrite Hs in Hl. destruct (inv_mq_held _ I m Hl) as [b Hb]. exists b.
  rewrite (holds_mq_other a b w); [done|done|]. congruence.
Qed.
Lemma moves_cq_held c :
  sl_locked (clk w' c) = true -> exists b, at_cq (w_pc w' b) c = true.
Proof.
  intros Hl. destruct (mv_cheld _ _ _ V c Hl) as [Ha|[Ha Hs]]; [by exists a|].
  rewrite Hs in Hl. destruct (inv_cq_held _ I c Hl) as [b Hb]. exists b.
  rewrite (mv_pc _ _ _ V); [done|]. congruence.
Qed.
Lemma moves_cq_locked b c :
  at_cq (w_pc w' b) c = true -> sl_locked (clk w' c) = true.
Proof.
  destruct (decide (b = a)) as [->|Hb]; [by apply V|].
  rewrite (mv_pc _ _ _ V) by done. intros Hh.
  destruct (mv_clock _ _ _ V c) as [->|[Ha|Hf]]; [by eapply inv_cq_locked|..].
  - by destruct Hb; eapply inv_cq_unique.
  - pose proof (inv_cq_locked _ I b c Hh). congruence.
Qed.
Lemma moves_cq_holder b c :
  at_cq (w_pc w' a) c = true -> at_cq (w_pc w' b) c = true -> b = a.
Proof.
  intros Ha Hh. destruct (decide (b = a)) as [|Hb]; [done|].
  rewrite (mv_pc _ _ _ V) in Hh by done.
  destruct (mv_chold _ _ _ V c Ha) as [_ [Ha'|Hf]]; [by eapply inv_cq_unique|].
  pose proof (inv_cq_locked _ I b c Hh). congruence.
Qed.
Lemma moves_cq_unique b b' c :
  at_cq (w_pc w' b) c = true -> at_cq (w_pc w' b') c = true -> b = b'.
Proof.
  intros Hb Hc. destruct (decide (b = a)) as [->|]; [symmetry; by eapply moves_cq_holder|].
  destruct (decide (b' = a)) as [->|]; [by eapply moves_cq_holder|].
  rewrite (mv_pc _ _ _ V) in Hb, Hc by done. by eapply inv_cq_unique.
Qed.
(** Nobody but [a] can rely on an owner field that [a] changed. *)
Lemma moves_owner_kept b m :
  holds_mq w b m = true -> b <> a -> own w' m = own w m.
Proof.
  intros Hb Hne. destruct (mv_owner _ _ _ V m) as [|(t & -> & Ha & _)]; [done|].
  destruct Hne. by eapply inv_mq_unique.
Qed.
Lemma moves_owner t m :
  own w' m = Some t <-> w_crit w' (Micro t) m || at_owner (w_pc w' (Micro t)) m = true.
Proof.
  destruct (decide (a = Micro t)) as [E|Hne]; [rewrite <- E; by apply (mv_owns _ _ _ V)|].
  rewrite (mv_pc _ _ _ V), (mv_crit _ _ _ V) by congruence.
  rewrite <- (inv_owner _ I).
  destruct (mv_owner _ _ _ V m) as [->|(t' & -> & _ & Ho & Ho')]; [done|].
  naive_solver.
Qed.
Lemma inv_moves : inv w'.
Proof.
  constructor.
  - intros b. destruct (decide (b = a)) as [->|]; [apply V|].
    rewrite (mv_pc _ _ _ V) by done. apply I.
  - apply moves_mq_locked.
  - apply moves_mq_unique.
  - apply moves_mq_held.
  - apply moves_cq_held.
  - apply moves_cq_locked.
  - apply moves_cq_unique.
  - apply moves_owner.
  - intros n m. destruct (decide (a = Native n)) as [E|Hne]; [rewrite <- E; by eapply mv_native|].
    rewrite (mv_crit _ _ _ V) by done. intros Hc.
    rewrite (moves_owner_kept (Native n)); [by eapply inv_native| |done].
    apply holds_mq_true. naive_solver.
  - intros t m. destruct (decide (a = Micro t)) as [E|Hne]; [rewrite <- E; by eapply mv_take|].
    rewrite (mv_pc _ _ _ V) by done. intros Hc.
    rewrite (moves_owner_kept (Micro t)); [by eapply inv_take| |done].
    apply holds_mq_true. rewrite Hc. left. by apply bool_decide_eq_true.
  - intros b m. destruct (decide (b = a)) as [->|]; [apply V|].
    rewrite (mv_pc _ _ _ V), (mv_crit _ _ _ V) by done. apply I.
  - intros b c m. destruct (decide (b = a)) as [->|]; [apply V|].
    rewrite (mv_pc _ _ _ V), (mv_crit _ _ _ V) by done. apply I.
  - intros m. eapply (requeued_ok a (fun b => lk_at (w_pc w' b) m) (fun b => lk_at (w_pc w b) m));
      [intros; by rewrite (mv_pc _ _ _ V)|apply V|apply I|].
    intros t. rewrite lk_at_true. apply I.
  - intros t m. rewrite <- lk_at_true.
    eapply (requeued_ok a (fun b => lk_at (w_pc w' b) m) (fun b => lk_at (w_pc w b) m));
      [intros; by rewrite (mv_pc _ _ _ V)|apply V|apply I|].
    intros t'. rewrite lk_at_true. apply I.
  - intros c. eapply (requeued_ok a (fun b => cw_at (w_pc w' b) c) (fun b => cw_at (w_pc w b) c));
      [intros; by rewrite (mv_pc _ _ _ V)|apply V|apply I|].
    intros t. rewrite cw_at_true. apply I.
  - intros t c. rewrite <- cw_at_true.
    eapply (requeued_ok a (fun b => cw_at (w_pc w' b) c) (fun b => cw_at (w_pc w b) c));
      [intros; by rewrite (mv_pc _ _ _ V)|apply V|apply I|].
    intros t'. rewrite cw_at_true. apply I.
  - apply V.
Qed.
End Moves.

Lemma inv_at_mq w a m :
  inv w -> at_mq (w_pc w a) m = true -> sl_locked (qlk w m) = true.
Proof. intros I Ha. eapply inv_mq_locked; [done|]. apply holds_mq_true. by left. Qed.
Lemma inv_crit_mq w n m :
  inv w -> w_crit w (Native n) m = true -> sl_locked (qlk w m) = true.
Proof. intros I Ha. eapply inv_mq_locked; [done|]. apply holds_mq_true. naive_solver. Qed.

(** Discharge [moves a w w'] for a step of [a] from the point [Hpc]. *)
Ltac spec_at I a :=
  pose proof (inv_legal _ I a); pose proof (inv_outside _ I a);
  pose proof (fun m => inv_at_mq _ a m I); pose proof (inv_cq_locked _ I a);
  lazymatch a with
  | Micro ?t => pose proof (fun m => inv_owner _ I t m); pose proof (fun m => inv_take _ I t m)
  | Native ?n =>
      pose proof (fun m => inv_native _ I n m); pose proof (fun m => inv_crit_mq _ n m I)
  end.
Ltac mv_simpl :=
  repeat match goal with
  | H : context [bool_decide (?x = ?x)] |- _ => rewrite (bool_decide_eq_true_2 (x = x)) in H by done
  | |- context [bool_decide (?x = ?x)] => rewrite (bool_decide_eq_true_2 (x = x)) by done
  | H : ?x <> ?y |- context [bool_decide (?x = ?y)] => rewrite (bool_decide_eq_false_2 (x = y)) by done
  | H : ?x <> ?y |- context [bool_decide (?y = ?x)] => rewrite (bool_decide_eq_false_2 (y = x)) by congruence
  | H : ?x <> ?y, K : context [bool_decide (?x = ?y)] |- _ => rewrite (bool_decide_eq_false_2 (x = y)) in K by done
  | H : ?x <> ?y, K : context [bool_decide (?y = ?x)] |- _ => rewrite (bool_decide_eq_false_2 (y = x)) in K by congruence
  end.
Ltac mv_solve I :=
  first
    [ done | congruence | (left; done) | (right; left; done) | (right; right; done)
    | (split; [done|]; first [by left | by right])
    | match goal with
      | E : Micro _ = Micro _ |- _ => injection E as <-; solve [done | split; done | eauto 3]
      | E : Native _ = Native _ |- _ => injection E as <-; solve [done | split; done | eauto 3]
      | E : _ = _ |- _ => injection E as <-; solve [done | split; done | eauto 3]
      end
    | (left; split; done) | (split; done) | (right; split; done)
    | match goal with
      | |- ?b = true \/ ?b = false /\ _ => destruct b; [by left|by right]
      end
    | match goal with
      | E : bool_decide (_ = _) = true |- _ => apply bool_decide_eq_true_1 in E; subst; done
      end
    | match goal with
      | Hn : forall m, _ -> w_crit _ ?a m = false, Hc : w_crit _ ?a _ = true |- _ =>
          rewrite Hn in Hc by (by apply bool_decide_eq_true_2); done
      end
    | match goal with
      | E : Micro _ = Micro _, Hm : forall m, own _ m = Some _ <-> _ |- own _ _ = Some _ <-> _ =>
          injection E as <-; rewrite Hm; mv_simpl; rewrite ?orb_true_r, ?orb_false_r; done
      end
    | (right; left; eexists; split_and!; done)
    | (right; right; eexists; split_and!; done)
    | (split; [by eauto using bool_decide_eq_true_2|]; by left)
    | (right; eexists; split_and!; first [done | by left | by right | left; by eauto])
    | solve [eauto 4]
    | match goal with
      | Hw : forall m, que _ m <> [] -> _ |- exists t, at_contend _ ?m = true =>
          destruct (Hw m) as [u Hu]; [done|done|];
          exists u; case_decide; [simplify_eq|done];
          match goal with Hpc : w_pc _ _ = _ |- _ => rewrite Hpc in Hu end;
          cbn in *; mv_simpl; done
      | |- exists t, at_contend (if decide (Micro t = Micro ?u) is left _ then _ else _) _ = true =>
          exists u; case_decide; [|done]; cbn; mv_simpl; done
      end ].
Ltac mv_at I a Hpc :=
  spec_at I a; pose proof (inv_wake _ I); unfold holds_mq in *; rewrite ?Hpc in *; cbn in *;
  repeat match goal with
  | H : forall _, _ <-> _ || false = true |- _ => setoid_rewrite orb_false_r in H
  end;
  constructor; cbn; unfold holds_mq; cbn; intros; rewrite ?Hpc; rewrite ?upd_eq in *;
  unfold upd in *; repeat case_decide; subst; cbn in *;
  mv_simpl; rewrite ?orb_true_r, ?orb_false_r, ?sl_unlock_free in *; cbn in *; try mv_solve I.

(** A thread that has not yet taken [m] in this call is not its owner. *)
Lemma inv_not_owner w t m :
  inv w -> at_outside (w_pc w (Micro t)) m = true -> at_owner (w_pc w (Micro t)) m = false ->
  own w m <> Some t.
Proof.
  intros I Ho Hn E%(inv_owner _ I). rewrite (inv_outside _ I), Hn in E by done. done.
Qed.

Lemma lock_assert_ok w t m :
  inv w -> at_owner (w_pc w (Micro t)) m = false -> w_crit w (Micro t) m = false ->
  dtape_mutex_assert (Micro t) (w_mtx w m) false = true.
Proof.
  intros I Hpc Hc. unfold dtape_mutex_assert, dtape_mutex_owned.
  destruct (own w m) as [o|] eqn:Ho; [|done].
  rewrite bool_decide_false; [done|]. intros ->.
  apply (inv_owner _ I) in Ho. by rewrite Hc, Hpc in Ho.
Qed.

Lemma lock_step_moves a w w' :
  inv w -> dtape_mutex_lock_step a w = Some w' -> moves a w w'.
Proof.
  intros I E. unfold dtape_mutex_lock_step in E. destruct a as [t|n]; destruct (w_pc w _) eqn:Hpc; try done.
  - injection E as <-. unfold dtape_mutex_lock_enter. rewrite lock_assert_ok; [|done|by rewrite Hpc|].
    + mv_at I (Micro t) Hpc.
    + apply (inv_outside _ I). rewrite Hpc. by apply bool_decide_eq_true_2.
  - destruct (sl_lock _) as [l|] eqn:El; cbn in E; [|done]. injection E as <-.
    apply sl_lock_free in El as [El El'].
    mv_at I (Micro t) Hpc.
  - assert (own w m <> Some t) by
      (apply inv_not_owner; rewrite ?Hpc; cbn; mv_simpl; done).
    case_bool_decide as Ho; injection E as <-; mv_at I (Micro t) Hpc; try naive_solver.
  - injection E as <-. mv_at I (Micro t) Hpc.
  - injection E as <-. mv_at I (Micro t) Hpc.
  - destruct (sl_lock _) as [l|] eqn:El; cbn in E; [|done]. injection E as <-.
    apply sl_lock_free in El as [El El'].
    mv_at I (Native n) Hpc.
  - destruct (own w m) eqn:Ho; injection E as <-; mv_at I (Native n) Hpc.
Qed.

Lemma try_lock_step_moves a w w' :
  inv w -> dtape_mutex_try_lock_step a w = Some w' -> moves a w w'.
Proof.
  intros I E. unfold dtape_mutex_try_lock_step in E.
  pose proof (inv_legal _ I a) as Hl.
  destruct a as [t|n]; destruct (w_pc w _) eqn:Hpc; try done; clear Hl.
  - destruct (sl_lock _) as [l|] eqn:El; cbn in E; injection E as <-.
    + apply sl_lock_free in El as [El El']. mv_at I (Native n) Hpc.
    + mv_at I (Native n) Hpc.
  - destruct (own w m) eqn:Ho; injection E as <-; mv_at I (Native n) Hpc.
Qed.

(** *** Waking: the popped thread moves first, then the caller *)

Lemma wake_mutex_moves w h m q :
  inv w -> que w m = h :: q ->
  moves (Micro h) w (resume h (set_mtx m ((w_mtx w m) <| dtape_queue_head := q |>) w)).
Proof.
  intros I Hq. assert (w_pc w (Micro h) = LkWait m) as Hpc by (apply (inv_mq_wait _ I); rewrite Hq; set_solver).
  unfold resume. cbn. rewrite Hpc. mv_at I (Micro h) Hpc.
Qed.
Lemma wake_cv_moves w h c q :
  inv w -> cque w c = h :: q ->
  moves (Micro h) w (resume h (set_cv c ((w_cv w c) <| queue_head := q |>) w)).
Proof.
  intros I Hq. assert (exists m, w_pc w (Micro h) = CwWait c m) as [m Hpc] by (apply (inv_cq_wait _ I); rewrite Hq; set_solver).
  unfold resume. cbn. rewrite Hpc. mv_at I (Micro h) Hpc.
Qed.

(** After the wake-up the unlocker only moves to its next point. *)
Lemma after_wake_moves w w1 h t m k :
  inv w1 -> moves (Micro h) w w1 -> w_pc w (Micro t) = UnWake m k ->
  Micro h <> Micro t -> w_pc w1 (Micro h) = LkLoop m ->
  moves (Micro t) w1 (goto (Micro t) (UnDrop m k) w1).
Proof.
  intros I V Hpc Hne Hh. rewrite <- (mv_pc _ _ _ V) in Hpc by congruence.
  mv_at I (Micro t) Hpc; try congruence.
  all: destruct (decide (m0 = m)) as [->|]; 
    [exists h; by rewrite decide_False, Hh by congruence; apply bool_decide_eq_true_2|].
  mv_solve I.
Qed.

Lemma unlock_step_inv a w w' :
  inv w -> dtape_mutex_unlock_step a w = Some w' -> inv w'.
Proof.
  intros I E. unfold dtape_mutex_unlock_step in E.
  destruct a as [t|n]; [|done]. destruct (w_pc w _) eqn:Hpc; try done.
  - destruct (sl_lock _) as [l|] eqn:El; cbn in E; [|done]. injection E as <-.
    apply sl_lock_free in El as [El El']. apply (inv_moves (Micro t) w); [done|].
    mv_at I (Micro t) Hpc.
  - injection E as <-. apply (inv_moves (Micro t) w); [done|].
    assert (own w m = Some t) as Ho
      by (apply (inv_owner _ I); rewrite Hpc; cbn; by rewrite bool_decide_true, orb_true_r).
    assert (w_crit w (Micro t) m = false) as Hcr
      by (apply (inv_outside _ I); rewrite Hpc; by apply bool_decide_eq_true_2).
    mv_at I (Micro t) Hpc. by rewrite Hcr.
  - destruct (que w m) as [|h q] eqn:Hq; injection E as <-.
    + apply (inv_moves (Micro t) w); [done|]. mv_at I (Micro t) Hpc.
      assert (m0 <> m) by congruence. mv_solve I.
    + pose proof (wake_mutex_moves w h m q I Hq) as V.
      pose proof (inv_moves _ _ _ I V) as I1.
      assert (w_pc w (Micro h) = LkWait m) as Hh by (apply (inv_mq_wait _ I); rewrite Hq; set_solver).
      assert (Micro h <> Micro t) by congruence.
      eapply (inv_moves (Micro t)); [exact I1|]. eapply after_wake_moves; try done.
      unfold resume. cbn. rewrite Hh. cbn. by rewrite upd_eq.
  - injection E as <-. apply (inv_moves (Micro t) w); [done|].
    destruct k; mv_at I (Micro t) Hpc.
Qed.

Lemma unlock_assert_ok w t m :
  inv w -> w_crit w (Micro t) m = true -> dtape_mutex_assert (Micro t) (w_mtx w m) true = true.
Proof.
  intros I Hc. assert (own w m = Some t) as Ho by (apply (inv_owner _ I); by rewrite Hc).
  unfold dtape_mutex_assert, dtape_mutex_owned. rewrite Ho. by rewrite bool_decide_true.
Qed.
Lemma condvar_wait_step_moves a w w' :
  inv w -> dtape_condvar_wait_step a w = Some w' -> moves a w w'.
Proof.
  intros I E. unfold dtape_condvar_wait_step in E.
  destruct a as [t|n]; [|done]. destruct (w_pc w _) eqn:Hpc; try done.
  - destruct (sl_lock _) as [l|] eqn:El; cbn in E; [|done]. injection E as <-.
    apply sl_lock_free in El as [El El'].
    pose proof (inv_cwlock _ I _ _ _ Hpc) as Hc.
    rewrite (unlock_assert_ok w t m) by done.
    mv_at I (Micro t) Hpc.
  - injection E as <-. mv_at I (Micro t) Hpc.
Qed.

Lemma condvar_signal_step_inv a w w' :
  inv w -> dtape_condvar_signal_step a w = Some w' -> inv w'.
Proof.
  intros I E. unfold dtape_condvar_signal_step in E. destruct (w_pc w a) eqn:Hpc; try done.
  - destruct (sl_lock _) as [l|] eqn:El; cbn in E; [|done]. injection E as <-.
    apply sl_lock_free in El as [El El']. apply (inv_moves a w); [done|].
    destruct a as [t|u]; [mv_at I (Micro t) Hpc|mv_at I (Native u) Hpc].
  - destruct n as [|n].
    { injection E as <-. apply (inv_moves a w); [done|].
      destruct a as [t|u]; [mv_at I (Micro t) Hpc|mv_at I (Native u) Hpc]. }
    destruct (cque w c) as [|h q] eqn:Hq; injection E as <-.
    + apply (inv_moves a w); [done|].
      destruct a as [t|u]; [mv_at I (Micro t) Hpc|mv_at I (Native u) Hpc].
    + pose proof (wake_cv_moves w h c q I Hq) as V.
      pose proof (inv_moves _ _ _ I V) as I1.
      assert (exists m, w_pc w (Micro h) = CwWait c m) as [m Hh] by (apply (inv_cq_wait _ I); rewrite Hq; set_solver).
      assert (a <> Micro h) by congruence.
      eapply (inv_moves a); [exact I1|]. rewrite <- (mv_pc _ _ _ V) in Hpc by done.
      destruct a as [t|u]; [mv_at I1 (Micro t) Hpc|mv_at I1 (Native u) Hpc].
  - injection E as <-. apply (inv_moves a w); [done|].
    destruct a as [t|u]; [mv_at I (Micro t) Hpc|mv_at I (Native u) Hpc].
Qed.

Lemma enter_moves a f w :
  inv w -> w_pc w a = Idle -> polite a f w = true -> no_micro_try a f = true ->
  moves a w (enter a f w).
Proof.
  intros I Hpc Hp Hn. destruct a as [t|n], f; cbn in *; try done;
    rewrite ?negb_true_iff in Hp.
  - rewrite lock_assert_ok by (rewrite ?Hpc; done). mv_at I (Micro t) Hpc.
  - rewrite unlock_assert_ok by done. mv_at I (Micro t) Hpc.
  - mv_at I (Micro t) Hpc.
  - mv_at I (Micro t) Hpc.
  - mv_at I (Native n) Hpc.
  - mv_at I (Native n) Hpc.
  - mv_at I (Native n) Hpc.
  - mv_at I (Native n) Hpc.
Qed.

Lemma exec_inv a w w' : inv w -> exec a w = Some w' -> inv w'.
Proof.
  intros I E. unfold exec in E. destruct (w_pc w a) eqn:Hpc; try done;
    eauto using unlock_step_inv, condvar_signal_step_inv, inv_moves,
      lock_step_moves, try_lock_step_moves, condvar_wait_step_moves.
Qed.

Lemma reachable_inv w : reachable no_micro_try w -> inv w.
Proof.
  induction 1 as [|w w' Hr I Hs]; [apply inv_init|].
  destruct Hs as [a w w' E|a f w Hpc Hp Ha].
  - by eapply exec_inv.
  - eapply inv_moves; [done|]. by apply enter_moves.
Qed.

(** ** Executable schedules *)

Inductive event := EExec (a : actor) | ECall (a : actor) (f : call).

Definition happen (allowed : actor -> call -> bool) (e : event) (w : world) : option world :=
  match e with
  | EExec a => exec a w
  | ECall a f =>
      match w_pc w a with
      | Idle => if polite a f w && allowed a f then Some (enter a f w) else None
      | _ => None
      end
  end.
Fixpoint run (allowed : actor -> call -> bool) (es : list event) (w : world) : option world :=
  match es with
  | [] => Some w
  | e :: es' => w' ← happen allowed e w; run allowed es' w'
  end.

Lemma happen_step allowed e w w' : happen allowed e w = Some w' -> step allowed w w'.
Proof.
  destruct e as [a|a f]; cbn; [apply step_exec|].
  destruct (w_pc w a) eqn:Hpc; try done.
  destruct (polite a f w) eqn:Hp, (allowed a f) eqn:Ha; cbn; try done.
  intros [= <-]. by constructor.
Qed.
Lemma run_reachable_from allowed es w w' :
  reachable allowed w -> run allowed es w = Some w' -> reachable allowed w'.
Proof.
  revert w. induction es as [|e es IH]; cbn; [naive_solver|]. intros w Hr.
  destruct (happen allowed e w) as [w1|] eqn:E; cbn; [|done].
  apply IH. econstructor; [done|]. by eapply happen_step.
Qed.
Lemma run_reachable allowed es w :
  run allowed es init = Some w -> reachable allowed w.
Proof. apply run_reachable_from. constructor. Qed.

(** ** Properties *)

(** C1: mutual exclusion.  In every schedule of polite clients in which no
    microthread calls [dtape_mutex_try_lock], at most one microthread or native
    thread is between the return of its lock call on a mutex and the start of
    its unlock call. *)
Theorem mutual_exclusion w a b m :
  reachable no_micro_try w -> w_crit w a m = true -> w_crit w b m = true -> a = b.
Proof.
  intros I%reachable_inv Ha Hb. destruct a as [t|n], b as [u|k].
  - assert (own w m = Some t) by (apply (inv_owner _ I); by rewrite Ha).
    assert (own w m = Some u) by (apply (inv_owner _ I); by rewrite Hb). congruence.
  - assert (own w m = Some t) by (apply (inv_owner _ I); by rewrite Ha).
    pose proof (inv_native _ I k m Hb). congruence.
  - assert (own w m = Some u) by (apply (inv_owner _ I); by rewrite Hb).
    pose proof (inv_native _ I n m Ha). congruence.
  - apply (inv_mq_unique _ I _ _ m); apply holds_mq_true; naive_solver.
Qed.


(** a microthread's single [mutex_link] is on a queue exactly while the
    microthread is suspended there: it is on at most one mutex or condition
    variable queue, at most once, so no TAILQ insertion corrupts a queue. *)
Theorem link_on_one_queue w t :
  reachable no_micro_try w ->
  (forall m, NoDup (dtape_queue_head (w_mtx w m))) /\
  (forall c, NoDup (queue_head (w_cv w c))) /\
  (forall m, t ∈ dtape_queue_head (w_mtx w m) <-> w_pc w (Micro t) = LkWait m) /\
  (forall c, t ∈ queue_head (w_cv w c) <-> exists m, w_pc w (Micro t) = CwWait c m).
Proof. intros I%reachable_inv. split_and!; apply I. Qed.

(** The points at which a call waits for a queue lock. *)
Definition at_spin (w : world) (p : pc) : option (actor -> bool) :=
  match p with
  | LkLoop m | NtLoop m | UnLoop m _ => Some (fun b => holds_mq w b m)
  | CwLock c _ | CsLock c _ => Some (fun b => at_cq (w_pc w b) c)
  | _ => None
  end.
Definition at_rest (p : pc) : bool :=
  match p with Idle | LkWait _ | CwWait _ _ => true | _ => false end.

Lemma mq_free_or_held w m :
  inv w -> is_Some (sl_lock (qlk w m)) \/ exists b, holds_mq w b m = true.
Proof.
  intros I. destruct (sl_locked (qlk w m)) eqn:El; [right; by apply I|].
  left. by apply sl_lock_progress.
Qed.
Lemma cq_free_or_held w c :
  inv w -> is_Some (sl_lock (clk w c)) \/ exists b, at_cq (w_pc w b) c = true.
Proof.
  intros I. destruct (sl_locked (clk w c)) eqn:El; [right; by apply I|].
  left. by apply sl_lock_progress.
Qed.

(** C3: progress.  With polite clients (which lock only what they do not hold, and unlock or
    wait with only what they hold), none of them a microthread that calls
    [dtape_mutex_try_lock], no call aborts the server, be it in the assertions of lock and
    unlock or in those of the lock that a condition variable takes again after a wait; and a
    call that is neither finished nor suspended can take its next step unless it is
    spinning on a queue lock that some actor really holds: no path leaks a
    queue lock. *)
Theorem calls_progress w a :
  reachable no_micro_try w ->
  w_pc w a <> Panicked /\
  (at_rest (w_pc w a) = true \/ is_Some (exec a w) \/
   exists holds b, at_spin w (w_pc w a) = Some holds /\ holds b = true).
Proof.
  intros I%reachable_inv. pose proof (inv_legal _ I a) as Hl.
  split; [intros E; by rewrite E in Hl|].
  pose proof (fun m => mq_free_or_held w m I) as Hm.
  pose proof (fun c => cq_free_or_held w c I) as Hc.
  unfold exec, dtape_mutex_lock_step, dtape_mutex_try_lock_step, dtape_mutex_unlock_step,
    dtape_condvar_wait_step, dtape_condvar_signal_step.
  destruct (w_pc w a) eqn:Hpc; destruct a; try done; try (by left); rewrite ?Hpc; cbn;
    try (by right; left; repeat case_match; eexists); right;
    first [destruct (Hm m) as [[l ->]|[b Hb]] | destruct (Hc c) as [[l ->]|[b Hb]]];
    first [left; by eexists | right; by eexists _, b].
Qed.

Lemma resume_mtx t w : w_mtx (resume t w) = w_mtx w.
Proof. unfold resume. by case_match. Qed.
Lemma resume_cv t w : w_cv (resume t w) = w_cv w.
Proof. unfold resume. by case_match. Qed.
#[local] Hint Rewrite resume_mtx resume_cv : locks.

(** One link leaves at the head or enters at the tail. *)
Definition fifo_change (q q' : list nat) : Prop :=
  q' = q \/ (exists t, q' = q ++ [t]) \/ (exists h, q = h :: q').

(** wait queues are first in, first out, whatever the schedule and
    whoever the clients are: a step leaves a mutex or condition variable queue
    unchanged, appends one link at its tail, or removes the link at its head. *)
Theorem queues_fifo allowed w w' :
  step allowed w w' ->
  (forall m, fifo_change (dtape_queue_head (w_mtx w m)) (dtape_queue_head (w_mtx w' m))) /\
  (forall c, fifo_change (queue_head (w_cv w c)) (queue_head (w_cv w' c))).
Proof.
  unfold fifo_change. destruct 1 as [a w w' E|a f w Hpc Hp Ha].
  - unfold exec, dtape_mutex_lock_step, dtape_mutex_try_lock_step, dtape_mutex_unlock_step,
      dtape_condvar_wait_step, dtape_condvar_signal_step, dtape_mutex_lock_enter, dtape_mutex_unlock_enter in E.
    repeat (case_match; simplify_option_eq; try done);
      cbn; rewrite ?resume_mtx, ?resume_cv; cbn; split; intros x; unfold upd;
      try (case_decide; subst; cbn); eauto.
  - unfold enter, dtape_mutex_lock_enter, dtape_mutex_try_lock_enter, dtape_mutex_unlock_enter,
      dtape_condvar_wait_enter, dtape_condvar_signal_enter.
    repeat case_match; cbn; split; intros x; unfold upd; try (case_decide; subst; cbn); eauto.
Qed.

(** [a] runs [k] steps of its call with nobody interfering. *)
Fixpoint runs (a : actor) (k : nat) (w : world) : option world :=
  match k with
  | O => Some w
  | S k' => w' ← exec a w; runs a k' w'
  end.

Lemma exec_signal_pop a c n h q w :
  w_pc w a = CsLoop c (S n) -> cque w c = h :: q ->
  exec a w = Some (goto a (CsLoop c n)
                     (resume h (set_cv c ((w_cv w c) <| queue_head := q |>) w))).
Proof. intros Hpc Hq. unfold exec, dtape_condvar_signal_step. by rewrite Hpc, Hq. Qed.

Lemma goto_pc a p w b : w_pc (goto a p w) b = if decide (b = a) then p else w_pc w b.
Proof. done. Qed.

Lemma resume_other t w b : b <> Micro t -> w_pc (resume t w) b = w_pc w b.
Proof. intros Hb. unfold resume. case_match; try done; cbn; by rewrite upd_ne. Qed.

Lemma signal_wakes_inv w a c n :
  inv w -> w_pc w a = CsLoop c n ->
  exists w', runs a (S (n `min` length (cque w c))) w = Some w' /\
    w_pc w' a = CsDrop c /\
    cque w' c = drop n (cque w c) /\
    (forall b, b <> a -> (forall t, t ∈ take n (cque w c) -> b <> Micro t) ->
       w_pc w' b = w_pc w b) /\
    (forall t, t ∈ take n (cque w c) ->
       exists m, w_pc w (Micro t) = CwWait c m /\ w_pc w' (Micro t) = LkEnter m).
Proof.
  revert w. induction n as [|n IH]; intros w I Hpc.
  - eexists. split; [cbn; unfold exec, dtape_condvar_signal_step; by rewrite Hpc|].
    cbn. rewrite upd_eq, drop_0. split_and!; [done|done|intros; by rewrite upd_ne|set_solver].
  - destruct (cque w c) as [|h q] eqn:Hq.
    { eexists. split; [cbn; unfold exec, dtape_condvar_signal_step; by rewrite Hpc, Hq|].
      cbn. rewrite upd_eq, Hq. split_and!; [done|done|intros; by rewrite upd_ne|set_solver]. }
    pose proof (exec_signal_pop a c n h q w Hpc Hq) as E.
    pose proof (exec_inv _ _ _ I E) as I1. revert E I1.
    set (w1 := goto a _ _). intros E I1.
    assert (exists m, w_pc w (Micro h) = CwWait c m) as [m Hh]
      by (apply (inv_cq_wait _ I); rewrite Hq; set_solver).
    assert (Micro h <> a) as Hne by congruence.
    assert (cque w1 c = q) as Hq1.
    { unfold w1. cbn. rewrite resume_cv. cbn. by rewrite upd_eq. }
    assert (w_pc w1 a = CsLoop c n) as Hpc1 by (unfold w1; by rewrite goto_pc, decide_True).
    assert (w_pc w1 (Micro h) = LkEnter m) as Hh1.
    { unfold w1. rewrite goto_pc, decide_False by done. unfold resume. cbn. rewrite Hh.
      by rewrite goto_pc, decide_True. }
    assert (forall b, b <> a -> b <> Micro h -> w_pc w1 b = w_pc w b) as Ho.
    { intros b ??. unfold w1. rewrite goto_pc, decide_False by done. by rewrite resume_other. }
    destruct (IH w1 I1 Hpc1) as (w' & Hr & Hp & Hd & Hoth & Hwk). rewrite Hq1 in *.
    pose proof (inv_cq_nodup _ I c) as Hnd. rewrite Hq in Hnd. apply NoDup_cons in Hnd as [Hnh _].
    assert (forall t, t ∈ take n q -> t <> h) as Hth.
    { intros t Ht ->. apply Hnh. rewrite <- (take_drop n q). set_solver. }
    exists w'. split_and!; [|done|done|..].
    + cbn -[min]. rewrite E. cbn [mbind option_bind]. by rewrite <- Hr.
    + intros b Hb Hall. cbn in Hall. rewrite Hoth; [apply Ho; set_solver|done|set_solver].
    + intros t. cbn. intros [->|Ht]%elem_of_cons.
      * exists m. split; [done|]. rewrite Hoth; [done|done|]. intros t Ht [= ->]. by eapply Hth.
      * destruct (Hwk t Ht) as (m' & Hw & Hw'). exists m'. split; [|done].
        rewrite <- Ho; [done|congruence|]. intros [= ->]. by eapply Hth.
Qed.

(** [dtape_condvar_signal] with a count [n] (1 for signal, the maximum
    for broadcast) wakes exactly the [n] longest waiting threads, or all of
    them when fewer wait: its loop ends after [min n length + 1] steps, the
    links it popped are the first [n], and each of those threads is now
    re-acquiring the mutex it waited with, everyone else being untouched. *)
Theorem signal_wakes_first_n w a c n :
  reachable no_micro_try w -> w_pc w a = CsLoop c n ->
  exists w', runs a (S (n `min` length (queue_head (w_cv w c)))) w = Some w' /\
    w_pc w' a = CsDrop c /\
    queue_head (w_cv w' c) = drop n (queue_head (w_cv w c)) /\
    (forall b, b <> a -> (forall t, t ∈ take n (queue_head (w_cv w c)) -> b <> Micro t) ->
       w_pc w' b = w_pc w b) /\
    (forall t, t ∈ take n (queue_head (w_cv w c)) ->
       exists m, w_pc w (Micro t) = CwWait c m /\ w_pc w' (Micro t) = LkEnter m).
Proof. intros I%reachable_inv. by apply signal_wakes_inv. Qed.
End Locks.

(** ** Schedules used by the witnesses, over the lock word *)

(** Microthread 1 locks mutex 0; 2 blocks on it. *)
Definition contention : list event :=
  ECall (Micro 1) (CLock 0) :: replicate 4 (EExec (Micro 1)) ++
  ECall (Micro 2) (CLock 0) :: replicate 2 (EExec (Micro 2)).
(** 1 unlocks, which wakes 2; 2 gets the mutex. *)
Definition handoff : list event :=
  contention ++ ECall (Micro 1) (CUnlock 0) :: replicate 4 (EExec (Micro 1)) ++
  replicate 4 (EExec (Micro 2)).
(** 1 and 2 wait on condition variable 5 with mutex 0; native thread 0
    broadcasts and stands at the head of the signal loop. *)
Definition broadcast : list event :=
  flat_map (fun t => ECall (Micro t) (CLock 0) :: replicate 4 (EExec (Micro t)) ++
                     ECall (Micro t) (CWait 5 0) :: replicate 6 (EExec (Micro t))) [1%nat; 2%nat] ++
  [ECall (Native 0) (CSignal 5 7); EExec (Native 0)].
(** Two microthreads inside [dtape_mutex_try_lock] at once. *)
Definition double_try : list event :=
  [ECall (Micro 1) (CTryLock 0); ECall (Micro 2) (CTryLock 0);
   EExec (Micro 1); EExec (Micro 2); EExec (Micro 1); EExec (Micro 1);
   EExec (Micro 2); EExec (Micro 2)].

Definition after (es : list event) : world (L := bool) :=
  default init (run no_micro_try es init).
Lemma after_reachable es :
  is_Some (run (L := bool) no_micro_try es init) -> reachable no_micro_try (after es).
Proof. intros [w E]. unfold after. rewrite E. by eapply run_reachable. Qed.

Ltac scheduled := apply after_reachable; vm_compute; by eexists.

Lemma mutual_exclusion_witness :
  exists b, w_crit (after handoff) b 0 = true /\ b = Micro 2.
Proof.
  exists (Micro 2). split; [reflexivity|].
  apply (mutual_exclusion (after handoff) (Micro 2) (Micro 2) 0); [scheduled|reflexivity|reflexivity].
Defined.


Lemma link_on_one_queue_witness :
  dtape_queue_head (w_mtx (after contention) 0) = [2%nat] /\
  NoDup (dtape_queue_head (w_mtx (after contention) 0)).
Proof.
  split; [reflexivity|].
  apply (link_on_one_queue (after contention) 2). scheduled.
Defined.

Lemma calls_progress_witness :
  w_pc (after broadcast) (Native 0) = CsLoop 5 7 /\ w_pc (after broadcast) (Native 0) <> Panicked.
Proof.
  split; [reflexivity|].
  apply (calls_progress (after broadcast) (Native 0)). scheduled.
Defined.

Lemma queues_fifo_witness :
  fifo_change (dtape_queue_head (w_mtx (after contention) 0))
    (dtape_queue_head (w_mtx (enter (Micro 1) (CUnlock 0) (after contention)) 0)).
Proof.
  refine (proj1 (queues_fifo no_micro_try (after contention)
            (enter (Micro 1) (CUnlock 0) (after contention)) _) 0%nat).
  apply step_call; reflexivity.
Defined.

Lemma signal_wakes_first_n_witness :
  queue_head (w_cv (after broadcast) 5) = [1%nat; 2%nat] /\
  exists w', runs (Native 0) 3 (after broadcast) = Some w' /\ w_pc w' (Native 0) = CsDrop 5.
Proof.
  split; [reflexivity|].
  destruct (signal_wakes_first_n (after broadcast) (Native 0) 5 7) as (w' & Hr & Hp & _);
    [scheduled|reflexivity|].
  exists w'. split; [exact Hr|exact Hp].
Defined.

(** why the theorems above exclude it: a microthread's
    [dtape_mutex_try_lock] tests and sets the owner without taking the queue
    lock, and two polite microthreads that call it at once both get the
    mutex. *)
Theorem micro_try_lock_not_exclusive :
  exists w : world (L := bool), reachable any_call w /\
    w_crit w (Micro 1) 0 = true /\ w_crit w (Micro 2) 0 = true.
Proof.
  exists (default init (run any_call double_try init)). split_and!; [|reflexivity|reflexivity].
  destruct (run any_call double_try (init (L := bool))) as [w|] eqn:E; [|done].
  by eapply run_reachable.
Qed.
End Locks.
