(* ===== verification/SeqArith.v ===== *)
(** The 24-bit sequence numbers of the psynch protocol
    ([src/duct-tape/pthread/synch_internal.h]).  An L, U or S word keeps a
    sequence number in its upper 24 bits and flags in its lower 8. *)
From S2P Require Import Prelude.

Module SeqArith.

Definition PTHRW_COUNT_SHIFT : Z := 8.
Definition PTHRW_INC : Z := Z.shiftl 1 PTHRW_COUNT_SHIFT.
Definition PTHRW_BIT_MASK : Z := Z.shiftl 1 PTHRW_COUNT_SHIFT - 1.
Definition PTHRW_COUNT_MASK : Z := u32 (Z.lnot PTHRW_BIT_MASK).
Definition PTHRW_MAX_READERS : Z := PTHRW_COUNT_MASK.

Definition is_seqlower (x y : Z) : bool :=
  let x := Z.land x PTHRW_COUNT_MASK in
  let y := Z.land y PTHRW_COUNT_MASK in
  if x <? y then (u32 (y - x)) <? PTHRW_MAX_READERS / 2
  else (u32 (x - y)) >? PTHRW_MAX_READERS / 2.

Definition is_seqlower_eq (x y : Z) : bool :=
  if Z.land x PTHRW_COUNT_MASK =? Z.land y PTHRW_COUNT_MASK then true
  else is_seqlower x y.

Definition is_seqhigher (x y : Z) : bool :=
  let x := Z.land x PTHRW_COUNT_MASK in
  let y := Z.land y PTHRW_COUNT_MASK in
  if x >? y then (u32 (x - y)) <? PTHRW_MAX_READERS / 2
  else (u32 (y - x)) >? PTHRW_MAX_READERS / 2.

Definition is_seqhigher_eq (x y : Z) : bool :=
  if Z.land x PTHRW_COUNT_MASK =? Z.land y PTHRW_COUNT_MASK then true
  else is_seqhigher x y.

(** The C function returns an [int]: the unsigned difference is converted. *)
Definition diff_genseq (x y : Z) : Z :=
  let x := Z.land x PTHRW_COUNT_MASK in
  let y := Z.land y PTHRW_COUNT_MASK in
  if x =? y then 0
  else if x >? y then s32 (u32 (x - y))
  else s32 (u32 (u32 (u32 (PTHRW_MAX_READERS - y) + x) + PTHRW_INC)).

Definition find_diff (upto lowest : Z) : Z :=
  if upto =? lowest then 0
  else
    let diff := u32 (if is_seqlower upto lowest then diff_genseq lowest upto
                     else diff_genseq upto lowest) in
    s32 (Z.shiftr diff PTHRW_COUNT_SHIFT).

(** ** The mathematical content *)

(** The sequence number of a word. *)
Definition cnt (x : Z) : Z := (x / 256) mod 2 ^ 24.
(** How far [y] is ahead of [x], modulo 2^24. *)
Definition ahead (x y : Z) : Z := (cnt y - cnt x) mod 2 ^ 24.

Lemma count_mask_val : PTHRW_COUNT_MASK = 4294967040.
Proof. reflexivity. Qed.

Lemma land_mask x : Z.land x PTHRW_COUNT_MASK = 256 * cnt x.
Proof.
  rewrite count_mask_val. unfold cnt.
  change 4294967040 with (Z.shiftl (Z.ones 24) 8).
  rewrite Z.mul_comm. change 256 with (2 ^ 8).
  rewrite <- Z.shiftl_mul_pow2, <- Z.shiftr_div_pow2 by lia.
  rewrite <- Z.land_ones by lia.
  apply Z.bits_inj'. intros n Hn.
  rewrite Z.land_spec, !Z.shiftl_spec by lia.
  destruct (Z.ltb_spec n 8).
  - by rewrite !(Z.testbit_neg_r _ (n - 8)), andb_false_r by lia.
  - rewrite Z.land_spec, Z.shiftr_spec by lia. by replace (n - 8 + 8) with n by lia.
Qed.
Lemma cnt_range x : 0 <= cnt x < 2 ^ 24.
Proof. apply Z.mod_pos_bound. lia. Qed.
Lemma cnt_small c b : 0 <= c < 2 ^ 24 -> 0 <= b < 256 -> cnt (256 * c + b) = c.
Proof.
  intros. unfold cnt. rewrite Z.mul_comm, Z.div_add_l, (Z.div_small b) by lia.
  rewrite Z.mod_small; lia.
Qed.
Lemma cnt_mask x : cnt (Z.land x PTHRW_COUNT_MASK) = cnt x.
Proof. rewrite land_mask. rewrite <- (Z.add_0_r (256 * _)). apply cnt_small; [apply cnt_range|lia]. Qed.
Lemma mask_idem x :
  Z.land (Z.land x PTHRW_COUNT_MASK) PTHRW_COUNT_MASK = Z.land x PTHRW_COUNT_MASK.
Proof. by rewrite !(land_mask (Z.land _ _)), cnt_mask, land_mask. Qed.
Lemma mask_eq_cnt x y :
  Z.land x PTHRW_COUNT_MASK = Z.land y PTHRW_COUNT_MASK <-> cnt x = cnt y.
Proof. rewrite !land_mask. lia. Qed.
Lemma mask_eqb x y :
  (Z.land x PTHRW_COUNT_MASK =? Z.land y PTHRW_COUNT_MASK) = (cnt x =? cnt y).
Proof. rewrite !land_mask. lia. Qed.

Lemma ahead_range x y : 0 <= ahead x y < 2 ^ 24.
Proof. apply Z.mod_pos_bound. lia. Qed.
Lemma ahead_cases x y :
  ahead x y = if cnt x <=? cnt y then cnt y - cnt x else cnt y - cnt x + 2 ^ 24.
Proof.
  unfold ahead. pose proof (cnt_range x). pose proof (cnt_range y).
  case_bool; [apply Z.mod_small; lia|].
  symmetry. apply Z.mod_unique with (-1); lia.
Qed.
Lemma ahead_0 x y : ahead x y = 0 <-> cnt x = cnt y.
Proof.
  rewrite ahead_cases. pose proof (cnt_range x). pose proof (cnt_range y). case_bool; lia.
Qed.
Lemma ahead_flip x y : cnt x <> cnt y -> ahead y x = 2 ^ 24 - ahead x y.
Proof.
  rewrite !ahead_cases. pose proof (cnt_range x). pose proof (cnt_range y).
  repeat case_bool; lia.
Qed.

(** The exact meaning of the wrap-around comparison: [y] is between 1 and
    2^23 - 1 steps ahead of [x] on the 24-bit circle, or exactly half the circle
    away with [x] the larger word; the flag bits never matter. *)
Lemma is_seqlower_true x y :
  is_seqlower x y = true <->
  0 < ahead x y < 2 ^ 23 \/ (ahead x y = 2 ^ 23 /\ cnt y < cnt x).
Proof.
  unfold is_seqlower. rewrite !land_mask, ahead_cases.
  pose proof (cnt_range x) as Hx. pose proof (cnt_range y) as Hy.
  change (PTHRW_MAX_READERS / 2) with 2147483520.
  destruct (Z.ltb_spec (256 * cnt x) (256 * cnt y));
    rewrite u32_id by lia; destruct (Z.leb_spec (cnt x) (cnt y)); lia.
Qed.
Lemma is_seqhigher_lower x y : is_seqhigher x y = is_seqlower y x.
Proof.
  unfold is_seqhigher, is_seqlower. rewrite Z.gtb_ltb. done.
Qed.
Lemma is_seqlower_eq_true x y :
  is_seqlower_eq x y = true <-> cnt x = cnt y \/ is_seqlower x y = true.
Proof. unfold is_seqlower_eq. rewrite mask_eqb. destruct (Z.eqb_spec (cnt x) (cnt y)); naive_solver. Qed.
Lemma is_seqhigher_eq_lower x y : is_seqhigher_eq x y = is_seqlower_eq y x.
Proof.
  unfold is_seqhigher_eq, is_seqlower_eq. by rewrite is_seqhigher_lower, Z.eqb_sym.
Qed.
Lemma is_seqlower_mask x y :
  is_seqlower (Z.land x PTHRW_COUNT_MASK) y = is_seqlower x y.
Proof. unfold is_seqlower. by rewrite mask_idem. Qed.
Lemma is_seqlower_mask_r x y :
  is_seqlower x (Z.land y PTHRW_COUNT_MASK) = is_seqlower x y.
Proof. unfold is_seqlower. by rewrite mask_idem. Qed.
Lemma is_seqlower_irrefl x y : cnt x = cnt y -> is_seqlower x y = false.
Proof.
  intros E. apply not_true_is_false. rewrite is_seqlower_true.
  apply ahead_0 in E. lia.
Qed.
Lemma is_seqlower_flip x y :
  cnt x <> cnt y -> is_seqlower y x = negb (is_seqlower x y).
Proof.
  intros Hne. pose proof (is_seqlower_true x y) as H1. pose proof (is_seqlower_true y x) as H2.
  rewrite (ahead_flip x y) in H2 by done. pose proof (ahead_range x y).
  assert (ahead x y <> 0) by (by rewrite ahead_0).
  destruct (is_seqlower x y), (is_seqlower y x); cbn; try done.
  - exfalso. assert (is_true true) as T by done. apply proj1 in H1, H2.
    specialize (H1 eq_refl). specialize (H2 eq_refl). lia.
  - exfalso. apply proj2 in H1, H2.
    destruct (Z.lt_trichotomy (ahead x y) (2 ^ 23)) as [|[|]];
      [discriminate H1; lia| |discriminate H2; lia].
    destruct (Z.lt_trichotomy (cnt x) (cnt y)) as [|[|]]; [discriminate H2; lia|done|discriminate H1; lia].
Qed.

(** Words whose sequence numbers lie less than half the circle ahead of a
    common base [b]: the words of one lock in use at one time. *)
Definition in_window (b x : Z) : Prop := ahead b x < 2 ^ 23.

Lemma ahead_shift b x y :
  in_window b x -> in_window b y -> ahead b x <= ahead b y ->
  ahead x y = ahead b y - ahead b x.
Proof.
  unfold in_window. rewrite !ahead_cases.
  pose proof (cnt_range b). pose proof (cnt_range x). pose proof (cnt_range y).
  repeat case_bool; lia.
Qed.
Lemma window_cnt b x y : ahead b x = ahead b y <-> cnt x = cnt y.
Proof.
  rewrite !ahead_cases. pose proof (cnt_range b). pose proof (cnt_range x). pose proof (cnt_range y).
  repeat case_bool; lia.
Qed.
Lemma window_lower b x y :
  in_window b x -> in_window b y -> is_seqlower x y = (ahead b x <? ahead b y).
Proof.
  intros Hx Hy. pose proof (ahead_range b x). pose proof (ahead_range b y).
  destruct (Z.ltb_spec (ahead b x) (ahead b y)) as [Hl|Hl].
  - apply is_seqlower_true. rewrite (ahead_shift b) by (done || lia).
    unfold in_window in *. lia.
  - destruct (decide (cnt x = cnt y)) as [E|E]; [by apply is_seqlower_irrefl|].
    rewrite <- (negb_involutive (is_seqlower x y)), <- is_seqlower_flip by done.
    apply negb_false_iff, is_seqlower_true. rewrite (ahead_shift b) by (done || lia).
    assert (ahead b x <> ahead b y) by (by rewrite window_cnt). unfold in_window in *. lia.
Qed.
Lemma window_lower_eq b x y :
  in_window b x -> in_window b y -> is_seqlower_eq x y = (ahead b x <=? ahead b y).
Proof.
  intros Hx Hy. unfold is_seqlower_eq. rewrite mask_eqb, (window_lower b) by done.
  destruct (Z.eqb_spec (cnt x) (cnt y)) as [E|E]; [apply (window_cnt b) in E; lia|].
  rewrite <- (window_cnt b) in E. lia.
Qed.
Lemma diff_genseq_u32 x y : u32 (diff_genseq x y) = 256 * ahead y x.
Proof.
  unfold diff_genseq, s32, u32. rewrite !land_mask, ahead_cases.
  pose proof (cnt_range x). pose proof (cnt_range y).
  change PTHRW_MAX_READERS with 4294967040. change PTHRW_INC with 256.
  destruct (Z.eqb_spec (256 * cnt x) (256 * cnt y)).
  { rewrite Zmod_0_l. case_bool; lia. }
  rewrite Z.gtb_ltb. destruct (Z.ltb_spec (256 * cnt y) (256 * cnt x)); case_bool; try lia;
    Z.div_mod_to_equations; lia.
Qed.

Lemma find_diff_min x y : find_diff x y = Z.min (ahead x y) (ahead y x).
Proof.
  unfold find_diff. destruct (Z.eqb_spec x y) as [->|].
  { rewrite Z.min_id. symmetry. by apply ahead_0. }
  pose proof (ahead_range x y). pose proof (ahead_range y x).
  destruct (is_seqlower x y) eqn:E; rewrite diff_genseq_u32; unfold PTHRW_COUNT_SHIFT;
    rewrite Z.shiftr_div_pow2 by lia; change (2 ^ 8) with 256;
    rewrite (Z.mul_comm 256), Z.div_mul by lia; rewrite s32_id by lia.
  - apply is_seqlower_true in E. assert (cnt x <> cnt y) by (rewrite <- ahead_0; lia).
    rewrite (ahead_flip x y) by done. lia.
  - destruct (decide (cnt x = cnt y)) as [Ec|Ec].
    { rewrite !(proj2 (ahead_0 _ _)) by done. done. }
    assert (is_seqlower y x = true) as E' by (rewrite (is_seqlower_flip x y), E by done; done).
    apply is_seqlower_true in E'. rewrite (ahead_flip y x) by done. lia.
Qed.

(** C4: sequence words are totally ordered as long as they stay within half
    the circle of a common base: comparison, its non-strict form and the
    mirrored forms are then comparison of the distances from the base, so they
    are transitive and survive the wrap-around of the counter. *)
Theorem seq_order_in_window b x y :
  in_window b x -> in_window b y ->
  is_seqlower x y = (ahead b x <? ahead b y) /\
  is_seqlower_eq x y = (ahead b x <=? ahead b y) /\
  is_seqhigher x y = (ahead b y <? ahead b x) /\
  is_seqhigher_eq x y = (ahead b y <=? ahead b x).
Proof.
  intros. rewrite is_seqhigher_lower, is_seqhigher_eq_lower.
  by rewrite !(window_lower b), !(window_lower_eq b).
Qed.
Lemma seq_order_in_window_witness :
  is_seqlower 0xffffff05 0x00000203 = (ahead 0xfffffe00 0xffffff05 <? ahead 0xfffffe00 0x00000203) /\
  is_seqlower 0xffffff05 0x00000203 = true.
Proof.
  split; [|reflexivity].
  apply (seq_order_in_window 0xfffffe00 0xffffff05 0x00000203); reflexivity.
Defined.

Lemma seq_diff_zero x y : diff_genseq x y = 0 <-> cnt x = cnt y.
Proof.
  rewrite <- (ahead_0 x y). split; intros E.
  - pose proof (diff_genseq_u32 x y) as Hd. rewrite E in Hd. change (u32 0) with 0 in Hd.
    assert (ahead y x = 0) as Ha by lia. apply ahead_0 in Ha. by apply ahead_0.
  - apply ahead_0 in E. unfold diff_genseq. apply mask_eq_cnt in E. by rewrite E, Z.eqb_refl.
Qed.

(** trichotomy on all words, window or not: two words are equal in
    sequence, or exactly one of them is lower; [is_seqhigher] is the mirror
    image; and the difference functions measure the circle: [diff_genseq x y]
    is zero exactly for equal sequences and is the distance from [y] up to [x]
    in units of PTHRW_INC, while [find_diff] is the shorter way round in
    sequence numbers. *)
Theorem seq_trichotomy x y :
  (cnt x = cnt y /\ is_seqlower x y = false /\ is_seqhigher x y = false \/
   cnt x <> cnt y /\ is_seqlower x y = negb (is_seqhigher x y)) /\
  u32 (diff_genseq x y) = PTHRW_INC * ahead y x /\
  (diff_genseq x y = 0 <-> cnt x = cnt y) /\
  find_diff x y = Z.min (ahead x y) (ahead y x).
Proof.
  rewrite is_seqhigher_lower. split_and!.
  - destruct (decide (cnt x = cnt y)) as [E|E]; [left|right].
    + by rewrite !is_seqlower_irrefl.
    + split; [done|]. rewrite (is_seqlower_flip x y) by done. by rewrite negb_involutive.
  - apply diff_genseq_u32.
  - apply seq_diff_zero.
  - apply find_diff_min.
Qed.
End SeqArith.
