(* ===== verification/Ksyn.v ===== *)
(** Kernel wait queues of the psynch subsystem: the data of
    [src/duct-tape/pthread/kern_synch.c] and its queue routines
    ([ksyn_queue_insert] .. [ksyn_queue_count_tolowest]). *)
From S2P Require Import Prelude SeqArith.
Export SeqArith.

(** A wait-queue element: the one embedded in a thread ([dtape_thread::kwe]) or
    one allocated from [kwe_zone] for a prepost or a broadcast. *)
Inductive kwe_id := KThread (t : nat) | KZone (n : nat).
#[global] Instance kwe_id_eq_dec : EqDecision kwe_id.
Proof. solve_decision. Defined.
#[global] Program Instance kwe_id_countable : Countable kwe_id :=
  inj_countable' (fun e => match e with KThread t => inl t | KZone n => inr n end)
    (fun s => match s with inl t => KThread t | inr n => KZone n end) _.
Next Obligation. by intros []. Qed.

Module Ksyn.

(** Error numbers (bsd/sys/errno.h) *)
Definition ESRCH : Z := 3.
Definition EINTR : Z := 4.
Definition EBUSY : Z := 16.
Definition EINVAL : Z := 22.
Definition ETIMEDOUT : Z := 60.

(** L and S word bits (synch_internal.h) *)
Definition PTH_RWL_KBIT : Z := 0x01.
Definition PTH_RWL_EBIT : Z := 0x02.
Definition PTH_RWL_WBIT : Z := 0x04.
Definition PTH_RWL_MTX_WAIT : Z := 0x20.
Definition PTH_RWL_MBIT : Z := 0x40.
Definition PTH_RWL_IBIT : Z := 0x80.
Definition PTHRW_RWL_INIT : Z := PTH_RWL_IBIT.
Definition PTH_RWS_SBIT : Z := 0x01.
Definition PTH_RWS_IBIT : Z := 0x02.
Definition PTH_RWS_CV_CBIT : Z := PTH_RWS_SBIT.
Definition PTH_RWS_CV_PBIT : Z := PTH_RWS_IBIT.
Definition PTH_RWS_CV_MBIT : Z := PTH_RWL_MBIT.
Definition PTH_RWS_WSVBIT : Z := 0x04.
Definition PTHRW_RWS_SAVEMASK : Z := PTH_RWS_WSVBIT.
Definition PTHRW_RWS_INIT : Z := PTH_RWS_SBIT.

Inductive kwe_state_t := KWE_THREAD_NONE | KWE_THREAD_INWAIT | KWE_THREAD_PREPOST | KWE_THREAD_BROADCAST.
#[global] Instance kwe_state_eq_dec : EqDecision kwe_state_t.
Proof. solve_decision. Defined.

Inductive fit_t := SEQFIT | FIRSTFIT.
Inductive kwq_queue_type_t := KSYN_QUEUE_READ | KSYN_QUEUE_WRITE.
#[global] Instance kwq_queue_type_eq_dec : EqDecision kwq_queue_type_t.
Proof. solve_decision. Defined.
(** kwq_intr_type_t *)
Definition KWQ_INTR_NONE : Z := 0.
Definition KWQ_INTR_READ : Z := 0x1.
Definition KWQ_INTR_WRITE : Z := 0x2.

Record ksyn_waitq_element := mk_kwe {
  kwe_kwqqueue : option nat;     (* the queue it is blocked on, NULL is None *)
  kwe_thread : option nat;
  kwe_state : kwe_state_t;
  kwe_flags : Z;
  kwe_lockseq : Z;
  kwe_count : Z;
  kwe_psynchretval : Z;
}.
#[global] Instance kwe_rb : Rebuild ksyn_waitq_element := fun r =>
  mk_kwe (kwe_kwqqueue r) (kwe_thread r) (kwe_state r) (kwe_flags r) (kwe_lockseq r)
    (kwe_count r) (kwe_psynchretval r).
(** [bzero] of an element *)
Definition kwe_zero : ksyn_waitq_element := mk_kwe None None KWE_THREAD_NONE 0 0 0 0.

Record ksyn_queue := mk_kq {
  ksynq_kwelist : list kwe_id;
  ksynq_count : Z;
  ksynq_firstnum : Z;
  ksynq_lastnum : Z;
}.
#[global] Instance kq_rb : Rebuild ksyn_queue := fun r =>
  mk_kq (ksynq_kwelist r) (ksynq_count r) (ksynq_firstnum r) (ksynq_lastnum r).

Record ksyn_wait_queue := mk_kwq {
  kw_addr : Z;
  kw_owner : option nat;
  kw_object : Z;
  kw_offset : Z;
  kw_pflags : Z;
  kw_ts : Z;
  kw_iocount : Z;
  kw_dropcount : Z;
  kw_type : Z;
  kw_inqueue : Z;
  kw_fakecount : Z;
  kw_highseq : Z;
  kw_lowseq : Z;
  kw_lword : Z;
  kw_uword : Z;
  kw_sword : Z;
  kw_lastunlockseq : Z;          (* kw_cvkernelseq of a condition variable *)
  kw_lastseqword : Z;
  kw_nextseqword : Z;
  kw_prepost_count : Z;
  kw_prepost_lseq : Z;
  kw_prepost_sseq : Z;
  kw_intr_type : Z;              (* a kwq_intr_type_t *)
  kw_intr_count : Z;
  kw_intr_seq : Z;
  kw_intr_returnbits : Z;
  kw_kflags : Z;
  kw_turnstile : Z;              (* outstanding turnstile_prepare calls; NULL is 0 *)
  kw_read : ksyn_queue;          (* kw_ksynqueues[KSYN_QUEUE_READ] *)
  kw_write : ksyn_queue;         (* kw_ksynqueues[KSYN_QUEUE_WRITE] *)
}.
#[global] Instance kwq_rb : Rebuild ksyn_wait_queue := fun r =>
  mk_kwq (kw_addr r) (kw_owner r) (kw_object r) (kw_offset r) (kw_pflags r) (kw_ts r)
    (kw_iocount r) (kw_dropcount r) (kw_type r) (kw_inqueue r) (kw_fakecount r)
    (kw_highseq r) (kw_lowseq r) (kw_lword r) (kw_uword r) (kw_sword r)
    (kw_lastunlockseq r) (kw_lastseqword r) (kw_nextseqword r)
    (kw_prepost_count r) (kw_prepost_lseq r) (kw_prepost_sseq r)
    (kw_intr_type r) (kw_intr_count r) (kw_intr_seq r) (kw_intr_returnbits r)
    (kw_kflags r) (kw_turnstile r) (kw_read r) (kw_write r).

(** A queue as [ksyn_wqfind] allocates it: [bzero] and [ksyn_queue_init]. *)
Definition kwq_zero : ksyn_wait_queue :=
  mk_kwq 0 None 0 0 0 0 0 0 0 0 0 0 0 0 0 0 0 0 0 0 0 0 0 0 0 0 0 0
    (mk_kq [] 0 0 0) (mk_kq [] 0 0 0).

(** What code that works on one wait queue sees: the queue, the elements, the
    threads asleep (and on which queue), the thread reference counts, and
    whether this code holds the queue's spin lock. *)
Record lst := mk_lst {
  self : nat;
  kwq : ksyn_wait_queue;
  kwes : gmap kwe_id ksyn_waitq_element;
  zone_next : nat;
  waiting : gmap nat nat;
  trefs : nat -> Z;
  wq_held : bool;
}.
#[global] Instance lst_rb : Rebuild lst := fun r =>
  mk_lst (self r) (kwq r) (kwes r) (zone_next r) (waiting r) (trefs r) (wq_held r).

Abbreviation MQ := (M lst).

(** [kwq->f = v] and friends *)
Definition kw_mod (f : ksyn_wait_queue -> ksyn_wait_queue) : MQ unit :=
  modify (fun s => s <| kwq ::= f |>).
(** [*kwe] and [kwe->f = v]: an element that is not allocated aborts. *)
Definition kwe_deref (e : kwe_id) : MQ ksyn_waitq_element := fun s =>
  match kwes s !! e with
  | Some x => Ret x s
  | None => Panic "dangling kwe"
  end.
Definition kwe_mod (e : kwe_id) (f : ksyn_waitq_element -> ksyn_waitq_element) : MQ unit := fun s =>
  match kwes s !! e with
  | Some x => Ret tt (s <| kwes := <[e := f x]> (kwes s) |>)
  | None => Panic "dangling kwe"
  end.

Definition getq (kqi : kwq_queue_type_t) (k : ksyn_wait_queue) : ksyn_queue :=
  match kqi with KSYN_QUEUE_READ => kw_read k | KSYN_QUEUE_WRITE => kw_write k end.
Definition modq (kqi : kwq_queue_type_t) (f : ksyn_queue -> ksyn_queue) (k : ksyn_wait_queue)
    : ksyn_wait_queue :=
  match kqi with
  | KSYN_QUEUE_READ => k <| kw_read ::= f |>
  | KSYN_QUEUE_WRITE => k <| kw_write ::= f |>
  end.

(** [zalloc(kwe_zone)] (the caller zeroes the element) and [zfree]. *)
Definition zalloc_kwe : MQ kwe_id := fun s =>
  let e := KZone (zone_next s) in
  Ret e (s <| kwes := <[e := kwe_zero]> (kwes s) |> <| zone_next := S (zone_next s) |>).
Definition zfree_kwe (e : kwe_id) : MQ unit :=
  kwe_deref e ;;; modify (fun s => s <| kwes := delete e (kwes s) |>).

(** ** Queue routines *)

Definition ksyn_queue_init : ksyn_queue := mk_kq [] 0 0 0.

Definition update_low_high (lockseq : Z) (k : ksyn_wait_queue) : ksyn_wait_queue :=
  if kw_inqueue k =? 1 then k <| kw_lowseq := lockseq |> <| kw_highseq := lockseq |>
  else
    let k := if is_seqlower lockseq (kw_lowseq k) then k <| kw_lowseq := lockseq |> else k in
    if is_seqhigher lockseq (kw_highseq k) then k <| kw_highseq := lockseq |> else k.

(** The loops over [kw_ksynqueues], unrolled over its two entries. *)
Definition find_nextlowseq (k : ksyn_wait_queue) : Z :=
  let step (acc : Z * bool) (kq : ksyn_queue) :=
    let '(lowest, first) := acc in
    if ksynq_count kq >? 0 then
      let current := ksynq_firstnum kq in
      if first || is_seqlower current lowest then (current, false) else (lowest, first)
    else (lowest, first) in
  (step (step (0, true) (kw_read k)) (kw_write k)).1.
Definition find_nexthighseq (k : ksyn_wait_queue) : Z :=
  let step (acc : Z * bool) (kq : ksyn_queue) :=
    let '(highest, first) := acc in
    if ksynq_count kq >? 0 then
      let current := ksynq_lastnum kq in
      if first || is_seqhigher current highest then (current, false) else (highest, first)
    else (highest, first) in
  (step (step (0, true) (kw_read k)) (kw_write k)).1.

Fixpoint find_seq_in (seq : Z) (l : list kwe_id) : MQ (option kwe_id) :=
  match l with
  | [] => ret None
  | e :: l' =>
      kwe <- kwe_deref e ;;
      if Z.land (kwe_lockseq kwe) PTHRW_COUNT_MASK =? seq then ret (Some e)
      else find_seq_in seq l'
  end.
Definition ksyn_queue_find_seq (kqi : kwq_queue_type_t) (seq : Z) : MQ (option kwe_id) :=
  k <- gets kwq ;; find_seq_in seq (ksynq_kwelist (getq kqi k)).

(** [shim_uthread_is_cancelled]: cancellation is not implemented. *)
Definition uthread_is_cancelled (e : kwe_id) : bool := false.

(** The [TAILQ_FOREACH_SAFE] of the last branch of [ksyn_queue_insert]: the
    list with [e] before the first element with a higher sequence. *)
Fixpoint insert_before_higher (lockseq : Z) (e : kwe_id) (l : list kwe_id)
    : MQ (option (list kwe_id)) :=
  match l with
  | [] => ret None
  | q :: l' =>
      q_kwe <- kwe_deref q ;;
      if is_seqhigher (kwe_lockseq q_kwe) lockseq then ret (Some (e :: q :: l'))
      else r <- insert_before_higher lockseq e l' ;; ret (option_map (cons q) r)
  end.

Definition ksyn_queue_insert (kqi : kwq_queue_type_t) (e : kwe_id) (mgen : Z) (fit : fit_t) : MQ Z :=
  let lockseq := Z.land mgen PTHRW_COUNT_MASK in
  let set_list l := kw_mod (modq kqi (fun q => q <| ksynq_kwelist := l |>)) in
  let set_first := kw_mod (modq kqi (fun q => q <| ksynq_firstnum := lockseq |>)) in
  let set_last := kw_mod (modq kqi (fun q => q <| ksynq_lastnum := lockseq |>)) in
  k <- gets kwq ;;
  kwe <- kwe_deref e ;;
  ensure (bool_decide (kwe_kwqqueue kwe = None)) "adding enqueued item to another queue" ;;;
  let kq := getq kqi k in
  let l := ksynq_kwelist kq in
  res <-
    (if ksynq_count kq =? 0 then
       set_list (e :: l) ;;; set_first ;;; set_last ;;; ret 0
     else match fit with
     | FIRSTFIT =>
       set_list (l ++ [e]) ;;;
       when (is_seqlower lockseq (ksynq_firstnum kq)) set_first ;;;
       when (is_seqhigher lockseq (ksynq_lastnum kq)) set_last ;;;
       ret 0
     | SEQFIT =>
       if (lockseq =? ksynq_firstnum kq) || (lockseq =? ksynq_lastnum kq) then
         if bool_decide (kwe_state kwe = KWE_THREAD_PREPOST) then
           tmp <- ksyn_queue_find_seq kqi lockseq ;;
           match tmp with
           | Some (KThread _ as t) =>
               if uthread_is_cancelled t then set_list (l ++ [e]) ;;; ret 0 else ret EBUSY
           | _ => ret EBUSY
           end
         else ret EBUSY
       else if is_seqlower (ksynq_lastnum kq) lockseq then
         set_list (l ++ [e]) ;;; set_last ;;; ret 0
       else if is_seqlower lockseq (ksynq_firstnum kq) then
         set_list (e :: l) ;;; set_first ;;; ret 0
       else
         r <- insert_before_higher lockseq e l ;;
         match r with
         | Some l' => set_list l' ;;; ret 0
         | None => ret ESRCH
         end
     end) ;;
  when (res =? 0) (
    me <- gets self ;;
    kwe_mod e (fun x => x <| kwe_kwqqueue := Some me |>) ;;;
    kw_mod (modq kqi (fun q => q <| ksynq_count ::= fun c => u32 (c + 1) |>)) ;;;
    kw_mod (fun k => k <| kw_inqueue ::= fun c => u32 (c + 1) |>) ;;;
    kw_mod (update_low_high lockseq)) ;;;
  ret res.

Definition ksyn_queue_remove_item (kqi : kwq_queue_type_t) (e : kwe_id) : MQ unit :=
  k <- gets kwq ;; me <- gets self ;;
  kwe <- kwe_deref e ;;
  let kq := getq kqi k in
  ensure (negb (ksynq_count kq =? 0)) "removing item from empty queue" ;;;
  ensure (bool_decide (kwe_kwqqueue kwe = Some me)) "removing item from wrong queue" ;;;
  ensure (bool_decide (e ∈ ksynq_kwelist kq)) "TAILQ_REMOVE: not on this list" ;;;
  let l := unlink e (ksynq_kwelist kq) in
  kw_mod (modq kqi (fun q => q <| ksynq_kwelist := l |> <| ksynq_count ::= fun c => u32 (c - 1) |>)) ;;;
  kwe_mod e (fun x => x <| kwe_kwqqueue := None |>) ;;;
  (if u32 (ksynq_count kq - 1) >? 0 then
     match head l, last l with
     | Some f, Some t =>
         fk <- kwe_deref f ;; tk <- kwe_deref t ;;
         kw_mod (modq kqi (fun q =>
           q <| ksynq_firstnum := Z.land (kwe_lockseq fk) PTHRW_COUNT_MASK |>
             <| ksynq_lastnum := Z.land (kwe_lockseq tk) PTHRW_COUNT_MASK |>))
     | _, _ => panic "NULL element"
     end
   else kw_mod (modq kqi (fun q => q <| ksynq_firstnum := 0 |> <| ksynq_lastnum := 0 |>))) ;;;
  kw_mod (fun k => k <| kw_inqueue ::= fun c => u32 (c - 1) |>) ;;;
  (if u32 (kw_inqueue k - 1) >? 0 then
     let curseq := Z.land (kwe_lockseq kwe) PTHRW_COUNT_MASK in
     kw_mod (fun k => if kw_lowseq k =? curseq then k <| kw_lowseq := find_nextlowseq k |> else k) ;;;
     kw_mod (fun k => if kw_highseq k =? curseq then k <| kw_highseq := find_nexthighseq k |> else k)
   else kw_mod (fun k => k <| kw_lowseq := 0 |> <| kw_highseq := 0 |>)).

Fixpoint find_cvpreposeq_in (cgen : Z) (l : list kwe_id) : MQ (option kwe_id) :=
  match l with
  | [] => ret None
  | e :: l' =>
      kwe <- kwe_deref e ;;
      if is_seqhigher_eq (kwe_lockseq kwe) cgen then
        (* KWE_THREAD_INWAIT must be strictly equal *)
        if bool_decide (kwe_state kwe = KWE_THREAD_INWAIT) &&
           negb (Z.land (kwe_lockseq kwe) PTHRW_COUNT_MASK =? Z.land cgen PTHRW_COUNT_MASK)
        then ret None else ret (Some e)
      else find_cvpreposeq_in cgen l'
  end.
Definition ksyn_queue_find_cvpreposeq (kqi : kwq_queue_type_t) (cgen : Z) : MQ (option kwe_id) :=
  k <- gets kwq ;; find_cvpreposeq_in cgen (ksynq_kwelist (getq kqi k)).

Fixpoint find_signalseq_in (uptoseq signalseq : Z) (result : option kwe_id) (l : list kwe_id)
    : MQ (option kwe_id) :=
  match l with
  | [] => ret result
  | e :: l' =>
      q_kwe <- kwe_deref e ;;
      let seq := kwe_lockseq q_kwe in
      match kwe_state q_kwe with
      | KWE_THREAD_PREPOST =>
          if is_seqhigher seq uptoseq then ret result
          else if is_seqlower seq uptoseq then find_signalseq_in uptoseq signalseq result l'
          else ret (Some e)
      | KWE_THREAD_BROADCAST =>
          if is_seqlower seq uptoseq then find_signalseq_in uptoseq signalseq result l'
          else ret (Some e)
      | KWE_THREAD_INWAIT =>
          if is_seqhigher seq uptoseq then ret result
          else
            me <- gets self ;;
            if bool_decide (kwe_kwqqueue q_kwe = Some me) && negb (uthread_is_cancelled e) then
              if is_seqhigher_eq seq signalseq then ret (Some e)
              else find_signalseq_in uptoseq signalseq
                     (match result with None => Some e | Some _ => result end) l'
            else find_signalseq_in uptoseq signalseq result l'
      | KWE_THREAD_NONE =>
          panic "ksyn_queue_find_signalseq(): unknown wait queue element type"
      end
  end.
Definition ksyn_queue_find_signalseq (kqi : kwq_queue_type_t) (uptoseq signalseq : Z)
    : MQ (option kwe_id) :=
  k <- gets kwq ;; find_signalseq_in uptoseq signalseq None (ksynq_kwelist (getq kqi k)).

Fixpoint count_tolowest_in (upto : Z) (i : Z) (l : list kwe_id) : MQ Z :=
  match l with
  | [] => ret i
  | e :: l' =>
      kwe <- kwe_deref e ;;
      let curval := Z.land (kwe_lockseq kwe) PTHRW_COUNT_MASK in
      if is_seqhigher curval upto then ret i
      else if upto =? curval then ret (u32 (i + 1))
      else count_tolowest_in upto (u32 (i + 1)) l'
  end.
Definition ksyn_queue_count_tolowest (kqi : kwq_queue_type_t) (upto : Z) : MQ Z :=
  k <- gets kwq ;;
  let kq := getq kqi k in
  if (ksynq_count kq =? 0) || is_seqhigher (ksynq_firstnum kq) upto then ret 0
  else if upto =? ksynq_firstnum kq then ret 1
  else count_tolowest_in upto 0 (ksynq_kwelist kq).

(** Result and [*countp]. *)
Definition find_seq_till (upto nwaiters : Z) : MQ (bool * Z) :=
  c1 <- ksyn_queue_count_tolowest KSYN_QUEUE_READ upto ;;
  count <- (if c1 >=? nwaiters then ret c1
            else c2 <- ksyn_queue_count_tolowest KSYN_QUEUE_WRITE upto ;; ret (u32 (c1 + c2))) ;;
  ret (if count =? 0 then false else count >=? nwaiters, count).

Fixpoint freeallkwe_in (l : list kwe_id) : MQ unit :=
  match l with
  | [] => ret tt
  | e :: l' =>
      kwe <- kwe_deref e ;;
      when (negb (bool_decide (kwe_state kwe = KWE_THREAD_INWAIT))) (zfree_kwe e) ;;;
      freeallkwe_in l'
  end.
Definition ksyn_freeallkwe (kqi : kwq_queue_type_t) : MQ unit :=
  k <- gets kwq ;;
  freeallkwe_in (ksynq_kwelist (getq kqi k)) ;;;
  kw_mod (modq kqi (fun q => q <| ksynq_kwelist := [] |>)).

End Ksyn.
