(* ===== verification/KsynQueue.v ===== *)
(** Well-formed wait queues: the structural invariant every psynch operation
    keeps, and what the queue routines of [kern_synch.c] do to it. *)
From stdpp Require Import sorting.
From S2P Require Import Prelude SeqArith Ksyn.

Module KsynQueue.
Import Ksyn.

(** ** Symbolic execution of element accesses *)
Lemma wp_kwe_deref e x Q s :
  kwes s !! e = Some x -> Q x s -> wp (kwe_deref e) Q s.
Proof. intros E HQ. unfold wp, kwe_deref. by rewrite E. Qed.
Lemma wp_kwe_mod e x f Q s :
  kwes s !! e = Some x -> Q tt (s <| kwes := <[e := f x]> (kwes s) |>) ->
  wp (kwe_mod e f) Q s.
Proof. intros E HQ. unfold wp, kwe_mod. by rewrite E. Qed.
Lemma wp_kw_mod f (Q : unit -> lst -> Prop) s :
  Q tt (s <| kwq ::= f |>) -> wp (kw_mod f) Q s.
Proof. done. Qed.
Lemma wp_when_false {S} (m : M S unit) (Q : unit -> S -> Prop) s : Q tt s -> wp (when false m) Q s.
Proof. done. Qed.
Lemma wp_zalloc_kwe (Q : kwe_id -> lst -> Prop) s :
  Q (KZone (zone_next s))
    (s <| kwes := <[KZone (zone_next s) := kwe_zero]> (kwes s) |>
       <| zone_next := S (zone_next s) |>) ->
  wp zalloc_kwe Q s.
Proof. done. Qed.
Lemma wp_zfree_kwe e x (Q : unit -> lst -> Prop) s :
  kwes s !! e = Some x -> Q tt (s <| kwes := delete e (kwes s) |>) -> wp (zfree_kwe e) Q s.
Proof. intros E HQ. unfold zfree_kwe. apply wp_bind. by eapply wp_kwe_deref. Qed.

(** ** The structural invariant *)
Definition kwel (kqi : kwq_queue_type_t) (s : lst) : list kwe_id :=
  ksynq_kwelist (getq kqi (kwq s)).
Definition queued (s : lst) : list kwe_id := kwel KSYN_QUEUE_READ s ++ kwel KSYN_QUEUE_WRITE s.

Definition is_fake (e : kwe_id) : bool := match e with KZone _ => true | KThread _ => false end.
Definition fakes (l : list kwe_id) : Z := Z.of_nat (length (filter (fun e => is_fake e = true) l)).

(** An element on a queue of [q]: a thread's own element waits, one from the
    zone is a prepost or a broadcast. *)
Definition on_queue (q : nat) (e : kwe_id) (x : ksyn_waitq_element) : Prop :=
  kwe_kwqqueue x = Some q /\
  0 <= kwe_lockseq x < 2 ^ 32 /\ Z.land (kwe_lockseq x) PTHRW_COUNT_MASK = kwe_lockseq x /\
  match e with
  | KThread t => kwe_state x = KWE_THREAD_INWAIT /\ kwe_thread x = Some t
  | KZone _ => kwe_state x = KWE_THREAD_PREPOST \/ kwe_state x = KWE_THREAD_BROADCAST
  end.

(** [wfd d s]: well formed, except that [kw_fakecount] is [d] too high (between
    the removal or insertion of a fake and the update of the counter). *)
Record wfd (d : Z) (s : lst) : Prop := {
  wf_nodup : NoDup (queued s);
  wf_count kqi : ksynq_count (getq kqi (kwq s)) = Z.of_nat (length (kwel kqi s));
  wf_inqueue : kw_inqueue (kwq s) = Z.of_nat (length (queued s));
  wf_bound : Z.of_nat (length (queued s)) < 2 ^ 32;
  wf_fakecount : kw_fakecount (kwq s) = fakes (queued s) + d;
  wf_on e : e ∈ queued s -> exists x, kwes s !! e = Some x /\ on_queue (self s) e x;
  wf_off e x : kwes s !! e = Some x -> kwe_kwqqueue x = Some (self s) -> e ∈ queued s;
  wf_zone n : (zone_next s <= n)%nat -> kwes s !! KZone n = None;
}.
Abbreviation wf := (wfd 0).

Lemma kwel_queued kqi e s : e ∈ kwel kqi s -> e ∈ queued s.
Proof. unfold queued. destruct kqi; set_solver. Qed.
Lemma wf_nodup_q d kqi s : wfd d s -> NoDup (kwel kqi s).
Proof. intros W. pose proof (wf_nodup _ _ W) as N. apply NoDup_app in N. destruct kqi; apply N. Qed.
Lemma wf_lookup d kqi s e :
  wfd d s -> e ∈ kwel kqi s -> exists x, kwes s !! e = Some x /\ on_queue (self s) e x.
Proof. intros W He. by eapply wf_on, kwel_queued. Qed.

(** The sequence of an element. *)
Definition seq_of (s : lst) (e : kwe_id) : Z := from_option kwe_lockseq 0 (kwes s !! e).
Lemma seq_of_lookup s e x : kwes s !! e = Some x -> seq_of s e = kwe_lockseq x.
Proof. intros E. unfold seq_of. by rewrite E. Qed.
Lemma seq_of_mask d kqi s e :
  wfd d s -> e ∈ kwel kqi s -> Z.land (seq_of s e) PTHRW_COUNT_MASK = seq_of s e.
Proof.
  intros W He. destruct (wf_lookup _ _ _ _ W He) as (x & Ex & _ & _ & Hm & _).
  by rewrite (seq_of_lookup _ _ _ Ex).
Qed.

(** ** Sequence-ordered queues

    Relative to a base [b] all words of one lock lie within half the circle;
    [key b s e] is the position of element [e]. *)
Definition key (b : Z) (s : lst) (e : kwe_id) : Z := ahead b (seq_of s e).

Record sorted (b : Z) (kqi : kwq_queue_type_t) (s : lst) : Prop := {
  so_window e : e ∈ kwel kqi s -> in_window b (seq_of s e);
  so_sorted : StronglySorted (fun x y => key b s x <= key b s y) (kwel kqi s);
  so_first e : head (kwel kqi s) = Some e -> ksynq_firstnum (getq kqi (kwq s)) = seq_of s e;
  so_last e : last (kwel kqi s) = Some e -> ksynq_lastnum (getq kqi (kwq s)) = seq_of s e;
}.


(** ** Removal *)

(** The queue whose list becomes [l]: counters and end sequences follow. *)
Definition relink (s : lst) (l : list kwe_id) : ksyn_queue :=
  mk_kq l (Z.of_nat (length l))
    (from_option (seq_of s) 0 (head l)) (from_option (seq_of s) 0 (last l)).

Definition lowhigh_after_remove (curseq : Z) (k : ksyn_wait_queue) : ksyn_wait_queue :=
  if kw_inqueue k >? 0 then
    let k := if kw_lowseq k =? curseq then k <| kw_lowseq := find_nextlowseq k |> else k in
    if kw_highseq k =? curseq then k <| kw_highseq := find_nexthighseq k |> else k
  else k <| kw_lowseq := 0 |> <| kw_highseq := 0 |>.

(** The state after [ksyn_queue_remove_item]. *)
Definition removed (kqi : kwq_queue_type_t) (e : kwe_id) (s : lst) : lst :=
  s <| kwes := alter (fun x => x <| kwe_kwqqueue := None |>) e (kwes s) |>
    <| kwq ::= fun k =>
         lowhigh_after_remove (seq_of s e)
           ((modq kqi (fun _ => relink s (unlink e (kwel kqi s))) k)
              <| kw_inqueue ::= fun c => c - 1 |>) |>.

Lemma unlink_app_l {A} `{EqDecision A} (x : A) l1 l2 :
  x ∈ l1 -> unlink x (l1 ++ l2) = unlink x l1 ++ l2.
Proof.
  induction l1 as [|y l1 IH]; [set_solver|]. cbn. intros Hx.
  case_decide; [done|]. cbn. f_equal. apply IH. set_solver.
Qed.
Lemma unlink_app_r {A} `{EqDecision A} (x : A) l1 l2 :
  x ∉ l1 -> unlink x (l1 ++ l2) = l1 ++ unlink x l2.
Proof.
  induction l1 as [|y l1 IH]; [done|]. cbn. intros Hx.
  case_decide; [set_solver|]. cbn. f_equal. apply IH. set_solver.
Qed.

Lemma kwel_other d kqi kqj e s :
  wfd d s -> e ∈ kwel kqi s -> kqj <> kqi -> e ∉ kwel kqj s.
Proof.
  intros W He Hne. pose proof (wf_nodup _ _ W) as N. unfold queued in N.
  apply NoDup_app in N as (_ & N & _). destruct kqi, kqj; naive_solver.
Qed.

Lemma getq_modq kqi f k : getq kqi (modq kqi f k) = f (getq kqi k).
Proof. by destruct kqi. Qed.
Lemma lowhigh_getq kqi c k : getq kqi (lowhigh_after_remove c k) = getq kqi k.
Proof. unfold lowhigh_after_remove. repeat case_bool; by destruct kqi. Qed.

Lemma removed_kwel d kqi e s :
  wfd d s -> e ∈ kwel kqi s ->
  forall kqj, kwel kqj (removed kqi e s) = unlink e (kwel kqj s).
Proof.
  intros W He kqj. unfold kwel at 1. cbn. rewrite lowhigh_getq.
  destruct (decide (kqj = kqi)) as [->|Hne].
  - by destruct kqi.
  - rewrite (unlink_notin e (kwel kqj s)) by (by eapply kwel_other).
    by destruct kqi, kqj.
Qed.
Lemma removed_queued d kqi e s :
  wfd d s -> e ∈ kwel kqi s -> queued (removed kqi e s) = unlink e (queued s).
Proof.
  intros W He. unfold queued. rewrite !(removed_kwel d kqi) by done. destruct kqi.
  - rewrite unlink_app_l by done. f_equal. apply unlink_notin. by eapply kwel_other.
  - rewrite unlink_app_r by (by eapply kwel_other). f_equal. apply unlink_notin. by eapply kwel_other.
Qed.

Lemma fakes_unlink e l :
  e ∈ l -> fakes (unlink e l) = fakes l - (if is_fake e then 1 else 0).
Proof.
  unfold fakes. induction l as [|y l IH]; [set_solver|]. intros He. cbn [unlink].
  case_decide as E.
  - subst y. rewrite filter_cons. case_decide as F; cbn; rewrite ?F; [lia|].
    destruct (is_fake e); [done|lia].
  - rewrite !filter_cons. specialize (IH ltac:(set_solver)). case_decide; cbn; lia.
Qed.

Lemma count_pred (s : lst) (e : kwe_id) l :
  e ∈ l -> Z.of_nat (length l) < 2 ^ 32 ->
  u32 (Z.of_nat (length l) - 1) = Z.of_nat (length (unlink e l)).
Proof. intros He Hb. rewrite (unlink_length e l) in * by done. rewrite u32_id; lia. Qed.

Lemma kwel_bound d kqi s : wfd d s -> Z.of_nat (length (kwel kqi s)) < 2 ^ 32.
Proof.
  intros W. pose proof (wf_bound _ _ W) as B. unfold queued in B. rewrite length_app in B.
  destruct kqi; lia.
Qed.

(** One step of a [wp] goal over a locked queue. *)
Ltac wq_step :=
  first
    [ wp_step
    | apply wp_kw_mod
    | (apply wp_ensure; [by (apply bool_decide_eq_true_2 || idtac)|])
    | (eapply wp_kwe_deref; [eassumption|])
    | (eapply wp_kwe_mod; [eassumption|]) ]; cbv beta.

Lemma head_last_nonempty {A} (l : list A) :
  (0 < length l)%nat -> exists f t, head l = Some f /\ last l = Some t /\ f ∈ l /\ t ∈ l.
Proof.
  destruct l as [|f l]; cbn; [lia|]. intros _. destruct (last (f :: l)) as [t|] eqn:E.
  - exists f, t. split_and!; [done|done|set_solver|]. by apply last_Some_elem_of.
  - by apply last_None in E.
Qed.

Lemma alter_insert_lookup {A} (f : A -> A) (m : gmap kwe_id A) e x :
  m !! e = Some x -> alter f e m = <[e := f x]> m.
Proof.
  intros E. apply map_eq. intros i. destruct (decide (i = e)) as [->|].
  - by rewrite lookup_alter_eq, lookup_insert_eq, E.
  - by rewrite lookup_alter_ne, lookup_insert_ne.
Qed.
(** The two branches that set the end sequences of the shortened list. *)
Lemma wp_set_ends d kqi e s s1 (Q : unit -> lst -> Prop) :
  wfd d s -> e ∈ kwel kqi s ->
  (forall f, f <> e -> kwes s1 !! f = kwes s !! f) ->
  let l := unlink e (kwel kqi s) in
  Q tt (s1 <| kwq ::= modq kqi (fun q => q <| ksynq_firstnum := from_option (seq_of s) 0 (head l) |>
               <| ksynq_lastnum := from_option (seq_of s) 0 (last l) |>) |>) ->
  wp (if Z.of_nat (length l) >? 0 then
        match head l, last l with
        | Some f, Some t =>
            fk <- kwe_deref f ;; tk <- kwe_deref t ;;
            kw_mod (modq kqi (fun q =>
              q <| ksynq_firstnum := Z.land (kwe_lockseq fk) PTHRW_COUNT_MASK |>
                <| ksynq_lastnum := Z.land (kwe_lockseq tk) PTHRW_COUNT_MASK |>))
        | _, _ => panic "NULL element"
        end
      else kw_mod (modq kqi (fun q => q <| ksynq_firstnum := 0 |> <| ksynq_lastnum := 0 |>))) Q s1.
Proof.
  intros W He Hk l HQ. destruct (Z.gtb_spec (Z.of_nat (length l)) 0) as [Hg|Hg].
  2:{ assert (l = []) as El by (apply nil_length_inv; lia). rewrite El in HQ. exact HQ. }
  destruct (head_last_nonempty l) as (f & t & Ef & Et & Hf & Ht); [lia|]. rewrite Ef, Et in *.
  pose proof (wf_nodup_q _ kqi _ W) as N.
  apply (elem_of_unlink_iff e _ _ N) in Hf as [Hf Hfe]. apply (elem_of_unlink_iff e _ _ N) in Ht as [Ht Hte].
  destruct (wf_lookup _ _ _ _ W Hf) as (xf & Exf & _ & _ & Mf & _).
  destruct (wf_lookup _ _ _ _ W Ht) as (xt & Ext & _ & _ & Mt & _).
  apply wp_bind. eapply wp_kwe_deref; [by rewrite Hk|].
  apply wp_bind. eapply wp_kwe_deref; [by rewrite Hk|]. rewrite Mf, Mt.
  cbn in HQ. by rewrite (seq_of_lookup _ _ _ Exf), (seq_of_lookup _ _ _ Ext) in HQ.
Qed.

Lemma wp_set_lowhigh curseq n s (Q : unit -> lst -> Prop) :
  kw_inqueue (kwq s) = n -> Q tt (s <| kwq ::= lowhigh_after_remove curseq |>) ->
  wp (if n >? 0 then
        kw_mod (fun k => if kw_lowseq k =? curseq then k <| kw_lowseq := find_nextlowseq k |> else k) ;;;
        kw_mod (fun k => if kw_highseq k =? curseq then k <| kw_highseq := find_nexthighseq k |> else k)
      else kw_mod (fun k => k <| kw_lowseq := 0 |> <| kw_highseq := 0 |>)) Q s.
Proof.
  intros <-. destruct s as [? k ?????]. cbn [kwq].
  change ((mk_lst _ _ _ _ _ _ _) <| kwq ::= _ |>)
    with (mk_lst self0 (lowhigh_after_remove curseq k) kwes0 zone_next0 waiting0 trefs0 wq_held0).
  unfold lowhigh_after_remove. destruct (kw_inqueue k >? 0); intros HQ; exact HQ.
Qed.

Lemma wp_remove d kqi e s (Q : unit -> lst -> Prop) :
  wfd d s -> e ∈ kwel kqi s -> Q tt (removed kqi e s) ->
  wp (ksyn_queue_remove_item kqi e) Q s.
Proof.
  intros W He HQ. destruct (wf_lookup _ _ _ _ W He) as (x & Ex & Hq & _ & Hm & _).
  pose proof (wf_count _ _ W kqi) as Hc. pose proof (kwel_bound d kqi s W) as Hb.
  pose proof (count_pred s e _ He Hb) as Hp. rewrite <- Hc in Hp.
  pose proof (unlink_length _ _ He) as Hl.
  assert (u32 (kw_inqueue (kwq s) - 1) = kw_inqueue (kwq s) - 1) as Hi.
  { apply u32_id. rewrite (wf_inqueue _ _ W). pose proof (wf_bound _ _ W).
    pose proof (kwel_queued _ _ _ He) as Hz. apply list_elem_of_split in Hz as (?&?&Hz).
    rewrite Hz, length_app in *. cbn in *. lia. }
  unfold ksyn_queue_remove_item. do 6 wq_step.
  apply wp_bind, wp_ensure; [apply negb_true_iff, Z.eqb_neq; lia|].
  apply wp_bind, wp_ensure; [by apply bool_decide_eq_true_2|].
  apply wp_bind, wp_ensure; [by apply bool_decide_eq_true_2|].
  apply wp_bind, wp_kw_mod. apply wp_bind. eapply wp_kwe_mod; [exact Ex|].
  apply wp_bind. rewrite Hp. fold (kwel kqi s). eapply (wp_set_ends d kqi e s); [done|done|..].
  { intros f Hf. cbn. by rewrite lookup_insert_ne. }
  apply wp_bind, wp_kw_mod. rewrite Hm, <- (seq_of_lookup _ _ _ Ex).
  apply wp_set_lowhigh; [destruct kqi; cbn; lia|].
  eapply eq_ind; [exact HQ|]. unfold removed. rewrite (alter_insert_lookup _ _ _ x) by done.
  unfold relink. revert Hp Hi. clear. generalize (seq_of s), (unlink e (kwel kqi s)).
  destruct s as [? k ?????]. intros f l. cbn. intros Hp Hi.
  unfold update. cbn. f_equal. f_equal.
  destruct kqi, k; cbn in *; by rewrite Hi, Hp.
Qed.

Lemma removed_lookup kqi e s f :
  kwes (removed kqi e s) !! f =
  if decide (f = e) then (fun x => x <| kwe_kwqqueue := None |>) <$> kwes s !! e else kwes s !! f.
Proof.
  cbn. case_decide; [subst; by rewrite lookup_alter_eq|by rewrite lookup_alter_ne].
Qed.
Lemma removed_seq_of kqi e s f : seq_of (removed kqi e s) f = seq_of s f.
Proof.
  unfold seq_of. rewrite removed_lookup. case_decide; [subst; by destruct (kwes s !! e)|done].
Qed.
Lemma removed_key b kqi e s f : key b (removed kqi e s) f = key b s f.
Proof. unfold key. by rewrite removed_seq_of. Qed.
Lemma removed_getq d kqi e s kqj :
  wfd d s -> e ∈ kwel kqi s ->
  getq kqj (kwq (removed kqi e s)) =
  if decide (kqj = kqi) then relink s (unlink e (kwel kqi s)) else getq kqj (kwq s).
Proof.
  intros W He. cbn. rewrite lowhigh_getq. case_decide; subst; [by destruct kqi|].
  by destruct kqi, kqj.
Qed.
Lemma removed_inqueue kqi e s : kw_inqueue (kwq (removed kqi e s)) = kw_inqueue (kwq s) - 1.
Proof. cbn. unfold lowhigh_after_remove. repeat case_bool; by destruct kqi. Qed.
Lemma removed_fakecount kqi e s : kw_fakecount (kwq (removed kqi e s)) = kw_fakecount (kwq s).
Proof. cbn. unfold lowhigh_after_remove. repeat case_bool; by destruct kqi. Qed.

Lemma wf_removed d kqi e s :
  wfd d s -> e ∈ kwel kqi s ->
  wfd (d + if is_fake e then 1 else 0) (removed kqi e s).
Proof.
  intros W He. pose proof (kwel_queued _ _ _ He) as Hq.
  pose proof (wf_nodup _ _ W) as N.
  assert (queued (removed kqi e s) = unlink e (queued s)) as Eq by (by eapply removed_queued).
  pose proof (unlink_length e _ Hq) as Hl.
  constructor.
  - rewrite Eq. by apply NoDup_unlink.
  - intros kqj. rewrite (removed_kwel d) by done. rewrite (removed_getq d) by done.
    case_decide as E; [by subst|]. rewrite (wf_count _ _ W), unlink_notin; [done|].
    by eapply kwel_other.
  - rewrite removed_inqueue, (wf_inqueue _ _ W), Eq. lia.
  - rewrite Eq. pose proof (wf_bound _ _ W). lia.
  - rewrite removed_fakecount, (wf_fakecount _ _ W), Eq, fakes_unlink by done. lia.
  - intros f Hf. rewrite Eq in Hf. apply elem_of_unlink_iff in Hf as [Hf Hne]; [|done].
    rewrite removed_lookup, decide_False by done. by apply W.
  - intros f x. rewrite removed_lookup, Eq. case_decide as E.
    + subst. destruct (kwes s !! e); [|done]. cbn. by intros [= <-].
    + intros Hx Hk. apply elem_of_unlink_ne; [done|]. by eapply W.
  - intros n Hn. rewrite removed_lookup. cbn in Hn. case_decide as E; [|by apply W].
    rewrite <- E, (wf_zone _ _ W) by done. done.
Qed.

Lemma head_elem {A} (l : list A) x : head l = Some x -> x ∈ l.
Proof. destruct l; [done|]. cbn. intros [= ->]. set_solver. Qed.

Lemma ssorted_unlink {A} `{EqDecision A} (R : A -> A -> Prop) (x : A) l :
  StronglySorted R l -> StronglySorted R (unlink x l).
Proof.
  induction 1 as [|y l Hs IH Hx]; cbn; [constructor|]. case_decide; [done|].
  constructor; [done|]. rewrite Forall_forall in *. intros z Hz.
  apply Hx. by eapply elem_of_unlink.
Qed.

Lemma sorted_removed b d kqi kqj e s :
  wfd d s -> e ∈ kwel kqi s -> sorted b kqj s -> sorted b kqj (removed kqi e s).
Proof.
  intros W He [Hw Hs Hf Hl].
  assert (forall f, f ∈ unlink e (kwel kqj s) -> f ∈ kwel kqj s)
    as Hsub by (intros f; apply elem_of_unlink).
  pose proof (kwel_other d kqi kqj e s W He) as Hoth.
  constructor; rewrite ?(removed_kwel d), ?(removed_getq d) by done.
  - intros f Hf'. rewrite removed_seq_of. auto.
  - apply (ssorted_mono (fun x y => key b s x <= key b s y)).
    + intros ????. by rewrite !removed_key.
    + by apply ssorted_unlink.
  - intros f Ef. rewrite removed_seq_of. case_decide as E; [subst; cbn; by rewrite Ef|].
    rewrite unlink_notin in Ef by auto. auto.
  - intros f Ef. rewrite removed_seq_of. case_decide as E; [subst; cbn; by rewrite Ef|].
    rewrite unlink_notin in Ef by auto. auto.
Qed.

(** ** Insertion *)

(** The state after [ksyn_queue_insert] succeeded and left queue [kqi] as [q]. *)
Definition inserted (kqi : kwq_queue_type_t) (e : kwe_id) (q : ksyn_queue) (s : lst) : lst :=
  s <| kwes := alter (fun x => x <| kwe_kwqqueue := Some (self s) |>) e (kwes s) |>
    <| kwq ::= fun k =>
         update_low_high (seq_of s e)
           ((modq kqi (fun _ => q) k) <| kw_inqueue ::= fun c => c + 1 |>) |>.

Definition allocated (s : lst) (l : list kwe_id) : Prop := forall e, e ∈ l -> is_Some (kwes s !! e).

Lemma wf_allocated d kqi s : wfd d s -> allocated s (kwel kqi s).
Proof. intros W e He. destruct (wf_lookup _ _ _ _ W He) as (x & -> & _). by eexists. Qed.

(** What a scan of a queue computes, as a plain function on sequences. *)
Lemma wp_find_seq_in seq l s (Q : option kwe_id -> lst -> Prop) :
  allocated s l ->
  Q (List.find (fun e => Z.land (seq_of s e) PTHRW_COUNT_MASK =? seq) l) s ->
  wp (find_seq_in seq l) Q s.
Proof.
  intros Ha. induction l as [|e l IH]; cbn; [done|]. intros HQ.
  destruct (Ha e) as [x Ex]; [set_solver|]. apply wp_bind. eapply wp_kwe_deref; [done|].
  rewrite (seq_of_lookup _ _ _ Ex) in HQ.
  destruct (_ =? seq); [done|]. apply IH; [|done]. intros f Hf. apply Ha. set_solver.
Qed.

Lemma wp_insert_before_higher lockseq e l s (Q : option (list kwe_id) -> lst -> Prop) :
  allocated s l ->
  ((forall q, q ∈ l -> is_seqhigher (seq_of s q) lockseq = false) -> Q None s) ->
  (forall l1 q l2, l = l1 ++ q :: l2 ->
     (forall x, x ∈ l1 -> is_seqhigher (seq_of s x) lockseq = false) ->
     is_seqhigher (seq_of s q) lockseq = true -> Q (Some (l1 ++ e :: q :: l2)) s) ->
  wp (insert_before_higher lockseq e l) Q s.
Proof.
  revert Q. induction l as [|q l IH]; intros Q Ha Hn Hs; cbn; [apply Hn; set_solver|].
  destruct (Ha q) as [x Ex]; [set_solver|]. apply wp_bind. eapply wp_kwe_deref; [done|].
  rewrite <- (seq_of_lookup _ _ _ Ex). destruct (is_seqhigher _ _) eqn:E.
  { apply (Hs [] q l); [done|set_solver|done]. }
  apply wp_bind, IH; [intros f Hf; apply Ha; set_solver|..].
  - intros Hall. apply Hn. set_solver.
  - intros l1 q' l2 -> Hl Hh. apply (Hs (q :: l1) q' l2); [done|set_solver|done].
Qed.

Lemma inserted_lookup kqi e q s f :
  kwes (inserted kqi e q s) !! f =
  if decide (f = e) then (fun x => x <| kwe_kwqqueue := Some (self s) |>) <$> kwes s !! e
  else kwes s !! f.
Proof. cbn. case_decide; [subst; by rewrite lookup_alter_eq|by rewrite lookup_alter_ne]. Qed.
Lemma inserted_seq_of kqi e q s f : seq_of (inserted kqi e q s) f = seq_of s f.
Proof.
  unfold seq_of. rewrite inserted_lookup. case_decide; [subst; by destruct (kwes s !! e)|done].
Qed.
Lemma update_low_high_getq kqi c k : getq kqi (update_low_high c k) = getq kqi k.
Proof. unfold update_low_high. repeat case_bool; by destruct kqi. Qed.
Lemma inserted_getq kqi kqj e q s :
  getq kqj (kwq (inserted kqi e q s)) = if decide (kqj = kqi) then q else getq kqj (kwq s).
Proof. cbn. rewrite update_low_high_getq. by destruct kqi, kqj. Qed.
Lemma inserted_kwel kqi kqj e q s :
  kwel kqj (inserted kqi e q s) = if decide (kqj = kqi) then ksynq_kwelist q else kwel kqj s.
Proof. unfold kwel. rewrite inserted_getq. by case_decide. Qed.
Lemma inserted_inqueue kqi e q s : kw_inqueue (kwq (inserted kqi e q s)) = kw_inqueue (kwq s) + 1.
Proof. cbn. unfold update_low_high. repeat case_bool; by destruct kqi. Qed.
Lemma inserted_fakecount kqi e q s : kw_fakecount (kwq (inserted kqi e q s)) = kw_fakecount (kwq s).
Proof. cbn. unfold update_low_high. repeat case_bool; by destruct kqi. Qed.

Lemma fakes_perm l l' : l ≡ₚ l' -> fakes l = fakes l'.
Proof. intros E. unfold fakes. by rewrite E. Qed.
Lemma fakes_cons e l : fakes (e :: l) = fakes l + if is_fake e then 1 else 0.
Proof. unfold fakes. rewrite filter_cons. case_decide; destruct (is_fake e); cbn; try done; lia. Qed.

(** Nothing new is queued but [e]. *)
Lemma inserted_queued kqi e q s :
  ksynq_kwelist q ≡ₚ e :: kwel kqi s -> queued (inserted kqi e q s) ≡ₚ e :: queued s.
Proof.
  intros Hp. unfold queued. rewrite !inserted_kwel.
  destruct kqi; repeat case_decide; try done; rewrite Hp; [done|].
  by rewrite <- Permutation_middle.
Qed.

(** An element ready to be queued. *)
Definition ready (e : kwe_id) (x : ksyn_waitq_element) (s : lst) : Prop :=
  kwes s !! e = Some x /\ kwe_kwqqueue x = None /\ on_queue (self s) e (x <| kwe_kwqqueue := Some (self s) |>).

Lemma ready_not_queued d e x s : wfd d s -> ready e x s -> e ∉ queued s.
Proof. intros W (Ex & Hn & _) He. destruct (wf_on _ _ W e He) as (y & Ey & Hy & _). congruence. Qed.

Lemma wf_inserted d kqi e x q s :
  wfd d s -> ready e x s ->
  ksynq_kwelist q ≡ₚ e :: kwel kqi s -> ksynq_count q = Z.of_nat (length (ksynq_kwelist q)) ->
  Z.of_nat (length (queued s)) + 1 < 2 ^ 32 ->
  wfd (d - if is_fake e then 1 else 0) (inserted kqi e q s).
Proof.
  intros W R Hp Hc Hb. pose proof (inserted_queued kqi e q s Hp) as Eq.
  pose proof (ready_not_queued _ _ _ _ W R) as Hn. destruct R as (Ex & _ & Ho).
  constructor.
  - rewrite Eq. constructor; [done|]. apply W.
  - intros kqj. rewrite inserted_kwel, inserted_getq. case_decide; [done|]. apply W.
  - rewrite inserted_inqueue, Eq, (wf_inqueue _ _ W). cbn. lia.
  - rewrite Eq. cbn. lia.
  - rewrite inserted_fakecount, (fakes_perm _ _ Eq), fakes_cons, (wf_fakecount _ _ W). lia.
  - intros f. rewrite Eq, inserted_lookup. intros [->|Hf]%elem_of_cons.
    + rewrite decide_True, Ex by done. cbn. by eexists.
    + rewrite decide_False by congruence. by apply W.
  - intros f y. rewrite inserted_lookup, Eq. case_decide; [set_solver|].
    intros Hy Hk. apply elem_of_cons. right. by eapply W.
  - intros n Hn'. rewrite inserted_lookup. cbn in Hn'. case_decide as E; [|by apply W].
    rewrite <- E, (wf_zone _ _ W) in Ex by done. done.
Qed.

(** The end of [ksyn_queue_insert], once queue [kqi] has its new list [l] and end
    sequences [f] and [t]. *)
Lemma wp_insert_finish d kqi e x l f t lockseq s (Q : Z -> lst -> Prop) :
  wfd d s -> kwes s !! e = Some x -> seq_of s e = lockseq ->
  length l = S (length (kwel kqi s)) -> Z.of_nat (length (queued s)) + 1 < 2 ^ 32 ->
  Q 0 (inserted kqi e (mk_kq l (Z.of_nat (length l)) f t) s) ->
  wp (when (0 =? 0) (
        me <- gets self ;;
        kwe_mod e (fun x => x <| kwe_kwqqueue := Some me |>) ;;;
        kw_mod (modq kqi (fun q => q <| ksynq_count ::= fun c => u32 (c + 1) |>)) ;;;
        kw_mod (fun k => k <| kw_inqueue ::= fun c => u32 (c + 1) |>) ;;;
        kw_mod (update_low_high lockseq)) ;;; ret 0) Q
    (s <| kwq ::= modq kqi (fun q => mk_kq l (ksynq_count q) f t) |>).
Proof.
  intros W Ex Es Hl Hb HQ. apply wp_bind, wp_when_true. do 2 wq_step.
  apply wp_bind. eapply wp_kwe_mod; [exact Ex|]. do 2 (apply wp_bind, wp_kw_mod). apply wp_kw_mod.
  apply wp_ret. eapply eq_ind; [exact HQ|]. unfold inserted.
  rewrite (alter_insert_lookup _ _ _ x), Es by done.
  pose proof (wf_count _ _ W kqi) as Hc. pose proof (wf_inqueue _ _ W) as Hi.
  assert (u32 (kw_inqueue (kwq s) + 1) = kw_inqueue (kwq s) + 1) as H1 by (apply u32_id; lia).
  assert (u32 (ksynq_count (getq kqi (kwq s)) + 1) = Z.of_nat (length l)) as H2.
  { pose proof (kwel_bound _ kqi _ W). rewrite Hc, Hl, Nat2Z.inj_succ, <- Z.add_1_r. apply u32_id.
    unfold queued in Hb. rewrite length_app in Hb. destruct kqi; lia. }
  revert H1 H2. clear. destruct s as [? k ?????]. cbn. intros H1 H2.
  unfold update. cbn. f_equal. f_equal. destruct kqi, k; cbn in *; by rewrite H1, H2.
Qed.

(** Where a sequence-ordered insertion puts [e]. *)
Definition split_at (b : Z) (s : lst) (c : Z) (l l1 l2 : list kwe_id) : Prop :=
  l = l1 ++ l2 /\ (forall y, y ∈ l1 -> key b s y <= c) /\ (forall y, y ∈ l2 -> c < key b s y).

Lemma split_at_sorted b s c l l1 l2 e :
  StronglySorted (fun x y => key b s x <= key b s y) l -> split_at b s c l l1 l2 -> key b s e = c ->
  StronglySorted (fun x y => key b s x <= key b s y) (l1 ++ e :: l2).
Proof.
  intros Hs (-> & H1 & H2) Hc.
  apply StronglySorted_app in Hs as (H12 & S1 & S2).
  apply StronglySorted_app. split_and!.
  - intros x y Hx [->|Hy]%elem_of_cons; [rewrite Hc; auto|auto].
  - done.
  - constructor; [done|]. apply Forall_forall. intros y Hy. rewrite Hc. specialize (H2 y Hy). lia.
Qed.

(** A non-empty queue has ends. *)
Lemma ends_of d kqi s :
  wfd d s -> (ksynq_count (getq kqi (kwq s)) =? 0) = false ->
  exists h t, head (kwel kqi s) = Some h /\ last (kwel kqi s) = Some t /\
    h ∈ kwel kqi s /\ t ∈ kwel kqi s.
Proof.
  intros W Hc. apply Z.eqb_neq in Hc. rewrite (wf_count _ _ W) in Hc.
  apply head_last_nonempty. lia.
Qed.
Lemma relink_app_r s l e f :
  head l = Some f -> relink s (l ++ [e]) = mk_kq (l ++ [e]) (Z.of_nat (length (l ++ [e]))) (seq_of s f) (seq_of s e).
Proof. intros Hf. unfold relink. rewrite last_snoc. destruct l; [done|]. cbn in *. by injection Hf as ->. Qed.
Lemma relink_cons s l e t :
  last l = Some t -> relink s (e :: l) = mk_kq (e :: l) (Z.of_nat (length (e :: l))) (seq_of s e) (seq_of s t).
Proof. intros Ht. unfold relink. destruct l; [done|]. rewrite last_cons_cons, Ht. done. Qed.
Lemma relink_mid s l1 q l2 e f t :
  head (l1 ++ q :: l2) = Some f -> last (l1 ++ q :: l2) = Some t -> l1 <> [] ->
  relink s (l1 ++ e :: q :: l2) =
  mk_kq (l1 ++ e :: q :: l2) (Z.of_nat (length (l1 ++ e :: q :: l2))) (seq_of s f) (seq_of s t).
Proof.
  intros Hf Ht Hn. unfold relink. destruct l1 as [|a l1]; [done|]. cbn in Hf |- *. injection Hf as ->.
  f_equal. rewrite app_comm_cons, last_app in *. cbn in *. by rewrite Ht.
Qed.

Lemma key_le_last b kqi s t y :
  sorted b kqi s -> last (kwel kqi s) = Some t -> y ∈ kwel kqi s -> key b s y <= key b s t.
Proof.
  intros [_ Hs _ _] Ht Hy. apply last_Some in Ht as [l' E]. rewrite E in Hs, Hy.
  apply elem_of_app in Hy as [Hy| ->%list_elem_of_singleton]; [|lia].
  apply StronglySorted_app in Hs as (Hx & _). apply Hx; set_solver.
Qed.
Lemma key_ge_head b kqi s h y :
  sorted b kqi s -> head (kwel kqi s) = Some h -> y ∈ kwel kqi s -> key b s h <= key b s y.
Proof.
  intros [_ Hs _ _] Hh Hy. destruct (kwel kqi s) as [|a l]; [done|]. injection Hh as ->.
  apply StronglySorted_inv in Hs as [_ Hs]. rewrite Forall_forall in Hs.
  apply elem_of_cons in Hy as [->|Hy]; [lia|auto].
Qed.

(** The same, from the state any of the branches leaves. *)
Lemma wp_insert_finish' d kqi e x q s s1 (Q : Z -> lst -> Prop) :
  wfd d s -> kwes s !! e = Some x ->
  ksynq_count q = Z.of_nat (length (ksynq_kwelist q)) ->
  length (ksynq_kwelist q) = S (length (kwel kqi s)) -> Z.of_nat (length (queued s)) + 1 < 2 ^ 32 ->
  s1 = s <| kwq ::= modq kqi (fun q0 => q <| ksynq_count := ksynq_count q0 |>) |> ->
  Q 0 (inserted kqi e q s) ->
  wp (when (0 =? 0) (
        me <- gets self ;;
        kwe_mod e (fun x => x <| kwe_kwqqueue := Some me |>) ;;;
        kw_mod (modq kqi (fun q => q <| ksynq_count ::= fun c => u32 (c + 1) |>)) ;;;
        kw_mod (fun k => k <| kw_inqueue ::= fun c => u32 (c + 1) |>) ;;;
        kw_mod (update_low_high (seq_of s e))) ;;; ret 0) Q s1.
Proof.
  intros W Ex Hc Hl Hb -> HQ. destruct q as [l c f t]. cbn in *. subst c.
  by eapply wp_insert_finish.
Qed.

Lemma same_key b d kqi s y e mgen :
  wfd d s -> y ∈ kwel kqi s -> Z.land mgen PTHRW_COUNT_MASK = seq_of s e ->
  key b s y = ahead b mgen -> seq_of s y = seq_of s e.
Proof.
  intros W Hy Hm Hk. apply window_cnt, mask_eq_cnt in Hk.
  by rewrite (seq_of_mask _ _ _ _ W Hy), Hm in Hk.
Qed.
Lemma split_at_first b kqi s c l1 q l2 :
  sorted b kqi s -> kwel kqi s = l1 ++ q :: l2 ->
  (forall y, y ∈ l1 -> key b s y <= c) -> c < key b s q ->
  split_at b s c (kwel kqi s) l1 (q :: l2).
Proof.
  intros [_ Hs _ _] E H1 H2. split_and!; [done|done|]. rewrite E in Hs.
  apply StronglySorted_app in Hs as (_ & _ & Hs). apply StronglySorted_inv in Hs as [_ Hs].
  rewrite Forall_forall in Hs. intros y [->|Hy]%elem_of_cons; [done|]. specialize (Hs y Hy). cbn in Hs. lia.
Qed.

Lemma split_at_end b kqi s c t :
  sorted b kqi s -> last (kwel kqi s) = Some t -> key b s t < c -> split_at b s c (kwel kqi s) (kwel kqi s) [].
Proof.
  intros So Ht Hlt. split_and!; [by rewrite app_nil_r| |set_solver]. intros y Hy. pose proof (key_le_last _ _ _ _ _ So Ht Hy). lia.
Qed.
Lemma split_at_start b kqi s c h :
  sorted b kqi s -> head (kwel kqi s) = Some h -> c < key b s h -> split_at b s c (kwel kqi s) [] (kwel kqi s).
Proof.
  intros So Hh Hlt. split_and!; [done|set_solver|]. intros y Hy. pose proof (key_ge_head _ _ _ _ _ So Hh Hy). lia.
Qed.
Lemma split_at_insert b s c l l1 l2 (e : kwe_id) : split_at b s c l l1 l2 -> length (l1 ++ e :: l2) = S (length l).
Proof. intros (-> & _). rewrite !length_app. cbn. lia. Qed.
(** Comparing sequence words of a sorted queue is comparing keys. *)
Lemma sorted_compare b kqi s e mgen y :
  sorted b kqi s -> Z.land mgen PTHRW_COUNT_MASK = seq_of s e -> in_window b mgen -> y ∈ kwel kqi s ->
  is_seqlower (seq_of s y) (seq_of s e) = (key b s y <? ahead b mgen) /\
  is_seqlower (seq_of s e) (seq_of s y) = (ahead b mgen <? key b s y).
Proof.
  intros So Hm Hw Hy. rewrite <- Hm, is_seqlower_mask, is_seqlower_mask_r. split; apply window_lower; by (done || apply So).
Qed.

Lemma wp_insert_seqfit b d kqi e x mgen s (Q : Z -> lst -> Prop) :
  wfd d s -> sorted b kqi s -> ready e x s ->
  Z.land mgen PTHRW_COUNT_MASK = seq_of s e -> in_window b mgen ->
  Z.of_nat (length (queued s)) + 1 < 2 ^ 32 ->
  (forall f, (head (kwel kqi s) = Some f \/ last (kwel kqi s) = Some f) ->
     seq_of s f = seq_of s e -> Q EBUSY s) ->
  (forall l1 l2, split_at b s (ahead b mgen) (kwel kqi s) l1 l2 ->
     Q 0 (inserted kqi e (relink s (l1 ++ e :: l2)) s)) ->
  wp (ksyn_queue_insert kqi e mgen SEQFIT) Q s.
Proof.
  intros W So R Hm Hw Hb Hbusy Hok. pose proof R as (Ex & Hn & _).
  pose proof (fun y => sorted_compare b kqi s e mgen y So Hm Hw) as Hcmp.
  unfold ksyn_queue_insert. rewrite Hm. do 4 wq_step.
  apply wp_bind, wp_ensure; [by apply bool_decide_eq_true_2|]. apply wp_bind.
  destruct (ksynq_count (getq kqi (kwq s)) =? 0) eqn:Hc.
  { assert (kwel kqi s = []) as E.
    { apply nil_length_inv. apply Z.eqb_eq in Hc. rewrite (wf_count _ _ W) in Hc. lia. }
    do 3 (apply wp_bind, wp_kw_mod). apply wp_ret. fold (kwel kqi s). rewrite E in *.
    assert (split_at b s (ahead b mgen) [] [] []) as Sp by (split_and!; [done|set_solver..]).
    eapply (wp_insert_finish' d kqi e x (relink s [e])); try done; [by rewrite E| |by apply (Hok [] [])].
    by destruct kqi. }
  destruct (ends_of _ _ _ W Hc) as (h & t & Hh & Ht & Hhin & Htin).
  pose proof (so_first _ _ _ So h Hh) as Hf. pose proof (so_last _ _ _ So t Ht) as Hl.
  rewrite Hf, Hl. fold (kwel kqi s).
  destruct ((seq_of s e =? seq_of s h) || (seq_of s e =? seq_of s t)) eqn:Eb.
  { assert (Q EBUSY s) as HB.
    { apply orb_true_iff in Eb as [E|E]; apply Z.eqb_eq in E; [apply (Hbusy h)|apply (Hbusy t)]; auto. }
    case_bool; [|done]. unfold ksyn_queue_find_seq. do 2 apply wp_bind. apply wp_gets.
    apply wp_find_seq_in; [by eapply wf_allocated|]. destruct (List.find _ _) as [[]|]; done. }
  apply orb_false_iff in Eb as [Eh Et]. apply Z.eqb_neq in Eh, Et.
  destruct (Hcmp t Htin) as [-> _]. destruct (Z.ltb_spec (key b s t) (ahead b mgen)) as [Hlt|Hge].
  { pose proof (split_at_end b kqi s _ t So Ht Hlt) as Sp.
    do 2 (apply wp_bind, wp_kw_mod). apply wp_ret.
    eapply (wp_insert_finish' d kqi e x (relink s (kwel kqi s ++ [e]))); try done;
      [by eapply split_at_insert| |by apply (Hok _ [])].
    rewrite (relink_app_r _ _ _ _ Hh), <- Hf. by destruct kqi. }
  destruct (Hcmp h Hhin) as [_ ->]. destruct (Z.ltb_spec (ahead b mgen) (key b s h)) as [Hlt|Hge'].
  { pose proof (split_at_start b kqi s _ h So Hh Hlt) as Sp.
    do 2 (apply wp_bind, wp_kw_mod). apply wp_ret.
    eapply (wp_insert_finish' d kqi e x (relink s (e :: kwel kqi s))); try done; [| by apply (Hok [])].
    rewrite (relink_cons _ _ _ _ Ht), <- Hl. by destruct kqi. }
  apply wp_bind, wp_insert_before_higher; [by eapply wf_allocated|..].
  - intros Hno. specialize (Hno t Htin). rewrite is_seqhigher_lower in Hno.
    rewrite (proj2 (Hcmp t Htin)) in Hno. apply Z.ltb_ge in Hno.
    destruct Et. symmetry. apply (same_key b d kqi s t e mgen); auto with lia.
  - intros l1 q l2 El Hlow Hhigh. cbv beta iota. apply wp_bind. apply wp_kw_mod. apply wp_ret.
    assert (split_at b s (ahead b mgen) (kwel kqi s) l1 (q :: l2)) as Sp.
    { eapply split_at_first; [done|done| |].
      - intros y Hy. specialize (Hlow y Hy). rewrite is_seqhigher_lower in Hlow.
        rewrite (proj2 (Hcmp y ltac:(rewrite El; set_solver))) in Hlow. by apply Z.ltb_ge in Hlow.
      - rewrite is_seqhigher_lower, (proj2 (Hcmp q ltac:(rewrite El; set_solver))) in Hhigh.
        by apply Z.ltb_lt in Hhigh. }
    eapply (wp_insert_finish' d kqi e x (relink s (l1 ++ e :: q :: l2))); try done;
      [by eapply split_at_insert| |by apply (Hok _ (q :: l2))].
    rewrite (relink_mid s l1 q l2 e h t), <- Hf, <- Hl; [by destruct kqi|by rewrite <- El..|].
    intros ->. rewrite El in Hh. injection Hh as ->. destruct Sp as (_ & _ & Sp).
    specialize (Sp h ltac:(set_solver)). lia.
Qed.

Lemma sorted_inserted b kqi kqj e l1 l2 mgen s :
  sorted b kqj s -> split_at b s (ahead b mgen) (kwel kqi s) l1 l2 ->
  Z.land mgen PTHRW_COUNT_MASK = seq_of s e -> in_window b mgen ->
  sorted b kqj (inserted kqi e (relink s (l1 ++ e :: l2)) s).
Proof.
  intros So Sp Hm Hw. assert (key b s e = ahead b mgen) as Hk.
  { unfold key. rewrite <- Hm. apply window_cnt. apply cnt_mask. }
  destruct (decide (kqj = kqi)) as [->|Hne].
  - constructor; rewrite ?inserted_kwel, ?inserted_getq, ?decide_True by done; cbn.
    + intros f Hf. rewrite inserted_seq_of. destruct Sp as (E & _).
      assert (f = e \/ f ∈ kwel kqi s) as [->|Hin] by (rewrite E; set_solver); [|by apply So].
      unfold in_window in *. unfold key in Hk. lia.
    + eapply (ssorted_mono (fun x y => key b s x <= key b s y));
        [intros; unfold key; by rewrite !inserted_seq_of|].
      eapply split_at_sorted; [apply So|done|done].
    + intros f ->. cbn. by rewrite inserted_seq_of.
    + intros f ->. cbn. by rewrite inserted_seq_of.
  - destruct So as [S1 S2 S3 S4].
    constructor; rewrite ?inserted_kwel, ?inserted_getq, ?decide_False by done.
    + intros f Hf. rewrite inserted_seq_of. auto.
    + eapply (ssorted_mono (fun x y => key b s x <= key b s y));
        [intros; unfold key; by rewrite !inserted_seq_of|done].
    + intros f Hf. rewrite inserted_seq_of. auto.
    + intros f Hf. rewrite inserted_seq_of. auto.
Qed.

Lemma relink_perm b s c kqi e l1 l2 :
  split_at b s c (kwel kqi s) l1 l2 -> ksynq_kwelist (relink s (l1 ++ e :: l2)) ≡ₚ e :: kwel kqi s.
Proof. intros (-> & _). cbn. by rewrite <- Permutation_middle. Qed.

(** First-fit insertion appends, whatever the sequence. *)
Definition appended (s : lst) (kqi : kwq_queue_type_t) (e : kwe_id) : ksyn_queue :=
  let q := getq kqi (kwq s) in
  if ksynq_count q =? 0 then relink s [e]
  else mk_kq (ksynq_kwelist q ++ [e]) (ksynq_count q + 1)
         (if is_seqlower (seq_of s e) (ksynq_firstnum q) then seq_of s e else ksynq_firstnum q)
         (if is_seqhigher (seq_of s e) (ksynq_lastnum q) then seq_of s e else ksynq_lastnum q).

Lemma appended_list d s kqi e : wfd d s -> ksynq_kwelist (appended s kqi e) = kwel kqi s ++ [e].
Proof.
  intros W. unfold appended. destruct (ksynq_count _ =? 0) eqn:Hc; [|done].
  apply Z.eqb_eq in Hc. rewrite (wf_count _ _ W) in Hc.
  assert (kwel kqi s = []) as -> by (apply nil_length_inv; lia). done.
Qed.
Lemma appended_count d s kqi e :
  wfd d s -> ksynq_count (appended s kqi e) = Z.of_nat (length (ksynq_kwelist (appended s kqi e))).
Proof.
  intros W. rewrite (appended_list d) by done. rewrite length_app. unfold appended.
  pose proof (wf_count _ _ W kqi) as Hc.
  destruct (Z.eqb_spec (ksynq_count (getq kqi (kwq s))) 0); cbn; lia.
Qed.

Lemma wp_insert_firstfit d kqi e x mgen s (Q : Z -> lst -> Prop) :
  wfd d s -> ready e x s -> Z.land mgen PTHRW_COUNT_MASK = seq_of s e ->
  Z.of_nat (length (queued s)) + 1 < 2 ^ 32 ->
  Q 0 (inserted kqi e (appended s kqi e) s) ->
  wp (ksyn_queue_insert kqi e mgen FIRSTFIT) Q s.
Proof.
  intros W R Hm Hb HQ. pose proof R as (Ex & Hn & _).
  assert (length (ksynq_kwelist (appended s kqi e)) = S (length (kwel kqi s))) as Hlen.
  { rewrite (appended_list d), length_app by done. cbn. lia. }
  pose proof (appended_count d s kqi e W) as Hct.
  unfold ksyn_queue_insert. rewrite Hm. do 4 wq_step.
  apply wp_bind, wp_ensure; [by apply bool_decide_eq_true_2|]. apply wp_bind.
  pose proof (appended_list d s kqi e W) as Hlist. unfold kwel in Hlist.
  unfold appended in *. destruct (ksynq_count (getq kqi (kwq s)) =? 0) eqn:Hc.
  - do 3 (apply wp_bind, wp_kw_mod). apply wp_ret.
    eapply (wp_insert_finish' d kqi e x (relink s [e])); try done.
    destruct (ksynq_kwelist (getq kqi (kwq s))); [by destruct kqi|].
    cbn in Hlist. apply (f_equal length) in Hlist. cbn in Hlist. rewrite length_app in Hlist. cbn in Hlist. lia.
  - apply wp_bind, wp_kw_mod.
    apply wp_bind. destruct (is_seqlower _ _); [apply wp_when_true, wp_kw_mod|apply wp_when_false];
      apply wp_bind; (destruct (is_seqhigher _ _); [apply wp_when_true, wp_kw_mod|apply wp_when_false]);
      apply wp_ret; eapply (wp_insert_finish' d kqi e x); try done; cbn [ksynq_kwelist]; by destruct kqi.
Qed.

(** Insertion into any well-formed queue, ordered or not. *)
Lemma wp_insert_any d kqi e x mgen fit s (Q : Z -> lst -> Prop) :
  wfd d s -> ready e x s -> Z.land mgen PTHRW_COUNT_MASK = seq_of s e ->
  Z.of_nat (length (queued s)) + 1 < 2 ^ 32 ->
  (forall res, res = EBUSY \/ res = ESRCH -> Q res s) ->
  (forall q, ksynq_kwelist q ≡ₚ e :: kwel kqi s -> ksynq_count q = Z.of_nat (length (ksynq_kwelist q)) ->
     Q 0 (inserted kqi e q s)) ->
  wp (ksyn_queue_insert kqi e mgen fit) Q s.
Proof.
  intros W R Hm Hb Hbusy Hok. destruct fit.
  2:{ eapply wp_insert_firstfit; [done|done|done|done|]. apply Hok; [|by eapply appended_count].
      rewrite (appended_list d) by done. by rewrite Permutation_app_comm. }
  pose proof R as (Ex & Hn & _). unfold ksyn_queue_insert. rewrite Hm. do 4 wq_step.
  apply wp_bind, wp_ensure; [by apply bool_decide_eq_true_2|]. apply wp_bind. fold (kwel kqi s).
  assert (forall l f t s1, l ≡ₚ e :: kwel kqi s ->
    s1 = s <| kwq ::= modq kqi (fun q0 => mk_kq l (ksynq_count q0) f t) |> ->
    wp (when (0 =? 0) (
        me <- gets self ;;
        kwe_mod e (fun x => x <| kwe_kwqqueue := Some me |>) ;;;
        kw_mod (modq kqi (fun q => q <| ksynq_count ::= fun c => u32 (c + 1) |>)) ;;;
        kw_mod (fun k => k <| kw_inqueue ::= fun c => u32 (c + 1) |>) ;;;
        kw_mod (update_low_high (seq_of s e))) ;;; ret 0) Q s1) as Hfin.
  { intros l f t s1 Hp ->. eapply (wp_insert_finish' d kqi e x (mk_kq l (Z.of_nat (length l)) f t)); try done.
    - cbn. by rewrite Hp.
    - by apply Hok. }
  destruct (ksynq_count (getq kqi (kwq s)) =? 0) eqn:Hc.
  { do 3 (apply wp_bind, wp_kw_mod). apply wp_ret.
    eapply (Hfin (e :: kwel kqi s) (seq_of s e) (seq_of s e)); [done|by destruct kqi]. }
  destruct (_ || _).
  { case_bool; [|apply wp_ret; apply Hbusy; by left]. unfold ksyn_queue_find_seq. do 2 apply wp_bind. apply wp_gets.
    apply wp_find_seq_in; [by eapply wf_allocated|].
    destruct (List.find _ _) as [[]|]; apply wp_ret; apply Hbusy; by left. }
  destruct (is_seqlower _ (seq_of s e)).
  { do 2 (apply wp_bind, wp_kw_mod). apply wp_ret.
    eapply (Hfin (kwel kqi s ++ [e]) (ksynq_firstnum (getq kqi (kwq s))) (seq_of s e));
      [by rewrite Permutation_app_comm|by destruct kqi]. }
  destruct (is_seqlower (seq_of s e) _).
  { do 2 (apply wp_bind, wp_kw_mod). apply wp_ret.
    eapply (Hfin (e :: kwel kqi s) (seq_of s e) (ksynq_lastnum (getq kqi (kwq s)))); [done|by destruct kqi]. }
  apply wp_bind, wp_insert_before_higher; [by eapply wf_allocated|..].
  - intros _. apply wp_ret. apply Hbusy. by right.
  - intros l1 q l2 El _ _. cbv beta iota. apply wp_bind. apply wp_kw_mod. apply wp_ret.
    eapply (Hfin (l1 ++ e :: q :: l2) (ksynq_firstnum (getq kqi (kwq s))) (ksynq_lastnum (getq kqi (kwq s))));
      [rewrite El; by rewrite <- Permutation_middle|by destruct kqi].
Qed.

(** sequence-ordered insertion ([ksyn_queue_insert] with SEQFIT), on every
    branch.  On a well-formed queue that is ordered within a window the call
    returns; either it fails with EBUSY, changes nothing, and the sequence is
    that of the first or the last waiter, or it succeeds, the new list is the
    old one with the element after everything not higher and before everything
    higher, and counters, end sequences, order and all invariants are kept.
    ESRCH is never returned. *)
Theorem seqfit_insert_ordered b kqi e x mgen s :
  wf s -> sorted b kqi s -> ready e x s ->
  Z.land mgen PTHRW_COUNT_MASK = kwe_lockseq x -> in_window b mgen ->
  Z.of_nat (length (queued s)) + 1 < 2 ^ 32 ->
  wp (ksyn_queue_insert kqi e mgen SEQFIT) (fun res s' =>
    (res = EBUSY /\ s' = s /\
       (ksynq_firstnum (getq kqi (kwq s)) = kwe_lockseq x \/ ksynq_lastnum (getq kqi (kwq s)) = kwe_lockseq x)) \/
    (res = 0 /\ (exists l1 l2, split_at b s (ahead b mgen) (kwel kqi s) l1 l2 /\
       kwel kqi s' = l1 ++ e :: l2) /\
     sorted b kqi s' /\ wfd (- if is_fake e then 1 else 0) s')) s.
Proof.
  intros W So R Hm Hw Hb. pose proof R as (Ex & _ & _).
  rewrite <- (seq_of_lookup _ _ _ Ex) in *.
  eapply (wp_insert_seqfit b 0); try done.
  - intros f [Hf|Hf] E; left; split_and!; try done.
    + left. by rewrite (so_first _ _ _ So f Hf).
    + right. by rewrite (so_last _ _ _ So f Hf).
  - intros l1 l2 Sp. right. split_and!; [done| | |].
    + exists l1, l2. split; [done|]. by rewrite inserted_kwel, decide_True.
    + by eapply sorted_inserted.
    + rewrite <- Z.sub_0_l. eapply wf_inserted; try done. by eapply relink_perm.
Qed.
End KsynQueue.
