(* ===== verification/KsynSync.v ===== *)
(** The operations of [src/duct-tape/pthread/kern_synch.c] on one wait queue:
    waiting and signalling, mutex drop and wait, condition variables and
    read-write locks, with the continuations blocked threads run. *)
From S2P Require Import Prelude SeqArith Ksyn.

Module KsynSync.
Import Ksyn.

Definition THREAD_AWAKENED : Z := 0.
Definition THREAD_TIMED_OUT : Z := 1.
Definition THREAD_INTERRUPTED : Z := 2.

(** Types, policies and flags (kern_synch.c) *)
Definition PTH_RW_TYPE_READ : Z := 0x01.
Definition PTH_RW_TYPE_WRITE : Z := 0x04.
Definition PTH_RW_TYPE_MASK : Z := 0xff.
Definition PTH_RWSHFT_TYPE_READ : Z := 0x0100.
Definition PTH_RWSHFT_TYPE_WRITE : Z := 0x0400.
Definition PTH_RWSHFT_TYPE_MASK : Z := 0xff00.
Definition PTHREAD_PROCESS_SHARED : Z := 0x10.
Definition PTHREAD_PSHARED_FLAGS_MASK : Z := 0x30.
Definition PTHREAD_MTX_OPT_POLICY_FIRSTFIT : Z := 0x080.
Definition PTHREAD_MTX_OPT_POLICY_MASK : Z := 0x1c0.
Definition PTHREAD_MTX_OPT_MUTEX : Z := 0x2000.
Definition PTHREAD_MTX_TID_SWITCHING : Z := 2 ^ 64 - 1.
Definition KSYN_WQ_INHASH : Z := 2.
Definition KSYN_WQ_SHARED : Z := 4.
Definition KSYN_WQ_WAITING : Z := 8.
Definition KSYN_WQ_FLIST : Z := 0x10.
Definition KSYN_KWF_INITCLEARED : Z := 0x1.
Definition KSYN_KWF_ZEROEDOUT : Z := 0x2.
Definition KSYN_KWF_OVERLAP_GUARD : Z := 0x8.
Definition KSYN_WQTYPE_INWAIT : Z := 0x1000.
Definition KSYN_WQTYPE_INDROP : Z := 0x2000.
Definition KSYN_WQTYPE_MTX : Z := 0x01.
Definition KSYN_WQTYPE_CVAR : Z := 0x02.
Definition KSYN_WQTYPE_RWLOCK : Z := 0x04.
Definition KSYN_WQTYPE_MASK : Z := 0xff.
Definition KSYN_WQTYPE_MUTEXDROP : Z := Z.lor KSYN_WQTYPE_INDROP KSYN_WQTYPE_MTX.
Definition KW_UNLOCK_PREPOST : Z := 0x01.
Definition KW_UNLOCK_PREPOST_READLOCK : Z := 0x08.
Definition KW_UNLOCK_PREPOST_WRLOCK : Z := 0x20.
Definition ECVCLEARED : Z := 0x100.
Definition ECVPREPOST : Z := 0x200.

Definition _kwq_type (k : ksyn_wait_queue) : Z := Z.land (kw_type k) KSYN_WQTYPE_MASK.
Definition _kwq_use_turnstile (k : ksyn_wait_queue) : bool := _kwq_type k =? KSYN_WQTYPE_MTX.

Definition UPDATE_CVKWQ (mgen ugen rw_wc : Z) (k : ksyn_wait_queue) : ksyn_wait_queue :=
  let sinit := has rw_wc PTH_RWS_CV_CBIT in
  let k :=
    if has (kw_kflags k) KSYN_KWF_ZEROEDOUT then
      k <| kw_lword := mgen |> <| kw_uword := ugen |> <| kw_sword := rw_wc |>
        <| kw_kflags ::= fun f => clr f KSYN_KWF_ZEROEDOUT |>
    else
      let k := if is_seqhigher mgen (kw_lword k) then k <| kw_lword := mgen |> else k in
      let k := if is_seqhigher ugen (kw_uword k) then k <| kw_uword := ugen |> else k in
      if sinit && is_seqhigher rw_wc (kw_sword k) then k <| kw_sword := rw_wc |> else k in
  if sinit && is_seqlower (kw_lastunlockseq k) rw_wc
  then k <| kw_lastunlockseq := Z.land rw_wc PTHRW_COUNT_MASK |> else k.

Definition _kwq_clear_preposted_wakeup (k : ksyn_wait_queue) : ksyn_wait_queue :=
  k <| kw_prepost_lseq := 0 |> <| kw_prepost_sseq := PTHRW_RWS_INIT |> <| kw_prepost_count := 0 |>.
Definition _kwq_mark_preposted_wakeup (count lseq sseq : Z) (k : ksyn_wait_queue) : ksyn_wait_queue :=
  k <| kw_prepost_count := count |> <| kw_prepost_lseq := lseq |> <| kw_prepost_sseq := sseq |>.
Definition _kwq_clear_interrupted_wakeup (k : ksyn_wait_queue) : ksyn_wait_queue :=
  k <| kw_intr_type := KWQ_INTR_NONE |> <| kw_intr_count := 0 |> <| kw_intr_seq := 0 |>
    <| kw_intr_returnbits := 0 |>.
Definition _kwq_mark_interruped_wakeup (type count lseq returnbits : Z)
    (k : ksyn_wait_queue) : ksyn_wait_queue :=
  k <| kw_intr_count := count |> <| kw_intr_seq := lseq |> <| kw_intr_returnbits := returnbits |>
    <| kw_intr_type := type |>.

(** ** Thread references *)
Definition thread_reference (t : option nat) : MQ unit :=
  match t with
  | Some t => modify (fun s => s <| trefs ::= fun f => upd f t (f t + 1) |>)
  | None => ret tt
  end.
Definition thread_deallocate (t : option nat) : MQ unit :=
  match t with
  | Some t => modify (fun s => s <| trefs ::= fun f => upd f t (f t - 1) |>)
  | None => ret tt
  end.

(** Returns the old owner, whose reference the caller gets. *)
Definition _kwq_set_owner (new_owner : option nat) (transfer_ref : bool) : MQ (option nat) :=
  old_owner <- gets (fun s => kw_owner (kwq s)) ;;
  if bool_decide (old_owner = new_owner) then
    ret (if transfer_ref then new_owner else None)
  else
    when (negb transfer_ref) (thread_reference new_owner) ;;;
    kw_mod (fun k => k <| kw_owner := new_owner |>) ;;;
    ret old_owner.
Definition _kwq_clear_owner : MQ (option nat) := _kwq_set_owner None true.
Definition _kwq_cleanup_old_owner (thread : option nat) : MQ unit := thread_deallocate thread.

Definition CLEAR_REINIT_BITS (k : ksyn_wait_queue) : option ksyn_wait_queue :=
  if (_kwq_type k =? KSYN_WQTYPE_CVAR) &&
     negb (kw_inqueue k =? 0) && negb (kw_inqueue k =? kw_fakecount k) then None
  else
    let k := if _kwq_type k =? KSYN_WQTYPE_RWLOCK
             then k <| kw_nextseqword := PTHRW_RWS_INIT |>
                    <| kw_kflags ::= fun f => clr f KSYN_KWF_OVERLAP_GUARD |>
             else k in
    let k := _kwq_clear_preposted_wakeup k in
    let k := k <| kw_lastunlockseq := PTHRW_RWL_INIT |> <| kw_lastseqword := PTHRW_RWS_INIT |> in
    let k := _kwq_clear_interrupted_wakeup k in
    Some (k <| kw_lword := 0 |> <| kw_uword := 0 |> <| kw_sword := PTHRW_RWS_INIT |>).

Definition _kwq_is_used (k : ksyn_wait_queue) : bool :=
  negb (kw_inqueue k =? 0) || negb (kw_prepost_count k =? 0) || negb (kw_intr_count k =? 0).

(** Returns [Some *retval] when an interrupted wake-up was consumed. *)
Definition _kwq_handle_interrupted_wakeup (type lseq : Z) : MQ (option Z) :=
  k <- gets kwq ;;
  if negb (kw_intr_count k =? 0) && (kw_intr_type k =? type) &&
     ((kw_intr_seq k =? 0) || is_seqlower_eq lseq (kw_intr_seq k)) then
    kw_mod (fun k => k <| kw_intr_count ::= fun c => u32 (c - 1) |>) ;;;
    when (kw_intr_returnbits k =? 0) (kw_mod _kwq_clear_interrupted_wakeup) ;;;
    ret (Some (kw_intr_returnbits k))
  else ret None.

Definition _kwq_handle_overlap (type lgenval rw_wc : Z) : MQ (option Z) :=
  k <- gets kwq ;;
  if negb (type =? PTH_RW_TYPE_READ) then ret None
  else if has (kw_kflags k) KSYN_KWF_OVERLAP_GUARD &&
     negb (has rw_wc PTHRW_RWS_SAVEMASK) && negb (has lgenval PTH_RWL_WBIT) then
    if is_seqlower_eq rw_wc (kw_nextseqword k) || is_seqhigher_eq (kw_lastseqword k) rw_wc then
      kw_mod (fun k => k <| kw_nextseqword ::= fun w => u32 (w + PTHRW_INC) |>) ;;;
      k <- gets kwq ;;
      ret (Some (Z.lor PTHRW_INC (Z.lor (Z.land (kw_nextseqword k) PTHRW_BIT_MASK) PTH_RWL_MBIT)))
    else ret None
  else ret None.

(** ** Waiting and signalling *)

(** The turnstile calls of the psynch shims: [kw_turnstile] counts
    [turnstile_prepare] calls not yet completed. *)
Definition psynch_wait_prepare (cur : nat) (use_tstore : bool) : MQ unit :=
  when use_tstore (kw_mod (fun k => k <| kw_turnstile ::= fun n => n + 1 |>)) ;;;
  modify (fun s => s <| waiting := <[cur := self s]> (waiting s) |>).
(** [turnstile_prepare] .. [turnstile_complete] within one call. *)
Definition psynch_wait_update_owner : MQ unit :=
  kw_mod (fun k => k <| kw_turnstile ::= fun n => n + 1 |>) ;;;
  kw_mod (fun k => k <| kw_turnstile ::= fun n => n - 1 |>).
Definition psynch_wait_complete : MQ unit :=
  kw_mod (fun k => k <| kw_turnstile ::= fun n => n - 1 |>).
(** The thread is found from the element that is embedded in it; it is woken
    if it still waits on this queue. *)
Definition psynch_wait_wakeup (e : kwe_id) (use_tstore : bool) : MQ Z :=
  match e with
  | KZone _ => panic "psynch_wait_wakeup: not a thread's element"
  | KThread t =>
      when use_tstore (kw_mod (fun k => k <| kw_turnstile ::= fun n => n + 1 |>)) ;;;
      w <- gets waiting ;; me <- gets self ;;
      r <- (if bool_decide (w !! t = Some me)
            then modify (fun s => s <| waiting := delete t (waiting s) |>) ;;; ret KERN_SUCCESS
            else ret KERN_NOT_WAITING) ;;
      when use_tstore (kw_mod (fun k => k <| kw_turnstile ::= fun n => n - 1 |>)) ;;;
      ret r
  end.

Definition ksyn_signal (kqi : kwq_queue_type_t) (e : option kwe_id) (updateval : Z) : MQ Z :=
  k <- gets kwq ;;
  e <- (match e with
        | Some e => ret e
        | None => match ksynq_kwelist (getq kqi k) with
                  | e :: _ => ret e
                  | [] => panic "ksyn_signal: panic signaling empty queue"
                  end
        end) ;;
  kwe <- kwe_deref e ;;
  ensure (bool_decide (kwe_state kwe = KWE_THREAD_INWAIT))
    "ksyn_signal: panic signaling non-waiting element" ;;;
  ksyn_queue_remove_item kqi e ;;;
  kwe_mod e (fun x => x <| kwe_psynchretval := updateval |>) ;;;
  ret_ <- psynch_wait_wakeup e (_kwq_use_turnstile k) ;;
  ensure ((ret_ =? KERN_SUCCESS) || (ret_ =? KERN_NOT_WAITING)) "ksyn_signal: panic waking up thread" ;;;
  ret ret_.

(** [ksyn_wait] up to [thread_block_parameter]: it returns an error, or asserts the wait and
    releases the queue. *)
Inductive wait_outcome := Returned (error : Z) | Blocked.

(** Locks.  Between an unlock and the next lock other threads run:
    [interfere mine] is whatever they did, given that nobody else can reach the
    elements [mine] of the caller. *)
Definition environment := list kwe_id -> lst -> lst.
Definition ksyn_wqunlock : MQ unit :=
  h <- gets wq_held ;;
  ensure h "lck_spin_unlock: not locked" ;;;
  modify (fun s => s <| wq_held := false |>).
Definition ksyn_wqlock (interfere : environment) (mine : list kwe_id) : MQ unit :=
  h <- gets wq_held ;;
  if h then hang      (* self-deadlock on the spin lock *)
  else modify (interfere mine) ;;; modify (fun s => s <| wq_held := true |>).

Definition ksyn_wait (cur : nat) (kqi : kwq_queue_type_t) (lockseq : Z) (fit : fit_t) (kwe_flags_ : Z)
    : MQ wait_outcome :=
  let e := KThread cur in
  kwe_mod e (fun _ => kwe_zero <| kwe_count := 1 |> <| kwe_lockseq := Z.land lockseq PTHRW_COUNT_MASK |>
               <| kwe_state := KWE_THREAD_INWAIT |> <| kwe_thread := Some cur |>
               <| kwe_flags := kwe_flags_ |>) ;;;
  res <- ksyn_queue_insert kqi e lockseq fit ;;
  if negb (res =? 0) then ksyn_wqunlock ;;; ret (Returned res)
  else
    k <- gets kwq ;;
    psynch_wait_prepare cur (_kwq_use_turnstile k) ;;;
    ksyn_wqunlock ;;;
    ret Blocked.
(** The [thread_block_parameter] at the end of [ksyn_wait]: the microthread suspends itself
    even if it has been woken since it asserted its wait, because [thread_unblock] leaves
    [TH_WAIT] set, and the resumption of a microthread that runs is dropped.  Only a wake-up
    that still finds it waiting makes it go on in its continuation. *)
Inductive suspension := Resumable | Stranded.
Definition ksyn_block (cur : nat) : MQ suspension :=
  w <- gets waiting ;; me <- gets self ;;
  ret (if bool_decide (w !! cur = Some me) then Resumable else Stranded).

Definition _wait_result_to_errno (result : Z) : Z :=
  if result =? THREAD_TIMED_OUT then ETIMEDOUT
  else if result =? THREAD_INTERRUPTED then EINTR else 0.

(** ** Mutexes *)

Definition ksyn_mtxsignal (e : option kwe_id) (updateval : Z) : MQ (Z * option nat) :=
  k <- gets kwq ;;
  e <- (match e with
        | Some e => ret e
        | None => match ksynq_kwelist (kw_write k) with
                  | e :: _ => ret e
                  | [] => panic "ksyn_mtxsignal: panic signaling empty queue"
                  end
        end) ;;
  ret_ <- ksyn_signal KSYN_QUEUE_WRITE (Some e) updateval ;;
  old_owner <-
    (if ret_ =? KERN_SUCCESS then
       kwe <- kwe_deref e ;; _kwq_set_owner (kwe_thread kwe) false
     else _kwq_clear_owner) ;;
  ret (ret_, old_owner).

Definition is_firstfit (flags : Z) : bool :=
  Z.land flags PTHREAD_MTX_OPT_POLICY_MASK =? PTHREAD_MTX_OPT_POLICY_FIRSTFIT.

(** The loop of [_psynch_mutexdrop_internal] from [redrive] on, lock held; it
    returns [old_owner], which every branch assigns anew.  Each [goto redrive]
    uses one unit of fuel. *)
Fixpoint mutexdrop_redrive (interfere : environment) (mgen nextgen : Z) (firstfit : bool)
    (fuel : nat) : MQ (option nat) :=
  match fuel with
  | O => hang
  | S fuel =>
  k <- gets kwq ;;
  let updatebits := Z.lor (Z.land (kw_highseq k) PTHRW_COUNT_MASK) (Z.lor PTH_RWL_EBIT PTH_RWL_KBIT) in
  if firstfit then
    if kw_inqueue k =? 0 then
      let count := u32 (kw_prepost_count k + 1) in
      kw_mod (_kwq_mark_preposted_wakeup count (Z.land mgen PTHRW_COUNT_MASK) 0) ;;;
      old_owner <- _kwq_clear_owner ;;
      psynch_wait_update_owner ;;;
      ret old_owner
    else
      r <- ksyn_mtxsignal None updatebits ;;
      let '(ret_, old_owner) := r in
      if ret_ =? KERN_NOT_WAITING then
        ksyn_wqunlock ;;;
        _kwq_cleanup_old_owner old_owner ;;;
        ksyn_wqlock interfere [] ;;;
        mutexdrop_redrive interfere mgen nextgen firstfit fuel
      else ret old_owner
  else
    let prepost : MQ (option nat) :=
      k <- gets kwq ;;
      when (kw_prepost_count k =? 0)
        (kw_mod (_kwq_mark_preposted_wakeup 1 (Z.land nextgen PTHRW_COUNT_MASK) 0)) ;;;
      old_owner <- _kwq_clear_owner ;;
      psynch_wait_update_owner ;;;
      ret old_owner in
    if kw_inqueue k =? 0 then prepost
    else
      let low_writer := Z.land (ksynq_firstnum (kw_write k)) PTHRW_COUNT_MASK in
      if low_writer =? nextgen then
        r <- ksyn_mtxsignal None (Z.lor updatebits PTH_RWL_MTX_WAIT) ;;
        let '(ret_, old_owner) := r in
        when (ret_ =? KERN_NOT_WAITING)
          (kw_mod (_kwq_mark_interruped_wakeup KWQ_INTR_WRITE 1 nextgen updatebits)) ;;;
        ret old_owner
      else if is_seqhigher low_writer nextgen then prepost
      else
        e <- ksyn_queue_find_seq KSYN_QUEUE_WRITE nextgen ;;
        match e with
        | Some e =>
            r <- ksyn_mtxsignal (Some e) (Z.lor updatebits PTH_RWL_MTX_WAIT) ;;
            let '(ret_, old_owner) := r in
            if ret_ =? KERN_NOT_WAITING
            then mutexdrop_redrive interfere mgen nextgen firstfit fuel
            else ret old_owner
        | None => prepost
        end
  end.

(** [_psynch_mutexdrop_internal] up to its [ksyn_wqrelease]. *)
Definition mutexdrop_locked (interfere : environment) (mgen ugen flags : Z) (fuel : nat) : MQ Z :=
  let nextgen := u32 (ugen + PTHRW_INC) in
  ksyn_wqlock interfere [] ;;;
  kw_mod (fun k => k <| kw_lastunlockseq := Z.land ugen PTHRW_COUNT_MASK |>) ;;;
  old_owner <- mutexdrop_redrive interfere mgen nextgen (is_firstfit flags) fuel ;;
  ksyn_wqunlock ;;;
  _kwq_cleanup_old_owner old_owner ;;;
  ret 0.

(** The result of a system call's work on its queue: it returns with an error
    code and, when [*retval] was written, its value; or the thread went to
    sleep and its continuation finishes the call. *)
Inductive sysres := Done (error : Z) (retval : option Z) | Asleep.

(** [_psynch_mutexwait] from [again] to [out]; the second component are the
    threads whose references are dropped after [out].  [findtid] is
    [task_findtid] of the current task (it takes a reference), [thread_id] the
    ids of threads. *)
Fixpoint mutexwait_again (interfere : environment) (thread_id : nat -> Z) (findtid : Z -> option nat)
    (cur : nat) (mgen ugen : Z) (firstfit : bool) (tid : Z) (tid_th : option nat) (fuel : nat)
    : MQ (sysres * list (option nat)) :=
  match fuel with
  | O => hang
  | S fuel =>
  let lseq := Z.land mgen PTHRW_COUNT_MASK in
  ksyn_wqlock interfere [KThread cur] ;;;
  r <- _kwq_handle_interrupted_wakeup KWQ_INTR_WRITE lseq ;;
  match r with
  | Some v =>
      old_owner <- _kwq_set_owner (Some cur) false ;;
      psynch_wait_update_owner ;;;
      ksyn_wqunlock ;;;
      ret (Done 0 (Some v), [tid_th; old_owner])
  | None =>
  k <- gets kwq ;;
  if negb (kw_prepost_count k =? 0) && (firstfit || (lseq =? kw_prepost_lseq k)) then
    kw_mod (fun k => k <| kw_prepost_count ::= fun c => u32 (c - 1) |>) ;;;
    if negb firstfit && (u32 (kw_prepost_count k - 1) >? 0) then
      kw_mod (fun k => k <| kw_prepost_lseq ::= fun l => u32 (l + PTHRW_INC) |>) ;;;
      ksyn_wqunlock ;;;
      ret (Done EINVAL None, [tid_th; None])
    else
      when (negb firstfit) (kw_mod _kwq_clear_preposted_wakeup) ;;;
      let updatebits :=
        clr (if kw_inqueue k =? 0 then Z.lor lseq (Z.lor PTH_RWL_KBIT PTH_RWL_EBIT)
             else Z.lor (Z.land (kw_highseq k) PTHRW_COUNT_MASK) (Z.lor PTH_RWL_KBIT PTH_RWL_EBIT))
          PTH_RWL_MTX_WAIT in
      old_owner <- _kwq_set_owner (Some cur) false ;;
      psynch_wait_update_owner ;;;
      ksyn_wqunlock ;;;
      ret (Done 0 (Some updatebits), [tid_th; old_owner])
  else
    let block (tid_th : option nat) : MQ (sysres * list (option nat)) :=
      thread_deallocate tid_th ;;;
      w <- ksyn_wait cur KSYN_QUEUE_WRITE mgen (if firstfit then FIRSTFIT else SEQFIT) 0 ;;
      match w with
      | Returned error => ret (Done error None, [None; None])
      | Blocked => ret (Asleep, [])
      end in
    if (tid =? from_option thread_id 0 (kw_owner k)) || (tid =? 0) ||
       (negb (kw_lastunlockseq k =? PTHRW_RWL_INIT) && is_seqlower ugen (kw_lastunlockseq k)) ||
       (tid =? PTHREAD_MTX_TID_SWITCHING)
    then block tid_th
    else
      match tid_th with
      | None =>
          ksyn_wqunlock ;;;
          let th := findtid tid in
          thread_reference th ;;;
          mutexwait_again interfere thread_id findtid cur mgen ugen firstfit
            (match th with None => 0 | Some _ => tid end) th fuel
      | Some _ =>
          tid_th <- _kwq_set_owner tid_th true ;;
          block tid_th
      end
  end
  end.

(** [psynch_mtxcontinue] up to its [ksyn_wqrelease]. *)
Definition psynch_mtxcontinue (interfere : environment) (cur : nat) (result : Z) : MQ sysres :=
  ksyn_wqlock interfere [KThread cur] ;;;
  kwe <- kwe_deref (KThread cur) ;;
  let error := _wait_result_to_errno result in
  rv <- (if negb (error =? 0) then
           when (bool_decide (is_Some (kwe_kwqqueue kwe)))
             (ksyn_queue_remove_item KSYN_QUEUE_WRITE (KThread cur)) ;;;
           ret None
         else ret (Some (clr (kwe_psynchretval kwe) PTH_RWL_MTX_WAIT))) ;;
  psynch_wait_complete ;;;
  ksyn_wqunlock ;;;
  ret (Done error rv).

(** ** Condition variables *)

(** [kwe_count] and [kw_fakecount] are unsigned; a failed insertion is ignored,
    as in the source. *)
Definition ksyn_prepost (e : kwe_id) (state : kwe_state_t) (lockseq : Z) : MQ unit :=
  kwe_mod e (fun _ => kwe_zero <| kwe_state := state |> <| kwe_lockseq := lockseq |> <| kwe_count := 1 |>) ;;;
  ksyn_queue_insert KSYN_QUEUE_WRITE e lockseq SEQFIT ;;;
  kw_mod (fun k => k <| kw_fakecount ::= fun c => u32 (c + 1) |>).

(** The [if (kwe)] block of [ksyn_cvsignal] and its [out_nowait]: [*updatebits],
    [*broadcast]. *)
Definition cvsignal_element (signalseq : Z) (e : kwe_id) (nkwe : option kwe_id) : MQ (Z * bool) :=
  kwe <- kwe_deref e ;;
  r <- (match kwe_state kwe with
        | KWE_THREAD_INWAIT =>
            if is_seqlower (kwe_lockseq kwe) signalseq then ret (0, true)
            else ksyn_signal KSYN_QUEUE_WRITE (Some e) PTH_RWL_MTX_WAIT ;;; ret (PTHRW_INC, false)
        | KWE_THREAD_PREPOST =>
            kwe_mod e (fun x => x <| kwe_count ::= fun c => u32 (c + 1) |>) ;;; ret (0, false)
        | KWE_THREAD_BROADCAST => ret (0, false)
        | KWE_THREAD_NONE => panic "unknown kwe state"
        end) ;;
  match nkwe with Some n => zfree_kwe n | None => ret tt end ;;;
  ret r.

(** The result: [*updatebits], [*broadcast]. *)
Definition ksyn_cvsignal (interfere : environment) (th : option nat) (uptoseq signalseq : Z) : MQ (Z * bool) :=
  let uptoseq := Z.land uptoseq PTHRW_COUNT_MASK in
  match th with
  | Some t =>
      kwe <- kwe_deref (KThread t) ;; me <- gets self ;;
      if negb (bool_decide (kwe_kwqqueue kwe = Some me)) || is_seqhigher (kwe_lockseq kwe) uptoseq
      then ret (0, true)
      else cvsignal_element signalseq (KThread t) None
  | None =>
      kwe <- ksyn_queue_find_signalseq KSYN_QUEUE_WRITE uptoseq signalseq ;;
      match kwe with
      | Some e => cvsignal_element signalseq e None
      | None =>
          ksyn_wqunlock ;;;
          nkwe <- zalloc_kwe ;;
          ksyn_wqlock interfere [nkwe] ;;;
          kwe <- ksyn_queue_find_signalseq KSYN_QUEUE_WRITE uptoseq signalseq ;;
          match kwe with
          | Some e => cvsignal_element signalseq e (Some nkwe)
          | None => ksyn_prepost nkwe KWE_THREAD_PREPOST uptoseq ;;; ret (0, false)
          end
      end
  end.

(** Each round removes the head of the list. *)
Fixpoint free_items_loop (kqi : kwq_queue_type_t) (tseq : Z) (all : bool) (fuel : nat) : MQ unit :=
  match fuel with
  | O => hang
  | S fuel =>
  k <- gets kwq ;;
  match ksynq_kwelist (getq kqi k) with
  | [] => ret tt
  | e :: _ =>
      kwe <- kwe_deref e ;;
      if negb all && is_seqhigher (kwe_lockseq kwe) tseq then ret tt
      else
        (if bool_decide (kwe_state kwe = KWE_THREAD_INWAIT) then
           ksyn_signal kqi (Some e) (Z.lor PTHRW_INC (Z.lor PTH_RWS_CV_MBIT PTH_RWL_MTX_WAIT)) ;;; ret tt
         else
           ksyn_queue_remove_item kqi e ;;;
           zfree_kwe e ;;;
           kw_mod (fun k => k <| kw_fakecount ::= fun c => u32 (c - 1) |>)) ;;;
        free_items_loop kqi tseq all fuel
  end
  end.
Definition ksyn_queue_free_items (kqi : kwq_queue_type_t) (upto : Z) (all : bool) : MQ unit :=
  k <- gets kwq ;;
  free_items_loop kqi (Z.land upto PTHRW_COUNT_MASK) all (S (length (ksynq_kwelist (getq kqi k)))).

(** The [TAILQ_FOREACH_SAFE] of [ksyn_handle_cvbroad]: the woken count (in
    units of PTHRW_INC) and the fakes moved to [kfreeq]. *)
Fixpoint cvbroad_scan (upto updatebits : Z) (kfreeq : list kwe_id) (l : list kwe_id)
    : MQ (Z * list kwe_id) :=
  match l with
  | [] => ret (updatebits, kfreeq)
  | e :: l' =>
      kwe <- kwe_deref e ;;
      if is_seqhigher (kwe_lockseq kwe) upto then ret (updatebits, kfreeq)
      else
        match kwe_state kwe with
        | KWE_THREAD_INWAIT =>
            if negb (uthread_is_cancelled e) then
              ksyn_signal KSYN_QUEUE_WRITE (Some e) PTH_RWL_MTX_WAIT ;;;
              cvbroad_scan upto (u32 (updatebits + PTHRW_INC)) kfreeq l'
            else cvbroad_scan upto updatebits kfreeq l'
        | KWE_THREAD_BROADCAST | KWE_THREAD_PREPOST =>
            ksyn_queue_remove_item KSYN_QUEUE_WRITE e ;;;
            kw_mod (fun k => k <| kw_fakecount ::= fun c => u32 (c - 1) |>) ;;;
            cvbroad_scan upto updatebits (kfreeq ++ [e]) l'
        | KWE_THREAD_NONE => panic "unknown kwe state"
        end
  end.
Fixpoint zfree_all (l : list kwe_id) : MQ unit :=
  match l with
  | [] => ret tt
  | e :: l' => zfree_kwe e ;;; zfree_all l'
  end.
Definition scan_writers (upto updatebits : Z) (kfreeq : list kwe_id) : MQ (Z * list kwe_id) :=
  k <- gets kwq ;; cvbroad_scan upto updatebits kfreeq (ksynq_kwelist (kw_write k)).

(** Returns the bits or-ed into [*updatep].  The [goto retry] happens at most
    once, with the allocated element on [kfreeq]. *)
Definition ksyn_handle_cvbroad (interfere : environment) (upto : Z) : MQ Z :=
  let post (updatebits : Z) (newkwe : kwe_id) (kfreeq : list kwe_id) : MQ Z :=
    ksyn_prepost newkwe KWE_THREAD_BROADCAST upto ;;;
    zfree_all kfreeq ;;;
    ret updatebits in
  r <- scan_writers upto 0 [] ;;
  let '(updatebits, kfreeq) := r in
  k <- gets kwq ;;
  if diff_genseq (kw_lword k) (kw_sword k) =? 0 then zfree_all kfreeq ;;; ret updatebits
  else
    match kfreeq with
    | newkwe :: kfreeq => post updatebits newkwe kfreeq
    | [] =>
        ksyn_wqunlock ;;;
        newkwe <- zalloc_kwe ;;
        ksyn_wqlock interfere [newkwe] ;;;
        r <- scan_writers upto updatebits [newkwe] ;;
        let '(updatebits, kfreeq) := r in
        k <- gets kwq ;;
        if diff_genseq (kw_lword k) (kw_sword k) =? 0 then zfree_all kfreeq ;;; ret updatebits
        else
          match kfreeq with
          | newkwe :: kfreeq => post updatebits newkwe kfreeq
          | [] => panic "kfreeq lost its element"
          end
    end.

Definition ksyn_cvupdate_fixup (updatebits : Z) : MQ Z :=
  k <- gets kwq ;;
  if Z.land (kw_lword k) PTHRW_COUNT_MASK =? Z.land (kw_sword k) PTHRW_COUNT_MASK then
    when (negb (kw_inqueue k =? 0)) (ksyn_queue_free_items KSYN_QUEUE_WRITE (kw_lword k) false) ;;;
    kw_mod (fun k => k <| kw_lword := 0 |> <| kw_uword := 0 |> <| kw_sword := 0 |>
                       <| kw_kflags ::= fun f => Z.lor f KSYN_KWF_ZEROEDOUT |>) ;;;
    ret (Z.lor updatebits PTH_RWS_CV_CBIT)
  else if negb (kw_inqueue k =? 0) && (kw_fakecount k =? kw_inqueue k) then
    ret (Z.lor updatebits PTH_RWS_CV_PBIT)
  else ret updatebits.

(** [__psynch_cvsignal] from [ksyn_wqlock] to [ksyn_wqunlock]; returns [*retval]. *)
Definition cvsignal_locked (interfere : environment) (cgen cugen csgen : Z) (broadcast : bool)
    (th : option nat) : MQ Z :=
  let uptoseq := Z.land cgen PTHRW_COUNT_MASK in
  let fromseq := u32 (Z.land cugen PTHRW_COUNT_MASK + PTHRW_INC) in
  ksyn_wqlock interfere [] ;;;
  kw_mod (UPDATE_CVKWQ cgen cugen csgen) ;;;
  k <- gets kwq ;;
  r <- (if negb broadcast && negb (diff_genseq (kw_lword k) (kw_sword k) =? 0)
        then ksyn_cvsignal interfere th uptoseq fromseq else ret (0, broadcast)) ;;
  let '(updatebits, broadcast) := r in
  updatebits <- (if broadcast
                 then b <- ksyn_handle_cvbroad interfere uptoseq ;; ret (Z.lor updatebits b)
                 else ret updatebits) ;;
  kw_mod (fun k => k <| kw_sword ::= fun w => u32 (w + Z.land updatebits PTHRW_COUNT_MASK) |>) ;;;
  updatebits <- ksyn_cvupdate_fixup updatebits ;;
  ksyn_wqunlock ;;;
  ret updatebits.

(** [_psynch_cvwait] from [ksyn_wqlock] to the [out] label. *)
Definition cvwait_locked (interfere : environment) (cur : nat) (cgen cvugen csgen : Z) : MQ sysres :=
  let lockseq := Z.land cgen PTHRW_COUNT_MASK in
  let finish (updatebits : Z) (nkwe : option kwe_id) : MQ sysres :=
    kw_mod (fun k => k <| kw_sword ::= fun w => u32 (w + PTHRW_INC) |>) ;;;
    updatebits <- ksyn_cvupdate_fixup (Z.lor updatebits PTHRW_INC) ;;
    ksyn_wqunlock ;;;
    match nkwe with Some e => zfree_kwe e | None => ret tt end ;;;
    ret (Done 0 (Some updatebits)) in
  ksyn_wqlock interfere [KThread cur] ;;;
  kw_mod (UPDATE_CVKWQ cgen cvugen csgen) ;;;
  e <- ksyn_queue_find_cvpreposeq KSYN_QUEUE_WRITE lockseq ;;
  match e with
  | Some e =>
      kwe <- kwe_deref e ;;
      match kwe_state kwe with
      | KWE_THREAD_PREPOST =>
          if Z.land (kwe_lockseq kwe) PTHRW_COUNT_MASK =? lockseq then
            kwe_mod e (fun x => x <| kwe_count ::= fun c => u32 (c - 1) |>) ;;;
            if u32 (kwe_count kwe - 1) =? 0 then
              ksyn_queue_remove_item KSYN_QUEUE_WRITE e ;;;
              kw_mod (fun k => k <| kw_fakecount ::= fun c => u32 (c - 1) |>) ;;;
              finish 0 (Some e)
            else finish 0 None
          else
            updatebits <- ksyn_handle_cvbroad interfere (kwe_lockseq kwe) ;;
            finish updatebits None
      | KWE_THREAD_BROADCAST => finish 0 None
      | KWE_THREAD_INWAIT => ksyn_wqunlock ;;; ret (Done EBUSY None)
      | KWE_THREAD_NONE => panic "psync_cvwait: unexpected wait queue element type"
      end
  | None =>
      w <- ksyn_wait cur KSYN_QUEUE_WRITE cgen SEQFIT 0 ;;
      match w with
      | Returned error => ksyn_wqunlock ;;; ret (Done error None)
      | Blocked => ret Asleep
      end
  end.

(** What [psynch_cvcontinue] does for a wait that was cut short: an error is
    dropped if the signal was granted already; otherwise the waiter is counted in
    the S word, balanced words are cleared and what is left on the queue is told
    with the error. *)
Definition cv_cut_short (error retval : Z) : MQ Z :=
  if has retval PTH_RWL_MTX_WAIT then ret 0
  else
    kw_mod (fun k => k <| kw_sword ::= fun w => u32 (w + PTHRW_INC) |>) ;;;
    k <- gets kwq ;;
    if Z.land (kw_lword k) PTHRW_COUNT_MASK =? Z.land (kw_sword k) PTHRW_COUNT_MASK then
      when (negb (kw_inqueue k =? 0)) (ksyn_queue_free_items KSYN_QUEUE_WRITE (kw_lword k) true) ;;;
      kw_mod (fun k => k <| kw_lword := 0 |> <| kw_uword := 0 |> <| kw_sword := 0 |>
                         <| kw_kflags ::= fun f => Z.lor f KSYN_KWF_ZEROEDOUT |>) ;;;
      ret (Z.lor error ECVCLEARED)
    else if negb (kw_inqueue k =? 0) && (kw_fakecount k =? kw_inqueue k)
      then ret (Z.lor error ECVPREPOST)
    else ret error.
(** [psynch_cvcontinue] up to its [ksyn_wqrelease]. *)
Definition psynch_cvcontinue (interfere : environment) (cur : nat) (result : Z) : MQ sysres :=
  let error := _wait_result_to_errno result in
  if negb (error =? 0) then
    ksyn_wqlock interfere [KThread cur] ;;;
    kwe <- kwe_deref (KThread cur) ;;
    let retval := kwe_psynchretval kwe in
    when (bool_decide (is_Some (kwe_kwqqueue kwe)))
      (ksyn_queue_remove_item KSYN_QUEUE_WRITE (KThread cur)) ;;;
    error <- cv_cut_short error retval ;;
    ksyn_wqunlock ;;;
    ret (Done error (Some retval))
  else
    kwe <- kwe_deref (KThread cur) ;;
    ret (Done 0 (Some (if has (kwe_psynchretval kwe) PTH_RWS_CV_MBIT
                       then Z.lor PTHRW_INC PTH_RWS_CV_CBIT else 0))).

(** [_psynch_cvclrprepost] from [ksyn_wqlock] to [ksyn_wqunlock]. *)
Definition cvclrprepost_locked (interfere : environment) (cvgen preposeq flags : Z) : MQ unit :=
  ksyn_wqlock interfere [] ;;;
  k <- gets kwq ;;
  (if has flags PTHREAD_MTX_OPT_MUTEX then
     when (is_firstfit flags && negb (kw_prepost_count k =? 0) &&
           is_seqlower_eq (kw_prepost_lseq k) cvgen)
       (kw_mod _kwq_clear_preposted_wakeup)
   else ksyn_queue_free_items KSYN_QUEUE_WRITE preposeq false) ;;;
  ksyn_wqunlock.

(** ** Read-write locks *)

(** Result: [*typep], [lowest[READ]], [lowest[WRITE]]. *)
Definition kwq_find_rw_lowest (flags premgen : Z) (k : ksyn_wait_queue) : Z * Z * Z :=
  let lowest_of (kq : ksyn_queue) (prepost : bool) : option Z :=
    if negb (ksynq_count kq =? 0) || prepost then
      Some (if negb (ksynq_count kq =? 0) then
              if prepost && is_seqlower premgen (ksynq_firstnum kq) then premgen else ksynq_firstnum kq
            else premgen)
    else None in
  let rd := lowest_of (kw_read k) (has flags KW_UNLOCK_PREPOST_READLOCK) in
  let wr := lowest_of (kw_write k) (has flags KW_UNLOCK_PREPOST_WRLOCK) in
  let type := Z.lor (match rd with Some _ => PTH_RWSHFT_TYPE_READ | None => 0 end)
                    (match wr with Some _ => PTH_RWSHFT_TYPE_WRITE | None => 0 end) in
  let lowtype :=
    match rd, wr with
    | Some r, Some w => if is_seqlower w r then PTH_RW_TYPE_WRITE else PTH_RW_TYPE_READ
    | Some _, None => PTH_RW_TYPE_READ
    | None, Some _ => PTH_RW_TYPE_WRITE
    | None, None => 0
    end in
  (Z.lor type lowtype, default 0 rd, default 0 wr).

(** Result: the number of failed wake-ups. *)
Fixpoint wakeupreaders_loop (limitread : Z) (allreaders : bool) (lbits failedwakeup : Z) (fuel : nat) : MQ Z :=
  match fuel with
  | O => hang
  | S fuel =>
  k <- gets kwq ;;
  let kq := kw_read k in
  if negb (ksynq_count kq =? 0) && (allreaders || is_seqlower (ksynq_firstnum kq) limitread) then
    kret <- ksyn_signal KSYN_QUEUE_READ None lbits ;;
    wakeupreaders_loop limitread allreaders lbits
      (if kret =? KERN_NOT_WAITING then failedwakeup + 1 else failedwakeup) fuel
  else ret failedwakeup
  end.
Definition ksyn_wakeupreaders (limitread : Z) (allreaders : bool) (updatebits : Z) : MQ Z :=
  k <- gets kwq ;;
  wakeupreaders_loop limitread allreaders updatebits 0 (S (length (ksynq_kwelist (kw_read k)))).

(** The second half of the READ case of [kwq_handle_unlock]: the readers that
    were counted are woken, and the caller told if it is one of them. *)
Definition grant_counted_readers (cur : nat) (rw_wc : Z) (writers : bool) (limitrdnum numneeded : Z) (curthreturns : bool) : MQ (Z * bool) :=
  let updatebits := u32 ((if writers then Z.lor PTH_RWL_WBIT PTH_RWL_KBIT else 0)
                         + u32 (Z.shiftl numneeded PTHRW_COUNT_SHIFT)) in
  kw_mod (fun k => k <| kw_nextseqword := u32 (Z.land rw_wc PTHRW_COUNT_MASK + updatebits) |>) ;;;
  when curthreturns (kwe_mod (KThread cur) (fun x => x <| kwe_psynchretval := updatebits |>)) ;;;
  nfailed <- ksyn_wakeupreaders limitrdnum (negb writers) updatebits ;;
  when (negb (nfailed =? 0))
    (kw_mod (_kwq_mark_interruped_wakeup KWQ_INTR_READ nfailed limitrdnum updatebits)) ;;;
  k <- gets kwq ;;
  ensure ((ksynq_count (kw_write k) =? 0) || has updatebits PTH_RWL_WBIT)
    "kwq_handle_unlock: writer pending but no writebit set" ;;;
  ret (updatebits, negb curthreturns).

(** The READ case of [kwq_handle_unlock]. *)
Definition unlock_grant_readers (cur : nat) (rw_wc flags premgen rwtype low_writer : Z) : MQ (Z * bool) :=
  let writers := has rwtype PTH_RWSHFT_TYPE_WRITE in
  let limitrdnum := if writers then low_writer else 0 in
  let prepost_read := has flags KW_UNLOCK_PREPOST_READLOCK in
  r <- (if writers then
          n <- ksyn_queue_count_tolowest KSYN_QUEUE_READ limitrdnum ;;
          ret (if prepost_read && is_seqlower premgen limitrdnum then (u32 (n + 1), true) else (n, false))
        else
          kw_mod (fun k => k <| kw_kflags ::= fun f => Z.lor f KSYN_KWF_OVERLAP_GUARD |>) ;;;
          k <- gets kwq ;;
          ret (if prepost_read then (u32 (ksynq_count (kw_read k) + 1), true)
               else (ksynq_count (kw_read k), false))) ;;
  let '(numneeded, curthreturns) := r in
  grant_counted_readers cur rw_wc writers limitrdnum numneeded curthreturns.

(** The WRITE case of [kwq_handle_unlock]. *)
Definition unlock_grant_writer (cur : nat) (rw_wc flags premgen low_writer : Z) : MQ (Z * bool) :=
  let prepost_write := has flags KW_UNLOCK_PREPOST_WRLOCK in
  let bits := Z.lor PTHRW_INC (Z.lor PTH_RWL_KBIT PTH_RWL_EBIT) in
  k <- gets kwq ;;
  r <- (if prepost_write && (low_writer =? premgen) then
          let updatebits := if negb (ksynq_count (kw_write k) =? 0) then Z.lor bits PTH_RWL_WBIT else bits in
          kwe_mod (KThread cur) (fun x => x <| kwe_psynchretval := updatebits |>) ;;;
          ret (updatebits, false)
        else
          let updatebits := if (ksynq_count (kw_write k) >? 1) || prepost_write
                            then Z.lor bits PTH_RWL_WBIT else bits in
          kret <- ksyn_signal KSYN_QUEUE_WRITE None updatebits ;;
          when (kret =? KERN_NOT_WAITING)
            (kw_mod (_kwq_mark_interruped_wakeup KWQ_INTR_WRITE 1 low_writer updatebits)) ;;;
          ret (updatebits, true)) ;;
  let '(updatebits, block) := r in
  kw_mod (fun k => k <| kw_nextseqword := u32 (Z.land rw_wc PTHRW_COUNT_MASK + updatebits) |>) ;;;
  ensure (Z.land updatebits (Z.lor PTH_RWL_KBIT PTH_RWL_EBIT) =? Z.lor PTH_RWL_KBIT PTH_RWL_EBIT)
    "kwq_handle_unlock: writer lock granted but no ke set" ;;;
  ret (updatebits, block).

(** Result: [*updatep], [*blockp]; the error is always 0. *)
Definition kwq_handle_unlock (cur : nat) (rw_wc flags premgen : Z) : MQ (Z * bool) :=
  kw_mod (fun k => k <| kw_lastseqword := rw_wc |>
                     <| kw_lastunlockseq := Z.land rw_wc PTHRW_COUNT_MASK |>
                     <| kw_kflags ::= fun f => clr f KSYN_KWF_OVERLAP_GUARD |>) ;;;
  k <- gets kwq ;;
  let '(rwtype, _, low_writer) := kwq_find_rw_lowest flags premgen k in
  if Z.land rwtype PTH_RW_TYPE_MASK =? PTH_RW_TYPE_READ then
    unlock_grant_readers cur rw_wc flags premgen rwtype low_writer
  else if Z.land rwtype PTH_RW_TYPE_MASK =? PTH_RW_TYPE_WRITE then
    unlock_grant_writer cur rw_wc flags premgen low_writer
  else panic "rwunlock: invalid type for lock grants".

Definition _kwq_handle_preposted_wakeup (cur : nat) (type lseq : Z) : MQ (option Z) :=
  k <- gets kwq ;;
  if (kw_prepost_count k =? 0) || negb (is_seqlower_eq lseq (kw_prepost_lseq k)) then ret None
  else
    kw_mod (fun k => k <| kw_prepost_count ::= fun c => u32 (c - 1) |>) ;;;
    if u32 (kw_prepost_count k - 1) >? 0 then ret None
    else
      let pp_sseq := kw_prepost_sseq k in
      kw_mod _kwq_clear_preposted_wakeup ;;;
      kw_mod (fun k => k <| kw_kflags ::= fun f => clr f KSYN_KWF_INITCLEARED |>) ;;;
      r <- kwq_handle_unlock cur pp_sseq (Z.lor type KW_UNLOCK_PREPOST) lseq ;;
      let '(updatebits, should_block) := r in
      ret (if should_block then None else Some updatebits).

Definition _ksyn_check_init (lgenval : Z) : MQ bool :=
  let res := has lgenval PTHRW_RWL_INIT in
  k <- gets kwq ;;
  (if res && negb (has (kw_kflags k) KSYN_KWF_INITCLEARED) then
     match CLEAR_REINIT_BITS k with
     | Some k => kw_mod (fun _ => k <| kw_kflags ::= fun f => Z.lor f KSYN_KWF_INITCLEARED |>)
     | None => panic "CV:entries in queue durinmg reinit"
     end
   else ret tt) ;;;
  ret res.

(** [__psynch_rw_lock] from [ksyn_wqlock] to [out].  The interrupted wake-up is
    looked up with the PTH_RW_TYPE_* number, as in the source. *)
Definition rw_lock_locked (interfere : environment) (cur : nat) (type lgenval rw_wc : Z) : MQ sysres :=
  let lockseq := Z.land lgenval PTHRW_COUNT_MASK in
  let is_read := type =? PTH_RW_TYPE_READ in
  let prepost_type := if is_read then KW_UNLOCK_PREPOST_READLOCK else KW_UNLOCK_PREPOST_WRLOCK in
  let kqi := if is_read then KSYN_QUEUE_READ else KSYN_QUEUE_WRITE in
  let granted (v : Z) : MQ sysres := ksyn_wqunlock ;;; ret (Done 0 (Some v)) in
  ksyn_wqlock interfere [KThread cur] ;;;
  _ksyn_check_init lgenval ;;;
  r <- _kwq_handle_interrupted_wakeup type lockseq ;;
  match r with
  | Some v => granted v
  | None =>
    r <- _kwq_handle_overlap type lgenval rw_wc ;;
    match r with
    | Some v => granted v
    | None =>
      r <- _kwq_handle_preposted_wakeup cur prepost_type lockseq ;;
      match r with
      | Some v => granted v
      | None =>
        w <- ksyn_wait cur kqi lgenval SEQFIT 0 ;;
        match w with
        | Returned error => ret (Done error None)
        | Blocked => ret Asleep
        end
      end
    end
  end.

(** [_psynch_rw_continue] up to its [ksyn_wqrelease]. *)
Definition _psynch_rw_continue (interfere : environment) (cur : nat) (kqi : kwq_queue_type_t) (result : Z)
    : MQ sysres :=
  ksyn_wqlock interfere [KThread cur] ;;;
  kwe <- kwe_deref (KThread cur) ;;
  let error := _wait_result_to_errno result in
  rv <- (if negb (error =? 0) then
           when (bool_decide (is_Some (kwe_kwqqueue kwe))) (ksyn_queue_remove_item kqi (KThread cur)) ;;;
           ret None
         else ret (Some (kwe_psynchretval kwe))) ;;
  ksyn_wqunlock ;;;
  ret (Done error rv).

(** [_psynch_rw_unlock] from [ksyn_wqlock] to the [ksyn_wqunlock] after [out];
    returns [*retval]. *)
Definition rw_unlock_locked (interfere : environment) (cur : nat) (lgenval ugenval rw_wc : Z) : MQ Z :=
  let curgen := Z.land lgenval PTHRW_COUNT_MASK in
  let out (updatebits : Z) (clearedkflags : bool) : MQ Z :=
    k <- gets kwq ;;
    when (clearedkflags && (kw_intr_count k >? 0))
      (kw_mod (fun k => k <| kw_kflags ::= fun f => Z.lor f KSYN_KWF_INITCLEARED |>)) ;;;
    ksyn_wqunlock ;;;
    ret updatebits in
  ksyn_wqlock interfere [] ;;;
  isinit <- _ksyn_check_init lgenval ;;
  k <- gets kwq ;;
  if negb (kw_lastunlockseq k =? PTHRW_RWL_INIT) && is_seqlower ugenval (kw_lastunlockseq k)
  then out 0 false
  else
    let diff := find_diff lgenval ugenval in
    r <- find_seq_till curgen (u32 diff) ;;
    let '(found, count) := r in
    if negb found && ((count =? 0) || (count <? u32 diff)) then
      (* prepost *)
      if has (kw_prepost_sseq k) PTH_RWS_SBIT || is_seqhigher_eq rw_wc (kw_prepost_sseq k) then
        kw_mod (_kwq_mark_preposted_wakeup (u32 (diff - count)) curgen rw_wc) ;;;
        out lgenval false
      else out 0 false
    else
      let clearedkflags := isinit && has (kw_kflags k) KSYN_KWF_INITCLEARED in
      when clearedkflags (kw_mod (fun k => k <| kw_kflags ::= fun f => clr f KSYN_KWF_INITCLEARED |>)) ;;;
      kw_mod _kwq_clear_preposted_wakeup ;;;
      r <- kwq_handle_unlock cur rw_wc 0 0 ;;
      out (fst r) clearedkflags.

(** [dtape_psynch_thread_dying] (the queue's lock is not taken). *)
Definition dtape_psynch_thread_dying (cur : nat) (block_hint_rwread : bool) : MQ unit :=
  kwe <- kwe_deref (KThread cur) ;; me <- gets self ;;
  if bool_decide (kwe_kwqqueue kwe = Some me) then
    ksyn_queue_remove_item (if block_hint_rwread then KSYN_QUEUE_READ else KSYN_QUEUE_WRITE) (KThread cur)
  else ret tt.

End KsynSync.
