(* ===== verification/KsynProps.v ===== *)
(** Rules shared by the psynch proofs: what preserves well-formedness, the effect
    of [ksyn_signal] and [ksyn_wait], the lock, and what a caller may assume of
    the other threads. *)
From stdpp Require Import sorting.
From S2P Require Import Prelude SeqArith Ksyn KsynQueue KsynSync.

Module KsynProps.
Import Ksyn KsynQueue KsynSync.

(** ** States with the same queues *)
Definition same_kwe (x y : ksyn_waitq_element) : Prop :=
  kwe_kwqqueue x = kwe_kwqqueue y /\ kwe_thread x = kwe_thread y /\
  kwe_state x = kwe_state y /\ kwe_lockseq x = kwe_lockseq y.

Record same_queues (s s' : lst) : Prop := {
  sq_self : self s' = self s;
  sq_read : kw_read (kwq s') = kw_read (kwq s);
  sq_write : kw_write (kwq s') = kw_write (kwq s);
  sq_inqueue : kw_inqueue (kwq s') = kw_inqueue (kwq s);
  sq_fake : kw_fakecount (kwq s') = kw_fakecount (kwq s);
  sq_zone : zone_next s' = zone_next s;
  sq_kwes e : option_Forall2 same_kwe (kwes s !! e) (kwes s' !! e);
}.

#[global] Instance same_kwe_refl : Reflexive same_kwe.
Proof. intros x. repeat split. Qed.
#[global] Instance same_queues_preorder : PreOrder same_queues.
Proof.
  split.
  - intros s. constructor; try done. all: intros e; by destruct (kwes s !! e); constructor.
  - intros s1 s2 s3 [] []. constructor; try congruence. intros e.
    specialize (sq_kwes0 e). specialize (sq_kwes1 e).
    destruct sq_kwes0 as [x y Hxy|]; inversion sq_kwes1 as [? z Hyz|]; subst; constructor.
    unfold same_kwe in *. intuition congruence.
Qed.

Lemma same_getq s s' kqi : same_queues s s' -> getq kqi (kwq s') = getq kqi (kwq s).
Proof. intros [? Hr Hw ? ? ? ?]. by destruct kqi; cbn. Qed.
Lemma same_kwel s s' kqi : same_queues s s' -> kwel kqi s' = kwel kqi s.
Proof. intros Q. unfold kwel. by rewrite (same_getq s s'). Qed.
Lemma same_queued s s' : same_queues s s' -> queued s' = queued s.
Proof. intros Q. unfold queued. by rewrite !(same_kwel s s'). Qed.
Lemma same_seq_of s s' e : same_queues s s' -> seq_of s' e = seq_of s e.
Proof. intros Q. unfold seq_of. destruct (sq_kwes _ _ Q e) as [x y (? & ? & ? & ?)|]; cbn; congruence. Qed.

Lemma wfd_same d s s' : same_queues s s' -> wfd d s -> wfd d s'.
Proof.
  intros Q W. pose proof Q as [Hs Hr Hw Hi Hf Hz Hk].
  constructor; rewrite ?(same_queued s s') by done.
  - apply W.
  - intros kqi. rewrite (same_getq s s'), (same_kwel s s') by done. apply W.
  - rewrite Hi. apply W.
  - apply W.
  - rewrite Hf. apply W.
  - intros e He. destruct (wf_on _ _ W e He) as (x & Ex & Ho).
    specialize (Hk e). rewrite Ex in Hk. inversion Hk as [? y Hxy Ey|]; subst. exists y.
    split; [done|]. rewrite Hs. destruct Hxy as (H1 & H2 & H3 & H4). unfold on_queue in *.
    rewrite <- H1, <- H2, <- H3, <- H4. done.
  - intros e y Ey Hy. specialize (Hk e). rewrite Ey in Hk. inversion Hk as [x ? Hxy Ex|]; subst.
    apply (wf_off _ _ W e x); [done|]. destruct Hxy as (H1 & _). rewrite <- Hs. congruence.
  - intros n Hn. rewrite Hz in Hn. pose proof (wf_zone _ _ W n Hn) as E.
    specialize (Hk (KZone n)). rewrite E in Hk. by inversion Hk.
Qed.
Lemma sorted_same b kqi s s' : same_queues s s' -> sorted b kqi s -> sorted b kqi s'.
Proof.
  intros Q [H1 H2 H3 H4]. constructor; rewrite ?(same_kwel s s'), ?(same_getq s s') by done.
  - intros e He. rewrite (same_seq_of s s') by done. auto.
  - eapply (ssorted_mono (fun x y => key b s x <= key b s y)); [|done].
    intros. unfold key. by rewrite !(same_seq_of s s').
  - intros e He. rewrite (same_seq_of s s') by done. auto.
  - intros e He. rewrite (same_seq_of s s') by done. auto.
Qed.

(** Updates that touch no queue. *)
Lemma same_kw_mod f s :
  kw_read (f (kwq s)) = kw_read (kwq s) -> kw_write (f (kwq s)) = kw_write (kwq s) ->
  kw_inqueue (f (kwq s)) = kw_inqueue (kwq s) -> kw_fakecount (f (kwq s)) = kw_fakecount (kwq s) ->
  same_queues s (s <| kwq ::= f |>).
Proof. intros. constructor; try done. all: intros e; by destruct (kwes s !! e); constructor. Qed.
Lemma same_kwe_mod e f s :
  (forall x, kwes s !! e = Some x -> same_kwe x (f x)) ->
  same_queues s (s <| kwes := alter f e (kwes s) |>).
Proof.
  intros Hf. constructor; try done. intros e'. cbn. destruct (decide (e' = e)) as [->|Hne].
  - rewrite lookup_alter_eq. destruct (kwes s !! e) eqn:E; constructor. auto.
  - rewrite lookup_alter_ne by done. by destruct (kwes s !! e'); constructor.
Qed.
Lemma same_held h s : same_queues s (s <| wq_held := h |>).
Proof. constructor; try done. all: intros e; cbn; by destruct (kwes s !! e); constructor. Qed.
Lemma same_waiting w s : same_queues s (s <| waiting := w |>).
Proof. constructor; try done. all: intros e; cbn; by destruct (kwes s !! e); constructor. Qed.
Lemma same_trefs f s : same_queues s (s <| trefs := f |>).
Proof. constructor; try done. all: intros e; cbn; by destruct (kwes s !! e); constructor. Qed.

(** ** Locks *)
Lemma wp_unlock (Q : unit -> lst -> Prop) s :
  wq_held s = true -> Q tt (s <| wq_held := false |>) -> wp ksyn_wqunlock Q s.
Proof. intros Hh HQ. unfold wp, ksyn_wqunlock, bind, gets, ensure. by rewrite Hh. Qed.
Lemma wp_lock interfere mine (Q : unit -> lst -> Prop) s :
  wq_held s = false -> Q tt ((interfere mine s) <| wq_held := true |>) ->
  wp (ksyn_wqlock interfere mine) Q s.
Proof. intros Hh HQ. unfold wp, ksyn_wqlock, bind, gets. by rewrite Hh. Qed.

(** ** Signalling *)

(** The state after [ksyn_signal kqi (Some e) v]: off the queue, told [v], and
    no longer asleep on this queue. *)
Definition signalled (kqi : kwq_queue_type_t) (t : nat) (v : Z) (s : lst) : lst :=
  let s1 := removed kqi (KThread t) s in
  s1 <| kwes := alter (fun x => x <| kwe_psynchretval := v |>) (KThread t) (kwes s1) |>
     <| waiting := if decide (waiting s !! t = Some (self s)) then delete t (waiting s) else waiting s |>.

Definition asleep (s : lst) (t : nat) : Prop := waiting s !! t = Some (self s).
#[global] Instance asleep_dec s t : Decision (asleep s t).
Proof. unfold asleep. apply _. Defined.
Lemma wp_ksyn_block cur s (Q : suspension -> lst -> Prop) :
  Q (if bool_decide (asleep s cur) then Resumable else Stranded) s -> wp (ksyn_block cur) Q s.
Proof. intros HQ. unfold ksyn_block. by do 2 apply wp_bind, wp_gets. Qed.

Lemma turnstile_pair k :
  k <| kw_turnstile ::= fun n => n + 1 |> <| kw_turnstile ::= fun n => n - 1 |> = k.
Proof. destruct k. unfold update. cbn. f_equal. lia. Qed.

Lemma wp_wakeup t use (Q : Z -> lst -> Prop) s :
  Q (if decide (asleep s t) then KERN_SUCCESS else KERN_NOT_WAITING)
    (s <| waiting := if decide (asleep s t) then delete t (waiting s) else waiting s |>) ->
  wp (psynch_wait_wakeup (KThread t) use) Q s.
Proof.
  unfold asleep, psynch_wait_wakeup. intros HQ. destruct s as [q k ke z w f h]. cbn in HQ.
  change ((mk_lst _ _ _ _ _ _ _) <| waiting := ?x |>) with (mk_lst q k ke z x f h) in HQ.
  destruct use.
  - apply wp_bind, wp_when_true, wp_kw_mod. wp_go. cbn.
    case_bool_decide; case_decide; try done; wp_go; apply wp_when_true, wp_kw_mod, wp_ret;
      rewrite <- (turnstile_pair k) in HQ; exact HQ.
  - apply wp_bind, wp_when_false. wp_go. cbn.
    case_bool_decide; case_decide; try done; wp_go; apply wp_when_false, wp_ret; exact HQ.
Qed.

Lemma wp_signal d kqi t v s (Q : Z -> lst -> Prop) :
  wfd d s -> KThread t ∈ kwel kqi s ->
  Q (if decide (asleep s t) then KERN_SUCCESS else KERN_NOT_WAITING) (signalled kqi t v s) ->
  wp (ksyn_signal kqi (Some (KThread t)) v) Q s.
Proof.
  intros W He HQ. destruct (wf_lookup _ _ _ _ W He) as (x & Ex & _ & _ & _ & Hst & _).
  unfold ksyn_signal. wp_go. eapply wp_kwe_deref; [done|]. wp_go.
  apply wp_ensure; [by apply bool_decide_eq_true_2|]. wp_go.
  eapply wp_remove; [done|done|]. wp_go.
  eapply wp_kwe_mod; [by rewrite removed_lookup, decide_True, Ex|].
  wp_go. apply wp_wakeup. apply wp_bind, wp_ensure; [by destruct (decide _)|].
  apply wp_ret. unfold asleep in *. cbn -[removed] in *.
  eapply eq_ind; [exact HQ|]. f_equal. unfold signalled.
  erewrite alter_insert_lookup; [|by rewrite removed_lookup, decide_True, Ex]. done.
Qed.

Lemma signalled_same kqi t v s : same_queues (removed kqi (KThread t) s) (signalled kqi t v s).
Proof.
  unfold signalled. etransitivity; [apply same_kwe_mod|apply same_waiting].
  intros x _. by repeat split.
Qed.
Lemma wf_signalled d kqi t v s :
  wfd d s -> KThread t ∈ kwel kqi s -> wfd d (signalled kqi t v s).
Proof.
  intros W He. eapply wfd_same; [apply signalled_same|].
  pose proof (wf_removed d kqi _ s W He) as W'. cbn in W'. by rewrite Z.add_0_r in W'.
Qed.
Lemma sorted_signalled b d kqi kqj t v s :
  wfd d s -> KThread t ∈ kwel kqi s -> sorted b kqj s -> sorted b kqj (signalled kqi t v s).
Proof.
  intros W He So. eapply sorted_same; [apply signalled_same|]. by eapply sorted_removed.
Qed.
Lemma signalled_kwel d kqi kqj t v s :
  wfd d s -> KThread t ∈ kwel kqi s -> kwel kqj (signalled kqi t v s) = unlink (KThread t) (kwel kqj s).
Proof.
  intros W He. rewrite (same_kwel _ _ _ (signalled_same kqi t v s)). by eapply removed_kwel.
Qed.
Lemma signalled_queued d kqi t v s :
  wfd d s -> KThread t ∈ kwel kqi s -> queued (signalled kqi t v s) = unlink (KThread t) (queued s).
Proof.
  intros W He. rewrite (same_queued _ _ (signalled_same kqi t v s)). by eapply removed_queued.
Qed.
Lemma signalled_lookup kqi t v s e :
  kwes (signalled kqi t v s) !! e =
  if decide (e = KThread t)
  then (fun x => x <| kwe_kwqqueue := None |> <| kwe_psynchretval := v |>) <$> kwes s !! e
  else kwes s !! e.
Proof.
  unfold signalled. cbn -[removed]. case_decide as E.
  - subst. rewrite lookup_alter_eq, removed_lookup, decide_True by done.
    by destruct (kwes s !! KThread t).
  - by rewrite lookup_alter_ne, removed_lookup, decide_False.
Qed.
Lemma signalled_seq_of kqi t v s e : seq_of (signalled kqi t v s) e = seq_of s e.
Proof. rewrite (same_seq_of _ _ _ (signalled_same kqi t v s)). apply removed_seq_of. Qed.

(** Fields of the queue that removal and signalling leave alone. *)
Definition queue_frame (k k' : ksyn_wait_queue) : Prop :=
  k' = k <| kw_read := kw_read k' |> <| kw_write := kw_write k' |> <| kw_inqueue := kw_inqueue k' |>
         <| kw_lowseq := kw_lowseq k' |> <| kw_highseq := kw_highseq k' |>.
Lemma removed_frame kqi e s : queue_frame (kwq s) (kwq (removed kqi e s)).
Proof.
  destruct s as [? k ?????]. cbn. unfold lowhigh_after_remove, queue_frame.
  repeat case_bool; destruct kqi, k; reflexivity.
Qed.
Lemma signalled_frame kqi t v s : queue_frame (kwq s) (kwq (signalled kqi t v s)).
Proof. apply removed_frame. Qed.
Lemma inserted_frame kqi e q s : queue_frame (kwq s) (kwq (inserted kqi e q s)).
Proof.
  destruct s as [? k ?????]. cbn. unfold update_low_high, queue_frame.
  repeat case_bool; destruct kqi, k; reflexivity.
Qed.
Ltac frame H f := pose proof (f_equal f H); cbn in *.

(** ** Owners *)

Definition owned (new : option nat) (transfer : bool) (s : lst) : lst :=
  if decide (kw_owner (kwq s) = new) then s
  else (if transfer then s
        else match new with
             | Some t => s <| trefs ::= fun f => upd f t (f t + 1) |>
             | None => s
             end) <| kwq ::= fun k => k <| kw_owner := new |> |>.
Definition old_owner (new : option nat) (transfer : bool) (s : lst) : option nat :=
  if decide (kw_owner (kwq s) = new) then if transfer then new else None else kw_owner (kwq s).

Lemma wp_set_owner new transfer (Q : option nat -> lst -> Prop) s :
  Q (old_owner new transfer s) (owned new transfer s) -> wp (_kwq_set_owner new transfer) Q s.
Proof.
  unfold old_owner, owned, _kwq_set_owner. intros HQ. wp_go.
  case_bool_decide as E; case_decide; try done. wp_go.
  destruct transfer; [apply wp_when_false|apply wp_when_true; destruct new]; done.
Qed.
Lemma owned_same new transfer s : same_queues s (owned new transfer s).
Proof.
  unfold owned. case_decide; [done|]. etransitivity; [|by apply same_kw_mod].
  destruct transfer; [done|]. destruct new; [|done].
  constructor; try done. all: intros e; cbn; by destruct (kwes s !! e); constructor.
Qed.

(** References to a thread that the queue does not hold. *)
Definition ext_refs (s : lst) (t : nat) : Z :=
  trefs s t - if decide (kw_owner (kwq s) = Some t) then 1 else 0.
Definition ref_of (o : option nat) (t : nat) : Z := if decide (o = Some t) then 1 else 0.

(** Taking ownership moves references: what the queue gives back as the old
    owner is exactly what is to be dropped. *)
Lemma owned_refs new transfer s t :
  ext_refs (owned new transfer s) t =
  ext_refs s t + ref_of (old_owner new transfer s) t - (if transfer then ref_of new t else 0).
Proof.
  unfold owned, old_owner, ext_refs, ref_of.
  destruct (kw_owner (kwq s)) as [o|] eqn:Eo, new as [n|], transfer;
    (case_decide; simplify_eq; try done); cbn; rewrite ?Eo; unfold upd;
    repeat (case_decide; simplify_eq; try congruence); lia.
Qed.

(** ** What a caller may assume of the other threads *)

(** Element [e] is off all queues, or on list [kqi] of this one. *)
Definition parked (e : kwe_id) (kqi : kwq_queue_type_t) (s : lst) : Prop :=
  exists x, kwes s !! e = Some x /\ (kwe_kwqqueue x = None \/ e ∈ kwel kqi s).

(** The environment of a thread that owns the elements it names: other threads
    preserve [I], and neither touch those elements while they are off the queue
    nor put them on one. *)
Class Rely (I : lst -> Prop) (interfere : environment) : Prop := {
  rely_inv mine s : I s -> wq_held s = false -> I (interfere mine s);
  rely_self mine s : self (interfere mine s) = self s;
  rely_held mine s : wq_held (interfere mine s) = wq_held s;
  rely_mine mine s e x :
    e ∈ mine -> kwes s !! e = Some x -> kwe_kwqqueue x = None ->
    kwes (interfere mine s) !! e = Some x;
  rely_parked mine s e kqi : e ∈ mine -> parked e kqi s -> parked e kqi (interfere mine s);
}.

(** Nobody else runs. *)
Definition quiet : environment := fun _ s => s.
#[global] Instance quiet_rely I : Rely I quiet.
Proof. by constructor. Qed.

(** The invariant of a wait queue: well formed, with room for one more waiter. *)
Definition roomy (s : lst) : Prop := wf s /\ Z.of_nat (length (queued s)) + 1 < 2 ^ 32.
(** The invariant of a sequence-ordered queue. *)
Definition ordered (b : Z) (s : lst) : Prop :=
  roomy s /\ sorted b KSYN_QUEUE_READ s /\ sorted b KSYN_QUEUE_WRITE s.

Lemma roomy_same s s' : same_queues s s' -> roomy s -> roomy s'.
Proof. intros Q [W B]. split; [by eapply wfd_same|]. by rewrite (same_queued s s'). Qed.
Lemma ordered_same b s s' : same_queues s s' -> ordered b s -> ordered b s'.
Proof.
  intros Q (R & S1 & S2). split_and!; [by eapply roomy_same|by eapply sorted_same..].
Qed.
Lemma roomy_signalled kqi t v s :
  roomy s -> KThread t ∈ kwel kqi s -> roomy (signalled kqi t v s).
Proof.
  intros [W B] He. split; [by apply wf_signalled|]. rewrite (signalled_queued 0) by done.
  rewrite (unlink_length (KThread t) (queued s)) in B by (by eapply kwel_queued). lia.
Qed.
Lemma ordered_signalled b kqi t v s :
  ordered b s -> KThread t ∈ kwel kqi s -> ordered b (signalled kqi t v s).
Proof.
  intros (R & S1 & S2) He. split_and!; [by apply roomy_signalled|..];
    eapply (sorted_signalled b 0); try done; apply R.
Qed.

(** ** Going to sleep *)

(** An element off the queues is overwritten with [x], also off the queues. *)
Definition staged (e : kwe_id) (x : ksyn_waitq_element) (s : lst) : lst :=
  s <| kwes := <[e := x]> (kwes s) |>.
Definition off_queue (e : kwe_id) (s : lst) : Prop :=
  exists x, kwes s !! e = Some x /\ kwe_kwqqueue x = None.

Lemma off_not_queued d e s : wfd d s -> off_queue e s -> e ∉ queued s.
Proof.
  intros W (x & Ex & Hx) He. destruct (wf_on _ _ W _ He) as (y & Ey & Hy & _). congruence.
Qed.
Lemma wfd_staged d e x s :
  wfd d s -> off_queue e s -> kwe_kwqqueue x = None -> wfd d (staged e x s).
Proof.
  intros W Hoff Hx. pose proof (off_not_queued _ _ _ W Hoff) as Hn. destruct Hoff as (y & Ey & _).
  destruct W as [W1 W2 W3 W4 W5 W6 W7 W8]. constructor; try done.
  - intros f Hf. cbn. rewrite lookup_insert_ne by (intros <-; contradiction). by apply W6.
  - intros f z. cbn. destruct (decide (f = e)) as [->|Hne].
    + rewrite lookup_insert_eq. intros [= <-]. congruence.
    + rewrite lookup_insert_ne by done. apply W7.
  - intros n Hn'. cbn. rewrite lookup_insert_ne; [by apply W8|].
    intros ->. cbn in Hn'. rewrite W8 in Ey by done. done.
Qed.
Lemma staged_seq_of d kqi e x s f :
  wfd d s -> off_queue e s -> f ∈ kwel kqi s -> seq_of (staged e x s) f = seq_of s f.
Proof.
  intros W Hoff Hf. unfold seq_of. cbn. rewrite lookup_insert_ne; [done|].
  intros <-. apply (off_not_queued _ _ _ W Hoff). by eapply kwel_queued.
Qed.
Lemma sorted_staged d b kqi e x s :
  wfd d s -> off_queue e s -> sorted b kqi s -> sorted b kqi (staged e x s).
Proof.
  intros W Hoff [H1 H2 H3 H4].
  pose proof (fun f => staged_seq_of d kqi e x s f W Hoff) as Hs.
  assert (forall f, head (kwel kqi s) = Some f -> f ∈ kwel kqi s) as Hh by (intros; by apply head_elem).
  assert (forall f, last (kwel kqi s) = Some f -> f ∈ kwel kqi s) as Hl by (intros; by apply last_Some_elem_of).
  constructor.
  - intros f Hf. rewrite Hs by done. auto.
  - eapply ssorted_mono; [|exact H2]. intros. unfold key. by rewrite !Hs.
  - intros f Hf. rewrite Hs by auto. auto.
  - intros f Hf. rewrite Hs by auto. auto.
Qed.

(** The element of a thread that is about to wait. *)
Definition wait_kwe (cur : nat) (lockseq flags : Z) : ksyn_waitq_element :=
  mk_kwe None (Some cur) KWE_THREAD_INWAIT flags (Z.land lockseq PTHRW_COUNT_MASK) 1 0.
Definition about_to_wait (cur : nat) (lockseq flags : Z) (s : lst) : lst :=
  staged (KThread cur) (wait_kwe cur lockseq flags) s.
Abbreviation idle cur s := (off_queue (KThread cur) s).

Lemma wfd_about_to_wait d cur lockseq flags s :
  wfd d s -> idle cur s -> wfd d (about_to_wait cur lockseq flags s).
Proof. intros. by apply wfd_staged. Qed.

Lemma ready_about_to_wait cur lockseq flags s :
  ready (KThread cur) (wait_kwe cur lockseq flags) (about_to_wait cur lockseq flags s).
Proof.
  split_and!; [by cbn; rewrite lookup_insert_eq|done|]. repeat split; cbn.
  - rewrite land_mask. pose proof (cnt_range lockseq). lia.
  - rewrite land_mask. pose proof (cnt_range lockseq). lia.
  - apply mask_idem.
Qed.

(** The blocked state. *)
Definition slept (cur : nat) (s : lst) : lst :=
  s <| kwq ::= fun k => if _kwq_use_turnstile k then k <| kw_turnstile ::= fun n => n + 1 |> else k |>
    <| waiting ::= <[cur := self s]> |> <| wq_held := false |>.

Lemma wp_wait cur kqi lockseq fit flags s (Q : wait_outcome -> lst -> Prop) :
  idle cur s ->
  wp (ksyn_queue_insert kqi (KThread cur) lockseq fit) (fun res s2 =>
    wq_held s2 = true /\
    if res =? 0 then Q Blocked (slept cur s2) else Q (Returned res) (s2 <| wq_held := false |>))
    (about_to_wait cur lockseq flags s) ->
  wp (ksyn_wait cur kqi lockseq fit flags) Q s.
Proof.
  intros (x & Ex & _) Hi. unfold ksyn_wait. apply wp_bind. eapply wp_kwe_mod; [done|].
  apply wp_bind. eapply wp_mono; [exact Hi|]. cbv beta. intros res s2 [Hh HQ].
  destruct (res =? 0); cbn [negb]; cbv iota.
  - wp_go. destruct s2 as [q k ke z w f h]. cbn in Hh. subst h.
    unfold slept, update in HQ. cbn in HQ.
    unfold psynch_wait_prepare. apply wp_bind. cbn. destruct (_kwq_use_turnstile k);
      [apply wp_when_true, wp_kw_mod|apply wp_when_false]; apply wp_modify;
      apply wp_bind, wp_unlock; try done.
  - apply wp_bind, wp_unlock; [done|]. by apply wp_ret.
Qed.

Lemma slept_same cur s : same_queues s (slept cur s).
Proof.
  unfold slept. constructor; cbn; try (by destruct (_kwq_use_turnstile (kwq s))); try done.
  all: intros e; by destruct (kwes s !! e); constructor.
Qed.
Lemma about_seq_of cur lockseq flags s :
  seq_of (about_to_wait cur lockseq flags s) (KThread cur) = Z.land lockseq PTHRW_COUNT_MASK.
Proof. unfold seq_of. cbn. by rewrite lookup_insert_eq. Qed.

(** ** A queue nobody has used yet, for [n] threads *)
Definition fresh (type : Z) (n : nat) : lst :=
  mk_lst 0 (kwq_zero <| kw_type := type |>)
    (list_to_map ((fun t => (KThread t, kwe_zero)) <$> seq 0 n)) 0 ∅ (fun _ => 1) false.

Lemma fresh_lookup type n e x : kwes (fresh type n) !! e = Some x -> x = kwe_zero /\ exists t, e = KThread t.
Proof.
  cbn. intros Hx%elem_of_list_to_map_2. apply list_elem_of_fmap in Hx as (t & E & _). by simplify_eq; eauto.
Qed.
Lemma fresh_roomy type n : roomy (fresh type n).
Proof.
  split; [|done]. constructor; try done.
  - constructor.
  - intros []; done.
  - intros e He. cbn in He. set_solver.
  - intros e x Hx. apply fresh_lookup in Hx as [-> _]. done.
  - intros k _. destruct (kwes (fresh type n) !! KZone k) eqn:E; [|done].
    apply fresh_lookup in E as [_ [t E]]. done.
Qed.
(** What a run establishes of the state it ends in. *)
Lemma wp_result {A} (m : MQ A) Q s a s' : wp m Q s -> m s = Ret a s' -> Q a s'.
Proof. unfold wp. intros Hw E. by rewrite E in Hw. Qed.
End KsynProps.
