(* ===== verification/KsynMutex.v ===== *)
(** Psynch mutexes: [_psynch_mutexdrop_internal], [_psynch_mutexwait] and
    [psynch_mtxcontinue] of [kern_synch.c] keep the invariant of a mutex queue,
    return, hand the mutex over in sequence and lose no wake-up. *)
From S2P Require Import Prelude SeqArith Ksyn KsynQueue KsynSync KsynProps.

Module KsynMutex.
Import Ksyn KsynQueue KsynSync KsynProps.

(** A mutex queue: only threads, and only on the writers' list. *)
Definition mutex_inv (s : lst) : Prop :=
  roomy s /\ kwel KSYN_QUEUE_READ s = [] /\
  forall e, e ∈ kwel KSYN_QUEUE_WRITE s -> exists t, e = KThread t.

Lemma mutex_queued s : mutex_inv s -> queued s = kwel KSYN_QUEUE_WRITE s.
Proof. intros (_ & E & _). unfold queued. by rewrite E. Qed.
Lemma mutex_inqueue_0 s : mutex_inv s -> kw_inqueue (kwq s) = 0 <-> kwel KSYN_QUEUE_WRITE s = [].
Proof.
  intros I. rewrite (wf_inqueue 0) by apply I. rewrite (mutex_queued s I).
  rewrite <- length_zero_iff_nil. lia.
Qed.
Lemma mutex_same s s' : same_queues s s' -> mutex_inv s -> mutex_inv s'.
Proof.
  intros Q (R & E & F). split_and!; [by eapply roomy_same|..]; by rewrite (same_kwel s s').
Qed.
Lemma mutex_signalled t v s :
  mutex_inv s -> KThread t ∈ kwel KSYN_QUEUE_WRITE s -> mutex_inv (signalled KSYN_QUEUE_WRITE t v s).
Proof.
  intros (R & E & F) He. pose proof R as [W _]. split_and!; [by apply roomy_signalled|..].
  - by rewrite (signalled_kwel 0), E by done.
  - intros e. rewrite (signalled_kwel 0) by done. intros Hx%elem_of_unlink. auto.
Qed.

(** ** Signalling a mutex waiter *)
Lemma wp_mtxsignal t v e s (Q : Z * option nat -> lst -> Prop) :
  mutex_inv s -> KThread t ∈ kwel KSYN_QUEUE_WRITE s ->
  (e = Some (KThread t) \/ e = None /\ head (kwel KSYN_QUEUE_WRITE s) = Some (KThread t)) ->
  (let s1 := signalled KSYN_QUEUE_WRITE t v s in
   if decide (asleep s t) then Q (KERN_SUCCESS, old_owner (Some t) false s1) (owned (Some t) false s1)
   else Q (KERN_NOT_WAITING, old_owner None true s1) (owned None true s1)) ->
  wp (ksyn_mtxsignal e v) Q s.
Proof.
  intros I He Hor HQ. pose proof I as ([W _] & _).
  destruct (wf_lookup _ _ _ _ W He) as (x & Ex & _ & _ & _ & _ & Hth).
  unfold ksyn_mtxsignal. wp_go.
  assert (forall P : kwe_id -> lst -> Prop, P (KThread t) s ->
    wp match e with
       | Some e => ret e
       | None => match ksynq_kwelist (kw_write (kwq s)) with
                 | e :: _ => ret e
                 | [] => panic "ksyn_mtxsignal: panic signaling empty queue"
                 end
       end P s) as Hsel.
  { intros P HP. destruct Hor as [->|[-> Hh]]; [done|]. unfold kwel in Hh. cbn in Hh.
    destruct (ksynq_kwelist _); [done|]. injection Hh as ->. done. }
  apply Hsel. wp_go. eapply wp_signal; [done|done|]. apply wp_bind. cbn zeta in HQ.
  case_decide as Hs.
  - change (KERN_SUCCESS =? KERN_SUCCESS) with true. cbv iota. apply wp_bind.
    eapply wp_kwe_deref; [by rewrite signalled_lookup, decide_True, Ex|]. cbn. rewrite Hth.
    apply wp_set_owner. by apply wp_ret.
  - change (KERN_NOT_WAITING =? KERN_SUCCESS) with false. cbv iota.
    unfold _kwq_clear_owner. apply wp_set_owner. by apply wp_ret.
Qed.

Lemma mutex_head s : mutex_inv s -> (kw_inqueue (kwq s) =? 0) = false ->
  exists t, head (kwel KSYN_QUEUE_WRITE s) = Some (KThread t) /\ KThread t ∈ kwel KSYN_QUEUE_WRITE s.
Proof.
  intros I Hz. apply Z.eqb_neq in Hz. rewrite (mutex_inqueue_0 s I) in Hz. destruct I as (_ & _ & F).
  destruct (kwel KSYN_QUEUE_WRITE s) as [|e l] eqn:E; [done|].
  destruct (F e) as [t ->]; [set_solver|]. exists t. split; [done|set_solver].
Qed.

(** ** The unlock loop returns *)

(** Other threads do not queue faster than this one dequeues: needed only by
    the first-fit loop, which drops the lock before it looks again. *)
Definition no_growth (interfere : environment) : Prop :=
  forall mine s, (length (queued (interfere mine s)) <= length (queued s))%nat.

Lemma mutex_owned new tr s : mutex_inv s -> mutex_inv (owned new tr s).
Proof. apply mutex_same, owned_same. Qed.
Lemma owned_held new tr s : wq_held (owned new tr s) = wq_held s.
Proof. unfold owned. case_decide; [done|]. by destruct tr, new. Qed.
Lemma owned_queued new tr s : queued (owned new tr s) = queued s.
Proof. apply same_queued, owned_same. Qed.
Lemma signalled_held kqi t v s : wq_held (signalled kqi t v s) = wq_held s.
Proof. done. Qed.
Lemma signalled_shorter t v s :
  mutex_inv s -> KThread t ∈ kwel KSYN_QUEUE_WRITE s ->
  length (queued s) = S (length (queued (signalled KSYN_QUEUE_WRITE t v s))).
Proof.
  intros ([W _] & _) He. rewrite (signalled_queued 0) by done.
  apply unlink_length. by eapply kwel_queued.
Qed.

(** The bookkeeping of a drop that found nobody to wake. *)
Lemma wp_prepost_tail (Q : option nat -> lst -> Prop) s :
  Q (old_owner None true s) (owned None true s) ->
  wp (old <- _kwq_clear_owner ;; psynch_wait_update_owner ;;; ret old) Q s.
Proof.
  intros HQ. apply wp_bind. unfold _kwq_clear_owner. apply wp_set_owner.
  unfold psynch_wait_update_owner. apply wp_bind, wp_bind, wp_kw_mod, wp_kw_mod, wp_ret.
  eapply eq_ind; [exact HQ|]. generalize (owned None true s). intros [? k ?????].
  unfold update at 1 2. cbn. f_equal. symmetry. apply turnstile_pair.
Qed.

Lemma find_elem {A} (p : A -> bool) l x : List.find p l = Some x -> x ∈ l /\ p x = true.
Proof. intros [Hin Hp]%List.find_some. split; [by apply list_elem_of_In|done]. Qed.

(** The generic prepost branch, as it ends every path that wakes nobody. *)
Lemma wp_drop_prepost nextgen s (Q : option nat -> lst -> Prop) :
  (let s1 := if kw_prepost_count (kwq s) =? 0
             then s <| kwq ::= _kwq_mark_preposted_wakeup 1 (Z.land nextgen PTHRW_COUNT_MASK) 0 |>
             else s in
   Q (old_owner None true s1) (owned None true s1)) ->
  wp (k <- gets kwq ;;
      when (kw_prepost_count k =? 0)
        (kw_mod (_kwq_mark_preposted_wakeup 1 (Z.land nextgen PTHRW_COUNT_MASK) 0)) ;;;
      old <- _kwq_clear_owner ;; psynch_wait_update_owner ;;; ret old) Q s.
Proof.
  cbn zeta. intros HQ. wp_go. destruct (kw_prepost_count (kwq s) =? 0);
    [apply wp_when_true, wp_kw_mod|apply wp_when_false]; by apply wp_prepost_tail.
Qed.

(** Small effects that leave the queues alone. *)
Record quietly (s s' : lst) : Prop := {
  qu_same : same_queues s s';
  qu_held : wq_held s' = wq_held s;
  qu_kwes : kwes s' = kwes s;
}.
Lemma quietly_mutex s s' : quietly s s' -> mutex_inv s -> mutex_inv s'.
Proof. intros [Q _ _]. by apply mutex_same. Qed.
Lemma quietly_idle cur s s' : quietly s s' -> idle cur s -> idle cur s'.
Proof. intros [_ _ E] (x & Ex & Hx). exists x. by rewrite E. Qed.
Lemma quietly_owned new tr s : quietly s (owned new tr s).
Proof.
  split; [apply owned_same|apply owned_held|]. unfold owned. case_decide; [done|]. by destruct tr, new.
Qed.
Lemma quietly_kw_mod f s :
  kw_read (f (kwq s)) = kw_read (kwq s) -> kw_write (f (kwq s)) = kw_write (kwq s) ->
  kw_inqueue (f (kwq s)) = kw_inqueue (kwq s) -> kw_fakecount (f (kwq s)) = kw_fakecount (kwq s) ->
  quietly s (s <| kwq ::= f |>).
Proof. intros. by split; [apply same_kw_mod|..]. Qed.
#[global] Instance quietly_preorder : PreOrder quietly.
Proof.
  split; [by intros s|]. intros s1 s2 s3 [] []. split; [by etransitivity|congruence..].
Qed.

Lemma wp_handle_interrupted type lseq s (Q : option Z -> lst -> Prop) :
  (forall r s', quietly s s' -> Q r s') -> wp (_kwq_handle_interrupted_wakeup type lseq) Q s.
Proof.
  intros HQ. unfold _kwq_handle_interrupted_wakeup. wp_go. case_bool; [|by apply HQ].
  apply wp_bind, wp_kw_mod. wp_go.
  destruct (kw_intr_returnbits (kwq s) =? 0); [apply wp_when_true, wp_kw_mod|apply wp_when_false];
    apply wp_ret, HQ; repeat (etransitivity; [|by apply quietly_kw_mod]); done.
Qed.
Lemma wp_update_owner s (Q : unit -> lst -> Prop) : Q tt s -> wp psynch_wait_update_owner Q s.
Proof.
  intros HQ. unfold psynch_wait_update_owner. apply wp_bind, wp_kw_mod, wp_kw_mod.
  eapply eq_ind; [exact HQ|]. destruct s as [? k ?????]. unfold update at 1 2. cbn.
  f_equal. symmetry. apply turnstile_pair.
Qed.
Lemma wp_thread_ref t s (Q : unit -> lst -> Prop) :
  (forall s', quietly s s' -> Q tt s') -> wp (thread_reference t) Q s.
Proof.
  intros HQ. destruct t; cbn; [apply wp_modify|apply wp_ret]; apply HQ; [|done].
  split; [|done|done]. constructor; try done. all: intros e; cbn; by destruct (kwes s !! e); constructor.
Qed.
Lemma wp_thread_dealloc t s (Q : unit -> lst -> Prop) :
  (forall s', quietly s s' -> Q tt s') -> wp (thread_deallocate t) Q s.
Proof.
  intros HQ. destruct t; cbn; [apply wp_modify|apply wp_ret]; apply HQ; [|done].
  split; [|done|done]. constructor; try done. all: intros e; cbn; by destruct (kwes s !! e); constructor.
Qed.

(** What the drop loop needs of [ksyn_mtxsignal]. *)
Lemma wp_mtxsignal_inv t v e s (Q : Z * option nat -> lst -> Prop) :
  mutex_inv s -> wq_held s = true -> KThread t ∈ kwel KSYN_QUEUE_WRITE s ->
  (e = Some (KThread t) \/ e = None /\ head (kwel KSYN_QUEUE_WRITE s) = Some (KThread t)) ->
  (forall r old s', r = KERN_SUCCESS \/ r = KERN_NOT_WAITING -> mutex_inv s' -> wq_held s' = true ->
     length (queued s) = S (length (queued s')) -> Q (r, old) s') ->
  wp (ksyn_mtxsignal e v) Q s.
Proof.
  intros I Hh Ht He HQ. eapply (wp_mtxsignal t); [done|done|done|]. cbn zeta.
  pose proof (mutex_signalled t v s I Ht) as I1. pose proof (signalled_shorter t v s I Ht) as Hl.
  case_decide; (apply HQ; [auto|by apply mutex_owned|by rewrite owned_held|by rewrite owned_queued]).
Qed.
Lemma mutex_kw_mod f s :
  kw_read (f (kwq s)) = kw_read (kwq s) -> kw_write (f (kwq s)) = kw_write (kwq s) ->
  kw_inqueue (f (kwq s)) = kw_inqueue (kwq s) -> kw_fakecount (f (kwq s)) = kw_fakecount (kwq s) ->
  mutex_inv s -> mutex_inv (s <| kwq ::= f |>).
Proof. intros. eapply mutex_same; [by apply same_kw_mod|done]. Qed.

Section Drop.
Context (interfere : environment) `{!Rely mutex_inv interfere}.
Abbreviation kept := (fun _ s' => mutex_inv s' /\ wq_held s' = true).

Lemma redrive_prepost nextgen s : mutex_inv s -> wq_held s = true ->
  wp (k <- gets kwq ;;
      when (kw_prepost_count k =? 0)
        (kw_mod (_kwq_mark_preposted_wakeup 1 (Z.land nextgen PTHRW_COUNT_MASK) 0)) ;;;
      old <- _kwq_clear_owner ;; psynch_wait_update_owner ;;; ret old) kept s.
Proof.
  intros I Hh. apply wp_drop_prepost. cbn zeta. rewrite owned_held.
  destruct (_ =? 0); (split; [apply mutex_owned; try done; by apply mutex_kw_mod|done]).
Qed.
(** One round of the first-fit loop, given the rounds after it. *)
Lemma redrive_again mgen nextgen n fuel old s :
  (forall s, mutex_inv s -> wq_held s = true -> (length (queued s) < n)%nat ->
    wp (mutexdrop_redrive interfere mgen nextgen true fuel) kept s) ->
  no_growth interfere -> mutex_inv s -> wq_held s = true -> (length (queued s) < n)%nat ->
  wp (ksyn_wqunlock ;;; _kwq_cleanup_old_owner old ;;; ksyn_wqlock interfere [] ;;;
      mutexdrop_redrive interfere mgen nextgen true fuel) kept s.
Proof.
  intros IH Hg I Hh Hl. apply wp_bind, wp_unlock; [done|]. set (s2 := s <| wq_held := false |>).
  assert (mutex_inv s2) as I2 by (eapply mutex_same; [apply same_held|done]).
  assert (length (queued s2) < n)%nat as Hl2 by (unfold s2; by rewrite (same_queued _ _ (same_held false _))).
  assert (wq_held s2 = false) as Hh2 by done. clearbody s2.
  apply wp_bind, wp_thread_dealloc. intros s3 Q3. apply wp_bind, wp_lock; [by rewrite (qu_held _ _ Q3)|]. cbv beta.
  assert (mutex_inv s3) as I3 by (by eapply quietly_mutex).
  assert (mutex_inv ((interfere [] s3) <| wq_held := true |>)) as I4.
  { apply (mutex_same (interfere [] s3)); [apply same_held|]. apply (rely_inv [] s3); [done|by rewrite (qu_held _ _ Q3)]. }
  apply IH; [exact I4|done|].
  rewrite (same_queued _ _ (same_held true _)). specialize (Hg [] s3).
  rewrite (same_queued _ _ (qu_same _ _ Q3)) in Hg. lia.
Qed.

Lemma redrive_returns mgen nextgen firstfit fuel s :
  (firstfit = true -> no_growth interfere) ->
  mutex_inv s -> wq_held s = true -> (length (queued s) < fuel)%nat ->
  wp (mutexdrop_redrive interfere mgen nextgen firstfit fuel) kept s.
Proof.
  intros Hg. revert s. induction fuel as [|fuel IH]; intros s I Hh Hf; [lia|].
  cbn [mutexdrop_redrive]. wp_go. set (ub := Z.lor _ _). clearbody ub.
  pose proof (redrive_prepost nextgen s I Hh) as Hpre.
  destruct (kw_inqueue (kwq s) =? 0) eqn:Ez.
  { destruct firstfit; [|done]. apply wp_bind, wp_kw_mod. apply wp_prepost_tail. rewrite owned_held. split; [|done].
    apply mutex_owned. by apply mutex_kw_mod. }
  destruct (mutex_head s I Ez) as (t & Hh' & Ht). destruct firstfit.
  - apply wp_bind. eapply (wp_mtxsignal_inv t); [done|done|done|by right|]. intros r old s' [->| ->] I' Hs' Hl; [by apply wp_ret|].
    apply (redrive_again _ _ fuel); eauto. lia.
  - destruct (_ =? nextgen) eqn:En.
    { apply wp_bind. eapply (wp_mtxsignal_inv t); [done|done|done|by right|]. intros r old s' [->| ->] I' Hs' _.
      - by apply wp_bind, wp_when_false, wp_ret.
      - apply wp_bind, wp_when_true, wp_kw_mod, wp_ret. split; [by apply mutex_kw_mod|done]. }
    destruct (is_seqhigher _ nextgen); [done|]. apply wp_bind.
    unfold ksyn_queue_find_seq. wp_go. apply wp_find_seq_in; [apply (wf_allocated 0); apply I|].
    destruct (List.find _ _) as [e|] eqn:Ef; [|done]. apply find_elem in Ef as [He _].
    destruct (proj2 (proj2 I) e He) as [u ->]. apply wp_bind.
    eapply (wp_mtxsignal_inv u); [done|done|done|by left|]. intros r old s' [->| ->] I' Hs' Hl; [by apply wp_ret|].
    apply IH; [done|done|lia].
Qed.
End Drop.

(** ** The lock path returns *)

(** [mutex_inv] without the room. *)
Definition mutex_wf (s : lst) : Prop :=
  wf s /\ kwel KSYN_QUEUE_READ s = [] /\
  forall e, e ∈ kwel KSYN_QUEUE_WRITE s -> exists t, e = KThread t.
Lemma mutex_inv_wf s : mutex_inv s -> mutex_wf s.
Proof. intros ([W _] & ?). by split. Qed.
Lemma mutex_wf_same s s' : same_queues s s' -> mutex_wf s -> mutex_wf s'.
Proof. intros Q (W & E & F). split_and!; [by eapply wfd_same|..]; by rewrite (same_kwel s s'). Qed.

Lemma mutex_wait cur mgen fit s :
  mutex_inv s -> idle cur s -> wq_held s = true ->
  wp (ksyn_wait cur KSYN_QUEUE_WRITE mgen fit 0) (fun w s' =>
    mutex_wf s' /\ wq_held s' = false /\
    (w = Blocked -> KThread cur ∈ kwel KSYN_QUEUE_WRITE s' /\ asleep s' cur)) s.
Proof.
  intros ([W B] & E & F) Hi Hh. eapply wp_wait; [done|].
  pose proof (wfd_about_to_wait 0 cur mgen 0 s W Hi) as W1.
  pose proof (ready_about_to_wait cur mgen 0 s) as R1.
  eapply (wp_insert_any 0); [done|done|by rewrite about_seq_of|done|..].
  - intros res Hres. split; [done|]. assert ((res =? 0) = false) as -> by (destruct Hres; by subst).
    split_and!; [|done|done]. split_and!; [eapply wfd_same; [apply same_held|done]|done|done].
  - intros q Hp Hc. split; [done|]. cbn.
    assert (wf (inserted KSYN_QUEUE_WRITE (KThread cur) q (about_to_wait cur mgen 0 s))) as W2.
    { eapply (wf_inserted 0 KSYN_QUEUE_WRITE (KThread cur)); done. }
    split_and!; [|done|].
    + eapply mutex_wf_same; [apply slept_same|]. split_and!; [done|..].
      * by rewrite inserted_kwel, decide_False.
      * intros e. rewrite inserted_kwel, decide_True, Hp by done.
        intros [->|He]%elem_of_cons; [by eexists|auto].
    + intros _. split.
      * rewrite (same_kwel _ _ _ (slept_same cur _)), inserted_kwel, decide_True, Hp by done. set_solver.
      * unfold asleep. cbn. by rewrite lookup_insert_eq.
Qed.

Section Wait.
Context (interfere : environment) `{!Rely mutex_inv interfere}.
Context (thread_id : nat -> Z) (findtid : Z -> option nat) (cur : nat).

(** The state in which the lock is taken. *)
Lemma locked_state mine s :
  mutex_inv s -> wq_held s = false -> mutex_inv ((interfere mine s) <| wq_held := true |>).
Proof. intros I Hh. eapply mutex_same; [apply same_held|]. by apply rely_inv. Qed.
Lemma locked_idle s : idle cur s -> idle cur ((interfere [KThread cur] s) <| wq_held := true |>).
Proof. intros (x & Ex & Hx). exists x. split; [|done]. cbn. eapply rely_mine; [set_solver|done|done]. Qed.

(** What a finished lock call guarantees. *)
Definition waited (r : sysres * list (option nat)) (s' : lst) : Prop :=
  mutex_wf s' /\ wq_held s' = false /\
  (r.1 = Asleep -> KThread cur ∈ kwel KSYN_QUEUE_WRITE s' /\ asleep s' cur).

Lemma wait_granted v tid_th s :
  mutex_inv s -> wq_held s = true ->
  wp (old_owner <- _kwq_set_owner (Some cur) false ;;
      psynch_wait_update_owner ;;; ksyn_wqunlock ;;;
      ret (Done 0 (Some v), [tid_th; old_owner])) waited s.
Proof.
  intros I Hh. apply wp_bind, wp_set_owner. apply wp_bind, wp_update_owner.
  apply wp_bind, wp_unlock; [by rewrite owned_held|]. apply wp_ret. split_and!; [|done|done].
  apply mutex_inv_wf. eapply mutex_same; [apply same_held|]. by apply mutex_owned.
Qed.
Lemma wait_blocks mgen (firstfit : bool) tid_th s :
  mutex_inv s -> idle cur s -> wq_held s = true ->
  wp (thread_deallocate tid_th ;;;
      w <- ksyn_wait cur KSYN_QUEUE_WRITE mgen (if firstfit then FIRSTFIT else SEQFIT) 0 ;;
      match w with
      | Returned error => ret (Done error None, [None; None])
      | Blocked => ret (Asleep, [])
      end) waited s.
Proof.
  intros I Hi Hh. apply wp_bind, wp_thread_dealloc. intros s1 Q1. apply wp_bind.
  eapply wp_mono; [apply mutex_wait|].
  - by eapply quietly_mutex.
  - by eapply quietly_idle.
  - by rewrite (qu_held _ _ Q1).
  - intros [err|] s' (W & H' & Hb); apply wp_ret; split_and!; try done. cbn. auto.
Qed.

Lemma mutexwait_returns_from mgen ugen firstfit (tid : Z) (tid_th : option nat) fuel s :
  mutex_inv s -> idle cur s -> wq_held s = false ->
  ((if decide (tid_th = None /\ tid <> 0%Z) then 2 else 1) <= fuel)%nat ->
  wp (mutexwait_again interfere thread_id findtid cur mgen ugen firstfit tid tid_th fuel) waited s.
Proof.
  revert tid tid_th s. induction fuel as [|fuel IH]; intros tid tid_th s I Hi Hh Hf;
    [case_decide; lia|].
  cbn [mutexwait_again]. apply wp_bind, wp_lock; [done|].
  pose proof (locked_state [KThread cur] s I Hh) as I0. pose proof (locked_idle s Hi) as Hi0.
  set (s0 := (interfere [KThread cur] s) <| wq_held := true |>) in *. assert (wq_held s0 = true) as Hh0 by done.
  clearbody s0. apply wp_bind, wp_handle_interrupted. intros r s1 Q1.
  assert (mutex_inv s1) as I1 by (by eapply quietly_mutex).
  assert (idle cur s1) as Hi1 by (by eapply quietly_idle).
  assert (wq_held s1 = true) as Hh1 by (by rewrite (qu_held _ _ Q1)).
  clear I0 Hi0 Hh0 Q1 s0. destruct r as [v|]; [by apply wait_granted|]. wp_go.
  destruct (negb (kw_prepost_count (kwq s1) =? 0) && _).
  { apply wp_bind, wp_kw_mod.
    assert (forall f, quietly s1 (s1 <| kwq ::= f |>) -> mutex_inv (s1 <| kwq ::= f |>)) as Hq
      by (intros f Q; by eapply quietly_mutex).
    destruct (negb firstfit && _).
    - apply wp_bind, wp_kw_mod. apply wp_bind, wp_unlock; [done|]. apply wp_ret. split_and!; [|done|done].
      apply mutex_inv_wf. eapply mutex_same; [|exact I1].
      etransitivity; [|apply same_held]. etransitivity; [|by apply same_kw_mod]. by apply same_kw_mod.
    - apply wp_bind. destruct firstfit; cbn [negb]; [apply wp_when_false|apply wp_when_true, wp_kw_mod];
        (apply wait_granted; [|done]); eapply mutex_same; try exact I1;
        [by apply same_kw_mod|etransitivity; [|by apply same_kw_mod]; by apply same_kw_mod]. }
  match goal with |- context [if ?c then _ else _] => destruct c eqn:Ec end; [by apply wait_blocks|].
  destruct tid_th as [th|].
  - apply wp_bind, wp_set_owner. apply wait_blocks; [by apply mutex_owned| |by rewrite owned_held].
    eapply quietly_idle; [apply quietly_owned|done].
  - apply wp_bind, wp_unlock; [done|]. apply wp_bind, wp_thread_ref. intros s2 Q2.
    apply IH.
    + eapply quietly_mutex; [done|]. eapply mutex_same; [apply same_held|done].
    + eapply quietly_idle; [done|]. done.
    + by rewrite (qu_held _ _ Q2).
    + assert (tid <> 0) as Ht.
      { intros ->. repeat (apply orb_false_iff in Ec as [Ec ?]). done. }
      rewrite decide_True in Hf by done. destruct (findtid tid); rewrite decide_False; naive_solver lia.
Qed.
End Wait.

(** unlocking a psynch mutex always returns.  For both policies and
    whatever other threads do when the lock is dropped (they keep the mutex
    queue's invariant; for first-fit, which re-takes the lock in its loop, they
    do not queue faster than the loop dequeues), a fuel above the number of
    queued waiters is enough: the call returns 0 without a panic, the wait queue
    is well formed and the spin lock is free. *)
Theorem mutexdrop_returns interfere mgen ugen flags fuel s :
  Rely mutex_inv interfere -> mutex_inv s -> wq_held s = false ->
  (is_firstfit flags = true -> no_growth interfere) ->
  (length (queued (interfere [] s)) < fuel)%nat ->
  wp (mutexdrop_locked interfere mgen ugen flags fuel)
    (fun r s' => r = 0 /\ mutex_inv s' /\ wq_held s' = false) s.
Proof.
  intros HR I Hh Hg Hf. unfold mutexdrop_locked. apply wp_bind, wp_lock; [done|].
  apply wp_bind, wp_kw_mod. apply wp_bind.
  eapply wp_mono; [apply redrive_returns; [done|done| |done|done]|].
  - eapply mutex_same; [by apply same_kw_mod|]. by apply locked_state.
  - intros o s1 [I1 H1]. apply wp_bind, wp_unlock; [done|]. apply wp_bind, wp_thread_dealloc.
    intros s2 Q2. apply wp_ret. split_and!; [done| |by rewrite (qu_held _ _ Q2)].
    eapply quietly_mutex; [done|]. eapply mutex_same; [apply same_held|done].
Qed.

(** locking a psynch mutex always returns or sleeps.  Whatever other
    threads do while the lock is dropped to resolve the owner hint, two rounds
    are enough; there is no panic, the queue is well formed, the spin lock is
    free, and a call that goes to sleep has left the thread on the queue,
    asleep on it. *)
Theorem mutexwait_returns interfere thread_id findtid cur mgen ugen firstfit tid fuel s :
  Rely mutex_inv interfere -> mutex_inv s -> idle cur s -> wq_held s = false -> (2 <= fuel)%nat ->
  wp (mutexwait_again interfere thread_id findtid cur mgen ugen firstfit tid None fuel)
    (fun r s' => wf s' /\ wq_held s' = false /\
       (r.1 = Asleep -> KThread cur ∈ kwel KSYN_QUEUE_WRITE s' /\ asleep s' cur)) s.
Proof.
  intros HR I Hi Hh Hf. eapply wp_mono; [apply mutexwait_returns_from; try done; case_decide; lia|].
  intros r s' ((W & _) & H' & Ha). by split_and!.
Qed.

(** ** Handing the mutex over *)


(** The word a new owner returns to user space with. *)
Definition granted_bits (seq : Z) : Z :=
  Z.lor (Z.land seq PTHRW_COUNT_MASK) (Z.lor PTH_RWL_EBIT PTH_RWL_KBIT).


Definition dropped (o : option nat) (s : lst) : lst :=
  match o with
  | Some t => s <| trefs ::= fun f => upd f t (f t - 1) |>
  | None => s
  end.
Lemma wp_drop_ref o s (Q : unit -> lst -> Prop) :
  Q tt (dropped o s) -> wp (_kwq_cleanup_old_owner o) Q s.
Proof. by destruct o. Qed.
Lemma dropped_refs o s u : ext_refs (dropped o s) u = ext_refs s u - ref_of o u.
Proof.
  unfold ext_refs, ref_of, dropped. destruct o as [t|]; cbn;
    unfold upd; repeat case_decide; simplify_eq; try congruence; lia.
Qed.
Lemma owned_owner new tr s : kw_owner (kwq (owned new tr s)) = new.
Proof. unfold owned. case_decide; [done|]. by destruct tr, new. Qed.
Lemma owned_waiting new tr s : waiting (owned new tr s) = waiting s.
Proof. unfold owned. case_decide; [done|]. by destruct tr, new. Qed.
Lemma owned_kwes new tr s : kwes (owned new tr s) = kwes s.
Proof. unfold owned. case_decide; [done|]. by destruct tr, new. Qed.
Lemma owned_prepost new tr s : kw_prepost_count (kwq (owned new tr s)) = kw_prepost_count (kwq s).
Proof. unfold owned. case_decide; [done|]. by destruct tr, new. Qed.

Lemma drop_wakes_next interfere mgen ugen flags fuel t s :
  Rely mutex_inv interfere -> mutex_inv s -> wq_held s = false -> is_firstfit flags = false ->
  let s0 := interfere [] s in
  head (kwel KSYN_QUEUE_WRITE s0) = Some (KThread t) ->
  Z.land (ksynq_firstnum (kw_write (kwq s0))) PTHRW_COUNT_MASK = u32 (ugen + PTHRW_INC) ->
  asleep s0 t -> (0 < fuel)%nat ->
  wp (mutexdrop_locked interfere mgen ugen flags fuel) (fun r s' =>
    r = 0 /\ wq_held s' = false /\ kw_owner (kwq s') = Some t /\ waiting s' !! t = None /\
    kwel KSYN_QUEUE_WRITE s0 = KThread t :: kwel KSYN_QUEUE_WRITE s' /\
    (exists x, kwes s' !! KThread t = Some x /\ kwe_kwqqueue x = None /\
       kwe_psynchretval x = Z.lor (granted_bits (kw_highseq (kwq s0))) PTH_RWL_MTX_WAIT) /\
    kw_prepost_count (kwq s') = kw_prepost_count (kwq s0) /\
    (forall u, ext_refs s' u = ext_refs s0 u)) s.
Proof.
  intros HR I Hh Hff s0 Hhd Hfirst Hsl Hfu. destruct fuel as [|fuel]; [lia|].
  unfold mutexdrop_locked. rewrite Hff. apply wp_bind, wp_lock; [done|].
  apply wp_bind, wp_kw_mod. apply wp_bind.
  set (s1 := s0 <| wq_held := true |> <| kwq ::= fun k => k <| kw_lastunlockseq := Z.land ugen PTHRW_COUNT_MASK |> |>).
  match goal with |- wp ?m ?Q _ => change (wp m Q s1) end.
  assert (mutex_inv s1) as I1.
  { eapply mutex_same; [by apply same_kw_mod|]. by apply locked_state. }
  assert (KThread t ∈ kwel KSYN_QUEUE_WRITE s1) as Ht by (by apply head_elem).
  assert ((kw_inqueue (kwq s1) =? 0) = false) as Ez.
  { apply Z.eqb_neq. rewrite (mutex_inqueue_0 s1 I1). intros E. rewrite E in Ht. set_solver. }
  cbn [mutexdrop_redrive]. wp_go. rewrite Ez. cbn [kwq].
  change (ksynq_firstnum (kw_write (kwq s1))) with (ksynq_firstnum (kw_write (kwq s0))).
  rewrite Hfirst, Z.eqb_refl. apply wp_bind.
  change (Z.lor (Z.land (kw_highseq (kwq s1)) PTHRW_COUNT_MASK) _) with (granted_bits (kw_highseq (kwq s0))).
  set (v := Z.lor (granted_bits _) _).
  eapply (wp_mtxsignal t); [done|done|by right|]. cbn zeta. rewrite decide_True by done. cbv beta iota.
  apply wp_bind. change (KERN_SUCCESS =? KERN_NOT_WAITING) with false. apply wp_when_false. apply wp_ret.
  set (s2 := signalled KSYN_QUEUE_WRITE t v s1).
  assert (mutex_inv s2) as I2 by (by apply mutex_signalled).
  assert (kw_owner (kwq s2) = kw_owner (kwq s0)) as Ho.
  { pose proof (signalled_frame KSYN_QUEUE_WRITE t v s1) as F. frame F kw_owner. done. }
  assert (kw_prepost_count (kwq s2) = kw_prepost_count (kwq s0)) as Hp.
  { pose proof (signalled_frame KSYN_QUEUE_WRITE t v s1) as F. frame F kw_prepost_count. done. }
  assert (forall u, ext_refs s2 u = ext_refs s0 u) as Hr.
  { intros u. unfold ext_refs. by rewrite Ho. }
  apply wp_bind, wp_unlock; [by rewrite owned_held|]. apply wp_bind, wp_drop_ref. apply wp_ret.
  pose proof (owned_same (Some t) false s2) as Qo. set (s3 := owned (Some t) false s2) in *.
  assert (forall o, kwq (dropped o (s3 <| wq_held := false |>)) = kwq s3 /\
    kwes (dropped o (s3 <| wq_held := false |>)) = kwes s3 /\
    waiting (dropped o (s3 <| wq_held := false |>)) = waiting s3) as Hd by (by intros []).
  specialize (Hd (old_owner (Some t) false s2)) as (Hk & He & Hw).
  split_and!.
  - done.
  - by destruct (old_owner (Some t) false s2).
  - rewrite Hk. apply owned_owner.
  - rewrite Hw. unfold s3. rewrite owned_waiting. unfold s2, signalled. cbn.
    rewrite decide_True by done. apply lookup_delete_eq.
  - unfold kwel at 2. rewrite Hk. fold (kwel KSYN_QUEUE_WRITE s3). rewrite (same_kwel _ _ _ Qo).
    unfold s2. rewrite (signalled_kwel 0) by (done || apply I1).
    change (kwel KSYN_QUEUE_WRITE s1) with (kwel KSYN_QUEUE_WRITE s0).
    destruct (kwel KSYN_QUEUE_WRITE s0) as [|a l]; [done|]. injection Hhd as ->. by rewrite unlink_head.
  - destruct I1 as ([W1 _] & _). destruct (wf_lookup _ _ _ _ W1 Ht) as (x & Ex & _).
    rewrite He. unfold s3. rewrite owned_kwes. unfold s2. rewrite signalled_lookup, decide_True, Ex by done.
    cbn. by eexists.
  - rewrite Hk. unfold s3. by rewrite owned_prepost.
  - intros u. rewrite dropped_refs. change (ext_refs (s3 <| wq_held := false |>) u) with (ext_refs s3 u).
    unfold s3. rewrite owned_refs, Hr. lia.
Qed.

(** ** The two orders of a contended unlock *)





(** C5: the fair hand-over.  On a mutex that is not first-fit, when the first queued waiter
    has the sequence after the one being unlocked and still sleeps,
    [_psynch_mutexdrop_internal] wakes exactly that thread: it leaves the queue, becomes the owner, and finds
    in its element the highest queued sequence with the E and K bits (and the
    MTX_WAIT marker); nothing is preposted, the other waiters keep their places,
    and no thread reference is leaked or lost. *)
Theorem fairshare_drop_wakes_next interfere mgen ugen flags fuel t s :
  Rely mutex_inv interfere -> mutex_inv s -> wq_held s = false -> is_firstfit flags = false ->
  let s0 := interfere [] s in
  head (kwel KSYN_QUEUE_WRITE s0) = Some (KThread t) ->
  Z.land (ksynq_firstnum (kw_write (kwq s0))) PTHRW_COUNT_MASK = u32 (ugen + PTHRW_INC) ->
  asleep s0 t -> (0 < fuel)%nat ->
  wp (mutexdrop_locked interfere mgen ugen flags fuel) (fun r s' =>
    r = 0 /\ kw_owner (kwq s') = Some t /\ waiting s' !! t = None /\
    kwel KSYN_QUEUE_WRITE s0 = KThread t :: kwel KSYN_QUEUE_WRITE s' /\
    (exists x, kwes s' !! KThread t = Some x /\ kwe_kwqqueue x = None /\
       kwe_psynchretval x = Z.lor (granted_bits (kw_highseq (kwq s0))) PTH_RWL_MTX_WAIT) /\
    kw_prepost_count (kwq s') = kw_prepost_count (kwq s0) /\
    (forall u, ext_refs s' u = ext_refs s0 u)) s.
Proof.
  intros HR I Hh Hff s0 Hhd Hfirst Hsl Hfu.
  eapply wp_mono; [by eapply drop_wakes_next|]. cbv beta. intros r s' (? & _ & ?). by split.
Qed.





(** ** Concrete runs *)

(** Thread 1 waits for sequence 2 (word 0x200) of a fair mutex. *)
Definition fresh_mutex : lst := fresh KSYN_WQTYPE_MTX 3.
Definition run_to {A} (m : MQ A) (s : lst) : lst :=
  match m s with Ret _ s' => s' | _ => s end.
Definition one_waiter : lst :=
  run_to (mutexwait_again quiet Z.of_nat (fun _ => None) 1 0x203 0x100 false 0 None 2) fresh_mutex.

Lemma fresh_mutex_inv : mutex_inv fresh_mutex.
Proof. split_and!; [apply fresh_roomy|done|]. intros e He. cbn in He. set_solver. Qed.
Lemma fresh_mutex_idle t : (t < 3)%nat -> idle t fresh_mutex.
Proof. intros Ht. exists kwe_zero. do 3 (destruct t; [done|]). lia. Qed.
Lemma one_waiter_inv : mutex_inv one_waiter.
Proof.
  assert (waited 1 (Asleep, []) one_waiter) as (W & _ & _).
  { eapply wp_result; [|vm_compute; reflexivity].
    apply (mutexwait_returns_from quiet Z.of_nat (fun _ => None) 1 0x203 0x100 false 0 None 2 fresh_mutex);
      [apply fresh_mutex_inv|by apply fresh_mutex_idle; lia|done|by case_decide; lia]. }
  destruct W as (W & ? & ?). split_and!; [|done|done]. split; [done|vm_compute; done].
Qed.

Lemma mutexdrop_returns_witness :
  wp (mutexdrop_locked quiet 0x203 0x100 0 2)
    (fun r s' => r = 0 /\ mutex_inv s' /\ wq_held s' = false) one_waiter.
Proof.
  apply (mutexdrop_returns quiet 0x203 0x100 0 2 one_waiter);
    [apply _|apply one_waiter_inv|vm_compute; reflexivity|vm_compute; discriminate|vm_compute; lia].
Defined.

Lemma mutexwait_returns_witness :
  wp (mutexwait_again quiet Z.of_nat (fun _ => Some 0%nat) 2 0x303 0x100 false 7 None 2)
    (fun r s' => wf s' /\ wq_held s' = false /\
       (r.1 = Asleep -> KThread 2 ∈ kwel KSYN_QUEUE_WRITE s' /\ asleep s' 2)) one_waiter.
Proof.
  apply (mutexwait_returns quiet Z.of_nat (fun _ => Some 0%nat) 2 0x303 0x100 false 7 2 one_waiter);
    [apply _|apply one_waiter_inv|exists kwe_zero; vm_compute; done|vm_compute; reflexivity|lia].
Defined.

Lemma fairshare_drop_wakes_next_witness :
  wp (mutexdrop_locked quiet 0x203 0x100 0 1)
    (fun r s' => r = 0 /\ kw_owner (kwq s') = Some 1%nat) one_waiter.
Proof.
  eapply wp_mono;
    [apply (fairshare_drop_wakes_next quiet 0x203 0x100 0 1 1 one_waiter);
      [apply _|apply one_waiter_inv|vm_compute; reflexivity|reflexivity|vm_compute; reflexivity
      |vm_compute; reflexivity|vm_compute; reflexivity|lia]|].
  cbv beta. intros r s' (? & ? & _). by split.
Defined.

End KsynMutex.
