(* ===== verification/KsynCv.v ===== *)
(** Psynch condition variables: [ksyn_handle_cvbroad], [ksyn_cvsignal],
    [__psynch_cvsignal], [_psynch_cvwait] and the freeing of fake entries. *)
From stdpp Require Import sorting.
From S2P Require Import Prelude SeqArith Ksyn KsynQueue KsynSync KsynProps.

Module KsynCv.
Import Ksyn KsynQueue KsynSync KsynProps.

(** A condition variable's queue: sequence-ordered, all on the writers' list. *)
Definition cv_ok (b : Z) (s : lst) : Prop :=
  wf s /\ sorted b KSYN_QUEUE_WRITE s /\ kwel KSYN_QUEUE_READ s = [].
(** ... with room for one more element. *)
Definition cv_inv (b : Z) (s : lst) : Prop :=
  cv_ok b s /\ Z.of_nat (length (kwel KSYN_QUEUE_WRITE s)) + 1 < 2 ^ 32.

Lemma cv_ok_same b s s' : same_queues s s' -> cv_ok b s -> cv_ok b s'.
Proof.
  intros Q (W & S & E). split_and!; [by eapply wfd_same|by eapply sorted_same|].
  by rewrite (same_kwel s s').
Qed.
Lemma cv_same b s s' : same_queues s s' -> cv_inv b s -> cv_inv b s'.
Proof. intros Q [O R]. split; [by eapply cv_ok_same|]. by rewrite (same_kwel s s'). Qed.
Lemma cv_wf b s : cv_ok b s -> wf s.
Proof. by intros (W & _). Qed.
Lemma cv_sorted b s : cv_ok b s -> sorted b KSYN_QUEUE_WRITE s.
Proof. by intros (_ & S & _). Qed.
Lemma cv_queued b s : cv_ok b s -> queued s = kwel KSYN_QUEUE_WRITE s.
Proof. intros (_ & _ & E). unfold queued. by rewrite E. Qed.

(** ** The fake counter *)
Lemma fakes_range l : 0 <= fakes l <= Z.of_nat (length l).
Proof.
  unfold fakes. split; [lia|]. apply inj_le, length_filter.
Qed.
Definition fake_dec (s : lst) : lst := s <| kwq ::= fun k => k <| kw_fakecount ::= fun c => u32 (c - 1) |> |>.
Definition fake_inc (s : lst) : lst := s <| kwq ::= fun k => k <| kw_fakecount ::= fun c => u32 (c + 1) |> |>.
Lemma wf_fake_dec s : wfd 1 s -> wf (fake_dec s).
Proof.
  intros W. destruct W as [W1 W2 W3 W4 W5 W6 W7 W8].
  constructor; try done.
  cbn. rewrite W5. replace (_ + 1 - 1) with (fakes (queued s)) by lia. pose proof (fakes_range (queued s)).
  change (queued (fake_dec s)) with (queued s). rewrite u32_id; lia.
Qed.
Lemma wf_fake_inc s : wfd (-1) s -> wf (fake_inc s).
Proof.
  intros W. destruct W as [W1 W2 W3 W4 W5 W6 W7 W8].
  constructor; try done.
  cbn. rewrite W5. replace (_ + -1 + 1) with (fakes (queued s)) by lia. pose proof (fakes_range (queued s)).
  change (queued (fake_inc s)) with (queued s). rewrite u32_id; lia.
Qed.
Lemma sorted_fake_dec b kqi s : sorted b kqi s -> sorted b kqi (fake_dec s).
Proof. intros [S1 S2 S3 S4]. by constructor; destruct kqi. Qed.
Lemma sorted_fake_inc b kqi s : sorted b kqi s -> sorted b kqi (fake_inc s).
Proof. intros [S1 S2 S3 S4]. by constructor; destruct kqi. Qed.

(** A fake is removed and no longer counted. *)
Definition unfaked (n : nat) (s : lst) : lst := fake_dec (removed KSYN_QUEUE_WRITE (KZone n) s).
Lemma cv_unfaked b n s :
  cv_ok b s -> KZone n ∈ kwel KSYN_QUEUE_WRITE s ->
  cv_ok b (unfaked n s) /\ kwel KSYN_QUEUE_WRITE (unfaked n s) = unlink (KZone n) (kwel KSYN_QUEUE_WRITE s).
Proof.
  intros (W & S & E) He. unfold unfaked.
  pose proof (wf_removed 0 KSYN_QUEUE_WRITE (KZone n) s W He) as W1.
  assert (forall kqi, kwel kqi (fake_dec (removed KSYN_QUEUE_WRITE (KZone n) s)) = unlink (KZone n) (kwel kqi s)) as K.
  { intros kqi. rewrite <- (removed_kwel 0 KSYN_QUEUE_WRITE) by done. by destruct kqi. }
  split; [|apply K]. split_and!; [by apply wf_fake_dec| |by rewrite K, E].
  apply sorted_fake_dec. by eapply (sorted_removed b 0).
Qed.
Lemma cv_signalled b t v s :
  cv_ok b s -> KThread t ∈ kwel KSYN_QUEUE_WRITE s ->
  cv_ok b (signalled KSYN_QUEUE_WRITE t v s) /\
  kwel KSYN_QUEUE_WRITE (signalled KSYN_QUEUE_WRITE t v s) = unlink (KThread t) (kwel KSYN_QUEUE_WRITE s).
Proof.
  intros (W & S & E) He. split; [split_and!|].
  - by apply wf_signalled.
  - by eapply sorted_signalled.
  - by rewrite (signalled_kwel 0), E.
  - by rewrite (signalled_kwel 0).
Qed.

(** ** Scanning the head of the queue *)

(** What a scan that takes elements off the head leaves alone. *)
Record scanned (l1 : list kwe_id) (s s' : lst) : Prop := {
  sc_self : self s' = self s;
  sc_held : wq_held s' = wq_held s;
  sc_zone : zone_next s' = zone_next s;
  sc_lword : kw_lword (kwq s') = kw_lword (kwq s);
  sc_sword : kw_sword (kwq s') = kw_sword (kwq s);
  sc_other e : e ∉ l1 -> kwes s' !! e = kwes s !! e;
  sc_off e : e ∈ l1 -> exists x, kwes s' !! e = Some x /\ kwe_kwqqueue x = None /\
    match e with KThread _ => kwe_psynchretval x = PTH_RWL_MTX_WAIT | KZone _ => True end;
  sc_asleep t : asleep s' t <-> asleep s t /\ KThread t ∉ l1;
}.
Lemma scanned_nil s : scanned [] s s.
Proof. constructor; try done; [set_solver|]. set_solver. Qed.
Lemma scanned_trans e l1 s s1 s2 :
  e ∉ l1 -> scanned [e] s s1 -> scanned l1 s1 s2 -> scanned (e :: l1) s s2.
Proof.
  intros Hn A B. constructor.
  - rewrite (sc_self _ _ _ B). apply A.
  - rewrite (sc_held _ _ _ B). apply A.
  - rewrite (sc_zone _ _ _ B). apply A.
  - rewrite (sc_lword _ _ _ B). apply A.
  - rewrite (sc_sword _ _ _ B). apply A.
  - intros f Hf. rewrite (sc_other _ _ _ B), (sc_other _ _ _ A) by set_solver. done.
  - intros f [->|Hf]%elem_of_cons; [|by apply B].
    rewrite (sc_other _ _ _ B) by done. apply A. set_solver.
  - intros t. rewrite (sc_asleep _ _ _ B), (sc_asleep _ _ _ A). set_solver.
Qed.
Lemma scanned_signalled t s :
  wf s -> KThread t ∈ kwel KSYN_QUEUE_WRITE s ->
  scanned [KThread t] s (signalled KSYN_QUEUE_WRITE t PTH_RWL_MTX_WAIT s).
Proof.
  intros W He. destruct (wf_lookup _ _ _ _ W He) as (x & Ex & _).
  pose proof (signalled_frame KSYN_QUEUE_WRITE t PTH_RWL_MTX_WAIT s) as F.
  constructor; try done.
  - frame F kw_lword. done.
  - frame F kw_sword. done.
  - intros e Hn. rewrite signalled_lookup, decide_False by set_solver. done.
  - intros e ->%list_elem_of_singleton. rewrite signalled_lookup, decide_True, Ex by done. cbn. by eexists.
  - intros u. unfold asleep, signalled. cbn. case_decide as Hs.
    + destruct (decide (u = t)) as [->|]; [rewrite lookup_delete_eq; set_solver|].
      rewrite lookup_delete_ne by done. set_solver.
    + split; [|tauto]. intros Hu. split; [done|]. intros E%list_elem_of_singleton. congruence.
Qed.
Lemma scanned_unfaked n s :
  wf s -> KZone n ∈ kwel KSYN_QUEUE_WRITE s -> scanned [KZone n] s (unfaked n s).
Proof.
  intros W He. destruct (wf_lookup _ _ _ _ W He) as (x & Ex & _).
  pose proof (removed_frame KSYN_QUEUE_WRITE (KZone n) s) as F.
  constructor; try done.
  - frame F kw_lword. done.
  - frame F kw_sword. done.
  - intros e Hn. change (kwes (unfaked n s)) with (kwes (removed KSYN_QUEUE_WRITE (KZone n) s)).
    rewrite removed_lookup, decide_False by set_solver. done.
  - intros e ->%list_elem_of_singleton. change (kwes (unfaked n s)) with (kwes (removed KSYN_QUEUE_WRITE (KZone n) s)).
    rewrite removed_lookup, decide_True, Ex by done. cbn. by eexists.
  - intros u. unfold asleep. cbn. set_solver.
Qed.

Definition threads (l : list kwe_id) : Z := Z.of_nat (length (filter (fun e => is_fake e = false) l)).
Definition fakes_of (l : list kwe_id) : list kwe_id := filter (fun e => is_fake e = true) l.

Lemma cv_higher b s e upto :
  cv_ok b s -> in_window b upto -> e ∈ kwel KSYN_QUEUE_WRITE s ->
  is_seqhigher (seq_of s e) upto = (ahead b upto <? key b s e).
Proof.
  intros I Hw He. rewrite is_seqhigher_lower. apply window_lower; [done|].
  by apply (so_window _ _ _ (cv_sorted _ _ I)).
Qed.
Lemma cv_head_key b s e l f :
  cv_ok b s -> kwel KSYN_QUEUE_WRITE s = e :: l -> f ∈ kwel KSYN_QUEUE_WRITE s -> key b s e <= key b s f.
Proof. intros I E Hf. eapply key_ge_head; [by apply cv_sorted|by rewrite E|done]. Qed.

(** One pass over the queue: everything up to [upto] leaves it, threads woken,
    fakes collected. *)
Lemma wp_cvbroad_scan b upto ub kf l s (Q : Z * list kwe_id -> lst -> Prop) :
  cv_ok b s -> in_window b upto -> kwel KSYN_QUEUE_WRITE s = l -> 0 <= ub < 2 ^ 32 ->
  (forall s' l1 l2, l = l1 ++ l2 -> (forall e, e ∈ l1 -> key b s e <= ahead b upto) ->
     (forall e, e ∈ l2 -> ahead b upto < key b s' e) -> scanned l1 s s' ->
     kwel KSYN_QUEUE_WRITE s' = l2 -> cv_ok b s' ->
     Q (u32 (ub + 256 * threads l1), kf ++ fakes_of l1) s') ->
  wp (cvbroad_scan upto ub kf l) Q s.
Proof.
  revert ub kf s Q. induction l as [|e l IH]; intros ub kf s Q I Hw El Hub HQ; cbn [cvbroad_scan].
  { apply wp_ret. specialize (HQ s [] [] eq_refl). rewrite app_nil_r in HQ.
    replace (u32 (ub + 256 * threads [])) with ub in HQ by (change (threads []) with 0; rewrite u32_id; lia).
    apply HQ; try done; [set_solver..|apply scanned_nil]. }
  assert (e ∈ kwel KSYN_QUEUE_WRITE s) as He by (rewrite El; set_solver).
  pose proof (cv_wf _ _ I) as W. pose proof (wf_nodup_q _ KSYN_QUEUE_WRITE _ W) as Nd.
  rewrite El in Nd. apply NoDup_cons in Nd as [Hnl _].
  destruct (wf_lookup _ _ _ _ W He) as (x & Ex & Ho). apply wp_bind. eapply wp_kwe_deref; [done|].
  rewrite <- (seq_of_lookup _ _ _ Ex), (cv_higher b) by done.
  destruct (Z.ltb_spec (ahead b upto) (key b s e)) as [Hgt|Hle].
  { apply wp_ret. specialize (HQ s [] (e :: l) eq_refl). rewrite app_nil_r in HQ.
    replace (u32 (ub + 256 * threads [])) with ub in HQ by (change (threads []) with 0; rewrite u32_id; lia).
    apply HQ; try done; [set_solver| |apply scanned_nil].
    intros f Hf. rewrite <- El in Hf. pose proof (cv_head_key b s e l f I El Hf). lia. }
  (* common end of both removing branches *)
  assert (forall s1 ub' kf', cv_ok b s1 -> kwel KSYN_QUEUE_WRITE s1 = l -> scanned [e] s s1 ->
    (forall f, seq_of s1 f = seq_of s f) -> 0 <= ub' < 2 ^ 32 ->
    (forall l1, u32 (ub' + 256 * threads l1) = u32 (ub + 256 * threads (e :: l1))) ->
    (forall l1, kf' ++ fakes_of l1 = kf ++ fakes_of (e :: l1)) ->
    wp (cvbroad_scan upto ub' kf' l) Q s1) as Hnext.
  { intros s1 ub' kf' I1 E1 Sc Hseq Hub' Hu Hk. apply IH; try done.
    intros s' l1 l2 Hl Hlow Hhigh Sc' E' I'. rewrite Hu, Hk.
    apply (HQ s' (e :: l1) l2); try done.
    - by rewrite Hl.
    - intros f [->|Hf]%elem_of_cons; [done|]. specialize (Hlow f Hf). unfold key in *. by rewrite Hseq in Hlow.
    - eapply scanned_trans; [rewrite Hl in Hnl; set_solver|done|done]. }
  destruct e as [t|n].
  - destruct Ho as (_ & _ & _ & Hst & _). rewrite Hst. cbn [uthread_is_cancelled negb].
    apply wp_bind. eapply wp_signal; [done|done|].
    destruct (cv_signalled b t PTH_RWL_MTX_WAIT s I He) as [I1 E1]. rewrite El, unlink_head in E1.
    apply Hnext; try done.
    + by apply scanned_signalled.
    + intros f. apply signalled_seq_of.
    + apply u32_range.
    + intros l1. unfold threads. rewrite filter_cons, decide_True by done. cbn [length].
      unfold u32. change PTHRW_INC with 256. rewrite Zplus_mod_idemp_l. f_equal. lia.
  - destruct Ho as (_ & _ & _ & Hst).
    assert (wp (ksyn_queue_remove_item KSYN_QUEUE_WRITE (KZone n) ;;;
      kw_mod (fun k => k <| kw_fakecount ::= fun c => u32 (c - 1) |>) ;;;
      cvbroad_scan upto ub (kf ++ [KZone n]) l) Q s) as Hfake.
    { apply wp_bind. eapply wp_remove; [done|done|]. apply wp_bind, wp_kw_mod.
      destruct (cv_unfaked b n s I He) as [I1 E1]. rewrite El, unlink_head in E1.
      apply Hnext; try done.
      - by apply scanned_unfaked.
      - intros f. apply (removed_seq_of KSYN_QUEUE_WRITE (KZone n) s f).
      - intros l1. unfold fakes_of. rewrite filter_cons, decide_True by done. by rewrite <- app_assoc. }
    destruct Hst as [-> | ->]; exact Hfake.
Qed.

(** ** Posting a fake *)
Definition words (k : ksyn_wait_queue) : Z * Z * Z * Z * Z :=
  (kw_lword k, kw_uword k, kw_sword k, kw_kflags k, kw_lastunlockseq k).
Definition fake_kwe (st : kwe_state_t) (seq : Z) : ksyn_waitq_element := mk_kwe None None st 0 seq 1 0.

(** A sequence word without flags. *)
Definition is_seq (w : Z) : Prop := Z.land w PTHRW_COUNT_MASK = w.
Lemma is_seq_range w : is_seq w -> 0 <= w < 2 ^ 32.
Proof. intros E. rewrite <- E, land_mask. pose proof (cnt_range w). lia. Qed.

Lemma ready_fake n st seq s :
  is_seq seq -> (st = KWE_THREAD_PREPOST \/ st = KWE_THREAD_BROADCAST) ->
  ready (KZone n) (fake_kwe st seq) (staged (KZone n) (fake_kwe st seq) s).
Proof.
  intros Hs Hst. split_and!; [by cbn; rewrite lookup_insert_eq|done|].
  split_and!; try done; by apply is_seq_range.
Qed.

Lemma wp_prepost b n st seq s (Q : unit -> lst -> Prop) :
  cv_inv b s -> off_queue (KZone n) s -> is_seq seq -> in_window b seq ->
  (st = KWE_THREAD_PREPOST \/ st = KWE_THREAD_BROADCAST) ->
  (forall f, f ∈ kwel KSYN_QUEUE_WRITE s -> key b s f <> ahead b seq) ->
  (forall s' l1 l2, cv_ok b s' -> split_at b s (ahead b seq) (kwel KSYN_QUEUE_WRITE s) l1 l2 ->
     kwel KSYN_QUEUE_WRITE s' = l1 ++ KZone n :: l2 -> wq_held s' = wq_held s ->
     self s' = self s -> waiting s' = waiting s ->
     words (kwq s') = words (kwq s) ->
     (forall f, f <> KZone n -> kwes s' !! f = kwes s !! f) ->
     (exists x, kwes s' !! KZone n = Some x /\ kwe_state x = st /\ kwe_lockseq x = seq /\ kwe_count x = 1) ->
     Q tt s') ->
  wp (ksyn_prepost (KZone n) st seq) Q s.
Proof.
  intros [(W & So & Er) Room] Hoff Hs Hw Hst Hne HQ. pose proof Hoff as (y & Ey & _).
  unfold ksyn_prepost. apply wp_bind. eapply wp_kwe_mod; [exact Ey|].
  set (s1 := staged (KZone n) (fake_kwe st seq) s).
  match goal with |- wp ?m ?P _ => change (wp m P s1) end.
  assert (wf s1) as W1 by (by apply wfd_staged).
  assert (sorted b KSYN_QUEUE_WRITE s1) as S1 by (by eapply sorted_staged).
  pose proof (ready_fake n st seq s Hs Hst) as R1.
  assert (seq_of s1 (KZone n) = seq) as E1 by (unfold seq_of, s1; cbn; by rewrite lookup_insert_eq).
  assert (forall f, f ∈ kwel KSYN_QUEUE_WRITE s -> seq_of s1 f = seq_of s f) as Hsq
    by (intros; by eapply staged_seq_of).
  apply wp_bind. eapply (wp_insert_seqfit b 0); try done; [by rewrite E1|..].
  { change (queued s1) with (queued s). unfold queued. rewrite Er. exact Room. }
  { intros f Hf Hsf. exfalso.
    assert (f ∈ kwel KSYN_QUEUE_WRITE s) as Hin by (destruct Hf; [by apply head_elem|by apply last_Some_elem_of]).
    apply (Hne f Hin). unfold key. rewrite Hsq, E1 in Hsf by done. by rewrite Hsf. }
  intros l1 l2 Sp. apply wp_kw_mod.
  set (s2 := inserted _ _ _ s1). change (s2 <| kwq ::= _ |>) with (fake_inc s2).
  pose proof (inserted_frame KSYN_QUEUE_WRITE (KZone n) (relink s1 (l1 ++ KZone n :: l2)) s1) as F.
  assert (wfd (-1) s2) as W2.
  { eapply (wf_inserted 0 KSYN_QUEUE_WRITE (KZone n)); try done; [by eapply relink_perm|].
    change (queued s1) with (queued s). unfold queued. rewrite Er. exact Room. }
  assert (sorted b KSYN_QUEUE_WRITE s2) as S2 by (eapply sorted_inserted; try done; by rewrite E1).
  apply (HQ _ l1 l2).
  - split_and!; [by apply wf_fake_inc|by apply sorted_fake_inc|].
    change (kwel KSYN_QUEUE_READ (fake_inc s2)) with (kwel KSYN_QUEUE_READ s2).
    unfold s2. by rewrite inserted_kwel, decide_False.
  - destruct Sp as (El & Hlo & Hhi). change (kwel KSYN_QUEUE_WRITE s1) with (kwel KSYN_QUEUE_WRITE s) in El.
    assert (forall f, f ∈ l1 ++ l2 -> key b s f = key b s1 f) as Hk
      by (intros f Hf; unfold key; rewrite Hsq; [done|by rewrite El]).
    split_and!; [done|..]; intros f Hf; rewrite Hk by set_solver; auto.
  - change (kwel KSYN_QUEUE_WRITE (fake_inc s2)) with (kwel KSYN_QUEUE_WRITE s2).
    unfold s2. by rewrite inserted_kwel, decide_True.
  - done.
  - done.
  - done.
  - unfold queue_frame in F. change (words (kwq s2) = words (kwq s1)). unfold words, s2. by rewrite F.
  - intros f Hf. change (kwes (fake_inc s2)) with (kwes s2). unfold s2.
    rewrite inserted_lookup, decide_False by done. unfold s1, staged. cbn. by rewrite lookup_insert_ne.
  - change (kwes (fake_inc s2)) with (kwes s2). unfold s2.
    rewrite inserted_lookup, decide_True by done. unfold s1, staged. cbn. rewrite lookup_insert_eq. cbn. by eexists.
Qed.

Lemma foldr_delete_comm (e : kwe_id) l (m : gmap kwe_id ksyn_waitq_element) :
  foldr delete (delete e m) l = delete e (foldr delete m l).
Proof. induction l as [|f l IH]; [done|]. cbn. by rewrite IH, delete_delete. Qed.
Lemma wp_zfree_all l s (Q : unit -> lst -> Prop) :
  NoDup l -> (forall e, e ∈ l -> exists n, e = KZone n /\ off_queue e s) ->
  (forall s', s' = s <| kwes := foldr delete (kwes s) l |> -> Q tt s') ->
  wp (zfree_all l) Q s.
Proof.
  revert s Q. induction l as [|e l IH]; intros s Q Nd Hl HQ; cbn [zfree_all].
  { apply wp_ret, HQ. by destruct s. }
  apply NoDup_cons in Nd as [Hn Nd]. destruct (Hl e) as (n & -> & (x & Ex & _)); [set_solver|].
  apply wp_bind. eapply wp_zfree_kwe; [done|]. apply IH; [done|..].
  - intros f Hf. destruct (Hl f) as (m & -> & (y & Ey & Hy)); [set_solver|]. exists m. split; [done|].
    exists y. split; [|done]. cbn. rewrite lookup_delete_ne; [done|]. intros E. by rewrite E in Hn.
  - intros s' ->. apply HQ. cbn. by rewrite <- foldr_delete_comm.
Qed.

(** Elements off the queues come and go. *)
Definition zalloced (s : lst) : lst :=
  s <| kwes := <[KZone (zone_next s) := kwe_zero]> (kwes s) |> <| zone_next := S (zone_next s) |>.
Definition freed (l : list kwe_id) (s : lst) : lst := s <| kwes := foldr delete (kwes s) l |>.

Lemma wf_zone_fresh d s e : wfd d s -> e ∈ queued s -> e <> KZone (zone_next s).
Proof.
  intros W He ->. destruct (wf_on _ _ W _ He) as (x & Ex & _). by rewrite (wf_zone _ _ W) in Ex.
Qed.
Lemma seq_of_frame s s' e : kwes s' !! e = kwes s !! e -> seq_of s' e = seq_of s e.
Proof. unfold seq_of. by intros ->. Qed.
Lemma sorted_frame b kqi s s' :
  kwq s' = kwq s -> (forall e, e ∈ kwel kqi s -> seq_of s' e = seq_of s e) ->
  sorted b kqi s -> sorted b kqi s'.
Proof.
  intros Ek Hs [H1 H2 H3 H4]. unfold kwel in *.
  constructor; unfold kwel; rewrite ?Ek.
  - intros e He. rewrite Hs by done. auto.
  - eapply ssorted_mono; [|exact H2]. intros. unfold key. by rewrite !Hs.
  - intros e He. rewrite Hs by (by apply head_elem). auto.
  - intros e He. rewrite Hs by (by apply last_Some_elem_of). auto.
Qed.
Lemma cv_zalloced b s : cv_ok b s -> cv_ok b (zalloced s).
Proof.
  intros (W & So & E). assert (forall e, e ∈ queued s -> kwes (zalloced s) !! e = kwes s !! e) as Hk.
  { intros e He. cbn. rewrite lookup_insert_ne; [done|]. intros <-. by eapply (wf_zone_fresh 0). }
  split_and!; [|eapply sorted_frame; [..|done]; [done|intros; by eapply seq_of_frame, Hk, kwel_queued]|done].
  destruct W as [W1 W2 W3 W4 W5 W6 W7 W8]. constructor; try done.
  - intros e He. rewrite Hk by done. by apply W6.
  - intros e x. cbn. destruct (decide (e = KZone (zone_next s))) as [->|].
    + rewrite lookup_insert_eq. intros [= <-]. done.
    + rewrite lookup_insert_ne by done. apply W7.
  - intros n Hn. cbn in *. rewrite lookup_insert_ne by (intros [=]; lia). apply W8. lia.
Qed.
Lemma freed_lookup l s e : kwes (freed l s) !! e = if decide (e ∈ l) then None else kwes s !! e.
Proof.
  cbn. induction l as [|f l IH]; cbn; [by rewrite decide_False by set_solver|].
  destruct (decide (e = f)) as [->|].
  - rewrite lookup_delete_eq, decide_True; set_solver.
  - rewrite lookup_delete_ne, IH by done. repeat case_decide; set_solver.
Qed.
Lemma cv_freed b l s : cv_ok b s -> (forall e, e ∈ l -> off_queue e s) -> cv_ok b (freed l s).
Proof.
  intros (W & So & E) Hl. assert (forall e, e ∈ queued s -> kwes (freed l s) !! e = kwes s !! e) as Hk.
  { intros e He. rewrite freed_lookup, decide_False; [done|].
    intros Hi. by eapply (off_not_queued 0 e s); [|apply Hl|]. }
  split_and!; [|eapply sorted_frame; [..|done]; [done|intros; by eapply seq_of_frame, Hk, kwel_queued]|done].
  destruct W as [W1 W2 W3 W4 W5 W6 W7 W8]. constructor; try done.
  - intros e He. rewrite Hk by done. by apply W6.
  - intros e x. rewrite freed_lookup. case_decide; [done|]. apply W7.
  - intros n Hn. rewrite freed_lookup. case_decide; [done|]. by apply W8.
Qed.

(** ** Broadcast *)

(** Threads and their elements are as before. *)
Definition same_threads (s s' : lst) : Prop :=
  forall t, kwes s' !! KThread t = kwes s !! KThread t /\ (asleep s' t <-> asleep s t).
(** The threads of [l] were woken with MTX_WAIT, the others left alone. *)
Record woken (l : list kwe_id) (s s' : lst) : Prop := {
  wk_in t : KThread t ∈ l -> ~ asleep s' t /\ exists x, kwes s' !! KThread t = Some x /\
    kwe_kwqqueue x = None /\ kwe_psynchretval x = PTH_RWL_MTX_WAIT;
  wk_out t : KThread t ∉ l -> kwes s' !! KThread t = kwes s !! KThread t /\ (asleep s' t <-> asleep s t);
}.
Lemma scanned_woken l s s' : scanned l s s' -> woken l s s'.
Proof.
  intros Sc. split.
  - intros t Ht. rewrite (sc_asleep _ _ _ Sc). split; [tauto|]. exact (sc_off _ _ _ Sc _ Ht).
  - intros t Ht. rewrite (sc_asleep _ _ _ Sc), (sc_other _ _ _ Sc) by done. tauto.
Qed.
Lemma woken_same l s s1 s2 : woken l s s1 -> same_threads s1 s2 -> woken l s s2.
Proof.
  intros [Hi Ho] H. split; intros t Ht; destruct (H t) as [-> ->]; auto.
Qed.
Lemma same_threads_trans s1 s2 s3 : same_threads s1 s2 -> same_threads s2 s3 -> same_threads s1 s3.
Proof. intros A B t. destruct (A t) as [<- <-]. apply B. Qed.

(** Everything left in the queue is above [upto], except its broadcast marker. *)
Definition swept (b upto : Z) (s : lst) : Prop :=
  forall e, e ∈ kwel KSYN_QUEUE_WRITE s -> ahead b upto < key b s e \/
    (exists x, is_fake e = true /\ kwes s !! e = Some x /\ kwe_state x = KWE_THREAD_BROADCAST /\
       kwe_lockseq x = upto).
Definition above (b upto : Z) (s : lst) : Prop :=
  forall e, e ∈ kwel KSYN_QUEUE_WRITE s -> ahead b upto < key b s e.

Lemma above_head b upto s l1 l2 :
  above b upto s -> split_at b s (ahead b upto) (kwel KSYN_QUEUE_WRITE s) l1 l2 -> l1 = [] /\ l2 = kwel KSYN_QUEUE_WRITE s.
Proof.
  intros Ha (E & Hlo & _). destruct l1 as [|e l1]; [done|]. exfalso.
  specialize (Hlo e ltac:(set_solver)). specialize (Ha e ltac:(rewrite E; set_solver)). lia.
Qed.

(** The elements of [l] are zalloced from the zone, distinct and off the queues. *)
Definition spare (l : list kwe_id) (s : lst) : Prop :=
  NoDup l /\ forall e, e ∈ l -> is_fake e = true /\ off_queue e s.

Lemma wp_free_spare b l s (Q : unit -> lst -> Prop) :
  cv_ok b s -> spare l s -> (cv_ok b (freed l s) -> Q tt (freed l s)) -> wp (zfree_all l) Q s.
Proof.
  intros I [Nd Hl] HQ. apply wp_zfree_all; [done|..].
  - intros e He. destruct (Hl e He) as [Hf Ho]. destruct e as [|n]; [done|]. by exists n.
  - intros s' ->. apply HQ, cv_freed; [done|]. intros e He. by apply Hl.
Qed.
Lemma freed_threads l s : (forall e, e ∈ l -> is_fake e = true) -> same_threads s (freed l s).
Proof.
  intros Hl t. rewrite freed_lookup. case_decide as Ht; [by apply Hl in Ht|]. done.
Qed.

(** The marker is posted and the other collected fakes are freed. *)
Lemma wp_post b upto ub e l s (Q : Z -> lst -> Prop) :
  cv_inv b s -> is_seq upto -> in_window b upto -> above b upto s -> spare (e :: l) s ->
  (forall s', cv_ok b s' -> wq_held s' = wq_held s -> self s' = self s -> swept b upto s' ->
     kwel KSYN_QUEUE_WRITE s' = e :: kwel KSYN_QUEUE_WRITE s -> same_threads s s' -> Q ub s') ->
  wp (ksyn_prepost e KWE_THREAD_BROADCAST upto ;;; zfree_all l ;;; ret ub) Q s.
Proof.
  intros I Hs Hw Ha [Nd Hl] HQ. apply NoDup_cons in Nd as [Hn Nd].
  destruct (Hl e) as [Hf Ho]; [set_solver|]. destruct e as [|n]; [done|]. apply wp_bind.
  eapply (wp_prepost b); try done; [by right|..].
  { intros f Hin E. specialize (Ha f Hin). lia. }
  intros s1 l1 l2 I1 Sp E1 Hh Hself Hwait _ Hk (x & Ex & Hst & Hlq & _).
  destruct (above_head _ _ _ _ _ Ha Sp) as [-> ->]. cbn [app] in E1.
  apply wp_bind. eapply (wp_free_spare b); [done|..].
  { split; [done|]. intros f Hin. destruct (Hl f) as [Hff (y & Ey & Hy)]; [set_solver|]. split; [done|].
    exists y. split; [|done]. rewrite Hk; [done|]. intros ->. done. }
  intros I2. apply wp_ret, HQ; try done.
  - intros f Hf'. change (kwel KSYN_QUEUE_WRITE (freed l s1)) with (kwel KSYN_QUEUE_WRITE s1) in Hf'.
    assert (kwes (freed l s1) !! f = kwes s1 !! f) as Ef.
    { rewrite freed_lookup, decide_False; [done|]. intros Hin. rewrite E1 in Hf'.
      apply elem_of_cons in Hf' as [->|Hf']; [done|].
      eapply (off_not_queued 0 f s); [apply I|by apply Hl; set_solver|by eapply kwel_queued]. }
    rewrite E1 in Hf'. apply elem_of_cons in Hf' as [->|Hf'].
    + right. exists x. by rewrite Ef.
    + left. unfold key. rewrite (seq_of_frame s1 (freed l s1) f Ef), (seq_of_frame s s1 f); [by apply Ha|].
      apply Hk. intros ->. eapply (off_not_queued 0); [apply I|apply (Hl (KZone n)); set_solver|by eapply kwel_queued].
  - eapply same_threads_trans; [|by apply freed_threads; intros f Hin; apply Hl; set_solver].
    intros t. unfold asleep. by rewrite Hk, Hwait, Hself.
Qed.

Lemma fakes_of_elem l e : e ∈ fakes_of l <-> e ∈ l /\ is_fake e = true.
Proof. unfold fakes_of. rewrite list_elem_of_filter. tauto. Qed.
Lemma scanned_spare kf l1 l2 s s' :
  wf s -> spare kf s -> kwel KSYN_QUEUE_WRITE s = l1 ++ l2 -> scanned l1 s s' ->
  spare (kf ++ fakes_of l1) s'.
Proof.
  intros W [Nd Hk] El Sc. pose proof (wf_nodup_q _ KSYN_QUEUE_WRITE _ W) as Nq. rewrite El in Nq.
  apply NoDup_app in Nq as (Nq & _ & _).
  assert (forall e, e ∈ kf -> e ∉ l1) as Hd.
  { intros e He Hl. eapply (off_not_queued 0 e s); [done|by apply Hk|].
    apply (kwel_queued KSYN_QUEUE_WRITE). rewrite El. set_solver. }
  split.
  - apply NoDup_app. split_and!; [done| |by apply NoDup_filter].
    intros e He Hf%fakes_of_elem. by eapply Hd, Hf.
  - intros e [He|He]%elem_of_app.
    + destruct (Hk e He) as [Hf (x & Ex & Hx)]. split; [done|]. exists x. split; [|done].
      by rewrite (sc_other _ _ _ Sc) by (by apply Hd).
    + apply fakes_of_elem in He as [He Hf]. split; [done|].
      destruct (sc_off _ _ _ Sc e He) as (x & Ex & Hx & _). by exists x.
Qed.

(** What a broadcast that nobody disturbs does, exactly. *)
Definition broadcasted (b upto : Z) (s : lst) (r : Z) (s' : lst) : Prop :=
  exists l1 l2 m, split_at b s (ahead b upto) (kwel KSYN_QUEUE_WRITE s) l1 l2 /\
    r = u32 (256 * threads l1) /\ woken l1 s s' /\ kwel KSYN_QUEUE_WRITE s' = m ++ l2 /\
    (if diff_genseq (kw_lword (kwq s)) (kw_sword (kwq s)) =? 0 then m = []
     else exists n, m = [KZone n]).

(** From the end of a scan on, with a fake at hand. *)
Lemma wp_cvbroad_end b upto ub kf s (Q : Z -> lst -> Prop) :
  cv_inv b s -> is_seq upto -> in_window b upto -> above b upto s -> spare kf s ->
  (forall m s', cv_ok b s' -> wq_held s' = wq_held s -> self s' = self s -> swept b upto s' ->
     kwel KSYN_QUEUE_WRITE s' = m ++ kwel KSYN_QUEUE_WRITE s -> same_threads s s' ->
     (if diff_genseq (kw_lword (kwq s)) (kw_sword (kwq s)) =? 0 then m = [] else exists n, m = [KZone n]) ->
     Q ub s') ->
  forall (no_fake : MQ Z),
  (kf = [] -> diff_genseq (kw_lword (kwq s)) (kw_sword (kwq s)) <> 0 -> wp no_fake Q s) ->
  wp (k <- gets kwq ;;
      if diff_genseq (kw_lword k) (kw_sword k) =? 0 then zfree_all kf ;;; ret ub
      else match kf with
           | newkwe :: kfreeq =>
               ksyn_prepost newkwe KWE_THREAD_BROADCAST upto ;;; zfree_all kfreeq ;;; ret ub
           | [] => no_fake
           end) Q s.
Proof.
  intros I Hs Hw Ha Sp HQ no_fake Hno. wp_go.
  destruct (Z.eqb_spec (diff_genseq (kw_lword (kwq s)) (kw_sword (kwq s))) 0) as [E|E].
  - apply wp_bind. eapply (wp_free_spare b); [apply I|done|]. intros I'. apply wp_ret.
    apply (HQ []); try done.
    + intros e He. left. change (kwel KSYN_QUEUE_WRITE (freed kf s)) with (kwel KSYN_QUEUE_WRITE s) in He.
      unfold key. rewrite (seq_of_frame s (freed kf s) e); [by apply Ha|].
      rewrite freed_lookup, decide_False; [done|]. intros Hin.
      eapply (off_not_queued 0 e s); [apply I|by apply Sp|by eapply kwel_queued].
    + apply freed_threads. intros e He. by apply Sp.
  - destruct kf as [|e kf]; [by apply Hno|]. eapply wp_post; try done.
    intros s' I' Hh Hself Hsw E' St. eapply (HQ [e]); try done.
    destruct (proj2 Sp e ltac:(set_solver)) as [Hf _]. destruct e as [|n]; [done|]. by exists n.
Qed.

Lemma cv_inv_scanned b l1 l2 s s' :
  cv_inv b s -> cv_ok b s' -> kwel KSYN_QUEUE_WRITE s = l1 ++ l2 -> kwel KSYN_QUEUE_WRITE s' = l2 -> cv_inv b s'.
Proof. intros [_ R] I' E E'. split; [done|]. rewrite E' , E, length_app in *. lia. Qed.

(** The second round of a broadcast, after an element was allocated with the lock
    released: it sweeps whatever came meanwhile, and if nothing did it posts the
    element in front of the same queue. *)
Lemma wp_cvbroad_retry b interfere upto ub s (Q : Z -> lst -> Prop) :
  Rely (cv_inv b) interfere -> cv_inv b s -> wq_held s = true -> is_seq upto -> in_window b upto ->
  0 <= ub < 2 ^ 32 -> above b upto s ->
  (forall r s', cv_ok b s' -> wq_held s' = true -> self s' = self s -> swept b upto s' ->
     (interfere = quiet -> r = ub /\ same_threads s s' /\ exists m, kwel KSYN_QUEUE_WRITE s' = m ++ kwel KSYN_QUEUE_WRITE s /\
        (if diff_genseq (kw_lword (kwq s)) (kw_sword (kwq s)) =? 0 then m = [] else exists n, m = [KZone n])) -> Q r s') ->
  wp (ksyn_wqunlock ;;;
      newkwe <- zalloc_kwe ;;
      ksyn_wqlock interfere [newkwe] ;;;
      r <- scan_writers upto ub [newkwe] ;;
      let '(updatebits, kfreeq) := r in
      k <- gets kwq ;;
      if diff_genseq (kw_lword k) (kw_sword k) =? 0 then zfree_all kfreeq ;;; ret updatebits
      else match kfreeq with
           | newkwe :: kfreeq => ksyn_prepost newkwe KWE_THREAD_BROADCAST upto ;;; zfree_all kfreeq ;;; ret updatebits
           | [] => panic "kfreeq lost its element"
           end) Q s.
Proof.
  intros HR I Hh Hs Hw Hub Hab HQ. unfold scan_writers. apply wp_bind, wp_unlock; [done|].
  apply wp_bind, wp_zalloc_kwe. set (s2 := s <| wq_held := false |>).
  change (s2 <| kwes := _ |> <| zone_next := _ |>) with (zalloced s2).
  assert (cv_inv b (zalloced s2)) as J2.
  { split; [apply cv_zalloced; eapply cv_ok_same; [apply same_held|apply I]|apply I]. }
  set (e := KZone (zone_next s2)). assert (off_queue e (zalloced s2)) as He.
  { exists kwe_zero. split; [|done]. cbn. apply lookup_insert_eq. }
  apply wp_bind, wp_lock; [done|]. set (s3 := (interfere [e] (zalloced s2)) <| wq_held := true |>).
  assert (cv_inv b s3) as J3.
  { eapply cv_same; [apply same_held|]. by apply (rely_inv [e] (zalloced s2)). }
  assert (spare [e] s3) as Sp3.
  { split; [apply NoDup_singleton|]. intros f ->%list_elem_of_singleton. split; [done|].
    destruct He as (x & Ex & Hx). exists x. split; [|done]. apply (rely_mine [e]); set_solver. }
  apply wp_bind. wp_go. eapply (wp_cvbroad_scan b _ _ _ (kwel KSYN_QUEUE_WRITE s3)); [apply J3|done|done|done|].
  intros s4 k1 k2 El4 Hlo4 Hhi4 Sc4 E4 I4.
  pose proof (cv_inv_scanned _ _ _ _ _ J3 I4 El4 E4) as J4.
  pose proof (scanned_spare [e] _ _ _ _ (cv_wf _ _ (proj1 J3)) Sp3 El4 Sc4) as Sp4.
  eapply (wp_cvbroad_end b upto _ ([e] ++ fakes_of k1) s4); try done.
  { intros f Hf. rewrite E4 in Hf. auto. }
  intros m s' I' Hh' Hself Hsw E' St Hm. apply HQ; try done.
  - by rewrite Hh', (sc_held _ _ _ Sc4).
  - rewrite Hself, (sc_self _ _ _ Sc4). cbn. by rewrite (rely_self (Rely := HR)).
  - intros ->. change (kwel KSYN_QUEUE_WRITE s3) with (kwel KSYN_QUEUE_WRITE s) in El4.
    assert (k1 = []) as ->.
    { destruct k1 as [|f k1]; [done|]. exfalso. specialize (Hlo4 f ltac:(set_solver)).
      assert (f ∈ kwel KSYN_QUEUE_WRITE s) as Hf by (rewrite El4; set_solver). specialize (Hab f Hf).
      unfold key in *. rewrite (seq_of_frame s s3 f) in Hlo4; [lia|]. cbn. rewrite lookup_insert_ne; [done|].
      intros <-. apply (wf_zone_fresh 0 s e (cv_wf _ _ (proj1 I))); [|done]. by apply (kwel_queued KSYN_QUEUE_WRITE). }
    cbn [app] in *. split_and!.
    + change (threads []) with 0. rewrite Z.mul_0_r, Z.add_0_r. by apply u32_id.
    + eapply same_threads_trans; [|exact St].
      intros t. rewrite (sc_asleep _ _ _ Sc4), (sc_other _ _ _ Sc4) by set_solver. split; [cbn; by rewrite lookup_insert_ne|].
      change (asleep s3 t) with (asleep s t). set_solver.
    + exists m. rewrite E', E4, <- El4. split; [done|].
      by rewrite (sc_lword _ _ _ Sc4), (sc_sword _ _ _ Sc4) in Hm.
Qed.

Lemma wp_handle_cvbroad b interfere upto s (Q : Z -> lst -> Prop) :
  Rely (cv_inv b) interfere -> cv_inv b s -> wq_held s = true -> is_seq upto -> in_window b upto ->
  (forall r s', cv_ok b s' -> wq_held s' = true -> self s' = self s -> swept b upto s' ->
     (interfere = quiet -> broadcasted b upto s r s') -> Q r s') ->
  wp (ksyn_handle_cvbroad interfere upto) Q s.
Proof.
  intros HR I Hh Hs Hw HQ. unfold ksyn_handle_cvbroad, scan_writers. apply wp_bind. wp_go.
  eapply (wp_cvbroad_scan b _ _ _ (kwel KSYN_QUEUE_WRITE s)); [apply I|done|done|lia|]. intros s1 l1 l2 El Hlo Hhi Sc E1 I1.
  pose proof (cv_inv_scanned _ _ _ _ _ I I1 El E1) as J1. cbn [app].
  pose proof (scanned_spare [] _ _ _ _ (cv_wf _ _ (proj1 I)) ltac:(split; [constructor|set_solver]) El Sc) as Sp.
  assert (split_at b s (ahead b upto) (kwel KSYN_QUEUE_WRITE s) l1 l2) as Spl.
  { split_and!; [done|done|]. intros e He. specialize (Hhi e He). unfold key in *.
    rewrite (seq_of_frame s s1 e) in Hhi; [done|]. apply (sc_other _ _ _ Sc). intros Hin.
    pose proof (wf_nodup_q _ KSYN_QUEUE_WRITE _ (cv_wf _ _ (proj1 I))) as Nq. rewrite El in Nq.
    apply NoDup_app in Nq as (_ & Nq & _). by apply (Nq e). }
  eapply (wp_cvbroad_end b upto _ (fakes_of l1) s1); try done.
  { intros e He. rewrite E1 in He. auto. }
  { intros m s' I' Hh' Hself Hsw E' St Hm. apply HQ; try done.
    - by rewrite Hh', (sc_held _ _ _ Sc).
    - by rewrite Hself, (sc_self _ _ _ Sc).
    - intros _. exists l1, l2, m. split_and!; [done|done| |by rewrite E', E1|].
      + by eapply woken_same, St; apply scanned_woken.
      + by rewrite (sc_lword _ _ _ Sc), (sc_sword _ _ _ Sc) in Hm. }
  intros Hnf _. eapply (wp_cvbroad_retry b); try done; [by rewrite (sc_held _ _ _ Sc)|apply u32_range|intros e He; rewrite E1 in He; auto|].
  intros r s' I' Hh' Hself Hsw Hq. apply HQ; try done; [by rewrite Hself, (sc_self _ _ _ Sc)|].
  intros Hi. destruct (Hq Hi) as (-> & St & m & E' & Hm). exists l1, l2, m. split_and!; [done|done| |by rewrite E', E1|].
  - by eapply woken_same, St; apply scanned_woken.
  - by rewrite (sc_lword _ _ _ Sc), (sc_sword _ _ _ Sc) in Hm.
Qed.

(** ** Finding the thread to signal *)

Definition is_thread (e : kwe_id) : bool := negb (is_fake e).
(** What [ksyn_queue_find_signalseq] has passed over. *)
Definition passed (b upto sig : Z) (s : lst) (l0 : list kwe_id) : Prop :=
  forall e, e ∈ l0 -> if is_thread e then is_seqhigher_eq (seq_of s e) sig = false /\ key b s e <= ahead b upto
                   else key b s e < ahead b upto.
(** What it stops at. *)
Definition hit (b upto sig : Z) (s : lst) (e : kwe_id) : Prop :=
  match e with
  | KThread _ => is_seqhigher_eq (seq_of s e) sig = true /\ key b s e <= ahead b upto
  | KZone _ => exists x, kwes s !! e = Some x /\
      (kwe_state x = KWE_THREAD_PREPOST /\ key b s e = ahead b upto \/
       kwe_state x = KWE_THREAD_BROADCAST /\ ahead b upto <= key b s e)
  end.
Definition signal_pick (b upto sig : Z) (s : lst) (r : option kwe_id) : Prop :=
  exists l0 l2, kwel KSYN_QUEUE_WRITE s = l0 ++ l2 /\ passed b upto sig s l0 /\
    ((r = List.find is_thread l0 /\ forall e, e ∈ l2 -> ahead b upto < key b s e) \/
     (exists e l2', l2 = e :: l2' /\ r = Some e /\ hit b upto sig s e)).

Lemma cv_lower b s e upto :
  cv_ok b s -> in_window b upto -> e ∈ kwel KSYN_QUEUE_WRITE s ->
  is_seqlower (seq_of s e) upto = (key b s e <? ahead b upto).
Proof. intros I Hw He. apply window_lower; [|done]. by apply (so_window _ _ _ (cv_sorted _ _ I)). Qed.
Lemma cv_suffix_above b s l0 e l :
  cv_ok b s -> kwel KSYN_QUEUE_WRITE s = l0 ++ e :: l ->
  forall f c, c < key b s e -> f ∈ e :: l -> c < key b s f.
Proof.
  intros I E f c Hc Hf. pose proof (so_sorted _ _ _ (cv_sorted _ _ I)) as So. rewrite E in So.
  apply StronglySorted_app in So as (_ & _ & So). apply StronglySorted_inv in So as [_ So].
  rewrite Forall_forall in So. apply elem_of_cons in Hf as [->|Hf]; [done|]. specialize (So f Hf). cbn in So. lia.
Qed.

Lemma find_app_last {A} (p : A -> bool) l e :
  List.find p (l ++ [e]) = match List.find p l with Some x => Some x | None => if p e then Some e else None end.
Proof. induction l as [|x l IH]; cbn; [done|]. by destruct (p x). Qed.
Lemma passed_snoc b upto sig s l0 e :
  passed b upto sig s l0 ->
  (if is_thread e then is_seqhigher_eq (seq_of s e) sig = false /\ key b s e <= ahead b upto
   else key b s e < ahead b upto) -> passed b upto sig s (l0 ++ [e]).
Proof. intros Hp He f [Hf|Hf%list_elem_of_singleton]%elem_of_app; [by apply Hp|by subst]. Qed.

Lemma wp_find_signalseq_in b upto sig s l0 l (Q : option kwe_id -> lst -> Prop) :
  cv_ok b s -> in_window b upto -> kwel KSYN_QUEUE_WRITE s = l0 ++ l -> passed b upto sig s l0 ->
  (forall r, signal_pick b upto sig s r -> Q r s) ->
  wp (find_signalseq_in upto sig (List.find is_thread l0) l) Q s.
Proof.
  intros I Hw. revert l0. induction l as [|e l IH]; intros l0 El Hp HQ; cbn [find_signalseq_in].
  { apply wp_ret, HQ. exists l0, []. split_and!; [done|done|]. left. split; [done|set_solver]. }
  assert (e ∈ kwel KSYN_QUEUE_WRITE s) as He by (rewrite El; set_solver).
  destruct (wf_lookup _ _ _ _ (cv_wf _ _ I) He) as (x & Ex & Ho).
  apply wp_bind. eapply wp_kwe_deref; [done|]. rewrite <- (seq_of_lookup _ _ _ Ex).
  rewrite (cv_higher b), (cv_lower b) by done.
  assert (forall r, r = List.find is_thread l0 -> ahead b upto < key b s e -> signal_pick b upto sig s r) as Hstop.
  { intros r -> Hgt. exists l0, (e :: l). split_and!; [done|done|]. left. split; [done|].
    intros f Hf. by eapply cv_suffix_above. }
  assert (hit b upto sig s e -> signal_pick b upto sig s (Some e)) as Hhit.
  { intros H. exists l0, (e :: l). split_and!; [done|done|]. right. by exists e, l. }
  assert (forall r, r = List.find is_thread (l0 ++ [e]) ->
    (if is_thread e then is_seqhigher_eq (seq_of s e) sig = false /\ key b s e <= ahead b upto
     else key b s e < ahead b upto) -> wp (find_signalseq_in upto sig r l) Q s) as Hnext.
  { intros r -> He'. apply IH; [by rewrite <- app_assoc|by apply passed_snoc|done]. }
  destruct e as [t|n]; cbn [on_queue] in Ho.
  - destruct Ho as (Hq & _ & _ & Hst & _). rewrite Hst.
    destruct (Z.ltb_spec (ahead b upto) (key b s (KThread t))); [by apply wp_ret, HQ, Hstop|].
    wp_go. rewrite bool_decide_eq_true_2 by done. cbn [uthread_is_cancelled negb andb].
    destruct (is_seqhigher_eq _ sig) eqn:Eh; [by apply wp_ret, HQ, Hhit|].
    apply Hnext; [|done]. rewrite find_app_last. cbn. by destruct (List.find _ l0).
  - destruct Ho as (Hq & _ & _ & [Hst|Hst]); rewrite Hst.
    + destruct (Z.ltb_spec (ahead b upto) (key b s (KZone n))); [by apply wp_ret, HQ, Hstop|].
      destruct (Z.ltb_spec (key b s (KZone n)) (ahead b upto)).
      * apply Hnext; [|done]. rewrite find_app_last. cbn. by destruct (List.find _ l0).
      * apply wp_ret, HQ, Hhit. exists x. split; [done|]. left. split; [done|lia].
    + destruct (Z.ltb_spec (key b s (KZone n)) (ahead b upto)).
      * apply Hnext; [|done]. rewrite find_app_last. cbn. by destruct (List.find _ l0).
      * apply wp_ret, HQ, Hhit. exists x. split; [done|]. by right.
Qed.
Lemma wp_find_signalseq b upto sig s (Q : option kwe_id -> lst -> Prop) :
  cv_ok b s -> in_window b upto -> (forall r, signal_pick b upto sig s r -> Q r s) ->
  wp (ksyn_queue_find_signalseq KSYN_QUEUE_WRITE upto sig) Q s.
Proof.
  intros I Hw HQ. unfold ksyn_queue_find_signalseq. wp_go.
  apply (wp_find_signalseq_in b upto sig s [] (kwel KSYN_QUEUE_WRITE s)); [done|done|done| |done].
  intros e He. set_solver.
Qed.
Lemma pick_some b upto sig s e : signal_pick b upto sig s (Some e) -> e ∈ kwel KSYN_QUEUE_WRITE s.
Proof.
  intros (l0 & l2 & E & _ & [[Hf _]|(f & l2' & -> & [= ->] & _)]); rewrite E; [|set_solver].
  symmetry in Hf. apply List.find_some in Hf as [Hf _]. apply list_elem_of_In in Hf. set_solver.
Qed.
(** When nothing is found, no element has the sequence to be preposted. *)
Lemma pick_none b upto sig s :
  signal_pick b upto sig s None -> forall e, e ∈ kwel KSYN_QUEUE_WRITE s -> key b s e <> ahead b upto.
Proof.
  intros (l0 & l2 & E & Hp & [[Hf Hhi]|(? & ? & _ & [=] & _)]) e He Hk.
  rewrite E in He. apply elem_of_app in He as [He|He]; [|specialize (Hhi e He); lia].
  specialize (Hp e He). symmetry in Hf. pose proof (List.find_none _ _ Hf e (proj1 (list_elem_of_In _ _) He)) as Ht.
  rewrite Ht in Hp. lia.
Qed.

(** ** Freeing items *)

(** The head of the queue is gone: a thread was woken, a fake freed. *)
Record drained (l1 : list kwe_id) (s s' : lst) : Prop := {
  dr_self : self s' = self s;
  dr_held : wq_held s' = wq_held s;
  dr_lword : kw_lword (kwq s') = kw_lword (kwq s);
  dr_sword : kw_sword (kwq s') = kw_sword (kwq s);
  dr_other e : e ∉ l1 -> kwes s' !! e = kwes s !! e;
  dr_off t : KThread t ∈ l1 -> ~ asleep s' t /\ off_queue (KThread t) s';
  dr_freed n : KZone n ∈ l1 -> kwes s' !! KZone n = None;
  dr_asleep t : KThread t ∉ l1 -> asleep s' t <-> asleep s t;
}.
Lemma drained_nil s : drained [] s s.
Proof. constructor; set_solver. Qed.
Lemma drained_cons e l1 s s1 s2 :
  e ∉ l1 -> drained [e] s s1 -> drained l1 s1 s2 -> drained (e :: l1) s s2.
Proof.
  intros Hn A B. constructor.
  - rewrite (dr_self _ _ _ B). apply A.
  - rewrite (dr_held _ _ _ B). apply A.
  - rewrite (dr_lword _ _ _ B). apply A.
  - rewrite (dr_sword _ _ _ B). apply A.
  - intros f Hf. rewrite (dr_other _ _ _ B), (dr_other _ _ _ A) by set_solver. done.
  - intros t [<-|Ht]%elem_of_cons; [|by apply B].
    destruct (dr_off _ _ _ A t) as [H1 (x & Ex & Hx)]; [set_solver|].
    rewrite (dr_asleep _ _ _ B) by done. split; [done|]. exists x. by rewrite (dr_other _ _ _ B).
  - intros n [<-|Hz]%elem_of_cons; [|by apply B].
    rewrite (dr_other _ _ _ B) by done. apply A. set_solver.
  - intros t Ht. rewrite (dr_asleep _ _ _ B), (dr_asleep _ _ _ A) by set_solver. done.
Qed.
Lemma scanned_freed e s s' : scanned [e] s s' -> is_fake e = true -> drained [e] s (freed [e] s').
Proof.
  intros Sc Hf. constructor; try apply Sc.
  - intros f Hn. rewrite freed_lookup, decide_False by done. by apply Sc.
  - intros t Ht%list_elem_of_singleton. by subst e.
  - intros n Hz%list_elem_of_singleton. rewrite freed_lookup, decide_True; set_solver.
  - intros t Ht. change (asleep (freed [e] s') t) with (asleep s' t). rewrite (sc_asleep _ _ _ Sc). tauto.
Qed.
Lemma drained_signalled t v s :
  wf s -> KThread t ∈ kwel KSYN_QUEUE_WRITE s -> drained [KThread t] s (signalled KSYN_QUEUE_WRITE t v s).
Proof.
  intros W He. destruct (wf_lookup _ _ _ _ W He) as (x & Ex & _).
  pose proof (signalled_frame KSYN_QUEUE_WRITE t v s) as F.
  assert (forall u, asleep (signalled KSYN_QUEUE_WRITE t v s) u <-> asleep s u /\ u <> t) as Ha.
  { intros u. unfold asleep, signalled. cbn. case_decide as Hs.
    - destruct (decide (u = t)) as [->|]; [rewrite lookup_delete_eq; naive_solver|].
      rewrite lookup_delete_ne by done. tauto.
    - split; [|tauto]. intros Hu. split; [done|]. congruence. }
  constructor; try done.
  - frame F kw_lword. done.
  - frame F kw_sword. done.
  - intros e Hn. rewrite signalled_lookup, decide_False by set_solver. done.
  - intros u Hu%list_elem_of_singleton. simplify_eq. split; [rewrite Ha; naive_solver|].
    unfold off_queue. rewrite signalled_lookup, decide_True, Ex by done. cbn. by eexists.
  - intros n Hz%list_elem_of_singleton. done.
  - intros u Hu. rewrite Ha. assert (u <> t) by (intros ->; set_solver). tauto.
Qed.

Definition drained_to (b tseq : Z) (all : bool) (s s' : lst) : Prop :=
  exists l1 l2, kwel KSYN_QUEUE_WRITE s = l1 ++ l2 /\ kwel KSYN_QUEUE_WRITE s' = l2 /\
    drained l1 s s' /\
    if all then l2 = []
    else in_window b tseq -> (forall e, e ∈ l1 -> key b s e <= ahead b tseq) /\
                             (forall e, e ∈ l2 -> ahead b tseq < key b s' e).

Lemma freed_counted e s :
  s <| kwes := delete e (kwes s) |> <| kwq ::= fun k => k <| kw_fakecount ::= fun c => u32 (c - 1) |> |> =
  freed [e] (fake_dec s).
Proof. reflexivity. Qed.
Lemma wp_free_items_loop b tseq all fuel s (Q : unit -> lst -> Prop) :
  cv_ok b s -> (length (kwel KSYN_QUEUE_WRITE s) < fuel)%nat ->
  (forall s', cv_ok b s' -> drained_to b tseq all s s' -> Q tt s') ->
  wp (free_items_loop KSYN_QUEUE_WRITE tseq all fuel) Q s.
Proof.
  intros I. revert s I Q. induction fuel as [|fuel IH]; intros s I Q Hfu HQ; [lia|].
  cbn [free_items_loop]. apply wp_bind, wp_gets. fold (kwel KSYN_QUEUE_WRITE s).
  destruct (kwel KSYN_QUEUE_WRITE s) as [|e l] eqn:El.
  { apply wp_ret, HQ; [done|]. exists [], []. rewrite El. split_and!; [done|done|apply drained_nil|].
    destruct all; [done|]. set_solver. }
  assert (e ∈ kwel KSYN_QUEUE_WRITE s) as He by (rewrite El; set_solver).
  pose proof (cv_wf _ _ I) as W. pose proof (wf_nodup_q _ KSYN_QUEUE_WRITE _ W) as Nd.
  rewrite El in Nd. apply NoDup_cons in Nd as [Hnl _].
  destruct (wf_lookup _ _ _ _ W He) as (x & Ex & Ho). apply wp_bind. eapply wp_kwe_deref; [done|].
  rewrite <- (seq_of_lookup _ _ _ Ex).
  destruct (negb all && is_seqhigher (seq_of s e) tseq) eqn:Estop.
  { apply andb_true_iff in Estop as [->%negb_true_iff Hgt]. apply wp_ret, HQ; [done|].
    exists [], (e :: l). rewrite El. split_and!; [done|done|apply drained_nil|]. intros Hw. split; [set_solver|].
    rewrite (cv_higher b) in Hgt by done. apply Z.ltb_lt in Hgt.
    intros f Hf. eapply (cv_suffix_above b s []); done. }
  assert (in_window b tseq -> all = false -> key b s e <= ahead b tseq) as Hle.
  { intros Hw ->. cbn in Estop. rewrite (cv_higher b) in Estop by done. by apply Z.ltb_ge in Estop. }
  assert (forall s1, cv_ok b s1 -> kwel KSYN_QUEUE_WRITE s1 = l -> drained [e] s s1 ->
    wp (free_items_loop KSYN_QUEUE_WRITE tseq all fuel) Q s1) as Hnext.
  { intros s1 I1 E1 D1. apply IH; [done|cbn in Hfu; rewrite E1; lia|].
    intros s' I' (l1 & l2 & E & E' & D' & Hall). apply HQ; [done|]. rewrite E1 in E.
    exists (e :: l1), l2. split_and!; [by rewrite El, E|done|apply (drained_cons e l1 s s1 s'); [|done|done]; rewrite E in Hnl; clear -Hnl; set_solver|].
    destruct all; [done|]. intros Hw. destruct (Hall Hw) as [Ha1 Ha2]. split; [|done].
    intros f [->|Hf]%elem_of_cons; [auto|]. specialize (Ha1 f Hf). unfold key in *.
    rewrite (seq_of_frame s s1) in Ha1; [done|]. apply D1. intros ->%list_elem_of_singleton.
    apply Hnl. rewrite E. apply elem_of_app. by left. }
  apply wp_bind. destruct e as [t|n].
  - destruct Ho as (_ & _ & _ & Hst & _). rewrite bool_decide_eq_true_2 by done.
    apply wp_bind. eapply wp_signal; [done|done|]. apply wp_ret.
    edestruct (cv_signalled b t) as [I1 E1]; [done|done|].
    apply Hnext; [exact I1|rewrite E1, El; apply unlink_head|by apply drained_signalled].
  - destruct Ho as (_ & _ & _ & Hst). rewrite bool_decide_eq_false_2 by (destruct Hst; congruence).
    apply wp_bind. eapply wp_remove; [done|done|].
    apply wp_bind. eapply wp_zfree_kwe; [by rewrite removed_lookup, decide_True, Ex|]. apply wp_kw_mod.
    destruct (cv_unfaked b n s I He) as [I1 E1]. pose proof (scanned_unfaked n s W He) as Sc.
    rewrite freed_counted. fold (unfaked n s).
    apply Hnext; [|by rewrite El, unlink_head in E1|by apply scanned_freed].
    apply cv_freed; [done|]. intros f Hf. destruct (sc_off _ _ _ Sc f Hf) as (y & Ey & Hy & _). by exists y.
Qed.
Lemma wp_free_items b upto all s (Q : unit -> lst -> Prop) :
  cv_ok b s -> (forall s', cv_ok b s' -> drained_to b upto all s s' -> Q tt s') ->
  wp (ksyn_queue_free_items KSYN_QUEUE_WRITE upto all) Q s.
Proof.
  intros I HQ. unfold ksyn_queue_free_items. wp_go.
  assert (forall x, ahead b (Z.land x PTHRW_COUNT_MASK) = ahead b x) as Ha by (intros; unfold ahead; by rewrite cnt_mask).
  apply (wp_free_items_loop b); [done|cbn; unfold kwel; cbn; lia|].
  intros s' I' (l1 & l2 & ? & ? & ? & Hall). apply HQ; [done|]. exists l1, l2. split_and!; [done..|].
  unfold in_window in *. rewrite Ha in Hall. done.
Qed.
End KsynCv.
