(* ===== verification/KsynCvOps.v ===== *)
(** Psynch condition variables: the theorems about [ksyn_handle_cvbroad],
    [__psynch_cvsignal], [_psynch_cvwait] and [psynch_cvcontinue]. *)
From stdpp Require Import sorting.
From S2P Require Import Prelude SeqArith Ksyn KsynQueue KsynSync KsynProps KsynCv.

Module KsynCvOps.
Import Ksyn KsynQueue KsynSync KsynProps KsynCv.

Lemma in_window_mask b x : in_window b (Z.land x PTHRW_COUNT_MASK) <-> in_window b x.
Proof. unfold in_window, ahead. by rewrite cnt_mask. Qed.
Lemma cv_ok_mod b f s :
  (forall k, kw_read (f k) = kw_read k /\ kw_write (f k) = kw_write k /\
     kw_inqueue (f k) = kw_inqueue k /\ kw_fakecount (f k) = kw_fakecount k) ->
  cv_ok b s -> cv_ok b (s <| kwq ::= f |>).
Proof. intros Hf I. destruct (Hf (kwq s)) as (? & ? & ? & ?). eapply cv_ok_same; [by apply same_kw_mod|done]. Qed.

Lemma drained_inv b tseq all s s' : cv_inv b s -> cv_ok b s' -> drained_to b tseq all s s' -> cv_inv b s'.
Proof. intros I I' (l1 & l2 & E & E' & _). by eapply cv_inv_scanned. Qed.

(** [ksyn_cvupdate_fixup] keeps everything; it only drains the queue. *)
Lemma wp_fixup b updatebits s (Q : Z -> lst -> Prop) :
  cv_ok b s ->
  (forall r s', cv_ok b s' -> wq_held s' = wq_held s -> self s' = self s ->
     (exists l1, kwel KSYN_QUEUE_WRITE s = l1 ++ kwel KSYN_QUEUE_WRITE s') ->
     (forall e, off_queue e s -> off_queue e s') ->
     (Z.land r PTHRW_COUNT_MASK = Z.land updatebits PTHRW_COUNT_MASK) -> Q r s') ->
  wp (ksyn_cvupdate_fixup updatebits) Q s.
Proof.
  intros I HQ. unfold ksyn_cvupdate_fixup. wp_go.
  assert (forall m, Z.land m PTHRW_COUNT_MASK = 0 ->
    Z.land (Z.lor updatebits m) PTHRW_COUNT_MASK = Z.land updatebits PTHRW_COUNT_MASK) as Hbits.
  { intros m Hm. by rewrite Z.land_lor_distr_l, Hm, Z.lor_0_r. }
  destruct (_ =? _).
  - apply wp_bind. set (zero := fun k : ksyn_wait_queue => _).
    assert (forall s1, cv_ok b s1 -> wq_held s1 = wq_held s -> self s1 = self s ->
      (exists l1, kwel KSYN_QUEUE_WRITE s = l1 ++ kwel KSYN_QUEUE_WRITE s1) ->
      (forall e, off_queue e s -> off_queue e s1) ->
      wp (kw_mod zero ;;; ret (Z.lor updatebits PTH_RWS_CV_CBIT)) Q s1) as Hend.
    { intros s1 I1 Hh Hs El Ho. apply wp_bind, wp_kw_mod, wp_ret, HQ; try done.
      - by apply cv_ok_mod.
      - by apply Hbits. }
    destruct (negb _).
    + apply wp_when_true. eapply (wp_free_items b); [done|].
      intros s1 I1 (l1 & l2 & E & E1 & D & _). apply Hend; try done; try apply D.
      * exists l1. by rewrite E1.
      * intros e (x & Ex & Hx). exists x. split; [|done]. rewrite (dr_other _ _ _ D); [done|].
        intros He. eapply (off_not_queued 0 e s); [apply I|by exists x|].
        apply (kwel_queued KSYN_QUEUE_WRITE). rewrite E. set_solver.
    + apply wp_when_false. apply Hend; try done. by exists [].
  - destruct (_ && _); apply wp_ret, HQ; try done; try (by exists []). by apply Hbits.
Qed.

(** C7: a broadcast ([ksyn_handle_cvbroad]), with other threads running at the
    one point where the lock is dropped, always returns with the lock held and
    the queue ordered and well formed; no thread with a sequence up to [upto] is
    left in the queue, and what is left there at [upto] is a broadcast marker.
    If nobody interfered, exactly the threads up to [upto] were woken, each told
    MTX_WAIT, the result counts them, the later ones kept their order, and one
    marker is left if and only if the L and S words still differ. *)
Theorem broadcast_wakes_all b interfere upto s :
  Rely (cv_inv b) interfere -> cv_inv b s -> wq_held s = true -> is_seq upto -> in_window b upto ->
  wp (ksyn_handle_cvbroad interfere upto) (fun r s' =>
    cv_ok b s' /\ wq_held s' = true /\ swept b upto s' /\
    (interfere = quiet -> broadcasted b upto s r s')) s.
Proof. intros. by apply (wp_handle_cvbroad b). Qed.

(** ** Signal *)

Lemma cv_inv_freed b l s : cv_inv b s -> (forall e, e ∈ l -> off_queue e s) -> cv_inv b (freed l s).
Proof. intros [I R] Hl. split; [by apply cv_freed|done]. Qed.
Lemma off_queue_frame e s s' : kwes s' !! e = kwes s !! e -> off_queue e s -> off_queue e s'.
Proof. unfold off_queue. by intros ->. Qed.

(** One element is signalled; [(0, true)] asks the caller for a broadcast. *)
Lemma wp_signal_element b signalseq e nkwe s (Q : Z * bool -> lst -> Prop) :
  cv_inv b s -> e ∈ kwel KSYN_QUEUE_WRITE s -> (forall n, nkwe = Some n -> off_queue n s) ->
  (forall ub br s', cv_inv b s' -> wq_held s' = wq_held s -> self s' = self s ->
     (br = true -> ub = 0) -> Q (ub, br) s') ->
  wp (cvsignal_element signalseq e nkwe) Q s.
Proof.
  intros I He Hn HQ. pose proof (cv_wf _ _ (proj1 I)) as W.
  destruct (wf_lookup _ _ _ _ W He) as (x & Ex & Ho).
  unfold cvsignal_element. apply wp_bind. eapply wp_kwe_deref; [done|]. apply wp_bind.
  assert (forall n, nkwe = Some n -> n <> e) as Hne.
  { intros n E ->. eapply (off_not_queued 0 e s); [done|by apply Hn|by eapply kwel_queued]. }
  assert (forall ub br s1, cv_inv b s1 -> wq_held s1 = wq_held s -> self s1 = self s ->
    (br = true -> ub = 0) -> (forall n, nkwe = Some n -> kwes s1 !! n = kwes s !! n) ->
    wp (match nkwe with Some n => zfree_kwe n | None => ret tt end ;;; ret (ub, br)) Q s1) as Hend.
  { intros ub br s1 I1 Hh Hs Hb Hk. apply wp_bind. destruct nkwe as [n|]; [|by apply wp_ret, wp_ret, HQ].
    assert (off_queue n s1) as Hoff by (eapply off_queue_frame; [by apply Hk|by apply Hn]).
    pose proof Hoff as (y & Ey & _). eapply wp_zfree_kwe; [done|]. apply wp_ret, HQ; try done.
    apply (cv_inv_freed b [n]); [done|]. by intros f ->%list_elem_of_singleton. }
  destruct e as [t|n].
  - destruct Ho as (_ & _ & _ & Hst & _). rewrite Hst. destruct (is_seqlower _ _).
    { apply wp_ret. by apply Hend. }
    apply wp_bind. eapply wp_signal; [done|done|]. apply wp_ret.
    destruct (cv_signalled b t PTH_RWL_MTX_WAIT s (proj1 I) He) as [I1 E1].
    apply Hend; try done.
    + split; [done|]. rewrite E1. destruct I as [_ R]. rewrite (unlink_length _ _ He) in R. lia.
    + intros n E. rewrite signalled_lookup, decide_False; [done|]. by apply Hne.
  - destruct Ho as (_ & _ & _ & [Hst|Hst]); rewrite Hst; [|apply wp_ret; by apply Hend].
    apply wp_bind. eapply wp_kwe_mod; [done|]. apply wp_ret. apply Hend; try done.
    + eapply cv_same; [|done]. rewrite <- (alter_insert_lookup (fun x => x <| kwe_count ::= fun c => u32 (c + 1) |>)) by done.
      apply same_kwe_mod. by intros.
    + intros m E. cbn. rewrite lookup_insert_ne; [done|]. intros <-. by eapply Hne.
Qed.

Lemma wp_cvsignal b interfere th upto sig s (Q : Z * bool -> lst -> Prop) :
  Rely (cv_inv b) interfere -> cv_inv b s -> wq_held s = true -> in_window b upto ->
  (forall t, th = Some t -> is_Some (kwes s !! KThread t)) ->
  (forall ub br s', cv_ok b s' -> wq_held s' = true -> (br = true -> ub = 0 /\ cv_inv b s') -> Q (ub, br) s') ->
  wp (ksyn_cvsignal interfere th upto sig) Q s.
Proof.
  intros HR I Hh Hw Hth HQ. unfold ksyn_cvsignal.
  set (up := Z.land upto PTHRW_COUNT_MASK). assert (in_window b up) as Hw' by (by apply in_window_mask).
  assert (forall e nkwe s1, cv_inv b s1 -> wq_held s1 = true -> e ∈ kwel KSYN_QUEUE_WRITE s1 ->
    (forall n, nkwe = Some n -> off_queue n s1) -> wp (cvsignal_element sig e nkwe) Q s1) as Huse.
  { intros e nkwe s1 I1 Hh1 He Hn. eapply (wp_signal_element b); try done.
    intros ub br s' I' Hh' _ Hb. apply HQ; [apply I'|by rewrite Hh'|]. auto. }
  destruct th as [t|].
  - destruct (Hth t eq_refl) as [x Ex]. apply wp_bind. eapply wp_kwe_deref; [done|]. wp_go.
    destruct (negb _ || _) eqn:Ec; [apply wp_ret, HQ; [apply I|done|done]|].
    apply orb_false_iff in Ec as [Ec%negb_false_iff%bool_decide_eq_true_1 _].
    apply Huse; try done. rewrite <- (cv_queued b) by apply I. eapply (wf_off 0); [apply I|done|done].
  - apply wp_bind. eapply (wp_find_signalseq b); [apply I|done|]. intros [e|] Hp.
    { apply Huse; try done. by eapply pick_some. }
    apply wp_bind, wp_unlock; [done|]. apply wp_bind, wp_zalloc_kwe. set (s2 := s <| wq_held := false |>).
    change (s2 <| kwes := _ |> <| zone_next := _ |>) with (zalloced s2). set (e := KZone (zone_next s2)).
    assert (cv_inv b (zalloced s2)) as J2.
    { split; [apply cv_zalloced; eapply cv_ok_same; [apply same_held|apply I]|apply I]. }
    apply wp_bind, wp_lock; [done|]. set (s3 := (interfere [e] (zalloced s2)) <| wq_held := true |>).
    assert (cv_inv b s3) as J3 by (eapply cv_same; [apply same_held|]; by apply (rely_inv [e] (zalloced s2))).
    assert (off_queue e s3) as Ho.
    { exists kwe_zero. split; [|done]. apply (rely_mine [e]); [set_solver| |done]. cbn. apply lookup_insert_eq. }
    apply wp_bind. eapply (wp_find_signalseq b); [apply J3|done|]. intros [f|] Hp3.
    { apply Huse; [done|done|by eapply pick_some|]. by intros n [= <-]. }
    apply wp_bind. eapply (wp_prepost b); try done; [apply mask_idem|by left|by eapply pick_none|].
    intros s4 l1 l2 I4 _ _ Hh4 _ _ _ _ _. apply wp_ret, HQ; [done|by rewrite Hh4|done].
Qed.

Lemma UPDATE_CVKWQ_same mgen ugen rw_wc s : same_queues s (s <| kwq ::= UPDATE_CVKWQ mgen ugen rw_wc |>).
Proof. apply same_kw_mod; unfold UPDATE_CVKWQ; by repeat case_bool. Qed.

(** signalling a condition variable never fails.  With other threads running
    whenever [__psynch_cvsignal] drops the lock to allocate, the call returns,
    the lock is dropped exactly once, and the queue is still well formed and
    ordered; in particular the preposts and broadcast markers it inserts never
    collide with a queued sequence (the insertions whose result the code
    ignores), and no fake is used after it is freed. *)
Theorem cvsignal_returns b interfere cgen cugen csgen broadcast th s :
  Rely (cv_inv b) interfere -> cv_inv b s -> wq_held s = false -> in_window b cgen ->
  (forall t, th = Some t -> is_Some (kwes (interfere [] s) !! KThread t)) ->
  wp (cvsignal_locked interfere cgen cugen csgen broadcast th) (fun _ s' =>
    cv_ok b s' /\ wq_held s' = false) s.
Proof.
  intros HR I Hh Hw Hth. unfold cvsignal_locked. set (up := Z.land cgen PTHRW_COUNT_MASK).
  assert (in_window b up) as Hw' by (by apply in_window_mask).
  apply wp_bind, wp_lock; [done|]. apply wp_bind, wp_kw_mod.
  set (s1 := _ <| kwq ::= _ |>).
  assert (cv_inv b s1) as I1.
  { eapply cv_same; [apply UPDATE_CVKWQ_same|]. eapply cv_same; [apply same_held|]. by apply (rely_inv [] s). }
  apply wp_bind, wp_gets. apply wp_bind.
  assert (forall ub s2, cv_ok b s2 -> wq_held s2 = true ->
    wp (kw_mod (fun k => k <| kw_sword ::= fun w => u32 (w + Z.land ub PTHRW_COUNT_MASK) |>) ;;;
        updatebits <- ksyn_cvupdate_fixup ub ;; ksyn_wqunlock ;;; ret updatebits)
       (fun _ s' => cv_ok b s' /\ wq_held s' = false) s2) as Hend.
  { intros ub s2 I2 Hh2. apply wp_bind, wp_kw_mod. apply wp_bind. eapply (wp_fixup b); [by apply cv_ok_mod|].
    intros r s3 I3 Hh3 _ _ _ _. apply wp_bind, wp_unlock; [by rewrite Hh3|]. apply wp_ret. split; [|done].
    eapply cv_ok_same; [apply same_held|done]. }
  assert (forall ub br s2, cv_ok b s2 -> wq_held s2 = true -> (br = true -> cv_inv b s2) ->
    wp (updatebits <- (if br then bb <- ksyn_handle_cvbroad interfere up ;; ret (Z.lor ub bb) else ret ub) ;;
        kw_mod (fun k => k <| kw_sword ::= fun w => u32 (w + Z.land updatebits PTHRW_COUNT_MASK) |>) ;;;
        updatebits <- ksyn_cvupdate_fixup updatebits ;; ksyn_wqunlock ;;; ret updatebits)
       (fun _ s' => cv_ok b s' /\ wq_held s' = false) s2) as Hbroad.
  { intros ub br s2 I2 Hh2 Hb. apply wp_bind. destruct br; [|by apply wp_ret, Hend].
    apply wp_bind. eapply (wp_handle_cvbroad b); [done|by apply Hb|done|apply mask_idem|done|].
    intros r s3 I3 Hh3 _ _ _. by apply wp_ret, Hend. }
  destruct (negb broadcast && _).
  - eapply (wp_cvsignal b); try done.
    intros ub br s2 I2 Hh2 Hb. apply Hbroad; try done. intros E. by apply Hb.
  - apply wp_ret. apply Hbroad; [apply I1|done|done].
Qed.

(** ** Wait *)

(** [ksyn_queue_find_cvpreposeq]: nothing found means that no element has the
    sequence; an element found has it, or is a later fake. *)
Lemma wp_find_cvpreposeq_in b cgen s l0 l (Q : option kwe_id -> lst -> Prop) :
  cv_ok b s -> in_window b cgen -> kwel KSYN_QUEUE_WRITE s = l0 ++ l ->
  (forall e, e ∈ l0 -> key b s e < ahead b cgen) ->
  ((forall e, e ∈ kwel KSYN_QUEUE_WRITE s -> key b s e <> ahead b cgen) -> Q None s) ->
  (forall e, e ∈ kwel KSYN_QUEUE_WRITE s -> ahead b cgen <= key b s e ->
     (is_thread e = true -> key b s e = ahead b cgen) -> Q (Some e) s) ->
  wp (find_cvpreposeq_in cgen l) Q s.
Proof.
  intros I Hw. revert l0. induction l as [|e l IH]; intros l0 El Hlo Hn Hs; cbn [find_cvpreposeq_in].
  { apply wp_ret, Hn. intros e He Hk. rewrite El, app_nil_r in He. specialize (Hlo e He). lia. }
  assert (e ∈ kwel KSYN_QUEUE_WRITE s) as He by (rewrite El; set_solver).
  destruct (wf_lookup _ _ _ _ (cv_wf _ _ I) He) as (x & Ex & Ho).
  apply wp_bind. eapply wp_kwe_deref; [done|]. rewrite <- (seq_of_lookup _ _ _ Ex).
  pose proof (so_window _ _ _ (cv_sorted _ _ I) e He) as Hwe.
  rewrite is_seqhigher_eq_lower, (window_lower_eq b) by done. fold (key b s e).
  destruct (Z.leb_spec (ahead b cgen) (key b s e)) as [Hge|Hlt].
  2:{ eapply (IH (l0 ++ [e])); [by rewrite <- app_assoc| |done|done].
      intros f [Hf|Hf%list_elem_of_singleton]%elem_of_app; [auto|by subst]. }
  rewrite mask_eqb. destruct (decide (key b s e = ahead b cgen)) as [Hk|Hk].
  - assert (cnt (seq_of s e) =? cnt cgen = true) as -> by (by apply Z.eqb_eq, (window_cnt b)).
    rewrite andb_false_r. apply wp_ret, Hs; [done|lia|done].
  - assert (cnt (seq_of s e) =? cnt cgen = false) as ->.
    { apply Z.eqb_neq. intros E%(window_cnt b). done. }
    rewrite andb_true_r. destruct e as [t|n]; cbn [on_queue] in Ho.
    + destruct Ho as (_ & _ & _ & Hst & _). rewrite bool_decide_eq_true_2 by done. apply wp_ret, Hn.
      intros f Hf Hkf. rewrite El in Hf. apply elem_of_app in Hf as [Hf|Hf]; [specialize (Hlo f Hf); lia|].
      pose proof (cv_suffix_above b s l0 _ l I El f (ahead b cgen) ltac:(lia) Hf). lia.
    + destruct Ho as (_ & _ & _ & Hst). rewrite bool_decide_eq_false_2 by (destruct Hst; congruence).
      apply wp_ret, Hs; [done|done|]. done.
Qed.
Lemma wp_find_cvpreposeq b cgen s (Q : option kwe_id -> lst -> Prop) :
  cv_ok b s -> in_window b cgen ->
  ((forall e, e ∈ kwel KSYN_QUEUE_WRITE s -> key b s e <> ahead b cgen) -> Q None s) ->
  (forall e, e ∈ kwel KSYN_QUEUE_WRITE s -> ahead b cgen <= key b s e ->
     (is_thread e = true -> key b s e = ahead b cgen) -> Q (Some e) s) ->
  wp (ksyn_queue_find_cvpreposeq KSYN_QUEUE_WRITE cgen) Q s.
Proof.
  intros I Hw Hn Hs. unfold ksyn_queue_find_cvpreposeq. wp_go.
  apply (wp_find_cvpreposeq_in b cgen s [] (kwel KSYN_QUEUE_WRITE s)); try done. set_solver.
Qed.

(** A thread goes to sleep on a condition variable whose queue has nothing of
    its sequence. *)
Lemma wp_cv_sleep b cur cgen s (Q : wait_outcome -> lst -> Prop) :
  cv_inv b s -> wq_held s = true -> idle cur s -> in_window b cgen ->
  (forall e, e ∈ kwel KSYN_QUEUE_WRITE s -> key b s e <> ahead b cgen) ->
  (forall s' l1 l2, cv_ok b s' -> wq_held s' = false -> self s' = self s -> asleep s' cur ->
     split_at b s (ahead b cgen) (kwel KSYN_QUEUE_WRITE s) l1 l2 ->
     kwel KSYN_QUEUE_WRITE s' = l1 ++ KThread cur :: l2 ->
     kwes s' !! KThread cur = Some ((wait_kwe cur cgen 0) <| kwe_kwqqueue := Some (self s) |>) ->
     kw_lword (kwq s') = kw_lword (kwq s) -> kw_uword (kwq s') = kw_uword (kwq s) ->
     kw_sword (kwq s') = kw_sword (kwq s) -> kw_kflags (kwq s') = kw_kflags (kwq s) ->
     kw_lastunlockseq (kwq s') = kw_lastunlockseq (kwq s) -> Q Blocked s') ->
  wp (ksyn_wait cur KSYN_QUEUE_WRITE cgen SEQFIT 0) Q s.
Proof.
  intros [(W & So & Er) Room] Hh Hi Hw Hne HQ. eapply wp_wait; [done|].
  pose proof (wfd_about_to_wait 0 cur cgen 0 s W Hi) as W2.
  assert (sorted b KSYN_QUEUE_WRITE (about_to_wait cur cgen 0 s)) as S2 by (by eapply sorted_staged).
  pose proof (ready_about_to_wait cur cgen 0 s) as R2.
  assert (forall f, f ∈ kwel KSYN_QUEUE_WRITE s -> seq_of (about_to_wait cur cgen 0 s) f = seq_of s f) as Hsq
    by (intros; by eapply staged_seq_of).
  pose proof (about_seq_of cur cgen 0 s) as Eq2.
  set (s2 := about_to_wait cur cgen 0 s) in *.
  change (kwel KSYN_QUEUE_WRITE s) with (kwel KSYN_QUEUE_WRITE s2) in Room, Hne, HQ, Hsq.
  assert (Z.of_nat (length (queued s2)) + 1 < 2 ^ 32) as Room2.
  { unfold queued. change (kwel KSYN_QUEUE_READ s2) with (kwel KSYN_QUEUE_READ s). by rewrite Er. }
  eapply (wp_insert_seqfit b 0); try done.
  { intros f Hf Hsf. exfalso.
    assert (f ∈ kwel KSYN_QUEUE_WRITE s2) as Hin by (destruct Hf; [by apply head_elem|by apply last_Some_elem_of]).
    apply (Hne f Hin). unfold key. rewrite Hsq, Eq2 in Hsf by done. rewrite Hsf. unfold ahead. by rewrite cnt_mask. }
  intros l1 l2 Sp. split; [done|]. cbn [Z.eqb].
  set (q := relink s2 (l1 ++ KThread cur :: l2)). set (s3 := inserted _ _ q s2).
  pose proof (inserted_frame KSYN_QUEUE_WRITE (KThread cur) q s2) as F.
  pose proof (slept_same cur s3) as Qs.
  assert (cv_ok b s3) as I3.
  { split_and!.
    - eapply (wf_inserted 0 KSYN_QUEUE_WRITE (KThread cur)); try done. by eapply relink_perm.
    - eapply sorted_inserted; try done.
    - unfold s3. by rewrite inserted_kwel, decide_False. }
  apply (HQ _ l1 l2); try done.
  - by eapply cv_ok_same.
  - unfold asleep. cbn. apply lookup_insert_eq.
  - destruct Sp as (El & Hlo & Hhi).
    assert (forall f, f ∈ l1 ++ l2 -> key b s f = key b s2 f) as Hk
      by (intros f Hf; unfold key; rewrite Hsq; [done|by rewrite El]).
    split_and!; [done|..]; intros f Hf; rewrite Hk by set_solver; auto.
  - rewrite (same_kwel _ _ _ Qs). unfold s3. by rewrite inserted_kwel, decide_True.
  - change (kwes (slept cur s3)) with (kwes s3). unfold s3. rewrite inserted_lookup, decide_True by done.
    unfold s2. cbn. by rewrite lookup_insert_eq.
  - cbn. frame F kw_lword. by destruct (_kwq_use_turnstile _); cbn; congruence.
  - cbn. frame F kw_uword. by destruct (_kwq_use_turnstile _); cbn; congruence.
  - cbn. frame F kw_sword. by destruct (_kwq_use_turnstile _); cbn; congruence.
  - cbn. frame F kw_kflags. by destruct (_kwq_use_turnstile _); cbn; congruence.
  - cbn. frame F kw_lastunlockseq. by destruct (_kwq_use_turnstile _); cbn; congruence.
Qed.

Lemma same_count e x f s :
  kwes s !! e = Some x -> same_queues s (s <| kwes := <[e := x <| kwe_count ::= f |>]> (kwes s) |>).
Proof.
  intros Ex. rewrite <- (alter_insert_lookup (fun x => x <| kwe_count ::= f |>)) by done.
  apply same_kwe_mod. by intros.
Qed.

(** The [out] of [_psynch_cvwait] for a thread that does not sleep. *)
Lemma wp_cvwait_finish b updatebits nkwe s (Q : sysres -> lst -> Prop) :
  cv_ok b s -> wq_held s = true -> (forall n, nkwe = Some n -> off_queue n s) ->
  (forall r s', cv_ok b s' -> wq_held s' = false -> Q (Done 0 (Some r)) s') ->
  wp (kw_mod (fun k => k <| kw_sword ::= fun w => u32 (w + PTHRW_INC) |>) ;;;
      updatebits <- ksyn_cvupdate_fixup (Z.lor updatebits PTHRW_INC) ;;
      ksyn_wqunlock ;;;
      match nkwe with Some e => zfree_kwe e | None => ret tt end ;;;
      ret (Done 0 (Some updatebits))) Q s.
Proof.
  intros I Hh Hn HQ. apply wp_bind, wp_kw_mod. apply wp_bind. eapply (wp_fixup b); [by apply cv_ok_mod|].
  intros r s1 I1 Hh1 _ _ Ho _. apply wp_bind, wp_unlock; [by rewrite Hh1|].
  set (s2 := s1 <| wq_held := false |>).
  assert (cv_ok b s2) as I2 by (eapply cv_ok_same; [apply same_held|done]).
  apply wp_bind. destruct nkwe as [n|]; [|by apply wp_ret, wp_ret, HQ].
  assert (off_queue n s2) as Hoff by (apply Ho, Hn; done). pose proof Hoff as (y & Ey & _).
  eapply wp_zfree_kwe; [exact Ey|]. apply wp_ret, HQ; [|done].
  apply (cv_freed b [n]); [done|]. by intros f ->%list_elem_of_singleton.
Qed.

(** waiting on a condition variable always gets somewhere.  Within the
    window, [_psynch_cvwait] returns or puts the thread to sleep, with the queue
    well formed and ordered and the lock dropped exactly once (so the unlock
    after a failed [ksyn_wait], which had already unlocked, is unreachable).  A
    thread that went to sleep is on the queue and waiting; one that did not
    returns 0 (it consumed a prepost or fell under a broadcast), or EBUSY
    because another thread waits with the same sequence. *)
Theorem cvwait_returns b interfere cur cgen cvugen csgen s :
  Rely (cv_inv b) interfere -> cv_inv b s -> wq_held s = false -> idle cur s -> in_window b cgen ->
  wp (cvwait_locked interfere cur cgen cvugen csgen) (fun r s' =>
    cv_ok b s' /\ wq_held s' = false /\
    match r with
    | Asleep => KThread cur ∈ kwel KSYN_QUEUE_WRITE s' /\ asleep s' cur
    | Done error v => error = 0 /\ is_Some v \/ error = EBUSY /\ v = None
    end) s.
Proof.
  intros HR I Hh (x0 & Ex0 & Hx0) Hw. unfold cvwait_locked. set (up := Z.land cgen PTHRW_COUNT_MASK).
  assert (in_window b up) as Hw' by (by apply in_window_mask).
  assert (ahead b up = ahead b cgen) as Hup by (unfold ahead, up; by rewrite cnt_mask).
  apply wp_bind, wp_lock; [done|]. apply wp_bind, wp_kw_mod.
  set (s1 := _ <| kwq ::= _ |>).
  assert (cv_inv b s1) as I1.
  { eapply cv_same; [apply UPDATE_CVKWQ_same|]. eapply cv_same; [apply same_held|].
    by apply (rely_inv [KThread cur] s). }
  assert (idle cur s1) as Hi1.
  { exists x0. split; [|done]. apply (rely_mine [KThread cur]); set_solver. }
  apply wp_bind. eapply (wp_find_cvpreposeq b); [apply I1|done|..].
  - intros Hne. apply wp_bind. eapply (wp_cv_sleep b); try done.
    { intros e He. rewrite <- Hup. by apply Hne. }
    intros s2 l1 l2 I2 Hh2 _ Hs2 _ E2 _ _ _ _ _ _. apply wp_ret. split_and!; try done. rewrite E2. set_solver.
  - intros e He Hge Hth. destruct (wf_lookup _ _ _ _ (cv_wf _ _ (proj1 I1)) He) as (x & Ex & Ho).
    apply wp_bind. eapply wp_kwe_deref; [done|].
    assert (forall (s' : lst) r, cv_ok b s' -> wq_held s' = false ->
      cv_ok b s' /\ wq_held s' = false /\ (0 = 0 /\ is_Some (Some r : option Z) \/ 0 = EBUSY /\ Some r = None)) as Hdone
      by (intros; split_and!; try done; left; split; eauto).
    destruct e as [t|n].
    + destruct Ho as (_ & _ & _ & Hst & _). rewrite Hst. apply wp_bind, wp_unlock; [done|]. apply wp_ret.
      split_and!; [eapply cv_ok_same; [apply same_held|apply I1]|done|by right].
    + destruct Ho as (_ & Hrange & Hmask & [Hst|Hst]); rewrite Hst.
      2:{ eapply (wp_cvwait_finish b 0 None); [apply I1|done|done|]. eauto. }
      destruct (_ =? up).
      * apply wp_bind. eapply wp_kwe_mod; [done|]. set (s2 := s1 <| kwes := _ |>).
        assert (same_queues s1 s2) as Q2 by (by apply same_count).
        assert (cv_inv b s2) as I2 by (by eapply cv_same).
        assert (KZone n ∈ kwel KSYN_QUEUE_WRITE s2) as He2 by (by rewrite (same_kwel _ _ _ Q2)).
        pose proof (cv_wf _ _ (proj1 I2)) as W2.
        destruct (_ =? 0); [|eapply (wp_cvwait_finish b 0 None); [apply I2|done|done|]; eauto].
        apply wp_bind. eapply wp_remove; [done|done|]. apply wp_bind, wp_kw_mod.
        destruct (cv_unfaked b n s2 (proj1 I2) He2) as [I3 _].
        eapply (wp_cvwait_finish b 0 (Some (KZone n))); [exact I3|done| |eauto].
        intros m [= <-]. destruct (sc_off _ _ _ (scanned_unfaked n s2 W2 He2) (KZone n)) as (y & Ey & Hy & _);
          [set_solver|]. by exists y.
      * apply wp_bind. eapply (wp_handle_cvbroad b); [done|done|done|exact Hmask| |].
        { rewrite <- (seq_of_lookup _ _ _ Ex). by apply (so_window _ _ _ (cv_sorted _ _ (proj1 I1))). }
        intros r s2 I2 Hh2 _ _ _. eapply (wp_cvwait_finish b r None); [done|done|done|]. eauto.
Qed.

(** A wait that is cut short leaves the queue in order, and an element that is
    off the queue stays off. *)
Lemma wp_cv_cut_short b t error retval s (Q : Z -> lst -> Prop) :
  cv_inv b s -> off_queue (KThread t) s ->
  (forall r s', cv_inv b s' -> wq_held s' = wq_held s -> off_queue (KThread t) s' ->
     (has retval PTH_RWL_MTX_WAIT = true -> r = 0) -> Q r s') ->
  wp (cv_cut_short error retval) Q s.
Proof.
  intros I Hoff HQ. unfold cv_cut_short. destruct (has _ PTH_RWL_MTX_WAIT); [by apply wp_ret, HQ|].
  assert (cv_inv b (s <| kwq ::= fun k => k <| kw_sword ::= fun w => u32 (w + PTHRW_INC) |> |>)) as I3
    by (eapply cv_same; [by apply same_kw_mod|done]).
  apply wp_bind, wp_kw_mod. wp_go. destruct (Z.land _ _ =? Z.land _ _).
  2:{ destruct (_ && _); apply wp_ret; by apply HQ. }
  apply wp_bind. destruct (negb _).
  - apply wp_when_true. eapply (wp_free_items b); [apply I3|]. intros s3 I4 D. pose proof D as (l1 & l2 & E & E' & D' & _).
    apply wp_bind, wp_kw_mod, wp_ret. apply HQ; try done.
    + eapply cv_same; [by apply same_kw_mod|]. by eapply drained_inv.
    + cbn. by rewrite (dr_held _ _ _ D').
    + destruct (decide (KThread t ∈ l1)) as [Hin|Hout'].
      * exact (proj2 (dr_off _ _ _ D' _ Hin)).
      * eapply off_queue_frame; [|exact Hoff]. exact (dr_other _ _ _ D' _ Hout').
  - apply wp_when_false. apply wp_bind, wp_kw_mod, wp_ret. apply HQ; try done.
    eapply cv_same; [by apply same_kw_mod|done].
Qed.

(** the continuation of a condition variable wait ([psynch_cvcontinue]),
    whether the thread was woken, timed out or was interrupted, returns; the
    thread's element is off the queue afterwards, and when the wait was cut
    short while the signal was already granted (the MTX_WAIT mark), the error is
    dropped so that the wake-up is not lost. *)
Theorem cvcontinue_returns b interfere cur result s :
  Rely (cv_inv b) interfere -> cv_inv b s -> wq_held s = false ->
  (if _wait_result_to_errno result =? 0 then idle cur s else parked (KThread cur) KSYN_QUEUE_WRITE s) ->
  wp (psynch_cvcontinue interfere cur result) (fun r s' =>
    cv_inv b s' /\ wq_held s' = false /\ off_queue (KThread cur) s' /\
    (forall x, kwes (interfere [KThread cur] s) !! KThread cur = Some x ->
       has (kwe_psynchretval x) PTH_RWL_MTX_WAIT = true -> exists v, r = Done 0 v)) s.
Proof.
  intros HR I Hh Hp. unfold psynch_cvcontinue. destruct (_wait_result_to_errno result =? 0) eqn:Er; cbn [negb].
  { destruct Hp as (x & Ex & Hx). apply wp_bind. eapply wp_kwe_deref; [done|]. apply wp_ret.
    split_and!; [done|done|by exists x|]. intros. eauto. }
  apply wp_bind, wp_lock; [done|]. set (s1 := _ <| wq_held := true |>).
  assert (cv_inv b s1) as I1 by (eapply cv_same; [apply same_held|]; by apply (rely_inv [KThread cur] s)).
  assert (parked (KThread cur) KSYN_QUEUE_WRITE s1) as (x & Ex & Hx)
    by (apply (rely_parked [KThread cur]); [set_solver|done]).
  apply wp_bind. eapply wp_kwe_deref; [done|]. change (kwes (interfere [KThread cur] s)) with (kwes s1).
  apply wp_bind.
  assert (forall s2, cv_inv b s2 -> wq_held s2 = true -> off_queue (KThread cur) s2 ->
    wp (error <- cv_cut_short (_wait_result_to_errno result) (kwe_psynchretval x) ;;
        ksyn_wqunlock ;;; ret (Done error (Some (kwe_psynchretval x)))) (fun r s' =>
      cv_inv b s' /\ wq_held s' = false /\ off_queue (KThread cur) s' /\
      (forall y, kwes s1 !! KThread cur = Some y ->
         has (kwe_psynchretval y) PTH_RWL_MTX_WAIT = true -> exists v, r = Done 0 v)) s2) as Hend.
  { intros s2 I2 Hh2 Hoff. apply wp_bind. eapply (wp_cv_cut_short b); [done|exact Hoff|].
    intros error s3 I3 Hh3 Ho3 He. apply wp_bind, wp_unlock; [by rewrite Hh3|]. apply wp_ret.
    split_and!; [eapply cv_same; [apply same_held|done]|done|done|].
    intros y Ey Hy. rewrite Ex in Ey. injection Ey as <-. rewrite He by done. eauto. }
  case_bool_decide as Hq.
  - destruct Hx as [Hx|Hx]; [rewrite Hx in Hq; by destruct Hq|].
    pose proof (cv_wf _ _ (proj1 I1)) as W1. apply wp_when_true. eapply wp_remove; [done|done|].
    pose proof (wf_removed 0 KSYN_QUEUE_WRITE _ s1 W1 Hx) as W2. cbn [is_fake Z.add] in W2.
    apply Hend; [|done|].
    + destruct I1 as [(_ & S1 & E1) R1]. split; [split_and!; [done|by eapply (sorted_removed b 0)|]|].
      * by rewrite (removed_kwel 0), E1.
      * rewrite (removed_kwel 0) by done. rewrite (unlink_length _ _ Hx) in R1. lia.
    + unfold off_queue. rewrite removed_lookup, decide_True, Ex by done. cbn. by eexists.
  - apply wp_when_false. apply Hend; [done|done|]. exists x. split; [done|].
    destruct (kwe_kwqqueue x); [|done]. exfalso. apply Hq. eauto.
Qed.

(** ** The two orders of a wait and its signal *)

(** Fields of an updated queue. *)
Ltac kw_fields :=
  repeat match goal with
  | |- context [?p (@update ksyn_wait_queue ?T ?q ?i ?f ?k)] =>
      let y := eval cbn in (p (@update ksyn_wait_queue T q i f k)) in
      progress change (p (@update ksyn_wait_queue T q i f k)) with y
  end.
Lemma UPDATE_CVKWQ_idem mgen ugen rw_wc k :
  UPDATE_CVKWQ mgen ugen rw_wc (UPDATE_CVKWQ mgen ugen rw_wc k) = UPDATE_CVKWQ mgen ugen rw_wc k.
Proof.
  assert (forall x, is_seqhigher x x = false) as H1.
  { intros x. rewrite is_seqhigher_lower. by apply is_seqlower_irrefl. }
  assert (forall x, is_seqlower (Z.land x PTHRW_COUNT_MASK) x = false) as H2.
  { intros x. apply is_seqlower_irrefl, cnt_mask. }
  set (k' := UPDATE_CVKWQ mgen ugen rw_wc k).
  assert (has (kw_kflags k') KSYN_KWF_ZEROEDOUT = false /\ is_seqhigher mgen (kw_lword k') = false /\
    is_seqhigher ugen (kw_uword k') = false /\
    has rw_wc PTH_RWS_CV_CBIT && is_seqhigher rw_wc (kw_sword k') = false /\
    has rw_wc PTH_RWS_CV_CBIT && is_seqlower (kw_lastunlockseq k') rw_wc = false) as (F1 & F2 & F3 & F4 & F5).
  { unfold k', UPDATE_CVKWQ. clear k'.
    destruct (has (kw_kflags k) KSYN_KWF_ZEROEDOUT) eqn:E1.
    - cbv zeta. kw_fields. destruct (has rw_wc PTH_RWS_CV_CBIT), (is_seqlower (kw_lastunlockseq k) rw_wc) eqn:E5;
        cbn [andb]; kw_fields; rewrite ?has_clr, ?H1, ?H2, ?E5; done.
    - cbv zeta. destruct (is_seqhigher mgen (kw_lword k)) eqn:E2; kw_fields;
      destruct (is_seqhigher ugen (kw_uword k)) eqn:E3; kw_fields;
      destruct (has rw_wc PTH_RWS_CV_CBIT); cbn [andb]; kw_fields;
      destruct (is_seqhigher rw_wc (kw_sword k)) eqn:E4; kw_fields;
      destruct (is_seqlower (kw_lastunlockseq k) rw_wc) eqn:E5; kw_fields;
      rewrite ?E1, ?E2, ?E3, ?E4, ?E5, ?H1, ?H2; done. }
  unfold UPDATE_CVKWQ. by rewrite F1, F2, F3, F4, F5.
Qed.

Lemma UPDATE_CVKWQ_words mgen ugen rw_wc k k' :
  words k = words k' -> words (UPDATE_CVKWQ mgen ugen rw_wc k) = words (UPDATE_CVKWQ mgen ugen rw_wc k').
Proof.
  unfold words at 1 2. intros [= E1 E2 E3 E4 E5]. unfold UPDATE_CVKWQ. rewrite E4.
  destruct (has (kw_kflags k') KSYN_KWF_ZEROEDOUT); cbv zeta; kw_fields; rewrite ?E1, ?E2, ?E3, ?E5.
  - destruct (has rw_wc PTH_RWS_CV_CBIT && _); unfold words; kw_fields; congruence.
  - destruct (is_seqhigher mgen (kw_lword k')); kw_fields; rewrite ?E2, ?E3, ?E5;
    destruct (is_seqhigher ugen (kw_uword k')); kw_fields; rewrite ?E2, ?E3, ?E5;
    destruct (has rw_wc PTH_RWS_CV_CBIT); cbn [andb]; kw_fields; rewrite ?E2, ?E3, ?E5;
    destruct (is_seqhigher rw_wc (kw_sword k')); kw_fields; rewrite ?E2, ?E3, ?E5;
    destruct (is_seqlower (kw_lastunlockseq k') rw_wc); unfold words; kw_fields; congruence.
Qed.

(** The words once one more waiter is accounted for: balanced words are zeroed. *)
Definition one_more (k : ksyn_wait_queue) : ksyn_wait_queue := k <| kw_sword ::= fun w => u32 (w + PTHRW_INC) |>.
Definition zeroed (k : ksyn_wait_queue) : ksyn_wait_queue :=
  k <| kw_lword := 0 |> <| kw_uword := 0 |> <| kw_sword := 0 |>
    <| kw_kflags ::= fun f => Z.lor f KSYN_KWF_ZEROEDOUT |>.
Definition balanced (k : ksyn_wait_queue) : bool :=
  Z.land (kw_lword k) PTHRW_COUNT_MASK =? Z.land (kw_sword k) PTHRW_COUNT_MASK.
Definition settled (k : ksyn_wait_queue) : ksyn_wait_queue :=
  if balanced (one_more k) then zeroed (one_more k) else one_more k.
Definition settled_bits (k : ksyn_wait_queue) : Z :=
  if balanced (one_more k) then Z.lor PTHRW_INC PTH_RWS_CV_CBIT else PTHRW_INC.

Lemma kwq_mod_eq f g s : f (kwq s) = g (kwq s) -> s <| kwq ::= f |> = s <| kwq ::= g |>.
Proof. destruct s. cbn. unfold update. cbn. by intros ->. Qed.
Lemma wp_settle s (Q : Z -> lst -> Prop) :
  kw_inqueue (kwq s) = 0 -> Q (settled_bits (kwq s)) (s <| kwq ::= settled |>) ->
  wp (ksyn_cvupdate_fixup PTHRW_INC) Q (s <| kwq ::= one_more |>).
Proof.
  intros Hi HQ. unfold ksyn_cvupdate_fixup. wp_go.
  change (kwq (s <| kwq ::= one_more |>)) with (one_more (kwq s)).
  change (kw_inqueue (one_more (kwq s))) with (kw_inqueue (kwq s)). rewrite Hi.
  fold (balanced (one_more (kwq s))). cbn [negb Z.eqb andb].
  unfold settled_bits in HQ. destruct (balanced (one_more (kwq s))) eqn:E.
  - apply wp_bind, wp_when_false. apply wp_bind, wp_kw_mod, wp_ret.
    rewrite (kwq_mod_eq settled (fun k => zeroed (one_more k)) s) in HQ by (unfold settled; by rewrite E). exact HQ.
  - apply wp_ret. rewrite (kwq_mod_eq settled one_more s) in HQ by (unfold settled; by rewrite E). exact HQ.
Qed.
Lemma settled_kwel kqi s : kwel kqi (s <| kwq ::= settled |> <| wq_held := false |>) = kwel kqi s.
Proof. unfold kwel. cbn. unfold settled. by destruct (balanced _), kqi. Qed.
Lemma fake_dec_words s : words (kwq (fake_dec s)) = words (kwq s).
Proof. reflexivity. Qed.
Lemma settled_asleep s t : asleep (s <| kwq ::= settled |> <| wq_held := false |>) t = asleep s t.
Proof. reflexivity. Qed.
Lemma settled_kwes s : kwes (s <| kwq ::= settled |> <| wq_held := false |>) = kwes s.
Proof. reflexivity. Qed.
Lemma settled_kwq s : kwq (s <| kwq ::= settled |> <| wq_held := false |>) = settled (kwq s).
Proof. reflexivity. Qed.
Lemma settled_words k k' : words k = words k' -> words (settled k) = words (settled k') /\ settled_bits k = settled_bits k'.
Proof.
  unfold words, settled, settled_bits, balanced. intros [= E1 E2 E3 E4 E5]. cbn. rewrite E1, E3.
  split; [|done]. destruct (_ =? _); cbn; congruence.
Qed.

Lemma diff_balanced k : (diff_genseq (kw_lword k) (kw_sword k) =? 0) = balanced k.
Proof.
  unfold balanced. rewrite mask_eqb. destruct (seq_diff_zero (kw_lword k) (kw_sword k)) as [H1 H2].
  apply Bool.eq_iff_eq_true. by rewrite !Z.eqb_eq.
Qed.

(** The queue of [s] is empty and its words are [w]. *)
Definition rested (w : Z * Z * Z * Z * Z) (s : lst) : Prop :=
  kwel KSYN_QUEUE_WRITE s = [] /\ wq_held s = false /\ words (kwq s) = w.

Lemma cv_inqueue b s : cv_ok b s -> kw_inqueue (kwq s) = Z.of_nat (length (kwel KSYN_QUEUE_WRITE s)).
Proof. intros I. rewrite (wf_inqueue _ _ (cv_wf _ _ I)). by rewrite (cv_queued b). Qed.

(** The waiter that has taken the last fake settles the words and frees it. *)
Lemma wp_take_rest b n y s (Q : sysres -> lst -> Prop) :
  cv_ok b s -> wq_held s = true -> kwel KSYN_QUEUE_WRITE s = [] -> kwes s !! KZone n = Some y ->
  (forall s', rested (words (settled (kwq s))) s' -> waiting s' = waiting s -> kwes s' !! KZone n = None ->
     Q (Done 0 (Some (settled_bits (kwq s)))) s') ->
  wp (kw_mod (fun k => k <| kw_sword ::= fun w => u32 (w + PTHRW_INC) |>) ;;;
      updatebits <- ksyn_cvupdate_fixup (Z.lor 0 PTHRW_INC) ;;
      ksyn_wqunlock ;;;
      zfree_kwe (KZone n) ;;;
      ret (Done 0 (Some updatebits))) Q s.
Proof.
  intros I Hh E Ey HQ. match goal with |- wp (bind (kw_mod ?f) _) _ _ => change f with one_more end.
  rewrite Z.lor_0_l. apply wp_bind, wp_kw_mod, wp_bind, wp_settle; [by rewrite (cv_inqueue b), E|].
  apply wp_bind, wp_unlock; [done|]. apply wp_bind.
  set (s4 := s <| kwq ::= settled |> <| wq_held := false |>).
  eapply wp_zfree_kwe; [unfold s4; rewrite settled_kwes; exact Ey|]. apply wp_ret, HQ.
  - split_and!; [|done|done]. rewrite <- E, <- (settled_kwel KSYN_QUEUE_WRITE s). done.
  - done.
  - cbn. apply lookup_delete_eq.
Qed.

Section Commute.
Context (b cgen cugen csgen : Z) (cur : nat).
Let up := Z.land cgen PTHRW_COUNT_MASK.
Let fromseq := u32 (Z.land cugen PTHRW_COUNT_MASK + PTHRW_INC).
Let update := UPDATE_CVKWQ cgen cugen csgen.
Context (Hw : in_window b cgen).

Lemma in_window_up : in_window b up.
Proof. by apply in_window_mask. Qed.
Lemma up_mask : Z.land up PTHRW_COUNT_MASK = up.
Proof. apply mask_idem. Qed.
Lemma ahead_up : ahead b up = ahead b cgen.
Proof. unfold ahead, up. by rewrite cnt_mask. Qed.

(** The thread arrives first. *)
Lemma cvwait_sleeps s (Q : sysres -> lst -> Prop) :
  cv_inv b s -> wq_held s = false -> idle cur s -> kwel KSYN_QUEUE_WRITE s = [] ->
  (forall s', cv_inv b s' -> wq_held s' = false -> asleep s' cur -> kwel KSYN_QUEUE_WRITE s' = [KThread cur] ->
     seq_of s' (KThread cur) = up -> words (kwq s') = words (update (kwq s)) -> Q Asleep s') ->
  wp (cvwait_locked quiet cur cgen cugen csgen) Q s.
Proof.
  intros I Hh Hi E HQ. unfold cvwait_locked. fold up update. apply wp_bind, wp_lock; [done|]. apply wp_bind, wp_kw_mod.
  set (s1 := _ <| kwq ::= _ |>).
  assert (same_queues s s1) as Q1 by (etransitivity; [apply (same_held true)|apply UPDATE_CVKWQ_same]).
  assert (cv_inv b s1) as I1 by (by eapply cv_same).
  assert (kwel KSYN_QUEUE_WRITE s1 = []) as E1 by (by rewrite (same_kwel _ _ _ Q1)).
  assert (forall e, e ∈ kwel KSYN_QUEUE_WRITE s1 -> key b s1 e <> ahead b cgen) as Hno by (rewrite E1; set_solver).
  apply wp_bind. eapply (wp_find_cvpreposeq b); [apply I1|apply in_window_up| |rewrite E1; set_solver].
  intros _. apply wp_bind. eapply (wp_cv_sleep b); try done.
  intros s2 l1 l2 I2 Hh2 Hs2 Ha2 (El & _) E2 Ex H1 H2 H3 H4 H5. apply wp_ret.
  rewrite E1 in El. symmetry in El. apply app_nil in El as [-> ->]. cbn [app] in E2. apply HQ; try done.
  - split; [done|]. rewrite E2. done.
  - unfold seq_of. by rewrite Ex.
  - unfold words. rewrite H1, H2, H3, H4, H5. done.
Qed.

(** The signal wakes it. *)
Lemma cvsignal_wakes s (Q : Z -> lst -> Prop) :
  cv_inv b s -> wq_held s = false -> kwel KSYN_QUEUE_WRITE s = [KThread cur] -> seq_of s (KThread cur) = up ->
  is_seqlower up fromseq = false -> balanced (update (kwq s)) = false ->
  (forall s', rested (words (settled (update (kwq s)))) s' -> ~ asleep s' cur ->
     (exists x, kwes s' !! KThread cur = Some x /\ kwe_psynchretval x = PTH_RWL_MTX_WAIT) ->
     Q (settled_bits (update (kwq s))) s') ->
  wp (cvsignal_locked quiet cgen cugen csgen false None) Q s.
Proof.
  intros I Hh E Hs Hlow Hb HQ. unfold cvsignal_locked. fold up fromseq update.
  apply wp_bind, wp_lock; [done|]. apply wp_bind, wp_kw_mod. set (s1 := _ <| kwq ::= _ |>).
  assert (same_queues s s1) as Q1 by (etransitivity; [apply (same_held true)|apply UPDATE_CVKWQ_same]).
  assert (cv_inv b s1) as I1 by (by eapply cv_same).
  assert (kwel KSYN_QUEUE_WRITE s1 = [KThread cur]) as E1 by (by rewrite (same_kwel _ _ _ Q1)).
  assert (seq_of s1 (KThread cur) = up) as Hs1 by (by rewrite (same_seq_of _ _ _ Q1)).
  assert (KThread cur ∈ kwel KSYN_QUEUE_WRITE s1) as He by (rewrite E1; set_solver).
  pose proof (cv_wf _ _ (proj1 I1)) as W1. destruct (wf_lookup _ _ _ _ W1 He) as (x & Ex & _ & _ & _ & Hst & _).
  assert (key b s1 (KThread cur) = ahead b up) as Hk by (unfold key; by rewrite Hs1).
  apply wp_bind, wp_gets. change (kwq s1) with (update (kwq s)). rewrite diff_balanced, Hb. cbn [negb andb].
  apply wp_bind. unfold ksyn_cvsignal. rewrite up_mask. apply wp_bind.
  eapply (wp_find_signalseq b); [apply I1|apply in_window_up|]. intros r Hp.
  assert (r = Some (KThread cur)) as ->.
  { destruct r as [e|]; [|exfalso; by eapply (pick_none _ _ _ _ Hp)].
    apply pick_some in Hp. rewrite E1 in Hp. apply list_elem_of_singleton in Hp. by subst. }
  unfold cvsignal_element. apply wp_bind. eapply wp_kwe_deref; [done|].
  rewrite Hst, <- (seq_of_lookup _ _ _ Ex), Hs1, Hlow. apply wp_bind, wp_bind.
  eapply wp_signal; [done|done|]. apply wp_ret. apply wp_bind, wp_ret, wp_ret. cbv iota.
  apply wp_bind, wp_ret. set (s2 := signalled _ _ _ s1).
  destruct (cv_signalled b cur PTH_RWL_MTX_WAIT s1 (proj1 I1) He) as [I2 E2]. rewrite E1, unlink_head in E2. fold s2 in I2, E2.
  pose proof (signalled_frame KSYN_QUEUE_WRITE cur PTH_RWL_MTX_WAIT s1) as F.
  assert (words (kwq s2) = words (update (kwq s))) as Hwd.
  { unfold words. unfold queue_frame in F. fold s2 in F. by rewrite F. }
  destruct (settled_words _ _ Hwd) as [Hsw Hsb].
  match goal with |- wp (bind (kw_mod ?f) _) _ _ => change f with one_more end.
  apply wp_bind, wp_kw_mod, wp_bind, wp_settle; [by rewrite (cv_inqueue b), E2|]. rewrite Hsb.
  apply wp_bind, wp_unlock; [done|]. apply wp_ret, HQ.
  - split_and!; [by rewrite settled_kwel|done|by rewrite settled_kwq].
  - rewrite settled_asleep. apply (dr_off _ _ _ (drained_signalled cur PTH_RWL_MTX_WAIT s1 W1 He)). by apply list_elem_of_singleton.
  - rewrite settled_kwes. unfold s2. rewrite signalled_lookup, decide_True, Ex by done. cbn. by eexists.
Qed.

(** The signal arrives first and is remembered. *)
Lemma cvsignal_preposts s (Q : Z -> lst -> Prop) :
  cv_inv b s -> wq_held s = false -> kwel KSYN_QUEUE_WRITE s = [] -> balanced (update (kwq s)) = false ->
  0 <= kw_sword (update (kwq s)) < 2 ^ 32 ->
  (forall s' n x, cv_inv b s' -> wq_held s' = false -> kwel KSYN_QUEUE_WRITE s' = [KZone n] ->
     kwes s' !! KZone n = Some x -> kwe_state x = KWE_THREAD_PREPOST -> kwe_lockseq x = up -> kwe_count x = 1 ->
     words (kwq s') = words (update (kwq s)) ->
     waiting s' = waiting s -> Q PTH_RWS_CV_PBIT s') ->
  wp (cvsignal_locked quiet cgen cugen csgen false None) Q s.
Proof.
  intros I Hh E Hb Hr HQ. unfold cvsignal_locked. fold up fromseq update.
  apply wp_bind, wp_lock; [done|]. apply wp_bind, wp_kw_mod. set (s1 := _ <| kwq ::= _ |>).
  assert (same_queues s s1) as Q1 by (etransitivity; [apply (same_held true)|apply UPDATE_CVKWQ_same]).
  assert (cv_inv b s1) as I1 by (by eapply cv_same).
  assert (kwel KSYN_QUEUE_WRITE s1 = []) as E1 by (by rewrite (same_kwel _ _ _ Q1)).
  apply wp_bind, wp_gets. change (kwq s1) with (update (kwq s)). rewrite diff_balanced, Hb. cbn [negb andb].
  apply wp_bind. unfold ksyn_cvsignal. rewrite up_mask.
  assert (forall s2, cv_ok b s2 -> kwel KSYN_QUEUE_WRITE s2 = [] -> forall Q', Q' None s2 ->
    wp (ksyn_queue_find_signalseq KSYN_QUEUE_WRITE up fromseq) Q' s2) as Hfind.
  { intros s2 I2 E2 Q' HQ'. eapply (wp_find_signalseq b); [done|apply in_window_up|]. intros [e|] Hp; [|done].
    apply pick_some in Hp. rewrite E2 in Hp. set_solver. }
  apply wp_bind, Hfind; [apply I1|done|]. apply wp_bind, wp_unlock; [done|]. apply wp_bind, wp_zalloc_kwe.
  set (s2 := s1 <| wq_held := false |>).
  change (s2 <| kwes := _ |> <| zone_next := _ |>) with (zalloced s2). set (n := zone_next s2).
  apply wp_bind, wp_lock; [done|]. set (s3 := (quiet _ (zalloced s2)) <| wq_held := true |>).
  assert (cv_inv b s3) as I3.
  { eapply cv_same; [apply same_held|]. split; [apply cv_zalloced; eapply cv_ok_same; [apply same_held|apply I1]|apply I1]. }
  apply wp_bind, Hfind; [apply I3|done|]. apply wp_bind.
  assert (off_queue (KZone n) s3) as Hoff by (exists kwe_zero; split; [apply lookup_insert_eq|done]).
  eapply (wp_prepost b); [done|done|apply mask_idem|apply in_window_up|by left| |].
  { intros f Hf. change (kwel KSYN_QUEUE_WRITE s3) with (kwel KSYN_QUEUE_WRITE s1) in Hf. rewrite E1 in Hf. set_solver. }
  intros s4 l1 l2 I4 (El & _) E4 Hh4 _ Hwt Hwords _ (x & Ex & Hst & Hlq & Hc).
  change (kwel KSYN_QUEUE_WRITE s3) with (kwel KSYN_QUEUE_WRITE s1) in El. rewrite E1 in El.
  symmetry in El. apply app_nil in El as [-> ->]. cbn [app] in E4.
  apply wp_ret. cbv iota. apply wp_bind, wp_ret, wp_bind, wp_kw_mod, wp_bind.
  assert (words (kwq s4) = words (update (kwq s))) as Hwd by exact Hwords.
  assert (kw_lword (kwq s4) = kw_lword (update (kwq s)) /\ kw_sword (kwq s4) = kw_sword (update (kwq s))) as [HL HS]
    by (unfold words in Hwd; by injection Hwd).
  unfold ksyn_cvupdate_fixup. wp_go. rewrite Z.land_0_l. cbn [kwq].
  set (s5 := s4 <| kwq ::= _ |>).
  assert (kw_sword (kwq s5) = kw_sword (update (kwq s))) as HS5.
  { cbn. rewrite Z.add_0_r, HS. by apply u32_id. }
  assert (words (kwq s5) = words (update (kwq s))) as Hw5.
  { rewrite <- Hwd. unfold words. by rewrite HS5, <- HS. }
  assert (balanced (kwq s5) = false) as Hb5.
  { unfold balanced. rewrite HS5. change (kw_lword (kwq s5)) with (kw_lword (kwq s4)). by rewrite HL. }
  fold (balanced (kwq s5)). rewrite Hb5.
  assert (kw_inqueue (kwq s5) = 1) as Hin by (change (kw_inqueue (kwq s4) = 1); by rewrite (cv_inqueue b), E4).
  assert (kw_fakecount (kwq s5) = 1) as Hfk.
  { change (kw_fakecount (kwq s4) = 1). rewrite (wf_fakecount _ _ (cv_wf _ _ I4)), (cv_queued b), E4 by done. done. }
  rewrite Hin, Hfk. cbn [Z.eqb negb andb Pos.eqb]. apply wp_ret. apply wp_bind, wp_unlock; [by cbn; rewrite Hh4|].
  apply wp_ret. apply (HQ _ n x); try done.
  - eapply cv_same; [apply same_held|]. eapply cv_same; [by apply same_kw_mod|]. split; [done|]. by rewrite E4.
Qed.

(** The thread that arrives after it takes it. *)
Lemma cvwait_takes_prepost s n x (Q : sysres -> lst -> Prop) :
  cv_inv b s -> wq_held s = false -> kwel KSYN_QUEUE_WRITE s = [KZone n] ->
  kwes s !! KZone n = Some x -> kwe_state x = KWE_THREAD_PREPOST -> kwe_lockseq x = up -> kwe_count x = 1 ->
  (forall s', rested (words (settled (update (kwq s)))) s' -> waiting s' = waiting s ->
     kwes s' !! KZone n = None ->
     Q (Done 0 (Some (settled_bits (update (kwq s))))) s') ->
  wp (cvwait_locked quiet cur cgen cugen csgen) Q s.
Proof.
  intros I Hh E Ex Hst Hlq Hc HQ. unfold cvwait_locked. fold up update. apply wp_bind, wp_lock; [done|].
  apply wp_bind, wp_kw_mod. set (s1 := _ <| kwq ::= _ |>).
  assert (same_queues s s1) as Q1 by (etransitivity; [apply (same_held true)|apply UPDATE_CVKWQ_same]).
  assert (cv_inv b s1) as I1 by (by eapply cv_same).
  assert (kwel KSYN_QUEUE_WRITE s1 = [KZone n]) as E1 by (by rewrite (same_kwel _ _ _ Q1)).
  assert (key b s1 (KZone n) = ahead b up) as Hk
    by (unfold key; by rewrite (same_seq_of _ _ _ Q1), (seq_of_lookup _ _ _ Ex), Hlq).
  apply wp_bind. eapply (wp_find_cvpreposeq b); [apply I1|apply in_window_up|..].
  { intros Hno. exfalso. apply (Hno (KZone n)); [rewrite E1; set_solver|done]. }
  intros e He _ _. rewrite E1 in He. apply list_elem_of_singleton in He as ->.
  apply wp_bind. eapply wp_kwe_deref; [exact Ex|]. rewrite Hst, Hlq, up_mask, Z.eqb_refl.
  apply wp_bind. eapply wp_kwe_mod; [exact Ex|]. rewrite Hc. change (u32 (1 - 1) =? 0) with true. cbv iota.
  set (s2 := s1 <| kwes := _ |>). assert (same_queues s1 s2) as Q2 by (by apply same_count).
  assert (cv_inv b s2) as I2 by (by eapply cv_same).
  assert (KZone n ∈ kwel KSYN_QUEUE_WRITE s2) as He2 by (rewrite (same_kwel _ _ _ Q2), E1; set_solver).
  pose proof (cv_wf _ _ (proj1 I2)) as W2.
  apply wp_bind. eapply wp_remove; [done|done|]. apply wp_bind, wp_kw_mod.
  destruct (cv_unfaked b n s2 (proj1 I2) He2) as [I3 E3].
  rewrite (same_kwel _ _ _ Q2), E1, unlink_head in E3.
  pose proof (removed_frame KSYN_QUEUE_WRITE (KZone n) s2) as F.
  assert (words (kwq (unfaked n s2)) = words (update (kwq s))) as Hwd.
  { unfold unfaked. rewrite fake_dec_words. unfold words. unfold queue_frame in F. by rewrite F. }
  destruct (settled_words _ _ Hwd) as [Hsw Hsb].
  destruct (sc_off _ _ _ (scanned_unfaked n s2 W2 He2) (KZone n)) as (y & Ey & _); [by apply list_elem_of_singleton|].
  eapply (wp_take_rest b n y (unfaked n s2)); [exact I3|done|exact E3|exact Ey|].
  intros s' Hrest Hwt' Hfree. rewrite Hsb. apply HQ; [|exact Hwt'|exact Hfree]. by rewrite <- Hsw.
Qed.
End Commute.

(** The wait and the signal meant for it, with the thread asleep in between. *)
Lemma wait_then_signal b cgen cugen csgen cur s (Q : sysres -> lst -> Prop) :
  let k1 := UPDATE_CVKWQ cgen cugen csgen (kwq s) in
  cv_inv b s -> wq_held s = false -> idle cur s ->
  kwel KSYN_QUEUE_WRITE s = [] -> in_window b cgen ->
  is_seqlower cgen (u32 (Z.land cugen PTHRW_COUNT_MASK + PTHRW_INC)) = false ->
  balanced k1 = false -> 0 <= kw_sword k1 < 2 ^ 32 ->
  (forall s1, asleep s1 cur ->
     wp (cvsignal_locked quiet cgen cugen csgen false None) (fun r s2 =>
       r = settled_bits k1 /\ rested (words (settled k1)) s2 /\ ~ asleep s2 cur /\
       wp (psynch_cvcontinue quiet cur THREAD_AWAKENED) (fun r s3 => r = Done 0 (Some 0) /\ s3 = s2) s2) s1 ->
     Q Asleep s1) ->
  wp (cvwait_locked quiet cur cgen cugen csgen) Q s.
Proof.
  intros k1 I Hh Hi E Hw Hlow Hb Hr HQ.
  eapply (cvwait_sleeps b); try done. intros s1 I1 Hh1 Hs1 E1 Hseq Hwd. apply HQ; [done|].
  assert (words (UPDATE_CVKWQ cgen cugen csgen (kwq s1)) = words k1) as Hw1.
  { transitivity (words (UPDATE_CVKWQ cgen cugen csgen k1)); [by apply UPDATE_CVKWQ_words|].
    unfold k1. by rewrite UPDATE_CVKWQ_idem. }
  assert (balanced (UPDATE_CVKWQ cgen cugen csgen (kwq s1)) = false) as Hb1.
  { rewrite <- Hb. unfold balanced. unfold words in Hw1. by injection Hw1 as -> _ -> _. }
  destruct (settled_words _ _ Hw1) as [Hsw Hsb].
  eapply (cvsignal_wakes b); try done; [by rewrite is_seqlower_mask|].
  intros s2 H2 Ha2 (x & Ex & Hx). rewrite Hsb, <- Hsw. split_and!; [done..|].
  unfold psynch_cvcontinue. change (negb (_wait_result_to_errno THREAD_AWAKENED =? 0)) with false. cbv iota.
  apply wp_bind. eapply wp_kwe_deref; [done|]. rewrite Hx. by apply wp_ret.
Qed.

(** C8: the three orders of a wait and the signal meant for it.  On a condition variable
    that nobody waits for and that no other call uses in between, whose words are not
    balanced, let a thread wait with sequence [cgen], in the window of the queue, and a signal
    be sent up to [cgen].  If
    the thread has suspended itself before the signal, the signal wakes it, its continuation
    returns 0, and the signaller gets the update of the S word; if the signal comes first it
    is preposted, the signaller gets the P bit, and the thread takes the prepost instead of
    sleeping, frees it and gets the update.  In both cases the queue ends up empty, exactly
    one waiter is accounted for in the S word, and balanced words are cleared.  If the signal
    comes after the thread has asserted its wait and before it has suspended itself, the
    queue and the signaller see the same as in the first case, but the thread is suspended
    for good. *)
Theorem cv_signal_wait_orders b cgen cugen csgen cur s :
  let k1 := UPDATE_CVKWQ cgen cugen csgen (kwq s) in
  cv_inv b s -> wq_held s = false -> idle cur s -> waiting s !! cur = None ->
  kwel KSYN_QUEUE_WRITE s = [] -> in_window b cgen ->
  is_seqlower cgen (u32 (Z.land cugen PTHRW_COUNT_MASK + PTHRW_INC)) = false ->
  balanced k1 = false -> 0 <= kw_sword k1 < 2 ^ 32 ->
  wp (r1 <- cvwait_locked quiet cur cgen cugen csgen ;;
      bl <- ksyn_block cur ;;
      r2 <- cvsignal_locked quiet cgen cugen csgen false None ;;
      r3 <- psynch_cvcontinue quiet cur THREAD_AWAKENED ;;
      ret (r1, bl, r2, r3))
     (fun r s' => r = (Asleep, Resumable, settled_bits k1, Done 0 (Some 0)) /\
                  rested (words (settled k1)) s' /\ ~ asleep s' cur) s /\
  wp (r1 <- cvsignal_locked quiet cgen cugen csgen false None ;;
      r2 <- cvwait_locked quiet cur cgen cugen csgen ;;
      ret (r1, r2))
     (fun r s' => r = (PTH_RWS_CV_PBIT, Done 0 (Some (settled_bits k1))) /\
                  rested (words (settled k1)) s' /\ ~ asleep s' cur) s /\
  wp (r1 <- cvwait_locked quiet cur cgen cugen csgen ;;
      r2 <- cvsignal_locked quiet cgen cugen csgen false None ;;
      bl <- ksyn_block cur ;;
      ret (r1, r2, bl))
     (fun r s' => r = (Asleep, settled_bits k1, Stranded) /\
                  rested (words (settled k1)) s' /\ ~ asleep s' cur) s.
Proof.
  intros k1 I Hh Hi Hna E Hw Hlow Hb Hr. split_and!.
  - apply wp_bind. eapply wait_then_signal; [done..|]. intros s1 Hs1 Hd.
    apply wp_bind, wp_ksyn_block. rewrite bool_decide_true by done. apply wp_bind.
    eapply wp_mono; [exact Hd|]. intros r2 s2 (-> & H2 & Ha & Hc). apply wp_bind.
    eapply wp_mono; [exact Hc|]. intros r3 s3 [-> ->]. by apply wp_ret.
  - apply wp_bind. eapply (cvsignal_preposts b); try done.
    intros s1 n x I1 Hh1 E1 Ex Hst Hlq Hc Hwd Hwt1.
    assert (words (UPDATE_CVKWQ cgen cugen csgen (kwq s1)) = words k1) as Hw1.
    { transitivity (words (UPDATE_CVKWQ cgen cugen csgen k1)); [by apply UPDATE_CVKWQ_words|].
      unfold k1. by rewrite UPDATE_CVKWQ_idem. }
    destruct (settled_words _ _ Hw1) as [Hsw Hsb].
    apply wp_bind. eapply (cvwait_takes_prepost b); try done.
    intros s2 H2 Hwt _. apply wp_ret. rewrite Hsb, <- Hsw. split_and!; try done.
    unfold asleep. by rewrite Hwt, Hwt1, Hna.
  - apply wp_bind. eapply wait_then_signal; [done..|]. intros s1 _ Hd. apply wp_bind.
    eapply wp_mono; [exact Hd|]. intros r2 s2 (-> & H2 & Ha & _).
    apply wp_bind, wp_ksyn_block. rewrite bool_decide_false by done. by apply wp_ret.
Qed.

(** ** Concrete runs *)

Definition fresh_cv : lst := fresh KSYN_WQTYPE_CVAR 3.
Definition run_to {A} (m : MQ A) (s : lst) : lst :=
  match m s with Ret _ s' => s' | _ => s end.
(** Thread 1 waits with sequence 1 (L = 0x100, U = 0, S = 0). *)
Definition one_sleeper : lst := run_to (cvwait_locked quiet 1 0x100 0 0) fresh_cv.

Lemma fresh_cv_inv : cv_inv 0 fresh_cv.
Proof.
  split; [|done]. split_and!; [apply fresh_roomy| |done].
  constructor; cbn; try done; [set_solver|constructor].
Qed.
Lemma fresh_cv_idle t : (t < 3)%nat -> idle t fresh_cv.
Proof. intros Ht. exists kwe_zero. do 3 (destruct t; [done|]). lia. Qed.
Lemma one_sleeper_inv : cv_inv 0 one_sleeper /\ kwel KSYN_QUEUE_WRITE one_sleeper = [KThread 1].
Proof.
  refine (wp_result (cvwait_locked quiet 1 0x100 0 0)
    (fun r s' => cv_inv 0 s' /\ kwel KSYN_QUEUE_WRITE s' = [KThread 1]) fresh_cv Asleep one_sleeper _ _);
    [|vm_compute; reflexivity].
  apply (cvwait_sleeps 0 0x100 0 0 1); [done|apply fresh_cv_inv|done|apply fresh_cv_idle; lia|done|].
  by intros.
Qed.

(** Thread 2 comes with sequence 2 and goes behind thread 1. *)
Definition staged_2 : ksyn_waitq_element :=
  kwe_zero <| kwe_state := KWE_THREAD_INWAIT |> <| kwe_thread := Some 2%nat |> <| kwe_lockseq := 0x200 |>.
Definition second_comes : lst := staged (KThread 2) staged_2 one_sleeper.
Lemma seqfit_insert_ordered_witness :
  wp (ksyn_queue_insert KSYN_QUEUE_WRITE (KThread 2) 0x200 SEQFIT) (fun res s' =>
    (res = EBUSY /\ s' = second_comes /\
       (ksynq_firstnum (getq KSYN_QUEUE_WRITE (kwq second_comes)) = 0x200 \/ ksynq_lastnum (getq KSYN_QUEUE_WRITE (kwq second_comes)) = 0x200)) \/
    (res = 0 /\ (exists l1 l2, split_at 0 second_comes (ahead 0 0x200) (kwel KSYN_QUEUE_WRITE second_comes) l1 l2 /\
       kwel KSYN_QUEUE_WRITE s' = l1 ++ KThread 2 :: l2) /\
     sorted 0 KSYN_QUEUE_WRITE s' /\ wfd (- if is_fake (KThread 2) then 1 else 0) s')) second_comes.
Proof.
  destruct (proj1 (proj1 one_sleeper_inv)) as (W & So & _).
  assert (off_queue (KThread 2) one_sleeper) as Hoff by (exists kwe_zero; split; [vm_compute; reflexivity|reflexivity]).
  apply (seqfit_insert_ordered 0 KSYN_QUEUE_WRITE (KThread 2) staged_2 0x200 second_comes);
    [by apply wfd_staged|by apply (sorted_staged 0)| |reflexivity|reflexivity|vm_compute; reflexivity].
  split; [apply lookup_insert_eq|]. split; [reflexivity|]. split_and!; [vm_compute; reflexivity|discriminate|reflexivity..].
Defined.

Lemma broadcast_wakes_all_witness :
  let s := one_sleeper <| wq_held := true |> in
  wp (ksyn_handle_cvbroad quiet 0x100) (fun r s' =>
    cv_ok 0 s' /\ wq_held s' = true /\ swept 0 0x100 s' /\
    (quiet = quiet -> broadcasted 0 0x100 s r s')) s.
Proof.
  apply (broadcast_wakes_all 0 quiet 0x100);
    [apply _|eapply cv_same; [apply same_held|apply one_sleeper_inv]|reflexivity|reflexivity|reflexivity].
Defined.
Lemma cvsignal_returns_witness :
  wp (cvsignal_locked quiet 0x100 0 0 false (Some 1%nat)) (fun _ s' => cv_ok 0 s' /\ wq_held s' = false) one_sleeper.
Proof.
  apply (cvsignal_returns 0 quiet 0x100 0 0 false (Some 1%nat) one_sleeper);
    [apply _|apply one_sleeper_inv|vm_compute; reflexivity|reflexivity|].
  intros t [= <-]. eexists. vm_compute. reflexivity.
Defined.
Lemma cvwait_returns_witness :
  wp (cvwait_locked quiet 2 0x200 0 0) (fun r s' =>
    cv_ok 0 s' /\ wq_held s' = false /\
    match r with
    | Asleep => KThread 2 ∈ kwel KSYN_QUEUE_WRITE s' /\ asleep s' 2
    | Done error v => error = 0 /\ is_Some v \/ error = EBUSY /\ v = None
    end) one_sleeper.
Proof.
  apply (cvwait_returns 0 quiet 2 0x200 0 0 one_sleeper);
    [apply _|apply one_sleeper_inv|vm_compute; reflexivity|exists kwe_zero; vm_compute; done|reflexivity].
Defined.
Lemma cvcontinue_returns_witness :
  wp (psynch_cvcontinue quiet 1 THREAD_TIMED_OUT) (fun r s' =>
    cv_inv 0 s' /\ wq_held s' = false /\ off_queue (KThread 1) s' /\
    (forall x, kwes one_sleeper !! KThread 1 = Some x ->
       has (kwe_psynchretval x) PTH_RWL_MTX_WAIT = true -> exists v, r = Done 0 v)) one_sleeper.
Proof.
  apply (cvcontinue_returns 0 quiet 1 THREAD_TIMED_OUT one_sleeper);
    [apply _|apply one_sleeper_inv|vm_compute; reflexivity|].
  change (parked (KThread 1) KSYN_QUEUE_WRITE one_sleeper).
  eexists. split; [vm_compute; reflexivity|]. right. rewrite (proj2 one_sleeper_inv). set_solver.
Defined.
Lemma cv_signal_wait_orders_witness :
  wp (r1 <- cvwait_locked quiet 1 0x100 0 0 ;;
      bl <- ksyn_block 1 ;;
      r2 <- cvsignal_locked quiet 0x100 0 0 false None ;;
      r3 <- psynch_cvcontinue quiet 1 THREAD_AWAKENED ;;
      ret (r1, bl, r2, r3))
     (fun r s' => r = (Asleep, Resumable, settled_bits (UPDATE_CVKWQ 0x100 0 0 (kwq fresh_cv)), Done 0 (Some 0)) /\
        rested (words (settled (UPDATE_CVKWQ 0x100 0 0 (kwq fresh_cv)))) s' /\ ~ asleep s' 1) fresh_cv.
Proof.
  refine (proj1 (cv_signal_wait_orders 0 0x100 0 0 1 fresh_cv _ _ _ _ _ _ _ _ _));
    [apply fresh_cv_inv|reflexivity|apply fresh_cv_idle; lia|reflexivity..|vm_compute; split; [discriminate|reflexivity]].
Defined.
End KsynCvOps.
