(* ===== verification/KsynRw.v ===== *)
(** Psynch read-write locks: [kwq_handle_unlock] grants the lock to the right
    waiters, and [__psynch_rw_lock] and [_psynch_rw_unlock] always return. *)
From stdpp Require Import sorting.
From S2P Require Import Prelude SeqArith Ksyn KsynQueue KsynSync KsynProps.

Module KsynRw.
Import Ksyn KsynQueue KsynSync KsynProps.

(** A read-write lock's queues: both ordered, and only threads wait on them. *)
Definition rw_ok (b : Z) (s : lst) : Prop :=
  wf s /\ sorted b KSYN_QUEUE_READ s /\ sorted b KSYN_QUEUE_WRITE s /\
  forall e, e ∈ queued s -> is_fake e = false.
(** ... with room for one more waiter. *)
Definition rw_inv (b : Z) (s : lst) : Prop := rw_ok b s /\ Z.of_nat (length (queued s)) + 1 < 2 ^ 32.

Lemma rw_ok_same b s s' : same_queues s s' -> rw_ok b s -> rw_ok b s'.
Proof.
  intros Q (W & S1 & S2 & F). split_and!; [by eapply wfd_same|by eapply sorted_same..|].
  by rewrite (same_queued s s').
Qed.
Lemma rw_same b s s' : same_queues s s' -> rw_inv b s -> rw_inv b s'.
Proof. intros Q [O R]. split; [by eapply rw_ok_same|]. by rewrite (same_queued s s'). Qed.
Lemma rw_wf b s : rw_ok b s -> wf s.
Proof. by intros (W & _). Qed.
Lemma rw_sorted b kqi s : rw_ok b s -> sorted b kqi s.
Proof. intros (_ & S1 & S2 & _). by destruct kqi. Qed.
Lemma rw_thread b kqi s e : rw_ok b s -> e ∈ kwel kqi s -> exists t, e = KThread t.
Proof.
  intros (_ & _ & _ & F) He. specialize (F e (kwel_queued _ _ _ He)). destruct e as [t|n]; [by exists t|done].
Qed.
Lemma rw_signalled b kqi t v s :
  rw_ok b s -> KThread t ∈ kwel kqi s -> rw_ok b (signalled kqi t v s).
Proof.
  intros (W & S1 & S2 & F) He. split_and!; [by apply wf_signalled|by eapply sorted_signalled..|].
  intros e. rewrite (signalled_queued 0) by done. intros Hq%elem_of_unlink. auto.
Qed.

(** Signalling the head of a queue. *)
Lemma wp_signal_head b kqi t l v s (Q : Z -> lst -> Prop) :
  rw_ok b s -> kwel kqi s = KThread t :: l ->
  Q (if decide (asleep s t) then KERN_SUCCESS else KERN_NOT_WAITING) (signalled kqi t v s) ->
  wp (ksyn_signal kqi None v) Q s.
Proof.
  intros I E HQ. assert (wp (ksyn_signal kqi (Some (KThread t)) v) Q s) as Hs.
  { eapply wp_signal; [by eapply rw_wf|rewrite E; set_solver|done]. }
  unfold ksyn_signal in *. apply wp_bind_inv in Hs. apply wp_bind, wp_gets. cbv beta in Hs.
  change (wp (gets kwq) _ s) with (wp (bind (ret (KThread t)) (fun e =>
    kwe <- kwe_deref e ;;
    ensure (bool_decide (kwe_state kwe = KWE_THREAD_INWAIT)) "ksyn_signal: panic signaling non-waiting element" ;;;
    ksyn_queue_remove_item kqi e ;;;
    kwe_mod e (fun x => x <| kwe_psynchretval := v |>) ;;;
    ret_ <- psynch_wait_wakeup e (_kwq_use_turnstile (kwq s)) ;;
    ensure ((ret_ =? KERN_SUCCESS) || (ret_ =? KERN_NOT_WAITING)) "ksyn_signal: panic waking up thread" ;;;
    ret ret_)) Q s) in Hs.
  fold (kwel kqi s). rewrite E. exact Hs.
Qed.

(** ** Granting the lock *)

(** The threads of [l1], the head of list [kqi], were signalled with [v]. *)
Record granted (kqi : kwq_queue_type_t) (l1 : list kwe_id) (v : Z) (s s' : lst) : Prop := {
  gr_self : self s' = self s;
  gr_held : wq_held s' = wq_held s;
  gr_kwel : kwel kqi s = l1 ++ kwel kqi s';
  gr_kwel_other kqj : kqj <> kqi -> kwel kqj s' = kwel kqj s;
  gr_told t : KThread t ∈ l1 -> ~ asleep s' t /\ exists x, kwes s' !! KThread t = Some x /\
    kwe_kwqqueue x = None /\ kwe_psynchretval x = v;
  gr_other e : e ∉ l1 -> kwes s' !! e = kwes s !! e;
  gr_asleep t : KThread t ∉ l1 -> asleep s' t <-> asleep s t;
}.
Lemma granted_nil kqi v s : granted kqi [] v s s.
Proof. constructor; try done. set_solver. Qed.
Lemma granted_one b kqi t l v s :
  rw_ok b s -> kwel kqi s = KThread t :: l -> granted kqi [KThread t] v s (signalled kqi t v s).
Proof.
  intros I E. pose proof (rw_wf _ _ I) as W.
  assert (KThread t ∈ kwel kqi s) as He by (rewrite E; set_solver).
  destruct (wf_lookup _ _ _ _ W He) as (x & Ex & _).
  assert (forall u, asleep (signalled kqi t v s) u <-> asleep s u /\ u <> t) as Ha.
  { intros u. unfold asleep, signalled. cbn. case_decide as Hs.
    - destruct (decide (u = t)) as [->|]; [rewrite lookup_delete_eq; naive_solver|].
      rewrite lookup_delete_ne by done. tauto.
    - split; [|tauto]. intros Hu. split; [done|]. congruence. }
  constructor; try done.
  - rewrite (signalled_kwel 0), E, unlink_head by done. done.
  - intros kqj Hne. rewrite (signalled_kwel 0) by done. apply unlink_notin. by eapply kwel_other.
  - intros u Hu%list_elem_of_singleton. simplify_eq. split; [rewrite Ha; naive_solver|].
    rewrite signalled_lookup, decide_True, Ex by done. cbn. by eexists.
  - intros e Hn. rewrite signalled_lookup, decide_False by set_solver. done.
  - intros u Hu. rewrite Ha. assert (u <> t) by (intros ->; set_solver). tauto.
Qed.
Lemma granted_cons kqi e l1 v s s1 s2 :
  e ∉ l1 -> granted kqi [e] v s s1 -> granted kqi l1 v s1 s2 -> granted kqi (e :: l1) v s s2.
Proof.
  intros Hn A B. constructor.
  - rewrite (gr_self _ _ _ _ _ B). apply A.
  - rewrite (gr_held _ _ _ _ _ B). apply A.
  - rewrite (gr_kwel _ _ _ _ _ A), (gr_kwel _ _ _ _ _ B). done.
  - intros kqj Hj. rewrite (gr_kwel_other _ _ _ _ _ B) by done. by apply A.
  - intros t [<-|Ht]%elem_of_cons; [|by apply B].
    destruct (gr_told _ _ _ _ _ A t) as [H1 (x & Ex & Hx)]; [set_solver|].
    rewrite (gr_asleep _ _ _ _ _ B) by done. split; [done|]. exists x. by rewrite (gr_other _ _ _ _ _ B).
  - intros f Hf. rewrite (gr_other _ _ _ _ _ B), (gr_other _ _ _ _ _ A) by set_solver. done.
  - intros t Ht. rewrite (gr_asleep _ _ _ _ _ B), (gr_asleep _ _ _ _ _ A) by set_solver. done.
Qed.
Lemma granted_seq kqi l1 v s s' e : granted kqi l1 v s s' -> e ∉ l1 -> seq_of s' e = seq_of s e.
Proof. intros G He. unfold seq_of. by rewrite (gr_other _ _ _ _ _ G). Qed.

(** Fields of the queue that the queues do not depend on. *)
Definition harmless (f : ksyn_wait_queue -> ksyn_wait_queue) : Prop :=
  forall k, kw_read (f k) = kw_read k /\ kw_write (f k) = kw_write k /\
    kw_inqueue (f k) = kw_inqueue k /\ kw_fakecount (f k) = kw_fakecount k.
Lemma harmless_same f s : harmless f -> same_queues s (s <| kwq ::= f |>).
Proof. intros Hf. destruct (Hf (kwq s)) as (? & ? & ? & ?). by apply same_kw_mod. Qed.
Lemma harmless_kwel f kqi s : harmless f -> kwel kqi (s <| kwq ::= f |>) = kwel kqi s.
Proof. intros Hf. apply same_kwel. by apply harmless_same. Qed.
Lemma granted_mod_r kqi l v f s s' : harmless f -> granted kqi l v s s' -> granted kqi l v s (s' <| kwq ::= f |>).
Proof.
  intros Hf []. constructor; try done; rewrite ?harmless_kwel by done; [done|].
  intros kqj Hne. rewrite harmless_kwel by done. auto.
Qed.
Lemma granted_mod_l kqi l v f s s' : harmless f -> granted kqi l v (s <| kwq ::= f |>) s' -> granted kqi l v s s'.
Proof.
  intros Hf []. rewrite harmless_kwel in * by done. constructor; try done.
  intros kqj Hne. specialize (gr_kwel_other0 kqj Hne). by rewrite harmless_kwel in gr_kwel_other0.
Qed.

(** Threads of [l] that were no longer asleep (interrupted, not yet run). *)
Fixpoint lost (s : lst) (l : list kwe_id) : Z :=
  match l with
  | [] => 0
  | KThread t :: l => (if decide (asleep s t) then 0 else 1) + lost s l
  | KZone _ :: l => lost s l
  end.
Lemma lost_ext s s' l :
  (forall t, KThread t ∈ l -> asleep s' t <-> asleep s t) -> lost s' l = lost s l.
Proof.
  induction l as [|[t|n] l IH]; intros H; cbn; [done|..]; rewrite IH by (intros; apply H; set_solver); [|done].
  pose proof (H t ltac:(set_solver)). repeat case_decide; tauto || done.
Qed.

(** Elements below [limit] come first. *)
Definition below (b limit : Z) (s : lst) (l1 : list kwe_id) : Prop := forall e, e ∈ l1 -> key b s e < ahead b limit.

Lemma rw_first b kqi s e l :
  rw_ok b s -> kwel kqi s = e :: l -> ksynq_firstnum (getq kqi (kwq s)) = seq_of s e.
Proof. intros I E. apply (so_first _ _ _ (rw_sorted _ _ _ I)). by rewrite E. Qed.
Lemma rw_count b kqi s : rw_ok b s -> ksynq_count (getq kqi (kwq s)) = Z.of_nat (length (kwel kqi s)).
Proof. intros I. apply (wf_count _ _ (rw_wf _ _ I)). Qed.
Lemma rw_lower b kqi s e upto :
  rw_ok b s -> in_window b upto -> e ∈ kwel kqi s ->
  is_seqlower (seq_of s e) upto = (key b s e <? ahead b upto).
Proof. intros I Hw He. apply window_lower; [|done]. by apply (so_window _ kqi _ (rw_sorted _ _ _ I)). Qed.
Lemma rw_higher b kqi s e upto :
  rw_ok b s -> in_window b upto -> e ∈ kwel kqi s ->
  is_seqhigher (seq_of s e) upto = (ahead b upto <? key b s e).
Proof. intros I Hw He. rewrite is_seqhigher_lower. apply window_lower; [done|]. by apply (so_window _ kqi _ (rw_sorted _ _ _ I)). Qed.

(** [ksyn_wakeupreaders]: all readers, or those below the limit. *)
Lemma wp_wakeupreaders_loop b limit all v failed fuel s (Q : Z -> lst -> Prop) :
  rw_ok b s -> (all = false -> in_window b limit) -> (length (kwel KSYN_QUEUE_READ s) < fuel)%nat ->
  (forall s' l1, rw_ok b s' -> granted KSYN_QUEUE_READ l1 v s s' ->
     (if all then kwel KSYN_QUEUE_READ s' = []
      else below b limit s l1 /\ forall e, e ∈ kwel KSYN_QUEUE_READ s' -> ahead b limit <= key b s' e) ->
     Q (failed + lost s l1) s') ->
  wp (wakeupreaders_loop limit all v failed fuel) Q s.
Proof.
  intros I Hw. revert failed s I Q. induction fuel as [|fuel IH]; intros failed s I Q Hfu HQ; [lia|].
  cbn [wakeupreaders_loop]. apply wp_bind, wp_gets.
  pose proof (rw_count b KSYN_QUEUE_READ s I) as Hc. cbn [getq] in Hc.
  destruct (kwel KSYN_QUEUE_READ s) as [|e l] eqn:E.
  { rewrite Hc. cbn [length Z.of_nat Z.eqb negb andb]. apply wp_ret.
    replace failed with (failed + lost s []) by (cbn; lia). apply HQ; [done|apply granted_nil|].
    destruct all; [done|]. split; [by intros f Hf; set_solver|]. rewrite E. set_solver. }
  assert (e ∈ kwel KSYN_QUEUE_READ s) as He by (rewrite E; set_solver).
  destruct (rw_thread _ _ _ _ I He) as [t ->].
  pose proof (rw_first b KSYN_QUEUE_READ s _ l I E) as Hf. cbn [getq] in Hf.
  rewrite Hc, Hf. assert (Z.of_nat (length (KThread t :: l)) =? 0 = false) as -> by (apply Z.eqb_neq; cbn; lia).
  cbn [negb andb]. destruct (all || is_seqlower (seq_of s (KThread t)) limit) eqn:Ego.
  2:{ apply orb_false_iff in Ego as [-> Hlo]. rewrite (rw_lower b KSYN_QUEUE_READ) in Hlo by auto. apply Z.ltb_ge in Hlo.
      apply wp_ret. replace failed with (failed + lost s []) by (cbn; lia). apply HQ; [done|apply granted_nil|].
      split; [by intros f Hx; set_solver|]. intros f Hx.
      assert (key b s (KThread t) <= key b s f); [|lia].
      eapply key_ge_head; [by apply rw_sorted|by rewrite E|done]. }
  apply wp_bind. eapply wp_signal_head; [done|done|].
  pose proof (granted_one b KSYN_QUEUE_READ t l v s I E) as G1.
  pose proof (rw_signalled b KSYN_QUEUE_READ t v s I He) as I1. set (s1 := signalled _ _ _ s) in *.
  assert (kwel KSYN_QUEUE_READ s1 = l) as E1 by (pose proof (gr_kwel _ _ _ _ _ G1) as Hk; rewrite E in Hk; by injection Hk).
  pose proof (wf_nodup_q _ KSYN_QUEUE_READ _ (rw_wf _ _ I)) as Nd. rewrite E in Nd. apply NoDup_cons in Nd as [Hn _].
  apply IH; [done|rewrite E1; cbn in Hfu; lia|].
  intros s' l1 I' G' Hl. pose proof (gr_kwel _ _ _ _ _ G') as Hk. rewrite E1 in Hk.
  assert (KThread t ∉ l1) as Hnt by (intros Hin; apply Hn; rewrite Hk; set_solver).
  assert (failed + lost s (KThread t :: l1) =
    (if (if decide (asleep s t) then KERN_SUCCESS else KERN_NOT_WAITING) =? KERN_NOT_WAITING then failed + 1 else failed) + lost s1 l1) as <-.
  { cbn [lost]. rewrite (lost_ext s s1 l1).
    - case_decide; cbn; lia.
    - intros u Hu. apply (gr_asleep _ _ _ _ _ G1). intros Eu%list_elem_of_singleton. congruence. }
  apply HQ; [done|by eapply granted_cons|]. destruct all; [done|]. destruct Hl as [Hlow Hhi]. split; [|done].
  intros f [->|Hfl]%elem_of_cons.
  - cbn [orb] in Ego. rewrite (rw_lower b KSYN_QUEUE_READ) in Ego by auto. by apply Z.ltb_lt.
  - specialize (Hlow f Hfl). unfold key in *. rewrite (granted_seq _ _ _ _ _ f G1) in Hlow; [done|].
    intros ->%list_elem_of_singleton. done.
Qed.

(** ** Counting *)

Lemma seq_ne_key b s e upto : key b s e <> ahead b upto -> upto =? Z.land (seq_of s e) PTHRW_COUNT_MASK = false.
Proof.
  intros Hk. apply Z.eqb_neq. intros E. apply Hk. unfold key. apply window_cnt. rewrite E. by rewrite cnt_mask.
Qed.
Lemma wp_count_tolowest_in b kqi upto s l (Q : Z -> lst -> Prop) i :
  rw_ok b s -> (forall e, e ∈ l -> e ∈ kwel kqi s) ->
  (forall c, (forall l1 l2, l = l1 ++ l2 -> in_window b upto -> below b upto s l1 ->
     (forall e, e ∈ l2 -> ahead b upto < key b s e) -> 0 <= i -> i + Z.of_nat (length l1) < 2 ^ 32 ->
     c = i + Z.of_nat (length l1)) -> Q c s) ->
  wp (count_tolowest_in upto i l) Q s.
Proof.
  intros I. revert i. induction l as [|e l IH]; intros i Hl HQ; cbn [count_tolowest_in].
  { apply wp_ret, HQ. intros l1 l2 El _ _ _ _ _. symmetry in El. apply app_nil in El as [-> ->]. cbn. lia. }
  assert (e ∈ kwel kqi s) as He by (apply Hl; set_solver).
  destruct (wf_lookup _ _ _ _ (rw_wf _ _ I) He) as (x & Ex & _). apply wp_bind. eapply wp_kwe_deref; [done|].
  rewrite <- (seq_of_lookup _ _ _ Ex). rewrite is_seqhigher_lower, is_seqlower_mask_r, <- is_seqhigher_lower.
  destruct (is_seqhigher (seq_of s e) upto) eqn:Eh.
  { apply wp_ret, HQ. intros [|f l1] l2 El Hw Hb _ _ _; [cbn; lia|]. exfalso. injection El as -> ->.
    rewrite (rw_higher b kqi) in Eh by done. specialize (Hb f ltac:(set_solver)). apply Z.ltb_lt in Eh. lia. }
  destruct (upto =? _) eqn:Eq.
  { apply wp_ret, HQ. intros l1 l2 El Hw Hb Ha _ _. exfalso.
    assert (key b s e <> ahead b upto) as Hk; [|by rewrite (seq_ne_key _ _ _ _ Hk) in Eq].
    destruct l1 as [|f l1]; [rewrite El in *; specialize (Ha e ltac:(set_solver)); lia|].
    injection El as -> ->. specialize (Hb f ltac:(set_solver)). lia. }
  apply IH; [set_solver|]. intros c Hc. apply HQ. intros [|f l1] l2 El Hw Hb Ha Hi Hr.
  { exfalso. cbn in El. rewrite <- El in Ha. specialize (Ha e ltac:(set_solver)).
    rewrite (rw_higher b kqi) in Eh by done. apply Z.ltb_ge in Eh. lia. }
  injection El as -> ->. cbn [length] in *. specialize (Hc l1 l2 eq_refl Hw).
  rewrite u32_id in Hc by lia. rewrite Hc; [lia|..]; [|done|lia|lia]. intros g Hg. apply Hb. set_solver.
Qed.
Lemma wp_count_tolowest b kqi upto s (Q : Z -> lst -> Prop) :
  rw_ok b s ->
  (forall c, (kwel kqi s = [] -> c = 0) ->
     (forall l1 l2, kwel kqi s = l1 ++ l2 -> in_window b upto -> below b upto s l1 ->
       (forall e, e ∈ l2 -> ahead b upto < key b s e) -> c = Z.of_nat (length l1)) -> Q c s) ->
  wp (ksyn_queue_count_tolowest kqi upto) Q s.
Proof.
  intros I HQ. unfold ksyn_queue_count_tolowest. wp_go. rewrite (rw_count b) by done.
  pose proof (kwel_bound _ kqi _ (rw_wf _ _ I)) as Hbd. fold (kwel kqi s).
  destruct (kwel kqi s) as [|e l] eqn:E.
  { cbn. apply wp_ret, HQ; [done|]. intros l1 l2 El _ _ _. symmetry in El. apply app_nil in El as [-> _]. done. }
  assert (e ∈ kwel kqi s) as He by (rewrite E; set_solver). pose proof (rw_first b kqi s _ _ I E) as Hf.
  assert (Z.of_nat (length (e :: l)) =? 0 = false) as -> by (apply Z.eqb_neq; cbn; lia). rewrite Hf. cbn [orb].
  destruct (is_seqhigher _ _) eqn:Eh.
  { apply wp_ret, HQ; [done|]. intros [|f l1] l2 El Hw Hb _; [done|]. exfalso. injection El as -> ->.
    rewrite (rw_higher b kqi) in Eh by done. specialize (Hb f ltac:(set_solver)). apply Z.ltb_lt in Eh. lia. }
  destruct (upto =? _) eqn:Eq.
  { apply wp_ret, HQ; [done|]. intros l1 l2 El Hw Hb Ha. exfalso.
    assert (key b s e <> ahead b upto) as Hk.
    { destruct l1 as [|f l1]; [cbn in El; rewrite <- El in Ha; specialize (Ha e ltac:(set_solver)); lia|].
      injection El as -> ->. specialize (Hb f ltac:(set_solver)). lia. }
    apply Hk. apply Z.eqb_eq in Eq. unfold key. by rewrite <- Eq. }
  apply (wp_count_tolowest_in b kqi); [done|by rewrite E|].
  intros c Hc. apply HQ; [done|]. intros l1 l2 El Hw Hb Ha. rewrite (Hc l1 l2); try done; try lia.
  rewrite El, length_app in Hbd. lia.
Qed.
Lemma wp_find_seq_till b upto n s (Q : bool * Z -> lst -> Prop) :
  rw_ok b s ->
  (forall found c, (found = true \/ c <> 0 -> queued s <> []) -> Q (found, c) s) ->
  wp (find_seq_till upto n) Q s.
Proof.
  intros I HQ. unfold find_seq_till. apply wp_bind. eapply (wp_count_tolowest b); [done|]. intros c1 H1 _.
  assert (forall c, (queued s = [] -> c = 0) -> Q (if c =? 0 then false else c >=? n, c) s) as Hend.
  { intros c Hc. apply HQ. intros Hor Eq. specialize (Hc Eq). subst c. by destruct Hor. }
  assert (queued s = [] -> kwel KSYN_QUEUE_READ s = [] /\ kwel KSYN_QUEUE_WRITE s = []) as Hq
    by (unfold queued; intros; by apply app_nil).
  apply wp_bind. destruct (c1 >=? n).
  - apply wp_ret, wp_ret, Hend. intros Eq. by apply H1, Hq.
  - apply wp_bind. eapply (wp_count_tolowest b); [done|]. intros c2 H2 _. apply wp_ret, wp_ret, Hend.
    intros Eq. rewrite H1, H2 by (by apply Hq). done.
Qed.

(** ** [kwq_handle_unlock] *)

Ltac harm := intros ?; repeat split.

(** The word readers are granted: one count each, and the W and K bits if a
    writer waits. *)
Definition reader_bits (writers : bool) (n : Z) : Z :=
  u32 ((if writers then Z.lor PTH_RWL_WBIT PTH_RWL_KBIT else 0) + u32 (Z.shiftl n PTHRW_COUNT_SHIFT)).
Lemma reader_bits_w n : has (reader_bits true n) PTH_RWL_WBIT = true.
Proof.
  unfold has, reader_bits. change (Z.lor PTH_RWL_WBIT PTH_RWL_KBIT) with 5. change PTH_RWL_WBIT with 4.
  assert (forall x, Z.land x 4 = Z.land (x mod 8) 4) as H.
  { intros x. change 8 with (2 ^ 3). rewrite <- Z.land_ones, <- Z.land_assoc by lia. done. }
  rewrite H. unfold u32. rewrite Z.shiftl_mul_pow2 by (unfold PTHRW_COUNT_SHIFT; lia). change (2 ^ PTHRW_COUNT_SHIFT) with 256.
  assert (forall y, (y mod 2 ^ 32) mod 8 = y mod 8) as H1.
  { intros y. apply Z.mod_mod_divide. by exists (2 ^ 29). }
  rewrite H1, Zplus_mod, H1. replace (n * 256) with (n * 32 * 8) by lia. rewrite Z_mod_mult. done.
Qed.

(** What happened to state [s0] before the threads of [l1] were woken: fields of
    the queue, and the caller's own element if it was granted the lock too. *)
Definition tuned (own : bool) (cur : nat) (s s0 : lst) : Prop :=
  same_queues s s0 /\ self s0 = self s /\ wq_held s0 = wq_held s /\ waiting s0 = waiting s /\
  (forall e, (own = true -> e <> KThread cur) -> kwes s0 !! e = kwes s !! e).
Lemma tuned_mod own cur f s s0 : harmless f -> tuned own cur s s0 -> tuned own cur s (s0 <| kwq ::= f |>).
Proof.
  intros Hf (Q & H1 & H2 & H3 & H4). split_and!; try done. etransitivity; [exact Q|by apply harmless_same].
Qed.
Lemma tuned_refl own cur s : tuned own cur s s.
Proof. split_and!; done. Qed.
Lemma tuned_told cur x v s s0 :
  tuned true cur s s0 -> kwes s0 !! KThread cur = Some x ->
  tuned true cur s (s0 <| kwes := <[KThread cur := x <| kwe_psynchretval := v |>]> (kwes s0) |>).
Proof.
  intros (Q & H1 & H2 & H3 & H4) Ex. split_and!; try done.
  - etransitivity; [exact Q|]. rewrite <- (alter_insert_lookup (fun x => x <| kwe_psynchretval := v |>)) by done.
    apply same_kwe_mod. by intros.
  - intros e He. cbn. rewrite lookup_insert_ne; [auto|]. intros <-. by apply He.
Qed.
Lemma tuned_lookup own cur s s0 e : tuned own cur s s0 -> is_Some (kwes s !! e) -> is_Some (kwes s0 !! e).
Proof.
  intros (Q & _) [x Ex]. pose proof (sq_kwes _ _ Q e) as H. rewrite Ex in H. inversion H; eauto.
Qed.
Lemma tuned_weaken cur s s0 : tuned false cur s s0 -> tuned true cur s s0.
Proof. intros (Q & H1 & H2 & H3 & H4). split_and!; try done. intros e _. by apply H4. Qed.

(** Waking the readers that were counted: the queue of readers is granted up to
    the limit, and the count is the number of readers woken if it was taken on
    the queue as it is. *)
Lemma wp_grant_counted b cur rw_wc (writers : bool) limit n (own : bool) s s0 (Q : Z * bool -> lst -> Prop) :
  let limitrd := if writers then limit else 0 in
  rw_ok b s -> is_Some (kwes s !! KThread cur) -> (writers = true -> in_window b limit) ->
  (writers = false -> kwel KSYN_QUEUE_WRITE s = []) -> tuned false cur s s0 ->
  (forall s2 s' l1, rw_ok b s' -> tuned own cur s s2 ->
     kwel KSYN_QUEUE_READ s = l1 ++ kwel KSYN_QUEUE_READ s' ->
     granted KSYN_QUEUE_READ l1 (reader_bits writers n) s2 s' ->
     (if writers then below b limit s l1 /\ forall e, e ∈ kwel KSYN_QUEUE_READ s' -> ahead b limit <= key b s e
      else kwel KSYN_QUEUE_READ s' = []) ->
     Q (reader_bits writers n, negb own) s') ->
  wp (grant_counted_readers cur rw_wc writers limitrd n own) Q s0.
Proof.
  intros limitrd I Hcur Hwin Hnw T0 HQ. unfold grant_counted_readers. fold (reader_bits writers n).
  apply wp_bind, wp_kw_mod. apply wp_bind. set (s1 := s0 <| kwq ::= _ |>) in *.
  assert (tuned false cur s s1) as T1 by (apply tuned_mod; [harm|done]).
  assert (wp (when own (kwe_mod (KThread cur) (fun x => x <| kwe_psynchretval := reader_bits writers n |>)))
    (fun _ s2 => tuned own cur s s2) s1) as Hown.
  { destruct own; [|by apply wp_when_false]. apply wp_when_true.
    destruct (tuned_lookup _ _ _ _ _ T1 Hcur) as [x Ex]. eapply wp_kwe_mod; [done|].
    apply tuned_told; [by apply tuned_weaken|done]. }
  eapply wp_mono; [exact Hown|]. cbv beta. intros _ s2 T2. pose proof T2 as (Q2 & Hs2 & Hh2 & _).
  assert (rw_ok b s2) as I2 by (by eapply rw_ok_same).
  apply wp_bind. unfold ksyn_wakeupreaders. wp_go.
  eapply (wp_wakeupreaders_loop b); [done|by intros ->%negb_false_iff; unfold limitrd; auto|unfold kwel; cbn; lia|].
  intros s3 l1 I3 G3 Hl. apply wp_bind.
  assert (kwel KSYN_QUEUE_READ s = l1 ++ kwel KSYN_QUEUE_READ s3) as Ek.
  { rewrite <- (same_kwel _ _ _ Q2). apply G3. }
  assert (forall e, key b s2 e = key b s e) as Hkey by (intros; unfold key; by rewrite (same_seq_of _ _ _ Q2)).
  assert (forall e, e ∈ kwel KSYN_QUEUE_READ s3 -> key b s3 e = key b s e) as Hkey3.
  { intros e He. unfold key. rewrite (granted_seq _ _ _ _ _ _ G3); [by rewrite (same_seq_of _ _ _ Q2)|].
    intros Hin. pose proof (wf_nodup_q _ KSYN_QUEUE_READ _ (rw_wf _ _ I)) as Nd. rewrite Ek in Nd.
    apply NoDup_app in Nd as (_ & Nd & _). by apply (Nd e). }
  assert (if writers then below b limit s l1 /\ forall e, e ∈ kwel KSYN_QUEUE_READ s3 -> ahead b limit <= key b s e
          else kwel KSYN_QUEUE_READ s3 = []) as Hl3.
  { unfold limitrd in Hl. destruct writers; cbn [negb] in Hl; [|done]. destruct Hl as [Hl1 Hl2]. split.
    - intros e He. rewrite <- Hkey. by apply Hl1.
    - intros e He. rewrite <- (Hkey3 e He). by apply Hl2. }
  assert (forall s4, rw_ok b s4 -> granted KSYN_QUEUE_READ l1 (reader_bits writers n) s2 s4 ->
    kwel KSYN_QUEUE_READ s4 = kwel KSYN_QUEUE_READ s3 ->
    wp (k <- gets kwq ;;
      ensure ((ksynq_count (kw_write k) =? 0) || has (reader_bits writers n) PTH_RWL_WBIT)
        "kwq_handle_unlock: writer pending but no writebit set" ;;;
      ret (reader_bits writers n, negb own)) Q s4) as Hend.
  { intros s4 I4 G4 E4. wp_go. apply wp_ensure.
    - destruct writers; [by rewrite reader_bits_w, orb_true_r|]. change (kw_write (kwq s4)) with (getq KSYN_QUEUE_WRITE (kwq s4)).
      rewrite (rw_count b) by done. rewrite (gr_kwel_other _ _ _ _ _ G4) by done.
      by rewrite (same_kwel _ _ _ Q2), Hnw.
    - apply wp_ret. eapply (HQ s2 s4 l1); [done|done|by rewrite E4|done|by rewrite E4]. }
  destruct (negb (0 + lost s2 l1 =? 0)); [apply wp_when_true, wp_kw_mod|apply wp_when_false; by apply Hend].
  apply Hend; [eapply rw_ok_same; [apply harmless_same; harm|done]|apply granted_mod_r; [harm|done]|].
  apply harmless_kwel. harm.
Qed.

Lemma wp_grant_readers b cur rw_wc flags premgen rwtype limit s (Q : Z * bool -> lst -> Prop) :
  let writers := has rwtype PTH_RWSHFT_TYPE_WRITE in
  rw_ok b s -> is_Some (kwes s !! KThread cur) -> (writers = true -> in_window b limit) ->
  (writers = false -> kwel KSYN_QUEUE_WRITE s = []) ->
  (forall s0 s' l1 n own, rw_ok b s' -> tuned own cur s s0 ->
     (has flags KW_UNLOCK_PREPOST_READLOCK = false -> own = false /\
       ((forall e, e ∈ kwel KSYN_QUEUE_READ s -> writers = true -> key b s e <> ahead b limit) -> n = Z.of_nat (length l1))) ->
     granted KSYN_QUEUE_READ l1 (reader_bits writers n) s0 s' ->
     (if writers then below b limit s l1 /\ forall e, e ∈ kwel KSYN_QUEUE_READ s' -> ahead b limit <= key b s e
      else kwel KSYN_QUEUE_READ s' = []) ->
     Q (reader_bits writers n, negb own) s') ->
  wp (unlock_grant_readers cur rw_wc flags premgen rwtype limit) Q s.
Proof.
  intros writers I Hcur Hwin Hnw HQ. unfold unlock_grant_readers. fold writers.
  set (limitrd := if writers then limit else 0). set (pr := has flags KW_UNLOCK_PREPOST_READLOCK) in *.
  apply wp_bind.
  assert (forall n own s0, tuned false cur s s0 ->
    (pr = false -> own = false /\ (forall l1 l2, kwel KSYN_QUEUE_READ s = l1 ++ l2 ->
       (if writers then below b limit s l1 /\ (forall e, e ∈ l2 -> ahead b limit < key b s e) else l2 = []) ->
       n = Z.of_nat (length l1))) ->
    wp (grant_counted_readers cur rw_wc writers limitrd n own) Q s0) as Hrest.
  { intros n own s0 T0 Hn. eapply (wp_grant_counted b); [done..|]. intros s2 s' l1 I' T2 Ek G Hl.
    eapply (HQ s2 s' l1); [done|done| |done|done].
    intros Hpr. destruct (Hn Hpr) as [Ho Hcnt]. split; [done|]. intros Hne. apply (Hcnt l1 (kwel KSYN_QUEUE_READ s')); [done|].
    destruct writers; [|done]. destruct Hl as [Hl1 Hl2]. split; [done|]. intros e He.
    pose proof (Hl2 e He). pose proof (Hne e ltac:(rewrite Ek; set_solver) eq_refl). lia. }
  destruct writers eqn:Ew.
  - apply wp_bind. eapply (wp_count_tolowest b); [done|]. intros c _ Hc. apply wp_ret.
    destruct (pr && _) eqn:Epr.
    + apply (Hrest (u32 (c + 1)) true); [apply tuned_refl|]. intros Hp. rewrite Hp in Epr. done.
    + apply (Hrest c false); [apply tuned_refl|]. intros _. split; [done|].
      intros l1 l2 El [H1 H2]. by apply (Hc l1 l2); [|apply Hwin|..].
  - apply wp_bind, wp_kw_mod. wp_go. set (s0 := s <| kwq ::= _ |>).
    assert (tuned false cur s s0) as T0 by (apply tuned_mod; [harm|apply tuned_refl]).
    destruct pr eqn:Epr.
    + apply (Hrest (u32 (ksynq_count (kw_read (kwq s0)) + 1)) true); [done|done].
    + apply (Hrest (ksynq_count (kw_read (kwq s0))) false); [done|]. intros _. split; [done|].
      intros l1 l2 El ->. rewrite app_nil_r in El. change (kw_read (kwq s0)) with (getq KSYN_QUEUE_READ (kwq s)).
      rewrite (rw_count b) by done. by rewrite El.
Qed.

(** The word a writer is granted: one count, the K and E bits, and the W bit if
    another writer waits. *)
Definition writer_bits (more : bool) : Z :=
  let bits := Z.lor PTHRW_INC (Z.lor PTH_RWL_KBIT PTH_RWL_EBIT) in
  if more then Z.lor bits PTH_RWL_WBIT else bits.

Lemma wp_grant_writer b cur rw_wc flags premgen low s (Q : Z * bool -> lst -> Prop) :
  let pw := has flags KW_UNLOCK_PREPOST_WRLOCK in
  rw_ok b s -> is_Some (kwes s !! KThread cur) ->
  (pw && (low =? premgen) = false -> kwel KSYN_QUEUE_WRITE s <> []) ->
  (forall s' more, pw && (low =? premgen) = true -> rw_ok b s' -> tuned true cur s s' -> Q (writer_bits more, false) s') ->
  (forall s' t l more, pw && (low =? premgen) = false -> rw_ok b s' -> kwel KSYN_QUEUE_WRITE s = KThread t :: l ->
     granted KSYN_QUEUE_WRITE [KThread t] (writer_bits more) s s' ->
     (pw = false -> more = negb (bool_decide (l = []))) -> Q (writer_bits more, true) s') ->
  wp (unlock_grant_writer cur rw_wc flags premgen low) Q s.
Proof.
  intros pw I [x Ex] Hne Hown Hgrant. unfold unlock_grant_writer. fold pw. wp_go.
  assert (forall more s1 blk, (forall s2, s2 = s1 <| kwq ::= fun k =>
      k <| kw_nextseqword := u32 (Z.land rw_wc PTHRW_COUNT_MASK + writer_bits more) |> |> -> Q (writer_bits more, blk) s2) ->
    wp (kw_mod (fun k => k <| kw_nextseqword := u32 (Z.land rw_wc PTHRW_COUNT_MASK + writer_bits more) |>) ;;;
        ensure (Z.land (writer_bits more) (Z.lor PTH_RWL_KBIT PTH_RWL_EBIT) =? Z.lor PTH_RWL_KBIT PTH_RWL_EBIT)
          "kwq_handle_unlock: writer lock granted but no ke set" ;;;
        ret (writer_bits more, blk)) Q s1) as Hend.
  { intros more s1 blk HQ. apply wp_bind, wp_kw_mod. apply wp_bind, wp_ensure; [by destruct more|]. by apply wp_ret, HQ. }
  destruct (pw && (low =? premgen)) eqn:Epw.
  - apply wp_bind. eapply wp_kwe_mod; [done|]. apply wp_ret. cbv iota. apply (Hend (negb (ksynq_count (kw_write (kwq s)) =? 0))).
    intros s2 ->. assert (forall f s1, harmless f -> tuned true cur s s1 -> tuned true cur s (s1 <| kwq ::= f |>) /\
      rw_ok b (s1 <| kwq ::= f |>)) as Hf.
    { intros f s1 Hh T. pose proof (tuned_mod true cur f s s1 Hh T) as T'. split; [done|].
      eapply rw_ok_same; [apply T'|done]. }
    match goal with |- Q _ (?s1 <| kwq ::= ?f |>) => destruct (Hf f s1) as [T2 I2] end;
      [harm|by apply tuned_told; [apply tuned_refl|]|]. by apply Hown.
  - destruct (kwel KSYN_QUEUE_WRITE s) as [|e l] eqn:E; [by destruct (Hne eq_refl)|].
    assert (e ∈ kwel KSYN_QUEUE_WRITE s) as He by (rewrite E; set_solver).
    destruct (rw_thread _ _ _ _ I He) as [t ->].
    pose proof (rw_count b KSYN_QUEUE_WRITE s I) as Hc. cbn [getq] in Hc. rewrite Hc, E.
    assert ((Z.of_nat (length (KThread t :: l)) >? 1) = negb (bool_decide (l = []))) as ->.
    { destruct l; [done|]. rewrite bool_decide_eq_false_2 by done. cbn [negb]. apply Z.gtb_lt. cbn. lia. }
    set (more := negb (bool_decide (l = [])) || pw).
    match goal with |- context [ksyn_signal KSYN_QUEUE_WRITE None ?v] => change v with (writer_bits more) end.
    apply wp_bind. eapply wp_signal_head; [done|done|].
    pose proof (granted_one b KSYN_QUEUE_WRITE t l (writer_bits more) s I E) as G1.
    pose proof (rw_signalled b KSYN_QUEUE_WRITE t (writer_bits more) s I He) as I1. set (s1 := signalled _ _ _ s) in *.
    assert (forall s2, rw_ok b s2 -> granted KSYN_QUEUE_WRITE [KThread t] (writer_bits more) s s2 ->
      wp (kw_mod (fun k => k <| kw_nextseqword := u32 (Z.land rw_wc PTHRW_COUNT_MASK + writer_bits more) |>) ;;;
        ensure (Z.land (writer_bits more) (Z.lor PTH_RWL_KBIT PTH_RWL_EBIT) =? Z.lor PTH_RWL_KBIT PTH_RWL_EBIT)
          "kwq_handle_unlock: writer lock granted but no ke set" ;;;
        ret (writer_bits more, true)) Q s2) as Hlast.
    { intros s2 I2 G2. apply Hend. intros s3 ->. apply (Hgrant _ t l more); [done| |done| |].
      - eapply rw_ok_same; [|exact I2]. apply harmless_same. harm.
      - apply granted_mod_r; [harm|done].
      - intros Hp. unfold more. by rewrite Hp, orb_false_r. }
    apply wp_bind. destruct (_ =? KERN_NOT_WAITING).
    + apply wp_when_true, wp_kw_mod, wp_ret. cbv iota. apply Hlast.
      * eapply rw_ok_same; [apply harmless_same; harm|done].
      * apply granted_mod_r; [harm|done].
    + apply wp_when_false, wp_ret. cbv iota. by apply Hlast.
Qed.

Lemma granted_tuned kqi l v cur s s0 s' : tuned false cur s s0 -> granted kqi l v s0 s' -> granted kqi l v s s'.
Proof.
  intros (Q & H1 & H2 & H3 & H4) [G1 G2 G3 G4 G5 G6 G7].
  assert (forall t, asleep s0 t <-> asleep s t) as Ha by (intros; unfold asleep; by rewrite H1, H3).
  constructor; try done.
  - by rewrite G1.
  - by rewrite G2.
  - by rewrite <- (same_kwel _ _ _ Q).
  - intros kqj Hne. by rewrite G4, (same_kwel _ _ _ Q).
  - intros e He. rewrite G6 by done. by apply H4.
  - intros t Ht. rewrite G7 by done. apply Ha.
Qed.

(** Who gets the lock when it is released: the first writer if it is before all
    readers, and otherwise all the readers before the first writer. *)
Definition grants (b : Z) (s : lst) (ub : Z) (s' : lst) : Prop :=
  (exists t l, kwel KSYN_QUEUE_WRITE s = KThread t :: l /\
     (forall e, e ∈ kwel KSYN_QUEUE_READ s -> key b s (KThread t) < key b s e) /\
     granted KSYN_QUEUE_WRITE [KThread t] ub s s' /\ ub = writer_bits (negb (bool_decide (l = [])))) \/
  (exists l1 l2, kwel KSYN_QUEUE_READ s = l1 ++ l2 /\ l1 <> [] /\ granted KSYN_QUEUE_READ l1 ub s s' /\
     ub = reader_bits (negb (bool_decide (kwel KSYN_QUEUE_WRITE s = []))) (Z.of_nat (length l1)) /\
     match kwel KSYN_QUEUE_WRITE s with
     | [] => l2 = []
     | w :: _ => (forall e, e ∈ l1 -> key b s e < key b s w) /\ (forall e, e ∈ l2 -> key b s w < key b s e)
     end).

(** No reader has the sequence of a writer. *)
Definition apart (b : Z) (s : lst) : Prop :=
  forall e w, e ∈ kwel KSYN_QUEUE_READ s -> w ∈ kwel KSYN_QUEUE_WRITE s -> key b s e <> key b s w.

Lemma lowest_cases flags premgen k :
  let pr := has flags KW_UNLOCK_PREPOST_READLOCK in
  let pw := has flags KW_UNLOCK_PREPOST_WRLOCK in
  let rd := negb (ksynq_count (kw_read k) =? 0) || pr in
  let wr := negb (ksynq_count (kw_write k) =? 0) || pw in
  rd || wr = true ->
  exists rwtype lr lw, kwq_find_rw_lowest flags premgen k = (rwtype, lr, lw) /\
    has rwtype PTH_RWSHFT_TYPE_WRITE = wr /\
    (wr = true -> pw = false -> lw = ksynq_firstnum (kw_write k)) /\
    (wr = true -> pw = true -> lw = premgen \/ ksynq_count (kw_write k) <> 0 /\ lw = ksynq_firstnum (kw_write k)) /\
    (rd = true -> pr = false -> lr = ksynq_firstnum (kw_read k)) /\
    (Z.land rwtype PTH_RW_TYPE_MASK = PTH_RW_TYPE_READ /\ rd = true /\ (wr = true -> is_seqlower lw lr = false) \/
     Z.land rwtype PTH_RW_TYPE_MASK = PTH_RW_TYPE_WRITE /\ wr = true /\ (rd = true -> is_seqlower lw lr = true)).
Proof.
  intros pr pw rd wr Hsome. unfold kwq_find_rw_lowest. fold pr pw rd wr.
  do 3 eexists. split; [reflexivity|].
  destruct rd eqn:Er, wr eqn:Ew; try done; cbn [default].
  - set (lw := if negb (ksynq_count (kw_write k) =? 0) then _ else _).
    set (lr := if negb (ksynq_count (kw_read k) =? 0) then _ else _).
    split_and!.
    + by destruct (is_seqlower lw lr).
    + intros _ Hp. unfold lw. unfold wr in Ew. rewrite Hp, orb_false_r in Ew. rewrite Ew, Hp. done.
    + intros _ Hp. unfold lw. rewrite Hp. destruct (Z.eqb_spec (ksynq_count (kw_write k)) 0); cbn; [by left|].
      destruct (is_seqlower _ _); [by left|by right].
    + intros _ Hp. unfold lr. unfold rd in Er. rewrite Hp, orb_false_r in Er. rewrite Er, Hp. done.
    + destruct (is_seqlower lw lr) eqn:El; [right|left]; split_and!; done.
  - split_and!; try done. intros _ Hp. unfold rd in Er. rewrite Hp, orb_false_r in Er. rewrite Er, Hp. done. by left.
  - split_and!; try done.
    + intros _ Hp. unfold wr in Ew. rewrite Hp, orb_false_r in Ew. rewrite Ew, Hp. done.
    + intros _ Hp. rewrite Hp. destruct (Z.eqb_spec (ksynq_count (kw_write k)) 0); cbn; [by left|].
      destruct (is_seqlower _ _); [by left|by right].
    + by right.
Qed.

Lemma tuned_off own cur s s0 e : tuned own cur s s0 -> off_queue e s -> off_queue e s0.
Proof.
  intros (Q & _) (x & Ex & Hx). pose proof (sq_kwes _ _ Q e) as H. rewrite Ex in H.
  inversion H as [? y (Hq & _) Ey|]; subst. exists y. split; [done|]. congruence.
Qed.
Lemma granted_off b kqi l v s s' e :
  rw_ok b s -> granted kqi l v s s' -> off_queue e s -> off_queue e s'.
Proof.
  intros I G Hoff. assert (e ∉ l) as Hn.
  { intros He. eapply (off_not_queued 0 e s); [by eapply rw_wf|done|].
    apply (kwel_queued kqi). rewrite (gr_kwel _ _ _ _ _ G). set_solver. }
  destruct Hoff as (x & Ex & Hx). exists x. split; [|done]. by rewrite (gr_other _ _ _ _ _ G).
Qed.
Lemma granted_len kqi l v s s' : granted kqi l v s s' -> (length (queued s') <= length (queued s))%nat.
Proof.
  intros G. unfold queued. rewrite !length_app. pose proof (gr_kwel _ _ _ _ _ G) as E.
  pose proof (gr_kwel_other _ _ _ _ _ G) as Eo. destruct kqi.
  - rewrite (Eo KSYN_QUEUE_WRITE), E, length_app by done. lia.
  - rewrite (Eo KSYN_QUEUE_READ), E, length_app by done. lia.
Qed.

(** The two outcomes, from what the code compares. *)
Lemma grants_readers b s ub s' l1 :
  rw_ok b s -> apart b s -> granted KSYN_QUEUE_READ l1 ub s s' ->
  ub = reader_bits (negb (bool_decide (kwel KSYN_QUEUE_WRITE s = []))) (Z.of_nat (length l1)) ->
  kwel KSYN_QUEUE_READ s <> [] ->
  (forall r rs w ws, kwel KSYN_QUEUE_READ s = r :: rs -> kwel KSYN_QUEUE_WRITE s = w :: ws ->
     is_seqlower (seq_of s w) (seq_of s r) = false) ->
  match kwel KSYN_QUEUE_WRITE s with
  | [] => kwel KSYN_QUEUE_READ s' = []
  | w :: _ => below b (seq_of s w) s l1 /\ forall e, e ∈ kwel KSYN_QUEUE_READ s' -> ahead b (seq_of s w) <= key b s e
  end -> grants b s ub s'.
Proof.
  intros I Hap G Hub Hne Hlow Hl. right. exists l1, (kwel KSYN_QUEUE_READ s').
  pose proof (gr_kwel _ _ _ _ _ G) as Ek.
  assert (forall e w ws, kwel KSYN_QUEUE_WRITE s = w :: ws -> e ∈ kwel KSYN_QUEUE_READ s -> key b s e <> key b s w) as Hap'.
  { intros e w ws E He. apply Hap; [done|rewrite E; set_solver]. }
  split_and!; [done| |done|done|].
  - intros ->. cbn [app] in Ek. destruct (kwel KSYN_QUEUE_READ s) as [|r rs] eqn:Er; [done|].
    destruct (kwel KSYN_QUEUE_WRITE s) as [|w l] eqn:E; [congruence|]. destruct Hl as [_ Hl].
    specialize (Hl r ltac:(rewrite <- Ek; set_solver)). fold (key b s w) in Hl.
    specialize (Hlow r rs w l eq_refl eq_refl). rewrite (rw_lower b KSYN_QUEUE_WRITE) in Hlow;
      [|done|by apply (so_window _ _ _ (rw_sorted _ KSYN_QUEUE_READ _ I)); rewrite Er; set_solver|rewrite E; set_solver].
    apply Z.ltb_ge in Hlow. fold (key b s r) in Hlow. pose proof (Hap' r w l eq_refl ltac:(set_solver)). lia.
  - destruct (kwel KSYN_QUEUE_WRITE s) as [|w l] eqn:E; [done|]. destruct Hl as [Hl1 Hl2]. split; [done|].
    intros e He. specialize (Hl2 e He). fold (key b s w) in Hl2.
    pose proof (Hap' e w l eq_refl ltac:(rewrite Ek; set_solver)). lia.
Qed.
Lemma grants_writer b s t l s' :
  rw_ok b s -> kwel KSYN_QUEUE_WRITE s = KThread t :: l ->
  granted KSYN_QUEUE_WRITE [KThread t] (writer_bits (negb (bool_decide (l = [])))) s s' ->
  (forall r rs, kwel KSYN_QUEUE_READ s = r :: rs -> is_seqlower (seq_of s (KThread t)) (seq_of s r) = true) ->
  grants b s (writer_bits (negb (bool_decide (l = [])))) s'.
Proof.
  intros I E G Hlow. left. exists t, l. split_and!; [done| |done|done]. intros e He.
  destruct (kwel KSYN_QUEUE_READ s) as [|r rs] eqn:Er; [set_solver|]. specialize (Hlow r rs eq_refl).
  rewrite (rw_lower b KSYN_QUEUE_WRITE) in Hlow;
    [|done|by apply (so_window _ _ _ (rw_sorted _ KSYN_QUEUE_READ _ I)); rewrite Er; set_solver|rewrite E; set_solver].
  apply Z.ltb_lt in Hlow. fold (key b s r) in Hlow. assert (key b s r <= key b s e); [|lia].
  eapply key_ge_head; [by apply (rw_sorted b KSYN_QUEUE_READ)|by rewrite Er|by rewrite Er].
Qed.

Lemma count_nonzero b kqi s : rw_ok b s -> negb (ksynq_count (getq kqi (kwq s)) =? 0) = negb (bool_decide (kwel kqi s = [])).
Proof.
  intros I. rewrite (rw_count b) by done. f_equal. case_bool_decide as E; [by rewrite E|]. apply Z.eqb_neq.
  destruct (kwel kqi s); [done|]. cbn. lia.
Qed.
(** The low writer of [kwq_find_rw_lowest] is in the window. *)
Lemma low_writer_window b s lw pw premgen :
  rw_ok b s -> (pw = true -> in_window b premgen) ->
  negb (bool_decide (kwel KSYN_QUEUE_WRITE s = [])) || pw = true ->
  (pw = false -> lw = ksynq_firstnum (kw_write (kwq s))) ->
  (pw = true -> lw = premgen \/ ksynq_count (kw_write (kwq s)) <> 0 /\ lw = ksynq_firstnum (kw_write (kwq s))) ->
  in_window b lw.
Proof.
  intros I Hpre Hwr H1 H2.
  assert (kwel KSYN_QUEUE_WRITE s <> [] -> lw = ksynq_firstnum (kw_write (kwq s)) -> in_window b lw) as H.
  { intros Hne ->. destruct (kwel KSYN_QUEUE_WRITE s) as [|e l] eqn:E; [done|].
    change (kw_write (kwq s)) with (getq KSYN_QUEUE_WRITE (kwq s)).
    rewrite (rw_first b _ _ e l) by done. apply (so_window _ _ _ (rw_sorted _ KSYN_QUEUE_WRITE _ I)). rewrite E. set_solver. }
  destruct pw.
  - destruct (H2 eq_refl) as [->|[Hc Hl]]; [auto|]. apply H; [|done]. intros E. apply Hc.
    change (kw_write (kwq s)) with (getq KSYN_QUEUE_WRITE (kwq s)). by rewrite (rw_count b), E.
  - rewrite orb_false_r in Hwr. apply negb_true_iff, bool_decide_eq_false_1 in Hwr. auto.
Qed.

Lemma grants_tuned b cur s s0 ub s' : tuned false cur s s0 -> grants b s0 ub s' -> grants b s ub s'.
Proof.
  intros T. pose proof T as (Q & _).
  assert (forall e, key b s0 e = key b s e) as Hk by (intros; unfold key; by rewrite (same_seq_of _ _ _ Q)).
  unfold grants. rewrite !(same_kwel _ _ _ Q). intros [(t & l & E & H1 & G & Hu)|(l1 & l2 & E & Hn & G & Hu & Hl)].
  - left. exists t, l. split_and!; [done| |by eapply granted_tuned|done]. intros e He. rewrite <- !Hk. auto.
  - right. exists l1, l2. split_and!; [done|done|by eapply granted_tuned|done|].
    destruct (kwel KSYN_QUEUE_WRITE s); [done|]. destruct Hl as [H1 H2]. split; intros e He; rewrite <- !Hk; auto.
Qed.
(** The readers' case without a prepost. *)
Lemma readers_outcome b s lr lw n l1 s' :
  let writers := negb (bool_decide (kwel KSYN_QUEUE_WRITE s = [])) in
  rw_ok b s -> apart b s -> granted KSYN_QUEUE_READ l1 (reader_bits writers n) s s' ->
  negb (bool_decide (kwel KSYN_QUEUE_READ s = [])) = true ->
  (writers = true -> false = false -> lw = ksynq_firstnum (kw_write (kwq s))) ->
  (negb (bool_decide (kwel KSYN_QUEUE_READ s = [])) = true -> false = false -> lr = ksynq_firstnum (kw_read (kwq s))) ->
  (writers = true -> is_seqlower lw lr = false) ->
  ((forall e, e ∈ kwel KSYN_QUEUE_READ s -> writers = true -> key b s e <> ahead b lw) -> n = Z.of_nat (length l1)) ->
  (if writers then below b lw s l1 /\ forall e, e ∈ kwel KSYN_QUEUE_READ s' -> ahead b lw <= key b s e
   else kwel KSYN_QUEUE_READ s' = []) ->
  grants b s (reader_bits writers n) s'.
Proof.
  intros writers I Hap G Hrd Hlw Hlr Hlow Hcnt Hl.
  assert (forall w ws, kwel KSYN_QUEUE_WRITE s = w :: ws -> writers = true /\ lw = seq_of s w) as HW.
  { intros w ws E. assert (writers = true) as Ew by (unfold writers; by rewrite E). split; [done|].
    rewrite (Hlw Ew eq_refl). by eapply (rw_first b KSYN_QUEUE_WRITE). }
  assert (n = Z.of_nat (length l1)) as ->.
  { apply Hcnt. intros e He Ew. destruct (kwel KSYN_QUEUE_WRITE s) as [|w ws] eqn:E; [done|].
    destruct (HW w ws eq_refl) as [_ ->]. apply Hap; [done|rewrite E; set_solver]. }
  eapply grants_readers; try done.
  - by apply negb_true_iff, bool_decide_eq_false_1 in Hrd.
  - intros r rs w ws Er E. destruct (HW w ws E) as [Ew Hlw']. rewrite <- Hlw'.
    rewrite <- (rw_first b KSYN_QUEUE_READ s r rs I Er). cbn [getq]. rewrite <- Hlr by done. auto.
  - destruct (kwel KSYN_QUEUE_WRITE s) as [|w ws] eqn:E; [done|]. destruct (HW w ws eq_refl) as [Ew <-].
    by rewrite Ew in Hl.
Qed.

Lemma wp_handle_unlock b cur rw_wc flags premgen s (Q : Z * bool -> lst -> Prop) :
  rw_ok b s -> is_Some (kwes s !! KThread cur) ->
  (queued s <> [] \/ has flags KW_UNLOCK_PREPOST_READLOCK = true \/ has flags KW_UNLOCK_PREPOST_WRLOCK = true) ->
  (has flags KW_UNLOCK_PREPOST_WRLOCK = true -> in_window b premgen) ->
  (forall ub blk s', rw_ok b s' -> self s' = self s -> wq_held s' = wq_held s ->
     (forall e, off_queue e s -> off_queue e s') -> (length (queued s') <= length (queued s))%nat ->
     (flags = 0 -> apart b s -> grants b s ub s') -> Q (ub, blk) s') ->
  wp (kwq_handle_unlock cur rw_wc flags premgen) Q s.
Proof.
  intros I Hcur Hsome Hpre HQ. unfold kwq_handle_unlock. apply wp_bind, wp_kw_mod. wp_go.
  set (s0 := s <| kwq ::= _ |>). assert (tuned false cur s s0) as T0 by (apply tuned_mod; [harm|apply tuned_refl]).
  pose proof T0 as (Q0 & _). assert (rw_ok b s0) as I0 by (by eapply rw_ok_same).
  pose proof (count_nonzero b KSYN_QUEUE_READ s0 I0) as Hcr. pose proof (count_nonzero b KSYN_QUEUE_WRITE s0 I0) as Hcw.
  cbn [getq] in Hcr, Hcw.
  destruct (lowest_cases flags premgen (kwq s0)) as (rwtype & lr & lw & -> & Hw & Hlw & Hlw' & Hlr & Hty).
  { rewrite Hcr, Hcw, !(same_kwel _ _ _ Q0). unfold queued in Hsome.
    destruct Hsome as [Hq|[-> | ->]]; [|by rewrite orb_true_r|by rewrite !orb_true_r].
    destruct (kwel KSYN_QUEUE_READ s); [|done]. destruct (kwel KSYN_QUEUE_WRITE s); [done|]. cbn. by rewrite orb_true_r. }
  rewrite Hcw in *. rewrite Hcr in *.
  assert (has rwtype PTH_RWSHFT_TYPE_WRITE = true -> in_window b lw) as Hwin.
  { rewrite Hw. intros Hwr. eapply low_writer_window; try done; auto. }
  assert (apart b s -> apart b s0) as Hap0 by (intros Hap e w He Hw'; unfold key; rewrite !(same_seq_of _ _ _ Q0); by apply Hap).
  assert (forall ub s', grants b s0 ub s' -> grants b s ub s') as Hgr by (by intros; eapply grants_tuned).
  assert (flags = 0 -> has flags KW_UNLOCK_PREPOST_READLOCK = false /\ has flags KW_UNLOCK_PREPOST_WRLOCK = false) as H0 by (by intros ->).
  destruct Hty as [(Et & Hrd & Hlow)|(Et & Hwr & Hlow)]; rewrite Et.
  - change (PTH_RW_TYPE_READ =? PTH_RW_TYPE_READ) with true. cbv iota.
    eapply (wp_grant_readers b); [done|done|done| |].
    { rewrite Hw. intros [Hb _]%orb_false_iff. by apply negb_false_iff, bool_decide_eq_true_1 in Hb. }
    intros s1 s' l1 n own I' T1 Hn G Hl. assert (rw_ok b s1) as I1 by (eapply rw_ok_same; [apply T1|done]).
    apply HQ; [done|rewrite (gr_self _ _ _ _ _ G); apply T1|rewrite (gr_held _ _ _ _ _ G); apply T1| | |].
    + intros e He. eapply (granted_off b); [exact I1|done|]. eapply tuned_off; [done|]. by eapply tuned_off.
    + etransitivity; [by eapply granted_len|]. destruct T1 as (Q1 & _).
      by rewrite (same_queued _ _ Q1), (same_queued _ _ Q0).
    + intros E0 Hap. destruct (H0 E0) as [Epr Epw]. apply Hgr. rewrite Epr, Epw, orb_false_r in *.
      destruct (Hn eq_refl) as [-> Hcnt]. rewrite Hw in *.
      eapply (readers_outcome b s0 lr lw); try done. by eapply granted_tuned.
  - change (PTH_RW_TYPE_WRITE =? PTH_RW_TYPE_READ) with false. change (PTH_RW_TYPE_WRITE =? PTH_RW_TYPE_WRITE) with true. cbv iota.
    eapply (wp_grant_writer b); [done|done|..].
    + intros Hb E. rewrite E in Hwr. cbn in Hwr. rewrite Hwr in *. cbn in Hb.
      destruct (Hlw' ltac:(by rewrite orb_true_r) eq_refl) as [->|[Hc _]]; [by rewrite Z.eqb_refl in Hb|].
      apply Hc. rewrite E in Hcw. by apply negb_false_iff, Z.eqb_eq in Hcw.
    + intros s' more Hb I' T'. pose proof T' as (Q' & ? & ? & _). apply HQ; try done.
      * intros e He. eapply tuned_off; [done|]. by eapply tuned_off.
      * by rewrite (same_queued _ _ Q'), (same_queued _ _ Q0).
      * intros E0. destruct (H0 E0) as [_ Epw]. by rewrite Epw in Hb.
    + intros s' t l more Hb I' E G Hmore. apply HQ; [done|apply G|apply G| | |].
      * intros e He. eapply (granted_off b); [exact I0|done|]. by eapply tuned_off.
      * etransitivity; [by eapply granted_len|]. by rewrite (same_queued _ _ Q0).
      * intros E0 Hap. destruct (H0 E0) as [Epr Epw]. apply Hgr. rewrite Epr, Epw, orb_false_r in *.
        rewrite (Hmore eq_refl) in *. eapply grants_writer; try done. intros r rs Er.
        rewrite <- (rw_first b KSYN_QUEUE_READ s0 r rs I0 Er), <- (rw_first b KSYN_QUEUE_WRITE s0 _ l I0 E). cbn [getq].
        rewrite <- Hlw, <- Hlr by (done || by rewrite Er). apply Hlow. by rewrite Er.
Qed.

(** C9: who is granted a released read-write lock.  On ordered queues with at
    least one waiter, and no reader sharing a writer's sequence,
    [kwq_handle_unlock] returns and wakes exactly: the first writer, if it comes
    before all readers, telling it K, E and, if another writer waits, W; or else
    all the readers before the first writer (all readers, if none), telling each
    the number of readers granted and, if a writer waits, W and K.  Everybody
    else keeps waiting in the same order, and the invariants hold. *)
Theorem rw_unlock_grants b cur rw_wc s :
  rw_ok b s -> is_Some (kwes s !! KThread cur) -> queued s <> [] -> apart b s ->
  wp (kwq_handle_unlock cur rw_wc 0 0) (fun r s' =>
    rw_ok b s' /\ wq_held s' = wq_held s /\ grants b s r.1 s') s.
Proof.
  intros I Hcur Hq Hap. eapply (wp_handle_unlock b); [done|done|by left|done|].
  intros ub blk s' I' _ Hh _ _ Hg. split_and!; [done|done|by apply Hg].
Qed.

(** ** The calls *)

Lemma check_init_spec b lgenval s (Q : bool -> lst -> Prop) :
  rw_inv b s -> _kwq_type (kwq s) = KSYN_WQTYPE_RWLOCK ->
  (forall r s', same_queues s s' -> wq_held s' = wq_held s -> kwes s' = kwes s -> Q r s') ->
  wp (_ksyn_check_init lgenval) Q s.
Proof.
  intros I Hty HQ. unfold _ksyn_check_init. apply wp_bind, wp_gets. apply wp_bind.
  destruct (_ && _); [|by apply wp_ret, wp_ret, HQ].
  unfold CLEAR_REINIT_BITS. rewrite Hty. change (KSYN_WQTYPE_RWLOCK =? KSYN_WQTYPE_CVAR) with false. cbn [andb].
  change (KSYN_WQTYPE_RWLOCK =? KSYN_WQTYPE_RWLOCK) with true. cbv iota zeta.
  apply wp_kw_mod, wp_ret, HQ; [|done|done]. by apply same_kw_mod.
Qed.
Lemma interrupted_spec type lseq s (Q : option Z -> lst -> Prop) :
  (forall r s', same_queues s s' -> wq_held s' = wq_held s -> kwes s' = kwes s ->
     _kwq_type (kwq s') = _kwq_type (kwq s) -> Q r s') ->
  wp (_kwq_handle_interrupted_wakeup type lseq) Q s.
Proof.
  intros HQ. unfold _kwq_handle_interrupted_wakeup. wp_go. destruct (_ && _); [|by apply wp_ret, HQ].
  apply wp_bind, wp_kw_mod. apply wp_bind.
  destruct (_ =? 0); [apply wp_when_true, wp_kw_mod|apply wp_when_false]; apply wp_ret, HQ; try done.
Qed.
Lemma overlap_spec type lgenval rw_wc s (Q : option Z -> lst -> Prop) :
  (forall r s', same_queues s s' -> wq_held s' = wq_held s -> kwes s' = kwes s -> Q r s') ->
  wp (_kwq_handle_overlap type lgenval rw_wc) Q s.
Proof.
  intros HQ. unfold _kwq_handle_overlap. wp_go. destruct (negb _); [by apply wp_ret, HQ|].
  destruct (_ && _); [|by apply wp_ret, HQ]. destruct (_ || _); [|by apply wp_ret, HQ].
  apply wp_bind, wp_kw_mod. wp_go. apply HQ; [by apply same_kw_mod|done|done].
Qed.
Lemma preposted_spec b cur type lseq s (Q : option Z -> lst -> Prop) :
  rw_inv b s -> is_Some (kwes s !! KThread cur) -> in_window b lseq ->
  type = KW_UNLOCK_PREPOST_READLOCK \/ type = KW_UNLOCK_PREPOST_WRLOCK ->
  (forall r s', rw_inv b s' -> wq_held s' = wq_held s -> self s' = self s ->
     (forall e, off_queue e s -> off_queue e s') -> Q r s') ->
  wp (_kwq_handle_preposted_wakeup cur type lseq) Q s.
Proof.
  intros I Hcur Hw Hty HQ. unfold _kwq_handle_preposted_wakeup. wp_go. destruct (_ || _); [by apply wp_ret, HQ|].
  apply wp_bind, wp_kw_mod.
  assert (forall f, harmless f -> forall s1, rw_inv b s1 -> rw_inv b (s1 <| kwq ::= f |>)) as Hf
    by (intros f Hh s1 I1; eapply rw_same; [by apply harmless_same|done]).
  destruct (_ >? 0).
  { apply wp_ret, HQ; try done. by apply Hf; [harm|]. }
  do 2 apply wp_bind, wp_kw_mod. apply wp_bind.
  match goal with |- wp _ _ ?st => assert (rw_inv b st) as I1 by (do 3 (apply Hf; [harm|]); done); set (s1 := st) in * end.
  eapply (wp_handle_unlock b); [apply I1|done|right; destruct Hty as [-> | ->]; [by left|by right]|done|].
  intros ub blk s' I' Hs Hh Ho Hl _. apply wp_ret, HQ; [|done|done|exact Ho].
  split; [done|]. destruct I1 as [_ R1]. lia.
Qed.

(** A thread goes to sleep on a read-write lock, or its sequence is taken. *)
Lemma wp_rw_sleep b cur kqi lgenval s (Q : wait_outcome -> lst -> Prop) :
  rw_inv b s -> wq_held s = true -> idle cur s -> in_window b lgenval ->
  (forall s', rw_ok b s' -> wq_held s' = false -> Q (Returned EBUSY) s') ->
  (forall s', rw_ok b s' -> wq_held s' = false -> KThread cur ∈ kwel kqi s' -> asleep s' cur -> Q Blocked s') ->
  wp (ksyn_wait cur kqi lgenval SEQFIT 0) Q s.
Proof.
  intros [(W & S1 & S2 & F) Room] Hh Hi Hw Hbusy Hok. eapply wp_wait; [done|].
  pose proof (wfd_about_to_wait 0 cur lgenval 0 s W Hi) as W2.
  assert (forall kqj, sorted b kqj (about_to_wait cur lgenval 0 s)) as So2
    by (intros []; by eapply sorted_staged).
  pose proof (ready_about_to_wait cur lgenval 0 s) as R2. pose proof (about_seq_of cur lgenval 0 s) as Eq2.
  set (s2 := about_to_wait cur lgenval 0 s) in *.
  assert (rw_ok b s2) as I2 by (split_and!; try done; apply So2).
  eapply (wp_insert_seqfit b 0); try done.
  - intros f _ _. split; [done|]. cbn [Z.eqb]. apply Hbusy; [|done]. eapply rw_ok_same; [apply same_held|done].
  - intros l1 l2 Sp. split; [done|]. cbn [Z.eqb]. set (s3 := inserted _ _ _ s2).
    assert (ksynq_kwelist (relink s2 (l1 ++ KThread cur :: l2)) ≡ₚ KThread cur :: kwel kqi s2) as Hp by (by eapply relink_perm).
    assert (rw_ok b s3) as I3.
    { split_and!.
      - by eapply (wf_inserted 0 kqi (KThread cur)).
      - by eapply sorted_inserted.
      - by eapply sorted_inserted.
      - intros e He. unfold s3 in He. rewrite (inserted_queued _ _ _ _ Hp) in He.
        apply elem_of_cons in He as [->|He]; [done|]. by apply F. }
    pose proof (slept_same cur s3) as Qs. apply Hok.
    + by eapply rw_ok_same.
    + done.
    + rewrite (same_kwel _ _ _ Qs). unfold s3. rewrite inserted_kwel, decide_True by done. cbn. set_solver.
    + unfold asleep. cbn. apply lookup_insert_eq.
Qed.

Definition rw_locked (b : Z) (cur : nat) (type : Z) (r : sysres) (s' : lst) : Prop :=
  rw_ok b s' /\ wq_held s' = false /\
  match r with
  | Asleep => KThread cur ∈ kwel (if type =? PTH_RW_TYPE_READ then KSYN_QUEUE_READ else KSYN_QUEUE_WRITE) s' /\
              asleep s' cur
  | Done error v => error = 0 /\ is_Some v \/ error = EBUSY /\ v = None
  end.
Lemma wp_rw_lock b interfere cur type lgenval rw_wc s :
  Rely (rw_inv b) interfere -> rw_inv b s -> wq_held s = false -> idle cur s -> in_window b lgenval ->
  _kwq_type (kwq (interfere [KThread cur] s)) = KSYN_WQTYPE_RWLOCK ->
  wp (rw_lock_locked interfere cur type lgenval rw_wc) (rw_locked b cur type) s.
Proof.
  intros HR I Hh (x0 & Ex0 & Hx0) Hw Hty. unfold rw_lock_locked. apply wp_bind, wp_lock; [done|].
  set (s1 := _ <| wq_held := true |>).
  assert (rw_inv b s1) as I1 by (eapply rw_same; [apply same_held|]; by apply (rely_inv [KThread cur] s)).
  assert (idle cur s1) as Hi1 by (exists x0; split; [|done]; apply (rely_mine [KThread cur]); set_solver).
  set (kqi := if type =? PTH_RW_TYPE_READ then KSYN_QUEUE_READ else KSYN_QUEUE_WRITE).
  assert (forall v s2, rw_inv b s2 -> wq_held s2 = true -> wp (ksyn_wqunlock ;;; ret (Done 0 (Some v))) (rw_locked b cur type) s2) as Hgranted.
  { intros v s2 I2 Hh2. apply wp_bind, wp_unlock; [done|]. apply wp_ret. split_and!; [|done|left; eauto].
    eapply rw_ok_same; [apply same_held|apply I2]. }
  apply wp_bind. eapply (check_init_spec b); [done|done|]. intros r1 s2 Q2 Hh2 K2.
  assert (rw_inv b s2) as I2 by (by eapply rw_same).
  apply wp_bind, interrupted_spec. intros r2 s3 Q3 Hh3 K3 _. assert (rw_inv b s3) as I3 by (by eapply rw_same).
  destruct r2 as [v|]; [apply Hgranted; [done|by rewrite Hh3, Hh2]|].
  apply wp_bind, overlap_spec. intros r3 s4 Q4 Hh4 K4. assert (rw_inv b s4) as I4 by (by eapply rw_same).
  destruct r3 as [v|]; [apply Hgranted; [done|by rewrite Hh4, Hh3, Hh2]|].
  assert (idle cur s4) as Hi4 by (unfold off_queue; by rewrite K4, K3, K2).
  apply wp_bind. eapply (preposted_spec b); [done|by destruct Hi4 as (y & -> & _)| | |].
  { unfold in_window, ahead. by rewrite cnt_mask. }
  { destruct (_ =? _); [by left|by right]. }
  intros r4 s5 I5 Hh5 _ Ho5.
  destruct r4 as [v|]; [apply Hgranted; [done|by rewrite Hh5, Hh4, Hh3, Hh2]|].
  apply wp_bind. apply (wp_rw_sleep b); [done|by rewrite Hh5, Hh4, Hh3, Hh2|by apply Ho5|done|..].
  - intros s6 I6 Hh6. apply wp_ret. split_and!; [done|done|by right].
  - intros s6 I6 Hh6 Hq Ha. apply wp_ret. by split_and!.
Qed.

(** locking a read-write lock always gets somewhere.  With other threads
    running before it gets the queue's lock, [__psynch_rw_lock] returns or puts
    the thread to sleep, the queue's lock is dropped exactly once, the queues
    stay well formed and ordered, and a thread that went to sleep is queued on
    the right list and waiting; an error means that another thread waits with
    the same sequence (EBUSY). *)
Theorem rw_lock_returns b interfere cur type lgenval rw_wc s :
  Rely (rw_inv b) interfere -> rw_inv b s -> wq_held s = false -> idle cur s -> in_window b lgenval ->
  _kwq_type (kwq (interfere [KThread cur] s)) = KSYN_WQTYPE_RWLOCK ->
  wp (rw_lock_locked interfere cur type lgenval rw_wc) (fun r s' =>
    rw_ok b s' /\ wq_held s' = false /\
    match r with
    | Asleep => KThread cur ∈ kwel (if type =? PTH_RW_TYPE_READ then KSYN_QUEUE_READ else KSYN_QUEUE_WRITE) s' /\
                asleep s' cur
    | Done error v => error = 0 /\ is_Some v \/ error = EBUSY /\ v = None
    end) s.
Proof. intros. by apply (wp_rw_lock b). Qed.

(** releasing a read-write lock always returns.  With other threads running
    before it gets the queue's lock, [_psynch_rw_unlock] returns with the lock
    dropped and the queues well formed and ordered, and never panics: when it
    decides that the waiters it needs have arrived, there is somebody to grant
    the lock to. *)
Theorem rw_unlock_returns b interfere cur lgenval ugenval rw_wc s :
  Rely (rw_inv b) interfere -> rw_inv b s -> wq_held s = false ->
  is_Some (kwes (interfere [] s) !! KThread cur) ->
  _kwq_type (kwq (interfere [] s)) = KSYN_WQTYPE_RWLOCK ->
  wp (rw_unlock_locked interfere cur lgenval ugenval rw_wc) (fun _ s' =>
    rw_inv b s' /\ wq_held s' = false) s.
Proof.
  intros HR I Hh Hcur Hty. unfold rw_unlock_locked. apply wp_bind, wp_lock; [done|].
  set (s1 := _ <| wq_held := true |>).
  assert (rw_inv b s1) as I1 by (eapply rw_same; [apply same_held|]; by apply (rely_inv [] s)).
  assert (forall f, harmless f -> forall s1, rw_inv b s1 -> rw_inv b (s1 <| kwq ::= f |>)) as Hf
    by (intros f Hhf s2 I2; eapply rw_same; [by apply harmless_same|done]).
  set (post := fun (_ : Z) (s' : lst) => rw_inv b s' /\ wq_held s' = false).
  assert (forall ub c s2, rw_inv b s2 -> wq_held s2 = true ->
    wp (k <- gets kwq ;;
        when (c && (kw_intr_count k >? 0)) (kw_mod (fun k => k <| kw_kflags ::= fun f => Z.lor f KSYN_KWF_INITCLEARED |>)) ;;;
        ksyn_wqunlock ;;; ret ub) post s2) as Hout.
  { intros ub c s2 I2 Hh2. wp_go.
    destruct (_ && _); [apply wp_when_true, wp_kw_mod|apply wp_when_false]; apply wp_bind, wp_unlock; try done;
      apply wp_ret; (split; [|done]); (eapply rw_same; [apply same_held|]); [apply Hf; [harm|done]|done]. }
  apply wp_bind. eapply (check_init_spec b); [done|done|]. intros isinit s2 Q2 Hh2 K2.
  assert (rw_inv b s2) as I2 by (by eapply rw_same). wp_go.
  destruct (_ && _); [by apply Hout|].
  apply wp_bind. eapply (wp_find_seq_till b); [apply I2|]. intros found count Hfound.
  destruct (negb found && _) eqn:Epre.
  { clear Epre. destruct (_ || _); [|by apply Hout]. apply wp_bind, wp_kw_mod. apply Hout; [|done]. apply Hf; [harm|done]. }
  assert (queued s2 <> []) as Hq.
  { apply Hfound. apply andb_false_iff in Epre as [E%negb_false_iff|E]; [by left|right].
    apply orb_false_iff in E as [E%Z.eqb_neq _]. done. }
  apply wp_bind. set (c := isinit && _).
  assert (wp (when c (kw_mod (fun k => k <| kw_kflags ::= fun f => clr f KSYN_KWF_INITCLEARED |>)))
    (fun _ s3 => rw_inv b s3 /\ wq_held s3 = true /\ kwes s3 = kwes s2 /\ queued s3 = queued s2) s2) as Hwhen.
  { destruct c; [apply wp_when_true, wp_kw_mod|by apply wp_when_false]. split_and!; try done. apply Hf; [harm|done]. }
  eapply wp_mono; [exact Hwhen|]. cbv beta. intros _ s3 (I3 & Hh3 & K3 & Eq3). apply wp_bind, wp_kw_mod. apply wp_bind.
  match goal with |- wp _ _ ?st => assert (rw_inv b st) as I4 by (apply Hf; [harm|done]) end.
  eapply (wp_handle_unlock b); [apply I4| |left|done|].
  - change (is_Some (kwes s3 !! KThread cur)). by rewrite K3, K2.
  - change (queued s3 <> []). by rewrite Eq3.
  - intros ub blk s5 I5 _ Hh5 _ Hl5 _. apply Hout; [|by rewrite Hh5]. split; [done|]. destruct I4 as [_ R4]. lia.
Qed.

(** ** Concrete runs *)

Definition fresh_rw : lst := fresh KSYN_WQTYPE_RWLOCK 4.
Definition run_to {A} (m : MQ A) (s : lst) : lst :=
  match m s with Ret _ s' => s' | _ => s end.

(** Thread 1 waits for the lock (sequence 2), is interrupted by a signal but has
    not run yet when thread 0 releases the lock, returns EINTR, and asks again. *)
Definition interrupted_retry (type : Z) (kqi : kwq_queue_type_t) : MQ (sysres * sysres * sysres) :=
  r1 <- rw_lock_locked quiet 1 type 0x200 0x100 ;;
  modify (fun s => s <| waiting ::= delete 1%nat |>) ;;;
  rw_unlock_locked quiet 0 0x200 0x100 0x100 ;;;
  r2 <- _psynch_rw_continue quiet 1 kqi THREAD_INTERRUPTED ;;
  r3 <- rw_lock_locked quiet 1 type 0x200 0x100 ;;
  ret (r1, r2, r3).

(** an interrupted reader's wake-up is kept for it, an interrupted writer's
    is lost.  The release marks the wake-up that could not be delivered, with
    KWQ_INTR_READ (1) or KWQ_INTR_WRITE (2); the thread that comes back looks for
    its PTH_RW_TYPE_* number, which is 1 for a reader but 4 for a writer.  So the
    reader is granted the lock at once, while the writer goes to sleep again with
    the wake-up still pending and nobody left to wake it. *)
Theorem interrupted_writer_wakeup_lost :
  wp (interrupted_retry PTH_RW_TYPE_READ KSYN_QUEUE_READ) (fun r s' =>
    r = (Asleep, Done EINTR None, Done 0 (Some PTHRW_INC)) /\ queued s' = []) fresh_rw /\
  wp (interrupted_retry PTH_RW_TYPE_WRITE KSYN_QUEUE_WRITE) (fun r s' =>
    r = (Asleep, Done EINTR None, Asleep) /\ queued s' = [KThread 1] /\ asleep s' 1 /\
    kw_intr_count (kwq s') = 1) fresh_rw.
Proof. split; vm_compute; repeat split. Qed.

Lemma fresh_rw_inv : rw_inv 0 fresh_rw.
Proof.
  split; [|done]. split_and!; [apply fresh_roomy| | |cbn; set_solver];
    constructor; cbn; try done; [set_solver|constructor|set_solver|constructor].
Qed.

(** Reader 1 (sequence 2), writer 2 (sequence 3) and reader 3 (sequence 4) wait. *)
Definition rw_one_waiter : lst := run_to (rw_lock_locked quiet 1 PTH_RW_TYPE_READ 0x200 0x100) fresh_rw.
Definition two_waiters : lst := run_to (rw_lock_locked quiet 2 PTH_RW_TYPE_WRITE 0x300 0x100) rw_one_waiter.
Definition three_waiters : lst := run_to (rw_lock_locked quiet 3 PTH_RW_TYPE_READ 0x400 0x100) two_waiters.

Lemma rw_one_waiter_inv : rw_inv 0 rw_one_waiter.
Proof.
  assert (rw_locked 0 1 PTH_RW_TYPE_READ Asleep rw_one_waiter) as (I & _); [|split; [done|vm_compute; done]].
  refine (wp_result (rw_lock_locked quiet 1 PTH_RW_TYPE_READ 0x200 0x100) _ fresh_rw Asleep rw_one_waiter _ _);
    [|vm_compute; reflexivity].
  apply (wp_rw_lock 0); [apply _|apply fresh_rw_inv|done|by exists kwe_zero|done|done].
Qed.
Lemma two_waiters_inv : rw_inv 0 two_waiters.
Proof.
  assert (rw_locked 0 2 PTH_RW_TYPE_WRITE Asleep two_waiters) as (I & _); [|split; [done|vm_compute; done]].
  refine (wp_result (rw_lock_locked quiet 2 PTH_RW_TYPE_WRITE 0x300 0x100) _ rw_one_waiter Asleep two_waiters _ _);
    [|vm_compute; reflexivity].
  apply (wp_rw_lock 0); [apply _|apply rw_one_waiter_inv|vm_compute; done|exists kwe_zero; vm_compute; done|done|vm_compute; done].
Qed.
Lemma three_waiters_inv : rw_inv 0 three_waiters.
Proof.
  assert (rw_locked 0 3 PTH_RW_TYPE_READ Asleep three_waiters) as (I & _); [|split; [done|vm_compute; done]].
  refine (wp_result (rw_lock_locked quiet 3 PTH_RW_TYPE_READ 0x400 0x100) _ two_waiters Asleep three_waiters _ _);
    [|vm_compute; reflexivity].
  apply (wp_rw_lock 0); [apply _|apply two_waiters_inv|vm_compute; done|exists kwe_zero; vm_compute; done|done|vm_compute; done].
Qed.
Lemma three_waiters_apart : apart 0 three_waiters.
Proof.
  intros e w He Hw.
  assert (kwel KSYN_QUEUE_READ three_waiters = [KThread 1; KThread 3]) as E1 by (vm_compute; reflexivity).
  assert (kwel KSYN_QUEUE_WRITE three_waiters = [KThread 2]) as E2 by (vm_compute; reflexivity).
  rewrite E1 in He. rewrite E2 in Hw. apply list_elem_of_singleton in Hw as ->.
  apply elem_of_cons in He as [->|He]; [vm_compute; discriminate|].
  apply list_elem_of_singleton in He as ->. vm_compute. discriminate.
Qed.

Lemma rw_unlock_grants_witness :
  wp (kwq_handle_unlock 0 0x100 0 0) (fun r s' =>
    rw_ok 0 s' /\ wq_held s' = wq_held three_waiters /\ grants 0 three_waiters r.1 s') three_waiters.
Proof.
  apply (rw_unlock_grants 0 0 0x100 three_waiters);
    [apply three_waiters_inv|eexists; vm_compute; reflexivity|vm_compute; discriminate|apply three_waiters_apart].
Defined.
Lemma rw_lock_returns_witness :
  wp (rw_lock_locked quiet 0 PTH_RW_TYPE_WRITE 0x500 0x100) (fun r s' =>
    rw_ok 0 s' /\ wq_held s' = false /\
    match r with
    | Asleep => KThread 0 ∈ kwel KSYN_QUEUE_WRITE s' /\ asleep s' 0
    | Done error v => error = 0 /\ is_Some v \/ error = EBUSY /\ v = None
    end) three_waiters.
Proof.
  apply (rw_lock_returns 0 quiet 0 PTH_RW_TYPE_WRITE 0x500 0x100 three_waiters);
    [apply _|apply three_waiters_inv|vm_compute; reflexivity|exists kwe_zero; vm_compute; done|reflexivity
    |vm_compute; reflexivity].
Defined.
Lemma rw_unlock_returns_witness :
  wp (rw_unlock_locked quiet 0 0x400 0x100 0x100) (fun _ s' => rw_inv 0 s' /\ wq_held s' = false) three_waiters.
Proof.
  apply (rw_unlock_returns 0 quiet 0 0x400 0x100 0x100 three_waiters);
    [apply _|apply three_waiters_inv|vm_compute; reflexivity|eexists; vm_compute; reflexivity|vm_compute; reflexivity].
Defined.
End KsynRw.
