(* ===== verification/KsynHash.v ===== *)
(** The table of wait queues of [src/duct-tape/pthread/kern_synch.c]: finding
    (and creating) the queue of an address, dropping it, the delayed clean-up,
    the deletion of a process' table, and the system calls, which find their
    queue, work on it ([KsynSync]) and release it. *)
From S2P Require Import Prelude SeqArith Ksyn KsynSync.

Module KsynHash.
Import Ksyn KsynSync.

(** [LIST_HEAD] arrays indexed by [address & pthhash]. *)
Definition hashtbl := Z -> list nat.

Record pst := mk_pst {
  kwqs : gmap nat ksyn_wait_queue;           (* kwq_zone *)
  kwq_next : nat;
  pth_glob_hashtbl : hashtbl;
  hashtbls : gmap nat hashtbl;               (* the arrays of the processes *)
  hashtbl_next : nat;
  p_pthhash : gmap nat nat;                  (* each process' array; NULL is absent *)
  pthhash : Z;
  pth_free_list : list nat;
  psynch_cleanupset : bool;
  thcall_deadline : option Z;                (* psynch_thcall, when entered *)
  list_held : bool;                          (* pthread_list_mlock *)
  all_kwes : gmap kwe_id ksyn_waitq_element;
  all_zone_next : nat;
  all_waiting : gmap nat nat;
  all_trefs : nat -> Z;
}.
#[global] Instance pst_rb : Rebuild pst := fun r =>
  mk_pst (kwqs r) (kwq_next r) (pth_glob_hashtbl r) (hashtbls r) (hashtbl_next r)
    (p_pthhash r) (pthhash r) (pth_free_list r)
    (psynch_cleanupset r) (thcall_deadline r) (list_held r) (all_kwes r) (all_zone_next r)
    (all_waiting r) (all_trefs r).
Abbreviation MP := (M pst).

Definition PTH_HASHSIZE : Z := 100.
Definition KSYN_CLEANUP_DEADLINE : Z := 10.
(** [fls(elements) - 1] is the position of the highest bit. *)
Definition hashinit (elements : Z) : MP unit :=
  ensure (elements >? 0) "hashinit: bad cnt" ;;;
  modify (fun s => s <| pthhash := Z.shiftl 1 (Z.log2 elements) - 1 |>).
Definition pth_global_hashinit : MP unit :=
  hashinit (PTH_HASHSIZE * 4) ;;;
  modify (fun s => s <| pth_glob_hashtbl := fun _ => [] |>).
Definition _pth_proc_hashinit (p : nat) : MP unit :=
  hashinit PTH_HASHSIZE ;;;
  modify (fun s => s <| hashtbls ::= <[hashtbl_next s := fun _ => []]> |>
                     <| p_pthhash ::= <[p := hashtbl_next s]> |> <| hashtbl_next ::= S |>).

(** Between an unlock and the next lock of the list mutex other threads run;
    nobody else knows the caller's fresh queue [mine]. *)
Definition list_environment := option nat -> pst -> pst.
Definition pthread_list_lock (interfere : list_environment) (mine : option nat) : MP unit :=
  h <- gets list_held ;;
  if h then hang
  else modify (interfere mine) ;;; modify (fun s => s <| list_held := true |>).
Definition pthread_list_unlock : MP unit :=
  h <- gets list_held ;;
  ensure h "lck_mtx_unlock: not locked" ;;;
  modify (fun s => s <| list_held := false |>).

(** [*kwq] and updates of [kwq]'s fields: a freed queue aborts. *)
Definition kwq_deref (q : nat) : MP ksyn_wait_queue := fun s =>
  match kwqs s !! q with
  | Some k => Ret k s
  | None => Panic "freed kwq"
  end.
Definition kwq_set (q : nat) (f : ksyn_wait_queue -> ksyn_wait_queue) : MP unit := fun s =>
  match kwqs s !! q with
  | Some k => Ret tt (s <| kwqs := <[q := f k]> (kwqs s) |>)
  | None => Panic "freed kwq"
  end.
Definition put_thread (t : option nat) : MP unit :=
  match t with
  | Some t => modify (fun s => s <| all_trefs ::= fun f => upd f t (f t - 1) |>)
  | None => ret tt
  end.
Definition _kwq_destroy (q : nat) : MP unit :=
  k <- kwq_deref q ;;
  put_thread (kw_owner k) ;;;
  modify (fun s => s <| kwqs ::= delete q |>).
(** [zalloc], [bzero] and [ksyn_queue_init] of [ksyn_wqfind]. *)
Definition alloc_kwq : MP nat := fun s =>
  Ret (kwq_next s) (s <| kwqs ::= <[kwq_next s := kwq_zero]> |> <| kwq_next ::= S |>).

Definition is_shared (flags : Z) : bool := Z.land flags PTHREAD_PSHARED_FLAGS_MASK =? PTHREAD_PROCESS_SHARED.

(** [vm_map_page_info] is missing from [pthread_kern_real]: the call goes
    through a NULL pointer. *)
Definition ksyn_findobj (uaddr : Z) : MP (Z * Z) := panic "pthread_kern->vm_map_page_info is NULL".

Fixpoint lookup_in (same : ksyn_wait_queue -> bool) (l : list nat) : MP (option nat) :=
  match l with
  | [] => ret None
  | q :: l' => k <- kwq_deref q ;; if same k then ret (Some q) else lookup_in same l'
  end.
(** [proc_get_pthhash] and an access to the array. *)
Definition proc_table (p : nat) : MP (nat * hashtbl) := fun s =>
  match p_pthhash s !! p with
  | Some a => match hashtbls s !! a with Some h => Ret (a, h) s | None => Panic "freed hash table" end
  | None => Panic "p_pthhash is NULL"
  end.
Definition ksyn_wq_hash_lookup (uaddr : Z) (p : nat) (flags object offset : Z) : MP (option nat) :=
  mask <- gets pthhash ;;
  if is_shared flags then
    h <- gets pth_glob_hashtbl ;;
    lookup_in (fun k => (kw_object k =? object) && (kw_offset k =? offset)) (h (Z.land object mask))
  else
    ah <- proc_table p ;;
    lookup_in (fun k => kw_addr k =? uaddr) (snd ah (Z.land uaddr mask)).

(** [LIST_INSERT_HEAD(&hashptr[i], kwq, kw_hash)] *)
Definition hash_insert (p : nat) (flags i : Z) (q : nat) : MP unit :=
  if is_shared flags then
    modify (fun s => s <| pth_glob_hashtbl ::= fun h => upd h i (q :: h i) |>)
  else
    ah <- proc_table p ;;
    modify (fun s => s <| hashtbls ::= <[fst ah := upd (snd ah) i (q :: snd ah i)]> |>).
(** [LIST_REMOVE(kwq, kw_hash)]: the links lead to the list the queue is on. *)
Definition hash_remove (q : nat) : MP unit :=
  modify (fun s => s <| pth_glob_hashtbl ::= fun h i => unlink q (h i) |>
                     <| hashtbls ::= fmap (fun (h : hashtbl) i => unlink q (h i)) |>).
(** [LIST_REMOVE(kwq, kw_list)] of a queue on the free list. *)
Definition flist_remove (q : nat) : MP unit :=
  modify (fun s => s <| pth_free_list ::= unlink q |>).

(** What one pass of the loop of [ksyn_wqfind] comes to. *)
Inductive find_outcome :=
| FNeed                                      (* allocate a queue and try again *)
| FSleep                                     (* [msleep] until the queue is released, then try again *)
| FDone (res : Z) (kwq : nat).
(** The [res == 0] block and the [pthread_list_unlock] after it. *)
Definition wqfind_take (uaddr mgen ugen sgen wqtype object offset : Z) (q : nat) : MP unit :=
  k <- kwq_deref q ;;
  (if kw_type k =? 0 then
     kwq_set q (fun k => k <| kw_addr := uaddr |> <| kw_object := object |> <| kw_offset := offset |>
                           <| kw_type := Z.land wqtype KSYN_WQTYPE_MASK |>) ;;;
     k <- kwq_deref q ;;
     match CLEAR_REINIT_BITS k with
     | None => panic "CV:entries in queue durinmg reinit"
     | Some k' =>
         kwq_set q (fun _ => k' <| kw_lword := mgen |> <| kw_uword := ugen |> <| kw_sword := sgen |>
                                <| kw_owner := None |> <| kw_kflags := 0 |>)
     end
   else ret tt) ;;;
  kwq_set q (fun k => k <| kw_iocount ::= fun c => s32 (c + 1) |>) ;;;
  when (wqtype =? KSYN_WQTYPE_MUTEXDROP) (kwq_set q (fun k => k <| kw_dropcount ::= fun c => s32 (c + 1) |>)) ;;;
  pthread_list_unlock.

Definition wqfind_pass (interfere : list_environment) (p : nat) (uaddr mgen ugen sgen flags wqtype object offset : Z)
    (nkwq : option nat) : MP (find_outcome * option nat) :=
  pthread_list_lock interfere nkwq ;;;
  kwq <- ksyn_wq_hash_lookup uaddr p flags object offset ;;
  mask <- gets pthhash ;;
  match kwq, nkwq with
  | None, None => pthread_list_unlock ;;; ret (FNeed, None)
  | None, Some q =>
      (if is_shared flags then
         kwq_set q (fun k => k <| kw_pflags ::= fun f => Z.lor f KSYN_WQ_SHARED |>) ;;;
         hash_insert p flags (Z.land object mask) q
       else hash_insert p flags (Z.land uaddr mask) q) ;;;
      kwq_set q (fun k => k <| kw_pflags ::= fun f => Z.lor f KSYN_WQ_INHASH |>) ;;;
      wqfind_take uaddr mgen ugen sgen wqtype object offset q ;;;
      ret (FDone 0 q, None)
  | Some q, _ =>
      k <- kwq_deref q ;;
      when (has (kw_pflags k) KSYN_WQ_FLIST)
        (flist_remove q ;;; kwq_set q (fun k => k <| kw_pflags ::= fun f => clr f KSYN_WQ_FLIST |>)) ;;;
      if negb (Z.land (kw_type k) KSYN_WQTYPE_MASK =? Z.land wqtype KSYN_WQTYPE_MASK) then
        if negb (_kwq_is_used k) then
          if kw_iocount k =? 0 then
            kwq_set q (fun k => k <| kw_type := 0 |>) ;;;
            wqfind_take uaddr mgen ugen sgen wqtype object offset q ;;;
            ret (FDone 0 q, nkwq)
          else if (kw_iocount k =? 1) && (kw_dropcount k =? kw_iocount k) then
            kwq_set q (fun k => k <| kw_pflags ::= fun f => Z.lor f KSYN_WQ_WAITING |>) ;;;
            pthread_list_unlock ;;;
            ret (FSleep, nkwq)
          else pthread_list_unlock ;;; ret (FDone EINVAL q, nkwq)
        else pthread_list_unlock ;;; ret (FDone EINVAL q, nkwq)
      else
        wqfind_take uaddr mgen ugen sgen wqtype object offset q ;;;
        ret (FDone 0 q, nkwq)
  end.

(** [ksyn_wqfind] from a loop iteration with [nkwq] until it returns the queue
    or sleeps; a sleeper comes back here with the [nkwq] it still owns. *)
Inductive find_result := Found (res : Z) (kwq : option nat) | Sleeping (nkwq : option nat).
Definition ksyn_wqfind (interfere : list_environment) (p : nat) (uaddr mgen ugen sgen flags wqtype : Z)
    (nkwq : option nat) : MP find_result :=
  obj <- (if is_shared flags then ksyn_findobj uaddr else ret (0, 0)) ;;
  let pass := wqfind_pass interfere p uaddr mgen ugen sgen flags wqtype (fst obj) (snd obj) in
  r <- pass nkwq ;;
  r <- (match r with
        | (FNeed, _) => n <- alloc_kwq ;; pass (Some n)
        | _ => ret r
        end) ;;
  match r with
  | (FDone res q, nkwq) =>
      match nkwq with Some n => _kwq_destroy n | None => ret tt end ;;;
      ret (Found res (Some q))
  | (FSleep, nkwq) => ret (Sleeping nkwq)
  | (FNeed, _) => panic "allocated queue lost"
  end.

(** [now] is [microuptime] in seconds; [tvtoabstime] of a deadline is the
    deadline.  Waking the sleepers of [kw_pflags] has no effect but theirs. *)
Definition ksyn_wqrelease (interfere : list_environment) (now : Z) (q : nat) (qfreenow : bool) (wqtype : Z) : MP unit :=
  pthread_list_lock interfere None ;;;
  when (wqtype =? KSYN_WQTYPE_MUTEXDROP) (kwq_set q (fun k => k <| kw_dropcount ::= fun c => s32 (c - 1) |>)) ;;;
  kwq_set q (fun k => k <| kw_iocount ::= fun c => s32 (c - 1) |>) ;;;
  k <- kwq_deref q ;;
  free_elem <-
    (if kw_iocount k =? 0 then
       when (has (kw_pflags k) KSYN_WQ_WAITING)
         (kwq_set q (fun k => k <| kw_pflags ::= fun f => clr f KSYN_WQ_WAITING |>)) ;;;
       if negb (_kwq_is_used k) then
         ensure (kw_turnstile k =? 0) "kw_turnstile still non-null upon release" ;;;
         if negb qfreenow then
           kwq_set q (fun k => k <| kw_ts := now |>) ;;;
           modify (fun s => s <| pth_free_list ::= cons q |>) ;;;
           kwq_set q (fun k => k <| kw_pflags ::= fun f => Z.lor f KSYN_WQ_FLIST |>) ;;;
           set <- gets psynch_cleanupset ;;
           when (negb set)
             (modify (fun s => s <| thcall_deadline := Some (now + KSYN_CLEANUP_DEADLINE) |>
                                 <| psynch_cleanupset := true |>)) ;;;
           ret None
         else
           kwq_set q (fun k => k <| kw_pflags ::= fun f => clr f KSYN_WQ_INHASH |>) ;;;
           hash_remove q ;;;
           ret (Some q)
       else ret None
     else ret None) ;;
  pthread_list_unlock ;;;
  match free_elem with Some q => _kwq_destroy q | None => ret tt end.

(** The [LIST_FOREACH] of [psynch_wq_cleanup]: the queues moved to [freelist]
    and [reschedule].  It follows [kw_list], and moving a queue to [freelist]
    (empty until then) makes the end of [freelist] its successor: the loop stops
    at the first queue it moves. *)
Fixpoint cleanup_loop (now : Z) (reschedule : bool) (l : list nat) : MP (list nat * bool) :=
  match l with
  | [] => ret ([], reschedule)
  | q :: l' =>
      k <- kwq_deref q ;;
      if _kwq_is_used k || negb (kw_iocount k =? 0) then cleanup_loop now reschedule l'
      else if Z.abs (now - kw_ts k) >=? KSYN_CLEANUP_DEADLINE then
        kwq_set q (fun k => k <| kw_pflags ::= fun f => clr f (Z.lor KSYN_WQ_FLIST KSYN_WQ_INHASH) |>) ;;;
        hash_remove q ;;;
        flist_remove q ;;;
        ret ([q], reschedule)
      else cleanup_loop now true l'
  end.
Fixpoint destroy_all (l : list nat) : MP unit :=
  match l with
  | [] => ret tt
  | q :: l' => _kwq_destroy q ;;; destroy_all l'
  end.
Definition psynch_wq_cleanup (interfere : list_environment) (now : Z) : MP unit :=
  pthread_list_lock interfere None ;;;
  l <- gets pth_free_list ;;
  r <- cleanup_loop now false l ;;
  let '(freelist, reschedule) := r in
  modify (fun s => if (reschedule : bool)
                   then s <| thcall_deadline := Some (now + KSYN_CLEANUP_DEADLINE) |> <| psynch_cleanupset := true |>
                   else s <| psynch_cleanupset := false |>) ;;;
  pthread_list_unlock ;;;
  destroy_all freelist.

(** ** Working on one queue *)

(** Run code of [KsynSync] on queue [q]. *)
Definition on_kwq {A} (q : nat) (m : MQ A) : MP A := fun s =>
  match kwqs s !! q with
  | None => Panic "freed kwq"
  | Some k =>
      match m (mk_lst q k (all_kwes s) (all_zone_next s) (all_waiting s) (all_trefs s) false) with
      | Ret a l => Ret a (s <| kwqs ::= <[q := kwq l]> |> <| all_kwes := kwes l |>
                            <| all_zone_next := zone_next l |> <| all_waiting := waiting l |>
                            <| all_trefs := trefs l |>)
      | Panic w => Panic w
      | Hang => Hang
      end
  end.

(** The [while] of [_pth_proc_hashdelete] for bucket [i] of array [a]. *)
Fixpoint delete_bucket (interfere : list_environment) (a : nat) (i : Z) (fuel : nat) : MP unit :=
  match fuel with
  | O => hang
  | S fuel =>
  t <- gets hashtbls ;;
  match t !! a with
  | None => panic "freed hash table"
  | Some h =>
      match h i with
      | [] => ret tt
      | q :: _ =>
          k <- kwq_deref q ;;
          when (has (kw_pflags k) KSYN_WQ_INHASH)
            (kwq_set q (fun k => k <| kw_pflags ::= fun f => clr f KSYN_WQ_INHASH |>) ;;; hash_remove q) ;;;
          when (has (kw_pflags k) KSYN_WQ_FLIST)
            (kwq_set q (fun k => k <| kw_pflags ::= fun f => clr f KSYN_WQ_FLIST |>) ;;; flist_remove q) ;;;
          pthread_list_unlock ;;;
          when ((Z.land (kw_type k) KSYN_WQTYPE_MASK =? KSYN_WQTYPE_CVAR) && negb (kw_inqueue k =? 0))
            (on_kwq q (ksyn_freeallkwe KSYN_QUEUE_WRITE)) ;;;
          _kwq_destroy q ;;;
          pthread_list_lock interfere None ;;;
          delete_bucket interfere a i fuel
      end
  end
  end.
Fixpoint delete_buckets (interfere : list_environment) (a : nat) (idxs : list Z) (fuel : nat) : MP unit :=
  match idxs with
  | [] => ret tt
  | i :: idxs' => delete_bucket interfere a i fuel ;;; delete_buckets interfere a idxs' fuel
  end.
Definition _pth_proc_hashdelete (interfere : list_environment) (p : nat) (fuel : nat) : MP unit :=
  t <- gets p_pthhash ;; mask <- gets pthhash ;;
  modify (fun s => s <| p_pthhash ::= delete p |>) ;;;
  match t !! p with
  | None => ret tt
  | Some a =>
      pthread_list_lock interfere None ;;;
      delete_buckets interfere a (seqZ 0 (mask + 1)) fuel ;;;
      pthread_list_unlock ;;;
      modify (fun s => s <| hashtbls ::= delete a |>)
  end.

(** ** The system calls *)

Section Calls.
Context (lenv : list_environment) (wenv : environment) (now : Z).
Context (thread_id : nat -> Z) (findtid : Z -> option nat) (port_thread : Z -> option nat) (threadmax : Z).
Context (p cur : nat).

(** How far a call gets. *)
Inductive call_result :=
| Returns (error : Z) (retval : option Z)
| Blocks (kwq : nat)                         (* asleep on the queue, holding its reference *)
| FindSleeps (nkwq : option nat)             (* in [ksyn_wqfind], to be resumed with this [nkwq] *)
| DropSleeps (kwq : nat) (nkwq : option nat). (* [_psynch_cvwait] holding [kwq], in its [_psynch_mutexdrop] *)

Definition find_then (f : find_result) (k : nat -> MP call_result) : MP call_result :=
  match f with
  | Found res (Some q) => if res =? 0 then k q else ret (Returns res None)
  | Found res None => ret (Returns res None)
  | Sleeping n => ret (FindSleeps n)
  end.
(** Release the queue unless the thread sleeps on it. *)
Definition release_done (q : nat) (qfreenow : bool) (wqtype : Z) (r : sysres) : MP call_result :=
  match r with
  | Done e v => ksyn_wqrelease lenv now q qfreenow wqtype ;;; ret (Returns e v)
  | Asleep => ret (Blocks q)
  end.

Fixpoint put_threads (l : list (option nat)) : MP unit :=
  match l with
  | [] => ret tt
  | t :: l' => put_thread t ;;; put_threads l'
  end.
Definition _psynch_mutexwait (mutex mgen ugen tid flags : Z) (nkwq : option nat) (fuel : nat) : MP call_result :=
  let wqtype := Z.lor KSYN_WQTYPE_INWAIT KSYN_WQTYPE_MTX in
  f <- ksyn_wqfind lenv p mutex mgen ugen 0 flags wqtype nkwq ;;
  find_then f (fun q =>
    r <- on_kwq q (mutexwait_again wenv thread_id findtid cur mgen ugen (is_firstfit flags) tid None fuel) ;;
    c <- release_done q true wqtype (fst r) ;;
    put_threads (snd r) ;;;
    ret c).
Definition _psynch_mutexdrop (mutex mgen ugen flags : Z) (nkwq : option nat) (fuel : nat) : MP call_result :=
  f <- ksyn_wqfind lenv p mutex mgen ugen 0 flags KSYN_WQTYPE_MUTEXDROP nkwq ;;
  find_then f (fun q =>
    v <- on_kwq q (mutexdrop_locked wenv mgen ugen flags fuel) ;;
    ksyn_wqrelease lenv now q true KSYN_WQTYPE_MUTEXDROP ;;;
    ret (Returns 0 (Some v))).

Definition __psynch_cvsignal (cv cgen cugen csgen flags : Z) (broadcast : bool) (threadport : Z)
    (nkwq : option nat) : MP call_result :=
  let uptoseq := Z.land cgen PTHRW_COUNT_MASK in
  let fromseq := u32 (Z.land cugen PTHRW_COUNT_MASK + PTHRW_INC) in
  let wqtype := Z.lor KSYN_WQTYPE_CVAR KSYN_WQTYPE_INDROP in
  if ((threadport =? 0) && is_seqhigher fromseq uptoseq) || is_seqhigher csgen uptoseq then ret (Returns EINVAL None)
  else
    (* [port_name_to_thread] takes a reference *)
    let th := if threadport =? 0 then None else port_thread threadport in
    if negb (threadport =? 0) && bool_decide (th = None) then ret (Returns ESRCH None)
    else
      modify (fun s => match th with
                       | Some t => s <| all_trefs ::= fun f => upd f t (f t + 1) |>
                       | None => s end) ;;;
      f <- ksyn_wqfind lenv p cv cgen cugen csgen flags wqtype nkwq ;;
      c <- find_then f (fun q =>
        v <- on_kwq q (cvsignal_locked wenv cgen cugen csgen broadcast th) ;;
        ksyn_wqrelease lenv now q true wqtype ;;;
        ret (Returns 0 (Some v))) ;;
      put_thread th ;;;
      ret c.
Definition _psynch_cvbroad (cv cvlsgen cvudgen flags : Z) (nkwq : option nat) : MP call_result :=
  let diffgen := u32 cvudgen in
  if Z.shiftr diffgen PTHRW_COUNT_SHIFT >? threadmax then ret (Returns EBUSY None)
  else __psynch_cvsignal cv (u32 cvlsgen) (u32 (Z.shiftr cvudgen 32)) (u32 (Z.shiftr cvlsgen 32)) flags true 0 nkwq.
Definition _psynch_cvsignal (cv cvlsgen cvugen threadport flags : Z) (nkwq : option nat) : MP call_result :=
  __psynch_cvsignal cv (u32 cvlsgen) cvugen (u32 (Z.shiftr cvlsgen 32)) flags false threadport nkwq.

(** [_psynch_cvwait] once it holds its queue: the mutex is dropped, then the
    thread waits; the queue is released on every way out that does not sleep. *)
Definition cvwait_found (cgen cvugen csgen mutex mgen ugen flags : Z) (q : nat) (nkwq : option nat) (fuel : nat)
    : MP call_result :=
  let wqtype := Z.lor KSYN_WQTYPE_CVAR KSYN_WQTYPE_INWAIT in
  d <- (if negb (mutex =? 0) then _psynch_mutexdrop mutex mgen ugen flags nkwq fuel
        else ret (Returns 0 None)) ;;
  match d with
  | FindSleeps n => ret (DropSleeps q n)
  | Returns error _ =>
      if negb (error =? 0) then
        ksyn_wqrelease lenv now q true wqtype ;;; ret (Returns error None)
      else
        r <- on_kwq q (cvwait_locked wenv cur cgen cvugen csgen) ;;
        release_done q true wqtype r
  | d => ret d
  end.
Definition _psynch_cvwait (cv cvlsgen cvugen mutex mugen flags : Z) (nkwq : option nat) (fuel : nat) : MP call_result :=
  let csgen := u32 (Z.shiftr cvlsgen 32) in
  let cgen := u32 cvlsgen in
  let ugen := u32 (Z.shiftr mugen 32) in
  let mgen := u32 mugen in
  if is_seqhigher_eq csgen (Z.land cgen PTHRW_COUNT_MASK) then ret (Returns EINVAL None)
  else
    f <- ksyn_wqfind lenv p cv cgen cvugen csgen flags (Z.lor KSYN_WQTYPE_CVAR KSYN_WQTYPE_INWAIT) nkwq ;;
    find_then f (fun q => cvwait_found cgen cvugen csgen mutex mgen ugen flags q None fuel).
Definition _psynch_cvclrprepost (cv cvgen cvugen cvsgen preposeq flags : Z) (nkwq : option nat) : MP call_result :=
  let mutex := has flags PTHREAD_MTX_OPT_MUTEX in
  let wqtype := Z.lor (if mutex then KSYN_WQTYPE_MTX else KSYN_WQTYPE_CVAR) KSYN_WQTYPE_INDROP in
  f <- ksyn_wqfind lenv p cv cvgen cvugen (if mutex then 0 else cvsgen) flags wqtype nkwq ;;
  find_then f (fun q =>
    on_kwq q (cvclrprepost_locked wenv cvgen preposeq flags) ;;;
    ksyn_wqrelease lenv now q true wqtype ;;;
    ret (Returns 0 (Some 0))).

Definition __psynch_rw_lock (type rwlock lgenval ugenval rw_wc flags : Z) (nkwq : option nat) : MP call_result :=
  let wqtype := Z.lor KSYN_WQTYPE_INWAIT KSYN_WQTYPE_RWLOCK in
  f <- ksyn_wqfind lenv p rwlock lgenval ugenval rw_wc flags wqtype nkwq ;;
  find_then f (fun q =>
    r <- on_kwq q (rw_lock_locked wenv cur type lgenval rw_wc) ;;
    release_done q false wqtype r).
Definition _psynch_rw_rdlock := __psynch_rw_lock PTH_RW_TYPE_READ.
Definition _psynch_rw_wrlock := __psynch_rw_lock PTH_RW_TYPE_WRITE.
Definition _psynch_rw_longrdlock : MP call_result := ret (Returns ESRCH None).
Definition _psynch_rw_yieldwrlock : MP call_result := ret (Returns ESRCH None).
Definition _psynch_rw_unlock (rwlock lgenval ugenval rw_wc flags : Z) (nkwq : option nat) : MP call_result :=
  let wqtype := Z.lor KSYN_WQTYPE_INDROP KSYN_WQTYPE_RWLOCK in
  f <- ksyn_wqfind lenv p rwlock lgenval ugenval rw_wc flags wqtype nkwq ;;
  find_then f (fun q =>
    v <- on_kwq q (rw_unlock_locked wenv cur lgenval ugenval rw_wc) ;;
    ksyn_wqrelease lenv now q false wqtype ;;;
    ret (Returns 0 (Some v))).

(** The continuations release the queue the thread slept on. *)
Definition mtxcontinue (q : nat) (result : Z) : MP call_result :=
  r <- on_kwq q (psynch_mtxcontinue wenv cur result) ;;
  release_done q true (Z.lor KSYN_WQTYPE_INWAIT KSYN_WQTYPE_MTX) r.
Definition cvcontinue (q : nat) (result : Z) : MP call_result :=
  r <- on_kwq q (psynch_cvcontinue wenv cur result) ;;
  release_done q true (Z.lor KSYN_WQTYPE_INWAIT KSYN_WQTYPE_CVAR) r.
Definition rw_continue (kqi : kwq_queue_type_t) (q : nat) (result : Z) : MP call_result :=
  r <- on_kwq q (_psynch_rw_continue wenv cur kqi result) ;;
  release_done q false (Z.lor KSYN_WQTYPE_INWAIT KSYN_WQTYPE_RWLOCK) r.
Definition psynch_rw_rdcontinue := rw_continue KSYN_QUEUE_READ.
Definition psynch_rw_wrcontinue := rw_continue KSYN_QUEUE_WRITE.
End Calls.
End KsynHash.
