(* ===== verification/KsynHashProps.v ===== *)
(** Reference counting of the psynch wait queues: a queue a thread has found is
    neither freed nor moved until the thread releases it. *)
From S2P Require Import Prelude SeqArith Ksyn KsynSync KsynHash.

Module KsynHashProps.
Import Ksyn KsynSync KsynHash.

(** ** Rules *)
Lemma wp_kwq_deref q k (Q : ksyn_wait_queue -> pst -> Prop) s :
  kwqs s !! q = Some k -> Q k s -> wp (kwq_deref q) Q s.
Proof. intros E HQ. unfold wp, kwq_deref. by rewrite E. Qed.
Lemma wp_kwq_set q k f (Q : unit -> pst -> Prop) s :
  kwqs s !! q = Some k -> Q tt (s <| kwqs := <[q := f k]> (kwqs s) |>) -> wp (kwq_set q f) Q s.
Proof. intros E HQ. unfold wp, kwq_set. by rewrite E. Qed.
Lemma wp_list_lock interfere mine (Q : unit -> pst -> Prop) s :
  list_held s = false -> Q tt ((interfere mine s) <| list_held := true |>) -> wp (pthread_list_lock interfere mine) Q s.
Proof. intros Hh HQ. unfold wp, pthread_list_lock, bind, gets. by rewrite Hh. Qed.
Lemma wp_list_unlock (Q : unit -> pst -> Prop) s :
  list_held s = true -> Q tt (s <| list_held := false |>) -> wp pthread_list_unlock Q s.
Proof. intros Hh HQ. unfold wp, pthread_list_unlock, bind, gets, ensure. by rewrite Hh. Qed.
Lemma wp_proc_table p a h (Q : nat * hashtbl -> pst -> Prop) s :
  p_pthhash s !! p = Some a -> hashtbls s !! a = Some h -> Q (a, h) s -> wp (proc_table p) Q s.
Proof. intros E1 E2 HQ. unfold wp, proc_table. by rewrite E1, E2. Qed.

(** ** Flag words *)
Lemma has_lor_ne x m n : Z.land m n = 0 -> has (Z.lor x m) n = has x n.
Proof. intros E. unfold has. by rewrite Z.land_lor_distr_l, E, Z.lor_0_r. Qed.
Lemma has_clr_ne x m n : Z.land m n = 0 -> has (clr x m) n = has x n.
Proof.
  intros E. unfold has, clr. do 2 f_equal. apply Z.bits_inj'. intros i Hi.
  rewrite !Z.land_spec, Z.ldiff_spec. destruct (Z.testbit x i), (Z.testbit m i) eqn:Em, (Z.testbit n i) eqn:En; try done.
  assert (Z.testbit (Z.land m n) i = true) as H by (by rewrite Z.land_spec, Em, En). by rewrite E, Z.bits_0 in H.
Qed.
Abbreviation inhash k := (has (kw_pflags k) KSYN_WQ_INHASH).
Abbreviation inflist k := (has (kw_pflags k) KSYN_WQ_FLIST).

(** ** The invariant *)

(** [ref q] is the number of references to queue [q]. *)
Record pwf (ref : nat -> Z) (s : pst) : Prop := {
  pw_bucket a h i q : hashtbls s !! a = Some h -> q ∈ h i -> exists k, kwqs s !! q = Some k /\
    inhash k = true /\ i = Z.land (kw_addr k) (pthhash s);
  pw_nodup a h i : hashtbls s !! a = Some h -> NoDup (h i);
  pw_addr a h i q q' k k' : hashtbls s !! a = Some h -> q ∈ h i -> q' ∈ h i ->
    kwqs s !! q = Some k -> kwqs s !! q' = Some k' -> kw_addr k = kw_addr k' -> q = q';
  pw_one a a' h h' i i' q : hashtbls s !! a = Some h -> hashtbls s !! a' = Some h' ->
    q ∈ h i -> q ∈ h' i' -> a = a';
  pw_glob i : pth_glob_hashtbl s i = [];
  pw_flist q : q ∈ pth_free_list s <-> exists k, kwqs s !! q = Some k /\ inflist k = true;
  pw_fnodup : NoDup (pth_free_list s);
  pw_idle q k : kwqs s !! q = Some k -> inflist k = true ->
    kw_iocount k = 0 /\ _kwq_is_used k = false /\ inhash k = true;
  pw_ref q k : kwqs s !! q = Some k -> kw_iocount k = ref q;
  pw_pos q : 0 <= ref q;
  pw_held q : 0 < ref q -> exists k, kwqs s !! q = Some k /\ inhash k = true;
  pw_in q k : kwqs s !! q = Some k -> inhash k = true -> exists a h i, hashtbls s !! a = Some h /\ q ∈ h i;
  pw_next n : (kwq_next s <= n)%nat -> kwqs s !! n = None;
}.

(** A queue's fields change, but neither its address nor what lists it is on. *)
Lemma pwf_set ref s q k k' :
  pwf ref s -> kwqs s !! q = Some k -> kw_addr k' = kw_addr k -> inhash k' = inhash k -> inflist k' = inflist k ->
  0 <= kw_iocount k' -> (0 < kw_iocount k' -> inhash k = true) ->
  (inflist k = true -> kw_iocount k' = 0 /\ _kwq_is_used k' = false) ->
  pwf (upd ref q (kw_iocount k')) (s <| kwqs := <[q := k']> (kwqs s) |>).
Proof.
  intros W Ek Ha Hh Hf Hpos Hin Hidle. destruct W as [W1 W2 W3 W4 W5 W6 W7 W8 W9 W10 W11 W12 W13].
  assert (forall q0 k0, <[q := k']> (kwqs s) !! q0 = Some k0 -> exists k1, kwqs s !! q0 = Some k1 /\
    kw_addr k0 = kw_addr k1 /\ inhash k0 = inhash k1 /\ inflist k0 = inflist k1 /\ (q0 <> q -> k0 = k1)) as Hl.
  { intros q0 k0. destruct (decide (q0 = q)) as [->|Hne].
    - rewrite lookup_insert_eq. intros [= <-]. by exists k.
    - rewrite lookup_insert_ne by done. intros E. by exists k0. }
  assert (forall q0 k0, kwqs s !! q0 = Some k0 -> exists k1, <[q := k']> (kwqs s) !! q0 = Some k1 /\
    kw_addr k1 = kw_addr k0 /\ inhash k1 = inhash k0 /\ inflist k1 = inflist k0) as Hr.
  { intros q0 k0 E. destruct (decide (q0 = q)) as [->|Hne].
    - rewrite lookup_insert_eq. simplify_eq. by exists k'.
    - rewrite lookup_insert_ne by done. by exists k0. }
  constructor; cbn; try done.
  - intros a h i q0 E Hq. destruct (W1 a h i q0 E Hq) as (k0 & E0 & H1 & H2).
    destruct (Hr _ _ E0) as (k1 & E1 & A1 & B1 & _). exists k1. by rewrite B1, A1.
  - intros a h i q1 q2 k1 k2 E Hq1 Hq2 E1 E2 Haa. destruct (Hl _ _ E1) as (k1' & E1' & A1 & _).
    destruct (Hl _ _ E2) as (k2' & E2' & A2 & _). eapply W3; try done. congruence.
  - intros q0. rewrite W6. split; intros (k0 & E0 & H0).
    + destruct (Hr _ _ E0) as (k1 & E1 & _ & _ & C1). exists k1. by rewrite C1.
    + destruct (Hl _ _ E0) as (k1 & E1 & _ & _ & C1 & _). exists k1. by rewrite <- C1.
  - intros q0 k0 E0 H0. destruct (Hl _ _ E0) as (k1 & E1 & _ & B1 & C1 & D1). rewrite C1 in H0.
    destruct (W8 _ _ E1 H0) as (H1 & H2 & H3). destruct (decide (q0 = q)) as [->|Hne].
    + rewrite lookup_insert_eq in E0. injection E0 as <-. rewrite Ek in E1. injection E1 as <-.
      destruct (Hidle H0). split_and!; congruence.
    + by rewrite (D1 Hne).
  - intros q0 k0 E0. destruct (decide (q0 = q)) as [->|Hne].
    + rewrite lookup_insert_eq in E0. injection E0 as <-. by rewrite upd_eq.
    + rewrite lookup_insert_ne in E0 by done. rewrite upd_ne by done. eauto.
  - intros q0. unfold upd. case_decide; eauto.
  - intros q0. unfold upd. case_decide as E; [subst|].
    + intros H0. exists k'. rewrite lookup_insert_eq, Hh. eauto.
    + intros H0. destruct (W11 q0 H0) as (k0 & E0 & H1). exists k0. by rewrite lookup_insert_ne.
  - intros q0 k0 E0 H0. destruct (Hl _ _ E0) as (k1 & E1 & _ & B1 & _). eapply W12; [done|]. congruence.
  - intros n Hn. rewrite lookup_insert_ne; [by apply W13|]. intros <-. rewrite W13 in Ek by done. done.
Qed.
Lemma pwf_ext ref ref' s : (forall q, ref' q = ref q) -> pwf ref s -> pwf ref' s.
Proof.
  intros E []. constructor; try done.
  - intros q k Hk. rewrite E. eauto.
  - intros q. by rewrite E.
  - intros q. rewrite E. eauto.
Qed.
Lemma pwf_set_same ref s q k k' :
  pwf ref s -> kwqs s !! q = Some k -> kw_addr k' = kw_addr k -> inhash k' = inhash k -> inflist k' = inflist k ->
  kw_iocount k' = kw_iocount k -> (inflist k = true -> _kwq_is_used k' = _kwq_is_used k) ->
  pwf ref (s <| kwqs := <[q := k']> (kwqs s) |>).
Proof.
  intros W Ek Ha Hh Hf Hi Hu. eapply pwf_ext; [|apply (pwf_set ref s q k k')]; try done.
  - intros q0. unfold upd. case_decide; [subst|done]. rewrite Hi. symmetry. by eapply pw_ref.
  - rewrite Hi, (pw_ref _ _ W _ _ Ek). apply W.
  - rewrite Hi, (pw_ref _ _ W _ _ Ek). intros H0. destruct (pw_held _ _ W q H0) as (k0 & E0 & H1). congruence.
  - intros Hfl. destruct (pw_idle _ _ W q k Ek Hfl) as (H1 & H2 & _). rewrite Hi, Hu by done. done.
Qed.
(** Fields the invariant does not mention. *)
Lemma pwf_other ref s s' :
  kwqs s' = kwqs s -> kwq_next s' = kwq_next s -> pth_glob_hashtbl s' = pth_glob_hashtbl s -> hashtbls s' = hashtbls s ->
  pthhash s' = pthhash s -> pth_free_list s' = pth_free_list s -> pwf ref s -> pwf ref s'.
Proof. intros E1 E2 E3 E4 E5 E6 []. constructor; rewrite ?E1, ?E2, ?E3, ?E4, ?E5, ?E6; done. Qed.

(** A queue leaves the free list. *)
Definition unflist (q : nat) (k : ksyn_wait_queue) (s : pst) : pst :=
  s <| pth_free_list ::= unlink q |>
    <| kwqs := <[q := k <| kw_pflags ::= fun f => clr f KSYN_WQ_FLIST |>]> (kwqs s) |>.
Lemma pwf_unflist ref s q k : pwf ref s -> kwqs s !! q = Some k -> inflist k = true -> pwf ref (unflist q k s).
Proof.
  intros W Ek Hf. set (k' := k <| kw_pflags ::= fun f => clr f KSYN_WQ_FLIST |>).
  assert (inhash k' = inhash k) as Hh by (by apply has_clr_ne).
  assert (inflist k' = false) as Hnf by (apply has_clr).
  destruct W as [W1 W2 W3 W4 W5 W6 W7 W8 W9 W10 W11 W12 W13].
  assert (forall q0 k0, <[q := k']> (kwqs s) !! q0 = Some k0 -> exists k1, kwqs s !! q0 = Some k1 /\
    kw_addr k0 = kw_addr k1 /\ inhash k0 = inhash k1 /\ kw_iocount k0 = kw_iocount k1 /\ (q0 <> q -> k0 = k1)) as Hl.
  { intros q0 k0. destruct (decide (q0 = q)) as [->|Hne].
    - rewrite lookup_insert_eq. intros [= <-]. by exists k.
    - rewrite lookup_insert_ne by done. intros E. by exists k0. }
  assert (forall q0 k0, kwqs s !! q0 = Some k0 -> exists k1, <[q := k']> (kwqs s) !! q0 = Some k1 /\
    kw_addr k1 = kw_addr k0 /\ inhash k1 = inhash k0) as Hr.
  { intros q0 k0 E. destruct (decide (q0 = q)) as [->|Hne].
    - rewrite lookup_insert_eq. simplify_eq. by exists k'.
    - rewrite lookup_insert_ne by done. by exists k0. }
  constructor; cbn; fold k'; try done.
  - intros a h i q0 E Hq. destruct (W1 a h i q0 E Hq) as (k0 & E0 & H1 & H2).
    destruct (Hr _ _ E0) as (k1 & E1 & A1 & B1). exists k1. by rewrite B1, A1.
  - intros a h i q1 q2 k1 k2 E Hq1 Hq2 E1 E2 Haa. destruct (Hl _ _ E1) as (k1' & E1' & A1 & _).
    destruct (Hl _ _ E2) as (k2' & E2' & A2 & _). eapply W3; try done. congruence.
  - intros q0. rewrite elem_of_unlink_iff, W6 by done. split.
    + intros [(k0 & E0 & H0) Hne]. exists k0. by rewrite lookup_insert_ne.
    + intros (k0 & E0 & H0). destruct (decide (q0 = q)) as [->|Hne].
      * rewrite lookup_insert_eq in E0. injection E0 as <-. by rewrite Hnf in H0.
      * rewrite lookup_insert_ne in E0 by done. split; [by exists k0|done].
  - by apply NoDup_unlink.
  - intros q0 k0 E0 H0. destruct (Hl _ _ E0) as (k1 & E1 & _ & B1 & _ & D1). destruct (decide (q0 = q)) as [->|Hne].
    + rewrite lookup_insert_eq in E0. injection E0 as <-. by rewrite Hnf in H0.
    + rewrite (D1 Hne) in *. eauto.
  - intros q0 k0 E0. destruct (Hl _ _ E0) as (k1 & E1 & _ & _ & C1 & _). rewrite C1. eauto.
  - intros q0 H0. destruct (W11 q0 H0) as (k0 & E0 & H1). destruct (Hr _ _ E0) as (k1 & E1 & _ & B1). exists k1. by rewrite B1.
  - intros q0 k0 E0 H0. destruct (Hl _ _ E0) as (k1 & E1 & _ & B1 & _). eapply W12; [done|]. congruence.
  - intros n Hn. rewrite lookup_insert_ne; [by apply W13|]. intros <-. rewrite W13 in Ek by done. done.
Qed.

(** An unused queue that nobody references goes to the free list. *)
Definition flisted (q : nat) (k' : ksyn_wait_queue) (s : pst) : pst :=
  s <| pth_free_list ::= cons q |> <| kwqs := <[q := k']> (kwqs s) |>.
Lemma pwf_flisted ref s q k k' :
  pwf ref s -> kwqs s !! q = Some k -> inflist k = false -> inhash k = true -> ref q = 0 -> _kwq_is_used k' = false ->
  kw_addr k' = kw_addr k -> kw_iocount k' = kw_iocount k -> inhash k' = true -> inflist k' = true ->
  pwf ref (flisted q k' s).
Proof.
  intros W Ek Hf Hh Hr0 Hu Ha Hi Hh' Hf'. assert (q ∉ pth_free_list s) as Hnot.
  { intros Hq. apply (pw_flist _ _ W) in Hq as (k0 & E0 & H0). congruence. }
  destruct W as [W1 W2 W3 W4 W5 W6 W7 W8 W9 W10 W11 W12 W13].
  assert (forall q0 k0, <[q := k']> (kwqs s) !! q0 = Some k0 -> exists k1, kwqs s !! q0 = Some k1 /\
    kw_addr k0 = kw_addr k1 /\ inhash k0 = inhash k1 /\ kw_iocount k0 = kw_iocount k1 /\ (q0 <> q -> k0 = k1)) as Hl.
  { intros q0 k0. destruct (decide (q0 = q)) as [->|Hne].
    - rewrite lookup_insert_eq. intros [= <-]. exists k. split_and!; congruence.
    - rewrite lookup_insert_ne by done. intros E. by exists k0. }
  assert (forall q0 k0, kwqs s !! q0 = Some k0 -> exists k1, <[q := k']> (kwqs s) !! q0 = Some k1 /\
    kw_addr k1 = kw_addr k0 /\ inhash k1 = inhash k0) as Hr.
  { intros q0 k0 E. destruct (decide (q0 = q)) as [->|Hne].
    - rewrite lookup_insert_eq. simplify_eq. exists k'. split_and!; congruence.
    - rewrite lookup_insert_ne by done. by exists k0. }
  constructor; cbn; try done.
  - intros a h i q0 E Hq. destruct (W1 a h i q0 E Hq) as (k0 & E0 & H1 & H2).
    destruct (Hr _ _ E0) as (k1 & E1 & A1 & B1). exists k1. by rewrite B1, A1.
  - intros a h i q1 q2 k1 k2 E Hq1 Hq2 E1 E2 Haa. destruct (Hl _ _ E1) as (k1' & E1' & A1 & _).
    destruct (Hl _ _ E2) as (k2' & E2' & A2 & _). eapply W3; try done. congruence.
  - intros q0. rewrite elem_of_cons, W6. split.
    + intros [->|(k0 & E0 & H0)]; [exists k'; by rewrite lookup_insert_eq|].
      exists k0. rewrite lookup_insert_ne; [done|]. intros <-. congruence.
    + intros (k0 & E0 & H0). destruct (decide (q0 = q)) as [->|Hne]; [by left|right].
      rewrite lookup_insert_ne in E0 by done. by exists k0.
  - by constructor.
  - intros q0 k0 E0 H0. destruct (Hl _ _ E0) as (k1 & E1 & _ & B1 & C1 & D1). destruct (decide (q0 = q)) as [->|Hne].
    + rewrite lookup_insert_eq in E0. injection E0 as <-. rewrite C1, (W9 _ _ E1). done.
    + rewrite (D1 Hne) in *. eauto.
  - intros q0 k0 E0. destruct (Hl _ _ E0) as (k1 & E1 & _ & _ & C1 & _). rewrite C1. eauto.
  - intros q0 H0. destruct (W11 q0 H0) as (k0 & E0 & H1). destruct (Hr _ _ E0) as (k1 & E1 & _ & B1). exists k1. by rewrite B1.
  - intros q0 k0 E0 H0. destruct (Hl _ _ E0) as (k1 & E1 & _ & B1 & _). eapply W12; [done|]. congruence.
  - intros n Hn. rewrite lookup_insert_ne; [by apply W13|]. intros <-. rewrite W13 in Ek by done. done.
Qed.

(** A queue nobody references is taken out of the table and freed. *)
Definition unhashed (q : nat) (s : pst) : pst :=
  s <| pth_glob_hashtbl ::= fun h i => unlink q (h i) |>
    <| hashtbls ::= fmap (fun (h : hashtbl) i => unlink q (h i)) |>.
Lemma unhashed_lookup q s a h :
  hashtbls (unhashed q s) !! a = Some h -> exists h0, hashtbls s !! a = Some h0 /\ h = fun i => unlink q (h0 i).
Proof. intros H. change (((fun (h : hashtbl) i => unlink q (h i)) <$> hashtbls s) !! a = Some h) in H.
  rewrite lookup_fmap in H. apply fmap_Some in H as (h0 & E & ->). by exists h0. Qed.
Lemma unhashed_lookup_2 q s a h :
  hashtbls s !! a = Some h -> hashtbls (unhashed q s) !! a = Some (fun i => unlink q (h i)).
Proof.
  intros E. change (((fun (h : hashtbl) i => unlink q (h i)) <$> hashtbls s) !! a = Some (fun i => unlink q (h i))).
  rewrite lookup_fmap. apply fmap_Some. by exists h.
Qed.
Lemma pwf_gone ref s q k :
  pwf ref s -> kwqs s !! q = Some k -> inflist k = false -> ref q = 0 ->
  pwf ref ((unhashed q s) <| kwqs := delete q (kwqs s) |>).
Proof.
  intros W Ek Hf Hr0. assert (forall k0, kwqs s !! q = Some k0 -> inflist k0 = false) as Hf0 by naive_solver.
  destruct W as [W1 W2 W3 W4 W5 W6 W7 W8 W9 W10 W11 W12 W13].
  assert (forall q0 k0, delete q (kwqs s) !! q0 = Some k0 -> q0 <> q /\ kwqs s !! q0 = Some k0) as Hl.
  { intros q0 k0. rewrite lookup_delete_Some. naive_solver. }
  assert (forall a h i q0, hashtbls (unhashed q s) !! a = Some h -> q0 ∈ h i ->
    q0 <> q /\ exists h0, hashtbls s !! a = Some h0 /\ q0 ∈ h0 i) as Hh.
  { intros a h i q0 E Hq. apply unhashed_lookup in E as (h0 & E & ->).
    apply elem_of_unlink_iff in Hq as [Hq Hne]; [|eauto]. split; [done|]. by exists h0. }
  constructor; cbn; try done.
  - intros a h i q0 E Hq. destruct (Hh _ _ _ _ E Hq) as (Hne & h0 & E0 & Hq0).
    destruct (W1 a h0 i q0 E0 Hq0) as (k0 & Ek0 & H1 & H2). exists k0. by rewrite lookup_delete_ne.
  - intros a h i E. apply unhashed_lookup in E as (h0 & E & ->). apply NoDup_unlink. eauto.
  - intros a h i q1 q2 k1 k2 E Hq1 Hq2 E1 E2 Haa. destruct (Hh _ _ _ _ E Hq1) as (_ & h0 & E0 & Hq1').
    destruct (Hh _ _ _ _ E Hq2) as (_ & h0' & E0' & Hq2'). rewrite E0 in E0'. injection E0' as <-.
    apply Hl in E1 as [_ E1]. apply Hl in E2 as [_ E2]. eapply (W3 a h0 i q1 q2); done.
  - intros a a' h h' i i' q0 E E' Hq Hq'. destruct (Hh _ _ _ _ E Hq) as (_ & h0 & E0 & Hq0).
    destruct (Hh _ _ _ _ E' Hq') as (_ & h0' & E0' & Hq0'). eapply (W4 a a' h0 h0'); done.
  - intros i. by rewrite W5.
  - intros q0. rewrite W6. split; intros (k0 & E0 & H0).
    + exists k0. rewrite lookup_delete_ne; [done|]. intros <-. rewrite (Hf0 k0 E0) in H0. done.
    + exists k0. split; [|done]. by apply Hl in E0 as [_ ?].
  - intros q0 k0 E0. apply Hl in E0 as [_ E0]. eauto.
  - intros q0 k0 E0. apply Hl in E0 as [_ E0]. eauto.
  - intros q0 H0. destruct (W11 q0 H0) as (k0 & E0 & H1). exists k0. rewrite lookup_delete_ne; [done|]. intros <-. lia.
  - intros q0 k0 E0 H0. apply Hl in E0 as [Hne E0]. destruct (W12 q0 k0 E0 H0) as (a & h & i & E & Hq).
    exists a, (fun i => unlink q (h i)), i. split; [by apply unhashed_lookup_2|by apply elem_of_unlink_ne].
  - intros n Hn. apply lookup_delete_None. right. by apply W13.
Qed.

(** A queue fresh from the zone; it is on no list yet. *)
Definition alloced (s : pst) : pst := s <| kwqs ::= <[kwq_next s := kwq_zero]> |> <| kwq_next ::= S |>.
Lemma pwf_alloc ref s : pwf ref s -> pwf ref (alloced s).
Proof.
  intros [W1 W2 W3 W4 W5 W6 W7 W8 W9 W10 W11 W12 W13]. set (n := kwq_next s).
  assert (kwqs s !! n = None) as Hn by (by apply W13).
  assert (ref n = 0) as Hr0. { destruct (decide (0 < ref n)) as [Hp|]; [|specialize (W10 n); lia]. destruct (W11 n Hp) as (k & E & _). congruence. }
  assert (forall q k, kwqs s !! q = Some k -> <[n := kwq_zero]> (kwqs s) !! q = Some k) as Hr.
  { intros q k E. rewrite lookup_insert_ne; [done|]. intros <-. congruence. }
  assert (forall q k, <[n := kwq_zero]> (kwqs s) !! q = Some k -> kwqs s !! q = Some k \/ (q = n /\ k = kwq_zero)) as Hl.
  { intros q k E. apply lookup_insert_Some in E. naive_solver. }
  constructor; cbn; fold n; try done.
  - intros a h i q E Hq. destruct (W1 a h i q E Hq) as (k & Ek & Hk). exists k. auto.
  - intros a h i q q' k k' E Hq Hq' Ek Ek'. destruct (W1 a h i q E Hq) as (k0 & E0 & _). destruct (W1 a h i q' E Hq') as (k0' & E0' & _).
    rewrite (Hr _ _ E0) in Ek. rewrite (Hr _ _ E0') in Ek'. simplify_eq. by eapply W3.
  - intros q. rewrite W6. split; intros (k & Ek & Hk); [exists k; auto|]. destruct (Hl _ _ Ek) as [?|[-> ->]]; [by exists k|done].
  - intros q k Ek Hk. destruct (Hl _ _ Ek) as [?|[-> ->]]; [eauto|done].
  - intros q k Ek. destruct (Hl _ _ Ek) as [?|[-> ->]]; [eauto|by rewrite Hr0].
  - intros q Hq. destruct (W11 q Hq) as (k & Ek & Hk). exists k. auto.
  - intros q k Ek Hk. destruct (Hl _ _ Ek) as [?|[-> ->]]; [eauto|done].
  - intros m Hm. rewrite lookup_insert_ne by lia. apply W13. lia.
Qed.

(** A queue enters the table with its first reference. *)
Definition hashed (a : nat) (h : hashtbl) (i : Z) (n : nat) (k' : ksyn_wait_queue) (s : pst) : pst :=
  s <| hashtbls ::= <[a := upd h i (n :: h i)]> |> <| kwqs := <[n := k']> (kwqs s) |>.
Lemma pwf_hashed ref s a h n k k' :
  pwf ref s -> hashtbls s !! a = Some h -> kwqs s !! n = Some k -> inhash k = false ->
  (forall q k0, q ∈ h (Z.land (kw_addr k') (pthhash s)) -> kwqs s !! q = Some k0 -> kw_addr k0 <> kw_addr k') ->
  inhash k' = true -> inflist k' = false -> kw_iocount k' = 1 ->
  pwf (upd ref n 1) (hashed a h (Z.land (kw_addr k') (pthhash s)) n k' s).
Proof.
  intros [W1 W2 W3 W4 W5 W6 W7 W8 W9 W10 W11 W12 W13] Ea En Hin Hfresh Hh' Hf' Hi'. set (i0 := Z.land _ _).
  assert (forall b hb i, hashtbls s !! b = Some hb -> n ∉ hb i) as Hnot.
  { intros b hb i E Hq. destruct (W1 b hb i n E Hq) as (k0 & E0 & H0 & _). congruence. }
  assert (forall b hb i q, <[a := upd h i0 (n :: h i0)]> (hashtbls s) !! b = Some hb -> q ∈ hb i ->
    (q = n /\ b = a /\ i = i0) \/ (q <> n /\ exists h0, hashtbls s !! b = Some h0 /\ q ∈ h0 i)) as Hb.
  { intros b hb i q E Hq. destruct (decide (q = n)) as [->|Hne].
    - apply lookup_insert_Some in E as [[<- <-]|[Hne E]]; [|by destruct (Hnot b hb i E)].
      left. unfold upd in Hq. case_decide; [done|]. by destruct (Hnot a h i Ea).
    - right. split; [done|]. apply lookup_insert_Some in E as [[<- <-]|[Hne' E]]; [|by exists hb].
      exists h. split; [done|]. unfold upd in Hq. case_decide; [subst|done]. apply elem_of_cons in Hq. naive_solver. }
  assert (forall q k0, q <> n -> <[n := k']> (kwqs s) !! q = Some k0 <-> kwqs s !! q = Some k0) as Hne.
  { intros q k0 Hne. by rewrite lookup_insert_ne. }
  constructor; cbn; fold i0; try done.
  - intros b hb i q E Hq. destruct (Hb _ _ _ _ E Hq) as [(-> & -> & ->)|(Hqn & h0 & E0 & Hq0)].
    + exists k'. by rewrite lookup_insert_eq.
    + destruct (W1 b h0 i q E0 Hq0) as (k0 & Ek0 & H0). exists k0. by rewrite Hne.
  - intros b hb i E. apply lookup_insert_Some in E as [[<- <-]|[Hne' E]]; [|eauto].
    unfold upd. case_decide; [subst|eauto]. constructor; eauto.
  - intros b hb i q q' kq kq' E Hq Hq' Ek Ek' Haa.
    destruct (Hb _ _ _ _ E Hq) as [(-> & -> & ->)|(Hqn & h0 & E0 & Hq0)],
             (Hb _ _ _ _ E Hq') as [(-> & ? & ?)|(Hqn' & h0' & E0' & Hq0')]; subst; try done.
    + rewrite lookup_insert_eq in Ek. injection Ek as <-. rewrite Hne in Ek' by done. simplify_eq.
      destruct (Hfresh q' kq' Hq0' Ek'). congruence.
    + rewrite lookup_insert_eq in Ek'. injection Ek' as <-. rewrite Hne in Ek by done. simplify_eq.
      destruct (Hfresh q kq Hq0 Ek). congruence.
    + rewrite Hne in Ek, Ek' by done. rewrite E0 in E0'. injection E0' as <-. by eapply (W3 b h0 i q q').
  - intros b b' hb hb' i i' q E E' Hq Hq'.
    destruct (Hb _ _ _ _ E Hq) as [(-> & -> & ->)|(Hqn & h0 & E0 & Hq0)],
             (Hb _ _ _ _ E' Hq') as [(? & ? & ?)|(Hqn' & h0' & E0' & Hq0')]; subst; try done. by eapply (W4 b b' h0 h0').
  - intros q. rewrite W6. split; intros (k0 & E0 & H0).
    + exists k0. rewrite Hne; [done|]. intros ->. destruct (W8 _ _ E0 H0) as (_ & _ & ?). congruence.
    + destruct (decide (q = n)) as [->|Hqn]; [rewrite lookup_insert_eq in E0; congruence|]. exists k0. by rewrite <- Hne.
  - intros q k0 E0 H0. destruct (decide (q = n)) as [->|Hqn]; [rewrite lookup_insert_eq in E0; congruence|].
    rewrite Hne in E0 by done. eauto.
  - intros q k0 E0. destruct (decide (q = n)) as [->|Hqn]; [rewrite lookup_insert_eq in E0; rewrite upd_eq; congruence|].
    rewrite Hne in E0 by done. rewrite upd_ne by done. eauto.
  - intros q. unfold upd. case_decide; [lia|eauto].
  - intros q. unfold upd. case_decide as Eq; [subst; intros _; exists k'; by rewrite lookup_insert_eq|].
    intros Hq. destruct (W11 q Hq) as (k0 & E0 & H0). exists k0. by rewrite Hne.
  - intros q k0 E0 H0. destruct (decide (q = n)) as [->|Hqn].
    + exists a, (upd h i0 (n :: h i0)), i0. rewrite lookup_insert_eq, upd_eq. split; [done|]. left.
    + rewrite Hne in E0 by done. destruct (W12 q k0 E0 H0) as (b & hb & i & Eb & Hq). destruct (decide (b = a)) as [->|Hba].
      * rewrite Ea in Eb. injection Eb as <-. exists a, (upd h i0 (n :: h i0)), i. rewrite lookup_insert_eq. split; [done|].
        unfold upd. case_decide; [subst; by right|done].
      * exists b, hb, i. by rewrite lookup_insert_ne.
  - intros m Hm. rewrite lookup_insert_ne; [by apply W13|]. intros <-. rewrite W13 in En by done. done.
Qed.

(** A queue that never entered the table is freed. *)
Definition dropped (n : nat) (s : pst) : pst := s <| kwqs ::= delete n |>.
Lemma pwf_dropped ref s n k : pwf ref s -> kwqs s !! n = Some k -> inhash k = false -> pwf ref (dropped n s).
Proof.
  intros [W1 W2 W3 W4 W5 W6 W7 W8 W9 W10 W11 W12 W13] En Hin.
  assert (forall q k0, kwqs s !! q = Some k0 -> inhash k0 = true -> delete n (kwqs s) !! q = Some k0) as Hr.
  { intros q k0 E H0. rewrite lookup_delete_ne; [done|]. intros <-. congruence. }
  assert (forall q k0, delete n (kwqs s) !! q = Some k0 -> kwqs s !! q = Some k0) as Hl.
  { intros q k0 E. by apply lookup_delete_Some in E as [_ ?]. }
  constructor; cbn; try done.
  - intros a h i q E Hq. destruct (W1 a h i q E Hq) as (k0 & E0 & H0 & H1). exists k0. auto.
  - intros a h i q q' k1 k2 E Hq Hq' E1 E2. by eapply W3; eauto.
  - intros q. rewrite W6. split; intros (k0 & E0 & H0); exists k0; split; auto.
    apply Hr; [done|]. by eapply W8.
  - intros q k0 E0. eauto.
  - intros q k0 E0. eauto.
  - intros q Hq. destruct (W11 q Hq) as (k0 & E0 & H0). exists k0. auto.
  - intros q k0 E0. eauto.
  - intros m Hm. apply lookup_delete_None. right. by apply W13.
Qed.

(** ** Finding a queue *)

Lemma wp_lookup_in same l (Q : option nat -> pst -> Prop) s :
  (forall q, q ∈ l -> is_Some (kwqs s !! q)) ->
  (forall q k, q ∈ l -> kwqs s !! q = Some k -> same k = true -> Q (Some q) s) ->
  ((forall q k, q ∈ l -> kwqs s !! q = Some k -> same k = false) -> Q None s) ->
  wp (lookup_in same l) Q s.
Proof.
  induction l as [|q l IH]; intros Hl HS HN; cbn.
  - apply wp_ret, HN. intros q k Hq. by apply elem_of_nil in Hq.
  - destruct (Hl q) as [k Ek]; [left|]. wp_step. apply (wp_kwq_deref q k); [done|]. destruct (same k) eqn:E.
    + apply wp_ret. eapply HS; [left|done..].
    + apply IH.
      * intros q0 Hq0. apply Hl. by right.
      * intros q0 k0 Hq0. apply HS. by right.
      * intros HF. apply HN. intros q0 k0 Hq0 E0. apply elem_of_cons in Hq0 as [->|Hq0]; [congruence|eauto].
Qed.

(** What [wqfind_take] does to the queue it takes. *)
Record taken (uaddr wqtype : Z) (k k' : ksyn_wait_queue) : Prop := {
  tk_addr : kw_addr k' = (if kw_type k =? 0 then uaddr else kw_addr k);
  tk_type : kw_type k' = (if kw_type k =? 0 then Z.land wqtype KSYN_WQTYPE_MASK else kw_type k);
  tk_pflags : kw_pflags k' = kw_pflags k;
  tk_iocount : kw_iocount k' = s32 (kw_iocount k + 1);
}.
Lemma CLEAR_REINIT_unused k : kw_inqueue k = 0 -> exists k', CLEAR_REINIT_BITS k = Some k' /\
  kw_addr k' = kw_addr k /\ kw_type k' = kw_type k /\ kw_pflags k' = kw_pflags k /\ kw_iocount k' = kw_iocount k.
Proof. intros E. unfold CLEAR_REINIT_BITS. rewrite E, andb_false_r. cbn [andb]. eexists. split; [done|]. by case_bool. Qed.

Lemma set_set s q k k' :
  (s <| kwqs := <[q := k]> (kwqs s) |>) <| kwqs := <[q := k']> (kwqs (s <| kwqs := <[q := k]> (kwqs s) |>)) |> =
  s <| kwqs := <[q := k']> (kwqs s) |>.
Proof. cbn. by rewrite insert_insert_eq. Qed.
Lemma set_lookup s q k : kwqs (s <| kwqs := <[q := k]> (kwqs s) |>) !! q = Some k.
Proof. cbn. by rewrite lookup_insert_eq. Qed.
Lemma set_held s q k : list_held (s <| kwqs := <[q := k]> (kwqs s) |>) = list_held s.
Proof. done. Qed.

Lemma wp_take uaddr mgen ugen sgen wqtype q k (Q : unit -> pst -> Prop) s :
  kwqs s !! q = Some k -> list_held s = true -> (kw_type k = 0 -> kw_inqueue k = 0) ->
  (forall k', taken uaddr wqtype k k' -> Q tt ((s <| kwqs := <[q := k']> (kwqs s) |>) <| list_held := false |>)) ->
  wp (wqfind_take uaddr mgen ugen sgen wqtype 0 0 q) Q s.
Proof.
  intros Ek Hh Hq HQ. unfold wqfind_take. wp_step. apply (wp_kwq_deref q k); [done|].
  assert (forall k1 k', kw_addr k1 = (if kw_type k =? 0 then uaddr else kw_addr k) ->
    kw_type k1 = (if kw_type k =? 0 then Z.land wqtype KSYN_WQTYPE_MASK else kw_type k) ->
    kw_pflags k1 = kw_pflags k -> kw_iocount k1 = kw_iocount k ->
    k' = k1 <| kw_iocount ::= fun c => s32 (c + 1) |> \/
    k' = k1 <| kw_iocount ::= fun c => s32 (c + 1) |> <| kw_dropcount ::= fun c => s32 (c + 1) |> ->
    taken uaddr wqtype k k') as Htk.
  { intros k1 k' H1 H2 H3 H4 [->| ->]; constructor; cbn; congruence. }
  assert (forall k1, kw_addr k1 = (if kw_type k =? 0 then uaddr else kw_addr k) ->
    kw_type k1 = (if kw_type k =? 0 then Z.land wqtype KSYN_WQTYPE_MASK else kw_type k) ->
    kw_pflags k1 = kw_pflags k -> kw_iocount k1 = kw_iocount k ->
    wp (kwq_set q (fun k => k <| kw_iocount ::= fun c => s32 (c + 1) |>) ;;;
        when (wqtype =? KSYN_WQTYPE_MUTEXDROP) (kwq_set q (fun k => k <| kw_dropcount ::= fun c => s32 (c + 1) |>)) ;;;
        pthread_list_unlock) Q (s <| kwqs := <[q := k1]> (kwqs s) |>)) as Hrest.
  { intros k1 H1 H2 H3 H4. wp_step. eapply wp_kwq_set; [apply set_lookup|]. rewrite set_set. wp_step.
    unfold when. case_bool.
    - eapply wp_kwq_set; [apply set_lookup|]. rewrite set_set. apply wp_list_unlock; [by rewrite set_held|]. apply HQ. eauto.
    - apply wp_ret. apply wp_list_unlock; [by rewrite set_held|]. apply HQ. eauto. }
  destruct (kw_type k =? 0) eqn:Et.
  - apply Z.eqb_eq in Et. wp_step. wp_step. eapply wp_kwq_set; [done|]. wp_step.
    set (k0 := k <| kw_addr := uaddr |> <| kw_object := 0 |> <| kw_offset := 0 |> <| kw_type := Z.land wqtype KSYN_WQTYPE_MASK |>).
    apply (wp_kwq_deref q k0); [apply set_lookup|]. destruct (CLEAR_REINIT_unused k0 (Hq Et)) as (k1 & -> & A & B & C & D).
    eapply wp_kwq_set; [apply set_lookup|]. rewrite set_set. by apply Hrest.
  - wp_step. apply wp_ret. replace s with (s <| kwqs := <[q := k]> (kwqs s) |>); [by apply Hrest|].
    clear -Ek. destruct s. cbn in *. by rewrite insert_id.
Qed.

(** ** The table seen by one process *)

(** [own q] of the references to [q] belong to the threads under consideration;
    process [p] has a table. *)
Record pinv (p : nat) (own : nat -> Z) (s : pst) : Prop := {
  pi_ref : exists ref, pwf ref s /\ forall q, own q <= ref q;
  pi_table : exists a h, p_pthhash s !! p = Some a /\ hashtbls s !! a = Some h;
}.
(** Queue [q] is the one process [p] has for [uaddr]. *)
Definition queue_of (p : nat) (uaddr : Z) (q : nat) (s : pst) : Prop :=
  exists a h k, p_pthhash s !! p = Some a /\ hashtbls s !! a = Some h /\
    q ∈ h (Z.land uaddr (pthhash s)) /\ kwqs s !! q = Some k /\ kw_addr k = uaddr.
(** What the other threads keep while the list lock is free: the invariant, the
    caller's references and the queues these refer to, the fresh queue only the
    caller knows, and room for one more reference in every count. *)
Definition roomy (s : pst) : Prop := forall q k, kwqs s !! q = Some k -> kw_iocount k < 2 ^ 31 - 1.
Class ListRely (p : nat) (interfere : list_environment) : Prop := {
  lr_inv own mine s : pinv p own s -> pinv p own (interfere mine s);
  lr_mine own n s : pinv p own s -> kwqs s !! n = Some kwq_zero -> kwqs (interfere (Some n) s) !! n = Some kwq_zero;
  lr_held own mine s q uaddr : pinv p own s -> 0 < own q -> queue_of p uaddr q s -> queue_of p uaddr q (interfere mine s);
  lr_room own mine s : pinv p own s -> roomy s -> roomy (interfere mine s);
}.

Definition mine_ok (s : pst) (n : option nat) : Prop := forall q, n = Some q -> kwqs s !! q = Some kwq_zero.

Lemma pwf_held ref s b : pwf ref s -> pwf ref (s <| list_held := b |>).
Proof. by apply pwf_other. Qed.
Lemma iocount_incr ref s q k : pwf ref s -> kwqs s !! q = Some k -> kw_iocount k < 2 ^ 31 - 1 ->
  s32 (kw_iocount k + 1) = ref q + 1.
Proof.
  intros W E H. rewrite (pw_ref _ _ W q k E) in *. pose proof (pw_pos _ _ W q). apply s32_id. lia.
Qed.
Lemma unused_inqueue k : _kwq_is_used k = false -> kw_inqueue k = 0.
Proof. unfold _kwq_is_used. intros H. apply orb_false_iff in H as [[H _]%orb_false_iff _]. apply negb_false_iff in H. lia. Qed.

Section Find.
Context (p : nat) (interfere : list_environment) `{!ListRely p interfere}.
Context (own : nat -> Z) (uaddr mgen ugen sgen flags wqtype : Z).
Context (Hpriv : is_shared flags = false) (Htype : Z.land wqtype KSYN_WQTYPE_MASK <> 0).

(** A hashed queue with its type and its first or another reference. *)
Definition found_post (q : nat) (s' : pst) : Prop :=
  list_held s' = false /\ pinv p (upd own q (own q + 1)) s' /\ queue_of p uaddr q s' /\
  exists k, kwqs s' !! q = Some k /\ Z.land (kw_type k) KSYN_WQTYPE_MASK = Z.land wqtype KSYN_WQTYPE_MASK.
Definition pass_post (nkwq : option nat) (r : find_outcome * option nat) (s' : pst) : Prop :=
  match r with
  | (FNeed, n) => n = None /\ nkwq = None /\ list_held s' = false /\ pinv p own s' /\ roomy s'
  | (FSleep, n) => n = nkwq /\ list_held s' = false /\ pinv p own s' /\ mine_ok s' nkwq
  | (FDone res q, n) =>
      (n = None \/ n = nkwq /\ mine_ok s' nkwq /\ nkwq <> Some q) /\
      (res = 0 /\ found_post q s' \/ res = EINVAL /\ list_held s' = false /\ pinv p own s')
  end.

Lemma pinv_intro ref s a h own' : pwf ref s -> (forall q, own' q <= ref q) ->
  p_pthhash s !! p = Some a -> hashtbls s !! a = Some h -> pinv p own' s.
Proof. intros W Ho E1 E2. split; [by exists ref|by exists a, h]. Qed.
Lemma type_mask : Z.land (Z.land wqtype KSYN_WQTYPE_MASK) KSYN_WQTYPE_MASK = Z.land wqtype KSYN_WQTYPE_MASK.
Proof. by rewrite <- Z.land_assoc, Z.land_diag. Qed.

(** Taking a queue that is in the table and off the free list. *)
Lemma wp_take_hashed ref s a h q k (Q : unit -> pst -> Prop) :
  pwf ref s -> (forall q, own q <= ref q) -> p_pthhash s !! p = Some a -> hashtbls s !! a = Some h ->
  q ∈ h (Z.land uaddr (pthhash s)) -> kwqs s !! q = Some k -> kw_addr k = uaddr -> inflist k = false ->
  kw_iocount k < 2 ^ 31 - 1 -> list_held s = true -> (kw_type k = 0 -> kw_inqueue k = 0) ->
  (kw_type k = 0 \/ Z.land (kw_type k) KSYN_WQTYPE_MASK = Z.land wqtype KSYN_WQTYPE_MASK) ->
  (forall s', found_post q s' -> (forall q', q' <> q -> kwqs s' !! q' = kwqs s !! q') -> Q tt s') ->
  wp (wqfind_take uaddr mgen ugen sgen wqtype 0 0 q) Q s.
Proof.
  intros W Ho Ea Eh Hq Ek Hk Hf Hroom Hheld Hz Hty HQ. eapply wp_take; [done..|]. intros k' [T1 T2 T3 T4].
  destruct (pw_bucket _ _ W a h _ q Eh Hq) as (k0 & E0 & Hin & _). rewrite Ek in E0. injection E0 as <-.
  rewrite (iocount_incr ref s q k W Ek Hroom) in T4. assert (kw_addr k' = kw_addr k) as Ha by (rewrite T1, Hk; by case_bool).
  assert (pwf (upd ref q (ref q + 1)) (s <| kwqs := <[q := k']> (kwqs s) |>)) as W'.
  { rewrite <- T4. pose proof (pw_pos _ _ W q). apply (pwf_set ref s q k k'); rewrite ?T3; try done; [lia|]. rewrite Hf. done. }
  apply HQ.
  - split; [done|]. split; [|split].
    + eapply (pinv_intro (upd ref q (ref q + 1))); [by apply pwf_held| |done..].
      intros q0. unfold upd. case_decide; [subst; specialize (Ho q); lia|apply Ho].
    + exists a, h, k'. split_and!; [done..| |by rewrite Ha]. cbn. by rewrite lookup_insert_eq.
    + exists k'. cbn. rewrite lookup_insert_eq. split; [done|]. rewrite T2. destruct (kw_type k =? 0) eqn:E; [apply type_mask|].
      apply Z.eqb_neq in E. by destruct Hty.
  - intros q' Hne. cbn. by rewrite lookup_insert_ne.
Qed.

(** The pass when the table has a queue for the address: the code after the
    queue has left the free list, and all of it. *)
Definition hit_typed (q : nat) (k : ksyn_wait_queue) (nkwq : option nat) : MP (find_outcome * option nat) :=
  if negb (Z.land (kw_type k) KSYN_WQTYPE_MASK =? Z.land wqtype KSYN_WQTYPE_MASK) then
    if negb (_kwq_is_used k) then
      if kw_iocount k =? 0 then
        kwq_set q (fun k => k <| kw_type := 0 |>) ;;;
        wqfind_take uaddr mgen ugen sgen wqtype 0 0 q ;;;
        ret (FDone 0 q, nkwq)
      else if (kw_iocount k =? 1) && (kw_dropcount k =? kw_iocount k) then
        kwq_set q (fun k => k <| kw_pflags ::= fun f => Z.lor f KSYN_WQ_WAITING |>) ;;;
        pthread_list_unlock ;;;
        ret (FSleep, nkwq)
      else pthread_list_unlock ;;; ret (FDone EINVAL q, nkwq)
    else pthread_list_unlock ;;; ret (FDone EINVAL q, nkwq)
  else
    wqfind_take uaddr mgen ugen sgen wqtype 0 0 q ;;;
    ret (FDone 0 q, nkwq).
Definition pass_hit (q : nat) (nkwq : option nat) : MP (find_outcome * option nat) :=
  k <- kwq_deref q ;;
  when (has (kw_pflags k) KSYN_WQ_FLIST)
    (flist_remove q ;;; kwq_set q (fun k => k <| kw_pflags ::= fun f => clr f KSYN_WQ_FLIST |>)) ;;;
  hit_typed q k nkwq.

Lemma wp_pass_hit_off ref s a h q k nkwq :
  pwf ref s -> (forall q, own q <= ref q) -> p_pthhash s !! p = Some a -> hashtbls s !! a = Some h ->
  q ∈ h (Z.land uaddr (pthhash s)) -> kwqs s !! q = Some k -> kw_addr k = uaddr -> inflist k = false ->
  kw_iocount k < 2 ^ 31 - 1 -> list_held s = true -> mine_ok s nkwq -> nkwq <> Some q ->
  wp (hit_typed q k nkwq) (pass_post nkwq) s.
Proof.
  intros W Ho Ea Eh Hq Ek Hk Hf Hroom Hheld Hmine Hnq. unfold hit_typed.
  assert (wp (pthread_list_unlock ;;; ret (FDone EINVAL q, nkwq)) (pass_post nkwq) s) as Hinval.
  { wp_step. apply wp_list_unlock; [done|]. apply wp_ret. split; [by right|]. right. split; [done|]. split; [done|].
    eapply (pinv_intro ref); [by apply pwf_held|done..]. }
  assert (forall k0, (kw_type k0 = 0 -> kw_inqueue k0 = 0) ->
    (kw_type k0 = 0 \/ Z.land (kw_type k0) KSYN_WQTYPE_MASK = Z.land wqtype KSYN_WQTYPE_MASK) ->
    pwf ref (s <| kwqs := <[q := k0]> (kwqs s) |>) -> kw_addr k0 = uaddr -> inflist k0 = false -> kw_iocount k0 = kw_iocount k ->
    wp (wqfind_take uaddr mgen ugen sgen wqtype 0 0 q ;;; ret (FDone 0 q, nkwq)) (pass_post nkwq)
       (s <| kwqs := <[q := k0]> (kwqs s) |>)) as Htake.
  { intros k0 Hz Hty W' A F I. wp_step. eapply (wp_take_hashed ref _ a h q k0); [done..|apply set_lookup|done|done|lia|done|done|done|].
    intros s' Hs' Hoth. apply wp_ret. split; [|by left]. right. split_and!; [done| |done].
    intros n ->. rewrite Hoth by congruence. cbn. rewrite lookup_insert_ne by congruence. by apply Hmine. }
  destruct (Z.land (kw_type k) KSYN_WQTYPE_MASK =? _) eqn:Et; cbn [negb].
  - apply Z.eqb_eq in Et. replace s with (s <| kwqs := <[q := k]> (kwqs s) |>);
      [|clear -Ek; destruct s; cbn in *; by rewrite insert_id].
    apply Htake; try done; [|by right|by apply (pwf_set_same ref s q k k)].
    intros E0. rewrite E0, Z.land_0_l in Et. congruence.
  - destruct (_kwq_is_used k) eqn:Eu; cbn [negb]; [done|]. destruct (kw_iocount k =? 0) eqn:Ei.
    + wp_step. apply (wp_kwq_set q k); [done|]. apply Htake; try done.
      * intros _. by apply unused_inqueue.
      * by left.
      * apply (pwf_set_same ref s q k); done.
    + case_bool; [|done]. wp_step. apply (wp_kwq_set q k); [done|]. wp_step. apply wp_list_unlock; [done|]. apply wp_ret.
      split_and!; [done..| |].
      * eapply (pinv_intro ref); [|done..]. apply pwf_held.
        apply (pwf_set_same ref s q k); try done; cbn; by apply has_lor_ne.
      * intros n ->. cbn. rewrite lookup_insert_ne by congruence. by apply Hmine.
Qed.

Lemma wp_pass_hit ref s a h q k nkwq :
  pwf ref s -> (forall q, own q <= ref q) -> p_pthhash s !! p = Some a -> hashtbls s !! a = Some h ->
  q ∈ h (Z.land uaddr (pthhash s)) -> kwqs s !! q = Some k -> kw_addr k = uaddr ->
  kw_iocount k < 2 ^ 31 - 1 -> list_held s = true -> mine_ok s nkwq -> nkwq <> Some q ->
  wp (pass_hit q nkwq) (pass_post nkwq) s.
Proof.
  intros W Ho Ea Eh Hq Ek Hk Hroom Hheld Hmine Hnq. unfold pass_hit. wp_step. apply (wp_kwq_deref q k); [done|].
  destruct (inflist k) eqn:Hf; cbn [when].
  - wp_step. wp_step. unfold flist_remove. wp_step. apply (wp_kwq_set q k); [done|].
    change (wp (hit_typed q (k <| kw_pflags ::= fun f => clr f KSYN_WQ_FLIST |>) nkwq) (pass_post nkwq) (unflist q k s)).
    eapply (wp_pass_hit_off ref _ a h q (k <| kw_pflags ::= fun f => clr f KSYN_WQ_FLIST |>)); try done.
    + by apply pwf_unflist.
    + cbn. by rewrite lookup_insert_eq.
    + apply has_clr.
    + intros n ->. cbn. rewrite lookup_insert_ne by congruence. by apply Hmine.
  - wp_step. apply wp_ret. by eapply wp_pass_hit_off.
Qed.

(** The pass when there is none and the caller brought one. *)
Definition pass_miss (q : nat) : MP (find_outcome * option nat) :=
  mask <- gets pthhash ;;
  hash_insert p flags (Z.land uaddr mask) q ;;;
  kwq_set q (fun k => k <| kw_pflags ::= fun f => Z.lor f KSYN_WQ_INHASH |>) ;;;
  wqfind_take uaddr mgen ugen sgen wqtype 0 0 q ;;;
  ret (FDone 0 q, None).
Lemma wp_pass_miss ref s a h n :
  pwf ref s -> (forall q, own q <= ref q) -> p_pthhash s !! p = Some a -> hashtbls s !! a = Some h ->
  (forall q k0, q ∈ h (Z.land uaddr (pthhash s)) -> kwqs s !! q = Some k0 -> (kw_addr k0 =? uaddr) = false) ->
  kwqs s !! n = Some kwq_zero -> list_held s = true ->
  wp (pass_miss n) (pass_post (Some n)) s.
Proof.
  intros W Ho Ea Eh Hmiss En Hheld. unfold pass_miss. wp_step. wp_step. wp_step.
  unfold hash_insert. rewrite Hpriv. wp_step. apply (wp_proc_table p a h); [done..|]. wp_step. cbn [fst snd].
  set (i := Z.land uaddr (pthhash s)). wp_step. eapply wp_kwq_set; [done|]. wp_step.
  set (k0 := kwq_zero <| kw_pflags ::= fun f => Z.lor f KSYN_WQ_INHASH |>).
  eapply (wp_take uaddr mgen ugen sgen wqtype n k0); [apply set_lookup|done|done|]. intros k' [T1 T2 T3 T4].
  apply wp_ret. cbn in T1, T2. split; [by left|]. left. split; [done|]. rewrite set_set.
  assert (ref n = 0) as Hr0 by (symmetry; by apply (pw_ref _ _ W n kwq_zero)).
  assert (pwf (upd ref n 1) (hashed a h i n k' s)) as W'.
  { subst i. rewrite <- T1. eapply (pwf_hashed ref s a h n kwq_zero k'); try done; rewrite ?T3; try done.
    intros q kq Hq Eq. rewrite T1 in *. specialize (Hmiss q kq Hq Eq). lia. }
  change (found_post n ((hashed a h i n k' s) <| list_held := false |>)).
  assert (hashtbls (hashed a h i n k' s) !! a = Some (upd h i (n :: h i))) as Ea'.
  { unfold hashed. cbn. by rewrite lookup_insert_eq. }
  assert (kwqs (hashed a h i n k' s) !! n = Some k') as En'.
  { unfold hashed. cbn. by rewrite lookup_insert_eq. }
  split; [done|]. split; [|split].
  - eapply (pinv_intro (upd ref n 1)); [by apply pwf_held| |done|done].
    intros q. unfold upd. case_decide; [subst; specialize (Ho n); lia|done].
  - exists a, (upd h i (n :: h i)), k'. split_and!; try done. cbn. fold i. rewrite upd_eq. left.
  - exists k'. split; [done|]. rewrite T2. apply type_mask.
Qed.

(** A pass that finds a queue says which. *)
Lemma pass_hit_which q nkwq s r s' :
  pass_hit q nkwq s = Ret r s' -> fst r = FSleep \/ exists res, fst r = FDone res q.
Proof.
  unfold pass_hit, hit_typed, bind, kwq_deref, when, flist_remove, modify, ret. intros H.
  repeat (case_match; simplify_eq; try (by eauto)); cbn; eauto.
Qed.

Lemma wp_pass nkwq s : list_held s = false -> pinv p own s -> mine_ok s nkwq -> roomy s ->
  wp (wqfind_pass interfere p uaddr mgen ugen sgen flags wqtype 0 0 nkwq) (pass_post nkwq) s.
Proof.
  intros Hheld HI Hmine Hroom. unfold wqfind_pass. wp_step. apply wp_list_lock; [done|].
  assert (mine_ok (interfere nkwq s) nkwq) as Hmine1.
  { intros n ->. eapply lr_mine; [done|]. by apply Hmine. }
  assert (roomy (interfere nkwq s)) as Hroom1 by (by eapply lr_room).
  destruct (lr_inv own nkwq s HI) as [(ref & W & Ho) (a & h & Ea & Eh)].
  revert W Ea Eh Hmine1 Hroom1. generalize (interfere nkwq s). clear s Hheld HI Hmine Hroom. intros s0 W Ea Eh Hmine Hroom.
  assert (pwf ref (s0 <| list_held := true |>)) as W' by (by apply pwf_held).
  set (s := s0 <| list_held := true |>) in *.
  assert (list_held s = true) as Hheld by done.
  assert (p_pthhash s !! p = Some a) as Ea' by done. assert (hashtbls s !! a = Some h) as Eh' by done.
  assert (mine_ok s nkwq) as Hmine' by done.
  assert (roomy s) as Hroom' by done.
  clearbody s. clear s0 W Ea Eh Hmine Hroom.
  wp_step. unfold ksyn_wq_hash_lookup. rewrite Hpriv. wp_step. wp_step. wp_step.
  apply (wp_proc_table p a h); [done..|]. cbn [fst snd]. apply wp_lookup_in.
  - intros q Hq. destruct (pw_bucket _ _ W' a h _ q Eh' Hq) as (k & Ek & _). by exists k.
  - intros q k Hq Ek Hs. wp_step. wp_step. change (wp (pass_hit q nkwq) (pass_post nkwq) s).
    eapply wp_pass_hit; try done; [lia|eauto|]. intros ->. specialize (Hmine' q eq_refl).
    destruct (pw_bucket _ _ W' a h _ q Eh' Hq) as (k0 & Ek0 & Hin & _). rewrite Hmine' in Ek0. by injection Ek0 as <-.
  - intros Hmiss. destruct nkwq as [n|].
    + change (wp (pass_miss n) (pass_post (Some n)) s). eapply wp_pass_miss; try done. by apply Hmine'.
    + wp_step. wp_step. wp_step. apply wp_list_unlock; [done|]. apply wp_ret. split_and!; try done.
      eapply pinv_intro; [by apply pwf_held|done..].
Qed.

(** With a reference to the queue of the address, a pass finds that queue. *)
Lemma wp_pass_at nkwq q s : list_held s = false -> pinv p own s -> mine_ok s nkwq -> roomy s -> 0 < own q -> queue_of p uaddr q s ->
  wp (wqfind_pass interfere p uaddr mgen ugen sgen flags wqtype 0 0 nkwq)
     (fun r _ => fst r = FSleep \/ exists res, fst r = FDone res q) s.
Proof.
  intros Hheld HI Hmine Hroom Hown Hq. unfold wqfind_pass. wp_step. apply wp_list_lock; [done|].
  assert (mine_ok (interfere nkwq s) nkwq) as Hmine1 by (intros n ->; eapply lr_mine; [done|]; by apply Hmine).
  assert (roomy (interfere nkwq s)) as Hroom1 by (by eapply lr_room).
  destruct (lr_held own nkwq s q uaddr HI Hown Hq) as (a & h & k & Ea & Eh & Hqh & Ek & Hk).
  destruct (pi_ref _ _ _ (lr_inv own nkwq s HI)) as (ref & W & Ho).
  revert W Ea Eh Hmine1 Hroom1 Ek Hqh. generalize (interfere nkwq s). intros s0 W Ea Eh Hmine1 Hroom1 Ek Hqh.
  wp_step. unfold ksyn_wq_hash_lookup. rewrite Hpriv. wp_step. wp_step. wp_step.
  apply (wp_proc_table p a h); [done..|]. cbn [fst snd]. apply wp_lookup_in.
  - intros q0 Hq0. destruct (pw_bucket _ _ W a h _ q0 Eh Hq0) as (k0 & Ek0 & _). by exists k0.
  - intros q0 k0 Hq0 Ek0 Hs. assert (q0 = q) as ->. { eapply (pw_addr _ _ W a h _ q0 q k0 k); try done. lia. }
    wp_step. wp_step. change (wp (pass_hit q nkwq) (fun r _ => fst r = FSleep \/ exists res, fst r = FDone res q) (s0 <| list_held := true |>)).
    assert (wp (pass_hit q nkwq) (pass_post nkwq) (s0 <| list_held := true |>)) as Hw.
    { eapply (wp_pass_hit ref _ a h q k); try done; [by apply pwf_held|by eapply Hroom1|]. intros ->. specialize (Hmine1 q eq_refl).
      destruct (pw_bucket _ _ W a h _ q Eh Hq0) as (k1 & Ek1 & Hin & _). rewrite Hmine1 in Ek1. by injection Ek1 as <-. }
    apply wp_run in Hw as (r & s' & E & _). apply wp_run. exists r, s'. split; [done|]. by eapply pass_hit_which.
  - intros Hmiss. specialize (Hmiss q k Hqh Ek). lia.
Qed.
Lemma pinv_dropped own' s n : pinv p own' s -> kwqs s !! n = Some kwq_zero -> pinv p own' (dropped n s).
Proof.
  intros [(ref & W & Ho) (a & h & Ea & Eh)] En. eapply pinv_intro; [by eapply (pwf_dropped _ _ n)|done..].
Qed.
Definition find_post (r : find_result) (s' : pst) : Prop :=
  match r with
  | Found res (Some q) => res = 0 /\ found_post q s' \/ res = EINVAL /\ list_held s' = false /\ pinv p own s'
  | Found _ None => False
  | Sleeping n => list_held s' = false /\ pinv p own s' /\ mine_ok s' n
  end.
Lemma wp_destroy_zero n (Q : unit -> pst -> Prop) s :
  kwqs s !! n = Some kwq_zero -> Q tt (dropped n s) -> wp (_kwq_destroy n) Q s.
Proof. intros En HQ. unfold _kwq_destroy. wp_step. eapply wp_kwq_deref; [done|]. by wp_step. Qed.
Lemma queue_of_dropped n q s : n <> q -> queue_of p uaddr q s -> queue_of p uaddr q (dropped n s).
Proof.
  intros Hne (a & h & k & E1 & E2 & Hq & Ek & Hk). exists a, h, k. split_and!; try done.
  unfold dropped. cbn. by rewrite lookup_delete_ne.
Qed.
(** The end of [ksyn_wqfind]. *)
Lemma wp_find_end nkwq r s : pass_post nkwq r s ->
  wp (match r with
      | (FDone res q, nkwq) =>
          match nkwq with Some n => _kwq_destroy n | None => ret tt end ;;;
          ret (Found res (Some q))
      | (FSleep, nkwq) => ret (Sleeping nkwq)
      | (FNeed, _) => panic "allocated queue lost"
      end) (fun r' s' => find_post r' s') s \/ fst r = FNeed.
Proof.
  destruct r as [[| |res q] n]; intros HP; [by right|left..].
  - destruct HP as (-> & HP). apply wp_ret. naive_solver.
  - destruct HP as [Hn HP]. wp_step. destruct n as [n|]; [|by apply wp_ret, wp_ret].
    destruct Hn as [[=]|(<- & Hm & Hne)]. specialize (Hm n eq_refl).
    apply wp_destroy_zero; [done|]. apply wp_ret. destruct HP as [(-> & HP)|(-> & Hh & HI)].
    + left. split; [done|]. destruct HP as (Hh & HI & Hq & k & Ek & Hty). split; [done|].
      split; [by apply pinv_dropped|]. split; [apply queue_of_dropped; [congruence|done]|].
      exists k. split; [|done]. unfold dropped. cbn. rewrite lookup_delete_ne by congruence. done.
    + right. split; [done|]. split; [done|]. by apply pinv_dropped.
Qed.
Lemma wp_wqfind nkwq s : list_held s = false -> pinv p own s -> mine_ok s nkwq -> roomy s ->
  wp (ksyn_wqfind interfere p uaddr mgen ugen sgen flags wqtype nkwq) find_post s.
Proof.
  intros Hheld HI Hmine Hroom. unfold ksyn_wqfind. rewrite Hpriv. wp_step. apply wp_ret. cbn [fst snd]. wp_step.
  eapply wp_mono; [by apply wp_pass|]. intros r s1 HP. wp_step.
  destruct (wp_find_end nkwq r s1 HP) as [He|Hneed].
  - destruct r as [[]]; [done|by apply wp_ret|by apply wp_ret].
  - destruct r as [[] n]; try done. destruct HP as (-> & -> & Hh & HI1 & Hroom1). wp_step.
    change (wp (wqfind_pass interfere p uaddr mgen ugen sgen flags wqtype 0 0 (Some (kwq_next s1)))
      (fun r => wp (match r with | (FDone res q, nkwq) => match nkwq with Some n => _kwq_destroy n | None => ret tt end ;;; ret (Found res (Some q))
        | (FSleep, nkwq) => ret (Sleeping nkwq) | (FNeed, _) => panic "allocated queue lost" end) find_post) (alloced s1)).
    destruct HI1 as [(ref & W & Ho) (a & h & Ea & Eh)].
    eapply wp_mono; [apply wp_pass; [done| | |]|].
    + eapply pinv_intro; [by apply pwf_alloc|done..].
    + intros q [= <-]. unfold alloced. cbn. by rewrite lookup_insert_eq.
    + intros q k E. unfold alloced in E. cbn in E. apply lookup_insert_Some in E as [[_ <-]|[_ E]]; [done|eauto].
    + intros r s2 HP. destruct (wp_find_end _ r s2 HP) as [He|Hneed']; [done|]. destruct r as [[] n]; try done.
      by destruct HP as (_ & ? & _).
Qed.
Lemma wp_wqfind_at nkwq q s : list_held s = false -> pinv p own s -> mine_ok s nkwq -> roomy s -> 0 < own q -> queue_of p uaddr q s ->
  wp (ksyn_wqfind interfere p uaddr mgen ugen sgen flags wqtype nkwq)
     (fun r _ => match r with Found _ o => o = Some q | Sleeping _ => True end) s.
Proof.
  intros Hheld HI Hmine Hroom Hown Hq. unfold ksyn_wqfind. rewrite Hpriv. wp_step. apply wp_ret. cbn [fst snd]. wp_step.
  eapply wp_mono; [apply wp_and; [by apply (wp_pass_at nkwq q)|by apply (wp_pass nkwq)]|].
  intros [o n] s1 [Hr HP]. cbn in Hr. destruct Hr as [->|(res & ->)]; wp_step; apply wp_ret; [by apply wp_ret|].
  destruct HP as [Hn _]. wp_step. destruct n as [n|]; [|by wp_step; wp_step].
  destruct Hn as [[=]|(<- & Hm & Hne)]. apply wp_destroy_zero; [by apply Hm|]. by apply wp_ret.
Qed.
End Find.

#[global] Instance list_alone p : ListRely p (fun _ s => s).
Proof. by split. Qed.

(** ** Releasing a queue *)

Section Release.
Context (p : nat) (interfere : list_environment) `{!ListRely p interfere}.
Context (own : nat -> Z) (now : Z) (q : nat) (qfreenow : bool) (wqtype : Z).

Definition last_unused (k : ksyn_wait_queue) : bool := (kw_iocount k =? 1) && negb (_kwq_is_used k).
(** [k] is the queue when the list lock is taken. *)
Definition release_post (k : ksyn_wait_queue) (s' : pst) : Prop :=
  list_held s' = false /\ pinv p (upd own q (own q - 1)) s' /\
  (if last_unused k && qfreenow then kwqs s' !! q = None
   else exists k', kwqs s' !! q = Some k' /\ kw_iocount k' = kw_iocount k - 1 /\ kw_addr k' = kw_addr k /\
     inflist k' = last_unused k) /\
  (last_unused k = true -> qfreenow = false -> psynch_cleanupset s' = true).

(** The references dropped, everything else as it was. *)
Record unreferenced (k k1 : ksyn_wait_queue) : Prop := {
  un_addr : kw_addr k1 = kw_addr k;
  un_pflags : kw_pflags k1 = kw_pflags k;
  un_used : _kwq_is_used k1 = _kwq_is_used k;
  un_turnstile : kw_turnstile k1 = kw_turnstile k;
  un_iocount : kw_iocount k1 = s32 (kw_iocount k - 1);
}.
Lemma wp_unreference {A} (m : MP A) k Q s : kwqs s !! q = Some k ->
  (forall k1, unreferenced k k1 -> wp m Q (s <| kwqs := <[q := k1]> (kwqs s) |>)) ->
  wp (when (wqtype =? KSYN_WQTYPE_MUTEXDROP) (kwq_set q (fun k => k <| kw_dropcount ::= fun c => s32 (c - 1) |>)) ;;;
      kwq_set q (fun k => k <| kw_iocount ::= fun c => s32 (c - 1) |>) ;;; m) Q s.
Proof.
  intros Ek Hm. wp_step. unfold when. case_bool.
  - eapply wp_kwq_set; [done|]. wp_step. eapply wp_kwq_set; [apply set_lookup|]. rewrite set_set. by apply Hm.
  - apply wp_ret. wp_step. eapply wp_kwq_set; [done|]. by apply Hm.
Qed.

Section Last.
Context (ref : nat -> Z) (s : pst) (k : ksyn_wait_queue) (a : nat) (h : hashtbl).
Context (W : pwf ref s) (Ek : kwqs s !! q = Some k) (Hin : inhash k = true) (Hf : inflist k = false).
Context (Hr0 : ref q = 0) (Hused : _kwq_is_used k = false) (Hheld : list_held s = true).
Context (Hown : forall q', upd own q (own q - 1) q' <= ref q') (Ea : p_pthhash s !! p = Some a) (Eh : hashtbls s !! a = Some h).

Lemma wp_release_flist (Q : option nat -> pst -> Prop) :
  (forall s', list_held s' = true -> pinv p (upd own q (own q - 1)) s' -> psynch_cleanupset s' = true ->
    (exists k', kwqs s' !! q = Some k' /\ kw_iocount k' = 0 /\ kw_addr k' = kw_addr k /\ inflist k' = true) -> Q None s') ->
  wp (kwq_set q (fun k => k <| kw_ts := now |>) ;;;
      modify (fun s => s <| pth_free_list ::= cons q |>) ;;;
      kwq_set q (fun k => k <| kw_pflags ::= fun f => Z.lor f KSYN_WQ_FLIST |>) ;;;
      set <- gets psynch_cleanupset ;;
      when (negb set)
        (modify (fun s => s <| thcall_deadline := Some (now + KSYN_CLEANUP_DEADLINE) |> <| psynch_cleanupset := true |>)) ;;;
      ret None) Q s.
Proof using W Ek Hin Hf Hr0 Hused Hheld Hown Ea Eh.
  intros HQ. wp_step. apply (wp_kwq_set q k); [done|]. wp_step. wp_step. wp_step.
  eapply wp_kwq_set; [apply set_lookup|]. set (k' := _ <| kw_pflags ::= _ |>).
  assert (kw_iocount k = 0) as Hio by (by rewrite (pw_ref _ _ W q k Ek)).
  assert (pwf ref (flisted q k' s)) as W'.
  { apply (pwf_flisted ref s q k k'); try done; cbn; [by rewrite has_lor_ne|by apply has_lor_r]. }
  assert (forall s', kwqs s' = kwqs (flisted q k' s) -> kwq_next s' = kwq_next s -> pth_glob_hashtbl s' = pth_glob_hashtbl s ->
    hashtbls s' = hashtbls s -> pthhash s' = pthhash s -> pth_free_list s' = q :: pth_free_list s -> p_pthhash s' = p_pthhash s ->
    list_held s' = list_held s -> psynch_cleanupset s' = true -> Q None s') as Hdone.
  { intros s' E1 E2 E3 E4 E5 E6 E7 E8 E9. apply HQ; [by rewrite E8| |done|].
    - eapply (pinv_intro p ref _ a h); [by eapply pwf_other; [..|apply W']|done|by rewrite E7|by rewrite E4].
    - exists k'. rewrite E1. unfold flisted. cbn. rewrite lookup_insert_eq. split_and!; try done. by apply has_lor_r. }
  wp_step. wp_step. wp_step. unfold when. destruct (psynch_cleanupset _) eqn:Ec; cbn [negb].
  - wp_step. wp_step. apply Hdone; try done. cbn. by rewrite insert_insert_eq.
  - wp_step. wp_step. apply Hdone; try done. cbn. by rewrite insert_insert_eq.
Qed.

Lemma wp_release_free (Q : option nat -> pst -> Prop) :
  (forall s' k', s' = (unhashed q s) <| kwqs := <[q := k']> (kwqs s) |> -> kwqs s' !! q = Some k' ->
    pwf ref ((unhashed q s) <| kwqs := delete q (kwqs s) |>) -> Q (Some q) s') ->
  wp (kwq_set q (fun k => k <| kw_pflags ::= fun f => clr f KSYN_WQ_INHASH |>) ;;; hash_remove q ;;; ret (Some q)) Q s.
Proof using W Ek Hf Hr0.
  intros HQ. wp_step. apply (wp_kwq_set q k); [done|]. wp_step. unfold hash_remove. wp_step. wp_step.
  eapply HQ; [done| |by eapply pwf_gone]. cbn. by rewrite lookup_insert_eq.
Qed.
End Last.

(** [ksyn_wqrelease] after the counts went down to zero. *)
Definition release_unused (k : ksyn_wait_queue) : MP (option nat) :=
  if negb (_kwq_is_used k) then
    ensure (kw_turnstile k =? 0) "kw_turnstile still non-null upon release" ;;;
    if negb qfreenow then
      kwq_set q (fun k => k <| kw_ts := now |>) ;;;
      modify (fun s => s <| pth_free_list ::= cons q |>) ;;;
      kwq_set q (fun k => k <| kw_pflags ::= fun f => Z.lor f KSYN_WQ_FLIST |>) ;;;
      set <- gets psynch_cleanupset ;;
      when (negb set)
        (modify (fun s => s <| thcall_deadline := Some (now + KSYN_CLEANUP_DEADLINE) |>
                            <| psynch_cleanupset := true |>)) ;;;
      ret None
    else
      kwq_set q (fun k => k <| kw_pflags ::= fun f => clr f KSYN_WQ_INHASH |>) ;;;
      hash_remove q ;;;
      ret (Some q)
  else ret None.
Definition release_end (free_elem : option nat) : MP unit :=
  pthread_list_unlock ;;; match free_elem with Some q => _kwq_destroy q | None => ret tt end.

Section Rest.
Context (ref : nat -> Z) (a : nat) (h : hashtbl) (k k1 : ksyn_wait_queue).
Context (Ho : forall q', upd own q (own q - 1) q' <= ref q') (U : unreferenced k k1) (Hio : kw_iocount k1 = kw_iocount k - 1).
Context (Hf : inflist k = false) (Hts : _kwq_is_used k = false -> kw_turnstile k = 0).

(** The queue stays. *)
Lemma wp_release_stay s k' :
  list_held s = true -> pwf ref s -> kwqs s !! q = Some k' -> kw_iocount k' = kw_iocount k1 -> kw_addr k' = kw_addr k1 ->
  inflist k' = false -> last_unused k = false -> p_pthhash s !! p = Some a -> hashtbls s !! a = Some h ->
  wp (release_end None) (fun _ => release_post k) s.
Proof using Ho U Hio.
  intros Hh W Ek H1 H2 H3 H4 H5 H6. unfold release_end. wp_step. apply wp_list_unlock; [done|]. apply wp_ret. split; [done|]. rewrite H4.
  split; [eapply (pinv_intro p ref _ a h); [by apply pwf_held|done..]|]. split; [|done].
  exists k'. cbn. split_and!; [done|lia| |done]. rewrite H2. apply U.
Qed.
(** The queue is destroyed. *)
Lemma wp_release_destroy s k' :
  list_held s = true -> qfreenow = true -> last_unused k = true -> p_pthhash s !! p = Some a -> hashtbls s !! a = Some h ->
  pwf ref ((unhashed q s) <| kwqs := delete q (kwqs s) |>) ->
  wp (release_end (Some q)) (fun _ => release_post k) ((unhashed q s) <| kwqs := <[q := k']> (kwqs s) |>).
Proof using Ho.
  intros Hh Eq Hlast Ea Eh W'. unfold release_end. wp_step. apply wp_list_unlock; [done|].
  unfold _kwq_destroy. wp_step. apply (wp_kwq_deref q k'); [cbn; by rewrite lookup_insert_eq|]. wp_step.
  assert (forall s3, kwqs s3 = delete q (kwqs s) -> kwq_next s3 = kwq_next s -> pth_glob_hashtbl s3 = pth_glob_hashtbl (unhashed q s) ->
    hashtbls s3 = hashtbls (unhashed q s) -> pthhash s3 = pthhash s -> pth_free_list s3 = pth_free_list s -> p_pthhash s3 = p_pthhash s ->
    list_held s3 = false -> release_post k s3) as Hdone.
  { intros s3 F1 F2 F3 F4 F5 F6 F7 F8. split; [done|]. rewrite Hlast, Eq. cbn [andb].
    split; [|split; [rewrite F1; apply lookup_delete_eq|done]].
    eapply (pinv_intro p ref _ a (fun i => unlink q (h i))); [by eapply pwf_other; [..|apply W']|done|by rewrite F7|].
    rewrite F4. by apply unhashed_lookup_2. }
  unfold put_thread. destruct (kw_owner k'); wp_step; wp_step; apply Hdone; try done; cbn; by rewrite delete_insert_eq.
Qed.
(** The last reference is gone. *)
Lemma wp_release_unused s k2 :
  kw_iocount k1 = 0 -> pwf ref s -> kwqs s !! q = Some k2 -> list_held s = true -> p_pthhash s !! p = Some a -> hashtbls s !! a = Some h ->
  kw_addr k2 = kw_addr k1 -> _kwq_is_used k2 = _kwq_is_used k1 -> inhash k2 = true -> inflist k2 = false -> kw_iocount k2 = 0 ->
  wp (release_unused k1) (fun free_elem => wp (release_end free_elem) (fun _ => release_post k)) s.
Proof using Ho U Hio Hts.
  intros Hz W Ek Hh Ea Eh A B C D E. destruct U as [U1 U2 U3 U4 U5]. unfold release_unused.
  assert (last_unused k = negb (_kwq_is_used k1)) as Hlast.
  { unfold last_unused. rewrite U3. replace (kw_iocount k =? 1) with true; [done|]. symmetry. apply Z.eqb_eq. lia. }
  assert (ref q = 0) as Hr0 by (by rewrite <- (pw_ref _ _ W q k2 Ek)).
  destruct (_kwq_is_used k1) eqn:Eu; cbn [negb] in *; [apply wp_ret; by eapply (wp_release_stay s k2); try done; congruence|].
  wp_step. apply wp_ensure; [rewrite U4; apply Z.eqb_eq, Hts; congruence|]. destruct qfreenow eqn:Eq; cbn [negb].
  - eapply (wp_release_free ref s k2); try done. intros s' k' -> Ek' W'. by apply wp_release_destroy.
  - eapply (wp_release_flist ref s k2); try done. intros s' Hh' HI Hc (k' & Ek' & I' & A' & F').
    unfold release_end. wp_step. apply wp_list_unlock; [done|]. apply wp_ret. split; [done|]. rewrite Hlast, Eq. cbn [andb].
    destruct HI as [(ref' & W' & Ho') HT]. split; [split; [exists ref'; split; [by apply pwf_held|done]|done]|]. split; [|done].
    exists k'. split_and!; [done|lia|congruence|done].
Qed.
End Rest.

Lemma wp_release_counts ref s k a h :
  pwf ref s -> kwqs s !! q = Some k -> list_held s = true -> p_pthhash s !! p = Some a -> hashtbls s !! a = Some h ->
  (forall q', own q' <= ref q') -> 0 < own q -> kw_iocount k < 2 ^ 31 -> (_kwq_is_used k = false -> kw_turnstile k = 0) ->
  wp (when (wqtype =? KSYN_WQTYPE_MUTEXDROP) (kwq_set q (fun k => k <| kw_dropcount ::= fun c => s32 (c - 1) |>)) ;;;
      kwq_set q (fun k => k <| kw_iocount ::= fun c => s32 (c - 1) |>) ;;;
      k <- kwq_deref q ;;
      free_elem <- (if kw_iocount k =? 0 then
           when (has (kw_pflags k) KSYN_WQ_WAITING)
             (kwq_set q (fun k => k <| kw_pflags ::= fun f => clr f KSYN_WQ_WAITING |>)) ;;;
           release_unused k
         else ret None) ;;
      release_end free_elem) (fun _ => release_post k) s.
Proof.
  intros W Ek Hheld Ea Eh Ho Hmy Hroom Hts. pose proof (Ho q) as Hq. pose proof (pw_ref _ _ W q k Ek) as Hio.
  destruct (pw_held _ _ W q ltac:(lia)) as (k0 & Ek0 & Hin). rewrite Ek in Ek0. injection Ek0 as <-.
  assert (inflist k = false) as Hf. { destruct (inflist k) eqn:E; [|done]. destruct (pw_idle _ _ W q k Ek E). lia. }
  apply (wp_unreference _ k); [done|]. intros k1 U. pose proof (un_iocount _ _ U) as U5. rewrite s32_id in U5 by lia.
  pose proof (un_pflags _ _ U) as U2. set (ref1 := upd ref q (ref q - 1)). set (s1 := s <| kwqs := <[q := k1]> (kwqs s) |>).
  assert (pwf ref1 s1) as W1.
  { subst ref1. replace (ref q - 1) with (kw_iocount k1) by lia. apply (pwf_set ref s q k k1); rewrite ?U2; try done; [apply U|lia|].
    rewrite Hf. done. }
  assert (kwqs s1 !! q = Some k1) as Ek1 by apply set_lookup.
  assert (forall q', upd own q (own q - 1) q' <= ref1 q') as Ho1.
  { intros q'. unfold ref1, upd. case_decide; [lia|apply Ho]. }
  wp_step. apply (wp_kwq_deref q k1); [done|]. wp_step. destruct (kw_iocount k1 =? 0) eqn:Ei.
  - apply Z.eqb_eq in Ei. wp_step. unfold when. case_bool.
    + eapply wp_kwq_set; [done|]. eapply (wp_release_unused ref1 a h k k1 Ho1 U U5 Hts _ (k1 <| kw_pflags ::= fun f => clr f KSYN_WQ_WAITING |>)); try done.
      * eapply (pwf_set_same ref1 s1 q k1); try done; cbn; by apply has_clr_ne.
      * apply set_lookup.
      * cbn. by rewrite has_clr_ne, U2.
      * cbn. by rewrite has_clr_ne, U2.
    + apply wp_ret. eapply (wp_release_unused ref1 a h k k1 Ho1 U U5 Hts s1 k1); try done; by rewrite U2.
  - apply wp_ret. eapply (wp_release_stay ref1 a h k k1 Ho1 U U5 s1 k1); try done; [by rewrite U2|].
    unfold last_unused. destruct (Z.eqb_spec (kw_iocount k) 1); [|done]. lia.
Qed.
Lemma wp_wqrelease s :
  list_held s = false -> pinv p own s -> roomy s -> 0 < own q ->
  (forall k, kwqs (interfere None s) !! q = Some k -> _kwq_is_used k = false -> kw_turnstile k = 0) ->
  exists k, kwqs (interfere None s) !! q = Some k /\
    wp (ksyn_wqrelease interfere now q qfreenow wqtype) (fun _ => release_post k) s.
Proof.
  intros Hh HI Hroom Hmy Hts. destruct (lr_inv own None s HI) as [(ref & W & Ho) (a & h & Ea & Eh)].
  destruct (pw_held _ _ W q) as (k & Ek & _); [specialize (Ho q); lia|]. exists k. split; [done|].
  pose proof (lr_room own None s HI Hroom q k Ek) as Hroom'. unfold ksyn_wqrelease. wp_step. apply wp_list_lock; [done|].
  eapply (wp_release_counts ref _ k a h); try done; [by apply pwf_held|lia|by apply Hts].
Qed.
End Release.
End KsynHashProps.
