(* ===== verification/KsynHashOps.v ===== *)
(** What the table of wait queues promises to the system calls: a find returns
    the queue of the address and a reference that keeps it, a release gives the
    reference back, callers of one address meet at one queue; and what the
    delayed clean-up does. *)
From S2P Require Import Prelude SeqArith Ksyn KsynSync KsynHash KsynHashProps.

Module KsynHashOps.
Import Ksyn KsynSync KsynHash KsynHashProps.

(** ** The state after start-up *)
Definition pst_zero : pst :=
  mk_pst ∅ 0 (fun _ => []) ∅ 0 ∅ 0 [] false None false ∅ 0 ∅ (fun _ => 0).
Definition boot (p : nat) : MP unit := pth_global_hashinit ;;; _pth_proc_hashinit p.
(** The state in which process 1 has its empty table. *)
Definition booted : pst :=
  pst_zero <| pthhash := 63 |> <| hashtbls := {[ 0%nat := fun _ => [] ]} |> <| p_pthhash := {[ 1%nat := 0%nat ]} |>
           <| hashtbl_next := 1%nat |>.
Lemma boot_booted : boot 1 pst_zero = Ret tt booted.
Proof. reflexivity. Qed.
Lemma booted_pwf : pwf (fun _ => 0) booted.
Proof.
  constructor; cbn; try done.
  - intros a h i q E Hq. apply lookup_singleton_Some in E as [<- <-]. by apply elem_of_nil in Hq.
  - intros a h i E. apply lookup_singleton_Some in E as [<- <-]. constructor.
  - intros a a' h h' i i' q E E' Hq. apply lookup_singleton_Some in E as [<- <-]. by apply elem_of_nil in Hq.
  - intros q. split; [intros H; by apply elem_of_nil in H|by intros (k & E & _)].
  - constructor.
Qed.
Lemma booted_pinv : pinv 1 (fun _ => 0) booted.
Proof. split; [exists (fun _ => 0); split; [apply booted_pwf|done]|by exists 0%nat, (fun _ => [])]. Qed.
Lemma booted_roomy : roomy booted.
Proof. by intros q k E. Qed.

(** ** Finding and releasing *)

(** [ksyn_wqfind] of a private address returns or sleeps whatever the other
    threads do: on success the caller has one more reference, and the queue is
    in its process' table, for this address and of this type; otherwise it
    returns EINVAL, or sleeps, and the references are as they were. *)
Theorem wqfind_returns p interfere `{!ListRely p interfere} own uaddr mgen ugen sgen flags wqtype nkwq s :
  is_shared flags = false -> Z.land wqtype KSYN_WQTYPE_MASK <> 0 ->
  list_held s = false -> pinv p own s -> mine_ok s nkwq -> roomy s ->
  wp (ksyn_wqfind interfere p uaddr mgen ugen sgen flags wqtype nkwq)
     (fun r s' => list_held s' = false /\
        match r with
        | Found res (Some q) =>
            res = 0 /\ pinv p (upd own q (own q + 1)) s' /\ queue_of p uaddr q s' /\
              (exists k, kwqs s' !! q = Some k /\ Z.land (kw_type k) KSYN_WQTYPE_MASK = Z.land wqtype KSYN_WQTYPE_MASK) \/
            res = EINVAL /\ pinv p own s'
        | Found _ None => False
        | Sleeping n => pinv p own s' /\ mine_ok s' n
        end) s.
Proof.
  intros Hf Ht Hh HI Hm Hr. eapply wp_mono; [by apply wp_wqfind|]. intros [res [q|]|n] s'; [|done|naive_solver].
  intros [(-> & H1 & H2 & H3 & H4)|(-> & H1 & H2)]; (split; [done|]); [left|right]; done.
Qed.
Lemma wqfind_returns_witness :
  exists r s', ksyn_wqfind (fun _ s => s) 1 4096 0 0 0 0 KSYN_WQTYPE_MTX None booted = Ret r s' /\
    r = Found 0 (Some 0%nat) /\ queue_of 1 4096 0 s'.
Proof.
  pose proof (wqfind_returns 1 (fun _ s => s) (fun _ => 0) 4096 0 0 0 0 KSYN_WQTYPE_MTX None booted
    eq_refl ltac:(discriminate) eq_refl booted_pinv ltac:(done) booted_roomy) as H.
  apply wp_run in H as (r & s' & E & _ & H). exists r, s'. split; [exact E|]. vm_compute in E. injection E as <- <-.
  destruct H as [(_ & _ & H & _)|[[=] _]]. split; [reflexivity|exact H].
Defined.

(** C10: [ksyn_wqrelease] by a thread that has a reference returns, gives the
    reference back and keeps the table well formed; the queue is freed exactly
    when this was the last reference, the queue is unused and the caller asked
    for it, and in that case without [qfreenow] it goes to the free list with
    the clean-up scheduled. *)
Theorem wqrelease_returns p interfere `{!ListRely p interfere} own now q qfreenow wqtype s :
  list_held s = false -> pinv p own s -> roomy s -> 0 < own q ->
  (forall k, kwqs (interfere None s) !! q = Some k -> _kwq_is_used k = false -> kw_turnstile k = 0) ->
  exists k, kwqs (interfere None s) !! q = Some k /\
    let last := (kw_iocount k =? 1) && negb (_kwq_is_used k) in
    wp (ksyn_wqrelease interfere now q qfreenow wqtype)
       (fun _ s' => list_held s' = false /\ pinv p (upd own q (own q - 1)) s' /\
          (if last && qfreenow then kwqs s' !! q = None
           else exists k', kwqs s' !! q = Some k' /\ kw_iocount k' = kw_iocount k - 1 /\ kw_addr k' = kw_addr k /\
             has (kw_pflags k') KSYN_WQ_FLIST = last) /\
          (last = true -> qfreenow = false -> psynch_cleanupset s' = true)) s.
Proof.
  intros Hh HI Hr Hmy Hts. destruct (wp_wqrelease p interfere own now q qfreenow wqtype s Hh HI Hr Hmy Hts) as (k & Ek & Hw).
  exists k. split; [done|]. cbv zeta. eapply wp_mono; [exact Hw|]. by intros [].
Qed.

(** A find and the release that follows it. *)
Definition found_once : pst :=
  match ksyn_wqfind (fun _ s => s) 1 4096 0 0 0 0 KSYN_WQTYPE_MTX None booted with Ret _ s => s | _ => booted end.
Lemma found_once_pinv : pinv 1 (upd (fun _ => 0) 0%nat 1) found_once.
Proof.
  pose proof (wp_wqfind 1 (fun _ s => s) (fun _ => 0) 4096 0 0 0 0 KSYN_WQTYPE_MTX eq_refl ltac:(discriminate) None booted
    eq_refl booted_pinv ltac:(done) booted_roomy) as H.
  apply wp_run in H as (r & s' & E & H). unfold found_once. rewrite E.
  assert (r = Found 0 (Some 0%nat)) as -> by (vm_compute in E; congruence).
  destruct H as [(_ & _ & H & _)|[[=] _]]. exact H.
Qed.
Lemma found_once_roomy : roomy found_once.
Proof.
  intros q k. assert (kwqs found_once = {[ 0%nat := default kwq_zero (kwqs found_once !! 0%nat) ]}) as -> by reflexivity.
  rewrite lookup_singleton_Some. intros [<- <-]. vm_compute. reflexivity.
Qed.
Lemma wqrelease_returns_witness :
  exists s', ksyn_wqrelease (fun _ s => s) 0 0 true KSYN_WQTYPE_MTX found_once = Ret tt s' /\ kwqs s' !! 0%nat = None.
Proof.
  destruct (wqrelease_returns 1 (fun _ s => s) (upd (fun _ => 0) 0%nat 1) 0 0 true KSYN_WQTYPE_MTX found_once
    eq_refl found_once_pinv found_once_roomy ltac:(vm_compute; reflexivity)
    ltac:(intros k E; vm_compute in E; injection E as <-; reflexivity)) as (k & Ek & H).
  vm_compute in Ek. injection Ek as <-. apply wp_run in H as ([] & s' & E & _ & _ & H & _). exists s'. split; [exact E|exact H].
Defined.

(** threads of one process that use one address meet at one queue: while a
    reference to the address' queue exists, [ksyn_wqfind] of that address finds
    no other queue. *)
Theorem finds_meet p interfere `{!ListRely p interfere} own uaddr mgen ugen sgen flags wqtype nkwq q s :
  is_shared flags = false -> Z.land wqtype KSYN_WQTYPE_MASK <> 0 ->
  list_held s = false -> pinv p own s -> mine_ok s nkwq -> roomy s -> 0 < own q -> queue_of p uaddr q s ->
  wp (ksyn_wqfind interfere p uaddr mgen ugen sgen flags wqtype nkwq)
     (fun r _ => match r with Found _ o => o = Some q | Sleeping _ => True end) s.
Proof. intros. by apply (wp_wqfind_at p interfere own). Qed.
Lemma found_once_queue : queue_of 1 4096 0 found_once.
Proof. unfold queue_of. exists 0%nat. do 2 eexists. split_and!; try (vm_compute; reflexivity). vm_compute. left. Qed.
Lemma finds_meet_witness :
  wp (ksyn_wqfind (fun _ s => s) 1 4096 0 0 0 0 KSYN_WQTYPE_MTX None)
     (fun r _ => match r with Found _ o => o = Some 0%nat | Sleeping _ => True end) found_once.
Proof.
  exact (finds_meet 1 (fun _ s => s) (upd (fun _ => 0) 0%nat 1) 4096 0 0 0 0 KSYN_WQTYPE_MTX None 0 found_once
    eq_refl ltac:(discriminate) eq_refl found_once_pinv ltac:(done) found_once_roomy ltac:(vm_compute; reflexivity) found_once_queue).
Defined.

(** ** The clean-up *)

(** a run of [psynch_wq_cleanup] over a free list whose queues have all
    expired frees the first one only: the others stay on the free list, and the
    clean-up is not scheduled again. *)
Theorem cleanup_frees_one ref now q l s :
  pwf ref s -> list_held s = false -> pth_free_list s = q :: l ->
  (forall q' k, q' ∈ pth_free_list s -> kwqs s !! q' = Some k -> Z.abs (now - kw_ts k) >= KSYN_CLEANUP_DEADLINE) ->
  wp (psynch_wq_cleanup (fun _ s => s) now)
     (fun _ s' => kwqs s' = delete q (kwqs s) /\ pth_free_list s' = l /\ psynch_cleanupset s' = false) s.
Proof.
  intros W Hh El Hex. assert (q ∈ pth_free_list s) as Hq by (rewrite El; left).
  destruct (proj1 (pw_flist _ _ W q) Hq) as (k & Ek & Hf). destruct (pw_idle _ _ W q k Ek Hf) as (Hio & Hu & _).
  specialize (Hex q k Hq Ek). unfold psynch_wq_cleanup. wp_step. apply wp_list_lock; [done|]. wp_step. wp_step. wp_step.
  change (pth_free_list (s <| list_held := true |>)) with (pth_free_list s). rewrite El. cbn [cleanup_loop].
  wp_step. apply (wp_kwq_deref q k); [done|]. rewrite Hu, Hio. cbn [orb negb Z.eqb].
  replace (Z.abs (now - kw_ts k) >=? KSYN_CLEANUP_DEADLINE) with true by lia.
  wp_step. apply (wp_kwq_set q k); [done|]. unfold hash_remove, flist_remove. do 8 wp_step. apply wp_list_unlock; [done|].
  cbn [destroy_all]. wp_step. unfold _kwq_destroy. wp_step. eapply wp_kwq_deref; [cbn; apply lookup_insert_eq|].
  assert (unlink q (pth_free_list s) = l) as Hl by (rewrite El; apply unlink_head).
  unfold put_thread. case_match; do 4 wp_step; split_and!; try done; cbn; by rewrite delete_insert_eq.
Qed.

(** Checks on concrete states. *)
Lemma roomy_check s : bool_decide (map_Forall (fun _ k => kw_iocount k < 2 ^ 31 - 1) (kwqs s)) = true -> roomy s.
Proof. intros H. apply bool_decide_eq_true in H. exact H. Qed.
Definition all_expired (now : Z) (s : pst) : bool :=
  forallb (fun q => match kwqs s !! q with Some k => Z.abs (now - kw_ts k) >=? KSYN_CLEANUP_DEADLINE | None => true end) (pth_free_list s).
Lemma all_expired_check now s : all_expired now s = true ->
  forall q k, q ∈ pth_free_list s -> kwqs s !! q = Some k -> Z.abs (now - kw_ts k) >= KSYN_CLEANUP_DEADLINE.
Proof.
  unfold all_expired. rewrite forallb_forall. intros H q k Hq E. specialize (H q (proj1 (list_elem_of_In _ _) Hq)).
  rewrite E in H. lia.
Qed.

(** Two read-write locks used and dropped at time 0. *)
Definition use_once (uaddr : Z) (q : nat) : MP unit :=
  ksyn_wqfind (fun _ s => s) 1 uaddr 0 0 0 0 KSYN_WQTYPE_RWLOCK None ;;;
  ksyn_wqrelease (fun _ s => s) 0 q false KSYN_WQTYPE_RWLOCK.
Lemma pinv_mono p own own' s : (forall q, own' q <= own q) -> pinv p own s -> pinv p own' s.
Proof. intros Ho [(ref & W & Hr) HT]. split; [|done]. exists ref. split; [done|]. intros q. specialize (Ho q). specialize (Hr q). lia. Qed.
Lemma use_once_pwf uaddr q own s r s1 s' :
  list_held s = false -> pinv 1 own s -> roomy s -> 0 <= own q ->
  ksyn_wqfind (fun _ s => s) 1 uaddr 0 0 0 0 KSYN_WQTYPE_RWLOCK None s = Ret r s1 -> r = Found 0 (Some q) -> roomy s1 ->
  kw_turnstile (default kwq_zero (kwqs s1 !! q)) = 0 ->
  ksyn_wqrelease (fun _ s => s) 0 q false KSYN_WQTYPE_RWLOCK s1 = Ret tt s' ->
  pinv 1 own s'.
Proof.
  intros Hh HI Hr Ho E -> Hr1 Hts E'.
  pose proof (wp_wqfind 1 (fun _ s => s) own uaddr 0 0 0 0 KSYN_WQTYPE_RWLOCK eq_refl ltac:(discriminate) None s Hh HI ltac:(done) Hr) as H.
  unfold wp in H. rewrite E in H. destruct H as [(_ & Hh1 & HI1 & _)|[[=] _]].
  destruct (wp_wqrelease 1 (fun _ s => s) _ 0 q false KSYN_WQTYPE_RWLOCK s1 Hh1 HI1 Hr1) as (k & _ & H); [rewrite upd_eq; lia| |].
  { intros k E1 _. by rewrite E1 in Hts. }
  unfold wp in H. rewrite E' in H. destruct H as (_ & HI2 & _). eapply pinv_mono; [|exact HI2].
  intros q'. unfold upd. repeat case_decide; subst; (lia || done).
Qed.
Definition after {A} (m : MP A) (s : pst) : pst := match m s with Ret _ s' => s' | _ => s end.
Definition one_idle : pst := after (use_once 4096 0) booted.
Definition two_idle : pst := after (use_once 8192 1) one_idle.
Lemma one_idle_pinv : pinv 1 (fun _ => 0) one_idle.
Proof.
  eapply (use_once_pwf 4096 0 (fun _ => 0) booted _ (after (ksyn_wqfind (fun _ s => s) 1 4096 0 0 0 0 KSYN_WQTYPE_RWLOCK None) booted)).
  - reflexivity.
  - apply booted_pinv.
  - apply booted_roomy.
  - done.
  - vm_compute; reflexivity.
  - reflexivity.
  - apply roomy_check. vm_compute; reflexivity.
  - vm_compute; reflexivity.
  - vm_compute; reflexivity.
Qed.
Lemma two_idle_pinv : pinv 1 (fun _ => 0) two_idle.
Proof.
  eapply (use_once_pwf 8192 1 (fun _ => 0) one_idle _ (after (ksyn_wqfind (fun _ s => s) 1 8192 0 0 0 0 KSYN_WQTYPE_RWLOCK None) one_idle)).
  - vm_compute; reflexivity.
  - apply one_idle_pinv.
  - apply roomy_check. vm_compute; reflexivity.
  - done.
  - vm_compute; reflexivity.
  - reflexivity.
  - apply roomy_check. vm_compute; reflexivity.
  - vm_compute; reflexivity.
  - vm_compute; reflexivity.
Qed.
Lemma cleanup_frees_one_witness :
  pth_free_list two_idle = [1%nat; 0%nat] /\
  wp (psynch_wq_cleanup (fun _ s => s) 100) (fun _ s' => pth_free_list s' = [0%nat] /\ psynch_cleanupset s' = false) two_idle.
Proof.
  split; [vm_compute; reflexivity|]. destruct (pi_ref _ _ _ two_idle_pinv) as (ref & W & _).
  eapply wp_mono; [apply (cleanup_frees_one ref 100 1 [0%nat] two_idle W); [vm_compute; reflexivity..|]|].
  - apply all_expired_check. vm_compute; reflexivity.
  - intros [] s' (_ & H1 & H2). split; assumption.
Defined.
End KsynHashOps.
