(* ===== verification/Suspend.v ===== *)
(** Suspension of tasks and threads: [src/duct-tape/src/task.c] and
    [src/duct-tape/src/thread.c].  Every operation runs under the task lock or
    the thread's mutex, so it is one transition here; what it asks of the server
    and of the port code is recorded as an event.  [assert] is compiled out
    (MACH_ASSERT is 0). *)
From S2P Require Import Prelude.

Module Suspend.

(** The fields of [struct thread] and [struct task] that suspension uses:
    thread counts have 16 bits, task counts 32. *)
Record xthread := mk_xthread {
  th_task : nat;
  th_active : bool;
  th_user_stop_count : Z;
  th_suspend_count : Z;
  th_refs : Z;
}.
#[global] Instance xthread_rb : Rebuild xthread := fun r =>
  mk_xthread (th_task r) (th_active r) (th_user_stop_count r) (th_suspend_count r) (th_refs r).
Record xtask := mk_xtask {
  tk_active : bool;
  tk_corpse : bool;                          (* t_flags & TF_CORPSE *)
  tk_pidsuspended : bool;
  tk_user_stop_count : Z;
  tk_legacy_stop_count : Z;
  tk_suspend_count : Z;
  tk_threads : list nat;
  tk_refs : Z;
}.
#[global] Instance xtask_rb : Rebuild xtask := fun r =>
  mk_xtask (tk_active r) (tk_corpse r) (tk_pidsuspended r) (tk_user_stop_count r) (tk_legacy_stop_count r)
    (tk_suspend_count r) (tk_threads r) (tk_refs r).

(** What an operation asks of others. *)
Inductive event :=
| EvSignal (t : nat)                         (* thread_send_signal(LINUX_SIGRTMIN) *)
| EvResume (t : nat)                         (* dtape_hooks->thread_resume *)
| EvWait (t : nat)                           (* thread_wait: block until the thread has stopped *)
| EvMakeSend (k : nat)                       (* a send right to itk_resume *)
| EvRightDealloc (k : nat)                   (* ipc_right_dealloc of the caller's right *)
| EvRightDestroy (k : nat).                  (* ipc_right_destroy of the caller's right *)

Record sst := mk_sst {
  threads : gmap nat xthread;
  tasks : gmap nat xtask;
  events : list event;                       (* oldest first *)
}.
#[global] Instance sst_rb : Rebuild sst := fun r => mk_sst (threads r) (tasks r) (events r).
Abbreviation MS := (M sst).

Definition emit (e : event) : MS unit := modify (fun s => s <| events ::= fun l => l ++ [e] |>).
Definition thread_get (t : nat) : MS xthread := fun s =>
  match threads s !! t with Some x => Ret x s | None => Panic "freed thread" end.
Definition thread_set (t : nat) (f : xthread -> xthread) : MS unit := fun s =>
  match threads s !! t with Some x => Ret tt (s <| threads := <[t := f x]> (threads s) |>) | None => Panic "freed thread" end.
Definition task_get (k : nat) : MS xtask := fun s =>
  match tasks s !! k with Some x => Ret x s | None => Panic "freed task" end.
Definition task_set (k : nat) (f : xtask -> xtask) : MS unit := fun s =>
  match tasks s !! k with Some x => Ret tt (s <| tasks := <[k := f x]> (tasks s) |>) | None => Panic "freed task" end.

(** ** Threads *)

Definition thread_hold (t : nat) : MS unit :=
  x <- thread_get t ;;
  thread_set t (fun x => x <| th_suspend_count ::= fun c => s16 (c + 1) |>) ;;;
  when (th_suspend_count x =? 0) (emit (EvSignal t)).
Definition thread_release (t : nat) : MS unit :=
  thread_set t (fun x => x <| th_suspend_count ::= fun c => s16 (c - 1) |>) ;;;
  emit (EvResume t).

Section Calls.
Context (kernel_task : nat).

(** [thread_suspend]; [cur] is the current thread. *)
Definition thread_suspend (cur : nat) (thread : option nat) : MS Z :=
  match thread with
  | None => ret KERN_INVALID_ARGUMENT
  | Some t =>
      x <- thread_get t ;;
      if th_task x =? kernel_task then ret KERN_INVALID_ARGUMENT
      else
        result <- (if th_active x then
                     thread_set t (fun x => x <| th_user_stop_count ::= fun c => s16 (c + 1) |>) ;;;
                     when (th_user_stop_count x =? 0)%Z (thread_hold t) ;;;
                     ret KERN_SUCCESS
                   else ret KERN_TERMINATED) ;;
        when (negb (t =? cur) && (result =? KERN_SUCCESS)%Z) (emit (EvWait t)) ;;;
        ret result
  end%nat.
Definition thread_resume (thread : option nat) : MS Z :=
  match thread with
  | None => ret KERN_INVALID_ARGUMENT
  | Some t =>
      x <- thread_get t ;;
      if (th_task x =? kernel_task)%nat then ret KERN_INVALID_ARGUMENT
      else if th_active x then
        if th_user_stop_count x >? 0 then
          thread_set t (fun x => x <| th_user_stop_count ::= fun c => s16 (c - 1) |>) ;;;
          when (s16 (th_user_stop_count x - 1) =? 0) (thread_release t) ;;;
          ret KERN_SUCCESS
        else ret KERN_FAILURE
      else ret KERN_TERMINATED
  end.
End Calls.

(** ** Tasks *)

Fixpoint each_thread (f : nat -> MS unit) (l : list nat) : MS unit :=
  match l with
  | [] => ret tt
  | t :: l' => f t ;;; each_thread f l'
  end.
Definition task_hold_locked (k : nat) : MS unit :=
  x <- task_get k ;;
  task_set k (fun x => x <| tk_suspend_count ::= fun c => s32 (c + 1) |>) ;;;
  if tk_suspend_count x >? 0 then ret tt
  else each_thread thread_hold (tk_threads x).
Definition task_release_locked (k : nat) : MS unit :=
  x <- task_get k ;;
  task_set k (fun x => x <| tk_suspend_count ::= fun c => s32 (c - 1) |>) ;;;
  if s32 (tk_suspend_count x - 1) >? 0 then ret tt
  else each_thread thread_release (tk_threads x).

Inductive hold_mode := TASK_HOLD_NORMAL | TASK_HOLD_PIDSUSPEND | TASK_HOLD_LEGACY | TASK_HOLD_LEGACY_ALL.
#[global] Instance hold_mode_eq : EqDecision hold_mode.
Proof. solve_decision. Defined.

(** [task_wait_locked] is a stub. *)
Definition place_task_hold (k : nat) (mode : hold_mode) : MS Z :=
  x <- task_get k ;;
  if negb (tk_active x) && negb (tk_corpse x) then ret KERN_FAILURE
  else if tk_corpse x then ret KERN_SUCCESS
  else
    when (bool_decide (mode = TASK_HOLD_LEGACY))
      (task_set k (fun x => x <| tk_legacy_stop_count ::= fun c => s32 (c + 1) |>)) ;;;
    task_set k (fun x => x <| tk_user_stop_count ::= fun c => s32 (c + 1) |>) ;;;
    if tk_user_stop_count x >? 0 then ret KERN_SUCCESS
    else task_hold_locked k ;;; ret KERN_SUCCESS.

(** The counts of [release_task_hold] after the checks, and [release]. *)
Definition release_counts (k : nat) (mode : hold_mode) : MS bool :=
  x <- task_get k ;;
  match mode with
  | TASK_HOLD_LEGACY_ALL =>
      release <- (if tk_legacy_stop_count x >=? tk_user_stop_count x then
                    task_set k (fun x => x <| tk_user_stop_count := 0 |>) ;;; ret true
                  else
                    task_set k (fun x => x <| tk_user_stop_count := s32 (tk_user_stop_count x - tk_legacy_stop_count x) |>) ;;;
                    ret false) ;;
      task_set k (fun x => x <| tk_legacy_stop_count := 0 |>) ;;;
      ret release
  | _ =>
      when (bool_decide (mode = TASK_HOLD_LEGACY) && (tk_legacy_stop_count x >? 0))
        (task_set k (fun x => x <| tk_legacy_stop_count ::= fun c => s32 (c - 1) |>)) ;;;
      task_set k (fun x => x <| tk_user_stop_count ::= fun c => s32 (c - 1) |>) ;;;
      ret (s32 (tk_user_stop_count x - 1) =? 0)
  end.
Definition release_task_hold (k : nat) (mode : hold_mode) : MS Z :=
  x <- task_get k ;;
  if negb (tk_active x) && negb (tk_corpse x) then ret KERN_FAILURE
  else if tk_corpse x then ret KERN_SUCCESS
  else if bool_decide (mode = TASK_HOLD_PIDSUSPEND) && negb (tk_pidsuspended x) then ret KERN_FAILURE
  else
    when (bool_decide (mode = TASK_HOLD_PIDSUSPEND)) (task_set k (fun x => x <| tk_pidsuspended := false |>)) ;;;
    x <- task_get k ;;
    if tk_user_stop_count x >? (if tk_pidsuspended x then 1 else 0) then
      release <- release_counts k mode ;;
      when release (task_release_locked k) ;;;
      ret KERN_SUCCESS
    else ret KERN_FAILURE.

Section TaskCalls.
Context (kernel_task : nat).
Definition on_user_task (task : option nat) (f : nat -> MS Z) : MS Z :=
  match task with
  | None => ret KERN_INVALID_ARGUMENT
  | Some k => if (k =? kernel_task)%nat then ret KERN_INVALID_ARGUMENT else f k
  end.
(** [token]: the caller's space is active and has a right to [itk_resume]. *)
Definition task_resume (token : bool) (task : option nat) : MS Z :=
  on_user_task task (fun k =>
    kr <- release_task_hold k TASK_HOLD_LEGACY ;;
    when token (emit (if kr =? KERN_SUCCESS then EvRightDealloc k else EvRightDestroy k)) ;;;
    ret kr).
Definition task_suspend_internal (task : option nat) : MS Z :=
  on_user_task task (fun k => place_task_hold k TASK_HOLD_NORMAL).
(** Returns the token as well. *)
Definition task_suspend2 (task : option nat) : MS (Z * option nat) :=
  kr <- task_suspend_internal task ;;
  if negb (kr =? KERN_SUCCESS) then ret (kr, None)
  else
    match task with
    | Some k => task_set k (fun x => x <| tk_refs ::= Z.succ |>) ;;; ret (KERN_SUCCESS, Some k)
    | None => panic "task_reference_internal(TASK_NULL)"
    end.
Definition task_resume_internal (task : option nat) : MS Z :=
  on_user_task task (fun k => release_task_hold k TASK_HOLD_NORMAL).
(** [task_suspension_token_deallocate] is a stub that stops the server. *)
Definition task_resume2 (task : option nat) : MS Z :=
  task_resume_internal task ;;; panic "task_suspension_token_deallocate".
(** [dtape_task_try_resume] *)
Definition dtape_task_try_resume (token : bool) (k : nat) : MS bool :=
  x <- task_get k ;;
  if negb (tk_user_stop_count x =? 0) then
    kr <- task_resume token (Some k) ;; ret (kr =? KERN_SUCCESS)
  else ret false.
End TaskCalls.

(** ** Creation and destruction, as far as suspension is concerned *)
Definition dtape_thread_create (k t : nat) : MS unit :=
  x <- task_get k ;;
  modify (fun s => s <| threads ::= <[t := mk_xthread k true 0 0 1]> |>) ;;;
  task_set k (fun x => x <| tk_refs ::= Z.succ |> <| tk_threads ::= fun l => l ++ [t] |>).
(** The last reference frees the task. *)
Definition task_deallocate (k : nat) : MS unit :=
  x <- task_get k ;;
  if tk_refs x - 1 >? 0 then task_set k (fun x => x <| tk_refs ::= Z.pred |>)
  else modify (fun s => s <| tasks ::= delete k |>).
Definition dtape_thread_destroy (t : nat) : MS unit :=
  x <- thread_get t ;;
  task_set (th_task x) (fun y => y <| tk_threads ::= unlink t |>) ;;;
  task_deallocate (th_task x) ;;;
  modify (fun s => s <| threads ::= delete t |>).
Definition dtape_task_create (k : nat) : MS unit :=
  modify (fun s => s <| tasks ::= <[k := mk_xtask true false false 0 0 0 [] 1]> |>).

(** ** Rules *)
Lemma wp_thread_get t x (Q : xthread -> sst -> Prop) s : threads s !! t = Some x -> Q x s -> wp (thread_get t) Q s.
Proof. intros E HQ. unfold wp, thread_get. by rewrite E. Qed.
Lemma wp_thread_set t x f (Q : unit -> sst -> Prop) s :
  threads s !! t = Some x -> Q tt (s <| threads := <[t := f x]> (threads s) |>) -> wp (thread_set t f) Q s.
Proof. intros E HQ. unfold wp, thread_set. by rewrite E. Qed.
Lemma wp_task_get k x (Q : xtask -> sst -> Prop) s : tasks s !! k = Some x -> Q x s -> wp (task_get k) Q s.
Proof. intros E HQ. unfold wp, task_get. by rewrite E. Qed.
Lemma wp_task_set k x f (Q : unit -> sst -> Prop) s :
  tasks s !! k = Some x -> Q tt (s <| tasks := <[k := f x]> (tasks s) |>) -> wp (task_set k f) Q s.
Proof. intros E HQ. unfold wp, task_set. by rewrite E. Qed.

(** ** What a kernel hold does to threads *)

(** Every thread of [l] has [d] added to its suspend count. *)
Definition bumped (d : Z) (l : list nat) (m : gmap nat xthread) : gmap nat xthread :=
  map_imap (fun t x => Some (if decide (t ∈ l) then x <| th_suspend_count ::= fun c => s16 (c + d) |> else x)) m.
Lemma bumped_lookup d l m t :
  bumped d l m !! t = (fun x => if decide (t ∈ l) then x <| th_suspend_count ::= fun c => s16 (c + d) |> else x) <$> m !! t.
Proof. unfold bumped. rewrite map_lookup_imap. by destruct (m !! t). Qed.
Lemma bumped_nil d m : bumped d [] m = m.
Proof. apply map_eq. intros t. rewrite bumped_lookup. destruct (m !! t); cbn; [|done]. by rewrite decide_False by apply not_elem_of_nil. Qed.
Lemma bumped_cons d t l m x : t ∉ l -> m !! t = Some x ->
  bumped d l (<[t := x <| th_suspend_count ::= fun c => s16 (c + d) |>]> m) = bumped d (t :: l) m.
Proof.
  intros Hn E. apply map_eq. intros t'. rewrite !bumped_lookup. destruct (decide (t' = t)) as [->|Hne].
  - rewrite lookup_insert_eq, E. cbn. rewrite decide_False by done. rewrite decide_True by left. done.
  - rewrite lookup_insert_ne by done. destruct (m !! t'); cbn; [|done]. f_equal.
    destruct (decide (t' ∈ l)) as [Hi|Hi]; [by rewrite decide_True by (by right)|].
    rewrite decide_False; [done|]. intros Hc. apply elem_of_cons in Hc as [?|?]; done.
Qed.
Definition fresh_stops (l : list nat) (m : gmap nat xthread) : list nat :=
  filter (fun t => th_suspend_count <$> m !! t = Some 0) l.
Lemma wp_each_hold l (Q : unit -> sst -> Prop) s :
  NoDup l -> (forall t, t ∈ l -> is_Some (threads s !! t)) ->
  Q tt (s <| threads := bumped 1 l (threads s) |> <| events := events s ++ (EvSignal <$> fresh_stops l (threads s)) |>) ->
  wp (each_thread thread_hold l) Q s.
Proof.
  revert s. induction l as [|t l IH]; intros s Hnd Hl HQ; cbn [each_thread].
  - apply wp_ret. rewrite bumped_nil in HQ. cbn in HQ. rewrite app_nil_r in HQ. by destruct s.
  - apply NoDup_cons in Hnd as [Hn Hnd]. destruct (Hl t) as [x Ex]; [left|]. wp_step. unfold thread_hold.
    wp_step. apply (wp_thread_get t x); [done|]. wp_step. apply (wp_thread_set t x); [done|].
    set (m' := <[t := _]> (threads s)). assert (fresh_stops l m' = fresh_stops l (threads s)) as Hf.
    { unfold fresh_stops. apply filter_ext_in. intros t' Ht'. unfold m'. rewrite lookup_insert_ne; [done|]. by intros ->. }
    assert (forall ev, events s ++ (EvSignal <$> fresh_stops (t :: l) (threads s)) = ev ++ (EvSignal <$> fresh_stops l m') ->
      wp (each_thread thread_hold l) Q (s <| threads := m' |> <| events := ev |>)) as Hrest.
    { intros ev Hev. apply IH; [done| |].
      - intros t' Ht'. cbn. unfold m'. rewrite lookup_insert_ne; [apply Hl; by right|]. by intros ->.
      - assert (bumped 1 l m' = bumped 1 (t :: l) (threads s)) as Hb by (by apply bumped_cons).
        change (threads (s <| threads := m' |> <| events := ev |>)) with m'. rewrite Hb.
        change (events (s <| threads := m' |> <| events := ev |>)) with ev. rewrite <- Hev. exact HQ. }
    unfold when, fresh_stops in *. rewrite filter_cons in Hrest. rewrite Ex in Hrest. cbn in Hrest.
    destruct (Z.eqb_spec (th_suspend_count x) 0) as [E|E].
    + unfold emit. wp_step. apply (Hrest (events s ++ [EvSignal t])). rewrite decide_True by congruence.
      rewrite Hf, fmap_cons, <- app_assoc. done.
    + wp_step. apply (Hrest (events s)). rewrite decide_False by congruence. by rewrite Hf.
Qed.
Lemma wp_each_release l (Q : unit -> sst -> Prop) s :
  NoDup l -> (forall t, t ∈ l -> is_Some (threads s !! t)) ->
  Q tt (s <| threads := bumped (-1) l (threads s) |> <| events := events s ++ (EvResume <$> l) |>) ->
  wp (each_thread thread_release l) Q s.
Proof.
  revert s. induction l as [|t l IH]; intros s Hnd Hl HQ; cbn [each_thread].
  - apply wp_ret. rewrite bumped_nil in HQ. cbn in HQ. rewrite app_nil_r in HQ. by destruct s.
  - apply NoDup_cons in Hnd as [Hn Hnd]. destruct (Hl t) as [x Ex]; [left|]. wp_step. unfold thread_release.
    wp_step. apply (wp_thread_set t x); [done|]. unfold emit. wp_step. apply IH; [done| |].
    + intros t' Ht'. cbn. rewrite lookup_insert_ne; [apply Hl; by right|]. by intros ->.
    + set (m' := <[t := _]> (threads s)).
      assert (bumped (-1) l m' = bumped (-1) (t :: l) (threads s)) as Hb by (by apply (bumped_cons (-1))).
      eapply eq_ind; [exact HQ|]. rewrite <- Hb. unfold update; cbn. f_equal. by rewrite <- app_assoc.
Qed.

(** ** The specification: who is stopped *)

(** The holds placed by users on tasks and on threads. *)
Record holds := mk_holds { on_task : nat -> Z; on_thread : nat -> Z }.
Definition b2z (b : bool) : Z := if b then 1 else 0.

Record reps (h : holds) (s : sst) : Prop := {
  rp_thread t y : threads s !! t = Some y -> exists x, tasks s !! th_task y = Some x /\ t ∈ tk_threads x;
  rp_list k x t : tasks s !! k = Some x -> t ∈ tk_threads x -> exists y, threads s !! t = Some y /\ th_task y = k;
  rp_nodup k x : tasks s !! k = Some x -> NoDup (tk_threads x);
  rp_task k x : tasks s !! k = Some x -> tk_user_stop_count x = on_task h k /\ 0 <= on_task h k < 2 ^ 31 /\
    tk_suspend_count x = b2z (0 <? on_task h k);
  rp_held t y : threads s !! t = Some y -> th_user_stop_count y = on_thread h t /\ 0 <= on_thread h t < 2 ^ 15 /\
    th_suspend_count y = b2z (0 <? on_task h (th_task y)) + b2z (0 <? on_thread h t);
}.
(** A thread is to stop while anybody holds it or its task. *)
Definition stopped (h : holds) (s : sst) (t : nat) : bool :=
  match threads s !! t with
  | Some y => (0 <? on_task h (th_task y)) || (0 <? on_thread h t)
  | None => false
  end.
Definition suspended (s : sst) (t : nat) : bool :=
  match threads s !! t with Some y => 0 <? th_suspend_count y | None => false end.
(** What an operation leaves alone: which thread belongs to which task, and who is alive. *)
Record same_static (s s' : sst) : Prop := {
  st_thread t : (fun y => (th_task y, th_active y)) <$> threads s' !! t = (fun y => (th_task y, th_active y)) <$> threads s !! t;
  st_task k : (fun x => (tk_active x, tk_corpse x, tk_pidsuspended x)) <$> tasks s' !! k =
              (fun x => (tk_active x, tk_corpse x, tk_pidsuspended x)) <$> tasks s !! k;
}.
#[global] Instance same_static_refl : Reflexive same_static.
Proof. by split. Qed.

(** Threads that the new holds stop, in the events. *)
Definition signals_stopped (h h' : holds) (s s' : sst) : Prop :=
  exists ev, events s' = events s ++ ev /\
    forall t, EvSignal t ∈ ev <-> stopped h s t = false /\ stopped h' s t = true.

(** ** How the counts follow the holds *)

Lemma reps_events h s ev : reps h s -> reps h (s <| events := ev |>).
Proof. intros []. by constructor. Qed.
Definition hold_thread (t : nat) (c : Z) (h : holds) : holds := mk_holds (on_task h) (upd (on_thread h) t c).
Definition hold_task (k : nat) (c : Z) (h : holds) : holds := mk_holds (upd (on_task h) k c) (on_thread h).

Lemma reps_thread_count h s t y y' c :
  reps h s -> threads s !! t = Some y -> th_task y' = th_task y -> th_user_stop_count y' = c -> 0 <= c < 2 ^ 15 ->
  th_suspend_count y' = b2z (0 <? on_task h (th_task y)) + b2z (0 <? c) ->
  reps (hold_thread t c h) (s <| threads := <[t := y']> (threads s) |>).
Proof.
  intros [R1 R2 R3 R4 R5] Ey Ht Hu Hc Hs. constructor; cbn; try done.
  - intros t' z E. apply lookup_insert_Some in E as [[<- <-]|[Hne E]]; [rewrite Ht; eauto|eauto].
  - intros k x t' Ex Hx. destruct (R2 k x t' Ex Hx) as (z & Ez & Hz). destruct (decide (t' = t)) as [->|Hne].
    + exists y'. rewrite lookup_insert_eq. split; [done|]. congruence.
    + exists z. by rewrite lookup_insert_ne.
  - intros t' z E. apply lookup_insert_Some in E as [[<- <-]|[Hne E]]; [rewrite upd_eq, Ht; done|].
    rewrite upd_ne by done. eauto.
Qed.

Lemma in_task h s k x t y : reps h s -> tasks s !! k = Some x -> threads s !! t = Some y -> t ∈ tk_threads x <-> th_task y = k.
Proof.
  intros R Ex Ey. split.
  - intros Ht. destruct (rp_list _ _ R k x t Ex Ht) as (z & Ez & Hz). congruence.
  - intros <-. destruct (rp_thread _ _ R t y Ey) as (x' & Ex' & Ht). congruence.
Qed.
(** The task's count changes; when it leaves or reaches zero, so do the
    threads' suspend counts. *)
Lemma reps_task_count h s k x x' c d :
  reps h s -> tasks s !! k = Some x -> tk_threads x' = tk_threads x -> tk_user_stop_count x' = c -> 0 <= c < 2 ^ 31 ->
  tk_suspend_count x' = b2z (0 <? c) -> b2z (0 <? c) = b2z (0 <? on_task h k) + d ->
  reps (hold_task k c h) (s <| tasks := <[k := x']> (tasks s) |> <| threads := bumped d (tk_threads x) (threads s) |>).
Proof.
  intros R Ex Ht Hu Hc Hs Hd. pose proof R as [R1 R2 R3 R4 R5]. constructor; cbn.
  - intros t y E. rewrite bumped_lookup in E. apply fmap_Some in E as (y0 & Ey & ->).
    destruct (R1 t y0 Ey) as (x0 & Ex0 & Hx0). assert (th_task (if decide (t ∈ tk_threads x) then
      y0 <| th_suspend_count ::= fun c => s16 (c + d) |> else y0) = th_task y0) as -> by (by case_decide).
    destruct (decide (th_task y0 = k)) as [<-|Hne].
    + exists x'. rewrite lookup_insert_eq. split; [done|]. rewrite Ht. congruence.
    + exists x0. by rewrite lookup_insert_ne.
  - intros k' x1 t E Hx. assert (exists x0, tasks s !! k' = Some x0 /\ t ∈ tk_threads x0) as (x0 & Ex0 & Hx0).
    { apply lookup_insert_Some in E as [[<- <-]|[Hne E]]; [exists x; by rewrite <- Ht|by exists x1]. }
    destruct (R2 k' x0 t Ex0 Hx0) as (y & Ey & Hy). eexists. rewrite bumped_lookup, Ey. split; [done|]. by case_decide.
  - intros k' x1 E. apply lookup_insert_Some in E as [[<- <-]|[Hne E]]; [rewrite Ht|]; eauto.
  - intros k' x1 E. apply lookup_insert_Some in E as [[<- <-]|[Hne E]]; [rewrite upd_eq; done|].
    rewrite upd_ne by done. eauto.
  - intros t y E. rewrite bumped_lookup in E. apply fmap_Some in E as (y0 & Ey & ->).
    destruct (R5 t y0 Ey) as (H1 & H2 & H3). pose proof (in_task h s k x t y0 R Ex Ey) as Hi. case_decide as Hin.
    + apply Hi in Hin. cbn. rewrite Hin, upd_eq. split; [done|]. split; [done|]. rewrite H3, Hin.
      unfold b2z in *. destruct (0 <? c), (0 <? on_task h k), (0 <? on_thread h t); rewrite s16_id; lia.
    + cbn. rewrite upd_ne by (intros E; by apply Hin, Hi). done.
Qed.
Lemma bumped_0 l m : (forall t y, m !! t = Some y -> - 2 ^ 15 <= th_suspend_count y < 2 ^ 15) -> bumped 0 l m = m.
Proof.
  intros Hr. apply map_eq. intros t. rewrite bumped_lookup. destruct (m !! t) as [y|] eqn:E; cbn; [|done].
  case_decide; [|done]. f_equal. specialize (Hr t y E). destruct y as [a b c d e]. unfold update. cbn in *. by rewrite Z.add_0_r, s16_id.
Qed.

(** ** The operations follow the specification *)

Definition spec_place (x : xtask) (k : nat) (h : holds) : Z * holds :=
  if negb (tk_active x) && negb (tk_corpse x) then (KERN_FAILURE, h)
  else if tk_corpse x then (KERN_SUCCESS, h)
  else (KERN_SUCCESS, hold_task k (on_task h k + 1) h).
Definition spec_release (x : xtask) (k : nat) (h : holds) : Z * holds :=
  if negb (tk_active x) && negb (tk_corpse x) then (KERN_FAILURE, h)
  else if tk_corpse x then (KERN_SUCCESS, h)
  else if on_task h k >? (if tk_pidsuspended x then 1 else 0) then (KERN_SUCCESS, hold_task k (on_task h k - 1) h)
  else (KERN_FAILURE, h).
(** The outcome of a call: the specification's result, the counts that stand
    for its holds, and a signal to exactly the threads it stops. *)
Definition follows (h : holds) (s : sst) (spec : Z * holds) (r : Z) (s' : sst) : Prop :=
  r = fst spec /\ reps (snd spec) s' /\ same_static s s' /\ signals_stopped h (snd spec) s s'.

Lemma follows_refl h s r : reps h s -> follows h s (r, h) r s.
Proof.
  intros R. split; [done|]. split; [done|]. split; [done|]. exists []. rewrite app_nil_r. split; [done|].
  intros t. split; [intros H; by apply elem_of_nil in H|]. cbn. intros [-> H]. done.
Qed.
Lemma reps_range h s t y : reps h s -> threads s !! t = Some y -> - 2 ^ 15 <= th_suspend_count y < 2 ^ 15.
Proof. intros R E. destruct (rp_held _ _ R t y E) as (_ & _ & ->). unfold b2z. repeat case_bool; lia. Qed.
(** The task's count and threads after a change of its holds. *)
Definition recounted (k : nat) (x x' : xtask) (d : Z) (ev : list event) (s : sst) : sst :=
  s <| tasks := <[k := x']> (tasks s) |> <| threads := bumped d (tk_threads x) (threads s) |> <| events := events s ++ ev |>.
Lemma recounted_static k x x' d ev s :
  tasks s !! k = Some x -> tk_active x' = tk_active x -> tk_corpse x' = tk_corpse x -> tk_pidsuspended x' = tk_pidsuspended x ->
  same_static s (recounted k x x' d ev s).
Proof.
  intros E H1 H2 H3. split; cbn.
  - intros t. rewrite bumped_lookup. destruct (threads s !! t) as [y|]; cbn; [|done]. by case_decide.
  - intros k'. destruct (decide (k' = k)) as [->|Hne]; [|by rewrite lookup_insert_ne].
    rewrite lookup_insert_eq, E. cbn. congruence.
Qed.
Lemma follows_recounted h s k x x' c d ev r :
  reps h s -> tasks s !! k = Some x -> tk_active x' = tk_active x -> tk_corpse x' = tk_corpse x -> tk_pidsuspended x' = tk_pidsuspended x ->
  tk_threads x' = tk_threads x -> tk_user_stop_count x' = c -> 0 <= c < 2 ^ 31 ->
  tk_suspend_count x' = b2z (0 <? c) -> b2z (0 <? c) = b2z (0 <? on_task h k) + d ->
  (forall t, EvSignal t ∈ ev <-> stopped h s t = false /\ stopped (hold_task k c h) s t = true) ->
  follows h s (r, hold_task k c h) r (recounted k x x' d ev s).
Proof.
  intros R Ex H1 H2 H3 H4 H5 H6 H7 H8 Hev. split; [done|]. split; [|split].
  - apply reps_events. by eapply reps_task_count.
  - by apply recounted_static.
  - exists ev. split; [done|]. exact Hev.
Qed.

Lemma fresh_stops_spec h s k x c t :
  reps h s -> tasks s !! k = Some x -> on_task h k = 0 -> 0 < c ->
  EvSignal t ∈ EvSignal <$> fresh_stops (tk_threads x) (threads s) <->
  stopped h s t = false /\ stopped (hold_task k c h) s t = true.
Proof.
  intros R Ex Hz Hc. rewrite list_elem_of_fmap. unfold fresh_stops, stopped. split.
  - intros (t' & [= <-] & Ht). apply list_elem_of_filter in Ht as [Hc0 Ht].
    destruct (rp_list _ _ R k x t Ex Ht) as (y & Ey & Hy). rewrite Ey in *. cbn in Hc0. injection Hc0 as Hc0.
    destruct (rp_held _ _ R t y Ey) as (_ & _ & H3). rewrite Hc0, Hy, Hz in H3. rewrite Hy, Hz. cbn. rewrite upd_eq.
    unfold b2z in H3. destruct (0 <? on_thread h t); [done|]. split; [done|]. destruct (Z.ltb_spec 0 c); [done|lia].
  - destruct (threads s !! t) as [y|] eqn:Ey; [|naive_solver]. cbn. unfold upd. case_decide as E; [|intros [-> ?]; done].
    rewrite E, Hz. cbn. intros [Ht _]. exists t. split; [done|]. apply list_elem_of_filter.
    split; [|by apply (in_task h s k x t y)]. rewrite Ey. cbn. f_equal.
    destruct (rp_held _ _ R t y Ey) as (_ & _ & ->). by rewrite E, Hz, Ht.
Qed.
Lemma no_new_stops h s k c (ev : list event) :
  (forall t, EvSignal t ∉ ev) -> (0 <? on_task h k) = true \/ (0 <? c) = false ->
  forall t, EvSignal t ∈ ev <-> stopped h s t = false /\ stopped (hold_task k c h) s t = true.
Proof.
  intros Hev Hor t. split; [intros H; by apply Hev in H|]. unfold stopped. destruct (threads s !! t) as [y|]; [|naive_solver].
  cbn. unfold upd. case_decide as E; [|intros [-> ?]; done]. rewrite E. destruct Hor as [-> | ->]; [naive_solver|].
  cbn. intros [[_ ->]%orb_false_iff ?]. done.
Qed.
Lemma wp_place_task_hold h s k x mode :
  reps h s -> tasks s !! k = Some x -> on_task h k < 2 ^ 31 - 1 ->
  wp (place_task_hold k mode) (follows h s (spec_place x k h)) s.
Proof.
  intros R Ex Hroom. unfold place_task_hold, spec_place. wp_step. apply (wp_task_get k x); [done|].
  destruct (negb (tk_active x) && negb (tk_corpse x)); [by apply wp_ret, follows_refl|].
  destruct (tk_corpse x); [by apply wp_ret, follows_refl|]. destruct (rp_task _ _ R k x Ex) as (Hu & Hc & Hs).
  assert (forall x1, tasks s !! k = Some x -> x1 = x \/ x1 = x <| tk_legacy_stop_count ::= fun c => s32 (c + 1) |> ->
    wp (task_set k (fun x => x <| tk_user_stop_count ::= fun c => s32 (c + 1) |>) ;;;
        if tk_user_stop_count x >? 0 then ret KERN_SUCCESS else task_hold_locked k ;;; ret KERN_SUCCESS)
       (follows h s (KERN_SUCCESS, hold_task k (on_task h k + 1) h)) (s <| tasks := <[k := x1]> (tasks s) |>)) as Hmain.
  { intros x1 _ Hx1. wp_step. apply (wp_task_set k x1); [cbn; by rewrite lookup_insert_eq|]. cbn [tasks].
    set (x2 := x1 <| tk_user_stop_count ::= _ |>).
    assert (tk_user_stop_count x2 = on_task h k + 1) as Hu2.
    { unfold x2. assert (tk_user_stop_count x1 = on_task h k) as E1 by (destruct Hx1 as [->| ->]; done). cbn. rewrite E1. apply s32_id. lia. }
    assert (tk_active x2 = tk_active x /\ tk_corpse x2 = tk_corpse x /\ tk_pidsuspended x2 = tk_pidsuspended x /\
            tk_threads x2 = tk_threads x /\ tk_suspend_count x2 = tk_suspend_count x) as (A1 & A2 & A3 & A4 & A5)
      by (unfold x2; destruct Hx1 as [->| ->]; done).
    clearbody x2. replace (tk_user_stop_count x >? 0) with (0 <? on_task h k) by (rewrite Hu; lia).
    assert (<[k := x2]> (<[k := x1]> (tasks s)) = <[k := x2]> (tasks s)) as Ei by apply insert_insert_eq.
    destruct (0 <? on_task h k) eqn:Eh.
    - apply wp_ret. change (tasks (s <| tasks := <[k := x1]> (tasks s) |>)) with (<[k := x1]> (tasks s)). rewrite Ei.
      assert (follows h s (KERN_SUCCESS, hold_task k (on_task h k + 1) h) KERN_SUCCESS (recounted k x x2 0 [] s)) as Hf.
      { apply follows_recounted; try done; [lia|rewrite A5, Hs; f_equal; lia|rewrite Eh; unfold b2z; case_bool; lia|].
        apply no_new_stops; [intros t H; by apply elem_of_nil in H|by left]. }
      unfold recounted in Hf. rewrite bumped_0, app_nil_r in Hf by (intros; by eapply reps_range). destruct s; exact Hf.
    - assert (on_task h k = 0) as Hz by lia. wp_step. unfold task_hold_locked. wp_step.
      apply (wp_task_get k x2); [cbn; by rewrite lookup_insert_eq|]. wp_step.
      apply (wp_task_set k x2); [cbn; by rewrite lookup_insert_eq|]. rewrite A5, Hs, A4. cbn [b2z Z.gtb Z.compare].
      set (x3 := x2 <| tk_suspend_count ::= _ |>). apply wp_each_hold; [by eapply rp_nodup| |].
      { intros t Ht. destruct (rp_list _ _ R k x t Ex Ht) as (y & Ey & _). by exists y. }
      apply wp_ret.
      assert (follows h s (KERN_SUCCESS, hold_task k (on_task h k + 1) h) KERN_SUCCESS
        (recounted k x x3 1 (EvSignal <$> fresh_stops (tk_threads x) (threads s)) s)) as Hf.
      { apply follows_recounted; try done; [lia|cbn; rewrite A5, Hs, Hz; done|by rewrite Hz|].
        intros t. apply (fresh_stops_spec h s k x); [done|done|done|lia]. }
      unfold recounted in Hf. cbn. rewrite Ei, insert_insert_eq. exact Hf. }
  unfold when. case_bool.
  - wp_step. apply (wp_task_set k x); [done|]. apply Hmain; [done|by right].
  - wp_step. apply wp_ret. replace s with (s <| tasks := <[k := x]> (tasks s) |>) at 2; [apply Hmain; [done|by left]|].
    destruct s. unfold update. cbn in *. by rewrite insert_id.
Qed.

(** The counts a release of one hold leaves in the task. *)
Lemma wp_release_hold_counts k x mode (Q : bool -> sst -> Prop) s :
  mode = TASK_HOLD_NORMAL \/ mode = TASK_HOLD_LEGACY -> tasks s !! k = Some x -> 1 <= tk_user_stop_count x < 2 ^ 31 ->
  (forall x2, tk_active x2 = tk_active x -> tk_corpse x2 = tk_corpse x -> tk_pidsuspended x2 = tk_pidsuspended x ->
     tk_threads x2 = tk_threads x -> tk_suspend_count x2 = tk_suspend_count x -> tk_user_stop_count x2 = tk_user_stop_count x - 1 ->
     Q (tk_user_stop_count x =? 1) (s <| tasks := <[k := x2]> (tasks s) |>)) ->
  wp (release_counts k mode) Q s.
Proof.
  intros Hmode Ex Hu HQ. unfold release_counts. wp_step. apply (wp_task_get k x); [done|].
  assert (forall x1 s1, x1 = x \/ x1 = x <| tk_legacy_stop_count ::= fun c => s32 (c - 1) |> ->
    tasks s1 !! k = Some x1 -> (forall x2, s1 <| tasks := <[k := x2]> (tasks s1) |> = s <| tasks := <[k := x2]> (tasks s) |>) ->
    wp (task_set k (fun x => x <| tk_user_stop_count ::= fun c => s32 (c - 1) |>) ;;; ret (s32 (tk_user_stop_count x - 1) =? 0)) Q s1) as Hmain.
  { intros x1 s1 Hx1 E1 Hs1. wp_step. apply (wp_task_set k x1); [done|]. apply wp_ret. rewrite Hs1.
    replace (s32 (tk_user_stop_count x - 1) =? 0) with (tk_user_stop_count x =? 1) by (rewrite s32_id by lia; lia).
    assert (tk_user_stop_count x1 = tk_user_stop_count x) as E by (destruct Hx1 as [->| ->]; done).
    apply HQ; try (destruct Hx1 as [->| ->]; done). cbn. rewrite E. apply s32_id. lia. }
  assert (wp (when (bool_decide (mode = TASK_HOLD_LEGACY) && (tk_legacy_stop_count x >? 0))
        (task_set k (fun x => x <| tk_legacy_stop_count ::= fun c => s32 (c - 1) |>)) ;;;
      task_set k (fun x => x <| tk_user_stop_count ::= fun c => s32 (c - 1) |>) ;;;
      ret (s32 (tk_user_stop_count x - 1) =? 0)) Q s) as Hw.
  { unfold when. case_bool; wp_step.
    - apply (wp_task_set k x); [done|]. eapply Hmain; [by right|cbn; by rewrite lookup_insert_eq|].
      intros x2. unfold update. cbn. by rewrite insert_insert_eq.
    - apply wp_ret. eapply Hmain; [by left|done|done]. }
  destruct Hmode as [->| ->]; exact Hw.
Qed.

Lemma wp_release_task_hold h s k x mode :
  mode = TASK_HOLD_NORMAL \/ mode = TASK_HOLD_LEGACY -> reps h s -> tasks s !! k = Some x ->
  wp (release_task_hold k mode) (follows h s (spec_release x k h)) s.
Proof.
  intros Hmode R Ex. unfold release_task_hold, spec_release. wp_step. apply (wp_task_get k x); [done|].
  destruct (negb (tk_active x) && negb (tk_corpse x)); [by apply wp_ret, follows_refl|].
  destruct (tk_corpse x); [by apply wp_ret, follows_refl|].
  replace (bool_decide (mode = TASK_HOLD_PIDSUSPEND)) with false by (destruct Hmode as [->| ->]; reflexivity). cbn [andb when].
  wp_step. apply wp_ret. wp_step. apply (wp_task_get k x); [done|]. destruct (rp_task _ _ R k x Ex) as (Hu & Hc & Hs).
  rewrite Hu. destruct (on_task h k >? _) eqn:Eg; [|by apply wp_ret, follows_refl].
  assert (1 <= on_task h k) as H1 by (destruct (tk_pidsuspended x); lia).
  wp_step. eapply (wp_release_hold_counts k x); [done|done|lia|]. intros x2 A1 A2 A3 A4 A5 A6. rewrite Hu in *. wp_step.
  destruct (Z.eqb_spec (on_task h k) 1) as [E1|E1]; cbn [when].
  - unfold task_release_locked. wp_step. apply (wp_task_get k x2); [cbn; by rewrite lookup_insert_eq|].
    wp_step. apply (wp_task_set k x2); [cbn; by rewrite lookup_insert_eq|]. rewrite A5, Hs, E1, A4. cbn [b2z Z.ltb Z.compare].
    set (x3 := x2 <| tk_suspend_count ::= _ |>). change (s32 (1 - 1) >? 0) with false. apply wp_each_release; [by eapply rp_nodup| |].
    { intros t Ht. destruct (rp_list _ _ R k x t Ex Ht) as (y & Ey & _). by exists y. }
    apply wp_ret.
    assert (follows h s (KERN_SUCCESS, hold_task k (on_task h k - 1) h) KERN_SUCCESS
      (recounted k x x3 (-1) (EvResume <$> tk_threads x) s)) as Hf.
    { apply follows_recounted; try done; [lia|cbn; rewrite A5, Hs, E1; done|by rewrite E1|].
      apply no_new_stops; [|by left; rewrite E1]. intros t Ht. apply list_elem_of_fmap in Ht as (? & [=] & _). }
    rewrite E1 in Hf. unfold recounted in Hf. cbn. rewrite insert_insert_eq. exact Hf.
  - wp_step. apply wp_ret.
    assert (follows h s (KERN_SUCCESS, hold_task k (on_task h k - 1) h) KERN_SUCCESS (recounted k x x2 0 [] s)) as Hf.
    { assert ((0 <? on_task h k) = true /\ (0 <? on_task h k - 1) = true) as [P1 P2] by lia.
      apply follows_recounted; try done; [lia|by rewrite A5, Hs, P1, P2|by rewrite P1, P2|].
      apply no_new_stops; [intros t H; by apply elem_of_nil in H|by left]. }
    unfold recounted in Hf. rewrite bumped_0, app_nil_r in Hf by (intros; by eapply reps_range). destruct s; exact Hf.
Qed.

Lemma follows_emit h s spec r r' e s' (Q : unit -> sst -> Prop) :
  (forall t, e <> EvSignal t) -> follows h s spec r s' ->
  (forall s'', follows h s (r', snd spec) r' s'' -> Q tt s'') -> wp (emit e) Q s'.
Proof.
  intros He (-> & R & St & ev & Hev & Hs) HQ. unfold emit. wp_step. apply HQ. split; [done|]. cbn.
  split; [by apply reps_events|]. split; [by destruct St|]. exists (ev ++ [e]). split; [cbn; by rewrite Hev, app_assoc|].
  intros t. rewrite elem_of_app, list_elem_of_singleton, Hs. cbn. split; [intros [?|Hx]; [done|]; by destruct (He t)|by left].
Qed.

(** One thread's counts change. *)
Lemma follows_thread h s t y y' c ev :
  reps h s -> threads s !! t = Some y -> th_task y' = th_task y -> th_active y' = th_active y ->
  th_user_stop_count y' = c -> 0 <= c < 2 ^ 15 ->
  th_suspend_count y' = b2z (0 <? on_task h (th_task y)) + b2z (0 <? c) ->
  (forall t', EvSignal t' ∈ ev <-> t' = t /\ (0 <? on_task h (th_task y)) = false /\ (0 <? on_thread h t) = false /\ (0 <? c) = true) ->
  follows h s (KERN_SUCCESS, hold_thread t c h) KERN_SUCCESS
    (s <| threads := <[t := y']> (threads s) |> <| events := events s ++ ev |>).
Proof.
  intros R Ey Ht Ha Hu Hc Hs Hev. split; [done|]. split; [apply reps_events; by eapply reps_thread_count|]. split.
  - split; [|done]. intros t'. cbn. destruct (decide (t' = t)) as [->|Hne]; [|by rewrite lookup_insert_ne].
    rewrite lookup_insert_eq, Ey. cbn. congruence.
  - exists ev. split; [done|]. intros t'. rewrite Hev. unfold stopped. destruct (decide (t' = t)) as [->|Hne].
    + rewrite Ey. cbn. rewrite upd_eq. destruct (0 <? on_task h (th_task y)), (0 <? on_thread h t), (0 <? c); cbn; intuition congruence.
    + destruct (threads s !! t') as [z|]; [|intuition congruence]. cbn. rewrite upd_ne by done. split; [by intros (? & _)|intros [-> ?]; done].
Qed.

Section Refinement.
Context (kernel_task : nat).


(** The result and the holds after a call. *)
Definition spec_thread_suspend (y : xthread) (t : nat) (h : holds) : Z * holds :=
  if (th_task y =? kernel_task)%nat then (KERN_INVALID_ARGUMENT, h)
  else if th_active y then (KERN_SUCCESS, hold_thread t (on_thread h t + 1) h) else (KERN_TERMINATED, h).
Definition spec_thread_resume (y : xthread) (t : nat) (h : holds) : Z * holds :=
  if (th_task y =? kernel_task)%nat then (KERN_INVALID_ARGUMENT, h)
  else if th_active y then
    if on_thread h t >? 0 then (KERN_SUCCESS, hold_thread t (on_thread h t - 1) h) else (KERN_FAILURE, h)
  else (KERN_TERMINATED, h).

Lemma wp_thread_suspend h s cur t y :
  reps h s -> threads s !! t = Some y -> on_thread h t < 2 ^ 15 - 1 ->
  wp (thread_suspend kernel_task cur (Some t)) (follows h s (spec_thread_suspend y t h)) s.
Proof.
  intros R Ey Hroom. unfold thread_suspend, spec_thread_suspend. wp_step. apply (wp_thread_get t y); [done|].
  destruct (th_task y =? kernel_task)%nat; [by apply wp_ret, follows_refl|]. wp_step.
  destruct (th_active y); [|wp_step; change (KERN_TERMINATED =? KERN_SUCCESS) with false; rewrite andb_false_r; cbn [when]; wp_go; by apply follows_refl].
  destruct (rp_held _ _ R t y Ey) as (Hu & Hc & Hs). set (spec := (KERN_SUCCESS, _)).
  assert (forall s', follows h s spec KERN_SUCCESS s' ->
    wp (when (negb (t =? cur)%nat && (KERN_SUCCESS =? KERN_SUCCESS)) (emit (EvWait t)) ;;; ret KERN_SUCCESS) (follows h s spec) s') as Hend.
  { intros s' Hf. wp_step. unfold when. case_bool; [|by wp_step; wp_step].
    eapply follows_emit; [done|done|]. intros s'' Hf'. by wp_step. }
  wp_step. apply (wp_thread_set t y); [done|]. rewrite Hu. set (y1 := y <| th_user_stop_count ::= _ |>).
  assert (th_user_stop_count y1 = on_thread h t + 1) as Hu1 by (cbn; rewrite Hu; apply s16_id; lia).
  unfold when. destruct (Z.eqb_spec (on_thread h t) 0) as [Ez|Ez].
  - wp_step. unfold thread_hold. wp_step. apply (wp_thread_get t y1); [cbn; by rewrite lookup_insert_eq|].
    wp_step. apply (wp_thread_set t y1); [cbn; by rewrite lookup_insert_eq|].
    set (y2 := y1 <| th_suspend_count ::= _ |>). change (th_suspend_count y1) with (th_suspend_count y).
    assert (th_suspend_count y2 = b2z (0 <? on_task h (th_task y)) + b2z (0 <? on_thread h t + 1)) as Hs2.
    { change (s16 (th_suspend_count y + 1) = b2z (0 <? on_task h (th_task y)) + b2z (0 <? on_thread h t + 1)).
      rewrite Hs, Ez. by destruct (0 <? on_task h (th_task y)). }
    unfold when. rewrite Hs, Ez. change (b2z (0 <? 0)) with 0. rewrite Z.add_0_r.
    destruct (0 <? on_task h (th_task y)) eqn:Eh; cbn [b2z Z.eqb].
    + wp_step. wp_step. apply Hend.
      eapply eq_ind; [apply (follows_thread h s t y y2 (on_thread h t + 1) []); [done|done|done|done|done|lia|by rewrite Eh|]|].
      * intros t'. rewrite elem_of_nil, Eh. intuition congruence.
      * unfold update. cbn. by rewrite insert_insert_eq, app_nil_r.
    + unfold emit. wp_step. wp_step. apply Hend.
      eapply eq_ind; [apply (follows_thread h s t y y2 (on_thread h t + 1) [EvSignal t]); [done|done|done|done|done|lia|by rewrite Eh|]|].
      * intros t'. rewrite list_elem_of_singleton, Eh, Ez. split; [intros [= ->]; done|by intros (-> & _)].
      * unfold update. cbn. by rewrite insert_insert_eq.
  - wp_step. wp_step. apply Hend.
    eapply eq_ind; [apply (follows_thread h s t y y1 (on_thread h t + 1) []); try done; [lia| |]|].
    + cbn. rewrite Hs. replace (0 <? on_thread h t) with true by lia. replace (0 <? on_thread h t + 1) with true by lia. done.
    + intros t'. rewrite elem_of_nil. replace (0 <? on_thread h t) with true by lia. intuition congruence.
    + unfold update. cbn. by rewrite app_nil_r.
Qed.

Lemma wp_thread_resume h s t y :
  reps h s -> threads s !! t = Some y ->
  wp (thread_resume kernel_task (Some t)) (follows h s (spec_thread_resume y t h)) s.
Proof.
  intros R Ey. unfold thread_resume, spec_thread_resume. wp_step. apply (wp_thread_get t y); [done|].
  destruct (th_task y =? kernel_task)%nat; [by apply wp_ret, follows_refl|].
  destruct (th_active y); [|by apply wp_ret, follows_refl]. destruct (rp_held _ _ R t y Ey) as (Hu & Hc & Hs).
  rewrite Hu. destruct (on_thread h t >? 0) eqn:Eg; [|by apply wp_ret, follows_refl].
  assert (0 < on_thread h t) as Hp by lia. wp_step. apply (wp_thread_set t y); [done|]. rewrite s16_id by lia.
  set (y1 := y <| th_user_stop_count ::= _ |>).
  assert (th_user_stop_count y1 = on_thread h t - 1) as Hu1 by (cbn; rewrite Hu; apply s16_id; lia).
  assert (forall l : list event, (forall t', EvSignal t' ∉ l) -> forall t', EvSignal t' ∈ l <->
    t' = t /\ (0 <? on_task h (th_task y)) = false /\ (0 <? on_thread h t) = false /\ (0 <? on_thread h t - 1) = true) as Hno.
  { intros l Hl t'. replace (0 <? on_thread h t) with true by lia. split; [intros H; by apply Hl in H|intuition congruence]. }
  unfold when. wp_step. destruct (Z.eqb_spec (on_thread h t - 1) 0) as [Ez|Ez].
  - unfold thread_release. wp_step. apply (wp_thread_set t y1); [cbn; by rewrite lookup_insert_eq|]. unfold emit. wp_go.
    set (y2 := y1 <| th_suspend_count ::= _ |>).
    eapply eq_ind; [apply (follows_thread h s t y y2 (on_thread h t - 1) [EvResume t]); [done|done|done|done|done|lia| |apply Hno]|].
    + change (s16 (th_suspend_count y - 1) = b2z (0 <? on_task h (th_task y)) + b2z (0 <? on_thread h t - 1)).
      rewrite Hs, Ez. replace (on_thread h t) with 1 by lia. by destruct (0 <? on_task h (th_task y)).
    + intros t' H. apply list_elem_of_singleton in H. done.
    + unfold update. cbn. by rewrite insert_insert_eq.
  - wp_go. eapply eq_ind; [apply (follows_thread h s t y y1 (on_thread h t - 1) []); [done|done|done|done|done|lia| |apply Hno]|].
    + change (th_suspend_count y1) with (th_suspend_count y). rewrite Hs.
      replace (0 <? on_thread h t) with true by lia. replace (0 <? on_thread h t - 1) with true by lia. done.
    + intros t' H. by apply elem_of_nil in H.
    + unfold update. cbn. by rewrite app_nil_r.
Qed.


(** ** Suspending and resuming *)

Definition thread_counts (s : sst) (t : nat) : option (Z * Z) :=
  (fun y => (th_user_stop_count y, th_suspend_count y)) <$> threads s !! t.
Definition task_counts (s : sst) (k : nat) : option (Z * Z) :=
  (fun x => (tk_user_stop_count x, tk_suspend_count x)) <$> tasks s !! k.
Lemma same_counts h h' s s' :
  reps h s -> reps h' s' -> same_static s s' ->
  (forall t, on_thread h' t = on_thread h t) -> (forall k, on_task h' k = on_task h k) ->
  (forall t, thread_counts s' t = thread_counts s t) /\ (forall k, task_counts s' k = task_counts s k).
Proof.
  intros R R' [S1 S2] Ht Hk. split.
  - intros t. unfold thread_counts. specialize (S1 t). destruct (threads s !! t) as [y|] eqn:E, (threads s' !! t) as [y'|] eqn:E'; try done.
    cbn in *. destruct (rp_held _ _ R t y E) as (-> & _ & ->), (rp_held _ _ R' t y' E') as (-> & _ & ->). rewrite Ht, Hk. by injection S1 as -> _.
  - intros k. unfold task_counts. specialize (S2 k). destruct (tasks s !! k) as [x|] eqn:E, (tasks s' !! k) as [x'|] eqn:E'; try done.
    cbn. destruct (rp_task _ _ R k x E) as (-> & _ & ->), (rp_task _ _ R' k x' E') as (-> & _ & ->). by rewrite Hk.
Qed.
Lemma same_static_trans s s1 s2 : same_static s s1 -> same_static s1 s2 -> same_static s s2.
Proof. intros [A1 A2] [B1 B2]. split; intros; [by rewrite B1|by rewrite B2]. Qed.
Lemma same_static_task s s' k x : same_static s s' -> tasks s !! k = Some x ->
  exists x', tasks s' !! k = Some x' /\ tk_active x' = tk_active x /\ tk_corpse x' = tk_corpse x /\ tk_pidsuspended x' = tk_pidsuspended x.
Proof.
  intros [_ S2] E. specialize (S2 k). rewrite E in S2. destruct (tasks s' !! k) as [x'|]; [|done]. exists x'. by injection S2 as -> -> ->.
Qed.
Lemma same_static_thread s s' t y : same_static s s' -> threads s !! t = Some y ->
  exists y', threads s' !! t = Some y' /\ th_task y' = th_task y /\ th_active y' = th_active y.
Proof.
  intros [S1 _] E. specialize (S1 t). rewrite E in S1. destruct (threads s' !! t) as [y'|]; [|done]. exists y'. by injection S1 as -> ->.
Qed.

(** a resume takes back a suspend: suspending an active user task and
    resuming it, or suspending an active thread and resuming it, succeeds both
    times and leaves every count of every task and every thread as it was,
    whatever else was suspended before. *)
Theorem resume_undoes_suspend h s k x cur t y :
  reps h s -> tasks s !! k = Some x -> tk_active x = true -> tk_corpse x = false -> tk_pidsuspended x = false ->
  k <> kernel_task -> on_task h k < 2 ^ 31 - 1 ->
  threads s !! t = Some y -> th_active y = true -> th_task y <> kernel_task -> on_thread h t < 2 ^ 15 - 1 ->
  let unchanged s' := (forall t, thread_counts s' t = thread_counts s t) /\ (forall k, task_counts s' k = task_counts s k) in
  wp (r1 <- task_suspend_internal kernel_task (Some k) ;; r2 <- task_resume_internal kernel_task (Some k) ;; ret (r1, r2))
     (fun r s' => r = (KERN_SUCCESS, KERN_SUCCESS) /\ unchanged s') s /\
  wp (r1 <- thread_suspend kernel_task cur (Some t) ;; r2 <- thread_resume kernel_task (Some t) ;; ret (r1, r2))
     (fun r s' => r = (KERN_SUCCESS, KERN_SUCCESS) /\ unchanged s') s.
Proof.
  intros R Ex Ha Hc Hp Hk Hroom Ey Hya Hyk Hyroom unchanged. split.
  - wp_step. unfold task_suspend_internal, task_resume_internal, on_user_task. rewrite (proj2 (Nat.eqb_neq k kernel_task)) by done.
    eapply wp_mono; [by apply (wp_place_task_hold h s k x)|]. unfold spec_place. rewrite Ha, Hc. cbn [negb andb].
    intros r1 s1 (-> & R1 & St1 & _). destruct (same_static_task s s1 k x St1 Ex) as (x1 & Ex1 & Ha1 & Hc1 & Hp1). wp_step.
    eapply wp_mono; [apply (wp_release_task_hold (hold_task k (on_task h k + 1) h) s1 k x1); [by left|exact R1|done]|].
    unfold spec_release. rewrite Ha1, Hc1, Hp1, Ha, Hc, Hp. cbn [negb andb fst snd hold_task on_task].
    destruct (rp_task _ _ R k x Ex) as (_ & Hpos & _). rewrite upd_eq. replace (on_task h k + 1 >? 0) with true by lia.
    intros r2 s2 (-> & R2 & St2 & _). apply wp_ret. split; [done|].
    eapply (same_counts h _ s s2); [done|exact R2|by eapply same_static_trans|done|].
    intros k'. cbn. unfold upd. case_decide; [subst; lia|done].
  - wp_step. eapply wp_mono; [by apply (wp_thread_suspend h s cur t y)|]. unfold spec_thread_suspend.
    rewrite (proj2 (Nat.eqb_neq _ kernel_task)), Hya by done.
    intros r1 s1 (-> & R1 & St1 & _). destruct (same_static_thread s s1 t y St1 Ey) as (y1 & Ey1 & Hk1 & Ha1). wp_step.
    eapply wp_mono; [by apply (wp_thread_resume (hold_thread t (on_thread h t + 1) h) s1 t y1)|]. unfold spec_thread_resume.
    rewrite Hk1, Ha1, (proj2 (Nat.eqb_neq _ kernel_task)), Hya by done. cbn [fst snd hold_thread on_thread].
    destruct (rp_held _ _ R t y Ey) as (_ & Hpos & _). rewrite upd_eq. replace (on_thread h t + 1 >? 0) with true by lia.
    intros r2 s2 (-> & R2 & St2 & _). apply wp_ret. split; [done|].
    eapply (same_counts h _ s s2); [done|exact R2|by eapply same_static_trans| |done].
    intros t'. cbn. unfold upd. case_decide; [subst; lia|done].
Qed.
End Refinement.

(** ** Concrete states *)

(** The kernel's task 0, and task 1 with threads 1 and 2. *)
Definition two_threads : sst :=
  mk_sst {[ 1%nat := mk_xthread 1 true 0 0 1; 2%nat := mk_xthread 1 true 0 0 1 ]}
    {[ 0%nat := mk_xtask true false false 0 0 0 [] 1; 1%nat := mk_xtask true false false 0 0 0 [1%nat; 2%nat] 3 ]} [].
Definition no_holds : holds := mk_holds (fun _ => 0) (fun _ => 0).
Lemma two_threads_reps : reps no_holds two_threads.
Proof.
  constructor; cbn.
  - intros t y E. apply lookup_insert_Some in E as [[<- <-]|[_ E]]; [|apply lookup_singleton_Some in E as [<- <-]];
      (eexists; split; [reflexivity|]; cbn; set_solver).
  - intros k x t E Ht. apply lookup_insert_Some in E as [[<- <-]|[_ E]]; [by apply elem_of_nil in Ht|].
    apply lookup_singleton_Some in E as [<- <-]. cbn in Ht.
    apply elem_of_cons in Ht as [->|Ht]; [|apply list_elem_of_singleton in Ht as ->]; eexists; split; reflexivity.
  - intros k x E. apply lookup_insert_Some in E as [[<- <-]|[_ E]]; [constructor|].
    apply lookup_singleton_Some in E as [<- <-]. apply (bool_decide_unpack _). vm_compute. done.
  - intros k x E. apply lookup_insert_Some in E as [[<- <-]|[_ E]]; [|apply lookup_singleton_Some in E as [<- <-]]; done.
  - intros t y E. apply lookup_insert_Some in E as [[<- <-]|[_ E]]; [|apply lookup_singleton_Some in E as [<- <-]]; done.
Qed.
Lemma resume_undoes_suspend_witness :
  wp (r1 <- thread_suspend 0 1 (Some 2%nat) ;; r2 <- thread_resume 0 (Some 2%nat) ;; ret (r1, r2))
     (fun r s' => r = (KERN_SUCCESS, KERN_SUCCESS) /\ thread_counts s' 2 = Some (0, 0)) two_threads.
Proof.
  eapply wp_mono; [refine (proj2 (resume_undoes_suspend 0 no_holds two_threads 1 (mk_xtask true false false 0 0 0 [1%nat; 2%nat] 3) 1 2
    (mk_xthread 1 true 0 0 1) two_threads_reps eq_refl eq_refl eq_refl eq_refl _ _ eq_refl eq_refl _ _)); (discriminate || reflexivity)|].
  intros r s' (-> & H & _). split; [reflexivity|]. rewrite H. reflexivity.
Defined.

(** a thread created in a suspended task is not held.  When the task is
    resumed its suspend count falls to -1, and after that a [thread_suspend] of
    it sends no stop signal: the thread runs on while the caller waits for it to
    stop. *)
Theorem created_in_suspended_task_escapes :
  wp (task_suspend_internal 0 (Some 1%nat) ;;;
      dtape_thread_create 1 3 ;;;
      before <- gets (fun s => suspended s 3) ;;
      task_resume_internal 0 (Some 1%nat) ;;;
      count <- gets (fun s => thread_counts s 3) ;;
      r <- thread_suspend 0 1 (Some 3%nat) ;;
      ret (before, count, r))
     (fun r s' => r = (false, Some (0, -1), KERN_SUCCESS) /\ suspended s' 3 = false /\
        EvSignal 3 ∉ events s' /\ last (events s') = Some (EvWait 3)) two_threads.
Proof.
  apply wp_run. do 2 eexists. split; [vm_compute; reflexivity|]. split_and!; [reflexivity..| |reflexivity].
  intros H. repeat (apply elem_of_cons in H as [H|H]; [done|]). by apply elem_of_nil in H.
Qed.
End Suspend.
