(* ===== verification/ThreadState.v ===== *)
(** The register state of threads: [thread_set_state] and [thread_get_state] of
    [src/duct-tape/src/thread.c], the stack of states around signal handling, and
    the transfers from and to the client process.  A state buffer is a list of
    32-bit words; reading or writing beyond its end aborts. *)
From S2P Require Import Prelude.

Module ThreadState.

(** ** Flavors and sizes (mach/i386/thread_status.h), in words *)
Definition x86_THREAD_STATE32 : Z := 1.
Definition x86_FLOAT_STATE32 : Z := 2.
Definition x86_THREAD_STATE64 : Z := 4.
Definition x86_FLOAT_STATE64 : Z := 5.
Definition x86_THREAD_STATE : Z := 7.
Definition x86_FLOAT_STATE : Z := 8.
Definition x86_DEBUG_STATE32 : Z := 10.
Definition x86_DEBUG_STATE64 : Z := 11.
Definition x86_DEBUG_STATE : Z := 12.
Definition x86_THREAD_STATE32_COUNT : nat := 16.
Definition x86_THREAD_STATE64_COUNT : nat := 42.
Definition x86_FLOAT_STATE32_COUNT : nat := 131.
Definition x86_FLOAT_STATE64_COUNT : nat := 131.
Definition x86_DEBUG_STATE32_COUNT : nat := 8.
Definition x86_DEBUG_STATE64_COUNT : nat := 16.
Definition x86_THREAD_STATE_COUNT : nat := 44.
Definition x86_FLOAT_STATE_COUNT : nat := 133.
Definition x86_DEBUG_STATE_COUNT : nat := 18.
Definition LINUX_EFAULT : Z := 14.
Definition LINUX_ENOSYS : Z := 38.

Inductive dserver_rpc_architecture := arch_invalid | i386 | x86_64 | arm32 | arm64.
#[global] Instance arch_eq : EqDecision dserver_rpc_architecture.
Proof. solve_decision. Defined.
Abbreviation is64 a := (bool_decide (a = x86_64)).
Abbreviation is_x86 a := (bool_decide (a = x86_64) || bool_decide (a = i386)).

(** The unions of [dtape_thread_user_state_t]: the 32-bit member is a prefix of
    the words of the union. *)
Record user_state := mk_user_state { uts : list Z; ufs : list Z }.
#[global] Instance user_state_rb : Rebuild user_state := fun r => mk_user_state (uts r) (ufs r).
Definition user_state_zero : user_state := mk_user_state (replicate x86_THREAD_STATE64_COUNT 0) (replicate x86_FLOAT_STATE64_COUNT 0).

Record tst := mk_tst {
  architecture : dserver_rpc_architecture;
  user_states : list user_state;             (* LIST_HEAD, first first *)
  default_in : bool;                         (* [default_state], part of the thread, is the last one *)
}.
#[global] Instance tst_rb : Rebuild tst := fun r => mk_tst (architecture r) (user_states r) (default_in r).
Abbreviation MT := (M tst).

(** [memcpy] of [n] words at offset [off] of a buffer, and into one. *)
Definition load (buf : list Z) (off n : nat) : MT (list Z) :=
  if decide (off + n <= length buf)%nat then ret (take n (drop off buf)) else panic "read beyond the state".
Definition overwrite (off : nat) (ws buf : list Z) : list Z :=
  take off buf ++ ws ++ drop (off + length ws) buf.
Definition store (buf : list Z) (off : nat) (ws : list Z) : MT (list Z) :=
  if decide (off + length ws <= length buf)%nat then ret (overwrite off ws buf) else panic "write beyond the state".
Definition word (buf : list Z) (i : nat) : MT Z :=
  match buf !! i with Some w => ret w | None => panic "read beyond the state" end.

(** [LIST_FIRST(&dthread->user_states)], dereferenced. *)
Definition first_state : MT user_state := fun s =>
  match user_states s with u :: _ => Ret u s | [] => Panic "no user state" end.
Definition set_first (f : user_state -> user_state) : MT unit := fun s =>
  match user_states s with
  | u :: l => Ret tt (s <| user_states := f u :: l |>)
  | [] => Panic "no user state"
  end.

(** ** Setting *)

(** The first [switch] of [thread_set_state]: what a self-describing state
    selects.  [inl] is an early return; [inr (flavor, off, state_count)]
    continues with the state at word [off]. *)
Definition unwrap_set (state : list Z) (min : nat) (f32 f64 : Z) : MT (Z + Z * nat * Z) :=
  a <- gets architecture ;;
  if (length state <? min)%nat then ret (inl KERN_INVALID_ARGUMENT)
  else
    flavor <- word state 0 ;;
    count <- word state 1 ;;
    if flavor =? f32 then
      if is64 a then ret (inl KERN_INVALID_ARGUMENT) else ret (inr (flavor, 2%nat, count))
    else if flavor =? f64 then
      if negb (is64 a) then ret (inl KERN_INVALID_ARGUMENT) else ret (inr (flavor, 2%nat, count))
    else ret (inl KERN_INVALID_ARGUMENT).
Definition select_set (flavor : Z) (state : list Z) : MT (Z + Z * nat * Z) :=
  if flavor =? x86_THREAD_STATE then
    unwrap_set state x86_THREAD_STATE_COUNT x86_THREAD_STATE32 x86_THREAD_STATE64
  else if flavor =? x86_FLOAT_STATE then
    unwrap_set state x86_FLOAT_STATE_COUNT x86_FLOAT_STATE32 x86_FLOAT_STATE64
  else if flavor =? x86_DEBUG_STATE then
    unwrap_set state x86_DEBUG_STATE_COUNT x86_DEBUG_STATE32 x86_DEBUG_STATE64
  else ret (inr (flavor, 0%nat, Z.of_nat (length state))).

(** The second [switch]: [count] is checked against the size [n] of the flavor,
    the task must ([need64]) or must not be a 64-bit one, and the words are
    copied by [put]. *)
Definition put_state (state : list Z) (off : nat) (count : Z) (n : nat) (need64 : bool)
    (put : list Z -> user_state -> user_state) : MT Z :=
  a <- gets architecture ;;
  if count <? Z.of_nat n then ret KERN_INVALID_ARGUMENT
  else if negb (eqb (is64 a) need64) then ret KERN_INVALID_ARGUMENT
  else
    ws <- load state off n ;;
    set_first (put ws) ;;;
    ret KERN_SUCCESS.
Definition put_uts (ws : list Z) (u : user_state) : user_state := u <| uts ::= overwrite 0 ws |>.
Definition put_ufs (ws : list Z) (u : user_state) : user_state := u <| ufs ::= overwrite 0 ws |>.
(** The debug registers are read and then passed to a case that is not
    supported. *)
Definition store_state (flavor : Z) (state : list Z) (off : nat) (count : Z) : MT Z :=
  a <- gets architecture ;;
  if flavor =? x86_THREAD_STATE32 then put_state state off count x86_THREAD_STATE32_COUNT false put_uts
  else if flavor =? x86_THREAD_STATE64 then put_state state off count x86_THREAD_STATE64_COUNT true put_uts
  else if flavor =? x86_FLOAT_STATE32 then put_state state off count x86_FLOAT_STATE32_COUNT false put_ufs
  else if flavor =? x86_FLOAT_STATE64 then put_state state off count x86_FLOAT_STATE64_COUNT true put_ufs
  else if flavor =? x86_DEBUG_STATE32 then
    if is64 a then ret KERN_INVALID_ARGUMENT
    else load state off x86_DEBUG_STATE32_COUNT ;;; ret KERN_NOT_SUPPORTED
  else if flavor =? x86_DEBUG_STATE64 then ret KERN_NOT_SUPPORTED
  else ret KERN_INVALID_ARGUMENT.
(** [state_count] is the length of [state]. *)
Definition thread_set_state (flavor : Z) (state : list Z) : MT Z :=
  a <- gets architecture ;;
  if is_x86 a then
    r <- select_set flavor state ;;
    match r with
    | inl kr => ret kr
    | inr (flavor, off, count) => store_state flavor state off count
    end
  else ret KERN_FAILURE.

(** ** Getting *)

(** The second [switch] of [thread_get_state_internal]: the code, the words it
    copies out, and the new [*state_count]. *)
Definition take_state (count : Z) (n : nat) (arch_ok : bool) (from : user_state -> list Z) : MT (Z * list Z * Z) :=
  if count <? Z.of_nat n then ret (KERN_INVALID_ARGUMENT, [], count)
  else if negb arch_ok then ret (KERN_INVALID_ARGUMENT, [], count)
  else
    u <- first_state ;;
    ret (KERN_SUCCESS, take n (from u), Z.of_nat n).
Definition fetch_state (flavor count : Z) : MT (Z * list Z * Z) :=
  a <- gets architecture ;;
  if flavor =? x86_THREAD_STATE32 then take_state count x86_THREAD_STATE32_COUNT (negb (is64 a)) uts
  else if flavor =? x86_FLOAT_STATE32 then take_state count x86_FLOAT_STATE32_COUNT (negb (is64 a)) ufs
  else if flavor =? x86_FLOAT_STATE64 then take_state count x86_FLOAT_STATE64_COUNT true ufs
  else if flavor =? x86_THREAD_STATE64 then take_state count x86_THREAD_STATE64_COUNT (is64 a) uts
  else if flavor =? x86_DEBUG_STATE32 then
    if count <? Z.of_nat x86_DEBUG_STATE32_COUNT then ret (KERN_INVALID_ARGUMENT, [], count)
    else if is64 a then ret (KERN_INVALID_ARGUMENT, [], count)
    else ret (KERN_NOT_SUPPORTED, [], Z.of_nat x86_DEBUG_STATE32_COUNT)
  else if flavor =? x86_DEBUG_STATE64 then ret (KERN_NOT_SUPPORTED, [], count)
  else ret (KERN_INVALID_ARGUMENT, [], count).
(** The first [switch]: the flavor and size a self-describing state gets. *)
Definition wrapped (flavor : Z) (a : dserver_rpc_architecture) : option (nat * Z * nat) :=
  if flavor =? x86_THREAD_STATE then
    Some (x86_THREAD_STATE_COUNT, if is64 a then x86_THREAD_STATE64 else x86_THREAD_STATE32,
          if is64 a then x86_THREAD_STATE64_COUNT else x86_THREAD_STATE32_COUNT)
  else if flavor =? x86_FLOAT_STATE then
    Some (x86_FLOAT_STATE_COUNT, if is64 a then x86_FLOAT_STATE64 else x86_FLOAT_STATE32,
          if is64 a then x86_FLOAT_STATE64_COUNT else x86_FLOAT_STATE32_COUNT)
  else if flavor =? x86_DEBUG_STATE then
    Some (x86_DEBUG_STATE_COUNT, if is64 a then x86_DEBUG_STATE64 else x86_DEBUG_STATE32,
          if is64 a then x86_DEBUG_STATE64_COUNT else x86_DEBUG_STATE32_COUNT)
  else None.
(** Returns the code, the buffer and [*state_count]; [buf] has as many words as
    [*state_count] says on entry.  In a self-describing state the inner count is
    its word 1. *)
Definition thread_get_state_internal (flavor : Z) (buf : list Z) : MT (Z * list Z * Z) :=
  a <- gets architecture ;;
  if is_x86 a then
    match wrapped flavor a with
    | Some (size, inner, n) =>
        if (length buf <? size)%nat then ret (KERN_INVALID_ARGUMENT, buf, Z.of_nat (length buf))
        else
          r <- fetch_state inner (Z.of_nat n) ;;
          let '(kr, ws, count) := r in
          buf <- store buf 0 [inner; count] ;;
          buf <- store buf 2 ws ;;
          ret (kr, buf, Z.of_nat size)
    | None =>
        r <- fetch_state flavor (Z.of_nat (length buf)) ;;
        let '(kr, ws, count) := r in
        buf <- store buf 0 ws ;;
        ret (kr, buf, count)
    end
  else ret (KERN_FAILURE, buf, Z.of_nat (length buf)).
Definition thread_get_state := thread_get_state_internal.

(** ** Signal handling keeps the interrupted state *)
Definition dtape_thread_sigexc_enter2 : MT unit :=
  modify (fun s => s <| user_states ::= cons user_state_zero |>).
(** Freeing [default_state], which was never allocated by itself, aborts. *)
Definition dtape_thread_sigexc_exit : MT unit := fun s =>
  match user_states s with
  | [] => Panic "no user state"
  | [_] => if default_in s then Panic "free of default_state" else Ret tt (s <| user_states := [] |>)
  | _ :: l => Ret tt (s <| user_states := l |>)
  end.
Definition dtape_thread_init (a : dserver_rpc_architecture) : tst := mk_tst a [user_state_zero] true.

(** ** Transfers from and to the client *)
Section Transfer.
(** The client's memory and the server's access to it. *)
Context {mem : Type} (copyin : mem -> Z -> nat -> option (list Z)) (copyout : mem -> Z -> list Z -> option mem).

Definition load_states (m : mem) (ta fa ft ff : Z) (nt nf : nat) : MT Z :=
  match copyin m ta nt with
  | None => ret (- LINUX_EFAULT)
  | Some tstate =>
      match copyin m fa nf with
      | None => ret (- LINUX_EFAULT)
      | Some fstate => thread_set_state ft tstate ;;; thread_set_state ff fstate ;;; ret 0
      end
  end.
Definition dtape_thread_load_state_from_user (m : mem) (thread_state_address float_state_address : Z) : MT Z :=
  a <- gets architecture ;;
  match a with
  | x86_64 => load_states m thread_state_address float_state_address x86_THREAD_STATE64 x86_FLOAT_STATE64
                x86_THREAD_STATE64_COUNT x86_FLOAT_STATE64_COUNT
  | i386 => load_states m thread_state_address float_state_address x86_THREAD_STATE32 x86_FLOAT_STATE32
              x86_THREAD_STATE32_COUNT x86_FLOAT_STATE32_COUNT
  | _ => ret (- LINUX_ENOSYS)
  end.
(** [junk]: what the local variables hold before.  A [copyout] that fails may
    follow one that succeeded. *)
Definition save_states (junk : nat -> list Z) (m : mem) (ta fa ft ff : Z) (nt nf : nat) : MT (Z * mem) :=
  t <- thread_get_state ft (junk nt) ;;
  f <- thread_get_state ff (junk nf) ;;
  match copyout m ta (snd (fst t)) with
  | None => ret (- LINUX_EFAULT, m)
  | Some m =>
      match copyout m fa (snd (fst f)) with
      | None => ret (- LINUX_EFAULT, m)
      | Some m => ret (0, m)
      end
  end.
Definition dtape_thread_save_state_to_user (junk : nat -> list Z) (m : mem) (thread_state_address float_state_address : Z) : MT (Z * mem) :=
  a <- gets architecture ;;
  match a with
  | x86_64 => save_states junk m thread_state_address float_state_address x86_THREAD_STATE64 x86_FLOAT_STATE64
                x86_THREAD_STATE64_COUNT x86_FLOAT_STATE64_COUNT
  | i386 => save_states junk m thread_state_address float_state_address x86_THREAD_STATE32 x86_FLOAT_STATE32
              x86_THREAD_STATE32_COUNT x86_FLOAT_STATE32_COUNT
  | _ => ret (- LINUX_ENOSYS, m)
  end.
End Transfer.
(** ** Specification *)

(** Every saved state has the size of its unions, and there is one. *)
Definition sized (u : user_state) : Prop :=
  length (uts u) = x86_THREAD_STATE64_COUNT /\ length (ufs u) = x86_FLOAT_STATE64_COUNT.
Definition wf (s : tst) : Prop := user_states s <> [] /\ Forall sized (user_states s).

(** The register file (floating point or not) and the number of words a plain
    flavor names, for a task of architecture [a]. *)
Definition register_file (a : dserver_rpc_architecture) (f : Z) : option (bool * nat) :=
  if f =? x86_THREAD_STATE32 then if is64 a then None else Some (false, x86_THREAD_STATE32_COUNT)
  else if f =? x86_THREAD_STATE64 then if is64 a then Some (false, x86_THREAD_STATE64_COUNT) else None
  else if f =? x86_FLOAT_STATE32 then if is64 a then None else Some (true, x86_FLOAT_STATE32_COUNT)
  else if f =? x86_FLOAT_STATE64 then if is64 a then Some (true, x86_FLOAT_STATE64_COUNT) else None
  else None.
(** The flavors whose state starts with the flavor and count of what follows. *)
Definition self_describing (f : Z) : option (bool * nat) :=
  if f =? x86_THREAD_STATE then Some (false, x86_THREAD_STATE_COUNT)
  else if f =? x86_FLOAT_STATE then Some (true, x86_FLOAT_STATE_COUNT)
  else None.

(** [settable a f state fl ws]: setting [state] as flavor [f] means to set the
    first words of register file [fl] to [ws]. *)
Inductive settable (a : dserver_rpc_architecture) (f : Z) (state : list Z) : bool -> list Z -> Prop :=
| settable_plain fl n :
    register_file a f = Some (fl, n) -> (n <= length state)%nat -> settable a f state fl (take n state)
| settable_wrapped fl size f' count n :
    self_describing f = Some (fl, size) -> (size <= length state)%nat ->
    state !! 0%nat = Some f' -> state !! 1%nat = Some count ->
    register_file a f' = Some (fl, n) -> Z.of_nat n <= count ->
    settable a f state fl (take n (drop 2 state)).

Definition file (fl : bool) (u : user_state) : list Z := if fl then ufs u else uts u.
Definition set_file (fl : bool) (ws : list Z) (u : user_state) : user_state :=
  if fl then u <| ufs := ws ++ drop (length ws) (ufs u) |> else u <| uts := ws ++ drop (length ws) (uts u) |>.
Definition with_first (f : user_state -> user_state) (s : tst) : tst :=
  s <| user_states ::= fun l => match l with u :: l => f u :: l | [] => [] end |>.

(** What [thread_set_state] needs of its caller: a 32-bit debug state is read
    without a look at its size. *)
Definition debug_readable (a : dserver_rpc_architecture) (f : Z) (state : list Z) : Prop :=
  f = x86_DEBUG_STATE32 -> a = i386 -> (x86_DEBUG_STATE32_COUNT <= length state)%nat.

(** ** Setting *)

Lemma wp_load buf off n (Q : list Z -> tst -> Prop) s :
  (off + n <= length buf)%nat -> Q (take n (drop off buf)) s -> wp (load buf off n) Q s.
Proof. intros. unfold load. by rewrite decide_True by done. Qed.
Lemma wp_word buf i w (Q : Z -> tst -> Prop) s : buf !! i = Some w -> Q w s -> wp (word buf i) Q s.
Proof. intros E HQ. unfold word. by rewrite E. Qed.
Lemma wp_set_first f (Q : unit -> tst -> Prop) s : wf s -> Q tt (with_first f s) -> wp (set_first f) Q s.
Proof.
  intros [Hne _] HQ. unfold wp, set_first. destruct s as [a us d]. cbn in *. by destruct us.
Qed.
Lemma wp_first_state (Q : user_state -> tst -> Prop) s :
  wf s -> (forall u l, user_states s = u :: l -> sized u -> Q u s) -> wp first_state Q s.
Proof.
  intros [Hne Hs] HQ. unfold wp, first_state. destruct (user_states s) as [|u l] eqn:E; [done|].
  apply (HQ u l eq_refl). by apply Forall_cons in Hs as [? _].
Qed.
Lemma overwrite_0 ws buf : overwrite 0 ws buf = ws ++ drop (length ws) buf.
Proof. reflexivity. Qed.

(** The second [switch] on a flavor that names a register file. *)
Lemma wp_store_state f state off count fl n s (Q : Z -> tst -> Prop) :
  wf s -> register_file (architecture s) f = Some (fl, n) -> (count < Z.of_nat n \/ (off + n <= length state)%nat) ->
  (count < Z.of_nat n -> Q KERN_INVALID_ARGUMENT s) ->
  (Z.of_nat n <= count -> Q KERN_SUCCESS (with_first (set_file fl (take n (drop off state))) s)) ->
  wp (store_state f state off count) Q s.
Proof.
  intros Hwf Hf Hlen Hlow Hok. unfold store_state, register_file, put_state in *. wp_step. wp_step.
  destruct (is64 (architecture s)) eqn:Ea;
    repeat match goal with
    | |- wp (if f =? ?k then _ else _) _ _ => destruct (f =? k); [try discriminate Hf; injection Hf as <- <-|]
    | |- wp (gets _) _ _ => wp_step; rewrite Ea; cbn [negb eqb]
    | |- wp (if ?c <? ?k then _ else _) _ _ => destruct (Z.ltb_spec c k); [by apply wp_ret, Hlow|]
    | |- wp (load _ _ _) _ _ => apply wp_load; [lia|]
    | |- wp (set_first _) _ _ => apply wp_set_first; [done|]
    | |- wp (ret KERN_SUCCESS) _ _ => apply wp_ret; by apply Hok
    | |- _ => wp_step
    end; discriminate Hf.
Qed.
(** The other flavors are refused. *)
Lemma wp_store_refused f state off count s :
  register_file (architecture s) f = None ->
  (f = x86_DEBUG_STATE32 -> architecture s <> x86_64 -> (off + x86_DEBUG_STATE32_COUNT <= length state)%nat) ->
  wp (store_state f state off count) (fun r s' => s' = s /\
    (r = KERN_INVALID_ARGUMENT \/ r = KERN_NOT_SUPPORTED /\ (f = x86_DEBUG_STATE32 \/ f = x86_DEBUG_STATE64))) s.
Proof.
  intros Hf Hd. unfold store_state, register_file, put_state in *. wp_step. wp_step.
  destruct (is64 (architecture s)) eqn:Ea;
    repeat match goal with
    | |- wp (if f =? ?k then _ else _) _ _ => destruct (Z.eqb_spec f k) as [->|?]; [try discriminate Hf|]
    | |- wp (gets _) _ _ => wp_step; rewrite Ea; cbn [negb eqb]
    | |- wp (load _ _ _) _ _ => apply wp_load; [apply Hd; [done|by apply bool_decide_eq_false in Ea]|]
    | |- wp (if ?b then _ else _) _ _ => destruct b
    | |- _ => wp_step
    end; (split; [done|]); auto.
Qed.
(** [set_result s f state r s']: [thread_set_state] of a well-formed [s] may
    return [r] and leave [s']. *)
Definition set_result (s : tst) (f : Z) (state : list Z) (r : Z) (s' : tst) : Prop :=
  (r = KERN_SUCCESS /\ exists fl ws, settable (architecture s) f state fl ws /\ s' = with_first (set_file fl ws) s) \/
  (s' = s /\ (forall fl ws, ~ settable (architecture s) f state fl ws) /\
   (r = KERN_INVALID_ARGUMENT \/
    r = KERN_NOT_SUPPORTED /\ (f = x86_DEBUG_STATE32 \/ f = x86_DEBUG_STATE64 \/ f = x86_DEBUG_STATE))).

Lemma lookup_some (l : list Z) i : (i < length l)%nat -> exists w, l !! i = Some w.
Proof. apply lookup_lt_is_Some_2. Qed.

(** A self-describing state whose two inner flavors are [f32] and [f64]. *)
Lemma wp_unwrap_set s f state fl size f32 f64 n32 n64 :
  wf s -> self_describing f = Some (fl, size) ->
  (forall f', register_file (architecture s) f' =
     if f' =? f32 then if is64 (architecture s) then None else Some (fl, n32)
     else if f' =? f64 then if is64 (architecture s) then Some (fl, n64) else None
     else match register_file (architecture s) f' with Some (fl', n) => if eqb fl fl' then None else Some (fl', n) | None => None end) ->
  register_file (architecture s) f = None -> (2 + n32 <= size)%nat -> (2 + n64 <= size)%nat ->
  wp (r <- unwrap_set state size f32 f64 ;;
      match r with inl kr => ret kr | inr (flavor, off, count) => store_state flavor state off count end)
     (set_result s f state) s.
Proof.
  intros Hwf Hf Hreg Hno H32 H64.
  assert (refuse : (forall f' n, state !! 0%nat = Some f' -> register_file (architecture s) f' = Some (fl, n) ->
      (size <= length state)%nat -> exists c, state !! 1%nat = Some c /\ c < Z.of_nat n) ->
      set_result s f state KERN_INVALID_ARGUMENT s).
  { intros Hn. right. split; [done|]. split; [|by left]. intros fl' ws []; [congruence|].
    replace fl0 with fl in * by congruence. destruct (Hn f' n) as (c & ? & ?); [congruence..|]. assert (c = count) by congruence. lia. }
  assert (accept : forall f' n c, state !! 0%nat = Some f' -> state !! 1%nat = Some c -> (size <= length state)%nat ->
      register_file (architecture s) f' = Some (fl, n) -> (2 + n <= size)%nat ->
      wp (store_state f' state 2 c) (set_result s f state) s).
  { intros f' n c E0 E1 Hl Hr Hn. eapply wp_store_state; [done|exact Hr|lia| |].
    - intros Hc. apply refuse. intros ? n' ? ? _. exists c. split; [done|]. assert (n' = n) as -> by congruence. done.
    - intros Hc. left. split; [done|]. do 2 eexists. split; [|done]. by eapply settable_wrapped. }
  unfold unwrap_set. wp_step. wp_step. wp_step.
  destruct (Nat.ltb_spec (length state) size); [do 2 wp_step; apply refuse; lia|].
  destruct (lookup_some state 0) as [f' E0]; [lia|]. destruct (lookup_some state 1) as [c E1]; [lia|].
  wp_step. apply (wp_word _ _ f'); [done|]. wp_step. apply (wp_word _ _ c); [done|].
  pose proof (Hreg f') as Hr. assert (forall g, state !! 0%nat = Some g -> g = f') as Hu by congruence.
  destruct (f' =? f32); [|destruct (f' =? f64)]; [destruct (is64 _) eqn:Ea..|]; cbn [negb]; wp_step.
  all: first [by eapply accept | apply wp_ret, refuse; intros g n ?%Hu ? _; subst g; try congruence].
  rewrite Hr in *. repeat case_match; simplify_eq; by destruct fl.
Qed.
Lemma register_family (a : dserver_rpc_architecture) (f' : Z) (fl : bool) (f32 f64 : Z) (n32 n64 : nat) :
  f32 = (if fl then x86_FLOAT_STATE32 else x86_THREAD_STATE32) -> f64 = (if fl then x86_FLOAT_STATE64 else x86_THREAD_STATE64) ->
  n32 = (if fl then x86_FLOAT_STATE32_COUNT else x86_THREAD_STATE32_COUNT) ->
  n64 = (if fl then x86_FLOAT_STATE64_COUNT else x86_THREAD_STATE64_COUNT) ->
  register_file a f' =
     if f' =? f32 then if is64 a then None else Some (fl, n32)
     else if f' =? f64 then if is64 a then Some (fl, n64) else None
     else match register_file a f' with Some (fl', n) => if eqb fl fl' then None else Some (fl', n) | None => None end.
Proof.
  intros -> -> -> ->. unfold register_file. destruct fl;
    repeat match goal with |- context [f' =? ?k] => destruct (Z.eqb_spec f' k) as [->|?]; [by destruct (is64 a)|] end; done.
Qed.
Lemma settable_not_plain a f state :
  register_file a f = None -> self_describing f = None -> forall fl ws, ~ settable a f state fl ws.
Proof. intros ? ? fl ws []; congruence. Qed.

(** The debug registers: self-describing or not, they are not supported. *)
Lemma wp_unwrap_debug s state :
  wp (r <- unwrap_set state x86_DEBUG_STATE_COUNT x86_DEBUG_STATE32 x86_DEBUG_STATE64 ;;
      match r with inl kr => ret kr | inr (flavor, off, count) => store_state flavor state off count end)
     (set_result s x86_DEBUG_STATE state) s.
Proof.
  assert (Hn : forall r, r = KERN_INVALID_ARGUMENT \/ r = KERN_NOT_SUPPORTED -> set_result s x86_DEBUG_STATE state r s).
  { intros r Hr. right. split; [done|]. split; [by apply settable_not_plain|]. intuition. }
  unfold unwrap_set. wp_step. wp_step. wp_step.
  destruct (Nat.ltb_spec (length state) x86_DEBUG_STATE_COUNT) as [|Hl]; [do 2 wp_step; auto|].
  unfold x86_DEBUG_STATE_COUNT in Hl.
  destruct (lookup_some state 0) as [f' E0]; [lia|]. destruct (lookup_some state 1) as [c E1]; [lia|].
  wp_step. apply (wp_word _ _ f'); [done|]. wp_step. apply (wp_word _ _ c); [done|].
  destruct (Z.eqb_spec f' x86_DEBUG_STATE32); [|destruct (Z.eqb_spec f' x86_DEBUG_STATE64)]; [destruct (is64 _) eqn:Ea..|];
    cbn [negb]; wp_step; try (apply wp_ret; by auto); subst.
  all: eapply wp_mono; [apply wp_store_refused; [done|unfold x86_DEBUG_STATE32_COUNT; lia]|].
  all: intros r s' (-> & Hr); apply Hn; intuition.
Qed.

Lemma wp_thread_set_state s f state :
  wf s -> is_x86 (architecture s) = true -> debug_readable (architecture s) f state ->
  wp (thread_set_state f state) (set_result s f state) s.
Proof.
  intros Hwf Hx Hd. unfold thread_set_state, select_set. wp_step. wp_step. rewrite Hx.
  destruct (Z.eqb_spec f x86_THREAD_STATE) as [->|H7]; [|destruct (Z.eqb_spec f x86_FLOAT_STATE) as [->|H8]];
    [..|destruct (Z.eqb_spec f x86_DEBUG_STATE) as [->|H12]]; [| |apply wp_unwrap_debug|].
  - apply (wp_unwrap_set s _ state false _ _ _ x86_THREAD_STATE32_COUNT x86_THREAD_STATE64_COUNT); try done; [|vm_compute; lia..].
    intros f'. by apply register_family.
  - apply (wp_unwrap_set s _ state true _ _ _ x86_FLOAT_STATE32_COUNT x86_FLOAT_STATE64_COUNT); try done; [|vm_compute; lia..].
    intros f'. by apply register_family.
  - do 2 wp_step. assert (self_describing f = None) as Hself
      by (unfold self_describing; by rewrite (proj2 (Z.eqb_neq _ _) H7), (proj2 (Z.eqb_neq _ _) H8)).
    destruct (register_file (architecture s) f) as [[fl n]|] eqn:Hr.
    + eapply wp_store_state; [done|exact Hr|lia|..]; intros Hc.
      * right. split; [done|]. split; [|by left]. intros ? ? []; simplify_eq. lia.
      * left. split; [done|]. do 2 eexists. split; [|done]. rewrite drop_0. apply settable_plain; [done|lia].
    + eapply wp_mono; [apply wp_store_refused; [done|]|].
      * intros -> Ha. apply Hd; [done|]. destruct (architecture s); done.
      * intros r s' (-> & H). right. split; [done|]. split; [by apply settable_not_plain|]. intuition.
Qed.
(** ** Getting *)

(** The register file a plain flavor reads; [x86_FLOAT_STATE64] is given to a
    32-bit task too. *)
Definition get_file (a : dserver_rpc_architecture) (f : Z) : option (bool * nat) :=
  if f =? x86_FLOAT_STATE64 then Some (true, x86_FLOAT_STATE64_COUNT) else register_file a f.
Definition first (s : tst) : user_state := default user_state_zero (head (user_states s)).

Lemma register_get a f r : register_file a f = Some r -> get_file a f = Some r.
Proof.
  unfold get_file. destruct (Z.eqb_spec f x86_FLOAT_STATE64) as [->|]; [|done].
  cbn. by destruct (is64 a); intros [= <-].
Qed.
Lemma get_file_size a f fl n u : get_file a f = Some (fl, n) -> sized u -> (n <= length (file fl u))%nat.
Proof.
  intros E [E1 E2]. unfold get_file, register_file in E.
  assert (fl = true /\ n = x86_FLOAT_STATE64_COUNT \/ fl = false /\ (n <= x86_THREAD_STATE64_COUNT)%nat) as [[-> ->]|[-> Hn]].
  { repeat case_match; simplify_eq; auto; right; (split; [done|]); vm_compute; lia. }
  - unfold file. by rewrite E2.
  - unfold file. by rewrite E1.
Qed.
Lemma wf_first s : wf s -> sized (first s).
Proof.
  intros [Hne Hs]. unfold first. destruct (user_states s); [done|]. by apply Forall_cons in Hs as [? _].
Qed.
Lemma wp_first (Q : user_state -> tst -> Prop) s : wf s -> Q (first s) s -> wp first_state Q s.
Proof. intros [Hne _] HQ. unfold wp, first_state, first in *. by destruct (user_states s). Qed.

(** What the second [switch] gives for a flavor and the size of the buffer. *)
Definition fetched (s : tst) (f count : Z) (r : Z * list Z * Z) : Prop :=
  match get_file (architecture s) f with
  | Some (fl, n) =>
      if count <? Z.of_nat n then r = (KERN_INVALID_ARGUMENT, [], count)
      else r = (KERN_SUCCESS, take n (file fl (first s)), Z.of_nat n)
  | None => exists kr c, r = (kr, [], c) /\ 0 <= c <= count /\ (kr = KERN_INVALID_ARGUMENT \/ kr = KERN_NOT_SUPPORTED)
  end.
Lemma wp_fetch_state s f count : wf s -> 0 <= count ->
  wp (fetch_state f count) (fun r s' => s' = s /\ fetched s f count r) s.
Proof.
  intros Hwf Hc. unfold fetch_state, fetched, get_file, register_file, take_state. wp_step. wp_step.
  destruct (is64 (architecture s)) eqn:Ea;
    repeat match goal with
    | |- wp (if f =? ?k then _ else _) _ _ => destruct (Z.eqb_spec f k) as [->|?]; cbn [negb Z.eqb Pos.eqb]
    | |- wp (if count <? ?k then _ else _) _ _ => destruct (Z.ltb_spec count k)
    | |- wp (bind first_state _) _ _ => wp_step; apply wp_first; [done|]
    | |- wp (ret _) _ _ => apply wp_ret
    end; (split; [done|]).
  all: repeat match goal with |- context [?k =? ?k'] => change (k =? k') with true || change (k =? k') with false; cbv iota end.
  all: first [reflexivity | by case_match; (reflexivity || lia) | do 2 eexists; split; [reflexivity|]; split; [lia|]; auto].
Qed.
Lemma length_overwrite off ws buf : (off + length ws <= length buf)%nat -> length (overwrite off ws buf) = length buf.
Proof. intros. unfold overwrite. rewrite !length_app, length_take, length_drop. lia. Qed.
Lemma wp_store buf off ws (Q : list Z -> tst -> Prop) s :
  (off + length ws <= length buf)%nat -> Q (overwrite off ws buf) s -> wp (store buf off ws) Q s.
Proof. intros. unfold store. by rewrite decide_True by done. Qed.

(** Where the registers are in a state of flavor [f]. *)
Definition payload (f : Z) (buf : list Z) : list Z :=
  match self_describing f with Some _ => drop 2 buf | None => buf end.

(** The flavor and the size of the inner state agree with the tables. *)
Lemma wrapped_cases f a size inner n :
  wrapped f a = Some (size, inner, n) ->
  (2 + n <= size)%nat /\
  ((exists fl, self_describing f = Some (fl, size) /\ register_file a inner = Some (fl, n) /\ get_file a inner = Some (fl, n)) \/
   f = x86_DEBUG_STATE /\ get_file a inner = None).
Proof.
  unfold wrapped, self_describing, get_file, register_file. intros E.
  repeat match type of E with context [f =? ?k] => destruct (Z.eqb_spec f k) as [->|?] end;
    try discriminate E; destruct (is64 a); injection E as <- <- <-; (split; [vm_compute; lia|]).
  all: first [right; split; reflexivity | left; exists false; split_and!; reflexivity | left; exists true; split_and!; reflexivity].
Qed.
Lemma wrapped_none f a : wrapped f a = None -> self_describing f = None.
Proof. unfold wrapped, self_describing. by repeat case_match. Qed.

(** [get_result s f buf r]: what [thread_get_state] may return. *)
Definition get_result (s : tst) (f : Z) (buf : list Z) (r : Z * list Z * Z) : Prop :=
  match wrapped f (architecture s) with
  | Some (size, inner, n) =>
      if (length buf <? size)%nat then r = (KERN_INVALID_ARGUMENT, buf, Z.of_nat (length buf))
      else exists kr ws c, fetched s inner (Z.of_nat n) (kr, ws, c) /\ (length ws <= n)%nat /\
           r = (kr, overwrite 0 (inner :: c :: ws) buf, Z.of_nat size)
  | None => exists kr ws c, fetched s f (Z.of_nat (length buf)) (kr, ws, c) /\ r = (kr, overwrite 0 ws buf, c)
  end.
Lemma fetched_length s f count kr ws c : wf s -> 0 <= count -> fetched s f count (kr, ws, c) -> Z.of_nat (length ws) <= count /\
  0 <= c <= count /\ (length ws <= Z.to_nat c)%nat.
Proof.
  intros Hwf Hc H. unfold fetched in H. destruct (get_file _ _) as [[fl n]|] eqn:E.
  - destruct (Z.ltb_spec count (Z.of_nat n)); simplify_eq; [cbn; lia|]. rewrite length_take.
    pose proof (get_file_size _ _ _ _ _ E (wf_first s Hwf)). lia.
  - destruct H as (? & ? & ? & ? & _). simplify_eq. cbn. lia.
Qed.
Lemma wp_thread_get_state s f buf :
  wf s -> is_x86 (architecture s) = true ->
  wp (thread_get_state f buf) (fun r s' => s' = s /\ get_result s f buf r) s.
Proof.
  intros Hwf Hx. unfold thread_get_state, thread_get_state_internal, get_result. wp_step. wp_step. rewrite Hx.
  destruct (wrapped f (architecture s)) as [[[size inner] n]|] eqn:Hw.
  - destruct (wrapped_cases _ _ _ _ _ Hw) as [Hn _]. destruct (Nat.ltb_spec (length buf) size) as [|Hl]; [by apply wp_ret|].
    wp_step. eapply wp_mono; [apply wp_fetch_state; [done|lia]|]. intros [[kr ws] c] s' [-> Hf].
    destruct (fetched_length _ _ _ _ _ _ Hwf (Nat2Z.is_nonneg _) Hf) as (Hws & _).
    wp_step. apply wp_store; [cbn; lia|]. wp_step. apply wp_store; [rewrite length_overwrite; cbn; lia|]. apply wp_ret.
    split; [done|]. exists kr, ws, c. split; [done|]. split; [lia|]. do 2 f_equal.
    destruct buf as [|b0 [|b1 buf]]; cbn in Hl; [lia|lia|]. unfold overwrite. cbn. by rewrite !drop_0.
  - wp_step. eapply wp_mono; [apply wp_fetch_state; [done|lia]|]. intros [[kr ws] c] s' [-> Hf].
    destruct (fetched_length _ _ _ _ _ _ Hwf (Nat2Z.is_nonneg _) Hf) as (Hws & _).
    wp_step. apply wp_store; [cbn; lia|]. apply wp_ret. eauto 10.
Qed.
(** ** Correctness *)

(** C12: setting a state does what the tables of flavors say: on success the
    words of the state replace the first words of one register file of the
    current user state and nothing else changes, and it succeeds whenever the
    flavor, the counts and the architecture allow it; otherwise nothing changes
    and the code is [KERN_INVALID_ARGUMENT], or [KERN_NOT_SUPPORTED] for the debug
    registers, or [KERN_FAILURE] on an architecture without states.  It reads
    within the buffer, except that a 32-bit debug state is not measured. *)
Theorem set_state_meets_spec s f state :
  wf s -> debug_readable (architecture s) f state ->
  wp (thread_set_state f state) (fun r s' =>
    if is_x86 (architecture s) then set_result s f state r s' else r = KERN_FAILURE /\ s' = s) s.
Proof.
  intros Hwf Hd. destruct (is_x86 (architecture s)) eqn:Hx; [by apply wp_thread_set_state|].
  unfold thread_set_state. wp_step. wp_step. rewrite Hx. by apply wp_ret.
Qed.

Lemma drop_overwrite_0 ws buf n : (length ws <= n)%nat -> drop n (overwrite 0 ws buf) = drop n buf.
Proof.
  intros. rewrite overwrite_0, drop_app_ge by done. rewrite drop_drop. f_equal. lia.
Qed.
Lemma fetched_drop s f buf kr ws c : wf s -> fetched s f (Z.of_nat (length buf)) (kr, ws, c) ->
  length (overwrite 0 ws buf) = length buf /\ 0 <= c <= Z.of_nat (length buf) /\
  drop (Z.to_nat c) (overwrite 0 ws buf) = drop (Z.to_nat c) buf.
Proof.
  intros Hwf Hf. destruct (fetched_length _ _ _ _ _ _ Hwf (Nat2Z.is_nonneg _) Hf) as (Hws & Hc & Hl).
  split_and!; [apply length_overwrite; lia|lia..|by apply drop_overwrite_0].
Qed.

(** C13: getting a state returns for every flavor and buffer, leaves the thread
    as it was, and writes only the words that the returned count covers, which
    are within the buffer. *)
Theorem get_stays_in_buffer s f buf :
  wf s ->
  wp (thread_get_state f buf) (fun r s' => let '(kr, buf', count) := r in
    s' = s /\ length buf' = length buf /\ 0 <= count <= Z.of_nat (length buf) /\
    drop (Z.to_nat count) buf' = drop (Z.to_nat count) buf) s.
Proof.
  intros Hwf. destruct (is_x86 (architecture s)) eqn:Hx.
  - eapply wp_mono; [by apply wp_thread_get_state|]. intros [[kr buf'] count] s' [-> Hr]. unfold get_result in Hr.
    destruct (wrapped _ _) as [[[size inner] n]|] eqn:Hw.
    + destruct (wrapped_cases _ _ _ _ _ Hw) as [Hn _]. destruct (Nat.ltb_spec (length buf) size).
      * simplify_eq. split_and!; (done || lia).
      * destruct Hr as (? & ws & c & _ & Hl & ?). simplify_eq. rewrite Nat2Z.id.
        split_and!; [done|apply length_overwrite; cbn; lia|lia..|apply drop_overwrite_0; cbn; lia].
    + destruct Hr as (? & ws & c & Hf & ?). simplify_eq. split; [done|]. by eapply fetched_drop.
  - unfold thread_get_state, thread_get_state_internal. wp_step. wp_step. rewrite Hx. apply wp_ret. split_and!; (done || lia).
Qed.
Lemma settable_length a f state fl ws : settable a f state fl ws ->
  exists f' n, register_file a f' = Some (fl, n) /\ length ws = n /\ (self_describing f = None -> f' = f) /\
    (forall size, self_describing f = Some (fl, size) -> state !! 0%nat = Some f').
Proof.
  intros [fl' n Hr Hn|fl' size f' c n Hf Hs E0 E1 Hr Hc].
  - exists f, n. rewrite length_take_le by done. split_and!; [done..|]. intros size Hf. exfalso.
    unfold self_describing in Hf. destruct (Z.eqb_spec f x86_THREAD_STATE) as [->|]; [discriminate Hr|].
    by destruct (Z.eqb_spec f x86_FLOAT_STATE) as [->|].
  - exists f', n. split_and!; [done| |congruence|done]. rewrite length_take_le; [done|]. rewrite length_drop.
    enough (2 + n <= size)%nat by lia. unfold self_describing, register_file in *.
    repeat case_match; simplify_eq; vm_compute; lia.
Qed.
Lemma first_with g s : wf s -> first (with_first g s) = g (first s).
Proof. intros [Hne _]. unfold first, with_first. destruct s as [a us d]; cbn in *. by destruct us. Qed.
Lemma set_file_sized fl ws u : (length ws <= length (file fl u))%nat -> sized u -> sized (set_file fl ws u).
Proof.
  intros Hl [H1 H2]. destruct fl; cbn in *; split; cbn; rewrite ?length_app, ?length_drop; lia.
Qed.
Lemma file_set_file fl ws u : file fl (set_file fl ws u) = ws ++ drop (length ws) (file fl u).
Proof. by destruct fl. Qed.
Lemma wf_with_first g s : wf s -> (sized (first s) -> sized (g (first s))) -> wf (with_first g s).
Proof.
  intros [Hne Hs] Hg. unfold wf, with_first, first in *. destruct s as [a us d]; cbn in *. destruct us as [|u us]; [done|].
  apply Forall_cons in Hs as [??]. split; [done|]. constructor; auto.
Qed.
Lemma settable_wf s f state fl ws : wf s -> settable (architecture s) f state fl ws -> wf (with_first (set_file fl ws) s).
Proof.
  intros Hwf Hs. destruct (settable_length _ _ _ _ _ Hs) as (f' & n & Hr & Hn & _).
  apply wf_with_first; [done|]. intros Hu. apply set_file_sized; [|done].
  pose proof (get_file_size _ _ _ _ _ (register_get _ _ _ Hr) Hu). lia.
Qed.
Lemma take_file_set fl ws u n : length ws = n -> take n (file fl (set_file fl ws u)) = ws.
Proof. intros <-. rewrite file_set_file. apply take_app_length. Qed.

(** The inner flavor that [thread_get_state] chooses is the only one that
    [thread_set_state] accepts. *)
Lemma wrapped_inner a f fl size f' n :
  self_describing f = Some (fl, size) -> register_file a f' = Some (fl, n) -> wrapped f a = Some (size, f', n).
Proof.
  unfold self_describing, register_file, wrapped. intros Hf Hr.
  destruct (f =? x86_THREAD_STATE); [|destruct (f =? x86_FLOAT_STATE); [|done]]; injection Hf as <- <-; destruct (is64 a);
    repeat match type of Hr with context [f' =? ?k] => destruct (Z.eqb_spec f' k) as [->|?] end; by simplify_eq.
Qed.
Lemma self_describing_wrapped f a fl n : register_file a f = Some (fl, n) -> wrapped f a = None /\ self_describing f = None.
Proof.
  unfold register_file, wrapped, self_describing. intros Hr.
  repeat match type of Hr with context [f =? ?k] => destruct (Z.eqb_spec f k) as [->|?]; [done|] end; done.
Qed.

Lemma settable_det a f state fl ws fl' ws' :
  settable a f state fl ws -> settable a f state fl' ws' -> fl' = fl /\ ws' = ws.
Proof.
  intros [? ? Hr|? ? ? ? ? Hf] [? ? Hr'|? ? ? ? ? Hf'];
    try (pose proof (self_describing_wrapped _ _ _ _ Hr) as [_ ?]); try (pose proof (self_describing_wrapped _ _ _ _ Hr') as [_ ?]); by simplify_eq.
Qed.
Lemma settable_debug a f state fl ws : settable a f state fl ws -> debug_readable a f state.
Proof. by intros [] -> ->. Qed.
(** Setting a state that can be set. *)
Lemma wp_set_settable s f state fl ws (Q : Z -> tst -> Prop) :
  wf s -> is_x86 (architecture s) = true -> settable (architecture s) f state fl ws ->
  Q KERN_SUCCESS (with_first (set_file fl ws) s) -> wp (thread_set_state f state) Q s.
Proof.
  intros Hwf Hx Hs HQ. eapply wp_mono; [apply wp_thread_set_state; [done..|by eapply settable_debug]|].
  intros r s' [(-> & fl' & ws' & Hs' & ->)|(_ & Hn & _)]; [|by destruct (Hn _ _ Hs)].
  by destruct (settable_det _ _ _ _ _ _ _ Hs Hs') as [-> ->].
Qed.
(** Getting the register file of a plain flavor. *)
Lemma fetched_file s f count fl n r :
  register_file (architecture s) f = Some (fl, n) -> Z.of_nat n <= count -> fetched s f count r ->
  r = (KERN_SUCCESS, take n (file fl (first s)), Z.of_nat n).
Proof.
  intros Hr Hn Hf. unfold fetched in Hf. rewrite (register_get _ _ _ Hr) in Hf. destruct (Z.ltb_spec count (Z.of_nat n)); [lia|done].
Qed.

(** C14: what was set is what is got: after a state is set, getting it with the
    same flavor into a buffer of the same size succeeds and gives the words that
    were set, in the same place; a self-describing state says again what it
    holds, and how much. *)
Theorem set_get_roundtrip s f state buf fl ws :
  wf s -> is_x86 (architecture s) = true -> settable (architecture s) f state fl ws -> length buf = length state ->
  wp (r <- thread_set_state f state ;; r' <- thread_get_state f buf ;; ret (r, r'))
     (fun r _ => let '(kr, (kr', buf', count)) := r in
        kr = KERN_SUCCESS /\ kr' = KERN_SUCCESS /\ take (length ws) (payload f buf') = ws /\
        match self_describing f with
        | Some (_, size) => buf' !! 0%nat = state !! 0%nat /\ buf' !! 1%nat = Some (Z.of_nat (length ws)) /\ count = Z.of_nat size
        | None => count = Z.of_nat (length ws)
        end) s.
Proof.
  intros Hwf Hx Hs Hl. wp_step. eapply wp_set_settable; [done..|]. pose proof (settable_wf _ _ _ _ _ Hwf Hs) as Hwf'.
  wp_step. eapply wp_mono; [by apply wp_thread_get_state|]. intros [[kr' buf'] count] s' [-> Hr]. apply wp_ret. split; [done|].
  unfold get_result in Hr. change (architecture (with_first _ _)) with (architecture s) in Hr.
  destruct (settable_length _ _ _ _ _ Hs) as (f' & n & Hf & Hn & Hplain & Hwrap). pose proof (first_with (set_file fl ws) s Hwf) as Hfirst.
  assert (fetched_ws : forall count r, Z.of_nat n <= count -> fetched (with_first (set_file fl ws) s) f' count r ->
    r = (KERN_SUCCESS, ws, Z.of_nat n)).
  { intros c r Hc Hr'. rewrite (fetched_file (with_first (set_file fl ws) s) f' c fl n r Hf Hc Hr'), Hfirst, take_file_set; done. }
  destruct Hs as [fl n' Hr1 Hlen|fl size g c n' Hself Hsize E0 E1 Hr1 Hc].
  - destruct (self_describing_wrapped _ _ _ _ Hr1) as [Hw Hno]. rewrite Hw in Hr. unfold payload. rewrite Hno in *.
    rewrite (Hplain eq_refl) in *. destruct Hr as (k & ws' & c & Hg & ?). apply fetched_ws in Hg; [|simplify_eq; lia].
    simplify_eq. rewrite overwrite_0, take_app_length. done.
  - specialize (Hwrap _ Hself). assert (g = f') as -> by congruence. unfold payload.
    rewrite (wrapped_inner _ _ _ _ _ _ Hself Hf) in Hr. rewrite Hself. destruct (Nat.ltb_spec (length buf) size); [lia|].
    destruct Hr as (k & ws' & c' & Hg & _ & ?). apply fetched_ws in Hg; [|done]. simplify_eq.
    rewrite overwrite_0. cbn. rewrite drop_0, take_app_length. split_and!; done || congruence.
Qed.
(** ** Signal handling *)

(** What a thread's states go through: calls, and signals handled in between,
    during which any of this may happen. *)
Inductive activity :=
| ASet (f : Z) (state : list Z)
| AGet (f : Z) (buf : list Z)
| ASignal (during : list activity).
Fixpoint live (o : activity) : MT unit :=
  match o with
  | ASet f state => thread_set_state f state ;;; ret tt
  | AGet f buf => thread_get_state f buf ;;; ret tt
  | ASignal during =>
      dtape_thread_sigexc_enter2 ;;;
      (fix lives l := match l with [] => ret tt | o :: l => live o ;;; lives l end) during ;;;
      dtape_thread_sigexc_exit
  end.
Definition lives (l : list activity) : MT unit :=
  (fix lives l := match l with [] => ret tt | o :: l => live o ;;; lives l end) l.
(** The callers give 32-bit debug states that are long enough. *)
Fixpoint measured (o : activity) : Prop :=
  match o with
  | ASet f state => f = x86_DEBUG_STATE32 -> (x86_DEBUG_STATE32_COUNT <= length state)%nat
  | AGet _ _ => True
  | ASignal during => (fix all l := match l with [] => True | o :: l => measured o /\ all l end) during
  end.
Definition all_measured (l : list activity) : Prop :=
  (fix all l := match l with [] => True | o :: l => measured o /\ all l end) l.

(** Only the current user state may have changed. *)
Definition beneath (s s' : tst) : Prop :=
  wf s' /\ architecture s' = architecture s /\ default_in s' = default_in s /\ tail (user_states s') = tail (user_states s).

Lemma set_beneath s f state : wf s -> (f = x86_DEBUG_STATE32 -> (x86_DEBUG_STATE32_COUNT <= length state)%nat) ->
  wp (thread_set_state f state) (fun _ s' => beneath s s') s.
Proof.
  intros Hwf Hd. destruct (is_x86 (architecture s)) eqn:Hx.
  - eapply wp_mono; [apply wp_thread_set_state; [done..|by intros ? _; apply Hd]|].
    intros r s' [(_ & fl & ws & Hs & ->)|(-> & _)]; [|done]. split; [by eapply settable_wf|].
    split_and!; [done..|]. destruct Hwf as [Hne _], s as [a us d]. cbn in *. by destruct us.
  - unfold thread_set_state. wp_step. wp_step. rewrite Hx. by apply wp_ret.
Qed.
Lemma get_beneath s f buf : wf s -> wp (thread_get_state f buf) (fun _ s' => s' = s) s.
Proof.
  intros Hwf. destruct (is_x86 (architecture s)) eqn:Hx.
  - eapply wp_mono; [by apply wp_thread_get_state|]. by intros r s' [? _].
  - unfold thread_get_state, thread_get_state_internal. wp_step. wp_step. rewrite Hx. by apply wp_ret.
Qed.
Lemma wp_sigexc_enter2 s (Q : unit -> tst -> Prop) :
  (forall s', s' = s <| user_states ::= cons user_state_zero |> -> wf s -> wf s' -> Q tt s') -> wf s -> wp dtape_thread_sigexc_enter2 Q s.
Proof.
  intros HQ Hwf. unfold dtape_thread_sigexc_enter2. wp_step. eapply HQ; [done..|]. split; [done|]. constructor; [done|apply Hwf].
Qed.
Lemma wp_sigexc_exit s1 s (Q : unit -> tst -> Prop) :
  beneath (s <| user_states ::= cons user_state_zero |>) s1 -> wf s -> Q tt s -> wp dtape_thread_sigexc_exit Q s1.
Proof.
  intros (_ & Ha & Hd & Ht) [Hne _] HQ. destruct s as [a us d], s1 as [a1 us1 d1]. cbn in *. subst.
  unfold wp, dtape_thread_sigexc_exit. cbn. destruct us1 as [|u [|u' us1]]; cbn in *; by subst.
Qed.
Lemma beneath_trans s s1 s2 : beneath s s1 -> beneath s1 s2 -> beneath s s2.
Proof. intros (? & ? & ? & ?) (? & ? & ? & ?). split_and!; [done|congruence..]. Qed.

(** Every activity leaves what is beneath the current state alone. *)
Lemma wp_live o : forall s, wf s -> measured o -> wp (live o) (fun _ s' => beneath s s') s.
Proof.
  revert o. fix IH 1. intros [f state|f buf|during] s Hwf Hm; cbn [live].
  - wp_step. eapply wp_mono; [by apply set_beneath|]. done.
  - wp_step. eapply wp_mono; [by apply get_beneath|]. by intros r s' ->.
  - wp_step. apply wp_sigexc_enter2; [|done]. intros s0 Hs0 _ Hwf0. wp_step.
    assert (Hd : forall s1, wf s1 -> wp (lives during) (fun _ s' => beneath s1 s') s1).
    { cbn in Hm. revert Hm. clear -IH. induction during as [|o l IHl]; intros Hm s1 Hwf1; [by apply wp_ret|].
      destruct Hm as [Hm1 Hm2]. cbn. wp_step. eapply wp_mono; [by apply IH|]. intros [] s2 H2.
      eapply wp_mono; [apply (IHl Hm2), H2|]. intros [] s3 H3. by eapply beneath_trans. }
    eapply wp_mono; [by apply Hd|]. intros [] s1 H1. subst s0. by eapply wp_sigexc_exit.
Qed.
Lemma wp_lives l : forall s, wf s -> all_measured l -> wp (lives l) (fun _ s' => beneath s s') s.
Proof.
  induction l as [|o l IH]; intros s Hwf Hm; [by apply wp_ret|]. destruct Hm as [Hm1 Hm2]. cbn.
  wp_step. eapply wp_mono; [by apply wp_live|]. intros [] s1 H1.
  eapply wp_mono; [apply IH; [apply H1|done]|]. intros [] s2 H2. by eapply beneath_trans.
Qed.

Lemma wp_live_signal s during (Q : unit -> tst -> Prop) :
  wf s -> all_measured during -> Q tt s -> wp (live (ASignal during)) Q s.
Proof.
  intros Hwf Hm HQ. cbn [live]. wp_step. apply wp_sigexc_enter2; [|done]. intros s0 -> _ Hwf0. wp_step.
  eapply wp_mono; [by apply (wp_lives during)|]. intros [] s1 H1. by eapply wp_sigexc_exit.
Qed.

(** C15: whatever a thread does with its states while it handles a signal,
    including the handling of further signals, the state it was interrupted in
    is there again, unchanged, when the handler is done, and ending the handler
    never frees the state that is part of the thread. *)
Theorem signal_keeps_interrupted_state s during :
  wf s -> all_measured during ->
  wp (live (ASignal during)) (fun _ s' => s' = s) s.
Proof. intros. by apply wp_live_signal. Qed.

(** ** Transfers *)

(** The sizes of the states of an architecture. *)
Definition thread_words (a : dserver_rpc_architecture) : nat := if is64 a then x86_THREAD_STATE64_COUNT else x86_THREAD_STATE32_COUNT.
Definition float_words (a : dserver_rpc_architecture) : nat := if is64 a then x86_FLOAT_STATE64_COUNT else x86_FLOAT_STATE32_COUNT.

(** A plain flavor with a buffer of its exact size. *)
Lemma wp_set_exact s f fl n ws (Q : Z -> tst -> Prop) :
  wf s -> is_x86 (architecture s) = true -> register_file (architecture s) f = Some (fl, n) -> length ws = n ->
  (forall s', s' = with_first (set_file fl ws) s -> wf s' -> first s' = set_file fl ws (first s) -> Q KERN_SUCCESS s') ->
  wp (thread_set_state f ws) Q s.
Proof.
  intros Hwf Hx Hr <- HQ. assert (settable (architecture s) f ws fl ws) as Hs
    by (rewrite <- (take_ge ws (length ws)) at 2 by done; by apply settable_plain).
  eapply wp_set_settable; [done..|]. eapply HQ; [done|by eapply settable_wf|by apply first_with].
Qed.
Lemma wp_get_exact s f fl n buf (Q : Z * list Z * Z -> tst -> Prop) :
  wf s -> is_x86 (architecture s) = true -> register_file (architecture s) f = Some (fl, n) -> length buf = n ->
  Q (KERN_SUCCESS, take n (file fl (first s)), Z.of_nat n) s -> wp (thread_get_state f buf) Q s.
Proof.
  intros Hwf Hx Hr Hl HQ. eapply wp_mono; [by apply wp_thread_get_state|]. intros r s' [-> Hg]. unfold get_result in Hg.
  rewrite (proj1 (self_describing_wrapped _ _ _ _ Hr)) in Hg. destruct Hg as (kr & ws & c & Hf & ->).
  pose proof (get_file_size _ _ _ _ _ (register_get _ _ _ Hr) (wf_first _ Hwf)).
  apply (fetched_file _ _ _ _ _ _ Hr) in Hf; [|lia]. simplify_eq.
  rewrite overwrite_0, length_take_le, drop_ge, app_nil_r by lia. done.
Qed.

Section TransferProps.
Context {mem : Type} (copyin : mem -> Z -> nat -> option (list Z)) (copyout : mem -> Z -> list Z -> option mem).
(** [copyin] gives as many words as it was asked for. *)
Hypothesis copyin_length : forall m a n ws, copyin m a n = Some ws -> length ws = n.
Context (junk : nat -> list Z).
Hypothesis junk_length : forall n, length (junk n) = n.

(** [copyout] of the two states, one after the other. *)
Definition copied_out (m : mem) (ta fa : Z) (T F : list Z) : Z * mem :=
  match copyout m ta T with
  | None => (- LINUX_EFAULT, m)
  | Some m1 => match copyout m1 fa F with None => (- LINUX_EFAULT, m1) | Some m2 => (0, m2) end
  end.

Lemma wp_load_states s m ta fa ft ff nt nf T F (Q : Z -> tst -> Prop) :
  wf s -> is_x86 (architecture s) = true ->
  register_file (architecture s) ft = Some (false, nt) -> register_file (architecture s) ff = Some (true, nf) ->
  copyin m ta nt = Some T -> copyin m fa nf = Some F ->
  (forall s', wf s' -> architecture s' = architecture s ->
     take nt (uts (first s')) = T -> take nf (ufs (first s')) = F -> Q 0 s') ->
  wp (load_states copyin m ta fa ft ff nt nf) Q s.
Proof.
  intros Hwf Hx Ht Hf ET EF HQ. pose proof (copyin_length _ _ _ _ ET). pose proof (copyin_length _ _ _ _ EF).
  unfold load_states. rewrite ET, EF. wp_step. eapply (wp_set_exact _ _ false nt); [done..|]. intros s1 E1 Hwf1 Hf1.
  assert (architecture s1 = architecture s) as Ha by (by subst s1).
  wp_step. eapply (wp_set_exact _ _ true nf); [done|by rewrite Ha..|done|]. intros s2 -> Hwf2 Hf2. apply wp_ret.
  apply HQ; [done..| |].
  - rewrite Hf2, Hf1. change (uts _) with (file false (set_file false T (first s))). by apply take_file_set.
  - rewrite Hf2. change (ufs _) with (file true (set_file true F (first s1))). by apply take_file_set.
Qed.
Lemma wp_save_states s m ta fa ft ff nt nf (Q : Z * mem -> tst -> Prop) :
  wf s -> is_x86 (architecture s) = true ->
  register_file (architecture s) ft = Some (false, nt) -> register_file (architecture s) ff = Some (true, nf) ->
  Q (copied_out m ta fa (take nt (uts (first s))) (take nf (ufs (first s)))) s ->
  wp (save_states copyout junk m ta fa ft ff nt nf) Q s.
Proof.
  intros Hwf Hx Ht Hf HQ. unfold save_states, copied_out in *. wp_step. eapply (wp_get_exact _ _ false nt); [done..|].
  wp_step. eapply (wp_get_exact _ _ true nf); [done..|]. cbn [fst snd file]. by repeat (case_match; try apply wp_ret).
Qed.

(** a thread's registers survive an interruption: after the server has read
    them from the client, it writes back, to any address and whatever the handling
    of signals did in between, exactly the words it read, both register files
    whole, or it reports which copy failed. *)
Theorem state_survives_interruption s m ta fa T F during m' tb fb :
  wf s -> is_x86 (architecture s) = true -> all_measured during ->
  copyin m ta (thread_words (architecture s)) = Some T -> copyin m fa (float_words (architecture s)) = Some F ->
  wp (r <- dtape_thread_load_state_from_user copyin m ta fa ;;
      live (ASignal during) ;;;
      r' <- dtape_thread_save_state_to_user copyout junk m' tb fb ;;
      ret (r, r'))
     (fun r _ => r = (0, copied_out m' tb fb T F)) s.
Proof.
  intros Hwf Hx Hm. unfold thread_words, float_words, dtape_thread_load_state_from_user. intros ET EF. do 3 wp_step.
  destruct (architecture s) eqn:Ha; try discriminate Hx; cbn in ET, EF.
  all: eapply wp_load_states; [done|by rewrite Ha|rewrite Ha; reflexivity..|exact ET|exact EF|].
  all: intros s' Hwf' Ha' ET' EF'; rewrite Ha in Ha'; wp_step; apply wp_live_signal; [done..|].
  all: wp_step; unfold dtape_thread_save_state_to_user; wp_step; wp_step; rewrite Ha'.
  all: eapply wp_save_states; [done|by rewrite Ha'|rewrite Ha'; reflexivity..|].
  all: rewrite ET', EF'; by apply wp_ret.
Qed.
End TransferProps.
(** ** Concrete states *)

Definition words (n : nat) : list Z := Z.of_nat <$> seq 100 n.
Lemma init_wf a : wf (dtape_thread_init a).
Proof. by repeat constructor. Qed.
Lemma settable_words : settable x86_64 x86_THREAD_STATE (x86_THREAD_STATE64 :: 42 :: words 42) false (words 42).
Proof.
  change (words 42) with (take 42 (drop 2 (x86_THREAD_STATE64 :: 42 :: words 42))) at 2.
  by apply (settable_wrapped _ _ _ false x86_THREAD_STATE_COUNT x86_THREAD_STATE64 42 42).
Qed.

Lemma set_state_meets_spec_witness :
  wp (thread_set_state x86_FLOAT_STATE64 (words 131)) (fun r s' => r = KERN_SUCCESS /\ ufs (first s') = words 131) (dtape_thread_init x86_64).
Proof.
  eapply wp_mono; [apply (set_state_meets_spec _ x86_FLOAT_STATE64 (words 131)); [apply init_wf|done]|].
  intros r s' H. cbn [is_x86] in H. destruct H as [(-> & fl & ws & Hs & ->)|(_ & Hn & _)].
  - inversion Hs as [fl' n Hr Hl E1 E2|]; [|discriminate]. injection Hr as <- <-. split; reflexivity.
  - destruct (Hn true (take 131 (words 131))). by apply settable_plain.
Defined.
Lemma get_stays_in_buffer_witness :
  wp (thread_get_state x86_THREAD_STATE32 (words 50)) (fun r s' => drop (Z.to_nat (snd r)) (snd (fst r)) = drop (Z.to_nat (snd r)) (words 50) /\ snd r <= 50)
    (dtape_thread_init i386).
Proof.
  eapply wp_mono; [apply (get_stays_in_buffer _ x86_THREAD_STATE32 (words 50)), init_wf|].
  intros [[kr buf] c] s' (_ & _ & Hc & Hd). split; [exact Hd|apply Hc].
Defined.
Lemma set_get_roundtrip_witness :
  wp (r <- thread_set_state x86_THREAD_STATE (x86_THREAD_STATE64 :: 42 :: words 42) ;;
      r' <- thread_get_state x86_THREAD_STATE (replicate 44 0) ;; ret (r, r'))
     (fun r _ => take 42 (drop 2 (snd (fst (snd r)))) = words 42) (dtape_thread_init x86_64).
Proof.
  eapply wp_mono; [apply (set_get_roundtrip (dtape_thread_init x86_64) _ _ (replicate 44 0) _ _ (init_wf x86_64) eq_refl settable_words eq_refl)|].
  intros [kr [[kr' buf] c]] s' (_ & _ & H & _). exact H.
Defined.
Lemma signal_keeps_interrupted_state_witness :
  wp (live (ASignal [ASet x86_THREAD_STATE64 (words 42); ASignal [ASet x86_FLOAT_STATE64 (words 131)]]))
     (fun _ s' => s' = dtape_thread_init x86_64) (dtape_thread_init x86_64).
Proof. apply signal_keeps_interrupted_state; [apply init_wf|by repeat split]. Defined.

(** A client whose memory is an array of words. *)
Definition flat_in (m : list Z) (a : Z) (n : nat) : option (list Z) :=
  if decide (Z.to_nat a + n <= length m)%nat then Some (take n (drop (Z.to_nat a) m)) else None.
Definition flat_out (m : list Z) (a : Z) (ws : list Z) : option (list Z) :=
  if decide (Z.to_nat a + length ws <= length m)%nat then Some (overwrite (Z.to_nat a) ws m) else None.
Lemma flat_in_length m a n ws : flat_in m a n = Some ws -> length ws = n.
Proof. unfold flat_in. case_decide; [|done]. intros [= <-]. rewrite length_take, length_drop. lia. Qed.
Lemma state_survives_interruption_witness :
  wp (r <- dtape_thread_load_state_from_user flat_in (words 400) 0 50 ;;
      live (ASignal [ASet x86_THREAD_STATE64 (words 42)]) ;;;
      r' <- dtape_thread_save_state_to_user flat_out (fun n => replicate n 0) (words 400) 200 250 ;;
      ret (r, r'))
     (fun r _ => fst r = 0 /\ fst (snd r) = 0 /\ take 42 (drop 200 (snd (snd r))) = words 42) (dtape_thread_init x86_64).
Proof.
  eapply wp_mono.
  - eapply (state_survives_interruption flat_in flat_out flat_in_length (fun n => replicate n 0) (fun n => length_replicate n 0));
      [apply init_wf|reflexivity|by repeat split|vm_compute; reflexivity|vm_compute; reflexivity].
  - intros r s' ->. vm_compute. done.
Defined.

(** A 32-bit debug state is read whatever its size, and a 32-bit task may get
    the 64-bit floating point state that it may not set. *)
Lemma debug_state_is_not_measured : thread_set_state x86_DEBUG_STATE32 [] (dtape_thread_init i386) = Panic "read beyond the state".
Proof. reflexivity. Qed.
Lemma float_state64_is_got_not_set :
  wp (r <- thread_get_state x86_FLOAT_STATE64 (words 131) ;; r' <- thread_set_state x86_FLOAT_STATE64 (words 131) ;; ret (fst (fst r), r'))
     (fun r _ => r = (KERN_SUCCESS, KERN_INVALID_ARGUMENT)) (dtape_thread_init i386).
Proof. vm_compute. done. Qed.
End ThreadState.
