(* ===== verification/Memory.v ===== *)
(** The virtual memory stand-in, [src/duct-tape/src/memory.c]: copies between
    processes, allocation, regions, and memory shared between processes with its
    table of entries and its file descriptors.  One call at a time; what the code
    asks of the server's hooks and of the C library is the interface [OS]. *)
From S2P Require Import Prelude.

Module Memory.

(** ** Constants *)
Definition VM_PROT_NONE : Z := 0.
Definition VM_PROT_READ : Z := 1.
Definition VM_PROT_WRITE : Z := 2.
Definition VM_PROT_EXECUTE : Z := 4.
Definition VM_PROT_ALL : Z := 7.
Definition PROT_READ : Z := 1.
Definition PROT_WRITE : Z := 2.
Definition PROT_EXEC : Z := 4.
Definition dtape_memory_protection_read : Z := 1.
Definition dtape_memory_protection_write : Z := 2.
Definition dtape_memory_protection_execute : Z := 4.
Definition dtape_memory_flag_fixed : Z := 1.
Definition dtape_memory_flag_overwrite : Z := 2.
Definition VM_FLAGS_ANYWHERE : Z := 1.
Definition VM_FLAGS_OVERWRITE : Z := 16384.
Definition VM_FLAGS_RETURN_DATA_ADDR : Z := 1048576.
(** FIXED, ANYWHERE, RANDOM_ADDR, OVERWRITE, RETURN_DATA_ADDR and the two
    RESILIENT flags *)
Definition VM_FLAGS_USER_REMAP : Z := 1 + 8 + 16384 + 1048576 + 32 + 64.
Definition VM_REGION_BASIC_INFO_64 : Z := 9.
Definition VM_REGION_BASIC_INFO : Z := 10.
Definition VM_REGION_BASIC_INFO_COUNT_64 : Z := 9.
Definition VM_REGION_BASIC_INFO_COUNT : Z := 8.
Definition VM_REGION_SUBMAP_SHORT_INFO_COUNT_64 : Z := 12.
Definition SM_PRIVATE : Z := 2.
Definition SM_SHARED : Z := 4.
Definition PAGE_MASK : Z := 4095.
(** [sizeof(struct vm_map_copy)] *)
Definition copy_header : Z := 32.

(** ** What the code calls *)
Record dtape_memory_region_info := mk_region {
  start_address : Z; page_count : Z; map_offset : Z; r_protection : Z; r_shared : bool }.

Class OS (W : Type) := {
  (* the hooks of the server; the [nat] is the task *)
  task_read_memory : nat -> Z -> Z -> W -> option (list Z);
  task_write_memory : nat -> Z -> list Z -> W -> bool * W;
  task_allocate_pages : nat -> Z -> Z -> Z -> Z -> W -> Z * W;      (* 0: failure *)
  task_free_pages : nat -> Z -> Z -> W -> bool * W;                 (* false: < 0 *)
  task_map_file : nat -> Z -> Z -> Z -> Z -> Z -> Z -> W -> Z * W;  (* 0: failure *)
  task_get_memory_region_info : nat -> Z -> W -> option dtape_memory_region_info;
  task_get_next_region : nat -> Z -> W -> Z;
  task_change_protection : nat -> Z -> Z -> Z -> W -> bool * W;
  task_sync_memory : nat -> Z -> Z -> Z -> W -> bool * W;
  (* the C library *)
  malloc : Z -> W -> bool * W;                                      (* false: NULL *)
  memfd_create : gset Z -> W -> option Z * W;                       (* given the open ones *)
  ftruncate : Z -> Z -> W -> bool * W;
  mmap_file : Z -> Z -> W -> option Z * W;
  mmap_anonymous : Z -> W -> option Z * W;
  munmap : Z -> Z -> W -> bool * W;
  own_read : Z -> Z -> W -> option (list Z);                        (* None: fault *)
  own_write : Z -> list Z -> W -> option W;
}.

(** ** State *)
Record dtape_map_shared_descriptor := mk_descriptor { refcount : Z; memfd : Z; d_size : Z }.
Record dtape_map_shared_entry := mk_entry { e_address : Z; e_size : Z; e_page_offset : Z; e_descriptor : nat }.
#[global] Instance descriptor_rb : Rebuild dtape_map_shared_descriptor := fun r => mk_descriptor (refcount r) (memfd r) (d_size r).
(** A kernel buffer copy: its size, the room behind its header and its bytes. *)
Record vm_map_copy := mk_copy { c_size : Z; c_room : Z; c_data : list Z }.
#[global] Instance copy_rb : Rebuild vm_map_copy := fun r => mk_copy (c_size r) (c_room r) (c_data r).
(** [shared_entries] in the order of the tree. *)
Record dtape_map := mk_map { map_refcnt : Z; dtape_task : nat; shared_entries : list nat }.
#[global] Instance map_rb : Rebuild dtape_map := fun r => mk_map (map_refcnt r) (dtape_task r) (shared_entries r).

Record mst (W : Type) := mk_mst {
  world : W;
  maps : gmap nat dtape_map;
  descriptors : gmap nat dtape_map_shared_descriptor;
  entries : gmap nat dtape_map_shared_entry;
  copies : gmap nat vm_map_copy;
  files : gmap Z (list Z);                   (* open memfds and their bytes *)
  file_mappings : list (Z * Z);              (* the server's own mappings of memfds *)
  unmap_errors : list (Z * Z);               (* those for which "failed to unmap memfd" was logged *)
  map_file_calls : list (nat * Z * Z * Z);   (* [task_map_file]: task, memfd, pages and the address returned, the last call first *)
}.
Arguments mk_mst {W}. Arguments world {W}. Arguments maps {W}. Arguments descriptors {W}. Arguments entries {W}.
Arguments copies {W}. Arguments files {W}. Arguments file_mappings {W}. Arguments unmap_errors {W}. Arguments map_file_calls {W}.
#[global] Instance mst_rb {W} : Rebuild (mst W) := fun r =>
  mk_mst (world r) (maps r) (descriptors r) (entries r) (copies r) (files r) (file_mappings r) (unmap_errors r) (map_file_calls r).

(** ** Pages *)
Definition mach_vm_trunc_page (x : Z) : Z := clr x PAGE_MASK.
Definition vm_map_trunc_page (x mask : Z) : Z := clr x mask.
Definition vm_map_round_page (x mask : Z) : Z := clr (u64 (x + mask)) mask.

Section Ops.
Context {W : Type} `{OS W}.
(** [sysconf(_SC_PAGESIZE)] is [2 ^ page_shift]; [kernel_map] is the server's own. *)
Context (page_shift : Z) (kernel_map : nat).
Notation MM := (M (mst W)).

Definition os {A} (f : W -> A * W) : MM A := fun s => let '(a, w) := f (world s) in Ret a (s <| world := w |>).
Definition asks {A} (f : W -> A) : MM A := gets (fun s => f (world s)).
Definition pagesize : Z := 2 ^ page_shift.
Definition dtape_byte_count_to_page_count_round_up (byte_count : Z) : Z := u64 (byte_count + (pagesize - 1)) / pagesize.
Definition dtape_byte_count_to_page_count_round_down (byte_count : Z) : Z := byte_count / pagesize.
(** In the kernel the rounding of addresses panics when it overflows. *)
Definition mach_vm_round_page (x : Z) : MM Z :=
  if x + PAGE_MASK <? 2 ^ 64 then ret (clr (x + PAGE_MASK) PAGE_MASK) else panic "overflow detected".
Definition VM_MAP_PAGE_MASK : Z := pagesize - 1.

Definition map_get (m : nat) : MM dtape_map := fun s =>
  match maps s !! m with Some x => Ret x s | None => Panic "freed map" end.
Definition map_set (m : nat) (f : dtape_map -> dtape_map) : MM unit := fun s =>
  match maps s !! m with Some x => Ret tt (s <| maps := <[m := f x]> (maps s) |>) | None => Panic "freed map" end.
Definition task_of (m : nat) : MM nat := x <- map_get m ;; ret (dtape_task x).
Definition descriptor_get (d : nat) : MM dtape_map_shared_descriptor := fun s =>
  match descriptors s !! d with Some x => Ret x s | None => Panic "freed descriptor" end.
Definition entry_get (e : nat) : MM dtape_map_shared_entry := fun s =>
  match entries s !! e with Some x => Ret x s | None => Panic "freed entry" end.
Definition copy_get (c : nat) : MM vm_map_copy := fun s =>
  match copies s !! c with Some x => Ret x s | None => Panic "freed copy" end.
Definition free_copy (c : nat) : MM unit := copy_get c ;;; modify (fun s => s <| copies ::= delete c |>).
Definition close (fd : Z) : MM unit := modify (fun s => s <| files ::= delete fd |>).

(** ** Shared memory: descriptors and entries *)
Definition dtape_map_shared_descriptor_create (fd size : Z) : MM (option nat) :=
  ok <- os (malloc 16) ;;
  if negb (ok : bool) then ret None
  else fun s => let d := fresh (dom (descriptors s)) in
       Ret (Some d) (s <| descriptors ::= <[d := mk_descriptor 1 fd size]> |>).
Definition dtape_map_shared_descriptor_retain (d : nat) : MM unit :=
  x <- descriptor_get d ;; modify (fun s => s <| descriptors ::= <[d := x <| refcount ::= Z.succ |>]> |>).
Definition dtape_map_shared_descriptor_release (d : nat) : MM unit :=
  x <- descriptor_get d ;;
  if negb (refcount x - 1 =? 0) then modify (fun s => s <| descriptors ::= <[d := x <| refcount ::= Z.pred |>]> |>)
  else close (memfd x) ;;; modify (fun s => s <| descriptors ::= delete d |>).
Definition dtape_map_shared_entry_create (address size page_offset : Z) (d : nat) : MM (option nat) :=
  ok <- os (malloc 64) ;;
  if negb (ok : bool) then ret None
  else
    e <- (fun s => let e := fresh (dom (entries s)) in
                   Ret e (s <| entries ::= <[e := mk_entry address size page_offset d]> |>)) ;;
    dtape_map_shared_descriptor_retain d ;;;
    ret (Some e).
Definition dtape_map_shared_entry_destroy (e : nat) : MM unit :=
  x <- entry_get e ;;
  dtape_map_shared_descriptor_release (e_descriptor x) ;;;
  modify (fun s => s <| entries ::= delete e |>).

(** [RB_INSERT]: in the order of [dtape_map_shared_entry_compare]; an entry with
    an address that is there already is not inserted. *)
Definition dtape_map_shared_entry_compare (x y : dtape_map_shared_entry) : comparison :=
  if e_address x <? e_address y then Lt else if e_address x >? e_address y then Gt else Eq.
Fixpoint rb_insert (e : nat) (x : dtape_map_shared_entry) (l : list nat) : MM (list nat) :=
  match l with
  | [] => ret [e]
  | e' :: l' =>
      y <- entry_get e' ;;
      match dtape_map_shared_entry_compare x y with
      | Lt => ret (e :: l)
      | Eq => ret l
      | Gt => r <- rb_insert e x l' ;; ret (e' :: r)
      end
  end.
Definition dtape_map_insert_shared_entry_locked (m e : nat) : MM unit :=
  k <- map_get m ;;
  x <- entry_get e ;;
  l <- rb_insert e x (shared_entries k) ;;
  map_set m (fun k => k <| shared_entries := l |>).
(** Takes and releases [shared_entry_lock] around it. *)
Definition dtape_map_insert_shared_entry := dtape_map_insert_shared_entry_locked.

(** The loop of [dtape_map_find_shared_entries_locked]; [room] is
    [entry_count - count]. *)
Fixpoint find_entries (address size : Z) (room : nat) (l : list nat) : MM (list nat) :=
  match l with
  | [] => ret []
  | e :: l' =>
      x <- entry_get e ;;
      if (u64 (e_address x + e_size x) <? address) || (e_address x >? u64 (address + size))
      then find_entries address size room l'
      else
        match room with
        | S (S room') => r <- find_entries address size (S room') l' ;; ret (e :: r)
        | _ => ret [e]
        end
  end.
Definition dtape_map_find_shared_entries_locked (m : nat) (address size : Z) (entry_count : nat) : MM (list nat) :=
  match entry_count with
  | O => ret []
  | S _ => k <- map_get m ;; find_entries address size entry_count (shared_entries k)
  end.

(** ** Maps *)
Definition dtape_vm_map_create (task : nat) : MM (option nat) :=
  ok <- os (malloc 128) ;;
  if negb (ok : bool) then ret None
  else fun s => let m := fresh (dom (maps s)) in Ret (Some m) (s <| maps ::= <[m := mk_map 1 task []]> |>).
(** [RB_FOREACH_SAFE]: unlink and destroy each entry. *)
Fixpoint destroy_entries (m : nat) (l : list nat) : MM unit :=
  match l with
  | [] => ret tt
  | e :: l' =>
      map_set m (fun k => k <| shared_entries ::= unlink e |>) ;;;
      dtape_map_shared_entry_destroy e ;;;
      destroy_entries m l'
  end.
Definition dtape_vm_map_destroy (m : nat) : MM unit :=
  k <- map_get m ;;
  if negb (map_refcnt k - 1 =? 0) then panic "VM map still in-use at destruction"
  else
    map_set m (fun k => k <| map_refcnt ::= Z.pred |>) ;;;
    destroy_entries m (shared_entries k) ;;;
    modify (fun s => s <| maps ::= delete m |>).
Definition vm_map_reference (m : nat) : MM unit := map_set m (fun k => k <| map_refcnt ::= Z.succ |>).
Definition vm_map_deallocate (m : nat) : MM unit :=
  k <- map_get m ;;
  if map_refcnt k - 1 =? 0 then panic "os_ref_release_live: last reference"
  else map_set m (fun k => k <| map_refcnt ::= Z.pred |>).
(** ** Access to the memory of a map *)
Definition copyoutmap (m : nat) (data : list Z) (toaddr : Z) : MM Z :=
  if (m =? kernel_map)%nat then
    fun s => match own_write toaddr data (world s) with
             | Some w => Ret KERN_SUCCESS (s <| world := w |>)
             | None => Panic "fault"
             end
  else
    t <- task_of m ;;
    ok <- os (task_write_memory t toaddr data) ;;
    ret (if ok : bool then KERN_SUCCESS else KERN_FAILURE).
(** [None]: [KERN_FAILURE]. *)
Definition copyinmap (m : nat) (fromaddr length : Z) : MM (option (list Z)) :=
  if (m =? kernel_map)%nat then
    r <- asks (own_read fromaddr length) ;;
    match r with Some bs => ret (Some bs) | None => panic "fault" end
  else
    t <- task_of m ;; asks (task_read_memory t fromaddr length).
(** Of the map of the calling thread. *)
Definition copyin (current_map : nat) (user_addr nbytes : Z) : MM (Z * list Z) :=
  r <- copyinmap current_map user_addr nbytes ;;
  ret match r with Some bs => (0, bs) | None => (1, []) end.
Definition copyout (current_map : nat) (kernel_data : list Z) (user_addr : Z) : MM Z :=
  kr <- copyoutmap current_map kernel_data user_addr ;; ret (if kr =? KERN_SUCCESS then 0 else 1).
Definition copyinmsg := copyin.
Definition copyoutmsg := copyout.

Definition vm_map_remove (m : nat) (start end_ : Z) : MM Z :=
  ok <- (if (m =? kernel_map)%nat then os (munmap start (u64 (end_ - start)))
         else t <- task_of m ;; os (task_free_pages t start (dtape_byte_count_to_page_count_round_down (u64 (end_ - start))))) ;;
  ret (if ok : bool then KERN_SUCCESS else KERN_FAILURE).

(** ** Kernel buffer copies *)
Definition vm_map_copy_discard (copy : option nat) : MM unit :=
  match copy with Some c => free_copy c | None => ret tt end.
(** The bytes go behind the header of the new copy. *)
Definition fill_copy (c : nat) (bs : list Z) : MM unit :=
  x <- copy_get c ;;
  if Z.of_nat (length bs) <=? c_room x then modify (fun s => s <| copies ::= <[c := x <| c_data := bs |>]> |>)
  else panic "write beyond the copy".
Definition vm_map_copyin_common (src_map : nat) (src_addr len : Z) (src_destroy : bool) : MM (Z * option nat) :=
  ok <- os (malloc (u64 (copy_header + len))) ;;
  if negb (ok : bool) then ret (KERN_RESOURCE_SHORTAGE, None)
  else
    c <- (fun s => let c := fresh (dom (copies s)) in
                   Ret c (s <| copies ::= <[c := mk_copy len (u64 (copy_header + len) - copy_header) []]> |>)) ;;
    r <- copyinmap src_map src_addr len ;;
    match r with
    | None => free_copy c ;;; ret (KERN_FAILURE, None)
    | Some bs =>
        fill_copy c bs ;;;
        (if src_destroy then
           vm_map_remove src_map (vm_map_trunc_page src_addr VM_MAP_PAGE_MASK)
             (vm_map_round_page (u64 (src_addr + len)) VM_MAP_PAGE_MASK) ;;; ret tt
         else ret tt) ;;;
        ret (KERN_SUCCESS, Some c)
    end.
Definition vm_map_copyin (src_map : nat) (src_addr len : Z) (src_destroy : bool) := vm_map_copyin_common src_map src_addr len src_destroy.

(** The allocation of [vm_map_copyout_kernel_buffer]; [None]: shortage. *)
Definition copyout_allocate (m : nat) (copy_size : Z) : MM (option Z) :=
  if (m =? kernel_map)%nat then os (mmap_anonymous copy_size)
  else
    t <- task_of m ;;
    a <- os (task_allocate_pages t (dtape_byte_count_to_page_count_round_up copy_size) (Z.lor PROT_READ PROT_WRITE) 0 0) ;;
    ret (if a =? 0 then None else Some a).
(** Returns the code and [*addr].  On shortage [*addr] holds what the allocation
    gave: 0, or [MAP_FAILED] in the kernel's map. *)
Definition vm_map_copyout_kernel_buffer (m : nat) (addr : Z) (c : nat) (copy_size : Z) (overwrite consume_on_success : bool) : MM (Z * Z) :=
  a <- (if overwrite then ret (Some addr) else copyout_allocate m copy_size) ;;
  match a with
  | None => ret (KERN_RESOURCE_SHORTAGE, if (m =? kernel_map)%nat then 2 ^ 64 - 1 else 0)
  | Some addr =>
      x <- copy_get c ;;
      if Z.of_nat (length (c_data x)) <? copy_size then panic "read beyond the copy"
      else
        kr <- copyoutmap m (take (Z.to_nat copy_size) (c_data x)) addr ;;
        if negb (kr =? KERN_SUCCESS) then
          if overwrite then ret (KERN_INVALID_ADDRESS, addr)
          else
            vm_map_remove m (vm_map_trunc_page addr VM_MAP_PAGE_MASK)
              (vm_map_round_page (u64 (addr + vm_map_round_page copy_size VM_MAP_PAGE_MASK)) VM_MAP_PAGE_MASK) ;;;
            ret (KERN_INVALID_ADDRESS, 0)
        else
          when consume_on_success (free_copy c) ;;;
          ret (KERN_SUCCESS, addr)
  end.
Definition vm_map_copy_overwrite (dst_map : nat) (dst_addr : Z) (copy : option nat) (copy_size : Z) : MM Z :=
  match copy with
  | None => ret KERN_SUCCESS
  | Some c =>
      x <- copy_get c ;;
      r <- vm_map_copyout_kernel_buffer dst_map dst_addr c (c_size x) true true ;;
      ret (fst r)
  end.
Definition vm_map_copyout_size (dst_map : nat) (dst_addr : Z) (copy : option nat) (copy_size : Z) : MM (Z * Z) :=
  match copy with
  | None => ret (KERN_SUCCESS, 0)
  | Some c =>
      x <- copy_get c ;;
      if negb (c_size x =? copy_size) then ret (KERN_FAILURE, 0)
      else vm_map_copyout_kernel_buffer dst_map dst_addr c copy_size false true
  end.
Definition vm_map_copyout (dst_map : nat) (dst_addr : Z) (copy : option nat) : MM (Z * Z) :=
  size <- (match copy with Some c => x <- copy_get c ;; ret (c_size x) | None => ret 0 end) ;;
  vm_map_copyout_size dst_map dst_addr copy size.
Definition vm_map_copy_validate_size (copy : option nat) (size : Z) : MM bool :=
  match copy with
  | None => ret false
  | Some c => x <- copy_get c ;; ret (size =? c_size x)
  end.

(** ** Allocation *)
Definition kernel_memory_allocate (size : Z) : MM (Z * option Z) :=
  r <- os (mmap_anonymous size) ;;
  ret match r with Some a => (KERN_SUCCESS, Some a) | None => (KERN_FAILURE, None) end.
(** [munmap(...) == 0] as the return code. *)
Definition vm_deallocate (start size : Z) : MM Z :=
  ok <- os (munmap start size) ;; ret (if ok : bool then 1 else 0).
Definition kmem_alloc := kernel_memory_allocate.
Definition kmem_free (addr size : Z) : MM unit := vm_deallocate addr size ;;; ret tt.
Definition mach_vm_allocate_kernel (m : nat) (size : Z) : MM (Z * option Z) :=
  if (m =? kernel_map)%nat then kernel_memory_allocate size
  else
    t <- task_of m ;;
    a <- os (task_allocate_pages t (dtape_byte_count_to_page_count_round_up size) (Z.lor PROT_READ PROT_WRITE) 0 0) ;;
    ret (if a =? 0 then (KERN_RESOURCE_SHORTAGE, None) else (KERN_SUCCESS, Some a)).
Definition vm_allocate_kernel := mach_vm_allocate_kernel.
(** A caller may give VM_MAP_NULL; a call that does not look follows it. *)
Definition deref (map : option nat) : MM nat :=
  match map with Some m => ret m | None => panic "VM_MAP_NULL" end.
Definition mach_vm_allocate_external (map : option nat) (size : Z) : MM (Z * option Z) :=
  m <- deref map ;; mach_vm_allocate_kernel m size.
Definition mach_vm_deallocate (map : option nat) (start size : Z) : MM Z :=
  match map with
  | None => ret KERN_INVALID_ARGUMENT
  | Some m =>
      if u64 (start + size) <? start then ret KERN_INVALID_ARGUMENT
      else if size =? 0 then ret KERN_SUCCESS
      else vm_map_remove m (vm_map_trunc_page start VM_MAP_PAGE_MASK) (vm_map_round_page (u64 (start + size)) VM_MAP_PAGE_MASK)
  end.
(** [vm_map_wire_kernel] and [vm_map_unwire] are safe stubs. *)
Definition vm_wire (host_priv : bool) (map : option nat) (start size access : Z) : MM Z :=
  if negb host_priv then ret KERN_INVALID_HOST
  else match map with
  | None => ret KERN_INVALID_TASK
  | Some _ =>
      if negb (clr access VM_PROT_ALL =? 0) || (u64 (start + size) <? start) then ret KERN_INVALID_ARGUMENT
      else ret KERN_SUCCESS
  end.
(** ** Reading, writing and copying between processes *)
Definition mach_vm_copy (map : option nat) (source_address size dest_address : Z) : MM Z :=
  match map with
  | None => ret KERN_INVALID_ARGUMENT
  | Some m =>
      r <- vm_map_copyin m source_address size false ;;
      let '(kr, copy) := r in
      if kr =? KERN_SUCCESS then
        kr <- vm_map_copy_overwrite m dest_address copy size ;;
        (if negb (kr =? KERN_SUCCESS) then vm_map_copy_discard copy else ret tt) ;;;
        ret kr
      else ret kr
  end.
(** The caller of [mach_vm_read] owns the copy it returns. *)
Definition mach_vm_read (map : option nat) (addr size : Z) : MM (Z * option nat) :=
  match map with
  | None => ret (KERN_INVALID_ARGUMENT, None)
  | Some m =>
      if negb (u32 size =? size) then ret (KERN_INVALID_ARGUMENT, None)
      else vm_map_copyin m addr size false
  end.
Definition mach_vm_read_overwrite (current_map : nat) (map : option nat) (address size data : Z) : MM (Z * option Z) :=
  match map with
  | None => ret (KERN_INVALID_ARGUMENT, None)
  | Some m =>
      r <- vm_map_copyin m address size false ;;
      let '(kr, copy) := r in
      if kr =? KERN_SUCCESS then
        kr <- vm_map_copy_overwrite current_map data copy size ;;
        if kr =? KERN_SUCCESS then ret (kr, Some size)
        else vm_map_copy_discard copy ;;; ret (kr, None)
      else ret (kr, None)
  end.
Definition mach_vm_write (map : option nat) (address : Z) (data : option nat) (size : Z) : MM Z :=
  match map with
  | None => ret KERN_INVALID_ARGUMENT
  | Some m => vm_map_copy_overwrite m address data size
  end.

(** ** Protection, synchronisation and regions *)
Definition mach_vm_msync (map : option nat) (address size sync_flags : Z) : MM Z :=
  let linux_flags := Z.lor (if has sync_flags 1 then 1 else 0) (Z.lor (if has sync_flags 2 then 4 else 0) (if has sync_flags 4 then 2 else 0)) in
  m <- deref map ;;
  t <- task_of m ;;
  ok <- os (task_sync_memory t address size linux_flags) ;;
  ret (if ok : bool then KERN_SUCCESS else KERN_FAILURE).
(** Each of the three protections, from one set of bits to another. *)
Definition translate (prot r w x r' w' x' : Z) : Z :=
  Z.lor (if has prot r then r' else 0) (Z.lor (if has prot w then w' else 0) (if has prot x then x' else 0)).
Definition mach_vm_protect (map : option nat) (start size new_protection : Z) : MM Z :=
  end_memaddr <- mach_vm_round_page (u64 (start + size)) ;;
  let start_memaddr := mach_vm_trunc_page start in
  let protect_size := u64 (end_memaddr - start_memaddr) in
  let prot := translate new_protection VM_PROT_READ VM_PROT_WRITE VM_PROT_EXECUTE PROT_READ PROT_WRITE PROT_EXEC in
  m <- deref map ;;
  t <- task_of m ;;
  ok <- os (task_change_protection t start_memaddr (dtape_byte_count_to_page_count_round_up protect_size) prot) ;;
  ret (if ok : bool then KERN_SUCCESS else KERN_FAILURE).

(** The region at an address, or else the next one. *)
Definition region_at_or_after (t : nat) (address : Z) : MM (Z + dtape_memory_region_info) :=
  i <- asks (task_get_memory_region_info t address) ;;
  match i with
  | Some i => ret (inr i)
  | None =>
      next <- asks (task_get_next_region t address) ;;
      if next =? 0 then ret (inl KERN_NO_SPACE)
      else
        i <- asks (task_get_memory_region_info t next) ;;
        match i with Some i => ret (inr i) | None => ret (inl KERN_FAILURE) end
  end.
(** The protection, offset and sharing that are reported; the other fields of the
    structures are constant. *)
Record vm_region_info := mk_info { i_protection : Z; i_offset : Z; i_shared : bool }.
(** What is executable is reported as readable and executable, and nothing else. *)
Definition basic_info (i : dtape_memory_region_info) (wide : bool) : vm_region_info :=
  mk_info (if has (r_protection i) dtape_memory_protection_execute then Z.lor VM_PROT_EXECUTE VM_PROT_READ
           else Z.lor (if has (r_protection i) dtape_memory_protection_read then VM_PROT_READ else 0)
                      (if has (r_protection i) dtape_memory_protection_write then VM_PROT_WRITE else 0))
    (if wide then map_offset i else u32 (map_offset i)) (r_shared i).
(** Returns the code, the new [*address] and [*size] if they are set, and the
    information with the new [*count] if it is. *)
Definition mach_vm_region (map : option nat) (address flavor count : Z) : MM (Z * option (Z * Z) * option (vm_region_info * Z)) :=
  if (flavor =? VM_REGION_BASIC_INFO) || (flavor =? VM_REGION_BASIC_INFO_64) then
    m <- deref map ;;
    t <- task_of m ;;
    r <- region_at_or_after t address ;;
    match r with
    | inl kr => ret (kr, None, None)
    | inr i =>
        let wide := flavor =? VM_REGION_BASIC_INFO_64 in
        let n := if wide then VM_REGION_BASIC_INFO_COUNT_64 else VM_REGION_BASIC_INFO_COUNT in
        let where_ := Some (start_address i, u64 (page_count i * pagesize)) in
        if count <? n then ret (KERN_INVALID_ARGUMENT, where_, None)
        else ret (KERN_SUCCESS, where_, Some (basic_info i wide, n))
    end
  else panic "Unimplemented flavor".
(** A count other than the supported one is answered with [KERN_SUCCESS] and
    without information. *)
Definition mach_vm_region_recurse (map : option nat) (address infoCnt : Z) : MM (Z * option (Z * Z) * option vm_region_info) :=
  m <- deref map ;;
  t <- task_of m ;;
  r <- region_at_or_after t address ;;
  match r with
  | inl kr => ret (kr, None, None)
  | inr i =>
      let where_ := Some (start_address i, u64 (page_count i * pagesize)) in
      ret (KERN_SUCCESS, where_,
           if infoCnt =? VM_REGION_SUBMAP_SHORT_INFO_COUNT_64 then
             Some (mk_info (translate (r_protection i) dtape_memory_protection_read dtape_memory_protection_write
                              dtape_memory_protection_execute VM_PROT_READ VM_PROT_WRITE VM_PROT_EXECUTE)
                     (map_offset i) (r_shared i))
           else None)
  end.

(** ** Remapping *)

(** The locals that [out:] of [mach_vm_remap_external_shared] looks at. *)
Record locals := mk_locals {
  l_mapped : option Z; l_descriptor : option nat; l_src : option nat; l_target : option nat; l_memfd : option Z }.
Definition remap_out (map_size : Z) (l : locals) : MM unit :=
  match l_mapped l with
  | Some a =>
      ok <- os (munmap a map_size) ;;
      if ok : bool then modify (fun s => s <| file_mappings ::= unlink (a, map_size) |>)
      else modify (fun s => s <| unmap_errors ::= cons (a, map_size) |>)
  | None => ret tt
  end ;;;
  match l_descriptor l with Some d => dtape_map_shared_descriptor_release d | None => ret tt end ;;;
  match l_src l with Some e => dtape_map_shared_entry_destroy e | None => ret tt end ;;;
  match l_target l with Some e => dtape_map_shared_entry_destroy e | None => ret tt end ;;;
  match l_memfd l with Some fd => close fd | None => ret tt end.

(** The hook, and what is recorded of it. *)
Definition map_file (t : nat) (fd pages prot address_hint page_offset flags : Z) : MM Z :=
  a <- os (task_map_file t fd pages prot address_hint page_offset flags) ;;
  modify (fun s => s <| map_file_calls ::= cons (t, fd, pages, a) |>) ;;;
  ret a.
(** From [memfd_create] to [src_setup_done]: a new descriptor whose file replaces
    the pages of the source; what is copied to [mapped_addr] is in the file.  A code other than [KERN_SUCCESS] is a [goto out]. *)
Definition source_setup (src_map : nat) (start_memaddr map_size prot : Z) : MM (Z * locals) :=
  r <- (fun s => os (memfd_create (dom (files s))) s) ;;
  match r with
  | None => ret (KERN_RESOURCE_SHORTAGE, mk_locals None None None None None)
  | Some fd =>
      modify (fun s => s <| files ::= <[fd := []]> |>) ;;;
      ok <- os (ftruncate fd map_size) ;;
      if negb (ok : bool) then ret (KERN_RESOURCE_SHORTAGE, mk_locals None None None None (Some fd))
      else
        modify (fun s => s <| files ::= <[fd := replicate (Z.to_nat map_size) 0]> |>) ;;;
        r <- os (mmap_file fd map_size) ;;
        match r with
        | None => ret (KERN_RESOURCE_SHORTAGE, mk_locals None None None None (Some fd))
        | Some mapped =>
            modify (fun s => s <| file_mappings ::= cons (mapped, map_size) |>) ;;;
            d <- dtape_map_shared_descriptor_create fd map_size ;;
            match d with
            | None => ret (KERN_RESOURCE_SHORTAGE, mk_locals (Some mapped) None None None (Some fd))
            | Some d =>
                let l := mk_locals (Some mapped) (Some d) None None None in
                bs <- copyinmap src_map start_memaddr map_size ;;
                match bs with
                | None => ret (KERN_FAILURE, l)
                | Some bs =>
                    modify (fun s => s <| files ::= <[fd := bs]> |>) ;;;
                    t <- task_of src_map ;;
                    a <- map_file t fd (dtape_byte_count_to_page_count_round_up map_size) prot start_memaddr 0
                           (Z.lor dtape_memory_flag_fixed dtape_memory_flag_overwrite) ;;
                    if negb (a =? start_memaddr) then ret (KERN_FAILURE, l)
                    else
                      e <- dtape_map_shared_entry_create start_memaddr map_size 0 d ;;
                      match e with
                      | None => ret (KERN_RESOURCE_SHORTAGE, l)
                      | Some e => dtape_map_insert_shared_entry src_map e ;;; ret (KERN_SUCCESS, l)
                      end
                end
            end
        end
  end.
(** From [src_setup_done] to [out]: the code and the address in the target. *)
Definition target_setup (target_map : nat) (d : nat) (map_size prot : Z) : MM (Z * Z) :=
  x <- descriptor_get d ;;
  t <- task_of target_map ;;
  a <- map_file t (memfd x) (dtape_byte_count_to_page_count_round_up map_size) prot 0 0 0 ;;
  if a =? 0 then ret (KERN_FAILURE, 0)
  else
    e <- dtape_map_shared_entry_create a map_size 0 d ;;
    match e with
    | None => ret (KERN_RESOURCE_SHORTAGE, 0)
    | Some e => dtape_map_insert_shared_entry target_map e ;;; ret (KERN_SUCCESS, a)
    end.
Definition remap_shared_with (target_map : option nat) (flags memory_address start_memaddr map_size prot vm_prot : Z) (setup : Z * locals) : MM (Z * option (Z * Z * Z)) :=
  let '(kr, l) := setup in
  if negb (kr =? KERN_SUCCESS) then remap_out map_size l ;;; ret (kr, None)
  else
    match l_descriptor l with
    | None => panic "NULL descriptor"
    | Some d =>
        target <- deref target_map ;;
        r <- target_setup target d map_size prot ;;
        remap_out map_size l ;;;
        let '(kr, a) := r in
        if negb (kr =? KERN_SUCCESS) then ret (kr, None)
        else
          let address := if has flags VM_FLAGS_RETURN_DATA_ADDR then u64 (a + (memory_address - start_memaddr)) else a in
          ret (KERN_SUCCESS, Some (address, vm_prot, VM_PROT_ALL))
    end.
(** Returns the code and, on success, [*address], [*cur_protection] and
    [*max_protection]. *)
Definition mach_vm_remap_external_shared (target_map : option nat) (size flags : Z) (src_map : option nat) (memory_address : Z)
    : MM (Z * option (Z * Z * Z)) :=
  end_memaddr <- mach_vm_round_page (u64 (memory_address + size)) ;;
  let start_memaddr := mach_vm_trunc_page memory_address in
  let map_size := u64 (end_memaddr - start_memaddr) in
  src <- deref src_map ;;
  t <- task_of src ;;
  i <- asks (task_get_memory_region_info t memory_address) ;;
  match i with
  | None => ret (KERN_FAILURE, None)
  | Some i =>
      let prot := translate (r_protection i) dtape_memory_protection_read dtape_memory_protection_write dtape_memory_protection_execute
                    PROT_READ PROT_WRITE PROT_EXEC in
      let vm_prot := translate (r_protection i) dtape_memory_protection_read dtape_memory_protection_write dtape_memory_protection_execute
                       VM_PROT_READ VM_PROT_WRITE VM_PROT_EXECUTE in
      found <- dtape_map_find_shared_entries_locked src start_memaddr map_size 8 ;;
      setup <-
        match found with
        | [] => source_setup src start_memaddr map_size prot
        | [e] =>
            x <- entry_get e ;;
            if (e_address x =? start_memaddr) && (e_size x >=? map_size) then
              dtape_map_shared_descriptor_retain (e_descriptor x) ;;;
              ret (KERN_SUCCESS, mk_locals None (Some (e_descriptor x)) None None None)
            else panic "Cannot complexly remap existing shared regions yet"
        | _ => panic "Cannot complexly remap existing shared regions yet"
        end ;;
      remap_shared_with target_map flags memory_address start_memaddr map_size prot vm_prot setup
  end.

Definition mach_vm_remap_external (target_map : option nat) (address size flags : Z) (src_map : option nat) (memory_address : Z) (copy : bool)
    : MM (Z * option (Z * Z * Z)) :=
  if negb copy then mach_vm_remap_external_shared target_map size flags src_map memory_address
  else
    src <- deref src_map ;;
    r <- vm_map_copyin src memory_address size false ;;
    let '(kr, mem_copy) := r in
    if negb (kr =? KERN_SUCCESS) then vm_map_copy_discard mem_copy ;;; ret (kr, None)
    else
      let anywhere := has flags VM_FLAGS_ANYWHERE in
      let memflags := Z.lor (if anywhere then 0 else dtape_memory_flag_fixed)
                            (if has flags VM_FLAGS_OVERWRITE then dtape_memory_flag_overwrite else 0) in
      let prot := Z.lor (Z.lor PROT_READ PROT_WRITE) PROT_EXEC in
      target <- deref target_map ;;
      t <- task_of target ;;
      addr <- os (task_allocate_pages t (dtape_byte_count_to_page_count_round_up size) prot (if anywhere then 0 else address) memflags) ;;
      if addr =? 0 then vm_map_copy_discard mem_copy ;;; ret (KERN_RESOURCE_SHORTAGE, None)
      else
        n <- match mem_copy with Some c => x <- copy_get c ;; ret (c_size x) | None => panic "NULL copy" end ;;
        kr <- vm_map_copy_overwrite target addr mem_copy n ;;
        if negb (kr =? KERN_SUCCESS) then
          vm_map_copy_discard mem_copy ;;;
          os (task_free_pages t addr (dtape_byte_count_to_page_count_round_up size)) ;;;
          ret (kr, None)
        else ret (KERN_SUCCESS, Some (addr, Z.lor VM_PROT_READ VM_PROT_WRITE, VM_PROT_ALL)).

(** [convert] is what the conversion of the port gives, for reading or not: a
    map with a reference. *)
Definition mach_vm_remap_new_external (target_map : option nat) (address size flags : Z) (convert : bool -> option nat) (memory_address : Z)
    (copy : bool) (cur_protection max_protection : Z) : MM (Z * option (Z * Z * Z)) :=
  let flags := Z.lor flags VM_FLAGS_RETURN_DATA_ADDR in
  if negb (clr flags VM_FLAGS_USER_REMAP =? 0) then ret (KERN_INVALID_ARGUMENT, None)
  else match target_map with
  | None => ret (KERN_INVALID_ARGUMENT, None)
  | Some _ =>
      if negb (clr cur_protection VM_PROT_ALL =? 0) || negb (clr max_protection VM_PROT_ALL =? 0) ||
         negb (Z.land cur_protection max_protection =? cur_protection)
      then ret (KERN_INVALID_ARGUMENT, None)
      else if Z.land max_protection (Z.lor VM_PROT_WRITE VM_PROT_EXECUTE) =? Z.lor VM_PROT_WRITE VM_PROT_EXECUTE
      then ret (KERN_PROTECTION_FAILURE, None)
      else
        match convert (copy || (max_protection =? VM_PROT_READ) || (max_protection =? VM_PROT_NONE)) with
        | None => ret (KERN_INVALID_ARGUMENT, None)
        | Some src =>
            vm_map_reference src ;;;
            r <- mach_vm_remap_external target_map address size flags (Some src) memory_address copy ;;
            vm_map_deallocate src ;;;
            ret r
        end
  end.
End Ops.
End Memory.
