(* ===== verification/MemoryProps.v ===== *)
(** The account of shared memory: every descriptor counts the entries that use it,
    every open file belongs to a descriptor, and every copy to a caller. *)
From stdpp Require Import sorting.
From S2P Require Import Prelude Memory.

Module MemoryProps.
Import Memory.

(** What is assumed of the outside: reading gives the bytes that were asked for,
    which an address space can hold, and a new file has a number of its own. *)
Class OSLaws (W : Type) `{OS W} : Prop := {
  read_length : forall t a n w bs, task_read_memory t a n w = Some bs -> Z.of_nat (length bs) = n /\ n < 2 ^ 47;
  memfd_fresh : forall fds w fd w', memfd_create fds w = (Some fd, w') -> fd ∉ fds;
}.

Section Account.
Context {W : Type} `{!OS W} (page_shift : Z) (kernel_map : nat).
Notation st := (mst W).
Implicit Types (s : st) (d e : nat) (own : list nat) (loose : gset Z) (mapped : list (Z * Z)).

(** The entries that use a descriptor, and the references held in local variables. *)
Definition uses (d : nat) (s : st) : Z := Z.of_nat (size (filter (fun kv : nat * dtape_map_shared_entry => e_descriptor kv.2 = d) (entries s))).
Definition held (d : nat) (own : list nat) : Z := Z.of_nat (length (filter (eq d) own)).
Definition below (s : st) (e e' : nat) : Prop :=
  forall x y, entries s !! e = Some x -> entries s !! e' = Some y -> e_address x < e_address y.

(** [own]: the descriptor references, [loose]: the files, [mapped]: the file
    mappings that a running call holds. *)
Record acct (own : list nat) (loose : gset Z) (mapped : list (Z * Z)) (s : st) : Prop := {
  a_mapped : file_mappings s = mapped ++ unmap_errors s;
  a_refs : forall d x, descriptors s !! d = Some x -> refcount x = uses d s + held d own /\ 0 < refcount x;
  a_own : forall d, d ∈ own -> is_Some (descriptors s !! d);
  a_ent : forall e x, entries s !! e = Some x -> is_Some (descriptors s !! e_descriptor x);
  a_fd : forall d x, descriptors s !! d = Some x -> is_Some (files s !! memfd x) /\ memfd x ∉ loose;
  a_inj : forall d d' x x', descriptors s !! d = Some x -> descriptors s !! d' = Some x' -> memfd x = memfd x' -> d = d';
  a_files : forall fd, is_Some (files s !! fd) -> fd ∈ loose \/ exists d x, descriptors s !! d = Some x /\ memfd x = fd;
  a_loose : forall fd, fd ∈ loose -> is_Some (files s !! fd);
  a_live : forall m k e, maps s !! m = Some k -> e ∈ shared_entries k -> is_Some (entries s !! e);
  a_sorted : forall m k, maps s !! m = Some k -> NoDup (shared_entries k) /\ StronglySorted (below s) (shared_entries k);
  a_one : forall m m' k k' e, maps s !! m = Some k -> maps s !! m' = Some k' -> e ∈ shared_entries k -> e ∈ shared_entries k' -> m = m';
}.

(** The parts of the state the account is about. *)
Definition same_shared (s s' : st) : Prop :=
  maps s' = maps s /\ descriptors s' = descriptors s /\ entries s' = entries s /\ files s' = files s /\ file_mappings s' = file_mappings s /\
  unmap_errors s' = unmap_errors s.
#[global] Instance same_shared_refl : Reflexive same_shared.
Proof. by intros s. Qed.
#[global] Instance same_shared_trans : Transitive same_shared.
Proof. intros s s1 s2 (? & ? & ? & ? & ? & ?) (? & ? & ? & ? & ? & ?). repeat split; congruence. Qed.
Lemma acct_same own loose mapped s s' : same_shared s s' -> acct own loose mapped s -> acct own loose mapped s'.
Proof.
  intros (Em & Ed & Ee & Ef & Ep & Eu) []. constructor; unfold uses, below in *; rewrite ?Em, ?Ed, ?Ee, ?Ef, ?Ep, ?Eu; try done.
Qed.

(** ** Counting *)
Lemma held_nil d : held d [] = 0.
Proof. reflexivity. Qed.
Lemma held_cons d d' own : held d (d' :: own) = held d own + (if decide (d = d') then 1 else 0).
Proof. unfold held. rewrite filter_cons. destruct (decide (d = d')); cbn; lia. Qed.
Lemma held_pos d own : d ∈ own -> 0 < held d own.
Proof.
  intros Hd. unfold held. assert (d ∈ filter (eq d) own) as Hf by (by apply list_elem_of_filter).
  destruct (filter (eq d) own); [by apply elem_of_nil in Hf|cbn; lia].
Qed.
Lemma held_nonneg d own : 0 <= held d own.
Proof. unfold held. lia. Qed.
Lemma uses_nonneg d s : 0 <= uses d s.
Proof. unfold uses. lia. Qed.
Lemma uses_pos d s e x : entries s !! e = Some x -> e_descriptor x = d -> 0 < uses d s.
Proof.
  intros E Hd. unfold uses. enough (size (filter (fun kv : nat * dtape_map_shared_entry => e_descriptor kv.2 = d) (entries s)) <> 0%nat) by lia.
  apply (map_size_ne_0_lookup_2 _ e). exists x. by apply map_lookup_filter_Some_2.
Qed.
(** Entries come and go one at a time. *)
Lemma uses_insert s e x d : entries s !! e = None ->
  uses d (s <| entries ::= <[e := x]> |>) = uses d s + (if decide (e_descriptor x = d) then 1 else 0).
Proof.
  intros E. unfold uses. cbn. destruct (decide (e_descriptor x = d)) as [Hd|Hd].
  - rewrite map_filter_insert_True by done. rewrite map_size_insert_None; [lia|]. apply map_lookup_filter_None. by left.
  - rewrite map_filter_insert_False by done. rewrite delete_id by done. lia.
Qed.
Lemma uses_delete s e x d : entries s !! e = Some x ->
  uses d (s <| entries ::= delete e |>) = uses d s - (if decide (e_descriptor x = d) then 1 else 0).
Proof.
  intros E. unfold uses. cbn. rewrite map_filter_delete. destruct (decide (e_descriptor x = d)) as [Hd|Hd].
  - assert (filter (fun kv : nat * dtape_map_shared_entry => e_descriptor kv.2 = d) (entries s) !! e = Some x) as Ef
      by (by apply map_lookup_filter_Some_2).
    rewrite map_size_delete, Ef. cbn. assert (size (filter (fun kv : nat * dtape_map_shared_entry => e_descriptor kv.2 = d) (entries s)) <> 0%nat).
    { apply (map_size_ne_0_lookup_2 _ e). by exists x. } lia.
  - rewrite delete_id; [lia|]. apply map_lookup_filter_None. right. intros y Ey. cbn. congruence.
Qed.
(** ** Rules of the primitives *)
Lemma wp_os {A} (f : W -> A * W) (Q : A -> st -> Prop) s :
  (forall a w, f (world s) = (a, w) -> Q a (s <| world := w |>)) -> wp (os f) Q s.
Proof. intros HQ. unfold wp, os. destruct (f (world s)) as [a w] eqn:E. by apply HQ. Qed.
Lemma wp_map_get m k (Q : dtape_map -> st -> Prop) s : maps s !! m = Some k -> Q k s -> wp (map_get m) Q s.
Proof. intros E HQ. unfold wp, map_get. by rewrite E. Qed.
Lemma wp_task_of m k (Q : nat -> st -> Prop) s : maps s !! m = Some k -> Q (dtape_task k) s -> wp (task_of m) Q s.
Proof. intros E HQ. unfold task_of. wp_step. eapply wp_map_get; [done|]. by apply wp_ret. Qed.
Lemma wp_map_set m k f (Q : unit -> st -> Prop) s :
  maps s !! m = Some k -> Q tt (s <| maps := <[m := f k]> (maps s) |>) -> wp (map_set m f) Q s.
Proof. intros E HQ. unfold wp, map_set. by rewrite E. Qed.
Lemma wp_descriptor_get d x (Q : dtape_map_shared_descriptor -> st -> Prop) s :
  descriptors s !! d = Some x -> Q x s -> wp (descriptor_get d) Q s.
Proof. intros E HQ. unfold wp, descriptor_get. by rewrite E. Qed.
Lemma wp_entry_get e x (Q : dtape_map_shared_entry -> st -> Prop) s : entries s !! e = Some x -> Q x s -> wp (entry_get e) Q s.
Proof. intros E HQ. unfold wp, entry_get. by rewrite E. Qed.
Lemma wp_copy_get c x (Q : vm_map_copy -> st -> Prop) s : copies s !! c = Some x -> Q x s -> wp (copy_get c) Q s.
Proof. intros E HQ. unfold wp, copy_get. by rewrite E. Qed.
Lemma same_world s w : same_shared s (s <| world := w |>).
Proof. done. Qed.

(** A descriptor's count follows the references. *)
Lemma acct_descriptor own own' loose mapped s d x n :
  acct own loose mapped s -> descriptors s !! d = Some x ->
  n = uses d s + held d own' -> 0 < n ->
  (forall d', d' <> d -> held d' own' = held d' own) ->
  (forall d', d' ∈ own' -> d' = d \/ d' ∈ own) ->
  acct own' loose mapped (s <| descriptors ::= <[d := x <| refcount := n |>]> |>).
Proof.
  intros A E -> Hn Hne Hin. destruct A.
  assert (Hd : forall d' y, <[d := x <| refcount := uses d s + held d own' |>]> (descriptors s) !! d' = Some y ->
    exists y', descriptors s !! d' = Some y' /\ memfd y = memfd y' /\
      (d' = d /\ refcount y = uses d s + held d own' \/ d' <> d /\ y = y')).
  { intros d' y Ey. destruct (decide (d' = d)) as [->|Hdd].
    - rewrite lookup_insert_eq in Ey. injection Ey as <-. exists x. auto.
    - rewrite lookup_insert_ne in Ey by done. eauto 10. }
  assert (Hs : forall d', is_Some (descriptors s !! d') -> is_Some (<[d := x <| refcount := uses d s + held d own' |>]> (descriptors s) !! d')).
  { intros d'. destruct (decide (d' = d)) as [->|]; [by rewrite lookup_insert_eq|by rewrite lookup_insert_ne]. }
  constructor; cbn; try done.
  - intros d' y (y' & Ey' & _ & [[-> ->]|[? ->]])%Hd; [done|]. unfold uses in *. cbn. rewrite Hne by done. by apply a_refs0.
  - intros d' [->|?]%Hin; apply Hs; [by eexists|auto].
  - intros e y Ey. apply Hs. eauto.
  - intros d' y (y' & Ey' & -> & _)%Hd. eauto.
  - intros d1 d2 y1 y2 (z1 & E1 & -> & _)%Hd (z2 & E2 & -> & _)%Hd. eauto.
  - intros fd [?|(d' & y & Ey & <-)]%a_files0; [by left|]. right.
    destruct (decide (d' = d)) as [->|Hdd]; [exists d|exists d'].
    + eexists. split; [by rewrite lookup_insert_eq|]. cbn. congruence.
    + eexists. split; [by rewrite lookup_insert_ne|done].
Qed.
Lemma wp_retain own loose mapped s d :
  acct own loose mapped s -> is_Some (descriptors s !! d) ->
  wp (dtape_map_shared_descriptor_retain d) (fun _ s' => acct (d :: own) loose mapped s' /\
    maps s' = maps s /\ entries s' = entries s /\ copies s' = copies s /\ world s' = world s /\ files s' = files s /\
    map_file_calls s' = map_file_calls s /\
    (forall d' x, descriptors s !! d' = Some x -> exists x', descriptors s' !! d' = Some x' /\ memfd x' = memfd x)) s.
Proof.
  intros A [x E]. unfold dtape_map_shared_descriptor_retain. wp_step. eapply wp_descriptor_get; [done|]. wp_step.
  split_and!; [|done..|].
  - destruct (a_refs _ _ _ _ A _ _ E) as [Hr Hp]. replace (update Z.succ x) with (x <| refcount := uses d s + held d (d :: own) |>).
    + eapply acct_descriptor; [done..| | |].
      * rewrite held_cons. pose proof (uses_nonneg d s). pose proof (held_nonneg d own). destruct (decide _); [lia|done].
      * intros d' Hne. rewrite held_cons, decide_False by done. lia.
      * intros d' [?|?]%elem_of_cons; auto.
    + destruct x as [r fd sz]. cbn in *. unfold update. cbn. f_equal. rewrite held_cons, decide_True by done. lia.
  - intros d' y Ey. cbn. destruct (decide (d' = d)) as [->|]; [rewrite lookup_insert_eq|rewrite lookup_insert_ne by done; eauto].
    eexists. split; [done|]. cbn. congruence.
Qed.
(** The last reference closes the file. *)
Lemma acct_drop own loose mapped s d x :
  acct (d :: own) loose mapped s -> descriptors s !! d = Some x -> refcount x = 1 ->
  acct own loose mapped (s <| files ::= delete (memfd x) |> <| descriptors ::= delete d |>).
Proof.
  intros A E Hr. destruct A. destruct (a_refs0 _ _ E) as [Hc _]. rewrite held_cons, decide_True in Hc by done.
  pose proof (uses_nonneg d s). pose proof (held_nonneg d own).
  assert (Hown : d ∉ own) by (intros ?%held_pos; lia).
  assert (Huse : forall e y, entries s !! e = Some y -> e_descriptor y <> d) by (intros e y Ey Hy; pose proof (uses_pos d s e y Ey Hy); lia).
  assert (Hlive : forall d', is_Some (descriptors s !! d') -> d' <> d -> is_Some (delete d (descriptors s) !! d'))
    by (intros d' ? ?; by rewrite lookup_delete_ne).
  assert (Hdel : forall d' y, delete d (descriptors s) !! d' = Some y -> descriptors s !! d' = Some y /\ d' <> d)
    by (intros d' y [? ?]%lookup_delete_Some; auto).
  constructor; cbn; try done.
  - intros d' y [Ey Hne]%Hdel. destruct (a_refs0 _ _ Ey) as [Hy ?]. rewrite held_cons, decide_False in Hy by done.
    unfold uses in *. cbn. split; [lia|done].
  - intros d' Hd'. apply Hlive; [|congruence]. apply a_own0. by right.
  - intros e y Ey. apply Hlive; eauto.
  - intros d' y [Ey Hne]%Hdel. destruct (a_fd0 _ _ Ey) as [? ?]. split; [|done].
    rewrite lookup_delete_ne; [done|]. intros Hm. apply Hne. by eapply a_inj0.
  - intros d1 d2 y1 y2 [? ?]%Hdel [? ?]%Hdel. eauto.
  - intros fd [y [? Hfd]%lookup_delete_Some]. destruct (a_files0 fd) as [?|(d' & z & Ez & <-)]; [by eexists|by left|].
    right. exists d', z. split; [|done]. rewrite lookup_delete_ne; [done|]. congruence.
  - intros fd Hfd. rewrite lookup_delete_ne; [by auto|]. intros <-. by destruct (a_fd0 _ _ E) as [_ []].
Qed.
Lemma wp_release own loose mapped s d :
  acct (d :: own) loose mapped s ->
  wp (dtape_map_shared_descriptor_release d) (fun _ s' => acct own loose mapped s' /\
    maps s' = maps s /\ entries s' = entries s /\ copies s' = copies s /\ world s' = world s /\ map_file_calls s' = map_file_calls s /\
    (forall d' x, descriptors s' !! d' = Some x -> exists x', descriptors s !! d' = Some x' /\ memfd x = memfd x' /\
       files s' !! memfd x = files s !! memfd x)) s.
Proof.
  intros A. destruct (a_own _ _ _ _ A d) as [x E]; [left|].
  destruct (a_refs _ _ _ _ A _ _ E) as [Hr Hp]. rewrite held_cons, decide_True in Hr by done.
  pose proof (uses_nonneg d s). pose proof (held_nonneg d own).
  unfold dtape_map_shared_descriptor_release. wp_step. eapply wp_descriptor_get; [done|].
  destruct (Z.eqb_spec (refcount x - 1) 0) as [Hl|Hl]; cbn [negb].
  - unfold close. wp_step. wp_step. wp_step. split_and!; [apply acct_drop; [done..|lia]|done..|].
    intros d' y Ey. change (delete d (descriptors s) !! d' = Some y) in Ey. apply lookup_delete_Some in Ey as [Hne Ey]. cbn. exists y. split_and!; [done..|]. rewrite lookup_delete_ne; [done|].
    intros Hm. apply Hne. symmetry. eapply (a_inj _ _ _ _ A); [exact Ey|exact E|congruence].
  - wp_step. split_and!; [|done..|].
    + replace (update Z.pred x) with (x <| refcount := uses d s + held d own |>).
      * eapply acct_descriptor; [done..|lia| |].
        -- intros d' Hne. rewrite held_cons, decide_False by done. lia.
        -- intros d' Hd'. right. by right.
      * destruct x as [r fd sz]. cbn in *. unfold update. cbn. f_equal. lia.
    + intros d' y Ey. cbn in Ey. destruct (decide (d' = d)) as [->|Hne].
      * rewrite lookup_insert_eq in Ey. injection Ey as <-. exists x. done.
      * rewrite lookup_insert_ne in Ey by done. exists y. done.
Qed.
Lemma uses_0 d s : (forall e x, entries s !! e = Some x -> e_descriptor x <> d) -> uses d s = 0.
Proof.
  intros Hn. unfold uses. enough (filter (fun kv : nat * dtape_map_shared_entry => e_descriptor kv.2 = d) (entries s) = ∅) as ->
    by (by rewrite map_size_empty). apply map_empty. intros e. apply map_lookup_filter_None. right. intros x Ex. cbn. eauto.
Qed.
Lemma held_0 d own : d ∉ own -> held d own = 0.
Proof.
  intros Hn. unfold held. enough (filter (eq d) own = []) as -> by done. destruct (filter (eq d) own) as [|d' l] eqn:E; [done|].
  assert (d' ∈ filter (eq d) own) as [-> ?]%list_elem_of_filter by (rewrite E; left). done.
Qed.
Lemma acct_new_descriptor own loose mapped s fd size d :
  acct own loose mapped s -> fd ∈ loose -> descriptors s !! d = None ->
  acct (d :: own) (loose ∖ {[fd]}) mapped (s <| descriptors ::= <[d := mk_descriptor 1 fd size]> |>).
Proof.
  intros A Hfd E. destruct A.
  assert (Hd : forall d' y, <[d := mk_descriptor 1 fd size]> (descriptors s) !! d' = Some y ->
    d' = d /\ y = mk_descriptor 1 fd size \/ d' <> d /\ descriptors s !! d' = Some y).
  { intros d' y Ey. destruct (decide (d' = d)) as [->|]; [rewrite lookup_insert_eq in Ey|rewrite lookup_insert_ne in Ey by done]; [left|right]; by simplify_eq. }
  assert (Hs : forall d', is_Some (descriptors s !! d') -> is_Some (<[d := mk_descriptor 1 fd size]> (descriptors s) !! d')).
  { intros d' [y Ey]. rewrite lookup_insert_ne by congruence. by eexists. }
  constructor; cbn; try done.
  - intros d' y [[-> ->]|[Hne Ey]]%Hd; cbn [refcount].
    + rewrite held_cons, decide_True, held_0 by (done || intros [? ?]%a_own0; congruence).
      unfold uses. cbn. fold (uses d s). rewrite uses_0; [done|]. intros e x Ex Hx. destruct (a_ent0 _ _ Ex). congruence.
    + rewrite held_cons, decide_False by done. unfold uses. cbn. fold (uses d' s). destruct (a_refs0 _ _ Ey). split; [lia|done].
  - intros d' [->|?]%elem_of_cons; [rewrite lookup_insert_eq; by eexists|auto].
  - eauto.
  - intros d' y [[-> ->]|[Hne Ey]]%Hd; cbn; [split; [by apply a_loose0|]|]; [|destruct (a_fd0 _ _ Ey); split; [done|]];
      rewrite elem_of_difference; [rewrite elem_of_singleton|]; tauto.
  - intros d1 d2 y1 y2 [[-> ->]|[? E1]]%Hd [[-> ->]|[? E2]]%Hd; cbn; intros Hm; [done|..|by eauto];
      exfalso; [destruct (a_fd0 _ _ E2) as [_ Hl]|destruct (a_fd0 _ _ E1) as [_ Hl]]; apply Hl; congruence.
  - intros f [Hl|(d' & y & Ey & <-)]%a_files0.
    + destruct (decide (f = fd)) as [->|]; [right; exists d; eexists; split; [by rewrite lookup_insert_eq|done]|left].
      apply elem_of_difference. rewrite elem_of_singleton. done.
    + right. exists d', y. split; [|done]. rewrite lookup_insert_ne; [done|congruence].
  - intros f [? _]%elem_of_difference. auto.
Qed.
Lemma wp_descriptor_create own loose mapped s fd size (Q : option nat -> st -> Prop) :
  acct own loose mapped s -> fd ∈ loose ->
  (forall w, Q None (s <| world := w |>)) ->
  (forall s' d, acct (d :: own) (loose ∖ {[fd]}) mapped s' -> maps s' = maps s -> entries s' = entries s -> copies s' = copies s ->
     files s' = files s -> map_file_calls s' = map_file_calls s -> descriptors s' !! d = Some (mk_descriptor 1 fd size) -> Q (Some d) s') ->
  wp (dtape_map_shared_descriptor_create fd size) Q s.
Proof.
  intros A Hfd HN HS. unfold dtape_map_shared_descriptor_create. wp_step. apply wp_os. intros [] w _; cbn [negb]; [|apply wp_ret, HN].
  assert (acct own loose mapped (s <| world := w |>)) as A0 by (by apply (acct_same _ _ _ s)).
  unfold wp. cbn zeta.
  assert (descriptors s !! fresh (dom (descriptors s)) = None) as Ed by (apply not_elem_of_dom, is_fresh).
  eapply HS; [by apply acct_new_descriptor|done..|by apply lookup_insert_eq].
Qed.

(** An entry takes over a reference, and gives it back. *)
Lemma acct_entry_takes own loose mapped s e x :
  acct (e_descriptor x :: own) loose mapped s -> entries s !! e = None ->
  acct own loose mapped (s <| entries ::= <[e := x]> |>).
Proof.
  intros A E. destruct A.
  assert (Hout : forall m k, maps s !! m = Some k -> e ∉ shared_entries k) by (intros m k Em Hin; destruct (a_live0 _ _ _ Em Hin); congruence).
  constructor; cbn; try done.
  - intros d y Ey. destruct (a_refs0 _ _ Ey) as [Hr ?]. split; [|done]. rewrite uses_insert by done. rewrite Hr, held_cons.
    destruct (decide (d = e_descriptor x)), (decide (e_descriptor x = d)); congruence || lia.
  - intros d Hd. apply a_own0. by right.
  - intros e' y [[<- <-]|[_ Ey]]%lookup_insert_Some; [apply a_own0; left|eauto].
  - intros m k e' Em He'. rewrite lookup_insert_ne; [by eauto|]. intros <-. by apply (Hout _ _ Em).
  - intros m k Em. destruct (a_sorted0 _ _ Em) as [? Hs]. split; [done|]. specialize (Hout _ _ Em). eapply ssorted_mono; [|exact Hs].
    intros a b Ha Hb Hab y z. cbn. rewrite !lookup_insert_ne by congruence. apply Hab.
Qed.
Lemma acct_entry_gives own loose mapped s e x :
  acct own loose mapped s -> entries s !! e = Some x -> (forall m k, maps s !! m = Some k -> e ∉ shared_entries k) ->
  acct (e_descriptor x :: own) loose mapped (s <| entries ::= delete e |>).
Proof.
  intros A E Hout. destruct A. constructor; cbn; try done.
  - intros d y Ey. destruct (a_refs0 _ _ Ey) as [Hr ?]. split; [|done]. rewrite (uses_delete _ _ _ _ E), Hr, held_cons.
    destruct (decide (d = e_descriptor x)), (decide (e_descriptor x = d)); congruence || lia.
  - intros d [->|?]%elem_of_cons; eauto.
  - intros e' y [_ Ey]%lookup_delete_Some. eauto.
  - intros m k e' Em He'. rewrite lookup_delete_ne; [by eauto|]. intros <-. by apply (Hout _ _ Em).
  - intros m k Em. destruct (a_sorted0 _ _ Em) as [? Hs]. split; [done|]. eapply ssorted_mono; [|exact Hs].
    intros a b _ _ Hb y z. cbn. intros [_ ?]%lookup_delete_Some [_ ?]%lookup_delete_Some. by apply Hb.
Qed.
Lemma release_ignores_entries d f (Q : unit -> st -> Prop) s :
  wp (dtape_map_shared_descriptor_release d) Q (s <| entries ::= f |>) ->
  wp (dtape_map_shared_descriptor_release d) (fun a s' => Q a (s' <| entries ::= f |>)) s.
Proof.
  unfold dtape_map_shared_descriptor_release, wp, bind, descriptor_get, close, modify. cbn.
  destruct (descriptors s !! d) as [x|]; [|done]. by destruct (negb _).
Qed.
Lemma wp_entry_create own loose mapped s address size off d (Q : option nat -> st -> Prop) :
  acct own loose mapped s -> is_Some (descriptors s !! d) ->
  (forall w, Q None (s <| world := w |>)) ->
  (forall s' e, acct own loose mapped s' -> maps s' = maps s -> copies s' = copies s -> files s' = files s -> map_file_calls s' = map_file_calls s ->
     entries s !! e = None -> entries s' = <[e := mk_entry address size off d]> (entries s) ->
     (forall d' x, descriptors s !! d' = Some x -> exists x', descriptors s' !! d' = Some x' /\ memfd x' = memfd x) -> Q (Some e) s') ->
  wp (dtape_map_shared_entry_create address size off d) Q s.
Proof.
  intros A Hd HN HS. unfold dtape_map_shared_entry_create. wp_step. apply wp_os. intros [] w _; cbn [negb]; [|apply wp_ret, HN].
  assert (acct own loose mapped (s <| world := w |>)) as A0 by (by apply (acct_same _ _ _ s)).
  assert (entries s !! fresh (dom (entries s)) = None) as Ee by (apply not_elem_of_dom, is_fresh).
  pose proof (wp_retain _ _ _ _ d A0 Hd) as HR. wp_step. unfold wp at 1. cbn zeta. wp_step.
  unfold dtape_map_shared_descriptor_retain, wp, bind, descriptor_get, modify, ret in *. cbn in HR |- *.
  destruct (descriptors s !! d) as [x|] eqn:Ed; [|by destruct Hd]. destruct HR as (A1 & _ & _ & _ & _ & _ & _ & Hk).
  eapply HS; [|done..|exact Ee|reflexivity|exact Hk].
  apply (acct_entry_takes _ _ _ _ (fresh (dom (entries s))) (mk_entry address size off d) A1 Ee).
Qed.
Lemma wp_entry_destroy own loose mapped s e x :
  acct own loose mapped s -> entries s !! e = Some x -> (forall m k, maps s !! m = Some k -> e ∉ shared_entries k) ->
  wp (dtape_map_shared_entry_destroy e) (fun _ s' => acct own loose mapped s' /\
    maps s' = maps s /\ entries s' = delete e (entries s) /\ copies s' = copies s /\ world s' = world s) s.
Proof.
  intros A E Hout. unfold dtape_map_shared_entry_destroy. wp_step. eapply wp_entry_get; [done|]. wp_step.
  eapply wp_mono; [apply release_ignores_entries, (wp_release own loose mapped _ (e_descriptor x)); by apply acct_entry_gives|].
  intros [] s' (A' & Em & Ee & Ec & Ew & _ & _). wp_step. done.
Qed.
(** ** The tree of entries *)

(** [RB_INSERT] adds the entry in its place, unless its address is taken. *)
Definition inserted (s : st) (e : nat) (x : dtape_map_shared_entry) (l l' : list nat) : Prop :=
  StronglySorted (below s) l' /\
  (l' = l /\ (exists e' y, e' ∈ l /\ entries s !! e' = Some y /\ e_address y = e_address x) \/ l' ≡ₚ e :: l).
Lemma wp_rb_insert s e x l :
  entries s !! e = Some x -> StronglySorted (below s) l -> (forall e', e' ∈ l -> is_Some (entries s !! e')) ->
  wp (rb_insert e x l) (fun l' s' => s' = s /\ inserted s e x l l') s.
Proof.
  intros Ex Hs. induction Hs as [|e' l Hs IH Hl]; intros Hlive; cbn [rb_insert].
  { apply wp_ret. split; [done|]. split; [by repeat constructor|by right]. }
  destruct (Hlive e') as [y Ey]; [left|]. wp_step. eapply wp_entry_get; [done|].
  unfold dtape_map_shared_entry_compare. destruct (Z.ltb_spec (e_address x) (e_address y)) as [Hlt|Hge].
  { apply wp_ret. split; [done|]. split; [|by right]. constructor; [by constructor|]. constructor; [intros ? ? ? ?; simplify_eq; lia|].
    rewrite Forall_forall in Hl |- *. intros b Hb ? z ? Ez. simplify_eq. specialize (Hl b Hb _ _ Ey Ez). lia. }
  rewrite Z.gtb_ltb. destruct (Z.ltb_spec (e_address y) (e_address x)) as [Hlt|Hle].
  - wp_step. eapply wp_mono; [apply IH; intros b Hb; apply Hlive; by right|]. intros l' s' (-> & Hs' & Hl'). apply wp_ret. split; [done|].
    assert (Forall (below s e') l').
    { rewrite Forall_forall in Hl |- *. intros b Hb. destruct Hl' as [[-> _]|Hp]; [by apply Hl|].
      rewrite Hp in Hb. apply elem_of_cons in Hb as [->|Hb]; [|by apply Hl]. intros ? ? ? ?. by simplify_eq. }
    split; [by constructor|]. destruct Hl' as [[-> (b & z & ? & ? & ?)]|Hp].
    + left. split; [done|]. exists b, z. split; [by right|done].
    + right. rewrite Hp. constructor.
  - apply wp_ret. split; [done|]. split; [by constructor|]. left. split; [done|]. exists e', y. split; [left|]. split; [done|lia].
Qed.
(** The new state of a map that an entry was added to. *)
Lemma acct_insert own loose mapped s m k e x l' :
  acct own loose mapped s -> maps s !! m = Some k -> entries s !! e = Some x ->
  (forall m' k', maps s !! m' = Some k' -> e ∉ shared_entries k') ->
  inserted s e x (shared_entries k) l' ->
  acct own loose mapped (s <| maps := <[m := k <| shared_entries := l' |>]> (maps s) |>).
Proof.
  intros A Em Ex Hout [Hs Hl]. destruct A.
  assert (Hin : forall e', e' ∈ l' -> e' = e \/ e' ∈ shared_entries k).
  { intros e' He'. destruct Hl as [[-> _]|Hp]; [by right|]. rewrite Hp in He'. by apply elem_of_cons in He'. }
  assert (Hm : forall m' k', <[m := k <| shared_entries := l' |>]> (maps s) !! m' = Some k' ->
    m' = m /\ k' = k <| shared_entries := l' |> \/ m' <> m /\ maps s !! m' = Some k').
  { intros m' k' Ek. destruct (decide (m' = m)) as [->|]; [rewrite lookup_insert_eq in Ek|rewrite lookup_insert_ne in Ek by done]; [left|right]; by simplify_eq. }
  constructor; cbn; try done.
  - intros m' k' e' [[-> ->]|[_ Ek]]%Hm; [|by eauto]. cbn. intros [->|?]%Hin; [by eexists|eauto].
  - intros m' k' [[-> ->]|[_ Ek]]%Hm; cbn; [|exact (a_sorted0 _ _ Ek)]. split; [|done].
    destruct (a_sorted0 _ _ Em). destruct Hl as [[-> _]|Hp]; [done|]. rewrite Hp. constructor; [by apply (Hout _ _ Em)|done].
  - intros m1 m2 k1 k2 e' [[-> ->]|[? E1]]%Hm [[-> ->]|[? E2]]%Hm; cbn; intros H1 H2; [done| | |by eauto].
    + apply Hin in H1 as [->|H1]; [by apply (Hout _ _ E2) in H2|by eapply a_one0].
    + apply Hin in H2 as [->|H2]; [by apply (Hout _ _ E1) in H1|by eapply a_one0].
Qed.
Lemma wp_insert_shared_entry own loose mapped s m k e x :
  acct own loose mapped s -> maps s !! m = Some k -> entries s !! e = Some x ->
  (forall m' k', maps s !! m' = Some k' -> e ∉ shared_entries k') ->
  wp (dtape_map_insert_shared_entry m e) (fun _ s' => exists l', acct own loose mapped s' /\
    inserted s e x (shared_entries k) l' /\ s' = s <| maps := <[m := k <| shared_entries := l' |>]> (maps s) |>) s.
Proof.
  intros A Em Ex Hout. unfold dtape_map_insert_shared_entry, dtape_map_insert_shared_entry_locked.
  wp_step. eapply wp_map_get; [done|]. wp_step. eapply wp_entry_get; [done|].
  wp_step. eapply wp_mono; [apply wp_rb_insert; [done|by apply (a_sorted _ _ _ _ A _ _ Em)|intros; by eapply (a_live _ _ _ _ A)]|].
  intros l' s' [-> Hi]. eapply wp_map_set; [done|]. exists l'. split; [by eapply acct_insert|done].
Qed.
(** ** Looking entries up *)
Definition touches (s : st) (address size : Z) (e : nat) : Prop :=
  match entries s !! e with
  | Some x => address <= u64 (e_address x + e_size x) /\ e_address x <= u64 (address + size)
  | None => False
  end.
#[global] Instance touches_dec s address size e : Decision (touches s address size e).
Proof. unfold touches. destruct (entries s !! e); apply _. Defined.
Lemma wp_find_entries s address size l room :
  (0 < room)%nat -> (forall e, e ∈ l -> is_Some (entries s !! e)) ->
  wp (find_entries address size room l) (fun r s' => s' = s /\ r = take room (filter (touches s address size) l)) s.
Proof.
  revert room. induction l as [|e l IH]; intros room Hr Hlive; cbn [find_entries]; [apply wp_ret; by destruct room|].
  destruct (Hlive e) as [x Ex]; [left|]. wp_step. eapply wp_entry_get; [done|]. rewrite filter_cons.
  assert (Hl : forall e', e' ∈ l -> is_Some (entries s !! e')) by (intros; apply Hlive; by right).
  destruct ((_ <? _) || _) eqn:Ht.
  - rewrite decide_False; [by apply IH|]. unfold touches. rewrite Ex. rewrite orb_true_iff, Z.ltb_lt, Z.gtb_lt in Ht. lia.
  - rewrite decide_True by (unfold touches; rewrite Ex; rewrite orb_false_iff, Z.ltb_ge, Z.gtb_ltb, Z.ltb_ge in Ht; lia).
    destruct room as [|[|room]]; [lia|apply wp_ret; by rewrite firstn_cons, take_0|].
    wp_step. eapply wp_mono; [apply IH; [lia|done]|]. intros r s' [-> ->]. by apply wp_ret.
Qed.
Lemma wp_find own loose mapped s m k address size n :
  acct own loose mapped s -> maps s !! m = Some k ->
  wp (dtape_map_find_shared_entries_locked m address size n)
     (fun r s' => s' = s /\ r = take n (filter (touches s address size) (shared_entries k))) s.
Proof.
  intros A Em. unfold dtape_map_find_shared_entries_locked. destruct n; [by apply wp_ret|].
  wp_step. eapply wp_map_get; [done|]. apply wp_find_entries; [lia|]. intros. by eapply (a_live _ _ _ _ A).
Qed.

(** ** Setting up a shared region *)
Lemma acct_map own loose mapped x s :
  acct own loose mapped s -> acct own loose (x :: mapped) (s <| file_mappings ::= cons x |>).
Proof. intros []. constructor; try done. cbn. by rewrite a_mapped0. Qed.
Lemma acct_unmap own loose x s :
  acct own loose [x] s -> acct own loose [] (s <| file_mappings ::= unlink x |>).
Proof. intros []. constructor; try done. cbn. rewrite a_mapped0. apply unlink_head. Qed.
Lemma acct_still_mapped own loose x s :
  acct own loose [x] s -> acct own loose [] (s <| unmap_errors ::= cons x |>).
Proof. intros []. by constructor. Qed.
(** Opening, writing and closing a file of the running call. *)
Lemma acct_open own loose mapped s fd bs :
  acct own loose mapped s -> files s !! fd = None -> acct own (loose ∪ {[fd]}) mapped (s <| files ::= <[fd := bs]> |>).
Proof.
  intros A E. destruct A. constructor; cbn; try done.
  - intros d x Ex. destruct (a_fd0 _ _ Ex) as [[y Ey] Hl]. assert (memfd x <> fd) by congruence.
    split; [rewrite lookup_insert_ne by done; by eexists|]. rewrite elem_of_union, elem_of_singleton. tauto.
  - intros f [y Ey]. destruct (decide (f = fd)) as [->|]; [left; apply elem_of_union; right; by apply elem_of_singleton|].
    rewrite lookup_insert_ne in Ey by done. destruct (a_files0 f) as [?|?]; [by eexists|left; apply elem_of_union; by left|by right].
  - intros f [Hf|Hf%elem_of_singleton]%elem_of_union; [|rewrite Hf, lookup_insert_eq; by eexists].
    destruct (a_loose0 f Hf) as [y Ey]. rewrite lookup_insert_ne by congruence. by eexists.
Qed.
Lemma acct_rewrite own loose mapped s fd bs :
  acct own loose mapped s -> is_Some (files s !! fd) -> acct own loose mapped (s <| files ::= <[fd := bs]> |>).
Proof.
  intros A E. destruct A.
  assert (Hf : forall f, is_Some (<[fd := bs]> (files s) !! f) <-> is_Some (files s !! f)).
  { intros f. destruct (decide (f = fd)) as [->|]; [rewrite lookup_insert_eq; split; [done|by eexists]|by rewrite lookup_insert_ne]. }
  constructor; cbn; try done.
  - intros d x Ex. rewrite Hf. by apply a_fd0 in Ex.
  - intros f ?%Hf. auto.
  - intros f ?. apply Hf. auto.
Qed.
Lemma acct_close own loose mapped s fd :
  acct own loose mapped s -> fd ∈ loose -> acct own (loose ∖ {[fd]}) mapped (s <| files ::= delete fd |>).
Proof.
  intros A E. destruct A. constructor; cbn; try done.
  - intros d x Ex. destruct (a_fd0 _ _ Ex) as [? Hl]. split; [rewrite lookup_delete_ne; [done|congruence]|].
    rewrite elem_of_difference. tauto.
  - intros f [y [? Ey]%lookup_delete_Some]. destruct (a_files0 f) as [?|?]; [by eexists| |by right].
    left. apply elem_of_difference. rewrite elem_of_singleton. split; [done|congruence].
  - intros f [? Hf]%elem_of_difference. rewrite elem_of_singleton in Hf. rewrite lookup_delete_ne by congruence. auto.
Qed.
(** The state of a call that has not touched the entries yet. *)
Definition phase own loose mapped (s0 s : st) : Prop :=
  acct own loose mapped s /\ maps s = maps s0 /\ entries s = entries s0 /\ copies s = copies s0.
Lemma phase_world own loose mapped s0 s w : phase own loose mapped s0 s -> phase own loose mapped s0 (s <| world := w |>).
Proof. intros (A & ? & ? & ?). split; [by apply (acct_same _ _ _ s)|done]. Qed.
Lemma phase_call own loose mapped s0 s x : phase own loose mapped s0 s -> phase own loose mapped s0 (s <| map_file_calls ::= cons x |>).
Proof. intros (A & ? & ? & ?). split; [by apply (acct_same _ _ _ s)|done]. Qed.
Lemma wp_map_file t fd pages prot hint off flags s (Q : Z -> st -> Prop) :
  (forall a w, Q a (s <| world := w |> <| map_file_calls ::= cons (t, fd, pages, a) |>)) -> wp (map_file t fd pages prot hint off flags) Q s.
Proof. intros HQ. unfold map_file. wp_step. apply wp_os. intros a w _. do 2 wp_step. apply wp_ret, HQ. Qed.
(** Maps keep their entries, their task and their references. *)
Definition grows (s s' : st) : Prop :=
  copies s' = copies s /\
  (forall e x, entries s !! e = Some x -> entries s' !! e = Some x) /\
  (forall m k, maps s !! m = Some k -> exists k', maps s' !! m = Some k' /\ dtape_task k' = dtape_task k /\ map_refcnt k' = map_refcnt k /\
     forall e, e ∈ shared_entries k -> e ∈ shared_entries k').
Lemma phase_grows own loose mapped s0 s : phase own loose mapped s0 s -> grows s0 s.
Proof. intros (_ & Em & Ee & Ec). split_and!; [done|by rewrite Ee|]. rewrite Em. eauto. Qed.
#[global] Instance grows_trans : Transitive grows.
Proof.
  intros s s1 s2 (Ec & Ee & Em) (Ec' & Ee' & Em'). split_and!; [congruence|auto|].
  intros m k (k1 & E1 & ? & ? & ?)%Em. destruct (Em' _ _ E1) as (k2 & E2 & ? & ? & ?). exists k2. split_and!; [done|congruence..|auto].
Qed.

(** The resources that the locals stand for. *)
Definition locals_own (l : locals) : list nat := match l_descriptor l with Some d => [d] | None => [] end.
Definition locals_files (l : locals) : gset Z := match l_memfd l with Some fd => {[fd]} | None => ∅ end.
Definition locals_mapped (map_size : Z) (l : locals) : list (Z * Z) := match l_mapped l with Some a => [(a, map_size)] | None => [] end.
Definition accounted (map_size : Z) (l : locals) (s : st) : Prop :=
  acct (locals_own l) (locals_files l) (locals_mapped map_size l) s /\ l_src l = None /\ l_target l = None.

(** What has been set up: an entry of the source map at the start of the region
    uses the descriptor. *)
Definition source_shared (src : nat) (start map_size : Z) (d : nat) (s : st) : Prop :=
  exists k e x, maps s !! src = Some k /\ e ∈ shared_entries k /\ entries s !! e = Some x /\
    e_address x = start /\ map_size <= e_size x /\ e_descriptor x = d.
(** The file of a descriptor holds bytes that were read from the source. *)
Definition source_bytes (t : nat) (start map_size : Z) (d : nat) (s : st) : Prop :=
  exists x bs w, descriptors s !! d = Some x /\ files s !! memfd x = Some bs /\ task_read_memory t start map_size w = Some bs.

(** The call that maps a file of the region's size over its pages in the source. *)
Definition source_call (k : dtape_map) (start map_size fd : Z) : nat * Z * Z * Z :=
  (dtape_task k, fd, dtape_byte_count_to_page_count_round_up page_shift map_size, start).

Lemma release_and_unmap map_size l s :
  accounted map_size l s ->
  wp (remap_out map_size l) (fun _ s' => acct [] ∅ [] s' /\ copies s' = copies s /\ entries s' = entries s /\ maps s' = maps s /\
    map_file_calls s' = map_file_calls s /\
    (forall d x, descriptors s' !! d = Some x -> exists x', descriptors s !! d = Some x' /\ memfd x = memfd x' /\
       (memfd x ∉ locals_files l -> files s' !! memfd x = files s !! memfd x))) s.
Proof.
  intros (A & Hs & Ht). unfold remap_out. rewrite Hs, Ht.
  (* the mapping *)
  wp_step. eapply (wp_mono _ (fun _ s1 => acct (locals_own l) (locals_files l) [] s1 /\ copies s1 = copies s /\ entries s1 = entries s /\ maps s1 = maps s /\
    descriptors s1 = descriptors s /\ files s1 = files s /\ map_file_calls s1 = map_file_calls s)).
  { unfold locals_mapped in A. destruct (l_mapped l) as [a|]; [|by apply wp_ret].
    wp_step. apply wp_os. intros [] w _; wp_step; (split_and!; [|done..]).
    - by apply acct_unmap, (acct_same _ _ _ s).
    - by apply acct_still_mapped, (acct_same _ _ _ s). }
  intros [] s1 (A1 & Ec1 & Ee1 & Em1 & Ed1 & Ef1 & Ek1).
  (* the descriptor *)
  wp_step. eapply (wp_mono _ (fun _ s2 => acct [] (locals_files l) [] s2 /\ copies s2 = copies s /\ entries s2 = entries s /\ maps s2 = maps s /\
    map_file_calls s2 = map_file_calls s /\
    (forall d x, descriptors s2 !! d = Some x -> exists x', descriptors s !! d = Some x' /\ memfd x = memfd x' /\ files s2 !! memfd x = files s !! memfd x))).
  { unfold locals_own in A1. destruct (l_descriptor l) as [d|]; [|apply wp_ret; split_and!; try done; rewrite Ed1, Ef1; eauto].
    eapply wp_mono; [by apply (wp_release [])|]. intros [] s2 (A2 & Em2 & Ee2 & Ec2 & _ & Ek2 & Hd). split_and!; [done|congruence..|].
    intros d' x Ex. destruct (Hd _ _ Ex) as (x' & ? & ? & ?). rewrite Ed1, Ef1 in *. eauto. }
  intros [] s2 (A2 & Ec2 & Ee2 & Em2 & Ek2 & Hd2). do 4 wp_step.
  (* the file *)
  unfold locals_files in *. destruct (l_memfd l) as [fd|].
  - unfold close. wp_step. split_and!; [|done..|].
    + replace ∅ with ({[fd]} ∖ {[fd]} : gset Z) by (apply difference_diag_L). apply acct_close; [done|]. by apply elem_of_singleton.
    + intros d x Ex. destruct (Hd2 _ _ Ex) as (x' & ? & ? & Hf). exists x'. split_and!; [done..|]. intros Hn.
      cbn. rewrite lookup_delete_ne; [exact Hf|]. intros ->. apply Hn. by apply elem_of_singleton.
  - wp_step. split_and!; [done..|]. intros d x Ex. destruct (Hd2 _ _ Ex) as (x' & ? & ? & Hf). eauto.
Qed.
(** ** Remapping *)

(** An entry is created for a descriptor of the call and added to a map. *)
Lemma wp_create_and_insert {A} own loose mapped s m k address size d (Q : A -> st -> Prop) (short done_ : A) :
  acct own loose mapped s -> maps s !! m = Some k -> is_Some (descriptors s !! d) ->
  (forall w, Q short (s <| world := w |>)) ->
  (forall s' e l', acct own loose mapped s' -> grows s s' -> files s' = files s -> map_file_calls s' = map_file_calls s ->
     entries s' !! e = Some (mk_entry address size 0 d) -> maps s' !! m = Some (k <| shared_entries := l' |>) ->
     inserted s' e (mk_entry address size 0 d) (shared_entries k) l' ->
     (forall d' x, descriptors s !! d' = Some x -> exists x', descriptors s' !! d' = Some x' /\ memfd x' = memfd x) -> Q done_ s') ->
  wp (e <- dtape_map_shared_entry_create address size 0 d ;;
      match e with
      | None => ret short
      | Some e => dtape_map_insert_shared_entry m e ;;; ret done_
      end) Q s.
Proof.
  intros Ac Em Hd HN HS. wp_step. eapply wp_entry_create; [done..|intros w; apply wp_ret, HN|].
  intros s1 e A1 Em1 Ec1 Ef1 Ek1 Enew Ee1 Hd1. wp_step.
  assert (E1 : entries s1 !! e = Some (mk_entry address size 0 d)) by (rewrite Ee1; apply lookup_insert_eq).
  assert (Hout : forall m' k', maps s1 !! m' = Some k' -> e ∉ shared_entries k').
  { intros m' k' Em' Hin. rewrite Em1 in Em'. destruct (a_live _ _ _ _ Ac _ _ _ Em' Hin). congruence. }
  assert (Em' : maps s1 !! m = Some k) by (by rewrite Em1).
  eapply wp_mono; [by apply (wp_insert_shared_entry own loose mapped s1 m k e (mk_entry address size 0 d))|].
  intros [] s2 (l' & A2 & Hi & ->). apply wp_ret. eapply (HS _ e l'); [done| |done|done|done|apply lookup_insert_eq|done|done].
  split_and!; [done| |].
  - intros e' x Ex. cbn. rewrite Ee1, lookup_insert_ne by congruence. done.
  - intros m' k' Ek. cbn. rewrite Em1. destruct (decide (m' = m)) as [->|].
    + rewrite lookup_insert_eq. eexists. split; [done|]. simplify_eq. split_and!; [done..|]. intros e' He'. cbn.
      destruct Hi as [_ [[-> _]|Hp]]; [done|rewrite Hp; by right].
    + rewrite lookup_insert_ne by done. eauto.
Qed.

Context `{!OSLaws W}.
Lemma wp_copyinmap m k a n s (Q : option (list Z) -> st -> Prop) :
  maps s !! m = Some k -> m <> kernel_map -> Q (task_read_memory (dtape_task k) a n (world s)) s -> wp (copyinmap kernel_map m a n) Q s.
Proof.
  intros Em Hk HQ. unfold copyinmap. rewrite (proj2 (Nat.eqb_neq _ _) Hk). wp_step. eapply wp_task_of; [done|]. by apply wp_gets.
Qed.
(** What [source_setup] guarantees; [new]: the source was not shared before. *)
Definition source_done (s : st) (src : nat) (k : dtape_map) (start map_size : Z) (if_shared : Prop) (new : bool) (r : Z * locals) (s' : st) : Prop :=
  let '(kr, l) := r in
  accounted map_size l s' /\ grows s s' /\
  (kr = KERN_SUCCESS -> exists d x, l_descriptor l = Some d /\ l_memfd l = None /\ descriptors s' !! d = Some x /\
     map_file_calls s' = (if new then [source_call k start map_size (memfd x)] else []) ++ map_file_calls s /\
     (if_shared -> source_shared src start map_size d s') /\ (new = true -> source_bytes (dtape_task k) start map_size d s')).
(** No entry of a map has this address. *)
Definition unshared (k : dtape_map) (start : Z) (s : st) : Prop :=
  forall e x, e ∈ shared_entries k -> entries s !! e = Some x -> e_address x <> start.
(** With the file open and mapped: the descriptor, the bytes and the entry. *)
Lemma wp_source_copy s s1 src k start map_size prot fd a :
  maps s !! src = Some k -> src <> kernel_map ->
  phase [] {[fd]} [(a, map_size)] s s1 -> map_file_calls s1 = map_file_calls s -> is_Some (files s1 !! fd) ->
  wp (d <- dtape_map_shared_descriptor_create fd map_size ;;
      match d with
      | None => ret (KERN_RESOURCE_SHORTAGE, mk_locals (Some a) None None None (Some fd))
      | Some d =>
          bs <- copyinmap kernel_map src start map_size ;;
          match bs with
          | None => ret (KERN_FAILURE, mk_locals (Some a) (Some d) None None None)
          | Some bs =>
              modify (fun s => s <| files ::= <[fd := bs]> |>) ;;;
              t <- task_of src ;;
              b <- map_file t fd (dtape_byte_count_to_page_count_round_up page_shift map_size) prot start 0
                     (Z.lor dtape_memory_flag_fixed dtape_memory_flag_overwrite) ;;
              if negb (b =? start) then ret (KERN_FAILURE, mk_locals (Some a) (Some d) None None None)
              else
                e <- dtape_map_shared_entry_create start map_size 0 d ;;
                match e with
                | None => ret (KERN_RESOURCE_SHORTAGE, mk_locals (Some a) (Some d) None None None)
                | Some e => dtape_map_insert_shared_entry src e ;;; ret (KERN_SUCCESS, mk_locals (Some a) (Some d) None None None)
                end
          end
      end) (source_done s src k start map_size (unshared k start s) true) s1.
Proof.
  intros Em Hk (A & Em1 & Ee1 & Ec1) Ek1 Hf. wp_step. apply (wp_descriptor_create [] {[fd]} [(a, map_size)]); [done|by apply elem_of_singleton|..].
  { intros w. apply wp_ret. split; [split; [by apply (acct_same _ _ _ s1)|done]|]. split; [|done].
    apply (phase_grows [] {[fd]} [(a, map_size)]). by apply phase_world. }
  rewrite difference_diag_L. intros s2 d A2 Em2 Ee2 Ec2 Ef2 Ek2 Ed2.
  assert (P : phase [d] ∅ [(a, map_size)] s s2) by (split; [done|]; split_and!; congruence). clear A A2 Ec1 Ec2 Ee1.
  assert (E2 : maps s2 !! src = Some k) by congruence.
  wp_step. eapply wp_copyinmap; [done..|]. destruct (task_read_memory (dtape_task k) start map_size (world s2)) as [bs|] eqn:Er.
  2:{ apply wp_ret. split; [split; [exact (proj1 P)|done]|]. split; [by eapply phase_grows|done]. }
  do 2 wp_step. assert (P3 : phase [d] ∅ [(a, map_size)] s (s2 <| files ::= <[fd := bs]> |>)).
  { destruct P as (? & ? & ? & ?). split; [|done]. apply acct_rewrite; [done|]. by rewrite Ef2. }
  wp_step. eapply wp_task_of; [done|]. wp_step. apply wp_map_file. intros b w.
  apply (phase_world _ _ _ _ _ w) in P3. apply (phase_call _ _ _ _ _ (dtape_task k, fd, dtape_byte_count_to_page_count_round_up page_shift map_size, b)) in P3.
  destruct (Z.eqb_spec b start) as [->|Hb]; cbn [negb].
  2:{ apply wp_ret. split; [split; [exact (proj1 P3)|done]|]. split; [by eapply phase_grows|done]. }
  set (s3 := s2 <| files ::= <[fd := bs]> |> <| world := w |> <| map_file_calls ::= _ |>) in *.
  assert (E3 : maps s3 !! src = Some k) by done. assert (Ed3 : descriptors s3 !! d = Some (mk_descriptor 1 fd map_size)) by done.
  assert (Ef3 : files s3 !! fd = Some bs) by apply lookup_insert_eq.
  assert (Ek3 : map_file_calls s3 = source_call k start map_size fd :: map_file_calls s) by (cbn; by rewrite Ek2, Ek1). clearbody s3. clear E2 Ed2 Ef2 Em2 Ee2 P.
  apply (wp_create_and_insert [d] ∅ [(a, map_size)] s3 src k); [exact (proj1 P3)|done|by eexists|..].
  - intros w'. apply (phase_world _ _ _ _ _ w') in P3. split; [split; [exact (proj1 P3)|done]|]. split; [by eapply phase_grows|done].
  - intros s4 e l' A4 Hg Ef4 Ek4 Ee4 Em4 Hi Hd4. split; [done|]. split; [etransitivity; [by eapply phase_grows|done]|]. intros _.
    destruct (Hd4 _ _ Ed3) as (x & Ex & Hx). cbn [memfd] in Hx.
    exists d, x. do 3 (split; [done|]). split; [by rewrite Hx, Ek4, Ek3|]. split; intros Hfree.
    + exists (k <| shared_entries := l' |>), e, (mk_entry start map_size 0 d). split_and!; [done| |done|done|cbn; lia|done]. cbn.
      destruct Hi as [_ [[-> (e' & y & Hin & Ey & Hy)]|Hp]]; [|rewrite Hp; left]. exfalso.
      destruct (a_live _ _ _ _ (proj1 P3) _ _ _ E3 Hin) as [z Ez]. destruct Hg as (_ & He & _). pose proof (He _ _ Ez).
      destruct P3 as (_ & _ & Ee3 & _). rewrite Ee3 in Ez. apply (Hfree _ _ Hin Ez). cbn in Hy; congruence.
    + exists x, bs, (world s2). split_and!; [done|by rewrite Hx, Ef4|done].
Qed.
Lemma wp_source_setup s src k start map_size prot :
  acct [] ∅ [] s -> maps s !! src = Some k -> src <> kernel_map ->
  wp (source_setup page_shift kernel_map src start map_size prot) (source_done s src k start map_size (unshared k start s) true) s.
Proof.
  intros A Em Hk. unfold source_setup. wp_step.
  match goal with |- wp _ ?Q s => change (wp (os (memfd_create (dom (files s)))) Q s) end.
  apply wp_os. intros [fd|] w Hw; [|apply wp_ret].
  2:{ split; [split; [by apply (acct_same _ _ _ s)|done]|]. split; [|done]. apply (phase_grows [] ∅ []). by apply phase_world. }
  apply memfd_fresh, not_elem_of_dom in Hw. do 2 wp_step.
  assert (P : phase [] {[fd]} [] s (s <| world := w |> <| files ::= <[fd := []]> |>)).
  { split; [|done]. replace {[fd]} with (∅ ∪ {[fd]} : gset Z) by (apply union_empty_l_L). apply acct_open; [by apply (acct_same _ _ _ s)|done]. }
  assert (Hf : is_Some (files (s <| world := w |> <| files ::= <[fd := []]> |>) !! fd) /\
    map_file_calls (s <| world := w |> <| files ::= <[fd := []]> |>) = map_file_calls s) by (cbn; rewrite lookup_insert_eq; split; [by eexists|done]).
  revert P Hf. generalize (s <| world := w |> <| files ::= <[fd := []]> |>). clear w Hw. intros s1 P Hf.
  (* ftruncate *)
  wp_step. apply wp_os. intros ok w _. apply (phase_world _ _ _ _ _ w) in P. destruct ok; cbn [negb].
  2:{ apply wp_ret. split; [split; [exact (proj1 P)|done]|]. split; [by eapply phase_grows|done]. }
  wp_step. wp_step.
  assert (P2 : phase [] {[fd]} [] s (s1 <| world := w |> <| files ::= <[fd := replicate (Z.to_nat map_size) 0]> |>)).
  { destruct P as (? & ? & ? & ?), Hf. split; [by apply acct_rewrite|done]. }
  assert (Hf2 : is_Some (files (s1 <| world := w |> <| files ::= <[fd := replicate (Z.to_nat map_size) 0]> |>) !! fd) /\
    map_file_calls (s1 <| world := w |> <| files ::= <[fd := replicate (Z.to_nat map_size) 0]> |>) = map_file_calls s)
    by (cbn; rewrite lookup_insert_eq; split; [by eexists|exact (proj2 Hf)]).
  revert P2 Hf2. generalize (s1 <| world := w |> <| files ::= <[fd := replicate (Z.to_nat map_size) 0]> |>). clear s1 w P Hf. intros s1 P Hf.
  (* mmap *)
  wp_step. apply wp_os. intros r w _. apply (phase_world _ _ _ _ _ w) in P. destruct r as [a|].
  2:{ apply wp_ret. split; [split; [exact (proj1 P)|done]|]. split; [by eapply phase_grows|done]. }
  wp_step. wp_step.
  assert (P2 : phase [] {[fd]} [(a, map_size)] s (s1 <| world := w |> <| file_mappings ::= cons (a, map_size) |>)).
  { destruct P as (A1 & ? & ? & ?). split; [by apply acct_map|done]. }
  assert (Hf2 : is_Some (files (s1 <| world := w |> <| file_mappings ::= cons (a, map_size) |>) !! fd) /\
    map_file_calls (s1 <| world := w |> <| file_mappings ::= cons (a, map_size) |>) = map_file_calls s) by exact Hf.
  revert P2 Hf2. generalize (s1 <| world := w |> <| file_mappings ::= cons (a, map_size) |>). clear s1 w P Hf. intros s1 P Hf.
  destruct Hf. by apply wp_source_copy.
Qed.
(** [target_setup] makes an entry for the descriptor at the new address; it is
    not in the tree if the map has an entry with that address already. *)
Lemma wp_target_setup own loose mapped s target k d x map_size prot :
  acct own loose mapped s -> maps s !! target = Some k -> descriptors s !! d = Some x ->
  wp (target_setup page_shift target d map_size prot) (fun r s' =>
    acct own loose mapped s' /\ grows s s' /\ files s' = files s /\
    (forall d' x, descriptors s !! d' = Some x -> exists x', descriptors s' !! d' = Some x' /\ memfd x' = memfd x) /\
    (fst r = KERN_SUCCESS -> map_file_calls s' = source_call k (snd r) map_size (memfd x) :: map_file_calls s /\
       exists e l', entries s' !! e = Some (mk_entry (snd r) map_size 0 d) /\
       maps s' !! target = Some (k <| shared_entries := l' |>) /\ inserted s' e (mk_entry (snd r) map_size 0 d) (shared_entries k) l')) s.
Proof.
  intros A Em Ed. unfold target_setup. wp_step. eapply wp_descriptor_get; [done|]. wp_step. eapply wp_task_of; [done|].
  wp_step. apply wp_map_file. intros a w. set (s1 := s <| world := w |> <| map_file_calls ::= _ |>).
  assert (Aw : acct own loose mapped s1) by (by apply (acct_same _ _ _ s)).
  assert (Hw : forall w', grows s (s1 <| world := w' |>)) by (intros w'; split_and!; [done..|by eauto]).
  destruct (a =? 0); [apply wp_ret; split_and!; [done|apply (Hw w)|done|by eauto|done]|].
  apply (wp_create_and_insert own loose mapped s1 target k); [done..|by eexists| |].
  - intros w'. split_and!; [by apply (acct_same _ _ _ s)|apply Hw|done|by eauto|done].
  - intros s' e l' A' Hg Ef Ek Ee Em' Hi Hd. split_and!; [done|etransitivity; [apply (Hw w)|done]|done..|]. intros _. split; [done|]. eauto.
Qed.
(** ** Calls that may abort *)
Definition may_abort {A} (why : list string) (m : M st A) (Q : A -> st -> Prop) (s : st) : Prop :=
  match m s with
  | Ret a s' => Q a s'
  | Panic w => w ∈ why
  | Hang => False
  end.
Lemma abort_wp {A} why (m : M st A) Q s : wp m Q s -> may_abort why m Q s.
Proof. unfold wp, may_abort. by destruct (m s). Qed.
Lemma abort_bind {A B} why (m : M st A) (k : A -> M st B) Q s :
  may_abort why m (fun a => may_abort why (k a) Q) s -> may_abort why (bind m k) Q s.
Proof. unfold may_abort, bind. by destruct (m s). Qed.
Lemma abort_mono {A} why (m : M st A) (P Q : A -> st -> Prop) s :
  may_abort why m P s -> (forall a s', P a s' -> Q a s') -> may_abort why m Q s.
Proof. unfold may_abort. destruct (m s); auto. Qed.
Lemma abort_panic {A} why w (Q : A -> st -> Prop) s : w ∈ why -> may_abort why (panic w) Q s.
Proof. done. Qed.
(** Run a part that does not abort. *)
Lemma abort_step {A B} why (m : M st A) (k : A -> M st B) P Q s :
  wp m P s -> (forall a s', P a s' -> may_abort why (k a) Q s') -> may_abort why (bind m k) Q s.
Proof. intros Hm Hk. apply abort_bind, abort_wp. eapply wp_mono; [exact Hm|exact Hk]. Qed.
Definition remap_aborts : list string := ["overflow detected"; "Cannot complexly remap existing shared regions yet"].

(** What a remapping that succeeds has set up.  [new]: the source was not shared before. *)
Definition remapped (s : st) (src target : nat) (k kt : dtape_map) (flags memory_address start map_size : Z) (P : Prop) (new : bool)
    (r : Z * option (Z * Z * Z)) (s' : st) : Prop :=
  forall a cur max, r = (KERN_SUCCESS, Some (a, cur, max)) -> exists d x e b k',
    a = (if has flags VM_FLAGS_RETURN_DATA_ADDR then u64 (b + (memory_address - start)) else b) /\
    entries s' !! e = Some (mk_entry b map_size 0 d) /\ maps s' !! target = Some k' /\ descriptors s' !! d = Some x /\
    (e ∈ shared_entries k' \/ exists e' y, e' ∈ shared_entries k' /\ entries s' !! e' = Some y /\ e_address y = b) /\
    map_file_calls s' = source_call kt b map_size (memfd x) :: (if new then [source_call k start map_size (memfd x)] else []) ++ map_file_calls s /\
    (P -> source_shared src start map_size d s') /\ (new = true -> source_bytes (dtape_task k) start map_size d s').
(** From the set-up of the source to the end, with the map of a target. *)
Lemma wp_remap_shared_with s s1 src k target kt flags memory_address start map_size prot vm_prot P new setup :
  source_done s src k start map_size P new setup s1 -> maps s !! target = Some kt ->
  wp (remap_shared_with page_shift (Some target) flags memory_address start map_size prot vm_prot setup) (fun r s' =>
    acct [] ∅ [] s' /\ grows s s' /\ remapped s src target k kt flags memory_address start map_size P new r s') s1.
Proof.
  destruct setup as [kr l]. intros (Hacc & Hg & Hok) Et. unfold remap_shared_with.
  destruct (Z.eqb_spec kr KERN_SUCCESS) as [->|Hkr]; cbn [negb].
  2:{ wp_step. eapply wp_mono; [by apply release_and_unmap|]. intros [] s2 (A2 & Ec & Ee & Em & _ & _). apply wp_ret.
      split_and!; [done| |intros ? ? ?; congruence]. destruct Hg as (? & ? & ?). split_and!; [congruence|by rewrite Ee|by rewrite Em]. }
  destruct (Hok eq_refl) as (d & x & Hd & Hfd & Ex & Ek1 & Hsrc). rewrite Hd. unfold deref. do 3 wp_step.
  destruct Hacc as (A & Hs & Ht). destruct (proj2 (proj2 Hg) _ _ Et) as (kt1 & Et1 & Htask & _).
  eapply wp_mono; [by eapply wp_target_setup|]. intros [kr b] s2 (A2 & Hg2 & Ef2 & Hd2 & Hs2). wp_step.
  eapply wp_mono; [by apply release_and_unmap; split|]. intros [] s3 (A3 & Ec3 & Ee3 & Em3 & Ek3 & Hd3).
  assert (Hg3 : grows s s3).
  { etransitivity; [exact Hg|]. etransitivity; [exact Hg2|]. split_and!; [done|by rewrite Ee3|rewrite Em3; eauto]. }
  destruct (Z.eqb_spec kr KERN_SUCCESS) as [->|Hkr]; cbn [negb]; apply wp_ret; (split_and!; [done..|]); [|intros ? ? ?; congruence].
  intros a cur max [= <- _ _]. destruct (Hs2 eq_refl) as (Ek2 & e & l' & Ee & El & Hi). cbn [snd] in *.
  destruct (a_ent _ _ _ _ A3 e (mk_entry b map_size 0 d)) as [x3 Ex3]; [by rewrite Ee3|]. cbn in Ex3.
  destruct (Hd3 _ _ Ex3) as (x4 & Ex4 & Hm & Hf). destruct (Hd2 _ _ Ex) as (x5 & Ex5 & Hm5). assert (x4 = x5) as -> by congruence.
  assert (Hx3 : memfd x3 = memfd x) by congruence.
  exists d, x3, e, b, (kt1 <| shared_entries := l' |>). destruct Hsrc as [HP HB]. destruct Hg2 as (_ & Hent & Hmap).
  split_and!; [done..|by rewrite Ee3|by rewrite Em3|done| | | |].
  - cbn. destruct Hi as [_ [[-> (e' & y & ? & ? & ?)]|Hp]]; [right; exists e', y; by rewrite Ee3|left; rewrite Hp; left].
  - rewrite Ek3, Ek2, Ek1, Hx3. unfold source_call. by rewrite Htask.
  - intros (k1 & e1 & x1 & E1 & Hin & Ex1 & Hx1)%HP. destruct (Hmap _ _ E1) as (k2 & E2 & _ & _ & Hin2).
    exists k2, e1, x1. rewrite Em3, Ee3. split_and!; auto; apply Hx1.
  - intros (x2 & bs & w & Ex2 & Ebs & Hr)%HB. assert (x2 = x) as -> by congruence.
    exists x3, bs, w. split_and!; [done| |done]. rewrite Hf by (unfold locals_files; by rewrite Hfd).
    rewrite Ef2. by rewrite Hx3.
Qed.
(** Without one, the failure of the set-up is returned, and its success ends in the use of
    the null pointer. *)
Lemma remap_shared_with_null s s1 src k flags memory_address start map_size prot vm_prot P new setup why :
  source_done s src k start map_size P new setup s1 -> "VM_MAP_NULL" ∈ why ->
  may_abort why (remap_shared_with page_shift None flags memory_address start map_size prot vm_prot setup) (fun r s' => acct [] ∅ [] s' /\ grows s s') s1.
Proof.
  destruct setup as [kr l]. intros (Hacc & Hg & Hok) Hwhy. unfold remap_shared_with.
  destruct (Z.eqb_spec kr KERN_SUCCESS) as [->|Hkr]; cbn [negb].
  - destruct (Hok eq_refl) as (d & x & Hd & _). rewrite Hd. by apply abort_bind, abort_panic.
  - apply abort_wp. wp_step. eapply wp_mono; [by apply release_and_unmap|]. intros [] s2 (A2 & Ec & Ee & Em & _ & _). apply wp_ret.
    split; [done|]. destruct Hg as (? & ? & ?). split_and!; [congruence|by rewrite Ee|by rewrite Em].
Qed.
Lemma elem_of_sublist_take_filter (P : nat -> Prop) `{!forall x, Decision (P x)} (l : list nat) n e : e ∈ take n (filter P l) -> e ∈ l.
Proof. intros He. eapply elem_of_take in He as (i & Hi & _). apply list_elem_of_lookup_2, list_elem_of_filter in Hi. apply Hi. Qed.

(** The source is set up anew, or found to be shared. *)
Lemma wp_source_new s src k start map_size prot why {B} (K : Z * locals -> M st B) (Q : B -> st -> Prop) :
  acct [] ∅ [] s -> maps s !! src = Some k -> src <> kernel_map ->
  (forall setup s1, source_done s src k start map_size (unshared k start s) true setup s1 -> may_abort why (K setup) Q s1) ->
  may_abort why (setup <- source_setup page_shift kernel_map src start map_size prot ;; K setup) Q s.
Proof. intros A Em Hk HK. eapply abort_step; [by apply wp_source_setup|]. exact HK. Qed.
Lemma wp_source_found s src k start map_size e x why {B} (K : Z * locals -> M st B) (Q : B -> st -> Prop) :
  acct [] ∅ [] s -> maps s !! src = Some k -> e ∈ shared_entries k -> entries s !! e = Some x -> remap_aborts ⊆ why ->
  (forall setup s1, source_done s src k start map_size True false setup s1 -> may_abort why (K setup) Q s1) ->
  may_abort why (setup <- (x <- entry_get e ;;
    if (e_address x =? start) && (e_size x >=? map_size) then
      dtape_map_shared_descriptor_retain (e_descriptor x) ;;;
      ret (KERN_SUCCESS, mk_locals None (Some (e_descriptor x)) None None None)
    else panic "Cannot complexly remap existing shared regions yet") ;; K setup) Q s.
Proof.
  intros A Em He Ex Hwhy HK. apply abort_bind. eapply (abort_step _ _ _ (fun a s' => a = x /\ s' = s)); [by eapply wp_entry_get|]. intros y s' [-> ->].
  destruct ((e_address x =? start) && (e_size x >=? map_size)) eqn:Hc; [|apply abort_panic, Hwhy; right; left].
  apply andb_true_iff in Hc as [Hc1%Z.eqb_eq Hc2]. rewrite Z.geb_leb in Hc2. apply Z.leb_le in Hc2.
  destruct (a_ent _ _ _ _ A _ _ Ex) as [y Ey].
  eapply abort_step; [by apply (wp_retain [] ∅ [])|]. intros [] s1 (A1 & Em1 & Ee1 & Ec1 & _ & _ & Ek1 & Hd1).
  apply abort_wp, wp_ret. apply HK. split; [by split|]. split; [split_and!; [done|by rewrite Ee1|rewrite Em1; by eauto]|]. intros _.
  destruct (Hd1 _ _ Ey) as (x' & Ex' & _). exists (e_descriptor x), x'.
  split_and!; [done..| |done]. intros _. exists k, e, x. rewrite Em1, Ee1. done.
Qed.
(** The whole of [mach_vm_remap_external_shared]. *)
Lemma remap_shared_keeps s src k target size flags memory_address why :
  acct [] ∅ [] s -> maps s !! src = Some k -> src <> kernel_map ->
  match target with Some t => is_Some (maps s !! t) | None => "VM_MAP_NULL" ∈ why end -> remap_aborts ⊆ why ->
  may_abort why (mach_vm_remap_external_shared page_shift kernel_map target size flags (Some src) memory_address) (fun r s' =>
    acct [] ∅ [] s' /\ grows s s' /\
    let start := mach_vm_trunc_page memory_address in
    let map_size := u64 (clr (u64 (memory_address + size) + PAGE_MASK) PAGE_MASK - start) in
    let found := filter (touches s start map_size) (shared_entries k) in
    forall t kt, target = Some t -> maps s !! t = Some kt ->
      remapped s src t k kt flags memory_address start map_size (found = [] -> unshared k start s) (bool_decide (found = [])) r s') s.
Proof.
  intros A Em Hk Ht Hwhy. unfold mach_vm_remap_external_shared, mach_vm_round_page.
  destruct (u64 (memory_address + size) + PAGE_MASK <? 2 ^ 64); [|apply abort_bind, abort_panic, Hwhy; left].
  eapply (abort_step _ _ _ (fun a s' => a = clr (u64 (memory_address + size) + PAGE_MASK) PAGE_MASK /\ s' = s)); [by apply wp_ret|]. intros a s' [-> ->].
  set (start := mach_vm_trunc_page memory_address). set (map_size := u64 _). cbv zeta.
  eapply (abort_step _ _ _ (fun a s' => a = src /\ s' = s)); [by apply wp_ret|]. intros a s' [-> ->].
  eapply (abort_step _ _ _ (fun a s' => s' = s)); [by eapply wp_task_of|]. intros t s' ->.
  eapply (abort_step _ _ _ (fun a s' => s' = s)); [by apply wp_gets|]. intros [i|] s' ->.
  2:{ apply abort_wp, wp_ret. split; [done|]. split; [split_and!; [done..|by eauto]|]. by intros ? ? _ _ ? ? ?. }
  eapply abort_step; [by eapply wp_find|]. intros found s' [-> ->].
  assert (Hs : forall f, take 8 (filter (touches s start map_size) (shared_entries k)) = f ->
     filter (touches s start map_size) (shared_entries k) = [] <-> f = []).
  { intros f <-. by destruct (filter _ _). }
  assert (Hend : forall P new prot vm_prot setup s1, source_done s src k start map_size P new setup s1 ->
    new = bool_decide (filter (touches s start map_size) (shared_entries k) = []) ->
    ((filter (touches s start map_size) (shared_entries k) = [] -> unshared k start s) -> P) ->
    may_abort why (remap_shared_with page_shift target flags memory_address start map_size prot vm_prot setup) (fun r s' =>
      acct [] ∅ [] s' /\ grows s s' /\ forall t kt, target = Some t -> maps s !! t = Some kt ->
        remapped s src t k kt flags memory_address start map_size (filter (touches s start map_size) (shared_entries k) = [] -> unshared k start s)
          (bool_decide (filter (touches s start map_size) (shared_entries k) = [])) r s') s1).
  { intros P new prot vm_prot setup s1 Hsd Hnew HP. destruct target as [tg|].
    - destruct Ht as [kt Et]. apply abort_wp. eapply wp_mono; [by eapply wp_remap_shared_with|]. intros r s' (A' & Hg & Hr). split_and!; [done..|].
      intros t' kt' [= <-] Et'. assert (kt' = kt) as -> by congruence. rewrite <- Hnew.
      intros a cur max (d & x & e & b & l' & Ha & Ee & El & Ex & Hi & Hc & HP' & HB)%Hr. exists d, x, e, b, l'. split_and!; auto.
    - eapply abort_mono; [by eapply remap_shared_with_null|]. intros r s' [? ?]. by split_and!. }
  destruct (take 8 _) as [|e [|e' l]] eqn:Ef; specialize (Hs _ eq_refl).
  - apply (wp_source_new s src k start map_size); [done..|]. intros setup s1 Hsd. eapply Hend; [exact Hsd| |].
    + symmetry. apply bool_decide_eq_true_2. by apply Hs.
    + intros HP. apply HP. by apply Hs.
  - assert (e ∈ shared_entries k) as He.
    { apply (elem_of_sublist_take_filter (touches s start map_size) _ 8). rewrite Ef. left. }
    destruct (a_live _ _ _ _ A _ _ _ Em He) as [x Ex].
    apply (wp_source_found s src k start map_size e x); [done..|]. intros setup s1 Hsd. eapply Hend; [exact Hsd| |done].
    symmetry. apply bool_decide_eq_false_2. intros Hn. by apply Hs in Hn.
  - apply abort_bind, abort_panic, Hwhy. right. left.
Qed.
(** ** Copies *)
Definition copies_ok (s : st) : Prop := forall c x, copies s !! c = Some x -> Z.of_nat (length (c_data x)) = c_size x.

(** Reading gives a new copy of the bytes, or nothing. *)
Definition copied_in (s : st) (t : nat) (addr len : Z) (r : Z * option nat) (s' : st) : Prop :=
  same_shared s s' /\
  ((exists c bs room, r = (KERN_SUCCESS, Some c) /\ copies s !! c = None /\ copies s' = <[c := mk_copy len room bs]> (copies s) /\
     Z.of_nat (length bs) = len /\ task_read_memory t addr len (world s') = Some bs) \/
   fst r <> KERN_SUCCESS /\ snd r = None /\ copies s' = copies s).
Lemma wp_copyin_common s m k addr len :
  maps s !! m = Some k -> m <> kernel_map ->
  wp (vm_map_copyin_common page_shift kernel_map m addr len false) (copied_in s (dtape_task k) addr len) s.
Proof.
  intros Em Hk. unfold vm_map_copyin_common. wp_step. apply wp_os. intros [] w _; cbn [negb].
  2:{ apply wp_ret. split; [done|]. right. done. }
  wp_step. unfold wp at 1. cbn zeta. set (c := fresh _). set (s1 := update _ _).
  assert (Ec : copies s !! c = None) by (apply not_elem_of_dom, is_fresh).
  wp_step. eapply wp_copyinmap; [exact Em|done|]. destruct (task_read_memory _ addr len _) as [bs|] eqn:Er.
  - destruct (read_length _ _ _ _ _ Er) as [Hl Hn]. wp_step. unfold fill_copy. wp_step.
    eapply (wp_copy_get c (mk_copy len (u64 (copy_header + len) - copy_header) [])); [apply lookup_insert_eq|]. cbn [c_room].
    rewrite u64_id by (unfold copy_header; lia). destruct (Z.leb_spec (Z.of_nat (length bs)) (copy_header + len - copy_header)); [|lia].
    wp_step. do 2 wp_step. apply wp_ret. split; [done|]. left. exists c, bs, (copy_header + len - copy_header).
    split_and!; [done..| |done|exact Er]. cbn. by rewrite insert_insert_eq.
  - wp_step. unfold free_copy. wp_step. eapply (wp_copy_get c); [apply lookup_insert_eq|]. wp_step. apply wp_ret. split; [done|].
    right. split_and!; [done..|]. cbn. by rewrite delete_insert_id.
Qed.
(** Writing consumes the copy, unless the memory cannot be written. *)
Definition copied_over (s : st) (t : nat) (addr : Z) (c : nat) (data : list Z) (kr : Z) (s' : st) : Prop :=
  same_shared s s' /\ world s' = snd (task_write_memory t addr data (world s)) /\
  (if fst (task_write_memory t addr data (world s)) then kr = KERN_SUCCESS /\ copies s' = delete c (copies s)
   else kr = KERN_INVALID_ADDRESS /\ copies s' = copies s).
Lemma wp_copy_overwrite s m k addr c x n :
  maps s !! m = Some k -> m <> kernel_map -> copies s !! c = Some x -> Z.of_nat (length (c_data x)) = c_size x ->
  wp (vm_map_copy_overwrite page_shift kernel_map m addr (Some c) n) (copied_over s (dtape_task k) addr c (c_data x)) s.
Proof.
  intros Em Hk Ec Hl. unfold vm_map_copy_overwrite. wp_step. eapply wp_copy_get; [done|]. wp_step.
  unfold vm_map_copyout_kernel_buffer. do 2 wp_step. wp_step. eapply wp_copy_get; [done|].
  destruct (Z.ltb_spec (Z.of_nat (length (c_data x))) (c_size x)); [lia|]. rewrite take_ge by lia.
  wp_step. unfold copyoutmap. rewrite (proj2 (Nat.eqb_neq _ _) Hk). wp_step. eapply wp_task_of; [done|].
  wp_step. apply wp_os. intros ok w Hw. wp_step. unfold copied_over. rewrite Hw. destruct ok; cbn [negb Z.eqb].
  - change (KERN_SUCCESS =? KERN_SUCCESS) with true. cbn [negb]. unfold when, free_copy. wp_step. wp_step. eapply wp_copy_get; [done|]. do 3 wp_step. done.
  - change (KERN_FAILURE =? KERN_SUCCESS) with false. cbn [negb]. do 2 wp_step. done.
Qed.
End Account.
End MemoryProps.
