(* ===== verification/MemoryOps.v ===== *)
(** The memory calls: the account of shared memory and copies over every call, what
    the look-up of shared entries returns, what a copy between processes moves, and
    what a shared remapping sets up. *)
From stdpp Require Import sorting.
From S2P Require Import Prelude Memory MemoryProps.

Module MemoryOps.
Import Memory MemoryProps.

Section Calls.
Context {W : Type} `{!OS W, !OSLaws W} (page_shift : Z) (kernel_map : nat).
Notation st := (mst W).
Implicit Types s : st.

Inductive mcall :=
| Allocate (map : option nat) (size : Z)
| Deallocate (map : option nat) (start size : Z)
| Wire (host_priv : bool) (map : option nat) (start size access : Z)
| Copy (map : option nat) (src size dst : Z)
| Read (map : option nat) (addr size : Z)
| ReadOverwrite (current_map : nat) (map : option nat) (addr size data : Z)
| Write (map : option nat) (addr : Z) (copy : option nat) (size : Z)
| Protect (map : option nat) (start size protection : Z)
| Msync (map : option nat) (addr size flags : Z)
| Region (map : option nat) (addr flavor count : Z)
| RegionRecurse (map : option nat) (addr count : Z)
| Remap (target : option nat) (address size flags : Z) (src : option nat) (addr : Z) (copy : bool)
| RemapNew (target : option nat) (address size flags : Z) (convert : bool -> option nat) (addr : Z) (copy : bool) (cur max : Z)
| CreateMap (task : nat)
| DestroyMap (m : nat).

(** The code, and the copy that is the caller's. *)
Definition code {A} (m : M st A) (f : A -> Z) : M st (Z * option nat) := r <- m ;; ret (f r, None).
Definition run (c : mcall) : M st (Z * option nat) :=
  match c with
  | Allocate map size => code (mach_vm_allocate_external page_shift kernel_map map size) fst
  | Deallocate map start size => code (mach_vm_deallocate page_shift kernel_map map start size) id
  | Wire host map start size access => code (vm_wire host map start size access) id
  | Copy map src size dst => code (mach_vm_copy page_shift kernel_map map src size dst) id
  | Read map addr size => mach_vm_read page_shift kernel_map map addr size
  | ReadOverwrite cur map addr size data => code (mach_vm_read_overwrite page_shift kernel_map cur map addr size data) fst
  | Write map addr copy size => code (mach_vm_write page_shift kernel_map map addr copy size) id
  | Protect map start size prot => code (mach_vm_protect page_shift map start size prot) id
  | Msync map addr size flags => code (mach_vm_msync map addr size flags) id
  | Region map addr flavor count => code (mach_vm_region page_shift map addr flavor count) (fun r => fst (fst r))
  | RegionRecurse map addr count => code (mach_vm_region_recurse page_shift map addr count) (fun r => fst (fst r))
  | Remap target address size flags src addr copy =>
      code (mach_vm_remap_external page_shift kernel_map target address size flags src addr copy) fst
  | RemapNew target address size flags convert addr copy cur max =>
      code (mach_vm_remap_new_external page_shift kernel_map target address size flags convert addr copy cur max) fst
  | CreateMap task => code (dtape_vm_map_create task) (fun m => match m with Some _ => KERN_SUCCESS | None => KERN_RESOURCE_SHORTAGE end)
  | DestroyMap m => code (dtape_vm_map_destroy m) (fun _ => KERN_SUCCESS)
  end.

(** ** The account *)
Definition I (s : st) : Prop := acct [] ∅ [] s /\ copies_ok s.
Definition known (s : st) (map : option nat) : Prop :=
  match map with Some m => m <> kernel_map /\ exists k, maps s !! m = Some k /\ 1 <= map_refcnt k | None => False end.
Definition null_or_known (s : st) (map : option nat) : Prop := map = None \/ known s map.
(** What a call may be given: a map of a client or VM_MAP_NULL, and a live copy; a map is
    destroyed by its last owner. *)
Definition call_ok (c : mcall) (s : st) : Prop :=
  match c with
  | Allocate map _ | Protect map _ _ _ | Msync map _ _ _ | Region map _ _ _ | RegionRecurse map _ _
  | Deallocate map _ _ | Copy map _ _ _ | Read map _ _ => null_or_known s map
  | Wire _ _ _ _ _ => True
  | ReadOverwrite cur map _ _ _ => known s (Some cur) /\ null_or_known s map
  | Write map _ copy _ => null_or_known s map /\ match copy with Some c => is_Some (copies s !! c) | None => True end
  | Remap target _ _ _ src _ _ => null_or_known s target /\ null_or_known s src
  | RemapNew target _ _ _ convert _ _ _ _ => null_or_known s target /\ forall b, null_or_known s (convert b)
  | CreateMap _ => True
  | DestroyMap m => exists k, maps s !! m = Some k /\ map_refcnt k = 1
  end.
Definition aborts : list string := "VM_MAP_NULL" :: "Unimplemented flavor" :: remap_aborts.
(** The copies after a call: a read makes one for the caller, a write that
    succeeds uses one up. *)
Definition copies_after (c : mcall) (r : Z * option nat) (s s' : st) : Prop :=
  match c, r with
  | Read _ _ size, (_, Some c') => copies s !! c' = None /\ exists room bs, copies s' = <[c' := mk_copy size room bs]> (copies s)
  | Write _ _ (Some c') _, (kr, _) => copies s' = if kr =? KERN_SUCCESS then delete c' (copies s) else copies s
  | _, _ => copies s' = copies s
  end.

Lemma I_same s s' : same_shared s s' -> copies s' = copies s -> I s -> I s'.
Proof. intros Hs Ec (A & C). split; [by eapply acct_same|unfold copies_ok; by rewrite Ec]. Qed.
Lemma I_grows s s' : acct [] ∅ [] s' -> grows s s' -> I s -> I s'.
Proof. intros A' (Ec & _ & Hm) (A & C). split; [done|unfold copies_ok; by rewrite Ec]. Qed.

(** A part that only changes the outside world. *)
Definition quiet {A} (m : M st A) (s : st) : Prop := wp m (fun _ s' => same_shared s s' /\ copies s' = copies s) s.
Lemma wp_code {A} (m : M st A) f s (Q : Z * option nat -> st -> Prop) :
  wp m (fun a s' => Q (f a, None) s') s -> wp (code m f) Q s.
Proof. intros Hm. unfold code. wp_step. eapply wp_mono; [exact Hm|]. intros a s' HQ. by apply wp_ret. Qed.
Lemma quiet_code {A} (m : M st A) f c s :
  quiet m s -> I s -> (forall r s', copies s' = copies s -> copies_after c (r, None) s s') ->
  wp (code m f) (fun r s' => I s' /\ copies_after c r s s') s.
Proof.
  intros Hm HI Hc. apply wp_code. eapply wp_mono; [exact Hm|]. intros a s' [Hs Ec]. split; [by eapply I_same|auto].
Qed.
Lemma quiet_ret {A} (a : A) s : quiet (ret a) s.
Proof. by apply wp_ret. Qed.
Lemma quiet_os {A} (f : W -> A * W) s : quiet (os f) s.
Proof. apply wp_os. done. Qed.
Lemma quiet_bind {A B} (m : M st A) (k : A -> M st B) s :
  quiet m s -> (forall a s', same_shared s s' -> copies s' = copies s -> quiet (k a) s') -> quiet (bind m k) s.
Proof.
  intros Hm Hk. unfold quiet. wp_step. eapply wp_mono; [exact Hm|]. intros a s' [Hs Ec].
  eapply wp_mono; [by apply Hk|]. intros b s2 [Hs2 Ec2]. split; [by etransitivity|congruence].
Qed.
Lemma quiet_task_of m k s : maps s !! m = Some k -> quiet (task_of m) s.
Proof. intros E. by eapply wp_task_of. Qed.
Lemma quiet_remove m k a b s : maps s !! m = Some k -> quiet (vm_map_remove page_shift kernel_map m a b) s.
Proof.
  intros E. unfold vm_map_remove. apply quiet_bind; [|intros; apply quiet_ret].
  destruct (m =? kernel_map)%nat; [apply quiet_os|]. apply quiet_bind; [by eapply quiet_task_of|]. intros. apply quiet_os.
Qed.
Lemma quiet_allocate m k size s : maps s !! m = Some k -> quiet (mach_vm_allocate_kernel page_shift kernel_map m size) s.
Proof.
  intros E. unfold mach_vm_allocate_kernel, kernel_memory_allocate. destruct (m =? kernel_map)%nat.
  - apply quiet_bind; [apply quiet_os|intros; apply quiet_ret].
  - apply quiet_bind; [by eapply quiet_task_of|]. intros. apply quiet_bind; [apply quiet_os|intros; apply quiet_ret].
Qed.
Lemma quiet_region t a s : quiet (region_at_or_after t a) s.
Proof.
  unfold region_at_or_after. apply quiet_bind; [by apply wp_gets|]. intros [i|] s1 Hs Ec; [apply quiet_ret|].
  apply quiet_bind; [by apply wp_gets|]. intros next s2 Hs2 Ec2. destruct (next =? 0); [apply quiet_ret|].
  apply quiet_bind; [by apply wp_gets|]. intros [i|] s3 Hs3 Ec3; apply quiet_ret.
Qed.

(** ** Copies between processes *)
Lemma copies_ok_insert s c x : copies_ok s -> Z.of_nat (length (c_data x)) = c_size x ->
  forall s', copies s' = <[c := x]> (copies s) -> copies_ok s'.
Proof. intros C Hx s' E c' y. rewrite E. intros [[<- <-]|[_ Ey]]%lookup_insert_Some; [done|by eapply C]. Qed.
Lemma copies_ok_delete s c s' : copies_ok s -> copies s' = delete c (copies s) -> copies_ok s'.
Proof. intros C E c' y. rewrite E. intros [_ Ey]%lookup_delete_Some. by eapply C. Qed.

(** A copy that is read, written elsewhere and not kept leaves no trace. *)
Lemma wp_read_then_overwrite {A} s m k m' k' a n b (K : Z -> option nat -> M st A) (F : Z -> M st A) (Q : A -> st -> Prop) :
  I s -> maps s !! m = Some k -> m <> kernel_map -> maps s !! m' = Some k' -> m' <> kernel_map ->
  (forall kr s', kr <> KERN_SUCCESS -> I s' -> same_shared s s' -> copies s' = copies s -> wp (F kr) Q s') ->
  (forall c kr s' x, I s' -> same_shared s s' -> copies s' = <[c := x]> (copies s) -> copies s !! c = None -> kr <> KERN_SUCCESS ->
     wp (K kr (Some c)) Q s') ->
  (forall c s', I s' -> same_shared s s' -> copies s' = copies s -> wp (K KERN_SUCCESS (Some c)) Q s') ->
  wp (r <- vm_map_copyin page_shift kernel_map m a n false ;;
      let '(kr, copy) := r in
      if kr =? KERN_SUCCESS then kr <- vm_map_copy_overwrite page_shift kernel_map m' b copy n ;; K kr copy
      else F kr) Q s.
Proof.
  intros [Ac C] Em Hk Em' Hk' Hread Hwrite Hok. wp_step. eapply wp_mono; [by apply wp_copyin_common|].
  intros [kr copy] s1 [Hs [(c & bs & room & [= -> ->] & Hc & Ec & Hl & Hr)|(Hkr & [= ->] & Ec)]].
  - rewrite Z.eqb_refl. assert (C1 : copies_ok s1) by (eapply copies_ok_insert; [exact C| |exact Ec]; exact Hl).
    wp_step. eapply wp_mono; [apply (wp_copy_overwrite page_shift kernel_map s1 m' k'); [by rewrite (proj1 Hs)|done|rewrite Ec; apply lookup_insert_eq|exact Hl]|].
    intros kr s2 (Hs2 & _ & Hw). assert (same_shared s s2) as Hs' by (by etransitivity).
    destruct (fst _); destruct Hw as [-> Ec2].
    + assert (copies s2 = copies s) as Ec' by (by rewrite Ec2, Ec, delete_insert_id). apply Hok; [by apply (I_same s)|done..].
    + rewrite Ec in Ec2. eapply Hwrite; [|done|exact Ec2|done..]. split; [by eapply acct_same|]. eapply copies_ok_insert; [exact C| |exact Ec2]. done.
  - apply Z.eqb_neq in Hkr as Hb. cbn in Hkr, Hb. rewrite Hb. apply Hread; [done|by apply (I_same s)|done..].
Qed.
Lemma wp_discard s0 s c x : I s -> same_shared s0 s -> copies s = <[c := x]> (copies s0) -> copies s0 !! c = None ->
  wp (vm_map_copy_discard (Some c)) (fun _ s' => I s' /\ same_shared s0 s' /\ copies s' = copies s0) s.
Proof.
  intros HI Hs Ec Hc. unfold vm_map_copy_discard, free_copy. wp_step. eapply (wp_copy_get c); [rewrite Ec; apply lookup_insert_eq|].
  wp_step. assert (delete c (copies s) = copies s0) as E by (by rewrite Ec, delete_insert_id).
  split; [|done]. destruct HI as [Ac C]. split; [by apply (acct_same _ _ _ s)|]. by apply (copies_ok_delete s c).
Qed.
Definition keeps (c : mcall) (s : st) (r : Z * option nat) (s' : st) : Prop := I s' /\ copies_after c r s s'.

Lemma keeps_copy map src size dst s : I s -> call_ok (Copy map src size dst) s -> wp (run (Copy map src size dst)) (keeps (Copy map src size dst) s) s.
Proof.
  intros HI Hok. cbn [run]. destruct Hok as [->|Hm]; [by apply wp_code, wp_ret|].
  destruct map as [m|]; [|done]. destruct Hm as [Hk (k & Em & _)]. apply wp_code. unfold mach_vm_copy.
  eapply wp_read_then_overwrite; [done..| | |].
  - intros kr s' _ HI' _ Ec. by apply wp_ret.
  - intros c kr s' x HI' Hs Ec Hc Hkr. apply Z.eqb_neq in Hkr. rewrite Hkr. wp_step.
    eapply wp_mono; [by eapply wp_discard|]. intros [] s2 (? & ? & ?). by apply wp_ret.
  - intros c s' HI' _ Ec. rewrite Z.eqb_refl. cbn [negb]. do 2 wp_step. by apply wp_ret.
Qed.
Lemma keeps_read_overwrite cur map addr size data s :
  I s -> call_ok (ReadOverwrite cur map addr size data) s ->
  wp (run (ReadOverwrite cur map addr size data)) (keeps (ReadOverwrite cur map addr size data) s) s.
Proof.
  intros HI [Hc Hok]. cbn [run]. destruct Hok as [->|Hm]; [by apply wp_code, wp_ret|].
  destruct map as [m|]; [|done]. destruct Hm as [Hk (k & Em & _)], Hc as [Hk' (k' & Em' & _)]. apply wp_code. unfold mach_vm_read_overwrite.
  eapply wp_read_then_overwrite; [done..| | |].
  - intros kr s' _ HI' _ Ec. by apply wp_ret.
  - intros c kr s' x HI' Hs Ec Hc Hkr. apply Z.eqb_neq in Hkr. rewrite Hkr. wp_step.
    eapply wp_mono; [by eapply wp_discard|]. intros [] s2 (? & ? & ?). by apply wp_ret.
  - intros c s' HI' _ Ec. rewrite Z.eqb_refl. by apply wp_ret.
Qed.
Lemma keeps_read map addr size s : I s -> call_ok (Read map addr size) s -> wp (run (Read map addr size)) (keeps (Read map addr size) s) s.
Proof.
  intros HI Hok. cbn [run]. destruct Hok as [->|Hm]; [by apply wp_ret|].
  destruct map as [m|]; [|done]. destruct Hm as [Hk (k & Em & _)]. unfold mach_vm_read. destruct (negb _); [by apply wp_ret|].
  eapply wp_mono; [by apply wp_copyin_common|]. intros [kr c] s' [Hs [(c' & bs & room & [= -> ->] & Hc & Ec & Hl & _)|(_ & [= ->] & Ec)]].
  - split; [|by split; [|do 2 eexists]]. destruct HI as [Ac C]. split; [by eapply acct_same|]. eapply copies_ok_insert; [exact C| |exact Ec]. exact Hl.
  - split; [by apply (I_same s)|exact Ec].
Qed.
Lemma keeps_write map addr copy size s :
  I s -> call_ok (Write map addr copy size) s -> wp (run (Write map addr copy size)) (keeps (Write map addr copy size) s) s.
Proof.
  intros HI [Hok Hc]. cbn [run]. destruct Hok as [->|Hm]; [apply wp_code, wp_ret; split; [done|by destruct copy]|].
  destruct map as [m|]; [|done]. destruct Hm as [Hk (k & Em & _)]. apply wp_code. unfold mach_vm_write.
  destruct copy as [c|]; [|by apply wp_ret]. destruct Hc as [x Ec]. pose proof (proj2 HI _ _ Ec) as Hl.
  eapply wp_mono; [by apply (wp_copy_overwrite page_shift kernel_map s m k addr c x)|]. intros kr s' (Hs & _ & Hw).
  destruct (fst _); destruct Hw as [-> Ec']; (split; [|exact Ec']).
  - destruct HI as [Ac C]. split; [by eapply acct_same|by eapply copies_ok_delete].
  - by apply (I_same s).
Qed.

(** ** The calls that leave copies and sharing alone *)
Lemma abort_code {A} (m : M st A) f c s :
  may_abort aborts m (fun a s' => keeps c s (f a, None) s') s -> may_abort aborts (code m f) (keeps c s) s.
Proof.
  intros Hm. unfold code. apply abort_bind. eapply abort_mono; [exact Hm|]. intros a s' Hk. by apply abort_wp, wp_ret.
Qed.
Lemma abort_quiet {A} (m : M st A) f c s :
  (forall r s', copies s' = copies s -> copies_after c (r, None) s s') -> I s -> quiet m s ->
  may_abort aborts (code m f) (keeps c s) s.
Proof.
  intros Hc HI Hm. apply abort_code, abort_wp. eapply wp_mono; [exact Hm|]. intros a s' [Hs Ec]. split; [by apply (I_same s)|auto].
Qed.
Lemma quiet_change m k s {A} (f : nat -> W -> A * W) (g : A -> Z) : maps s !! m = Some k ->
  quiet (t <- task_of m ;; ok <- os (f t) ;; ret (g ok)) s.
Proof.
  intros Em. apply quiet_bind; [by eapply quiet_task_of|]. intros t s' _ _. apply quiet_bind; [apply quiet_os|]. intros. apply quiet_ret.
Qed.
Lemma known_map m s : null_or_known s (Some m) -> exists k, maps s !! m = Some k.
Proof. intros [?|[_ (k & Em & _)]]; [done|eauto]. Qed.
(** A call that follows VM_MAP_NULL. *)
Lemma null_aborts {A} (K : nat -> M st A) f c s : may_abort aborts (code (m <- deref None ;; K m) f) (keeps c s) s.
Proof. apply abort_code, abort_bind, abort_panic. left. Qed.
Lemma keeps_quiet c s : I s -> call_ok c s ->
  match c with Allocate _ _ | Deallocate _ _ _ | Wire _ _ _ _ _ | Protect _ _ _ _ | Msync _ _ _ _ | Region _ _ _ _ | RegionRecurse _ _ _ => True | _ => False end ->
  may_abort aborts (run c) (keeps c s) s.
Proof.
  intros HI Hok Hc. destruct c as [map size|map start size|h map start size acc| | | | |map start size prot|map a size fl|map a fl n|map a n| | | |]; try done; cbn [run].
  - destruct map as [m|]; [|apply null_aborts]. apply known_map in Hok as (k & Em). apply abort_quiet; [done..|]. exact (quiet_allocate m k size s Em).
  - apply abort_quiet; [done..|]. destruct map as [m|]; [|apply quiet_ret]. apply known_map in Hok as (k & Em).
    unfold mach_vm_deallocate. destruct (_ <? _); [apply quiet_ret|]. destruct (_ =? _); [apply quiet_ret|]. by eapply quiet_remove.
  - apply abort_quiet; [done..|]. unfold vm_wire. destruct (negb h); [apply quiet_ret|]. destruct map; [|apply quiet_ret].
    destruct (_ || _); apply quiet_ret.
  - unfold mach_vm_protect, mach_vm_round_page. destruct (_ <? _); [|apply abort_code, abort_bind, abort_panic; do 2 right; left].
    destruct map as [m|]; [|apply null_aborts]. apply known_map in Hok as (k & Em).
    apply abort_quiet; [done..|]. exact (quiet_change m k s _ _ Em).
  - destruct map as [m|]; [|apply null_aborts]. apply known_map in Hok as (k & Em). apply abort_quiet; [done..|]. exact (quiet_change m k s _ _ Em).
  - unfold mach_vm_region. destruct (_ || _); [|apply abort_code, abort_panic; right; left].
    destruct map as [m|]; [|apply null_aborts]. apply known_map in Hok as (k & Em). apply abort_quiet; [done..|]. unfold deref.
    apply (quiet_bind (task_of m)); [by eapply quiet_task_of|]. intros t s' _ _. apply quiet_bind; [apply quiet_region|].
    intros [kr|i] s2 _ _; [apply quiet_ret|]. destruct (_ <? _); apply quiet_ret.
  - destruct map as [m|]; [|apply null_aborts]. apply known_map in Hok as (k & Em). apply abort_quiet; [done..|]. unfold mach_vm_region_recurse, deref.
    apply (quiet_bind (task_of m)); [by eapply quiet_task_of|]. intros t s' _ _. apply quiet_bind; [apply quiet_region|].
    intros [kr|i] s2 _ _; apply quiet_ret.
Qed.

(** ** Remapping *)
Lemma may_abort_weaken {A} why why' (m : M st A) Q s : (forall w, w ∈ why -> w ∈ why') -> may_abort why m Q s -> may_abort why' m Q s.
Proof. unfold may_abort. destruct (m s); auto. Qed.
(** A remapping keeps the account, and every map with its references. *)
Definition remap_keeps (s : st) (r : Z * option (Z * Z * Z)) (s' : st) : Prop := I s' /\ grows s s'.
Lemma remap_copy_keeps target address size flags src addr s :
  I s -> null_or_known s target -> known s (Some src) ->
  may_abort aborts (mach_vm_remap_external page_shift kernel_map target address size flags (Some src) addr true) (remap_keeps s) s.
Proof.
  intros HI Ht [Hks (ks & Es & _)]. unfold mach_vm_remap_external, deref at 1. cbn [negb].
  eapply (abort_step _ _ _ (fun a s' => a = src /\ s' = s)); [by apply wp_ret|]. intros a s' [-> ->].
  eapply abort_step; [by apply wp_copyin_common|].
  assert (Hg : forall s', same_shared s s' -> copies s' = copies s -> remap_keeps s (0, None) s').
  { intros s' Hs Ec. split; [by apply (I_same s)|]. destruct Hs as (Em & _ & Ee & _). split_and!; [done|by rewrite Ee|rewrite Em; eauto]. }
  intros [kr copy] s1 [Hs [(c & bs & room & [= -> ->] & Hc & Ec & Hl & _)|(Hkr & [= ->] & Ec)]].
  2:{ apply Z.eqb_neq in Hkr. cbn in Hkr. rewrite Hkr. cbn [negb vm_map_copy_discard]. apply abort_wp. do 2 wp_step. apply wp_ret. by apply Hg. }
  rewrite Z.eqb_refl. cbn [negb]. destruct target as [target|]; [|apply abort_bind, abort_panic; left].
  destruct Ht as [?|[Hkt (kt & Et & _)]]; [done|]. apply abort_wp. unfold deref. do 2 wp_step. wp_step. eapply wp_task_of; [by rewrite (proj1 Hs)|]. wp_step. apply wp_os. intros a w _.
  assert (I1 : I (s1 <| world := w |>)).
  { destruct HI as [Ac C]. split; [by apply (acct_same _ _ _ s)|]. eapply copies_ok_insert; [exact C| |exact Ec]. exact Hl. }
  assert (Hs1 : same_shared s (s1 <| world := w |>)) by exact Hs.
  assert (Ec1 : copies (s1 <| world := w |>) = <[c := mk_copy size room bs]> (copies s)) by exact Ec.
  revert I1 Hs1 Ec1. generalize (s1 <| world := w |>). clear s1 w Hs Ec. intros s1 I1 Hs Ec.
  assert (Em1 : maps s1 !! target = Some kt) by (by rewrite (proj1 Hs)).
  destruct (a =? 0).
  { wp_step. eapply wp_mono; [by eapply wp_discard|]. intros [] s2 (? & Hs2 & Ec2). apply wp_ret. by apply Hg. }
  wp_step. wp_step. eapply wp_copy_get; [rewrite Ec; apply lookup_insert_eq|]. wp_step.
  wp_step. eapply wp_mono; [apply (wp_copy_overwrite page_shift kernel_map s1 target kt); [done|done|rewrite Ec; apply lookup_insert_eq|exact Hl]|].
  intros kr s2 (Hs2 & _ & Hw). assert (Hs' : same_shared s s2) by (by etransitivity). destruct (fst _); destruct Hw as [-> Ec2]; rewrite Ec in Ec2.
  - rewrite Z.eqb_refl. cbn [negb]. apply wp_ret. apply Hg; [done|]. by rewrite Ec2, delete_insert_id.
  - change (KERN_INVALID_ADDRESS =? KERN_SUCCESS) with false. cbn [negb]. wp_step.
    assert (I2 : I s2). { destruct HI as [Ac C]. split; [by eapply acct_same|]. eapply copies_ok_insert; [exact C| |exact Ec2]. exact Hl. }
    eapply wp_mono; [by eapply wp_discard|]. intros [] s3 (I3 & Hs3 & Ec3).
    wp_step. apply wp_os. intros ok w _. apply wp_ret. by apply Hg.
Qed.
Lemma remap_keeps_account target address size flags src addr copy s :
  I s -> null_or_known s target -> null_or_known s src ->
  may_abort aborts (mach_vm_remap_external page_shift kernel_map target address size flags src addr copy) (remap_keeps s) s.
Proof.
  intros HI Ht Hs. destruct src as [src|].
  2:{ unfold mach_vm_remap_external, mach_vm_remap_external_shared, mach_vm_round_page. destruct copy; cbn [negb]; [apply abort_bind, abort_panic; left|].
      destruct (_ <? _); [|apply abort_bind, abort_panic; do 2 right; left]. apply abort_bind, abort_wp, wp_ret, abort_bind, abort_panic. left. }
  destruct Hs as [?|Hs]; [done|]. destruct copy; [by apply remap_copy_keeps|]. destruct Hs as [Hks (ks & Es & _)].
  eapply abort_mono; [apply (remap_shared_keeps page_shift kernel_map s src ks target size flags addr aborts (proj1 HI) Es Hks)|].
  - destruct target as [t|]; [|left]. apply known_map in Ht as [kt ?]. by eexists.
  - intros w Hw. by do 2 right.
  - intros r s' (A' & Hg & _). split; [by apply (I_grows s)|done].
Qed.
Lemma keeps_remap target address size flags src addr copy s :
  I s -> call_ok (Remap target address size flags src addr copy) s ->
  may_abort aborts (run (Remap target address size flags src addr copy)) (keeps (Remap target address size flags src addr copy) s) s.
Proof.
  intros HI [Ht Hs]. apply abort_code.
  eapply abort_mono; [by apply remap_keeps_account|]. intros r s' [HI' (Ec & _)]. done.
Qed.

(** Taking and dropping a reference of a map. *)
Lemma acct_map_refs s m k n :
  acct [] ∅ [] s -> maps s !! m = Some k -> acct [] ∅ [] (s <| maps := <[m := k <| map_refcnt := n |>]> (maps s) |>).
Proof.
  intros Ac Em. destruct Ac.
  assert (Hm : forall m' k', <[m := k <| map_refcnt := n |>]> (maps s) !! m' = Some k' ->
    exists k0, maps s !! m' = Some k0 /\ shared_entries k' = shared_entries k0).
  { intros m' k' [[<- <-]|[_ Ek]]%lookup_insert_Some; eauto. }
  constructor; cbn; try done.
  - intros m' k' e (k0 & E0 & ->)%Hm. eauto.
  - intros m' k' (k0 & E0 & ->)%Hm. exact (a_sorted0 _ _ E0).
  - intros m1 m2 k1 k2 e (j1 & E1 & ->)%Hm (j2 & E2 & ->)%Hm. eauto.
Qed.
Lemma keeps_remap_new target address size flags convert addr copy cur max s :
  I s -> call_ok (RemapNew target address size flags convert addr copy cur max) s ->
  may_abort aborts (run (RemapNew target address size flags convert addr copy cur max))
    (keeps (RemapNew target address size flags convert addr copy cur max) s) s.
Proof.
  intros HI [Ht Hs]. apply abort_code. unfold mach_vm_remap_new_external. cbv zeta. case_bool; [by apply abort_wp, wp_ret|].
  destruct target as [target|]; [|by apply abort_wp, wp_ret]. destruct Ht as [?|Ht]; [done|].
  case_bool; [by apply abort_wp, wp_ret|]. case_bool; [by apply abort_wp, wp_ret|].
  destruct (convert _) as [src|] eqn:Econv; [|by apply abort_wp, wp_ret].
  specialize (Hs (copy || (max =? VM_PROT_READ) || (max =? VM_PROT_NONE))). rewrite Econv in Hs. destruct Hs as [?|Hs]; [done|].
  destruct Hs as [Hk (k & Es & Hr)]. unfold vm_map_reference.
  eapply (abort_step _ _ _ (fun _ s' => s' = s <| maps := <[src := k <| map_refcnt := map_refcnt k + 1 |>]> (maps s) |>)).
  { eapply wp_map_set; [done|]. done. }
  intros _ s1 ->. set (s1 := s <| maps := _ |>).
  assert (I1 : I s1) by (split; [by apply acct_map_refs, Es; apply HI|apply HI]).
  assert (Es1 : maps s1 !! src = Some (k <| map_refcnt := map_refcnt k + 1 |>)) by apply lookup_insert_eq.
  assert (Ht1 : known s1 (Some target)).
  { destruct Ht as [Hkt (kt & Et & Hrt)]. split; [done|]. cbn. destruct (decide (target = src)) as [->|].
    - eexists. split; [exact Es1|]. cbn. lia.
    - exists kt. split; [|done]. by rewrite lookup_insert_ne. }
  assert (Hs1 : known s1 (Some src)) by (split; [done|]; eexists; split; [exact Es1|cbn; lia]).
  apply abort_bind. eapply abort_mono; [by apply remap_keeps_account; [|right..]|]. intros r s2 [I2 (Ec2 & _ & Hm2)].
  destruct (Hm2 _ _ Es1) as (k2 & Ek2 & _ & Hr2 & _). cbn in Hr2. apply abort_wp. wp_step. unfold vm_map_deallocate.
  wp_step. eapply wp_map_get; [done|]. destruct (Z.eqb_spec (map_refcnt k2 - 1) 0); [lia|]. eapply wp_map_set; [done|]. apply wp_ret.
  split; [|exact Ec2]. split; [|apply I2].
  replace (k2 <| map_refcnt ::= Z.pred |>) with (k2 <| map_refcnt := Z.pred (map_refcnt k2) |>) by (by destruct k2).
  by apply acct_map_refs; [apply I2|].
Qed.

(** ** Creating and destroying maps *)

(** A map may lose entries, and come or go without any. *)
Lemma acct_fewer s m k l :
  acct [] ∅ [] s -> maps s !! m = Some k -> l `sublist_of` shared_entries k ->
  acct [] ∅ [] (s <| maps := <[m := k <| shared_entries := l |>]> (maps s) |>).
Proof.
  intros Ac Em Hl. destruct Ac.
  assert (Hm : forall m' k', <[m := k <| shared_entries := l |>]> (maps s) !! m' = Some k' ->
    exists k0, maps s !! m' = Some k0 /\ shared_entries k' `sublist_of` shared_entries k0).
  { intros m' k' [[<- <-]|[_ Ek]]%lookup_insert_Some; eauto. }
  assert (Hin : forall (a b : list nat) e, a `sublist_of` b -> e ∈ a -> e ∈ b)
    by (intros a b e Hab He; eapply elem_of_submseteq; [exact He|by apply sublist_submseteq]).
  constructor; cbn; try done.
  - intros m' k' e (k0 & E0 & Hs)%Hm He. eauto.
  - intros m' k' (k0 & E0 & Hs)%Hm. destruct (a_sorted0 _ _ E0). split; [by eapply sublist_NoDup|by eapply ssorted_sublist].
  - intros m1 m2 k1 k2 e (j1 & E1 & Hs1)%Hm (j2 & E2 & Hs2)%Hm ? ?. eauto.
Qed.
Lemma acct_maps s ms :
  acct [] ∅ [] s -> (forall m k, ms !! m = Some k -> maps s !! m = Some k \/ shared_entries k = []) -> acct [] ∅ [] (s <| maps := ms |>).
Proof.
  intros Ac Hm. destruct Ac. constructor; cbn; try done.
  - intros m k e [Ek| ->]%Hm; [eauto|by intros ?%elem_of_nil].
  - intros m k [Ek| ->]%Hm; [exact (a_sorted0 _ _ Ek)|split; constructor].
  - intros m1 m2 k1 k2 e [E1| ->]%Hm [E2| ->]%Hm H1 H2; [by eauto|by apply elem_of_nil in H2|by apply elem_of_nil in H1..].
Qed.
Lemma wp_destroy_entries m l : forall s k, acct [] ∅ [] s -> maps s !! m = Some k -> shared_entries k = l ->
  wp (destroy_entries m l) (fun _ s' => acct [] ∅ [] s' /\ copies s' = copies s /\
    (forall e, e ∈ l -> entries s' !! e = None) /\ (forall e, e ∉ l -> entries s' !! e = entries s !! e) /\
    exists k', maps s' = <[m := k']> (maps s) /\ shared_entries k' = []) s.
Proof.
  induction l as [|e l IH]; intros s k Ac Em El; cbn [destroy_entries].
  { apply wp_ret. split_and!; [done..|by intros e ?%elem_of_nil|done|]. exists k. by rewrite insert_id. }
  destruct (a_sorted _ _ _ _ Ac _ _ Em) as [Hnd _]. rewrite El in Hnd. apply NoDup_cons in Hnd as [Hn Hnd].
  destruct (a_live _ _ _ _ Ac _ _ e Em) as [x Ex]; [rewrite El; left|].
  wp_step. eapply wp_map_set; [done|]. replace (k <| shared_entries ::= unlink e |>) with (k <| shared_entries := l |>)
    by (destruct k; cbn in *; subst; unfold update; cbn; f_equal; by case_decide).
  pose proof (acct_fewer s m k l Ac Em) as A1. rewrite El in A1. specialize (A1 ltac:(by apply sublist_cons)).
  wp_step. eapply wp_mono; [apply (wp_entry_destroy [] ∅ [] _ e x A1 Ex)|].
  { intros m' k' Ek'. change (<[m := k <| shared_entries := l |>]> (maps s) !! m' = Some k') in Ek'. apply lookup_insert_Some in Ek' as [[<- <-]|[Hne Ek]]; [done|]. intros He. apply Hne.
    eapply (a_one _ _ _ _ Ac); [exact Em|exact Ek|rewrite El; left|done]. }
  intros [] s1 (A2 & Em2 & Ee2 & Ec2 & _). cbn in Em2, Ee2, Ec2.
  eapply wp_mono; [apply (IH s1 (k <| shared_entries := l |>)); [done|rewrite Em2; apply lookup_insert_eq|done]|].
  intros [] s' (A' & Ec & Hin & Hout & k' & Em' & Ek'). split_and!; [done|congruence|..].
  - intros e' [->|He']%elem_of_cons; [|auto]. rewrite Hout by done. rewrite Ee2. apply lookup_delete_eq.
  - intros e' He'. apply not_elem_of_cons in He' as [? ?]. rewrite Hout by done. rewrite Ee2. by rewrite lookup_delete_ne.
  - exists k'. split; [|done]. rewrite Em', Em2. apply insert_insert_eq.
Qed.
Lemma keeps_maps c s : I s -> call_ok c s -> match c with CreateMap _ | DestroyMap _ => True | _ => False end -> wp (run c) (keeps c s) s.
Proof.
  intros HI Hok Hc. destruct c as [| | | | | | | | | | | | |t|m]; try done; apply wp_code.
  - unfold dtape_vm_map_create. wp_step. apply wp_os. intros [] w _; cbn [negb]; [|apply wp_ret; split; [by apply (I_same s)|done]].
    unfold wp. cbn zeta. split; [|done]. split; [|apply HI].
    apply (acct_maps (s <| world := w |>)); [by apply (acct_same _ _ _ s); [|apply HI]|].
    intros m k Ek. change (<[fresh (dom (maps s)) := mk_map 1 t []]> (maps s) !! m = Some k) in Ek. apply lookup_insert_Some in Ek as [[_ <-]|[_ ?]]; [by right|by left].
  - destruct Hok as (k & Em & Hr). unfold dtape_vm_map_destroy. wp_step. eapply wp_map_get; [done|]. rewrite Hr. change (1 - 1 =? 0) with true. cbn [negb].
    wp_step. eapply wp_map_set; [done|]. wp_step.
    replace (k <| map_refcnt ::= Z.pred |>) with (k <| map_refcnt := 0 |>) by (destruct k; cbn in *; subst; done).
    eapply wp_mono; [apply (wp_destroy_entries m (shared_entries k) _ (k <| map_refcnt := 0 |>));
      [by apply acct_map_refs; [apply HI|]|apply lookup_insert_eq|done]|].
    intros [] s' (A' & Ec & _ & _ & k' & Em' & Ek'). wp_step. split; [|done]. split; [|unfold copies_ok; cbn; rewrite Ec; apply HI].
    apply acct_maps; [done|]. intros m' k0 Ek. change (delete m (maps s') !! m' = Some k0) in Ek. apply lookup_delete_Some in Ek as [_ ?]. by left.
Qed.

(** C16: the account of shared memory and of copies balances after every memory call on
    maps of clients, on every path through it, whatever the operating system answers: each
    descriptor counts exactly the live entries that use it, each open file belongs to one
    descriptor, the server has no mapping of a file left over but those that [munmap] refused
    to remove, which the log tells, each map's entries are live, its own and sorted, and
    copies exist exactly for the callers that own them.  A call returns, or aborts for one of
    four reasons: it follows VM_MAP_NULL, the address range wraps, the source is already
    shared in another way, or the kind of information is unknown. *)
Theorem memory_account c s : I s -> call_ok c s -> may_abort aborts (run c) (keeps c s) s.
Proof.
  intros HI Hok. destruct c;
    (by apply keeps_quiet) || (apply abort_wp; by apply keeps_copy || by apply keeps_read || by apply keeps_read_overwrite || by apply keeps_write || by apply keeps_maps)
    || (by apply keeps_remap) || (by apply keeps_remap_new).
Qed.

(** looking shared entries up returns the first ones, in the order of their
    addresses and at most as many as asked for; if there is room left, these are
    all the entries whose range meets the region, where ranges that only touch
    end to end count as meeting. *)
Theorem find_shared_entries_first own loose mapped s m k address size n :
  acct own loose mapped s -> maps s !! m = Some k -> 0 <= address -> 0 <= size -> address + size < 2 ^ 64 ->
  wp (dtape_map_find_shared_entries_locked m address size n) (fun r s' =>
    s' = s /\ (length r <= n)%nat /\ r `prefix_of` filter (touches s address size) (shared_entries k) /\ StronglySorted (below s) r /\
    ((length r < n)%nat -> forall e x, e ∈ shared_entries k -> entries s !! e = Some x ->
       0 <= e_address x -> 0 <= e_size x -> e_address x + e_size x < 2 ^ 64 ->
       e ∈ r <-> address <= e_address x + e_size x /\ e_address x <= address + size)) s.
Proof.
  intros Ac Em Ha Hs Hw. eapply wp_mono; [by eapply wp_find|]. intros r s' [-> ->].
  set (l := filter (touches s address size) (shared_entries k)).
  assert (Hl : l `sublist_of` shared_entries k) by apply sublist_filter.
  split_and!; [done|rewrite length_take; lia|apply prefix_take| |].
  - eapply ssorted_sublist; [|apply (a_sorted _ _ _ _ Ac _ _ Em)]. etrans; [apply sublist_take|exact Hl].
  - rewrite length_take. intros Hn e x He Ex ? ? ?. rewrite take_ge by lia. unfold l. rewrite list_elem_of_filter. unfold touches. rewrite Ex.
    rewrite !u64_id by lia. tauto.
Qed.

(** ** What a shared remapping sets up *)
Lemma clr_page x : clr x PAGE_MASK = x - x mod 4096.
Proof.
  unfold clr, PAGE_MASK. change 4095 with (Z.ones 12). rewrite Z.ldiff_ones_r, Z.shiftl_mul_pow2, Z.shiftr_div_pow2 by lia.
  change (2 ^ 12) with 4096. pose proof (Z.div_mod x 4096). lia.
Qed.
(** The pages of a region that does not wrap. *)
Lemma region_pages a n : 0 <= a -> 0 <= n -> a + n + PAGE_MASK < 2 ^ 64 ->
  let start := mach_vm_trunc_page a in let end_ := clr (u64 (a + n) + PAGE_MASK) PAGE_MASK in
  0 <= start <= a /\ a + n <= end_ < 2 ^ 64 /\ u64 (end_ - start) = end_ - start.
Proof.
  intros Ha Hn Hw. unfold PAGE_MASK in Hw. cbv zeta. unfold mach_vm_trunc_page. rewrite u64_id by lia. rewrite !clr_page. unfold PAGE_MASK.
  pose proof (Z.mod_pos_bound a 4096). pose proof (Z.mod_pos_bound (a + n + 4095) 4096). pose proof (Z.mod_le a 4096).
  rewrite u64_id by lia. lia.
Qed.

(** C17: when a shared remapping between the maps of clients succeeds, of a region that does
    not wrap, source and target share its pages: the source map has an entry at the first
    page, at least as long as the region, and there is an entry of the region's length at the
    address that is returned, for the same descriptor; it is in the target's map unless that
    has an entry with this address already, since the tree then refuses the new one.  The
    server asked for the descriptor's file, and no other, to be mapped in the target at that
    address, and, if the pages were not shared before, first over the pages of the source;
    and then the file holds the bytes that were read from all these pages. *)
Theorem remap_shares_memory s src k target kt size flags memory_address :
  acct [] ∅ [] s -> maps s !! src = Some k -> src <> kernel_map -> maps s !! target = Some kt ->
  0 <= memory_address -> 0 <= size -> memory_address + size + PAGE_MASK < 2 ^ 64 ->
  (forall e x, e ∈ shared_entries k -> entries s !! e = Some x -> 0 <= e_size x /\ e_address x + e_size x < 2 ^ 64) ->
  may_abort remap_aborts (mach_vm_remap_external_shared page_shift kernel_map (Some target) size flags (Some src) memory_address)
    (fun r s' => forall a cur max, r = (KERN_SUCCESS, Some (a, cur, max)) ->
       let start := mach_vm_trunc_page memory_address in
       let map_size := clr (memory_address + size + PAGE_MASK) PAGE_MASK - start in
       let pages := dtape_byte_count_to_page_count_round_up page_shift map_size in
       let new := bool_decide (filter (touches s start map_size) (shared_entries k) = []) in
       exists d x e b k',
         a = (if has flags VM_FLAGS_RETURN_DATA_ADDR then u64 (b + (memory_address - start)) else b) /\
         entries s' !! e = Some (mk_entry b map_size 0 d) /\ maps s' !! target = Some k' /\ descriptors s' !! d = Some x /\
         (e ∈ shared_entries k' \/ exists e' y, e' ∈ shared_entries k' /\ entries s' !! e' = Some y /\ e_address y = b) /\
         map_file_calls s' = (dtape_task kt, memfd x, pages, b) ::
           (if new then [(dtape_task k, memfd x, pages, start)] else []) ++ map_file_calls s /\
         source_shared src start map_size d s' /\
         (new = true -> source_bytes (dtape_task k) start map_size d s')) s.
Proof.
  intros Ac Em Hk Et Ha Hn Hw Hent. destruct (region_pages _ _ Ha Hn Hw) as (H1 & H2 & H3).
  eapply abort_mono; [exact (remap_shared_keeps page_shift kernel_map s src k (Some target) size flags memory_address remap_aborts Ac Em Hk (mk_is_Some _ _ Et) (reflexivity _))|].
  intros r s' (_ & _ & Hr) a cur max Er. specialize (Hr _ _ eq_refl Et). cbv zeta in Hr |- *. unfold remapped in Hr. rewrite H3 in Hr.
  rewrite (u64_id (memory_address + size)) in * by (unfold PAGE_MASK in Hw; lia).
  destruct (Hr _ _ _ Er) as (d & x & e & b & k' & -> & Ee & Ek & Ex & Hin & Hc & HP & HB). exists d, x, e, b, k'. split_and!; [done..| |done].
  apply HP. intros Hnil e' y He Ey Hy. destruct (Hent _ _ He Ey) as [? ?].
  assert (e' ∈ filter (touches s (mach_vm_trunc_page memory_address)
    (clr (memory_address + size + PAGE_MASK) PAGE_MASK - mach_vm_trunc_page memory_address)) (shared_entries k)) as Hf.
  { apply list_elem_of_filter. split; [|done]. unfold touches. rewrite Ey. rewrite !u64_id by lia. lia. }
  rewrite Hnil in Hf. by apply elem_of_nil in Hf.
Qed.

(** ** Moving bytes between processes *)

(** What was written can be read, and allocating a copy changes no process. *)
Class MemoryLaws : Prop := {
  write_read : forall t a bs w w', task_write_memory t a bs w = (true, w') -> Z.of_nat (length bs) < 2 ^ 47 ->
    task_read_memory t a (Z.of_nat (length bs)) w' = Some bs;
  malloc_quiet : forall n w t a k, task_read_memory t a k (snd (malloc n w)) = task_read_memory t a k w;
}.
Context `{!MemoryLaws}.

Lemma wp_copyin_bytes s m k addr len :
  maps s !! m = Some k -> m <> kernel_map ->
  wp (vm_map_copyin page_shift kernel_map m addr len false) (fun r s' => same_shared s s' /\
    (fst r <> KERN_SUCCESS -> snd r = None) /\
    (fst r = KERN_SUCCESS -> exists c bs room, snd r = Some c /\ copies s' = <[c := mk_copy len room bs]> (copies s) /\ copies s !! c = None /\
       Z.of_nat (length bs) = len /\ len < 2 ^ 47 /\ task_read_memory (dtape_task k) addr len (world s) = Some bs)) s.
Proof.
  intros Em Hk. apply (wp_mono _ (fun r s' => copied_in s (dtape_task k) addr len r s' /\ exists n, world s' = snd (malloc n (world s)))).
  - apply wp_and; [by apply wp_copyin_common|]. unfold vm_map_copyin, vm_map_copyin_common. wp_step. apply wp_os. intros ok w Hw.
    assert (Hn : exists n, w = snd (malloc n (world s))) by (eexists; by rewrite Hw).
    destruct (negb ok); [by apply wp_ret|]. wp_step. unfold wp at 1. cbn zeta. wp_step. eapply wp_copyinmap; [exact Em|done|].
    destruct (task_read_memory _ _ _ _) as [bs|] eqn:Er.
    + destruct (read_length _ _ _ _ _ Er). wp_step. unfold fill_copy. wp_step. eapply wp_copy_get; [apply lookup_insert_eq|]. cbn [c_room].
      rewrite u64_id by (unfold copy_header; lia). destruct (Z.leb_spec (Z.of_nat (length bs)) (copy_header + len - copy_header)); [|lia].
      wp_step. do 2 wp_step. by apply wp_ret.
    + wp_step. unfold free_copy. wp_step. eapply wp_copy_get; [apply lookup_insert_eq|]. wp_step. by apply wp_ret.
  - intros [kr c] s' [[Hs [(c' & bs & room & [= -> ->] & Hc & Ec & Hl & Hr)|(Hkr & Hn & _)]] [n Hw]]; (split; [done|]); [|done]. split; [done|]. intros _.
    exists c', bs, room. split_and!; [done..| |]; [by destruct (read_length _ _ _ _ _ Hr)|]. by rewrite Hw, malloc_quiet in Hr.
Qed.

(** C18: bytes survive the way through the server: what is read from one process,
    written to another and read back there is what the first process held; the
    written copy is used up. *)
Theorem read_write_roundtrip s m k m' k' a b n :
  I s -> maps s !! m = Some k -> m <> kernel_map -> maps s !! m' = Some k' -> m' <> kernel_map ->
  wp (r <- mach_vm_read page_shift kernel_map (Some m) a n ;;
      kr <- mach_vm_write page_shift kernel_map (Some m') b (snd r) n ;;
      r' <- mach_vm_read page_shift kernel_map (Some m') b n ;;
      ret (fst r, kr, r'))
     (fun r s' => let '(kr1, kr2, (kr3, c)) := r in
        kr1 = KERN_SUCCESS -> kr2 = KERN_SUCCESS -> kr3 = KERN_SUCCESS ->
        exists c' room bs, c = Some c' /\ task_read_memory (dtape_task k) a n (world s) = Some bs /\
          copies s' = <[c' := mk_copy n room bs]> (copies s) /\ copies s !! c' = None) s.
Proof.
  intros HI Em Hk Em' Hk'. unfold mach_vm_read, mach_vm_write. destruct (negb (u32 n =? n)).
  { do 3 wp_step. cbn [snd vm_map_copy_overwrite]. do 3 wp_step. by apply wp_ret. }
  wp_step. eapply wp_mono; [by apply wp_copyin_bytes|]. intros [kr1 c1] s1 (Hs1 & Hn1 & H1).
  destruct (decide (kr1 = KERN_SUCCESS)) as [->|Hne].
  - destruct (H1 eq_refl) as (c & bs & room & [= ->] & Ec & Hc & Hl & Hb & Hr). clear H1. cbn [snd fst].
    wp_step. eapply wp_mono; [apply (wp_copy_overwrite page_shift kernel_map s1 m' k'); [by rewrite (proj1 Hs1)|done|rewrite Ec; apply lookup_insert_eq|exact Hl]|].
    intros kr2 s2 (Hs2 & Ew2 & Hw). cbn [c_data] in Ew2, Hw. wp_step.
    eapply wp_mono; [apply (wp_copyin_bytes s2 m' k'); [by rewrite (proj1 Hs2), (proj1 Hs1)|done]|].
    intros [kr3 c3] s3 (Hs3 & _ & H3). apply wp_ret. intros _ -> ->. destruct (task_write_memory _ _ _ _) as [ok w2] eqn:Ewr. cbn [fst snd] in Ew2, Hw.
    destruct ok; destruct Hw as [? Ec2]; [|done]. destruct (H3 eq_refl) as (c' & bs' & room' & [= ->] & Ec3 & Hc3 & _ & _ & Hr3).
    apply write_read in Ewr; [|lia]. rewrite Hl, <- Ew2, Hr3 in Ewr. injection Ewr as ->.
    rewrite Ec, delete_insert_id in Ec2 by done. exists c', room', bs. split_and!; [done..|by rewrite Ec3, Ec2|by rewrite <- Ec2].
  - specialize (Hn1 Hne). cbn in Hn1. subst c1. wp_step. cbn [snd vm_map_copy_overwrite]. do 2 wp_step.
    eapply wp_mono; [apply (wp_copyin_bytes s1 m' k'); [by rewrite (proj1 Hs1)|done]|]. intros [kr3 c3] s3 _. apply wp_ret. by intros ?.
Qed.
End Calls.

(** ** A concrete outside *)

(** Every process sees the same array of bytes; nothing fails; new pages are at
    65536, and a process's only region is readable and writable. *)
Definition flat : Type := list Z.
Definition flat_read (a n : Z) (w : flat) : option (list Z) :=
  if decide (0 <= a /\ 0 <= n < 2 ^ 47 /\ a + n <= Z.of_nat (length w)) then Some (take (Z.to_nat n) (drop (Z.to_nat a) w)) else None.
Definition flat_write (a : Z) (bs : list Z) (w : flat) : bool * flat :=
  if decide (0 <= a /\ a + Z.of_nat (length bs) <= Z.of_nat (length w))
  then (true, take (Z.to_nat a) w ++ bs ++ drop (Z.to_nat a + length bs) w) else (false, w).
#[global] Instance flat_os : OS flat := {
  task_read_memory _ := flat_read;
  task_write_memory _ := flat_write;
  task_allocate_pages _ _ _ _ _ w := (65536, w);
  task_free_pages _ _ _ w := (true, w);
  task_map_file _ _ _ _ hint _ _ w := (if hint =? 0 then 65536 else hint, w);
  task_get_memory_region_info _ _ _ := Some (mk_region 0 4 0 3 false);
  task_get_next_region _ _ _ := 0;
  task_change_protection _ _ _ _ w := (true, w);
  task_sync_memory _ _ _ _ w := (true, w);
  malloc _ w := (true, w);
  memfd_create fds w := (Some (fresh fds), w);
  ftruncate _ _ w := (true, w);
  mmap_file _ _ w := (Some 1, w);
  mmap_anonymous _ w := (Some 1, w);
  munmap _ _ w := (true, w);
  own_read _ _ _ := None;
  own_write _ _ _ := None;
}.
#[global] Instance flat_laws : OSLaws flat.
Proof.
  split; cbn.
  - intros _ a n w bs. unfold flat_read. case_decide; [|done]. intros [= <-]. rewrite length_take, length_drop. lia.
  - intros fds w fd w' [= <- _]. apply is_fresh.
Qed.
#[global] Instance flat_memory : MemoryLaws (W := flat).
Proof.
  split; [|done]. cbn. intros _ a bs w w'. unfold flat_write, flat_read. case_decide as Hd; [|done]. intros [= <-] Hb.
  rewrite decide_True. 2:{ rewrite !length_app, length_take, length_drop. lia. }
  rewrite Nat2Z.id, drop_app_ge, length_take_le by (rewrite ?length_take; lia). rewrite Nat.sub_diag, drop_0, take_app_length. done.
Qed.

(** Two processes, nothing shared. *)
Definition two_maps : mst flat :=
  mk_mst (Z.of_nat <$> seq 0 8192) {[ 1%nat := mk_map 1 1 []; 2%nat := mk_map 1 2 [] ]} ∅ ∅ ∅ ∅ [] [] [].
Lemma no_entries m k : maps two_maps !! m = Some k -> shared_entries k = [].
Proof.
  cbn. intros Ek. apply lookup_insert_Some in Ek as [[_ <-]|[_ Ek]]; [done|]. by apply lookup_singleton_Some in Ek as [_ <-].
Qed.
Lemma two_maps_I : I two_maps.
Proof.
  split; [|by intros c x ?]. constructor; try done.
  - by intros d ?%elem_of_nil.
  - intros fd [? ?]. done.
  - intros m k e Ek He. rewrite (no_entries _ _ Ek) in He. by apply elem_of_nil in He.
  - intros m k Ek. rewrite (no_entries _ _ Ek). split; constructor.
  - intros m m' k k' e Ek _ He. rewrite (no_entries _ _ Ek) in He. by apply elem_of_nil in He.
Qed.
(** A remapping of 100 bytes of process 1 into process 2. *)
Definition remap_once : mcall := Remap (Some 2%nat) 0 100 0 (Some 1%nat) 4100 false.
Lemma remap_once_shares :
  match run 12 0 remap_once two_maps with
  | Ret r s' => (fst r =? KERN_SUCCESS) && (size (entries s') =? 2)%nat && (size (files s') =? 1)%nat
  | _ => false
  end = true.
Proof. vm_compute. reflexivity. Qed.
Lemma remap_once_ok : call_ok 0 remap_once two_maps.
Proof. split; right; (split; [done|]); eexists; (split; [reflexivity|done]). Qed.
Lemma memory_account_witness :
  exists r s', run 12 0 remap_once two_maps = Ret r s' /\ fst r = KERN_SUCCESS /\ I s' /\ size (entries s') = 2%nat.
Proof.
  pose proof (memory_account 12 0 _ two_maps two_maps_I remap_once_ok) as Hm. unfold may_abort in Hm.
  pose proof remap_once_shares as Hs. destruct (run 12 0 remap_once two_maps) as [r s'|w|]; [|discriminate Hs..].
  exists r, s'. split; [reflexivity|]. apply andb_true_iff in Hs as [[H1 H2]%andb_true_iff _].
  split; [by apply Z.eqb_eq|]. split; [apply Hm|]. by apply Nat.eqb_eq.
Defined.
(** The state after it: one entry in each map, for one descriptor. *)
Definition shared_once : mst flat := match run 12 0 remap_once two_maps with Ret _ s' => s' | _ => two_maps end.
Lemma shared_once_I : I shared_once.
Proof.
  pose proof (keeps_remap 12 0 _ _ _ _ _ _ _ two_maps two_maps_I remap_once_ok) as Hm. unfold may_abort in Hm. unfold shared_once.
  change (run 12 0 (Remap _ _ _ _ _ _ _)) with (run 12 0 remap_once) in Hm.
  destruct (run 12 0 remap_once two_maps) as [r s'|w|]; [apply Hm|apply two_maps_I|done].
Qed.
Lemma shared_once_map : is_Some (maps shared_once !! 1%nat).
Proof. apply (bool_decide_unpack _). vm_compute. exact Logic.I. Qed.
Lemma shared_once_found :
  match dtape_map_find_shared_entries_locked 1 8000 100 8 shared_once with
  | Ret [e] _ => if entries shared_once !! e is Some x then (e_address x =? 4096) && (e_size x =? 4096) else false
  | _ => false
  end = true.
Proof. vm_compute. reflexivity. Qed.
Lemma find_shared_entries_first_witness :
  exists e x, dtape_map_find_shared_entries_locked 1 8000 100 8 shared_once = Ret [e] shared_once /\
    entries shared_once !! e = Some x /\ e_address x = 4096 /\ e_size x = 4096.
Proof.
  destruct shared_once_map as [k Ek].
  pose proof (find_shared_entries_first [] ∅ [] shared_once 1 k 8000 100 8 (proj1 shared_once_I) Ek ltac:(lia) ltac:(lia) ltac:(lia)) as Hf.
  pose proof shared_once_found as Hs. unfold wp in Hf.
  destruct (dtape_map_find_shared_entries_locked 1 8000 100 8 shared_once) as [r s'|w|]; [|discriminate Hs..].
  destruct Hf as (-> & _). destruct r as [|e [|]]; [discriminate Hs| |discriminate Hs].
  destruct (entries shared_once !! e) as [x|] eqn:Ex; [|discriminate Hs]. apply andb_true_iff in Hs as [Ha%Z.eqb_eq Hz%Z.eqb_eq].
  exists e, x. split; [reflexivity|]. split; [exact Ex|]. split; [exact Ha|exact Hz].
Defined.
Lemma remap_shared_ok :
  match mach_vm_remap_external_shared 12 0 (Some 2%nat) 100 0 (Some 1%nat) 4100 two_maps with
  | Ret (kr, Some (a, _, _)) _ => (kr =? KERN_SUCCESS) && (a =? 65536)
  | _ => false
  end = true.
Proof. vm_compute. reflexivity. Qed.
Lemma remap_shares_memory_witness :
  exists cur max s' d,
    mach_vm_remap_external_shared 12 0 (Some 2%nat) 100 0 (Some 1%nat) 4100 two_maps = Ret (KERN_SUCCESS, Some (65536, cur, max)) s' /\
    source_shared 1 4096 4096 d s' /\ source_bytes 1 4096 4096 d s'.
Proof.
  assert (Hm := remap_shares_memory 12 0 two_maps 1 (mk_map 1 1 []) 2 (mk_map 1 2 []) 100 0 4100 (proj1 two_maps_I) eq_refl ltac:(done) eq_refl
    ltac:(lia) ltac:(lia) ltac:(done) ltac:(by intros e x ?%elem_of_nil)).
  pose proof remap_shared_ok as Hs. unfold may_abort in Hm.
  destruct (mach_vm_remap_external_shared 12 0 (Some 2%nat) 100 0 (Some 1%nat) 4100 two_maps) as [[kr [[[a cur] max]|]] s'|w|]; [|discriminate Hs..].
  apply andb_true_iff in Hs as [->%Z.eqb_eq ->%Z.eqb_eq]. destruct (Hm _ _ _ eq_refl) as (d & _ & _ & _ & _ & _ & _ & _ & _ & _ & _ & Hs & Hb).
  exists cur, max, s', d. split; [reflexivity|]. split; [exact Hs|]. by apply Hb.
Defined.
(** Four bytes of process 1 read and written into process 2. *)
Definition copy_over : M (mst flat) (Z * Z * (Z * option nat)) :=
  r <- mach_vm_read 12 0 (Some 1%nat) 10 4 ;;
  kr <- mach_vm_write 12 0 (Some 2%nat) 20 (snd r) 4 ;;
  r' <- mach_vm_read 12 0 (Some 2%nat) 20 4 ;;
  ret (fst r, kr, r').
Lemma copy_over_ok :
  match copy_over two_maps with
  | Ret (kr1, kr2, (kr3, _)) _ => (kr1 =? KERN_SUCCESS) && (kr2 =? KERN_SUCCESS) && (kr3 =? KERN_SUCCESS)
  | _ => false
  end = true.
Proof. vm_compute. reflexivity. Qed.
Lemma read_write_roundtrip_witness :
  exists c' room s', copy_over two_maps = Ret (KERN_SUCCESS, KERN_SUCCESS, (KERN_SUCCESS, Some c')) s' /\
    copies s' = {[c' := mk_copy 4 room [10; 11; 12; 13]]}.
Proof.
  assert (Hr : wp copy_over _ two_maps)
    by (refine (read_write_roundtrip 12 0 two_maps 1 (mk_map 1 1 []) 2 (mk_map 1 2 []) 10 20 4 two_maps_I eq_refl _ eq_refl _); done).
  pose proof copy_over_ok as Hs. unfold wp in Hr.
  destruct (copy_over two_maps) as [[[kr1 kr2] [kr3 c]] s'|w|]; [|discriminate Hs..].
  apply andb_true_iff in Hs as [[->%Z.eqb_eq ->%Z.eqb_eq]%andb_true_iff ->%Z.eqb_eq].
  destruct (Hr eq_refl eq_refl eq_refl) as (c' & room & bs & -> & Hb & Ec & _). exists c', room, s'.
  split; [done|]. rewrite Ec. vm_compute in Hb. injection Hb as <-. reflexivity.
Defined.
End MemoryOps.
