(* ===== verification/WaitQ.v ===== *)
(** * Wait queues and blocking

    The wait queues of the vendored kernel ([xnu/osfmk/kern/waitq.c]) as the duct
    tape compiles them, the blocking primitives of [src/duct-tape/src/thread.c]
    that drive them, and the part of the server's microthreads
    ([src/src/thread.cpp]) that a blocked thread depends on: [suspend],
    [resume] and the work queue.

    Queues are ordinary queues, interrupt-safe ones (semaphores and the global
    event queues) and others, whose threads wait on the global queue that their
    address hashes to.  Turnstiles and queue sets are not modelled: a queue is in
    no set, and what the code does after [handle_waitq_set] is nothing.  [assert]
    is compiled out.  Priorities of threads are data; promotion is a stub in this
    build. *)
From S2P Require Import Prelude.

Definition THREAD_WAITING : Z := -1.
Definition THREAD_AWAKENED : Z := 0.
Definition THREAD_TIMED_OUT : Z := 1.
Definition THREAD_INTERRUPTED : Z := 2.
Definition THREAD_RESTART : Z := 3.
Definition THREAD_UNINT : Z := 0.
Definition THREAD_INTERRUPTIBLE : Z := 1.
Definition THREAD_ABORTSAFE : Z := 2.
Definition TH_WAIT : Z := 1.
Definition TH_RUN : Z := 4.
Definition TH_UNINT : Z := 8.
Definition TH_TERMINATE : Z := 16.
Definition TH_OPT_VMPRIV : Z := 4.
Definition BASEPRI_REALTIME : Z := 96.
Definition SYNC_POLICY_FIXED_PRIORITY : Z := 1.
Definition SYNC_POLICY_REVERSED : Z := 2.
Definition SYNC_POLICY_DISABLE_IRQ : Z := 8.
Definition EVENT_MASK_BITS : Z := 25.
Definition kThreadWaitNone : Z := 0.
Definition kThreadWaitSemaphore : Z := 6.
Definition NO_EVENT : Z := 0.

(** ** Timer calls

    What the kernel's timer calls promise ([timer_call_enter_with_leeway],
    [timer_call_cancel], and the expiration of the timer queue): a call is queued
    or not, entering it queues it and tells whether it was queued, cancelling it
    takes it off and tells whether it was on, and it fires only from the queue,
    which takes it off. *)
Class TimerCall (T : Type) := {
  tc_setup : T;
  tc_queued : T -> bool;
  timer_call_enter : Z -> T -> bool * T;
  timer_call_cancel : T -> bool * T;
  timer_call_fire : T -> T;
}.
Class TimerCallLaws (T : Type) `{TimerCall T} := {
  tc_setup_off : tc_queued tc_setup = false;
  tc_enter_was d t : fst (timer_call_enter d t) = tc_queued t;
  tc_enter_on d t : tc_queued (snd (timer_call_enter d t)) = true;
  tc_cancel_was t : fst (timer_call_cancel t) = tc_queued t;
  tc_cancel_off t : tc_queued (snd (timer_call_cancel t)) = false;
  tc_fire_off t : tc_queued (timer_call_fire t) = false;
}.

(** The global event queues are the queues below [g_num_waitqs]; [hash] is the
    hash of an event or of a queue's address, [addr] the address of a queue, and
    [tries] bounds the attempts of a loop that spins on a lock, after the first. *)
Class Kernel := {
  g_num_waitqs : nat;
  hash : Z -> Z;
  addr : nat -> Z;
  tries : nat;
  some_waitqs : 0 < Z.of_nat g_num_waitqs < 2 ^ 32;
}.

Module WaitQ.
Section WaitQ.
Context {T : Type} `{TimerCall T} `{Kernel}.

(** ** Data *)

(** [struct waitq]: [waitq_locked] is its interlock. *)
Record waitq := mk_waitq {
  waitq_fifo : bool;
  waitq_irq : bool;
  waitq_isvalid : bool;
  waitq_eventmask : Z;
  waitq_queue : list nat;
  waitq_locked : bool;
}.
#[global] Instance waitq_rebuild : Rebuild waitq :=
  fun r => mk_waitq (waitq_fifo r) (waitq_irq r) (waitq_isvalid r) (waitq_eventmask r) (waitq_queue r) (waitq_locked r).

(** The parts of [struct thread] that waiting uses, with its lock, and of the
    server's [Thread]: [_suspended] and [_running]. *)
Record thread := mk_thread {
  t_waitq : option nat;
  t_wait_event : Z;
  t_state : Z;
  t_wait_result : Z;
  t_options : Z;
  t_sched_pri : Z;
  t_block_hint : Z;
  t_pending_block_hint : Z;
  t_continuation : bool;
  t_wait_timer : T;
  t_wait_timer_is_set : bool;
  t_wait_timer_active : Z;
  t_locked : bool;
  t_suspended : bool;
  t_running : bool;
}.
#[global] Instance thread_rebuild : Rebuild thread :=
  fun r => mk_thread (t_waitq r) (t_wait_event r) (t_state r) (t_wait_result r) (t_options r) (t_sched_pri r) (t_block_hint r)
    (t_pending_block_hint r) (t_continuation r) (t_wait_timer r) (t_wait_timer_is_set r) (t_wait_timer_active r) (t_locked r)
    (t_suspended r) (t_running r).

(** The server: its threads, its queues, and the work queue of microthreads that
    are to run. *)
Record wst := mk_wst {
  threads : gmap nat thread;
  waitqs : gmap nat waitq;
  workq : list nat;
}.
#[global] Instance wst_rebuild : Rebuild wst := fun r => mk_wst (threads r) (waitqs r) (workq r).

Definition MW := M wst.

(** ** Access *)
Definition thread_deref (t : nat) : MW thread := fun s =>
  match threads s !! t with Some x => Ret x s | None => Panic "no such thread" end.
Definition waitq_deref (q : nat) : MW waitq := fun s =>
  match waitqs s !! q with Some x => Ret x s | None => Panic "no such queue" end.
Definition thread_mod (t : nat) (f : thread -> thread) : MW unit :=
  x <- thread_deref t ;; modify (fun s => s <| threads := <[t := f x]> (threads s) |>).
Definition waitq_mod (q : nat) (f : waitq -> waitq) : MW unit :=
  x <- waitq_deref q ;; modify (fun s => s <| waitqs := <[q := f x]> (waitqs s) |>).

(** Locks: taking a lock that is held never returns. *)
Definition waitq_lock (q : nat) : MW unit :=
  x <- waitq_deref q ;; if waitq_locked x then hang else waitq_mod q (fun x => x <| waitq_locked := true |>).
Definition waitq_lock_try (q : nat) : MW bool :=
  x <- waitq_deref q ;;
  if waitq_locked x then ret false else waitq_mod q (fun x => x <| waitq_locked := true |>) ;;; ret true.
Definition waitq_unlock (q : nat) : MW unit :=
  x <- waitq_deref q ;; ensure (waitq_locked x) "unlock of a free queue" ;;; waitq_mod q (fun x => x <| waitq_locked := false |>).
Definition thread_lock (t : nat) : MW unit :=
  x <- thread_deref t ;; if t_locked x then hang else thread_mod t (fun x => x <| t_locked := true |>).
Definition thread_unlock (t : nat) : MW unit :=
  x <- thread_deref t ;; ensure (t_locked x) "unlock of a free thread" ;;; thread_mod t (fun x => x <| t_locked := false |>).

(** ** Suspending and resuming microthreads ([src/src/thread.cpp]) *)

(** [Thread::resume] *)
Definition Thread_resume (t : nat) : MW unit :=
  x <- thread_deref t ;; when (t_suspended x) (modify (fun s => s <| workq ::= fun l => l ++ [t] |>)).
(** [dtape_thread_entering], [dtape_thread_exiting] *)
Definition dtape_thread_entering (t : nat) : MW unit :=
  thread_mod t (fun x => x <| t_state ::= fun st => Z.lor (clr st (Z.lor TH_WAIT TH_UNINT)) TH_RUN |> <| t_block_hint := kThreadWaitNone |>).
Definition dtape_thread_exiting (t : nat) : MW unit :=
  thread_mod t (fun x => x <| t_state ::= fun st => clr st TH_RUN |>).
(** [Thread::suspend], up to the jump to the top of the microthread. *)
Definition Thread_suspend (t : nat) : MW unit := thread_mod t (fun x => x <| t_suspended := true |>).
(** The end of [Thread::doWork], where a microthread that has been suspended or is
    done arrives. *)
Definition doneWorking (t : nat) : MW unit :=
  x <- thread_deref t ;;
  when (t_running x) (dtape_thread_exiting t ;;; thread_mod t (fun x => x <| t_running := false |>)).
(** [Thread::doWork] for a thread that is neither deferred nor dead nor terminating and
    has no pending call: whether the suspended code goes on. *)
Definition doWork (t : nat) : MW bool :=
  x <- thread_deref t ;;
  if t_running x then ret false
  else
    thread_mod t (fun x => x <| t_running := true |>) ;;;
    dtape_thread_entering t ;;;
    if t_suspended x then thread_mod t (fun x => x <| t_suspended := false |>) ;;; ret true
    else doneWorking t ;;; ret false.

(** ** The scheduling primitives of [thread.c] *)

Definition thread_unblock (t : nat) (wresult : Z) : MW bool :=
  thread_mod t (fun x => x <| t_wait_result := wresult |>) ;;; Thread_resume t ;;; ret true.
Definition thread_go (t : nat) (wresult : Z) : MW Z :=
  r <- thread_unblock t wresult ;; ret (if r then KERN_SUCCESS else KERN_FAILURE).
Definition thread_mark_wait_locked (t : nat) (interruptible_orig : Z) : MW Z :=
  thread_mod t (fun x => x <| t_state := TH_WAIT |> <| t_wait_result := THREAD_WAITING |>
                           <| t_block_hint := t_pending_block_hint x |> <| t_pending_block_hint := kThreadWaitNone |>) ;;;
  ret THREAD_WAITING.
Definition thread_set_pending_block_hint (t : nat) (hint : Z) : MW unit := thread_mod t (fun x => x <| t_pending_block_hint := hint |>).

(** ** Queues *)

Definition waitq_is_global (q : nat) : bool := bool_decide (q < g_num_waitqs)%nat.
Definition _CAST_TO_EVENT_MASK (event : Z) : Z := Z.land event (Z.ones EVENT_MASK_BITS).
Definition waitq_hash (key : Z) : Z := Z.land (u32 (hash key)) (u32 (Z.of_nat g_num_waitqs - 1)).
Definition global_eventq (event : Z) : nat := Z.to_nat (waitq_hash event).
Definition waitq_get_safeq (q : nat) : nat := global_eventq (addr q).
Definition waitq_empty (wq : waitq) : bool := bool_decide (waitq_queue wq = []).

Definition waitq_init (q : nat) (policy : Z) : MW Z :=
  if has policy SYNC_POLICY_FIXED_PRIORITY then ret KERN_INVALID_ARGUMENT
  else
    modify (fun s => s <| waitqs := <[q := mk_waitq (negb (has policy SYNC_POLICY_REVERSED)) (has policy SYNC_POLICY_DISABLE_IRQ) true 0 [] false]> (waitqs s) |>) ;;;
    ret KERN_SUCCESS.

Definition waitq_thread_insert (q t : nat) (fifo : bool) : MW unit :=
  waitq_mod q (fun x => x <| waitq_queue ::= fun l => if fifo then l ++ [t] else t :: l |>).
Definition waitq_thread_remove (q t : nat) : MW unit := waitq_mod q (fun x => x <| waitq_queue ::= unlink t |>).
Definition thread_clear_waitq_state (t : nat) : MW unit :=
  thread_mod t (fun x => x <| t_waitq := None |> <| t_wait_event := NO_EVENT |>).

(** The queue a thread that waits on [q] is on, and the bits it has in the event
    mask of that queue. *)
Definition safeq_of (q : nat) (wq : waitq) : nat := if waitq_irq wq then q else waitq_get_safeq q.
Definition mask_of (q : nat) (wq : waitq) (event : Z) : Z := _CAST_TO_EVENT_MASK (if waitq_irq wq then event else addr q).

(** The wait timer, which is never taken back when the wait ends early. *)
Definition arm_wait_timer (t : nat) (deadline : Z) : MW unit :=
  x <- thread_deref t ;;
  let '(act, tc) := timer_call_enter deadline (t_wait_timer x) in
  thread_mod t (fun x => x <| t_wait_timer := tc |>) ;;;
  when (negb act) (thread_mod t (fun x => x <| t_wait_timer_active ::= fun n => u16 (n + 1) |>)) ;;;
  thread_mod t (fun x => x <| t_wait_timer_is_set := true |>).
(** The part of [waitq_assert_wait64_locked] with the queue [safeq] locked. *)
Definition assert_wait_enqueue (safeq q : nat) (eventmask wait_event interruptible deadline : Z) (t : nat) : MW Z :=
  thread_lock t ;;;
  x <- thread_deref t ;;
  let realtime := BASEPRI_REALTIME <=? t_sched_pri x in
  wait_result <- thread_mark_wait_locked t interruptible ;;
  when (wait_result =? THREAD_WAITING)
    (sq <- waitq_deref safeq ;;
     waitq_thread_insert safeq t (negb (negb (waitq_fifo sq) || has (t_options x) TH_OPT_VMPRIV || realtime)) ;;;
     thread_mod t (fun x => x <| t_wait_event := wait_event |> <| t_waitq := Some q |>) ;;;
     when (negb (deadline =? 0)) (arm_wait_timer t deadline) ;;;
     when (waitq_is_global safeq) (waitq_mod safeq (fun x => x <| waitq_eventmask ::= fun m => Z.lor m eventmask |>))) ;;;
  thread_unlock t ;;;
  ret wait_result.
Definition waitq_assert_wait64_locked (q : nat) (wait_event interruptible deadline : Z) (t : nat) : MW Z :=
  x <- thread_deref t ;;
  ensure (bool_decide (t_waitq x = None)) "thread already waiting" ;;;
  wq <- waitq_deref q ;;
  let safeq := safeq_of q wq in
  when (negb (waitq_irq wq)) (waitq_lock safeq) ;;;
  wait_result <- assert_wait_enqueue safeq q (mask_of q wq wait_event) wait_event interruptible deadline t ;;
  when (negb (bool_decide (safeq = q))) (waitq_unlock safeq) ;;;
  ret wait_result.

(** [waitq_queue_iterate_locked] without a selection callback: [l] is what is left
    of the scan, [threadq] the threads taken, at most [max_threads] if that is
    positive.  Returns the threads, which stay locked, and the mask of the threads
    that were passed over. *)
Fixpoint waitq_queue_iterate_locked (safeq q : nat) (event max_threads : Z) (l threadq : list nat) (mask : Z) : MW (list nat * Z) :=
  match l with
  | [] => ret (threadq, mask)
  | t :: l =>
      x <- thread_deref t ;;
      if bool_decide (t_waitq x = Some q) && (t_wait_event x =? event) then
        thread_lock t ;;;
        thread_clear_waitq_state t ;;;
        waitq_thread_remove safeq t ;;;
        let threadq := threadq ++ [t] in
        if (max_threads <=? Z.of_nat (length threadq)) && (0 <? max_threads) then ret (threadq, mask)
        else waitq_queue_iterate_locked safeq q event max_threads l threadq mask
      else
        waitq_queue_iterate_locked safeq q event max_threads l threadq
          (Z.lor mask (_CAST_TO_EVENT_MASK
             (if bool_decide (t_waitq x <> Some safeq) then from_option addr 0 (t_waitq x) else t_wait_event x)))
  end.

(** The scan of the queue the threads are on, which is locked; a global queue is
    scanned only if its event mask has the bits that are looked for. *)
Definition select_from (safeq q : nat) (event eventmask max_threads : Z) : MW (list nat) :=
  sq <- waitq_deref safeq ;;
  if negb (waitq_is_global safeq) || (Z.land (waitq_eventmask sq) eventmask =? eventmask) then
    r <- waitq_queue_iterate_locked safeq q event max_threads (waitq_queue sq) [] 0 ;;
    let '(threadq, remaining_eventmask) := r in
    when (waitq_is_global safeq)
      (sq <- waitq_deref safeq ;;
       if waitq_empty sq then waitq_mod safeq (fun x => x <| waitq_eventmask := 0 |>)
       else when ((max_threads <? 0) || (Z.of_nat (length threadq) <? max_threads))
              (waitq_mod safeq (fun x => x <| waitq_eventmask := remaining_eventmask |>))) ;;;
    ret threadq
  else ret [].
Definition do_waitq_select_n_locked (q : nat) (event max_threads : Z) : MW (list nat) :=
  wq <- waitq_deref q ;;
  let eventmask := mask_of q wq event in
  let safeq := safeq_of q wq in
  when (negb (waitq_irq wq)) (waitq_lock safeq) ;;;
  threadq <- select_from safeq q event eventmask max_threads ;;
  when (negb (bool_decide (safeq = q))) (waitq_unlock safeq) ;;;
  ret threadq.

Definition waitq_select_one_locked (q : nat) (event : Z) : MW (option nat) :=
  threadq <- do_waitq_select_n_locked q event 1 ;; ret (head threadq).

(** On success the thread stays locked. *)
Definition waitq_select_thread_locked (q : nat) (event : Z) (t : nat) : MW Z :=
  wq <- waitq_deref q ;;
  let safeq := safeq_of q wq in
  when (negb (waitq_irq wq)) (waitq_lock safeq) ;;;
  thread_lock t ;;;
  x <- thread_deref t ;;
  if bool_decide (t_waitq x = Some q) && (t_wait_event x =? event) then
    waitq_thread_remove safeq t ;;;
    sq <- waitq_deref safeq ;;
    when (waitq_empty sq) (waitq_mod safeq (fun x => x <| waitq_eventmask := 0 |>)) ;;;
    thread_clear_waitq_state t ;;;
    ret KERN_SUCCESS
  else
    thread_unlock t ;;;
    when (negb (bool_decide (safeq = q))) (waitq_unlock safeq) ;;;
    ret KERN_NOT_WAITING.

Definition waitq_pull_thread_locked (q t : nat) : MW bool :=
  wq <- waitq_deref q ;;
  let safeq := safeq_of q wq in
  ok <- waitq_lock_try safeq ;;
  if negb ok then ret false
  else
    waitq_thread_remove safeq t ;;;
    thread_clear_waitq_state t ;;;
    sq <- waitq_deref safeq ;;
    when (waitq_is_global safeq && waitq_empty sq) (waitq_mod safeq (fun x => x <| waitq_eventmask := 0 |>)) ;;;
    waitq_unlock safeq ;;;
    ret true.

(** ** Waking *)

(** Set the selected threads running. *)
Fixpoint go_all (result : Z) (threadq : list nat) (kr : Z) : MW Z :=
  match threadq with
  | [] => ret kr
  | t :: threadq => kr <- thread_go t result ;; thread_unlock t ;;; go_all result threadq kr
  end.
(** [unlock] is [lock_state == WAITQ_UNLOCK]. *)
Definition waitq_wakeup64_all_locked (q : nat) (wake_event result : Z) (unlock : bool) : MW Z :=
  threadq <- do_waitq_select_n_locked q wake_event (-1) ;;
  when unlock (waitq_unlock q) ;;;
  go_all result threadq KERN_NOT_WAITING.
Definition waitq_wakeup64_identify_locked (q : nat) (wake_event result : Z) (unlock : bool) : MW (option nat) :=
  r <- waitq_select_one_locked q wake_event ;;
  when unlock (waitq_unlock q) ;;;
  match r with
  | Some t => thread_go t result ;;; ret (Some t)
  | None => ret None
  end.
Definition waitq_wakeup64_one_locked (q : nat) (wake_event result : Z) (unlock : bool) : MW Z :=
  r <- waitq_select_one_locked q wake_event ;;
  when unlock (waitq_unlock q) ;;;
  match r with
  | Some t => kr <- thread_go t result ;; thread_unlock t ;;; ret kr
  | None => ret KERN_NOT_WAITING
  end.
Definition waitq_wakeup64_thread_locked (q : nat) (wake_event : Z) (t : nat) (result : Z) (unlock : bool) : MW Z :=
  kr <- waitq_select_thread_locked q wake_event t ;;
  when unlock (waitq_unlock q) ;;;
  if negb (kr =? KERN_SUCCESS) then ret KERN_NOT_WAITING
  else kr <- thread_go t result ;; thread_unlock t ;;; ret kr.

Definition waitq_valid (q : nat) : MW unit :=
  wq <- waitq_deref q ;; ensure (waitq_isvalid wq) "Invalid waitq".
Definition waitq_assert_wait64 (self q : nat) (wait_event interruptible deadline : Z) : MW Z :=
  waitq_valid q ;;; waitq_lock q ;;;
  r <- waitq_assert_wait64_locked q wait_event interruptible deadline self ;;
  waitq_unlock q ;;; ret r.
Definition waitq_wakeup64_one (q : nat) (wake_event result : Z) : MW Z :=
  waitq_valid q ;;; waitq_lock q ;;; waitq_wakeup64_one_locked q wake_event result true.
Definition waitq_wakeup64_all (q : nat) (wake_event result : Z) : MW Z :=
  waitq_valid q ;;; waitq_lock q ;;; waitq_wakeup64_all_locked q wake_event result true.
Definition waitq_wakeup64_thread (q : nat) (wake_event : Z) (t : nat) (result : Z) : MW Z :=
  waitq_valid q ;;; waitq_lock q ;;;
  kr <- waitq_select_thread_locked q wake_event t ;;
  waitq_unlock q ;;;
  if kr =? KERN_SUCCESS then kr <- thread_go t result ;; thread_unlock t ;;; ret kr else ret KERN_NOT_WAITING.

(** ** Waiting for events, and being pulled out ([thread.c]) *)

Definition not_no_event (event : Z) : MW unit := ensure (negb (event =? NO_EVENT)) "called with NO_EVENT".
Definition thread_wakeup_prim (event : Z) (one_thread : bool) (result : Z) : MW Z :=
  not_no_event event ;;;
  let wq := global_eventq event in
  if one_thread then waitq_wakeup64_one wq event result else waitq_wakeup64_all wq event result.
Definition thread_wakeup_thread (event : Z) (t : option nat) : MW Z :=
  not_no_event event ;;;
  match t with
  | None => panic "called with THREAD_NULL"
  | Some t => waitq_wakeup64_thread (global_eventq event) event t THREAD_AWAKENED
  end.
Definition assert_wait (self : nat) (event interruptible : Z) : MW Z :=
  not_no_event event ;;; waitq_assert_wait64 self (global_eventq event) event interruptible 0.
Definition assert_wait_deadline (self : nat) (event interruptible deadline : Z) : MW Z :=
  not_no_event event ;;;
  let q := global_eventq event in
  waitq_lock q ;;;
  r <- waitq_assert_wait64_locked q event interruptible deadline self ;;
  waitq_unlock q ;;; ret r.

(** The loop ends only when the queue's lock is free: [LockTimeOutUsec] is never
    counted down, since [machine_timeout_suspended] is a stub that returns true.
    [tries] bounds the attempts of the model. *)
Fixpoint clear_wait_loop (waitq : option nat) (t : nat) (wresult : Z) (fuel : nat) : MW Z :=
  match fuel with
  | O => hang
  | S fuel =>
      x <- thread_deref t ;;
      if (wresult =? THREAD_INTERRUPTED) && has (t_state x) TH_UNINT then ret KERN_FAILURE
      else
        pulled <- match waitq with Some q => waitq_pull_thread_locked q t | None => ret true end ;;
        if negb pulled then
          thread_unlock t ;;;
          thread_lock t ;;;
          y <- thread_deref t ;;
          if bool_decide (waitq <> t_waitq y) then ret KERN_NOT_WAITING
          else clear_wait_loop waitq t wresult fuel
        else
          y <- thread_deref t ;;
          if Z.land (t_state y) (Z.lor TH_WAIT TH_TERMINATE) =? TH_WAIT then thread_go t wresult else ret KERN_NOT_WAITING
  end.
Definition clear_wait_internal (t : nat) (wresult : Z) : MW Z :=
  x <- thread_deref t ;; clear_wait_loop (t_waitq x) t wresult (S tries).
Definition clear_wait (t : nat) (result : Z) : MW Z :=
  thread_lock t ;;; r <- clear_wait_internal t result ;; thread_unlock t ;;; ret r.

Definition thread_timer_expire (t : nat) : MW unit :=
  thread_lock t ;;;
  thread_mod t (fun x => x <| t_wait_timer_active ::= fun n => u16 (n - 1) |>) ;;;
  x <- thread_deref t ;;
  when ((t_wait_timer_active x =? 0) && t_wait_timer_is_set x)
    (thread_mod t (fun x => x <| t_wait_timer_is_set := false |>) ;;; clear_wait_internal t THREAD_TIMED_OUT ;;; ret tt) ;;;
  thread_unlock t.

(** The timer queue reaches the wait timer of a thread: the call is taken off the
    queue and its function runs. *)
Definition timer_fires (t : nat) : MW unit :=
  x <- thread_deref t ;;
  when (tc_queued (t_wait_timer x)) (thread_mod t (fun x => x <| t_wait_timer := timer_call_fire (t_wait_timer x) |>) ;;; thread_timer_expire t).

(** ** Interruption and death ([dtape_thread_sigexc_enter], [dtape_thread_dying]) *)
Definition dtape_thread_sigexc_enter (t : nat) : MW unit :=
  thread_lock t ;;;
  thread_mod t (fun x => x <| t_state ::= fun st => clr st (Z.lor TH_UNINT TH_WAIT) |> <| t_wait_result := THREAD_INTERRUPTED |>) ;;;
  clear_wait_internal t THREAD_INTERRUPTED ;;;
  thread_unlock t.
Definition dtape_thread_dying (t : nat) : MW unit :=
  thread_lock t ;;;
  thread_mod t (fun x => x <| t_state ::= fun st => Z.lor (clr st (Z.lor TH_UNINT TH_WAIT)) TH_TERMINATE |> <| t_wait_result := THREAD_INTERRUPTED |>) ;;;
  clear_wait_internal t THREAD_INTERRUPTED ;;;
  thread_unlock t.

(** ** Blocking

    [thread_block_parameter] in its three pieces: what it does before the hook
    (the result tells whether the thread is to be suspended), the hook, and what
    it does after.  [cont] says whether a continuation is given. *)
Definition block_prepare (self : nat) (cont : bool) : MW bool :=
  thread_lock self ;;;
  thread_mod self (fun x => x <| t_continuation := cont |>) ;;;
  x <- thread_deref self ;;
  thread_unlock self ;;;
  ret (has (t_state x) TH_WAIT).
Definition block_result (self : nat) : MW Z :=
  thread_lock self ;;; x <- thread_deref self ;; thread_unlock self ;;; ret (t_wait_result x).
(** [thread_continuation_callback], up to the call of the continuation. *)
Definition thread_continuation_callback (t : nat) : MW Z :=
  thread_lock t ;;;
  thread_mod t (fun x => x <| t_continuation := false |>) ;;;
  x <- thread_deref t ;;
  thread_unlock t ;;;
  ret (t_wait_result x).
(** Blocking while nobody else runs: [None] when the thread is suspended and off the
    processor, otherwise the wait result of a thread that need not wait. *)
Definition thread_block_parameter (self : nat) (cont : bool) : MW (option Z) :=
  waiting <- block_prepare self cont ;;
  if waiting then Thread_suspend self ;;; doneWorking self ;;; ret None
  else r <- block_result self ;; ret (Some r).
(** A worker takes the thread from the work queue: the wait result, if the
    suspended code goes on. *)
Definition resumed (t : nat) : MW (option Z) :=
  go <- doWork t ;;
  if negb go then ret None
  else
    x <- thread_deref t ;;
    r <- (if t_continuation x then thread_continuation_callback t else block_result t) ;;
    ret (Some r).
(** A worker of the server takes the next microthread from the work queue. *)
Definition worker : MW (option (nat * Z)) :=
  l <- gets workq ;;
  match l with
  | [] => ret None
  | t :: l => modify (fun s => s <| workq := l |>) ;;; r <- resumed t ;; ret ((fun r => (t, r)) <$> r)
  end.

(** The end of a thread's waits in [dtape_thread_destroy].  The loop on
    [wait_timer_active] spins with the thread locked, and only
    [thread_timer_expire], which needs that lock, counts it down. *)
Definition destroy_waits (t : nat) : MW unit :=
  thread_lock t ;;;
  x <- thread_deref t ;;
  when (t_wait_timer_is_set x)
    (thread_mod t (fun x => x <| t_wait_timer_is_set := false |>) ;;;
     let '(was, tc) := timer_call_cancel (t_wait_timer x) in
     thread_mod t (fun x => x <| t_wait_timer := tc |>) ;;;
     when was (thread_mod t (fun x => x <| t_wait_timer_active ::= fun n => u16 (n - 1) |>))) ;;;
  x <- thread_deref t ;;
  if 0 <? t_wait_timer_active x then hang
  else
    thread_mod t (fun x => x <| t_state ::= fun st => clr (Z.lor st TH_TERMINATE) TH_UNINT |>) ;;;
    clear_wait_internal t THREAD_INTERRUPTED ;;;
    thread_unlock t.
End WaitQ.
Arguments thread : clear implicits.
Arguments wst : clear implicits.
Arguments MW : clear implicits.
End WaitQ.
