(* ===== verification/WaitQProps.v ===== *)
(** * Wait queues: well-formedness, selection and waking

    The account between threads and queues that every operation of [WaitQ] keeps,
    and what each operation does, as equations on the state. *)
From S2P Require Import Prelude WaitQ.

Module WaitQProps.
Export WaitQ.
Section WaitQProps.
Context {T : Type} `{TimerCall T} `{Kernel}.
Notation st := (wst T).

(** ** States, changed at some threads and at a queue *)
Definition on_threads (ts : gset nat) (f : thread T -> thread T) (s : st) : st :=
  s <| threads ::= map_imap (fun t x => Some (if decide (t ∈ ts) then f x else x)) |>.
Definition on_queue (q : nat) (f : waitq -> waitq) (s : st) : st := s <| waitqs ::= alter f q |>.
Definition add_work (l : list nat) (s : st) : st := s <| workq ::= fun w => w ++ l |>.

Lemma on_threads_lookup ts f s t :
  threads (on_threads ts f s) !! t = (fun x => if decide (t ∈ ts) then f x else x) <$> threads s !! t.
Proof. cbn. rewrite map_lookup_imap. by destruct (threads s !! t). Qed.
Lemma on_threads_in ts f s t x : threads s !! t = Some x -> t ∈ ts -> threads (on_threads ts f s) !! t = Some (f x).
Proof. intros Hx Ht. rewrite on_threads_lookup, Hx. cbn. by rewrite decide_True. Qed.
Lemma on_threads_out ts f s t : t ∉ ts -> threads (on_threads ts f s) !! t = threads s !! t.
Proof. intros Ht. rewrite on_threads_lookup. destruct (threads s !! t); cbn; [by rewrite decide_False|done]. Qed.
Lemma on_threads_one t f s x : threads s !! t = Some x -> on_threads {[t]} f s = s <| threads := <[t := f x]> (threads s) |>.
Proof.
  intros Hx. unfold on_threads, update. cbn. f_equal. apply map_eq. intros u. rewrite map_lookup_imap.
  destruct (decide (u = t)) as [->|Hu].
  - rewrite Hx, lookup_insert_eq. cbn. by rewrite decide_True by set_solver.
  - rewrite lookup_insert_ne by done. destruct (threads s !! u); cbn; [|done]. by rewrite decide_False by set_solver.
Qed.
Lemma on_threads_twice ts f g s : on_threads ts f (on_threads ts g s) = on_threads ts (fun x => f (g x)) s.
Proof.
  unfold on_threads, update. cbn. f_equal. apply map_eq. intros u. rewrite !map_lookup_imap.
  destruct (threads s !! u); cbn; [|done]. by destruct (decide (u ∈ ts)).
Qed.
Lemma on_threads_union ts us f s : ts ## us -> on_threads ts f (on_threads us f s) = on_threads (ts ∪ us) f s.
Proof.
  intros Hd. unfold on_threads, update. cbn. f_equal. apply map_eq. intros u. rewrite !map_lookup_imap.
  destruct (threads s !! u); cbn; [|done]. f_equal.
  destruct (decide (u ∈ ts)), (decide (u ∈ us)), (decide (u ∈ ts ∪ us)); try done; set_solver.
Qed.
Lemma on_threads_ext ts f g s : (forall t x, t ∈ ts -> threads s !! t = Some x -> f x = g x) -> on_threads ts f s = on_threads ts g s.
Proof.
  intros Hfg. unfold on_threads, update. cbn. f_equal. apply map_eq. intros u. rewrite !map_lookup_imap.
  destruct (threads s !! u) eqn:E; cbn; [|done]. case_decide; [|done]. f_equal. eauto.
Qed.
Lemma on_threads_id ts f s : (forall t x, t ∈ ts -> threads s !! t = Some x -> f x = x) -> on_threads ts f s = s.
Proof.
  intros Hf. destruct s as [ths qs w]. unfold on_threads, update. cbn. f_equal. apply map_eq. intros u. rewrite map_lookup_imap.
  destruct (ths !! u) eqn:E; cbn; [|done]. case_decide; [|done]. f_equal. eauto.
Qed.
Lemma on_queue_lookup q f s : waitqs (on_queue q f s) !! q = f <$> waitqs s !! q.
Proof. apply lookup_alter_eq. Qed.
Lemma on_queue_ne q f s p : p <> q -> waitqs (on_queue q f s) !! p = waitqs s !! p.
Proof. intros. by apply lookup_alter_ne. Qed.
Lemma on_queue_one q f s x : waitqs s !! q = Some x -> on_queue q f s = s <| waitqs := <[q := f x]> (waitqs s) |>.
Proof.
  intros Hx. unfold on_queue, update. cbn. f_equal. apply map_eq. intros u. destruct (decide (u = q)) as [->|Hu].
  - by rewrite lookup_alter_eq, Hx, lookup_insert_eq.
  - by rewrite lookup_alter_ne, lookup_insert_ne by done.
Qed.
Lemma on_queue_twice q f g s : on_queue q f (on_queue q g s) = on_queue q (fun x => f (g x)) s.
Proof.
  unfold on_queue, update. cbn. f_equal. apply map_eq. intros u. destruct (decide (u = q)) as [->|Hu].
  - rewrite !lookup_alter_eq. by destruct (waitqs s !! q).
  - by rewrite !lookup_alter_ne by done.
Qed.
Lemma on_queue_threads q f ts g s : on_queue q f (on_threads ts g s) = on_threads ts g (on_queue q f s).
Proof. done. Qed.
Lemma on_queue_ext q f g s : (forall x, waitqs s !! q = Some x -> f x = g x) -> on_queue q f s = on_queue q g s.
Proof.
  intros Hfg. unfold on_queue, update. cbn. f_equal. apply map_eq. intros u. destruct (decide (u = q)) as [->|Hu].
  - rewrite !lookup_alter_eq. destruct (waitqs s !! q) eqn:E; [|done]. cbn. f_equal. eauto.
  - by rewrite !lookup_alter_ne by done.
Qed.

Lemma add_work_nil s : add_work [] s = s.
Proof. unfold add_work, update. cbn. rewrite app_nil_r. by destruct s. Qed.
Lemma add_work_app l l' s : add_work l (add_work l' s) = add_work (l' ++ l) s.
Proof. unfold add_work, update. cbn. by rewrite app_assoc. Qed.
Lemma on_threads_work ts f l s : on_threads ts f (add_work l s) = add_work l (on_threads ts f s).
Proof. done. Qed.
Lemma on_queue_work q f l s : on_queue q f (add_work l s) = add_work l (on_queue q f s).
Proof. done. Qed.
Lemma on_threads_ext1 t x f g s : threads s !! t = Some x -> f x = g x -> on_threads {[t]} f s = on_threads {[t]} g s.
Proof. intros E Hfg. apply on_threads_ext. intros u y ->%elem_of_singleton. rewrite E. by intros [= <-]. Qed.
Lemma on_queue_ext1 q x f g s : waitqs s !! q = Some x -> f x = g x -> on_queue q f s = on_queue q g s.
Proof. intros E Hfg. apply on_queue_ext. intros y. rewrite E. by intros [= <-]. Qed.

(** ** Rules for the accessors *)
Lemma wp_thread_deref t x s (Q : thread T -> st -> Prop) : threads s !! t = Some x -> Q x s -> wp (thread_deref t) Q s.
Proof. intros E HQ. unfold wp, thread_deref. by rewrite E. Qed.
Lemma wp_waitq_deref q x s (Q : waitq -> st -> Prop) : waitqs s !! q = Some x -> Q x s -> wp (waitq_deref q) Q s.
Proof. intros E HQ. unfold wp, waitq_deref. by rewrite E. Qed.
Lemma wp_thread_mod t f x s (Q : unit -> st -> Prop) :
  threads s !! t = Some x -> Q tt (on_threads {[t]} f s) -> wp (thread_mod t f) Q s.
Proof. intros E HQ. unfold thread_mod. apply wp_bind. eapply wp_thread_deref; [done|]. apply wp_modify. by erewrite <- on_threads_one. Qed.
Lemma wp_waitq_mod q f x s (Q : unit -> st -> Prop) :
  waitqs s !! q = Some x -> Q tt (on_queue q f s) -> wp (waitq_mod q f) Q s.
Proof. intros E HQ. unfold waitq_mod. apply wp_bind. eapply wp_waitq_deref; [done|]. apply wp_modify. by erewrite <- on_queue_one. Qed.

Definition tlock (b : bool) (x : thread T) : thread T := x <| t_locked := b |>.
Definition qlock (b : bool) (x : waitq) : waitq := x <| waitq_locked := b |>.
Lemma wp_thread_lock t x s (Q : unit -> st -> Prop) :
  threads s !! t = Some x -> t_locked x = false -> Q tt (on_threads {[t]} (tlock true) s) -> wp (thread_lock t) Q s.
Proof. intros E Hl HQ. unfold thread_lock. apply wp_bind. eapply wp_thread_deref; [done|]. rewrite Hl. by eapply wp_thread_mod. Qed.
Lemma wp_thread_unlock t x s (Q : unit -> st -> Prop) :
  threads s !! t = Some x -> t_locked x = true -> Q tt (on_threads {[t]} (tlock false) s) -> wp (thread_unlock t) Q s.
Proof.
  intros E Hl HQ. unfold thread_unlock. apply wp_bind. eapply wp_thread_deref; [done|]. rewrite Hl.
  apply wp_bind, wp_ensure; [done|]. by eapply wp_thread_mod.
Qed.
Lemma wp_waitq_lock q x s (Q : unit -> st -> Prop) :
  waitqs s !! q = Some x -> waitq_locked x = false -> Q tt (on_queue q (qlock true) s) -> wp (waitq_lock q) Q s.
Proof. intros E Hl HQ. unfold waitq_lock. apply wp_bind. eapply wp_waitq_deref; [done|]. rewrite Hl. by eapply wp_waitq_mod. Qed.
Lemma wp_waitq_unlock q x s (Q : unit -> st -> Prop) :
  waitqs s !! q = Some x -> waitq_locked x = true -> Q tt (on_queue q (qlock false) s) -> wp (waitq_unlock q) Q s.
Proof.
  intros E Hl HQ. unfold waitq_unlock. apply wp_bind. eapply wp_waitq_deref; [done|]. rewrite Hl.
  apply wp_bind, wp_ensure; [done|]. by eapply wp_waitq_mod.
Qed.

(** ** The account of threads and queues *)

Definition covers (m b : Z) : Prop := Z.land m b = b.
(** Thread [t] waits on a queue whose waiters are kept on queue [sq]. *)
Definition waits_at (s : st) (t sq : nat) : Prop :=
  exists x q wq, threads s !! t = Some x /\ t_waitq x = Some q /\ waitqs s !! q = Some wq /\ safeq_of q wq = sq.
(** Its bits in that queue's event mask. *)
Definition bits (s : st) (t : nat) : Z :=
  match threads s !! t with
  | Some x => match t_waitq x with
              | Some q => match waitqs s !! q with Some wq => mask_of q wq (t_wait_event x) | None => 0 end
              | None => 0
              end
  | None => 0
  end.

(** [Lq] and [Lt] are the queues and the threads that are locked. *)
Record wf (Lq Lt : gset nat) (s : st) : Prop := {
  wf_global q : (q < g_num_waitqs)%nat -> exists wq, waitqs s !! q = Some wq /\ waitq_irq wq = true;
  wf_valid q wq : waitqs s !! q = Some wq -> waitq_isvalid wq = true;
  wf_queue sq wq t : waitqs s !! sq = Some wq -> t ∈ waitq_queue wq <-> waits_at s t sq;
  wf_nodup sq wq : waitqs s !! sq = Some wq -> NoDup (waitq_queue wq);
  wf_waitq t x q : threads s !! t = Some x -> t_waitq x = Some q -> is_Some (waitqs s !! q);
  wf_mask sq wq t : (sq < g_num_waitqs)%nat -> waitqs s !! sq = Some wq -> t ∈ waitq_queue wq -> covers (waitq_eventmask wq) (bits s t);
  wf_qlock q wq : waitqs s !! q = Some wq -> waitq_locked wq = bool_decide (q ∈ Lq);
  wf_tlock t x : threads s !! t = Some x -> t_locked x = bool_decide (t ∈ Lt);
}.

Lemma eventq_global e : (global_eventq e < g_num_waitqs)%nat.
Proof.
  unfold global_eventq, waitq_hash. destruct some_waitqs as [Hlo Hhi].
  pose proof (u32_range (hash e)) as Hh. rewrite (u32_id (Z.of_nat g_num_waitqs - 1)) by lia.
  set (a := u32 _) in *. set (g := Z.of_nat g_num_waitqs) in *.
  assert (0 <= Z.land a (g - 1) <= g - 1).
  { split; [apply Z.land_nonneg; lia|]. rewrite <- (Z2N.id a), <- (Z2N.id (g - 1)), <- N2Z.inj_land by lia. apply N2Z.inj_le, N.land_le_r. }
  lia.
Qed.
Lemma safeq_global q : (waitq_get_safeq q < g_num_waitqs)%nat.
Proof. apply eventq_global. Qed.

Lemma covers_lor_r m b : covers (Z.lor m b) b.
Proof. unfold covers. apply Z.bits_inj'. intros n _. rewrite Z.land_spec, Z.lor_spec. by destruct (Z.testbit m n), (Z.testbit b n). Qed.
Lemma covers_lor_l m m' b : covers m b -> covers (Z.lor m m') b.
Proof.
  unfold covers. intros E. apply Z.bits_inj'. intros n Hn. apply Z.bits_inj_iff in E. specialize (E n).
  rewrite Z.land_spec in E |- *. rewrite Z.lor_spec. by destruct (Z.testbit m n), (Z.testbit m' n), (Z.testbit b n).
Qed.

(** What a thread waits for: all that the account sees of it. *)
Definition waits_for (x : thread T) : option nat * Z := (t_waitq x, t_wait_event x).
(** All the account sees of a queue, besides its lock and its mask. *)
Definition shape (w : waitq) : bool * bool * list nat := (waitq_irq w, waitq_isvalid w, waitq_queue w).
Lemma safeq_of_irq q w w' : waitq_irq w = waitq_irq w' -> safeq_of q w = safeq_of q w'.
Proof. unfold safeq_of. by intros ->. Qed.
Lemma mask_of_irq q w w' e : waitq_irq w = waitq_irq w' -> mask_of q w e = mask_of q w' e.
Proof. unfold mask_of. by intros ->. Qed.

(** Changes that the account does not see. *)
Lemma wf_on_threads Lq Lt Lt' ts f s :
  wf Lq Lt s -> (forall t x, t ∈ ts -> threads s !! t = Some x -> waits_for (f x) = waits_for x /\ t_locked (f x) = bool_decide (t ∈ Lt')) ->
  (forall t, t ∉ ts -> t ∈ Lt' <-> t ∈ Lt) -> wf Lq Lt' (on_threads ts f s).
Proof.
  intros W Hf Hl.
  assert (Hx : forall t y, threads (on_threads ts f s) !! t = Some y ->
    exists x, threads s !! t = Some x /\ waits_for y = waits_for x /\ t_locked y = bool_decide (t ∈ Lt')).
  { intros t y. rewrite on_threads_lookup. destruct (threads s !! t) as [x|] eqn:E; cbn; [|done]. intros [= <-]. exists x. split; [done|].
    case_decide as Ht; [by apply Hf|]. split; [done|]. rewrite (wf_tlock _ _ _ W _ _ E). apply bool_decide_ext. by rewrite Hl. }
  assert (Hw : forall t x, threads s !! t = Some x -> exists y, threads (on_threads ts f s) !! t = Some y /\ waits_for y = waits_for x).
  { intros t x E. rewrite on_threads_lookup, E. cbn. eexists. split; [done|]. case_decide as Ht; [by apply (Hf t)|done]. }
  assert (Hbits : forall t, bits (on_threads ts f s) t = bits s t).
  { intros t. unfold bits. destruct (threads (on_threads ts f s) !! t) as [y|] eqn:E.
    - destruct (Hx _ _ E) as (x & -> & Ew & _). unfold waits_for in Ew. injection Ew as -> ->. done.
    - rewrite on_threads_lookup in E. by destruct (threads s !! t). }
  assert (Hat : forall t sq, waits_at (on_threads ts f s) t sq <-> waits_at s t sq).
  { intros t sq. unfold waits_at. split; intros (x & q & wq & E & Eq & Ewq & Es).
    - destruct (Hx _ _ E) as (x0 & E0 & Ew & _). injection Ew as Ew _. exists x0, q, wq. rewrite <- Ew. done.
    - destruct (Hw _ _ E) as (y & Ey & Ew). injection Ew as Ew _. exists y, q, wq. rewrite Ew. done. }
  destruct W. constructor; try done.
  - intros sq wq t Es. rewrite Hat. by apply wf_queue0.
  - intros t y q E Eq. destruct (Hx _ _ E) as (x & E0 & Ew & _). injection Ew as Ew _. eapply wf_waitq0; [done|congruence].
  - intros sq wq t Hg Es Ht. rewrite Hbits. by eapply wf_mask0.
  - intros t y E. by destruct (Hx _ _ E) as (x & _ & _ & ->).
Qed.
Lemma wf_on_queue Lq Lq' Lt q f s :
  wf Lq Lt s -> (forall w, waitqs s !! q = Some w -> shape (f w) = shape w /\ waitq_locked (f w) = bool_decide (q ∈ Lq')) ->
  (forall p, p <> q -> p ∈ Lq' <-> p ∈ Lq) ->
  (forall w u, (q < g_num_waitqs)%nat -> waitqs s !! q = Some w -> u ∈ waitq_queue w -> covers (waitq_eventmask w) (bits s u) ->
     covers (waitq_eventmask (f w)) (bits s u)) ->
  wf Lq' Lt (on_queue q f s).
Proof.
  intros W Hf Hl Hm.
  assert (Hx : forall p w', waitqs (on_queue q f s) !! p = Some w' ->
    exists w, waitqs s !! p = Some w /\ shape w' = shape w /\ waitq_locked w' = bool_decide (p ∈ Lq')).
  { intros p w'. destruct (decide (p = q)) as [->|Hp].
    - rewrite on_queue_lookup. destruct (waitqs s !! q) as [w|] eqn:E; cbn; [|done]. intros [= <-]. exists w. split; [done|]. by apply Hf.
    - rewrite on_queue_ne by done. intros E. exists w'. split_and!; [done..|]. rewrite (wf_qlock _ _ _ W _ _ E). apply bool_decide_ext. by rewrite Hl. }
  assert (Hw : forall p w, waitqs s !! p = Some w -> exists w', waitqs (on_queue q f s) !! p = Some w' /\ shape w' = shape w).
  { intros p w E. destruct (decide (p = q)) as [->|Hp]; [|exists w; by rewrite on_queue_ne].
    exists (f w). rewrite on_queue_lookup, E. split; [done|]. by apply Hf. }
  assert (Hat : forall t sq, waits_at (on_queue q f s) t sq <-> waits_at s t sq).
  { intros t sq. unfold waits_at. split; intros (x & p & w & E & Eq & Ew & Es).
    - destruct (Hx _ _ Ew) as (w0 & E0 & Sh & _). injection Sh as Sh _ _. exists x, p, w0. rewrite <- (safeq_of_irq p w w0 Sh). done.
    - destruct (Hw _ _ Ew) as (w' & E' & Sh). injection Sh as Sh _ _. exists x, p, w'. rewrite (safeq_of_irq p w' w Sh). done. }
  assert (Hbits : forall t, bits (on_queue q f s) t = bits s t).
  { intros t. unfold bits. change (threads (on_queue q f s)) with (threads s). destruct (threads s !! t) as [x|]; [|done].
    destruct (t_waitq x) as [p|]; [|done]. destruct (waitqs s !! p) as [w|] eqn:E.
    - destruct (Hw _ _ E) as (w' & -> & Sh). injection Sh as Sh _ _. by apply mask_of_irq.
    - destruct (waitqs (on_queue q f s) !! p) as [w'|] eqn:E'; [|done]. destruct (Hx _ _ E') as (? & ? & _). congruence. }
  destruct W. constructor.
  - intros p Hp. destruct (wf_global0 p Hp) as (w & E & Ei). destruct (Hw _ _ E) as (w' & E' & Sh). exists w'. split; [done|]. by injection Sh as -> _ _.
  - intros p w' E. destruct (Hx _ _ E) as (w & E0 & Sh & _). injection Sh as _ -> _. eauto.
  - intros sq w' t E. rewrite Hat. destruct (Hx _ _ E) as (w & E0 & Sh & _). injection Sh as _ _ ->. by apply wf_queue0.
  - intros sq w' E. destruct (Hx _ _ E) as (w & E0 & Sh & _). injection Sh as _ _ ->. eauto.
  - intros t x p Ex Eq. destruct (wf_waitq0 _ _ _ Ex Eq) as [w E]. destruct (Hw _ _ E) as (w' & -> & _). eauto.
  - intros sq w' t Hg E. rewrite Hbits. destruct (decide (sq = q)) as [->|Hne].
    + rewrite on_queue_lookup in E. destruct (waitqs s !! q) as [w|] eqn:E0; [|done]. cbn in E. injection E as <-.
      destruct (Hf w eq_refl) as [Sh _]. injection Sh as _ _ ->. intros Ht. apply Hm; [done..|]. by eapply wf_mask0.
    + rewrite on_queue_ne in E by done. by eapply wf_mask0.
  - intros p w' E. by destruct (Hx _ _ E) as (w & _ & _ & ->).
  - done.
Qed.
Lemma wf_add_work Lq Lt l s : wf Lq Lt s -> wf Lq Lt (add_work l s).
Proof. intros W. destruct W. by constructor. Qed.

(** A state that differs at one thread and one queue. *)
Record touched (t : nat) (y : thread T) (sq : nat) (w w' : waitq) (s s' : st) : Prop := {
  tc_thread : threads s' !! t = Some y;
  tc_other u : u <> t -> threads s' !! u = threads s !! u;
  tc_from : waitqs s !! sq = Some w;
  tc_to : waitqs s' !! sq = Some w';
  tc_rest p : p <> sq -> waitqs s' !! p = waitqs s !! p;
  tc_irq : waitq_irq w' = waitq_irq w;
  tc_valid : waitq_isvalid w' = waitq_isvalid w;
  tc_lock : waitq_locked w' = waitq_locked w;
}.
Lemma touch t x sq w f g s :
  threads s !! t = Some x -> waitqs s !! sq = Some w ->
  waitq_irq (g w) = waitq_irq w -> waitq_isvalid (g w) = waitq_isvalid w -> waitq_locked (g w) = waitq_locked w ->
  touched t (f x) sq w (g w) s (on_threads {[t]} f (on_queue sq g s)).
Proof.
  intros Ex Ew. constructor; try done.
  - apply on_threads_in; [done|set_solver].
  - intros u Hu. rewrite on_threads_out by set_solver. done.
  - change (waitqs (on_queue sq g s) !! sq = Some (g w)). by rewrite on_queue_lookup, Ew.
  - intros p Hp. by apply on_queue_ne.
Qed.

Section Touched.
Context {t y sq w w' s s'} (C : touched t y sq w w' s s').

Lemma touched_queue p v : waitqs s' !! p = Some v ->
  exists v0, waitqs s !! p = Some v0 /\ waitq_irq v = waitq_irq v0 /\ waitq_isvalid v = waitq_isvalid v0 /\ waitq_locked v = waitq_locked v0 /\
    ((p = sq /\ v = w' /\ v0 = w) \/ (p <> sq /\ v = v0)).
Proof.
  destruct C. intros E. destruct (decide (p = sq)) as [->|Hp].
  - exists w. assert (v = w') as -> by congruence. split_and!; try done. by left.
  - exists v. rewrite tc_rest0 in E by done. split_and!; try done. by right.
Qed.
Lemma touched_queue_inv p v0 : waitqs s !! p = Some v0 -> exists v, waitqs s' !! p = Some v /\ waitq_irq v = waitq_irq v0.
Proof.
  destruct C. intros E. destruct (decide (p = sq)) as [->|Hp]; [|exists v0; by rewrite tc_rest0].
  exists w'. split; [done|]. congruence.
Qed.
Lemma touched_at u p : u <> t -> waits_at s' u p <-> waits_at s u p.
Proof.
  intros Hu. unfold waits_at. rewrite (tc_other _ _ _ _ _ _ _ C u Hu). split; intros (x & q & v & E & Eq & Ev & Es).
  - destruct (touched_queue _ _ Ev) as (v0 & Ev0 & Ei & _). exists x, q, v0. rewrite <- (safeq_of_irq q v v0 Ei). done.
  - destruct (touched_queue_inv _ _ Ev) as (v1 & Ev1 & Ei). exists x, q, v1. rewrite (safeq_of_irq q v1 v Ei). done.
Qed.
Lemma touched_bits u : u <> t -> bits s' u = bits s u.
Proof.
  intros Hu. unfold bits. rewrite (tc_other _ _ _ _ _ _ _ C u Hu). destruct (threads s !! u) as [x|]; [|done]. destruct (t_waitq x) as [q|]; [|done].
  destruct (waitqs s' !! q) as [v|] eqn:E.
  - destruct (touched_queue _ _ E) as (v0 & -> & Ei & _). by apply mask_of_irq.
  - destruct (waitqs s !! q) as [v0|] eqn:E0; [|done]. destruct (touched_queue_inv _ _ E0) as (? & ? & _). congruence.
Qed.

(** The account holds again once it holds of the thread and of the queue. *)
Lemma wf_touched Lq Lt Lt' :
  wf Lq Lt s -> (forall u, u <> t -> u ∈ Lt' <-> u ∈ Lt) -> t_locked y = bool_decide (t ∈ Lt') ->
  (forall q, t_waitq y = Some q -> is_Some (waitqs s !! q)) -> NoDup (waitq_queue w') ->
  (forall p, waits_at s t p -> p = sq) -> (forall p, waits_at s' t p -> p = sq) ->
  (t ∈ waitq_queue w' <-> waits_at s' t sq) -> (forall u, u <> t -> u ∈ waitq_queue w' <-> u ∈ waitq_queue w) ->
  ((sq < g_num_waitqs)%nat -> forall u, u ∈ waitq_queue w' -> covers (waitq_eventmask w') (bits s' u)) ->
  wf Lq Lt' s'.
Proof.
  intros [Wg Wv Wq Wn Ww Wm Wl Wt] HLt Hy Hyq Hnd Hat Hat' Htin Hin Hmask. constructor.
  - intros p Hp. destruct (Wg p Hp) as (v0 & E & Ei). destruct (touched_queue_inv _ _ E) as (v & E' & Ei'). exists v. by rewrite Ei'.
  - intros p v E. destruct (touched_queue _ _ E) as (v0 & E0 & _ & -> & _). eauto.
  - intros p v u E. destruct (touched_queue _ _ E) as (v0 & E0 & _ & _ & _ & [(-> & -> & ->)|(Hp & ->)]).
    + destruct (decide (u = t)) as [->|Hu]; [done|]. rewrite Hin, touched_at by done. by apply Wq.
    + destruct (decide (u = t)) as [->|Hu]; [|rewrite touched_at by done; by apply Wq].
      rewrite (Wq _ _ t E0). split; intros Ha; [by apply Hat in Ha|by apply Hat' in Ha].
  - intros p v E. destruct (touched_queue _ _ E) as (v0 & E0 & _ & _ & _ & [(-> & -> & ->)|(Hp & ->)]); [done|eauto].
  - intros u x q E Eq. assert (is_Some (waitqs s !! q)) as [v0 E0].
    { destruct (decide (u = t)) as [->|Hu]; [apply Hyq; rewrite (tc_thread _ _ _ _ _ _ _ C) in E; congruence|].
      rewrite (tc_other _ _ _ _ _ _ _ C) in E by done. eauto. }
    destruct (touched_queue_inv _ _ E0) as (v & -> & _). eauto.
  - intros p v u Hg E Hu. destruct (touched_queue _ _ E) as (v0 & E0 & _ & _ & _ & [(-> & -> & ->)|(Hp & ->)]); [by apply Hmask|].
    rewrite touched_bits; [by eapply Wm|]. intros ->. apply Hp, Hat. by apply (Wq _ _ t E0).
  - intros p v E. destruct (touched_queue _ _ E) as (v0 & E0 & _ & _ & -> & _). eauto.
  - intros u x E. destruct (decide (u = t)) as [->|Hu]; [rewrite (tc_thread _ _ _ _ _ _ _ C) in E; congruence|].
    rewrite (tc_other _ _ _ _ _ _ _ C) in E by done. rewrite (Wt _ _ E). apply bool_decide_ext. by rewrite HLt.
Qed.
End Touched.

Lemma waits_at_one s t p q : waits_at s t p -> waits_at s t q -> p = q.
Proof. intros (? & ? & ? & E1 & E2 & E3 & <-) (? & ? & ? & F1 & F2 & F3 & <-). congruence. Qed.
Lemma waits_at_thread s t p x : waits_at s t p -> threads s !! t = Some x -> exists q wq, t_waitq x = Some q /\ waitqs s !! q = Some wq /\ safeq_of q wq = p.
Proof. intros (y & q & wq & E & ?) E'. rewrite E in E'. injection E' as ->. eauto. Qed.

(** A thread leaves the queue it is on. *)
Definition off (x : thread T) : thread T := x <| t_waitq := None |> <| t_wait_event := NO_EVENT |>.
Lemma wf_pull Lq Lt Lt' t y sq w w' s s' :
  touched t y sq w w' s s' -> wf Lq Lt s -> waits_at s t sq -> t_waitq y = None ->
  t_locked y = bool_decide (t ∈ Lt') -> (forall u, u <> t -> u ∈ Lt' <-> u ∈ Lt) ->
  waitq_queue w' = unlink t (waitq_queue w) ->
  ((sq < g_num_waitqs)%nat -> forall u, u ∈ unlink t (waitq_queue w) -> covers (waitq_eventmask w') (bits s u)) ->
  wf Lq Lt' s'.
Proof.
  intros C W Hat Hy Hl HLt Hq Hm. pose proof (tc_from _ _ _ _ _ _ _ C) as Ew. pose proof (wf_nodup _ _ _ W _ _ Ew) as Hnd.
  assert (Hno : forall p, ~ waits_at s' t p).
  { intros p Ha. destruct (waits_at_thread _ _ _ _ Ha (tc_thread _ _ _ _ _ _ _ C)) as (q & ? & ? & _). congruence. }
  eapply (wf_touched C); try done.
  - congruence.
  - rewrite Hq. by apply NoDup_unlink.
  - intros p Ha. by eapply waits_at_one.
  - intros p Ha. by destruct (Hno p).
  - rewrite Hq, elem_of_unlink_iff by done. split; [tauto|]. intros Ha. by destruct (Hno sq).
  - intros u Hu. rewrite Hq, elem_of_unlink_iff by done. tauto.
  - intros Hg u. rewrite Hq. intros Hu. rewrite (touched_bits C); [by apply Hm|]. by apply elem_of_unlink_iff in Hu as [_ ?].
Qed.
(** A thread that waits nowhere starts to wait. *)
Lemma wf_push Lq Lt Lt' t x y q wq sq w w' s s' :
  touched t y sq w w' s s' -> wf Lq Lt s -> threads s !! t = Some x -> t_waitq x = None ->
  waitqs s !! q = Some wq -> safeq_of q wq = sq -> t_waitq y = Some q ->
  t_locked y = bool_decide (t ∈ Lt') -> (forall u, u <> t -> u ∈ Lt' <-> u ∈ Lt) ->
  waitq_queue w' ≡ₚ t :: waitq_queue w ->
  ((sq < g_num_waitqs)%nat -> waitq_eventmask w' = Z.lor (waitq_eventmask w) (mask_of q wq (t_wait_event y))) ->
  wf Lq Lt' s'.
Proof.
  intros C W Ex Hx Eq Es Hy Hl HLt Hq Hm. pose proof (tc_from _ _ _ _ _ _ _ C) as Ew. pose proof (wf_nodup _ _ _ W _ _ Ew) as Hnd.
  assert (Hno : forall p, ~ waits_at s t p).
  { intros p Ha. destruct (waits_at_thread _ _ _ _ Ha Ex) as (? & ? & ? & _). congruence. }
  assert (Htn : t ∉ waitq_queue w) by (rewrite (wf_queue _ _ _ W _ _ t Ew); apply Hno).
  destruct (touched_queue_inv C _ _ Eq) as (wq' & Eq' & Ei).
  assert (Hyes : waits_at s' t sq).
  { exists y, q, wq'. split_and!; [apply C|done|done|]. by rewrite (safeq_of_irq q wq' wq). }
  eapply (wf_touched C); try done.
  - intros q' Eq2. assert (q' = q) as -> by congruence. eauto.
  - rewrite Hq. by constructor.
  - intros p Ha. by destruct (Hno p).
  - intros p Ha. by eapply waits_at_one.
  - rewrite Hq. split; [done|]. intros _. left.
  - intros u Hu. rewrite Hq. set_solver.
  - intros Hg u. rewrite Hq. intros Hu. rewrite (Hm Hg). destruct (decide (u = t)) as [->|Hu'].
    + unfold bits. rewrite (tc_thread _ _ _ _ _ _ _ C), Hy, Eq'. rewrite (mask_of_irq q wq' wq) by done. apply covers_lor_r.
    + rewrite (touched_bits C) by done. apply covers_lor_l. eapply (wf_mask _ _ _ W); [done..|set_solver].
Qed.

Lemma on_queue_in q f s w : waitqs s !! q = Some w -> waitqs (on_queue q f s) !! q = Some (f w).
Proof. intros E. by rewrite on_queue_lookup, E. Qed.
Lemma on_queue_out q f s p w : p <> q -> waitqs s !! p = Some w -> waitqs (on_queue q f s) !! p = Some w.
Proof. intros Hp E. by rewrite on_queue_ne. Qed.

End WaitQProps.

(** Look-ups in a changed state, at the changed places or elsewhere. *)
Ltac look :=
  lazymatch goal with
  | |- threads (on_threads _ _ _) !! _ = _ => first [eapply on_threads_in; [look|by apply elem_of_singleton] | rewrite on_threads_out by (by rewrite elem_of_singleton); look]
  | |- threads (on_queue ?q ?f ?s) !! ?t = ?r => change (threads s !! t = r); look
  | |- threads (add_work ?l ?s) !! ?t = ?r => change (threads s !! t = r); look
  | |- waitqs (on_threads ?ts ?f ?s) !! ?q = ?r => change (waitqs s !! q = r); look
  | |- waitqs (add_work ?l ?s) !! ?q = ?r => change (waitqs s !! q = r); look
  | |- waitqs (on_queue _ _ _) !! _ = _ => first [eapply on_queue_in; look | eapply on_queue_out; [first [done|congruence]|look]]
  | |- _ => eassumption
  end.
(** One step of a program over the state. *)
Ltac wq_step :=
  lazymatch goal with
  | |- wp (bind _ _) _ _ => apply wp_bind
  | |- wp (thread_deref _) _ _ => eapply wp_thread_deref; [look|]
  | |- wp (waitq_deref _) _ _ => eapply wp_waitq_deref; [look|]
  | |- wp (thread_mod _ _) _ _ => eapply wp_thread_mod; [look|]
  | |- wp (waitq_mod _ _) _ _ => eapply wp_waitq_mod; [look|]
  | |- wp (when true _) _ _ => apply wp_when_true
  | |- wp (when false _) _ _ => apply wp_ret
  | |- _ => wp_step
  end; cbv beta.
Ltac wq_go := repeat wq_step.
(** Collect the changes at each thread and each queue. *)
Ltac wq_gather := rewrite ?on_threads_work, ?on_queue_work, ?on_queue_threads, ?on_threads_twice, ?on_queue_twice, ?add_work_app.
(** The goal is what [HQ] says, of an equal state. *)
Ltac by_state HQ :=
  lazymatch type of HQ with
  | ?Q ?s2 => lazymatch goal with |- ?P ?s1 => cut (s2 = s1); [intros <-; exact HQ|] end
  end.
(** Changes of one thread or queue whose old value is known. *)
Ltac same_thread E := eapply on_threads_ext1; [exact E|].
Ltac same_queue E := eapply on_queue_ext1; [exact E|].

(** ** What the operations do *)
Section WaitQOps.
Context {T : Type} `{TimerCall T} `{Kernel}.
Notation st := (wst T).
Implicit Types s : st.
Implicit Types x : thread T.

Definition waits_fifo (w : waitq) (x : thread T) : bool :=
  negb (negb (waitq_fifo w) || has (t_options x) TH_OPT_VMPRIV || (BASEPRI_REALTIME <=? t_sched_pri x)).
(** A thread whose wait timer is set, and a thread that has asserted a wait. *)
Definition armed (deadline : Z) (x : thread T) : thread T :=
  if deadline =? 0 then x
  else let '(act, tc) := timer_call_enter deadline (t_wait_timer x) in
       x <| t_wait_timer := tc |> <| t_wait_timer_active ::= fun n => if act then n else u16 (n + 1) |> <| t_wait_timer_is_set := true |>.
Definition parked_at (q : nat) (event deadline : Z) (x : thread T) : thread T :=
  armed deadline
    (x <| t_state := TH_WAIT |> <| t_wait_result := THREAD_WAITING |> <| t_block_hint := t_pending_block_hint x |>
       <| t_pending_block_hint := kThreadWaitNone |> <| t_wait_event := event |> <| t_waitq := Some q |>).
Definition joined (sq t : nat) (x : thread T) (mask : Z) (w : waitq) : waitq :=
  w <| waitq_queue := if waits_fifo w x then waitq_queue w ++ [t] else t :: waitq_queue w |>
    <| waitq_eventmask ::= fun m => if waitq_is_global sq then Z.lor m mask else m |>.
Definition asserted (q : nat) (wq : waitq) (event deadline : Z) (t : nat) (x : thread T) (s : st) : st :=
  let sq := safeq_of q wq in
  on_threads {[t]} (parked_at q event deadline) (on_queue sq (joined sq t x (mask_of q wq event)) s).


Lemma armed_lock d b x : armed d (tlock b x) = tlock b (armed d x).
Proof. unfold armed. destruct (d =? 0); [done|]. change (t_wait_timer (tlock b x)) with (t_wait_timer x). by destruct (timer_call_enter _ _). Qed.
Lemma parked_lock q e d x : t_locked x = false -> tlock false (parked_at q e d (tlock true x)) = parked_at q e d x.
Proof.
  intros Hl. unfold parked_at. set (y := _ <| t_waitq := _ |>). set (y0 := _ <| t_waitq := _ |>).
  replace y with (tlock true y0) by done. rewrite armed_lock.
  unfold armed. destruct (d =? 0); [|destruct (timer_call_enter _ _)]; unfold y0, tlock; destruct x; cbn in *; by subst.
Qed.
Lemma parked_fields q e d x : let y := parked_at q e d x in
  t_waitq y = Some q /\ t_wait_event y = e /\ t_locked y = t_locked x /\ t_state y = TH_WAIT /\ t_wait_result y = THREAD_WAITING /\
  t_suspended y = t_suspended x /\ t_running y = t_running x.
Proof. unfold parked_at, armed. cbv zeta. destruct (d =? 0); [done|]. by destruct (timer_call_enter _ _). Qed.
Lemma wf_safeq Lq Lt q wq s : wf Lq Lt s -> waitqs s !! q = Some wq -> exists w, waitqs s !! safeq_of q wq = Some w.
Proof.
  intros W Eq. unfold safeq_of. destruct (waitq_irq wq); [eauto|].
  destruct (wf_global _ _ _ W (waitq_get_safeq q) (safeq_global q)) as (w & E & _). eauto.
Qed.
Lemma wf_asserted Lq Lt q wq event deadline t x s :
  wf Lq Lt s -> threads s !! t = Some x -> t_waitq x = None -> waitqs s !! q = Some wq ->
  wf Lq Lt (asserted q wq event deadline t x s).
Proof.
  intros W Ex Hx Eq. destruct (wf_safeq _ _ _ _ _ W Eq) as [w Ew]. set (sq := safeq_of q wq) in *.
  destruct (parked_fields q event deadline x) as (Hp1 & Hp2 & Hp3 & _).
  eapply (wf_push Lq Lt Lt t x _ q wq sq w); [by apply (touch t x sq w)|done|done|done|done|done|done| |done| |].
  - rewrite Hp3. by apply (wf_tlock _ _ _ W).
  - unfold joined. cbn. destruct (waits_fifo w x); [|done]. by rewrite Permutation_app_comm.
  - intros Hg. unfold joined. cbn. rewrite Hp2. unfold waitq_is_global. by rewrite bool_decide_true.
Qed.
Lemma wp_arm_wait_timer t deadline x s (Q : unit -> st -> Prop) :
  threads s !! t = Some x -> Q tt (on_threads {[t]} (armed deadline) s) -> wp (when (negb (deadline =? 0)) (arm_wait_timer t deadline)) Q s.
Proof.
  intros Ex HQ. unfold armed in HQ. destruct (deadline =? 0) eqn:Ed; cbn [negb].
  - wq_go. rewrite on_threads_id in HQ by done. done.
  - wq_go. unfold arm_wait_timer. wq_go. destruct (timer_call_enter deadline (t_wait_timer x)) as [act tc] eqn:Et. wq_go.
    destruct act; cbn [negb]; wq_go; wq_gather; by_state HQ; same_thread Ex; rewrite Et; by destruct x.
Qed.
Lemma wp_assert_wait_enqueue sq q mask event interruptible deadline t x w s (Q : Z -> st -> Prop) :
  threads s !! t = Some x -> t_locked x = false -> waitqs s !! sq = Some w ->
  Q THREAD_WAITING (on_threads {[t]} (parked_at q event deadline) (on_queue sq (joined sq t x mask) s)) ->
  wp (assert_wait_enqueue sq q mask event interruptible deadline t) Q s.
Proof.
  intros Ex Hl Ew HQ. unfold assert_wait_enqueue. wq_go. eapply wp_thread_lock; [look|done|]. wq_go. unfold thread_mark_wait_locked. wq_go.
  change (THREAD_WAITING =? THREAD_WAITING) with true. wq_go. unfold waitq_thread_insert. wq_go.
  eapply wp_arm_wait_timer; [look|].
  assert (Hend : forall g, g w = joined sq t x mask w ->
    wp (thread_unlock t) (fun _ => wp (ret THREAD_WAITING) Q) (on_threads {[t]} (fun y => parked_at q event deadline (tlock true y)) (on_queue sq g s))).
  { intros g Hg. eapply wp_thread_unlock; [look|by destruct (parked_fields q event deadline (tlock true x)) as (_ & _ & -> & _)|].
    wq_go. wq_gather. by_state HQ. rewrite (on_queue_ext1 sq w g (joined sq t x mask)) by done. symmetry. same_thread Ex. by apply parked_lock. }
  wq_gather. destruct (waitq_is_global sq) eqn:Eg; wq_go; wq_gather; apply Hend; unfold joined, waits_fifo; rewrite Eg; by destruct w.
Qed.
Lemma wp_assert_wait_locked Lq Lt q wq event interruptible deadline t x s (Q : Z -> st -> Prop) :
  wf Lq Lt s -> threads s !! t = Some x -> t_waitq x = None -> t ∉ Lt -> waitqs s !! q = Some wq ->
  (waitq_irq wq = false -> waitq_get_safeq q ∉ Lq /\ waitq_get_safeq q <> q) ->
  Q THREAD_WAITING (asserted q wq event deadline t x s) ->
  wp (waitq_assert_wait64_locked q event interruptible deadline t) Q s.
Proof.
  intros W Ex Hx Ht Eq Hirq HQ. unfold waitq_assert_wait64_locked. wq_go.
  apply wp_ensure; [by apply bool_decide_eq_true|]. wq_go.
  assert (t_locked x = false) as Hl by (rewrite (wf_tlock _ _ _ W _ _ Ex); by apply bool_decide_eq_false).
  destruct (wf_safeq _ _ _ _ _ W Eq) as [w Ew]. unfold asserted in HQ. unfold safeq_of in *. destruct (waitq_irq wq) eqn:Ei; cbn [negb].
  - wq_go. eapply wp_assert_wait_enqueue; [done..|]. rewrite bool_decide_true by done. by wq_go.
  - destruct (Hirq eq_refl) as [Hfree Hne]. assert (waitq_locked w = false) as Hlw by (rewrite (wf_qlock _ _ _ W _ _ Ew); by apply bool_decide_eq_false).
    wq_go. eapply wp_waitq_lock; [look|done|]. wq_go. eapply wp_assert_wait_enqueue; [look|done|look|].
    rewrite bool_decide_false by done. cbn [negb]. wq_go. eapply wp_waitq_unlock; [look|done|]. wq_go. wq_gather.
    by_state HQ. f_equal. same_queue Ew. unfold joined, waits_fifo, qlock. destruct w. cbn in *. by subst.
Qed.

(** ** Selection *)

(** Thread [t] waits on [q] for the event. *)
Definition matches (s : st) (q : nat) (event : Z) (t : nat) : Prop :=
  match threads s !! t with Some x => t_waitq x = Some q /\ t_wait_event x = event | None => False end.
#[global] Instance matches_dec s q event t : Decision (matches s q event t).
Proof. unfold matches. destruct (threads s !! t); apply _. Defined.
(** The threads that wait on [q] for the event, in the order of their queue. *)
Definition waiters (s : st) (q : nat) (event : Z) : list nat :=
  match waitqs s !! q with
  | Some wq => match waitqs s !! safeq_of q wq with
               | Some w => filter (matches s q event) (waitq_queue w)
               | None => []
               end
  | None => []
  end.
(** The first [max_threads] of them, if that is positive. *)
Definition first_of (max_threads : Z) (l : list nat) : list nat := if 0 <? max_threads then take (Z.to_nat max_threads) l else l.

Lemma first_of_sublist n l : first_of n l `sublist_of` l.
Proof. unfold first_of. destruct (0 <? n); [apply sublist_take|done]. Qed.
Lemma elem_of_first_of n l t : t ∈ first_of n l -> t ∈ l.
Proof. intros Ht. eapply elem_of_submseteq; [exact Ht|apply sublist_submseteq, first_of_sublist]. Qed.

(** Threads taken off their queue, and locked. *)
Definition unlink_all (ts l : list nat) : list nat := foldl (fun l t => unlink t l) l ts.
Definition taken (sq : nat) (ts : list nat) (s : st) : st :=
  on_threads (list_to_set ts) (fun x => tlock true (off x)) (on_queue sq (fun w => w <| waitq_queue ::= unlink_all ts |>) s).

Lemma elem_of_unlink_all ts l u : NoDup l -> u ∈ unlink_all ts l <-> u ∈ l /\ u ∉ ts.
Proof.
  revert l. induction ts as [|t ts IH]; intros l Hl; [cbn; set_solver|].
  change (unlink_all (t :: ts) l) with (unlink_all ts (unlink t l)). rewrite IH by by apply NoDup_unlink. rewrite elem_of_unlink_iff by done. set_solver.
Qed.
Lemma taken_nil sq s : taken sq [] s = s.
Proof.
  unfold taken. cbn. rewrite on_threads_id by set_solver. unfold on_queue, update. destruct s as [ths qs wk]. cbn. f_equal.
  apply map_eq. intros p. destruct (decide (p = sq)) as [->|]; [|by rewrite lookup_alter_ne]. rewrite lookup_alter_eq. destruct (qs !! sq) as [w|]; [|done].
  by destruct w.
Qed.
Lemma taken_cons sq t ts s : t ∉ ts -> taken sq ts (taken sq [t] s) = taken sq (t :: ts) s.
Proof.
  intros Ht. unfold taken. rewrite on_queue_threads, on_queue_twice. rewrite on_threads_union by set_solver.
  replace (list_to_set ts ∪ list_to_set [t] : gset nat) with (list_to_set (t :: ts) : gset nat) by set_solver. done.
Qed.
Lemma taken_threads sq ts s u : u ∉ ts -> threads (taken sq ts s) !! u = threads s !! u.
Proof. intros Hu. unfold taken. rewrite on_threads_out by set_solver. done. Qed.
Lemma taken_queue sq ts s p :
  waitqs (taken sq ts s) !! p = (fun w => if decide (p = sq) then w <| waitq_queue ::= unlink_all ts |> else w) <$> waitqs s !! p.
Proof.
  change (waitqs (taken sq ts s)) with (waitqs (on_queue sq (fun w => w <| waitq_queue ::= unlink_all ts |>) s)). case_decide as Hp.
  - subst. apply on_queue_lookup.
  - rewrite on_queue_ne by done. by destruct (waitqs s !! p).
Qed.
Lemma taken_irq sq ts s p wq : waitqs s !! p = Some wq -> exists wq', waitqs (taken sq ts s) !! p = Some wq' /\ waitq_irq wq' = waitq_irq wq.
Proof. intros E. rewrite taken_queue, E. cbn. eexists. split; [done|]. by case_decide. Qed.
Lemma taken_at sq ts s u p : u ∉ ts -> waits_at (taken sq ts s) u p <-> waits_at s u p.
Proof.
  intros Hu. unfold waits_at. rewrite (taken_threads sq ts s u Hu). split; intros (x & q & wq & Ex & Eq & E & Es).
  - rewrite taken_queue in E. destruct (waitqs s !! q) as [w|] eqn:Ew; [|done]. cbn in E. injection E as <-. exists x, q, w.
    split_and!; [done..|]. rewrite <- Es. apply safeq_of_irq. by case_decide.
  - destruct (taken_irq sq ts s q wq E) as (w & Ew & Ei). exists x, q, w. split_and!; [done..|]. rewrite <- Es. by apply safeq_of_irq.
Qed.
Lemma taken_bits sq ts s u : u ∉ ts -> bits (taken sq ts s) u = bits s u.
Proof.
  intros Hu. unfold bits. rewrite taken_threads by done. destruct (threads s !! u) as [x|]; [|done]. destruct (t_waitq x) as [q|]; [|done].
  rewrite taken_queue. destruct (waitqs s !! q) as [w|]; [|done]. cbn. apply mask_of_irq. by case_decide.
Qed.
Lemma taken_one Lq Lt sq t s :
  wf Lq Lt s -> waits_at s t sq -> wf Lq ({[t]} ∪ Lt) (taken sq [t] s).
Proof.
  intros W Ha. pose proof Ha as (x & q & wq & Ex & Eq & Ewq & Es). destruct (wf_safeq _ _ _ _ _ W Ewq) as [w Ew]. rewrite Es in Ew.
  unfold taken. replace (list_to_set [t] : gset nat) with ({[t]} : gset nat) by set_solver.
  eapply wf_pull; [by apply (touch t x sq w)|done..| | | |]; cbn.
  - symmetry. apply bool_decide_eq_true. set_solver.
  - set_solver.
  - done.
  - intros Hg u Hu. eapply (wf_mask _ _ _ W); [done..|by eapply elem_of_unlink].
Qed.
(** What the scan notes down of a thread it passes over are its mask bits. *)
Lemma bits_passed Lq Lt s sq t x :
  wf Lq Lt s -> waits_at s t sq -> threads s !! t = Some x -> (sq < g_num_waitqs)%nat ->
  _CAST_TO_EVENT_MASK (if bool_decide (t_waitq x <> Some sq) then from_option addr 0 (t_waitq x) else t_wait_event x) = bits s t.
Proof.
  intros W Ha Ex Hg. destruct (waits_at_thread _ _ _ _ Ha Ex) as (q & wq & Eq & Ewq & Es).
  unfold bits. rewrite Ex, Eq, Ewq. unfold mask_of. f_equal. unfold safeq_of in Es. destruct (waitq_irq wq) eqn:Ei.
  - subst q. by rewrite bool_decide_false by tauto.
  - rewrite bool_decide_true; [done|]. intros [= ->]. destruct (wf_global _ _ _ W sq Hg) as (w & E & Ei'). congruence.
Qed.
Lemma wp_iterate Lq sq q event max l : forall Lt ts mask s (Q : list nat * Z -> st -> Prop),
  wf Lq Lt s -> (forall t, t ∈ l -> waits_at s t sq /\ t ∉ Lt) -> NoDup l -> (0 < max -> Z.of_nat (length ts) < max) ->
  (forall ts' mask', ts' = first_of (if 0 <? max then max - Z.of_nat (length ts) else max) (filter (matches s q event) l) ->
     wf Lq (Lt ∪ list_to_set ts') (taken sq ts' s) ->
     (forall b, covers mask b -> covers mask' b) ->
     ((sq < g_num_waitqs)%nat -> (0 < max -> Z.of_nat (length (ts ++ ts')) < max) -> forall u, u ∈ l -> u ∉ ts' -> covers mask' (bits s u)) ->
     Q (ts ++ ts', mask') (taken sq ts' s)) ->
  wp (waitq_queue_iterate_locked sq q event max l ts mask) Q s.
Proof.
  induction l as [|t l IH]; intros Lt ts mask s Q W Hl Hnd Hmax HQ; cbn [waitq_queue_iterate_locked].
  { apply wp_ret. specialize (HQ [] mask). rewrite app_nil_r, taken_nil in HQ. apply HQ; [|by replace (Lt ∪ list_to_set []) with Lt by set_solver|done|by intros _ _ u ?%elem_of_nil].
    unfold first_of. cbn. case_bool; [|done]. by destruct (Z.to_nat _). }
  apply NoDup_cons in Hnd as [Htl Hnd]. destruct (Hl t ltac:(left)) as [Ha Htn]. pose proof Ha as (x & p & wq & Ex & Ep & Ewq & Es).
  destruct (wf_safeq _ _ _ _ _ W Ewq) as [w Ew]. rewrite Es in Ew.
  assert (t_locked x = false) as Hlk by (rewrite (wf_tlock _ _ _ W _ _ Ex); by apply bool_decide_eq_false).
  rewrite filter_cons in HQ. wq_go. case_bool.
  - apply andb_true_iff in E as [Eq%bool_decide_eq_true Ee%Z.eqb_eq].
    assert (matches s q event t) as Hm by (unfold matches; by rewrite Ex). rewrite decide_True in HQ by done.
    wq_go. eapply wp_thread_lock; [look|done|]. unfold thread_clear_waitq_state, waitq_thread_remove. wq_go. wq_gather.
    set (s1 := on_threads _ _ _). assert (s1 = taken sq [t] s) as E1.
    { unfold s1, taken. replace (list_to_set [t] : gset nat) with ({[t]} : gset nat) by set_solver. by same_thread Ex. }
    rewrite E1. clear s1 E1. pose proof (taken_one _ _ _ _ _ W Ha) as W1.
    assert (Hfil : filter (matches (taken sq [t] s) q event) l = filter (matches s q event) l).
    { apply filter_ext_in. intros u Hu. unfold matches. rewrite taken_threads; [done|]. set_solver. }
    destruct (_ && _) eqn:Estop.
    + apply andb_true_iff in Estop as [Hs1%Z.leb_le Hs2%Z.ltb_lt]. rewrite length_app in Hs1. cbn in Hs1. wq_go.
      apply (HQ [t] mask); [|by replace (Lt ∪ list_to_set [t]) with ({[t]} ∪ Lt) by set_solver|done|].
      * unfold first_of. rewrite (proj2 (Z.ltb_lt 0 max)) by done. rewrite (proj2 (Z.ltb_lt 0 _)) by lia.
        replace (Z.to_nat _) with 1%nat by lia. done.
      * intros _ Hc. rewrite length_app in Hc. cbn in Hc. lia.
    + assert (Hmax' : 0 < max -> Z.of_nat (length (ts ++ [t])) < max).
      { intros Hp. apply andb_false_iff in Estop as [Hs|Hs]; [by apply Z.leb_gt in Hs|apply Z.ltb_ge in Hs; lia]. }
      apply (IH ({[t]} ∪ Lt)); [done| |done|done|].
      * intros u Hu. assert (u <> t) by congruence. destruct (Hl u ltac:(by right)) as [Hau Hun]. rewrite taken_at by set_solver. set_solver.
      * intros ts' mask' Ets W' Hc Hcov. rewrite Hfil in Ets. assert (t ∉ ts') as Htts.
        { intros Hin. apply Htl. rewrite Ets in Hin. by apply elem_of_first_of, list_elem_of_filter in Hin as [_ ?]. }
        rewrite taken_cons in W' |- * by done. rewrite <- app_assoc. apply (HQ (t :: ts') mask').
        -- rewrite Ets. unfold first_of. destruct (0 <? max) eqn:Em; [|by rewrite Em]. apply Z.ltb_lt in Em. specialize (Hmax' Em). rewrite length_app in Hmax' |- *. cbn in Hmax' |- *.
           rewrite !(proj2 (Z.ltb_lt 0 _)) by lia. by replace (Z.to_nat (max - Z.of_nat (length ts))) with (S (Z.to_nat (max - Z.of_nat (length ts + 1)))) by lia.
        -- by replace (Lt ∪ list_to_set (t :: ts')) with ({[t]} ∪ Lt ∪ list_to_set ts') by set_solver.
        -- done.
        -- intros Hg Hlt u Hu Hut. rewrite <- (taken_bits sq [t]) by set_solver. apply Hcov; [done| |set_solver..].
           rewrite <- app_assoc. exact Hlt.
  - assert (~ matches s q event t) as Hm.
    { unfold matches. rewrite Ex. intros [H1 H2]. rewrite H1, H2, bool_decide_true, Z.eqb_refl in E by done. done. }
    rewrite decide_False in HQ by done. apply (IH Lt); [done|intros u Hu; apply Hl; by right|done|done|].
    intros ts' mask' Ets W' Hc Hcov. apply HQ; [done|done| |].
    + intros b Hb. by apply Hc, covers_lor_l.
    + intros Hg Hlt u [->|Hu]%elem_of_cons Hut; [|by apply Hcov]. apply Hc. rewrite (bits_passed _ _ _ _ _ _ W Ha Ex Hg). apply covers_lor_r.
Qed.

Lemma wf_lock_queue Lq Lt q s : wf Lq Lt s -> wf ({[q]} ∪ Lq) Lt (on_queue q (qlock true) s).
Proof.
  intros W. apply (wf_on_queue Lq); [done| |set_solver|done]. intros w Ew. split; [done|]. symmetry. apply bool_decide_eq_true. set_solver.
Qed.
Lemma wf_unlock_queue Lq Lt q s : wf Lq Lt s -> wf (Lq ∖ {[q]}) Lt (on_queue q (qlock false) s).
Proof.
  intros W. apply (wf_on_queue Lq); [done| |set_solver|done]. intros w Ew. split; [done|]. symmetry. apply bool_decide_eq_false. set_solver.
Qed.
Lemma wf_lock_thread Lq Lt t s : wf Lq Lt s -> wf Lq ({[t]} ∪ Lt) (on_threads {[t]} (tlock true) s).
Proof.
  intros W. apply (wf_on_threads Lq Lt); [done| |set_solver]. intros u x ->%elem_of_singleton Ex. split; [done|]. symmetry. apply bool_decide_eq_true. set_solver.
Qed.
Lemma wf_unlock_thread Lq Lt t s : wf Lq Lt s -> wf Lq (Lt ∖ {[t]}) (on_threads {[t]} (tlock false) s).
Proof.
  intros W. apply (wf_on_threads Lq Lt); [done| |set_solver]. intros u x ->%elem_of_singleton Ex. split; [done|]. symmetry. apply bool_decide_eq_false. set_solver.
Qed.
Definition set_mask (m : Z) (w : waitq) : waitq := w <| waitq_eventmask := m |>.
Lemma wf_set_mask Lq Lt sq w m s :
  wf Lq Lt s -> waitqs s !! sq = Some w ->
  ((sq < g_num_waitqs)%nat -> forall u, u ∈ waitq_queue w -> covers m (bits s u)) -> wf Lq Lt (on_queue sq (set_mask m) s).
Proof.
  intros W Ew Hm. apply (wf_on_queue Lq); [done| |done|].
  - intros w' E'. split; [done|]. exact (wf_qlock _ _ _ W _ _ E').
  - intros w' u Hg E' Hu _. assert (w' = w) as -> by congruence. by apply Hm.
Qed.
Lemma set_mask_id q w s : waitqs s !! q = Some w -> on_queue q (set_mask (waitq_eventmask w)) s = s.
Proof.
  intros E. destruct s as [ths qs wk]. unfold on_queue, update. cbn in *. f_equal. apply map_eq. intros p.
  destruct (decide (p = q)) as [->|]; [|by rewrite lookup_alter_ne]. rewrite lookup_alter_eq, E. by destruct w.
Qed.

(** A thread that waits for the event has the event's bits in the mask, so a queue
    that the mask rules out has nothing to select. *)
Lemma masked_out Lq Lt q wq w event s :
  wf Lq Lt s -> waitqs s !! q = Some wq -> waitqs s !! safeq_of q wq = Some w -> (safeq_of q wq < g_num_waitqs)%nat ->
  Z.land (waitq_eventmask w) (mask_of q wq event) <> mask_of q wq event -> filter (matches s q event) (waitq_queue w) = [].
Proof.
  intros W Eq Ew Hg Hm. apply elem_of_nil_inv. intros t [Ht Hin]%list_elem_of_filter. apply Hm.
  pose proof (wf_mask _ _ _ W _ _ t Hg Ew Hin) as Hc. unfold matches in Ht. destruct (threads s !! t) as [x|] eqn:Ex; [|done]. destruct Ht as [H1 H2].
  unfold bits in Hc. by rewrite Ex, H1, Eq, H2 in Hc.
Qed.
Lemma wp_select_from Lq q wq sq w event max s (Q : list nat -> st -> Prop) :
  wf Lq ∅ s -> waitqs s !! q = Some wq -> safeq_of q wq = sq -> waitqs s !! sq = Some w -> max <> 0 ->
  (forall ts m s', ts = first_of max (filter (matches s q event) (waitq_queue w)) -> s' = on_queue sq (set_mask m) (taken sq ts s) ->
     wf Lq (list_to_set ts) s' -> Q ts s') ->
  wp (select_from sq q event (mask_of q wq event) max) Q s.
Proof.
  intros W Eq Es Ew Hmax HQ. unfold select_from. wq_go.
  assert (Hkeep : forall ts, ts = first_of max (filter (matches s q event) (waitq_queue w)) -> wf Lq (list_to_set ts) (taken sq ts s) -> Q ts (taken sq ts s)).
  { intros ts Hts W'. eapply HQ; [done| |done]. symmetry. eapply set_mask_id. rewrite taken_queue, Ew. reflexivity. }
  destruct (negb _ || _) eqn:Escan.
  2:{ apply orb_false_iff in Escan as [Hg%negb_false_iff%bool_decide_eq_true Hm%Z.eqb_neq]. wq_go.
      rewrite <- (taken_nil sq s). subst sq. apply Hkeep; [|by rewrite taken_nil]. rewrite (masked_out _ _ _ _ _ _ _ W Eq Ew Hg Hm).
      unfold first_of. case_bool; [|done]. by destruct (Z.to_nat max). }
  wq_go. apply (wp_iterate Lq sq q event max (waitq_queue w) ∅); [done| |by eapply wf_nodup|done|].
  { intros t Ht. split; [|set_solver]. by apply (wf_queue _ _ _ W _ _ t Ew). }
  intros ts' mask' Ets W' _ Hcov. rewrite Z.sub_0_r in Ets. cbn [app length Z.of_nat] in *.
  assert (ts' = first_of max (filter (matches s q event) (waitq_queue w))) as Ets' by (by destruct (0 <? max)). clear Ets.
  replace (∅ ∪ list_to_set ts' : gset nat) with (list_to_set ts' : gset nat) in W' by set_solver.
  set (w' := w <| waitq_queue ::= unlink_all ts' |>).
  assert (Ew' : waitqs (taken sq ts' s) !! sq = Some w') by (rewrite taken_queue, Ew; cbn; by rewrite decide_True).
  destruct (waitq_is_global sq) eqn:Eg; wq_go; [|by apply Hkeep].
  unfold waitq_empty. case_bool_decide as He; [wq_go; by eapply (HQ ts' 0); [..|apply (wf_set_mask _ _ _ w'); [done..|intros _ u; rewrite He; by intros ?%elem_of_nil]]|].
  clear Escan; destruct ((max <? 0) || _) eqn:Eall; wq_go; [|by apply Hkeep].
  eapply (HQ ts' mask'); [done|done|]. apply (wf_set_mask _ _ _ w'); [done..|]. intros Hg u Hu.
  cbn in Hu. apply elem_of_unlink_all in Hu as [Hu Hun]; [|by eapply (wf_nodup _ _ _ W sq w)]. rewrite taken_bits by done. apply Hcov; [done| |done|done].
  intros Hp. apply orb_true_iff in Eall as [Hn%Z.ltb_lt|Hn%Z.ltb_lt]; lia.
Qed.
Lemma wp_select Lq q wq event max s (Q : list nat -> st -> Prop) :
  wf Lq ∅ s -> waitqs s !! q = Some wq -> (waitq_irq wq = false -> waitq_get_safeq q ∉ Lq /\ waitq_get_safeq q <> q) -> max <> 0 ->
  (forall ts m s', ts = first_of max (waiters s q event) -> s' = on_queue (safeq_of q wq) (set_mask m) (taken (safeq_of q wq) ts s) ->
     wf Lq (list_to_set ts) s' -> Q ts s') ->
  wp (do_waitq_select_n_locked q event max) Q s.
Proof.
  intros W Eq Hirq Hmax HQ. unfold do_waitq_select_n_locked. wq_go. destruct (wf_safeq _ _ _ _ _ W Eq) as [w Ew].
  unfold waiters in HQ. rewrite Eq, Ew in HQ. unfold safeq_of in *. destruct (waitq_irq wq) eqn:Ei; cbn [negb].
  - wq_go. eapply wp_select_from; [done|done|unfold safeq_of; by rewrite Ei|done|done|]. intros ts m s' Hts Hs' W'.
    rewrite bool_decide_true by done. wq_go. by eapply HQ.
  - destruct (Hirq eq_refl) as [Hfree Hne]. set (sq := waitq_get_safeq q) in *.
    assert (waitq_locked w = false) as Hlw by (rewrite (wf_qlock _ _ _ W _ _ Ew); by apply bool_decide_eq_false).
    wq_go. eapply wp_waitq_lock; [look|done|]. wq_go. eapply wp_select_from; [by apply wf_lock_queue|look|unfold safeq_of; by rewrite Ei|look|done|].
    intros ts m s' Hts -> W'. rewrite bool_decide_false by done. cbn [negb]. wq_go.
    eapply wp_waitq_unlock; [eapply on_queue_in; rewrite taken_queue; erewrite on_queue_in by done; cbn; by rewrite decide_True|done|]. wq_go.
    apply (HQ ts m); [exact Hts| |].
    + unfold taken. wq_gather. f_equal. same_queue Ew. destruct w. cbn in *. by subst.
    + apply (wf_unlock_queue _ _ sq) in W'. by replace (({[sq]} ∪ Lq) ∖ {[sq]}) with Lq in W' by set_solver.
Qed.

(** ** Waking *)

Definition is_suspended (s : st) (t : nat) : Prop := match threads s !! t with Some x => t_suspended x = true | None => False end.
#[global] Instance is_suspended_dec s t : Decision (is_suspended s t).
Proof. unfold is_suspended. destruct (threads s !! t); apply _. Defined.
(** A thread that is set running: its wait is over, with a result. *)
Definition result_is (result : Z) (x : thread T) : thread T := x <| t_wait_result := result |>.
(** Threads are woken: off their queue, with the result, and on the work queue if they
    are suspended. *)
Definition woken (sq : nat) (ts : list nat) (m result : Z) (s : st) : st :=
  add_work (filter (is_suspended s) ts)
    (on_threads (list_to_set ts) (fun x => result_is result (off x)) (on_queue sq (fun w => set_mask m (w <| waitq_queue ::= unlink_all ts |>)) s)).

Lemma wp_thread_go t result x s (Q : Z -> st -> Prop) :
  threads s !! t = Some x -> Q KERN_SUCCESS (add_work (filter (is_suspended s) [t]) (on_threads {[t]} (result_is result) s)) ->
  wp (thread_go t result) Q s.
Proof.
  intros Ex HQ. unfold thread_go, thread_unblock, Thread_resume. wq_go. rewrite filter_cons, filter_nil in HQ. unfold is_suspended in HQ.
  destruct (decide _) as [Hd|Hd] in HQ; rewrite Ex in Hd; change (t_suspended (x <| t_wait_result := result |>)) with (t_suspended x).
  - rewrite Hd. by wq_go.
  - apply not_true_is_false in Hd. rewrite Hd. wq_go. by rewrite add_work_nil in HQ.
Qed.
Lemma suspended_result result t s (ts : list nat) :
  filter (is_suspended (add_work (filter (is_suspended s) [t]) (on_threads {[t]} (fun x => tlock false (result_is result x)) s))) ts = filter (is_suspended s) ts.
Proof.
  apply filter_ext_in. intros u _. unfold is_suspended. cbn [add_work]. rewrite <- on_threads_work, on_threads_lookup.
  change (threads (add_work ?l s)) with (threads s). destruct (threads s !! u); cbn; [|done]. by case_decide.
Qed.
Lemma wp_go_all result ts : forall kr s (Q : Z -> st -> Prop),
  NoDup ts -> (forall t, t ∈ ts -> exists x, threads s !! t = Some x /\ t_locked x = true) ->
  Q (match ts with [] => kr | _ => KERN_SUCCESS end)
    (add_work (filter (is_suspended s) ts) (on_threads (list_to_set ts) (fun x => tlock false (result_is result x)) s)) ->
  wp (go_all result ts kr) Q s.
Proof.
  induction ts as [|t ts IH]; intros kr s Q Hnd Hlk HQ; cbn [go_all].
  - wq_go. rewrite filter_nil, add_work_nil, on_threads_id in HQ by set_solver. done.
  - apply NoDup_cons in Hnd as [Hn Hnd]. destruct (Hlk t ltac:(left)) as (x & Ex & Hl). wq_go.
    eapply wp_thread_go; [done|]. wq_go. eapply wp_thread_unlock; [look|done|]. wq_gather. apply IH; [done| |].
    + intros u Hu. destruct (Hlk u ltac:(by right)) as (y & Ey & Hy). exists y. split; [|done]. assert (u <> t) by congruence. look.
    + assert (match ts with [] => KERN_SUCCESS | _ :: _ => KERN_SUCCESS end = KERN_SUCCESS) as -> by (by destruct ts).
      rewrite suspended_result. by_state HQ. wq_gather. rewrite on_threads_union by set_solver. f_equal.
      * rewrite !filter_cons, filter_nil. by case_decide.
      * by replace (list_to_set ts ∪ {[t]} : gset nat) with (list_to_set (t :: ts) : gset nat) by set_solver.
Qed.

(** The queue is unlocked if the caller says so. *)
Definition unlock_if (unlock : bool) (q : nat) (s : st) : st := if unlock then on_queue q (qlock false) s else s.
Definition unlocked_if (unlock : bool) (q : nat) (Lq : gset nat) : gset nat := if unlock then Lq ∖ {[q]} else Lq.
Lemma wp_unlock_if unlock q w s (Q : unit -> st -> Prop) :
  waitqs s !! q = Some w -> (unlock = true -> waitq_locked w = true) -> Q tt (unlock_if unlock q s) -> wp (when unlock (waitq_unlock q)) Q s.
Proof. intros E Hl HQ. destruct unlock; [|by wq_go]. wq_go. eapply wp_waitq_unlock; [done|auto|done]. Qed.
Lemma wf_unlock_if unlock q Lq Lt s : wf Lq Lt s -> wf (unlocked_if unlock q Lq) Lt (unlock_if unlock q s).
Proof. intros W. destruct unlock; [by apply wf_unlock_queue|done]. Qed.
Lemma unlock_if_lookup unlock q s p w : waitqs s !! p = Some w -> exists w', waitqs (unlock_if unlock q s) !! p = Some w' /\ shape w' = shape w.
Proof.
  intros E. destruct unlock; [|eauto]. unfold unlock_if. destruct (decide (p = q)) as [->|]; [exists (qlock false w); by erewrite on_queue_in|].
  exists w. by rewrite on_queue_ne.
Qed.

(** Taking threads off and then setting them running. *)
Lemma woken_eq unlock q sq ts m result s :
  (forall t x, threads s !! t = Some x -> t_locked x = false) ->
  let s1 := unlock_if unlock q (on_queue sq (set_mask m) (taken sq ts s)) in
  add_work (filter (is_suspended s1) ts) (on_threads (list_to_set ts) (fun x => tlock false (result_is result x)) s1) = unlock_if unlock q (woken sq ts m result s).
Proof.
  intros Hl s1. unfold woken.
  assert (filter (is_suspended s1) ts = filter (is_suspended s) ts) as ->.
  { apply filter_ext_in. intros u _. unfold is_suspended. assert (threads s1 !! u = threads (taken sq ts s) !! u) as -> by (unfold s1, unlock_if; by destruct unlock).
    unfold taken. rewrite on_threads_lookup. change (threads (on_queue ?q ?f s)) with (threads s). destruct (threads s !! u); cbn; [|done]. by case_decide. }
  unfold s1, unlock_if, taken. destruct unlock; wq_gather; f_equal; apply on_threads_ext; intros t x _ Ex; specialize (Hl t x Ex); destruct x; cbn in *; by subst.
Qed.
Lemma wf_woken unlock q Lq sq ts m result s :
  let s1 := unlock_if unlock q (on_queue sq (set_mask m) (taken sq ts s)) in
  wf Lq ∅ s -> wf (unlocked_if unlock q Lq) (list_to_set ts) s1 -> wf (unlocked_if unlock q Lq) ∅ (unlock_if unlock q (woken sq ts m result s)).
Proof.
  intros s1 W W1. rewrite <- woken_eq.
  - apply wf_add_work. eapply (wf_on_threads _ (list_to_set ts)); [exact W1| |set_solver].
    intros t x Ht Ex. split; [done|]. symmetry. apply bool_decide_eq_false. set_solver.
  - intros t x Ex. rewrite (wf_tlock _ _ _ W _ _ Ex). apply bool_decide_eq_false. set_solver.
Qed.

(** The threads selected by [wp_select] exist and are locked, and none is there twice. *)
Lemma waiters_elem s q event t : t ∈ waiters s q event -> matches s q event t.
Proof.
  unfold waiters. destruct (waitqs s !! q) as [wq|]; [|by intros ?%elem_of_nil]. destruct (waitqs s !! _) as [w|]; [|by intros ?%elem_of_nil].
  by intros [? _]%list_elem_of_filter.
Qed.
Lemma waiters_nodup Lq Lt s q event : wf Lq Lt s -> NoDup (waiters s q event).
Proof.
  intros W. unfold waiters. destruct (waitqs s !! q) as [wq|]; [|constructor]. destruct (waitqs s !! _) as [w|] eqn:E; [|constructor].
  apply NoDup_filter. by eapply (wf_nodup _ _ _ W).
Qed.
Lemma selected_nodup Lq Lt s q event max : wf Lq Lt s -> NoDup (first_of max (waiters s q event)).
Proof. intros W. eapply sublist_NoDup; [by eapply waiters_nodup|apply first_of_sublist]. Qed.
Lemma selected_locked unlock q q' sq ts m s event max :
  ts = first_of max (waiters s q' event) -> let s1 := unlock_if unlock q (on_queue sq (set_mask m) (taken sq ts s)) in
  forall t, t ∈ ts -> exists x, threads s1 !! t = Some x /\ t_locked x = true.
Proof.
  intros Hts s1 t Ht. assert (matches s q' event t) as Hm by (apply waiters_elem; rewrite Hts in Ht; by eapply elem_of_first_of).
  unfold matches in Hm. destruct (threads s !! t) as [x|] eqn:Ex; [|done]. exists (tlock true (off x)). split; [|done].
  assert (threads s1 !! t = threads (taken sq ts s) !! t) as -> by (unfold s1, unlock_if; by destruct unlock).
  unfold taken. apply (on_threads_in _ (fun x => tlock true (off x))); [done|set_solver].
Qed.

(** What a caller that holds the lock of [q] must know of it. *)
Definition may_use (Lq : gset nat) (q : nat) (wq : waitq) (s : st) : Prop :=
  waitqs s !! q = Some wq /\ (waitq_irq wq = false -> waitq_get_safeq q ∉ Lq /\ waitq_get_safeq q <> q).

Lemma unlocked_threads Lq s t x : wf Lq ∅ s -> threads s !! t = Some x -> t_locked x = false.
Proof. intros W Ex. rewrite (wf_tlock _ _ _ W _ _ Ex). apply bool_decide_eq_false. set_solver. Qed.
(** From the selection of threads to the end. *)
Lemma wp_go_selected Lq q wq ts m result unlock kr event max s (Q : Z -> st -> Prop) :
  let sq := safeq_of q wq in let s1 := on_queue sq (set_mask m) (taken sq ts s) in
  wf Lq ∅ s -> waitqs s !! q = Some wq -> q ∈ Lq -> ts = first_of max (waiters s q event) -> wf Lq (list_to_set ts) s1 ->
  (let s' := unlock_if unlock q (woken sq ts m result s) in
   wf (unlocked_if unlock q Lq) ∅ s' -> Q (if decide (ts = []) then kr else KERN_SUCCESS) s') ->
  wp (when unlock (waitq_unlock q) ;;; go_all result ts kr) Q s1.
Proof.
  intros sq s1 W Eq Hq Hts W1 HQ. assert (exists w', waitqs s1 !! q = Some w') as [w' Ew'].
  { unfold s1. destruct (decide (q = sq)) as [E|Hne]; [rewrite <- E; erewrite on_queue_in by (rewrite taken_queue, Eq; reflexivity); eauto|].
    rewrite on_queue_ne, taken_queue, Eq by done. cbn. eauto. }
  wq_go. eapply wp_unlock_if; [exact Ew'| |].
  { intros _. rewrite (wf_qlock _ _ _ W1 _ _ Ew'). by apply bool_decide_eq_true. }
  apply wp_go_all.
  - rewrite Hts. by eapply selected_nodup.
  - by eapply selected_locked.
  - unfold s1. rewrite woken_eq by (intros t x; by eapply unlocked_threads).
    replace (match ts with [] => _ | _ => _ end) with (if decide (ts = []) then kr else KERN_SUCCESS) by (by destruct ts).
    apply HQ. eapply wf_woken; [done|]. by apply wf_unlock_if.
Qed.
Lemma wp_wakeup_all_locked Lq q wq event result unlock s (Q : Z -> st -> Prop) :
  wf Lq ∅ s -> may_use Lq q wq s -> q ∈ Lq ->
  (forall m, let ts := waiters s q event in let s' := unlock_if unlock q (woken (safeq_of q wq) ts m result s) in
     wf (unlocked_if unlock q Lq) ∅ s' -> Q (if decide (ts = []) then KERN_NOT_WAITING else KERN_SUCCESS) s') ->
  wp (waitq_wakeup64_all_locked q event result unlock) Q s.
Proof.
  intros W [Eq Hirq] Hq HQ. unfold waitq_wakeup64_all_locked. wq_go. eapply wp_select; [done..|]. intros ts m s' Hts -> W'.
  eapply (wp_go_selected Lq q wq); [done..|]. cbv zeta. intros W2. unfold first_of in Hts. change (0 <? -1) with false in Hts. subst ts. by apply HQ.
Qed.
Lemma wp_wakeup_one_locked Lq q wq event result unlock s (Q : Z -> st -> Prop) :
  wf Lq ∅ s -> may_use Lq q wq s -> q ∈ Lq ->
  (forall m, let ts := take 1 (waiters s q event) in let s' := unlock_if unlock q (woken (safeq_of q wq) ts m result s) in
     wf (unlocked_if unlock q Lq) ∅ s' -> Q (if decide (ts = []) then KERN_NOT_WAITING else KERN_SUCCESS) s') ->
  wp (waitq_wakeup64_one_locked q event result unlock) Q s.
Proof.
  intros W [Eq Hirq] Hq HQ. unfold waitq_wakeup64_one_locked, waitq_select_one_locked. wq_go. eapply wp_select; [done..|]. intros ts m s' Hts -> W'.
  set (s1 := on_queue _ _ _) in *. apply wp_ret. cut (wp (when unlock (waitq_unlock q) ;;; go_all result ts KERN_NOT_WAITING) Q s1).
  { assert (ts = [] \/ exists t, ts = [t]) as [-> |[t ->]]; [|by intros Hw; exact Hw..].
    rewrite Hts. unfold first_of. change (0 <? 1) with true. change (Z.to_nat 1) with 1%nat. destruct (waiters s q event); [by left|right; eauto]. }
  eapply (wp_go_selected Lq q wq); [done..|]. cbv zeta. intros W2. unfold first_of in Hts. change (0 <? 1) with true in Hts. change (Z.to_nat 1) with 1%nat in Hts.
  subst ts. by apply HQ.
Qed.
(** Waking one thread by name, on an interrupt-safe queue. *)
Lemma wp_select_thread Lq q wq event t x s (Q : Z -> st -> Prop) :
  wf Lq ∅ s -> waitqs s !! q = Some wq -> waitq_irq wq = true -> threads s !! t = Some x ->
  (forall m, let s1 := on_queue q (set_mask m) (taken q [t] s) in matches s q event t -> wf Lq {[t]} s1 -> Q KERN_SUCCESS s1) ->
  (~ matches s q event t -> Q KERN_NOT_WAITING s) ->
  wp (waitq_select_thread_locked q event t) Q s.
Proof.
  intros W Eq Ei Ex HQ HN. unfold waitq_select_thread_locked. wq_go. unfold safeq_of. rewrite Ei. cbn [negb]. wq_go.
  pose proof (unlocked_threads _ _ _ _ W Ex) as Hl. eapply wp_thread_lock; [look|done|]. wq_go. case_bool.
  - apply andb_true_iff in E as [Ew%bool_decide_eq_true Ee%Z.eqb_eq]. cbn in Ew, Ee.
    assert (matches s q event t) as Hm by (unfold matches; by rewrite Ex).
    assert (waits_at s t q) as Ha by (exists x, q, wq; split_and!; [done..|unfold safeq_of; by rewrite Ei]).
    pose proof (taken_one _ _ _ _ _ W Ha) as W1. replace ({[t]} ∪ ∅ : gset nat) with ({[t]} : gset nat) in W1 by set_solver.
    unfold waitq_thread_remove, thread_clear_waitq_state. wq_go. unfold waitq_empty. cbn. set (w' := wq <| waitq_queue ::= unlink_all [t] |>).
    assert (Ew' : waitqs (taken q [t] s) !! q = Some w') by (rewrite taken_queue, Eq; cbn; by rewrite decide_True).
    case_bool_decide as He; wq_go; wq_gather.
    + specialize (HQ 0 Hm). lapply HQ; [|apply (wf_set_mask _ _ _ w'); [done..|intros _ u; cbn; change (unlink_all [t] (waitq_queue wq)) with (unlink t (waitq_queue wq)); rewrite He; by intros ?%elem_of_nil]].
      intros HQ'. by_state HQ'. unfold taken. wq_gather. replace (list_to_set [t] : gset nat) with ({[t]} : gset nat) by set_solver. by same_thread Ex.
    + specialize (HQ (waitq_eventmask wq) Hm). change (waitq_eventmask wq) with (waitq_eventmask w') in HQ. rewrite (set_mask_id _ _ _ Ew') in HQ.
      specialize (HQ W1). by_state HQ. unfold taken. wq_gather. replace (list_to_set [t] : gset nat) with ({[t]} : gset nat) by set_solver. by same_thread Ex.
  - wq_go. eapply wp_thread_unlock; [look|done|]. wq_go. rewrite bool_decide_true by done. wq_go. wq_gather.
    rewrite on_threads_id; [|intros u y ->%elem_of_singleton; rewrite Ex; intros [= <-]; destruct x; cbn in *; by subst].
    apply HN. unfold matches. rewrite Ex. intros [H1 H2]. cbn in E. by rewrite H1, H2, bool_decide_true, Z.eqb_refl in E.
Qed.
Lemma wp_wakeup_thread_locked Lq q wq event t x result unlock s (Q : Z -> st -> Prop) :
  wf Lq ∅ s -> waitqs s !! q = Some wq -> waitq_irq wq = true -> q ∈ Lq -> threads s !! t = Some x ->
  (forall m, let s' := unlock_if unlock q (woken q [t] m result s) in matches s q event t -> wf (unlocked_if unlock q Lq) ∅ s' -> Q KERN_SUCCESS s') ->
  (~ matches s q event t -> wf (unlocked_if unlock q Lq) ∅ (unlock_if unlock q s) -> Q KERN_NOT_WAITING (unlock_if unlock q s)) ->
  wp (waitq_wakeup64_thread_locked q event t result unlock) Q s.
Proof.
  intros W Eq Ei Hq Ex HQ HN. unfold waitq_wakeup64_thread_locked. wq_go. eapply wp_select_thread; [done..| |].
  - intros m s1 Hm W1. assert (exists w1, waitqs s1 !! q = Some w1) as [w1 Ew1].
    { unfold s1. erewrite on_queue_in by (rewrite taken_queue, Eq; reflexivity). eauto. }
    wq_go. eapply wp_unlock_if; [exact Ew1|intros _; rewrite (wf_qlock _ _ _ W1 _ _ Ew1); by apply bool_decide_eq_true|].
    change (negb (KERN_SUCCESS =? KERN_SUCCESS)) with false. cbv iota.
    cut (wp (go_all result [t] KERN_SUCCESS) Q (unlock_if unlock q s1)); [done|]. apply wp_go_all; [apply NoDup_singleton| |].
    + intros u ->%list_elem_of_singleton. exists (tlock true (off x)). split; [|done].
      assert (threads (unlock_if unlock q s1) !! t = threads (taken q [t] s) !! t) as -> by (unfold s1, unlock_if; by destruct unlock).
      unfold taken. apply (on_threads_in _ (fun x => tlock true (off x))); [done|set_solver].
    + unfold s1. rewrite woken_eq by (intros u y; by eapply unlocked_threads). apply HQ; [done|]. eapply wf_woken; [done|].
      apply wf_unlock_if. by replace (list_to_set [t] : gset nat) with ({[t]} : gset nat) by set_solver.
  - intros Hm. wq_go. eapply wp_unlock_if; [exact Eq|intros _; rewrite (wf_qlock _ _ _ W _ _ Eq); by apply bool_decide_eq_true|].
    apply wp_ret, HN; [done|]. by apply wf_unlock_if.
Qed.
End WaitQOps.
End WaitQProps.
