(* ===== verification/Blocking.v ===== *)
(** * Blocking, interruption and time-outs

    What [clear_wait], the wait timer, signals and the death of a thread do to a
    wait, what blocking and resuming do, and how they compose: a wake-up of a
    blocked thread is delivered, and the ways in which one is lost or invented. *)
From S2P Require Import Prelude WaitQ WaitQProps.

Module Blocking.
Export WaitQProps.
Section Blocking.
Context {T : Type} `{TimerCall T} `{Kernel}.
Notation st := (wst T).
Implicit Types s : st.
Implicit Types x : thread T.

(** ** Pulling a thread out of its wait *)
Definition leave (sq t : nat) (w : waitq) : waitq :=
  w <| waitq_queue := unlink t (waitq_queue w) |>
    <| waitq_eventmask ::= fun m => if waitq_is_global sq && bool_decide (unlink t (waitq_queue w) = []) then 0 else m |>.
Definition unqueued (t : nat) (s : st) : st :=
  match threads s !! t with
  | Some x =>
      match t_waitq x with
      | Some q => match waitqs s !! q with
                  | Some wq => on_threads {[t]} off (on_queue (safeq_of q wq) (leave (safeq_of q wq) t) s)
                  | None => s
                  end
      | None => s
      end
  | None => s
  end.
Lemma unqueued_idle t x s : threads s !! t = Some x -> t_waitq x = None -> unqueued t s = s.
Proof. intros Ex Hx. unfold unqueued. by rewrite Ex, Hx. Qed.
Lemma unqueued_thread t x s u : threads s !! u = Some x -> threads (unqueued t s) !! u = Some x \/ (u = t /\ threads (unqueued t s) !! u = Some (off x)).
Proof.
  intros Eu. unfold unqueued. destruct (threads s !! t) as [y|] eqn:Ey; [|by left]. destruct (t_waitq y) as [q|]; [|by left].
  destruct (waitqs s !! q) as [wq|]; [|by left]. destruct (decide (u = t)) as [->|Hu].
  - right. split; [done|]. apply on_threads_in; [done|set_solver].
  - left. rewrite on_threads_out by set_solver. done.
Qed.
Lemma unqueued_workq t s : workq (unqueued t s) = workq s.
Proof. unfold unqueued. destruct (threads s !! t) as [y|]; [|done]. destruct (t_waitq y) as [q|]; [|done]. by destruct (waitqs s !! q). Qed.
Lemma wf_unqueued Lq Lt t s : wf Lq Lt s -> wf Lq Lt (unqueued t s).
Proof.
  intros W. unfold unqueued. destruct (threads s !! t) as [x|] eqn:Ex; [|done]. destruct (t_waitq x) as [q|] eqn:Eq; [|done].
  destruct (waitqs s !! q) as [wq|] eqn:Ewq; [|done]. destruct (wf_safeq _ _ _ _ _ W Ewq) as [w Ew]. set (sq := safeq_of q wq) in *.
  eapply (wf_pull Lq Lt Lt t _ sq w); [by apply (touch t x sq w)|done|by exists x, q, wq|done| |done|done|].
  - exact (wf_tlock _ _ _ W _ _ Ex).
  - intros Hg u Hu. cbn. unfold waitq_is_global. rewrite bool_decide_true by done. case_bool_decide as He; [rewrite He in Hu; by apply elem_of_nil in Hu|].
    eapply (wf_mask _ _ _ W); [done..|by eapply elem_of_unlink].
Qed.
Lemma wp_pull Lq Lt t x q wq s (Q : bool -> st -> Prop) :
  wf Lq Lt s -> threads s !! t = Some x -> t_waitq x = Some q -> waitqs s !! q = Some wq -> safeq_of q wq ∉ Lq ->
  Q true (unqueued t s) -> wp (waitq_pull_thread_locked q t) Q s.
Proof.
  intros W Ex Eq Ewq Hfree HQ. unfold waitq_pull_thread_locked. wq_go. destruct (wf_safeq _ _ _ _ _ W Ewq) as [w Ew].
  unfold unqueued in HQ. rewrite Ex, Eq, Ewq in HQ. set (sq := safeq_of q wq) in *.
  assert (waitq_locked w = false) as Hl by (rewrite (wf_qlock _ _ _ W _ _ Ew); by apply bool_decide_eq_false).
  unfold waitq_lock_try. wq_go. rewrite Hl. wq_go. cbn [negb]. unfold waitq_thread_remove, thread_clear_waitq_state. wq_go.
  unfold waitq_empty. cbn [waitq_queue qlock].
  assert (Hend : forall g, g w = leave sq t w -> wp (waitq_unlock sq ;;; ret true) Q (on_threads {[t]} off (on_queue sq (fun w => qlock true (g w)) s))).
  { intros g Hg. apply wp_bind. eapply wp_waitq_unlock; [look|done|]. wq_go. wq_gather. by_state HQ. f_equal. same_queue Ew.
    rewrite Hg. destruct w. cbn in *. by subst. }
  destruct (waitq_is_global sq && _) eqn:Eg; wq_go; wq_gather.
  - refine (wp_bind_inv _ _ _ _ (Hend (fun w => (w <| waitq_queue ::= unlink t |>) <| waitq_eventmask := 0 |>) _)). unfold leave. cbn in Eg. by rewrite Eg.
  - refine (wp_bind_inv _ _ _ _ (Hend (fun w => w <| waitq_queue ::= unlink t |>) _)). unfold leave. cbn in Eg. rewrite Eg. by destruct w.
Qed.

(** What [clear_wait_internal] does: the code it returns, and the state. *)
Definition cleared (t : nat) (wresult : Z) (s : st) : Z * st :=
  match threads s !! t with
  | Some x =>
      if (wresult =? THREAD_INTERRUPTED) && has (t_state x) TH_UNINT then (KERN_FAILURE, s)
      else if Z.land (t_state x) (Z.lor TH_WAIT TH_TERMINATE) =? TH_WAIT
           then (KERN_SUCCESS, add_work (filter (is_suspended s) [t]) (on_threads {[t]} (result_is wresult) (unqueued t s)))
           else (KERN_NOT_WAITING, unqueued t s)
  | None => (KERN_FAILURE, s)
  end.
(** The queue that a thread waits on can be locked. *)
Definition pullable (Lq : gset nat) (t : nat) (s : st) : Prop := forall sq, waits_at s t sq -> sq ∉ Lq.
Lemma wp_clear_wait_internal Lq Lt t x wresult s (Q : Z -> st -> Prop) :
  wf Lq Lt s -> threads s !! t = Some x -> pullable Lq t s ->
  Q (fst (cleared t wresult s)) (snd (cleared t wresult s)) -> wp (clear_wait_internal t wresult) Q s.
Proof.
  intros W Ex Hp HQ. unfold clear_wait_internal. wq_go. cbn [clear_wait_loop]. wq_go. unfold cleared in HQ. rewrite Ex in HQ.
  destruct (_ && _); [by wq_go|]. wq_go.
  assert (Hgo : wp (y <- thread_deref t ;; if Z.land (t_state y) (Z.lor TH_WAIT TH_TERMINATE) =? TH_WAIT then thread_go t wresult else ret KERN_NOT_WAITING) Q (unqueued t s)).
  { assert (exists y, threads (unqueued t s) !! t = Some y /\ t_state y = t_state x /\ t_suspended y = t_suspended x) as (y & Ey & Hs & Hsu).
    { destruct (unqueued_thread t x s t Ex) as [E|[_ E]]; rewrite E; eauto. }
    wq_go. rewrite Hs. destruct (_ =? TH_WAIT); [|by wq_go]. eapply wp_thread_go; [done|]. cbn [fst snd] in HQ. by_state HQ. f_equal.
    apply filter_ext_in. intros u ->%list_elem_of_singleton. unfold is_suspended. by rewrite Ex, Ey, Hsu. }
  destruct (t_waitq x) as [q|] eqn:Eq.
  - destruct (wf_waitq _ _ _ W _ _ _ Ex Eq) as [wq Ewq]. eapply wp_pull; [done..|apply Hp; by exists x, q, wq|]. exact Hgo.
  - wq_go. rewrite (unqueued_idle t x s Ex Eq) in Hgo. exact Hgo.
Qed.
Lemma wf_cleared Lq Lt t wresult s : wf Lq Lt s -> wf Lq Lt (snd (cleared t wresult s)).
Proof.
  intros W. unfold cleared. destruct (threads s !! t) as [x|]; [|done]. destruct (_ && _); [done|]. destruct (_ =? TH_WAIT); [|by apply wf_unqueued].
  apply wf_add_work. eapply wf_on_threads; [by apply wf_unqueued| |done]. intros u y ->%elem_of_singleton Ey. split; [done|].
  exact (wf_tlock _ _ _ (wf_unqueued _ _ _ _ W) _ _ Ey).
Qed.

(** Changes of the thread that clearing it does not see. *)
Definition neutral (f : thread T -> thread T) : Prop := forall x,
  waits_for (f x) = waits_for x /\ t_suspended (f x) = t_suspended x /\ t_state (f x) = t_state x /\ off (f x) = f (off x) /\
  (forall r, result_is r (f x) = f (result_is r x)).
Lemma on_threads_none t f s : threads s !! t = None -> on_threads {[t]} f s = s.
Proof. intros E. apply on_threads_id. intros u y ->%elem_of_singleton. congruence. Qed.
Lemma unqueued_neutral f t s : neutral f -> unqueued t (on_threads {[t]} f s) = on_threads {[t]} f (unqueued t s).
Proof.
  intros Hf. destruct (threads s !! t) as [x|] eqn:Ex.
  2:{ rewrite on_threads_none by done. unfold unqueued. rewrite Ex. by rewrite on_threads_none. }
  assert (E' : threads (on_threads {[t]} f s) !! t = Some (f x)) by (apply on_threads_in; [done|set_solver]).
  destruct (Hf x) as (Hw & _ & _ & Ho & _). injection Hw as Hw _.
  unfold unqueued. rewrite E', Ex, Hw. destruct (t_waitq x) as [q|]; [|done]. change (waitqs (on_threads {[t]} f s)) with (waitqs s).
  destruct (waitqs s !! q) as [wq|]; [|done]. wq_gather. by same_thread Ex.
Qed.
Lemma cleared_neutral f t r s : neutral f -> cleared t r (on_threads {[t]} f s) = (fst (cleared t r s), on_threads {[t]} f (snd (cleared t r s))).
Proof.
  intros Hf. unfold cleared. destruct (threads s !! t) as [x|] eqn:Ex.
  2:{ rewrite on_threads_none by done. rewrite Ex. cbn. by rewrite on_threads_none. }
  rewrite (on_threads_in _ _ _ _ _ Ex) by set_solver. destruct (Hf x) as (_ & Hsu & -> & _ & _).
  destruct (_ && _); [done|]. rewrite unqueued_neutral by done. destruct (_ =? TH_WAIT); cbn [fst snd]; [|done]. f_equal. rewrite on_threads_work. f_equal.
  - apply filter_ext_in. intros u ->%list_elem_of_singleton. unfold is_suspended. rewrite Ex, (on_threads_in _ _ _ _ _ Ex) by set_solver. by rewrite Hsu.
  - rewrite !on_threads_twice. apply on_threads_ext. intros u y _ _. by destruct (Hf y) as (_ & _ & _ & _ & ->).
Qed.
Lemma cleared_thread t r s x : threads s !! t = Some x -> exists y, threads (snd (cleared t r s)) !! t = Some y.
Proof.
  intros Ex. unfold cleared. rewrite Ex. destruct (_ && _); [eauto|]. destruct (unqueued_thread t x s t Ex) as [E|[_ E]];
  (destruct (_ =? TH_WAIT); cbn [snd]; [eexists; change (threads (add_work ?l ?s)) with (threads s); by apply on_threads_in; [exact E|set_solver]|eauto]).
Qed.
Lemma unlock_locked t s : (forall x, threads s !! t = Some x -> t_locked x = false) -> on_threads {[t]} (tlock false) (on_threads {[t]} (tlock true) s) = s.
Proof. intros Hl. rewrite on_threads_twice. apply on_threads_id. intros u y ->%elem_of_singleton Ey. specialize (Hl y Ey). destruct y. cbn in *. by subst. Qed.
(** Clearing a thread that the caller has locked, and unlocking it. *)
Lemma wp_clear_locked {A} (k : Z -> A) Lq t x r s (Q : A -> st -> Prop) :
  wf Lq ∅ s -> threads s !! t = Some x -> pullable Lq t s -> (wf Lq ∅ (snd (cleared t r s)) -> Q (k (fst (cleared t r s))) (snd (cleared t r s))) ->
  wp (v <- clear_wait_internal t r ;; thread_unlock t ;;; ret (k v)) Q (on_threads {[t]} (tlock true) s).
Proof.
  intros W Ex Hp HQ. wq_go. eapply wp_clear_wait_internal; [by apply wf_lock_thread|look| |].
  { intros sq Ha. apply Hp. eapply waits_at_thread in Ha as (q & wq & Eq & Ewq & Es); [|by apply on_threads_in; [exact Ex|set_solver]]. by exists x, q, wq. }
  rewrite cleared_neutral by done. cbn [fst snd]. pose proof (wf_cleared _ _ t r _ W) as W'. destruct (cleared_thread t r s x Ex) as [y Ey].
  wq_go. eapply wp_thread_unlock; [look|done|]. wq_go. rewrite unlock_locked by (intros z; by eapply unlocked_threads). by apply HQ.
Qed.

(** ** Whole operations: locks taken and given back *)

(** A change of one queue with another queue, or itself, locked around it. *)
Lemma around_queue q sq f s :
  (forall w, waitqs s !! q = Some w -> waitq_locked w = false) -> (forall b w, f (qlock b w) = qlock b (f w)) ->
  on_queue q (qlock false) (on_queue sq f (on_queue q (qlock true) s)) = on_queue sq f s.
Proof.
  intros Hl Hf. assert (Hid : forall w, waitqs s !! q = Some w -> qlock false (qlock true w) = w).
  { intros w E. specialize (Hl w E). destruct w. cbn in *. by subst. }
  unfold on_queue, update. cbn. f_equal. apply map_eq. intros p. destruct (decide (p = q)) as [Hp|Hp], (decide (p = sq)) as [Hs|Hs]; subst; try subst sq.
  - rewrite !lookup_alter_eq. destruct (waitqs s !! sq) as [w|] eqn:E; [|done].
    change (Some (qlock false (f (qlock true w))) = Some (f w)). by rewrite <- Hf, Hid.
  - rewrite lookup_alter_eq, !(lookup_alter_ne _ _ sq q), lookup_alter_eq by done. destruct (waitqs s !! q) as [w|] eqn:E; [|done].
    change (Some (qlock false (qlock true w)) = Some w). by rewrite Hid.
  - rewrite lookup_alter_ne, !lookup_alter_eq, lookup_alter_ne by done. done.
  - by rewrite !lookup_alter_ne.
Qed.
Lemma unlocked_queues Lt q w s : wf ∅ Lt s -> waitqs s !! q = Some w -> waitq_locked w = false.
Proof. intros W E. rewrite (wf_qlock _ _ _ W _ _ E). apply bool_decide_eq_false. set_solver. Qed.
Lemma around_woken q sq ts m r s : wf ∅ ∅ s -> unlock_if true q (woken sq ts m r (on_queue q (qlock true) s)) = woken sq ts m r s.
Proof.
  intros W. unfold woken, unlock_if. rewrite on_queue_work, on_queue_threads, around_queue; [done|intros w; by eapply unlocked_queues|done].
Qed.
Lemma waiters_locked q q' event s : waiters (on_queue q (qlock true) s) q' event = waiters s q' event.
Proof.
  unfold waiters. assert (Hl : forall p, waitqs (on_queue q (qlock true) s) !! p = (fun w => if decide (p = q) then qlock true w else w) <$> waitqs s !! p).
  { intros p. case_decide as Hp; [subst; apply on_queue_lookup|]. rewrite on_queue_ne by done. by destruct (waitqs s !! p). }
  rewrite Hl. destruct (waitqs s !! q') as [wq|]; [|done]. cbn. replace (safeq_of q' (if decide (q' = q) then qlock true wq else wq)) with (safeq_of q' wq) by (by case_decide).
  rewrite Hl. destruct (waitqs s !! _) as [w|]; [|done]. cbn. by case_decide.
Qed.
Lemma may_use_locked q wq s : wf ∅ ∅ s -> waitqs s !! q = Some wq -> may_use {[q]} q (qlock true wq) (on_queue q (qlock true) s).
Proof.
  intros W E. split; [by apply on_queue_in|]. intros Hi. cut (waitq_get_safeq q <> q); [set_solver|]. intros Hs.
  destruct (wf_global _ _ _ W _ (safeq_global q)) as (w & Ew & Hw). rewrite Hs in Ew. cbn in Hi. congruence.
Qed.
(** Entering an operation on a queue. *)
Lemma wp_enter {A} q wq (m : MW T A) s Q :
  wf ∅ ∅ s -> waitqs s !! q = Some wq -> (wf {[q]} ∅ (on_queue q (qlock true) s) -> wp m Q (on_queue q (qlock true) s)) ->
  wp (waitq_lock q ;;; m) Q s.
Proof.
  intros W E Hm. wq_go. eapply wp_waitq_lock; [done|by eapply unlocked_queues|]. apply Hm. replace {[q]} with ({[q]} ∪ ∅ : gset nat) by set_solver. by apply wf_lock_queue.
Qed.
Lemma wp_valid {A} q wq (m : MW T A) s Q : wf ∅ ∅ s -> waitqs s !! q = Some wq -> wp m Q s -> wp (waitq_valid q ;;; m) Q s.
Proof. intros W E Hm. unfold waitq_valid. wq_go. apply wp_ensure; [by eapply (wf_valid _ _ _ W)|done]. Qed.

Lemma wp_wakeup_one q wq event r s (Q : Z -> st -> Prop) :
  wf ∅ ∅ s -> waitqs s !! q = Some wq ->
  (forall m, let ts := take 1 (waiters s q event) in let s' := woken (safeq_of q wq) ts m r s in
     wf ∅ ∅ s' -> Q (if decide (ts = []) then KERN_NOT_WAITING else KERN_SUCCESS) s') ->
  wp (waitq_wakeup64_one q event r) Q s.
Proof.
  intros W E HQ. unfold waitq_wakeup64_one. eapply wp_valid; [done..|]. eapply wp_enter; [done..|]. intros W'.
  eapply wp_wakeup_one_locked; [done|by apply may_use_locked|set_solver|]. intros m. cbv zeta. rewrite waiters_locked, around_woken by done. intros Ws.
  apply HQ. unfold unlocked_if in Ws. by replace (({[q]} : gset nat) ∖ {[q]}) with (∅ : gset nat) in Ws by set_solver.
Qed.
Lemma wp_wakeup_all q wq event r s (Q : Z -> st -> Prop) :
  wf ∅ ∅ s -> waitqs s !! q = Some wq ->
  (forall m, let ts := waiters s q event in let s' := woken (safeq_of q wq) ts m r s in
     wf ∅ ∅ s' -> Q (if decide (ts = []) then KERN_NOT_WAITING else KERN_SUCCESS) s') ->
  wp (waitq_wakeup64_all q event r) Q s.
Proof.
  intros W E HQ. unfold waitq_wakeup64_all. eapply wp_valid; [done..|]. eapply wp_enter; [done..|]. intros W'.
  eapply wp_wakeup_all_locked; [done|by apply may_use_locked|set_solver|]. intros m. cbv zeta. rewrite waiters_locked, around_woken by done. intros Ws.
  apply HQ. unfold unlocked_if in Ws. by replace (({[q]} : gset nat) ∖ {[q]}) with (∅ : gset nat) in Ws by set_solver.
Qed.
Lemma unlock_queue_id Lt q s : wf ∅ Lt s -> on_queue q (qlock false) (on_queue q (qlock true) s) = s.
Proof.
  intros W. rewrite on_queue_twice. destruct (waitqs s !! q) as [w|] eqn:E.
  - rewrite (on_queue_ext1 q w _ (set_mask (waitq_eventmask w))) by (done || (pose proof (unlocked_queues _ _ _ _ W E); destruct w; cbn in *; by subst)).
    by apply set_mask_id.
  - unfold on_queue, update. destruct s as [ths qs wk]. cbn in *. f_equal. apply map_eq. intros p.
    destruct (decide (p = q)) as [->|]; [by rewrite lookup_alter_eq, E|by rewrite lookup_alter_ne].
Qed.
Lemma wp_wakeup_thread q wq event t x r s (Q : Z -> st -> Prop) :
  wf ∅ ∅ s -> waitqs s !! q = Some wq -> waitq_irq wq = true -> threads s !! t = Some x ->
  (forall m, let s' := woken q [t] m r s in matches s q event t -> wf ∅ ∅ s' -> Q KERN_SUCCESS s') ->
  (~ matches s q event t -> Q KERN_NOT_WAITING s) ->
  wp (waitq_wakeup64_thread q event t r) Q s.
Proof.
  intros W E Ei Ex HQ HN. unfold waitq_wakeup64_thread. eapply wp_valid; [done..|]. eapply wp_enter; [done..|]. intros W'.
  assert (Hw : wp (waitq_wakeup64_thread_locked q event t r true) Q (on_queue q (qlock true) s)).
  { eapply wp_wakeup_thread_locked; [done|by apply on_queue_in|done|set_solver|look| |].
    - intros m s' Hm Ws. unfold s' in *. rewrite around_woken in Ws |- * by done. apply HQ; [done|].
      unfold unlocked_if in Ws. by replace (({[q]} : gset nat) ∖ {[q]}) with (∅ : gset nat) in Ws by set_solver.
    - intros Hm _. unfold unlock_if. rewrite (unlock_queue_id ∅) by done. by apply HN. }
  unfold waitq_wakeup64_thread_locked in Hw. apply wp_bind_inv in Hw. apply wp_bind. eapply wp_mono; [exact Hw|]. cbv beta. intros kr s1 H1.
  apply wp_bind_inv in H1. apply wp_bind. eapply wp_mono; [exact H1|]. cbv beta. intros _ s2. by destruct (kr =? KERN_SUCCESS).
Qed.
(** Waiting on a queue: [waitq_assert_wait64] and [assert_wait_deadline] after their checks. *)
Lemma wp_assert_wait q wq event interruptible deadline t x s (Q : Z -> st -> Prop) :
  wf ∅ ∅ s -> waitqs s !! q = Some wq -> threads s !! t = Some x -> t_waitq x = None ->
  (let s' := asserted q wq event deadline t x s in wf ∅ ∅ s' -> Q THREAD_WAITING s') ->
  wp (waitq_lock q ;;; r <- waitq_assert_wait64_locked q event interruptible deadline t ;; waitq_unlock q ;;; ret r) Q s.
Proof.
  intros W E Ex Hx HQ. eapply wp_enter; [done..|]. intros W'. wq_go. destruct (may_use_locked q wq s W E) as [E' Hirq].
  assert (Hcom : forall b w, joined (safeq_of q wq) t x (mask_of q wq event) (qlock b w) = qlock b (joined (safeq_of q wq) t x (mask_of q wq event) w)) by done.
  eapply (wp_assert_wait_locked {[q]} ∅); [done|look|done|set_solver|done|done|].
  destruct (wf_safeq _ _ _ _ _ W E) as [w Ew]. unfold asserted. change (safeq_of q (qlock true wq)) with (safeq_of q wq). change (mask_of q (qlock true wq) event) with (mask_of q wq event).
  assert (exists w', waitqs (on_queue (safeq_of q wq) (joined (safeq_of q wq) t x (mask_of q wq event)) (on_queue q (qlock true) s)) !! q = Some w' /\ waitq_locked w' = true) as (w' & Ew' & Hw').
  { destruct (decide (safeq_of q wq = q)) as [-> |Hne]; [eexists; split; [by eapply on_queue_in, on_queue_in|done]|].
    exists (qlock true wq). split; [by apply on_queue_out|done]. }
  wq_go. eapply wp_waitq_unlock; [exact Ew'|done|]. wq_go. rewrite on_queue_threads, around_queue; [|intros v; by eapply unlocked_queues|done].
  apply HQ. by apply wf_asserted.
Qed.

(** Locking a thread, changing it, and unlocking it. *)
Lemma pullable_free t s : pullable ∅ t s.
Proof. intros sq _. set_solver. Qed.
Lemma wp_lock_self {A} t x (m : MW T A) s Q :
  wf ∅ ∅ s -> threads s !! t = Some x -> wp m Q (on_threads {[t]} (tlock true) s) -> wp (thread_lock t ;;; m) Q s.
Proof. intros W Ex Hm. wq_go. eapply wp_thread_lock; [done|by eapply unlocked_threads|done]. Qed.
(** A change of a thread that keeps what it waits for and commutes with its lock. *)
Definition inner (f : thread T -> thread T) : Prop := forall x, waits_for (f x) = waits_for x /\ forall b, f (tlock b x) = tlock b (f x).
Lemma wf_inner f t s : inner f -> wf ∅ ∅ s -> wf ∅ ∅ (on_threads {[t]} f s).
Proof.
  intros Hf W. eapply (wf_on_threads ∅ ∅); [done| |done]. intros u y ->%elem_of_singleton Ey. destruct (Hf y) as [Hw Hl]. split; [done|].
  pose proof (unlocked_threads _ _ _ _ W Ey) as Hy. replace y with (tlock false y) by (destruct y; cbn in *; by subst). rewrite Hl.
  symmetry. apply bool_decide_eq_false. set_solver.
Qed.
Lemma inner_locked f t s : inner f -> on_threads {[t]} (fun x => f (tlock true x)) s = on_threads {[t]} (tlock true) (on_threads {[t]} f s).
Proof. intros Hf. rewrite on_threads_twice. apply on_threads_ext. intros u y _ _. apply Hf. Qed.
Lemma wp_unlock_inner t x f s (Q : unit -> st -> Prop) :
  wf ∅ ∅ s -> threads s !! t = Some x -> inner f -> (wf ∅ ∅ (on_threads {[t]} f s) -> Q tt (on_threads {[t]} f s)) ->
  wp (thread_unlock t) Q (on_threads {[t]} (fun x => f (tlock true x)) s).
Proof.
  intros W Ex Hf HQ. rewrite inner_locked by done. eapply wp_thread_unlock; [look|done|]. pose proof (wf_inner f t s Hf W) as W'.
  rewrite unlock_locked by (intros y; by eapply unlocked_threads). by apply HQ.
Qed.

Lemma wp_clear_wait t x r s (Q : Z -> st -> Prop) :
  wf ∅ ∅ s -> threads s !! t = Some x -> (wf ∅ ∅ (snd (cleared t r s)) -> Q (fst (cleared t r s)) (snd (cleared t r s))) -> wp (clear_wait t r) Q s.
Proof. intros W Ex HQ. unfold clear_wait. eapply wp_lock_self; [done..|]. eapply (wp_clear_locked id); [done..|apply pullable_free|done]. Qed.
(** Clearing after a change. *)
Lemma wp_clear_changed t x f r s (Q : unit -> st -> Prop) :
  wf ∅ ∅ s -> threads s !! t = Some x -> inner f ->
  (let s' := snd (cleared t r (on_threads {[t]} f s)) in wf ∅ ∅ s' -> Q tt s') ->
  wp (clear_wait_internal t r ;;; thread_unlock t) Q (on_threads {[t]} (fun x => f (tlock true x)) s).
Proof.
  intros W Ex Hf HQ. rewrite inner_locked by done. pose proof (wf_inner f t s Hf W) as W'.
  assert (Ey : threads (on_threads {[t]} f s) !! t = Some (f x)) by look.
  pose proof (wp_clear_locked (fun _ => tt) ∅ t (f x) r (on_threads {[t]} f s) Q W' Ey (pullable_free t _) HQ) as Hw.
  apply wp_bind_inv in Hw. apply wp_bind. eapply wp_mono; [exact Hw|]. cbv beta. intros _ s1 H1. apply wp_bind_inv in H1. eapply wp_mono; [exact H1|]. by intros [] s2.
Qed.

(** What the expiry of the wait timer does to a thread. *)
Definition counted (x : thread T) : thread T := x <| t_wait_timer_active ::= fun n => u16 (n - 1) |>.
Definition expires (x : thread T) : bool := (t_wait_timer_active (counted x) =? 0) && t_wait_timer_is_set x.
Definition disarmed (x : thread T) : thread T := (counted x) <| t_wait_timer_is_set := false |>.
Definition expired (t : nat) (s : st) : st :=
  match threads s !! t with
  | Some x => if expires x then snd (cleared t THREAD_TIMED_OUT (on_threads {[t]} disarmed s)) else on_threads {[t]} counted s
  | None => s
  end.
Lemma wp_timer_expire t x s (Q : unit -> st -> Prop) :
  wf ∅ ∅ s -> threads s !! t = Some x -> (wf ∅ ∅ (expired t s) -> Q tt (expired t s)) -> wp (thread_timer_expire t) Q s.
Proof.
  intros W Ex HQ. unfold thread_timer_expire. eapply wp_lock_self; [done..|]. wq_go. unfold expired in HQ. rewrite Ex in HQ. unfold expires in HQ. cbn in HQ |- *.
  destruct (_ && _); wq_go; wq_gather.
  - assert (Hw : wp (clear_wait_internal t THREAD_TIMED_OUT ;;; thread_unlock t) Q (on_threads {[t]} (fun x => disarmed (tlock true x)) s)) by (by eapply wp_clear_changed).
    apply wp_bind_inv in Hw. eapply wp_mono; [exact Hw|]. cbv beta. intros _ s1 H1. by wq_go.
  - by eapply (wp_unlock_inner t x counted).
Qed.
Definition fired (x : thread T) : thread T := x <| t_wait_timer ::= timer_call_fire |>.
Lemma wp_timer_fires t x s (Q : unit -> st -> Prop) :
  wf ∅ ∅ s -> threads s !! t = Some x ->
  (let s' := if tc_queued (t_wait_timer x) then expired t (on_threads {[t]} fired s) else s in wf ∅ ∅ s' -> Q tt s') -> wp (timer_fires t) Q s.
Proof.
  intros W Ex HQ. unfold timer_fires. wq_go. destruct (tc_queued (t_wait_timer x)); wq_go; [|by apply HQ].
  assert (W' : wf ∅ ∅ (on_threads {[t]} fired s)) by (by apply wf_inner). change (fun x0 : thread T => x0 <| t_wait_timer := timer_call_fire (t_wait_timer x0) |>) with fired.
  eapply wp_timer_expire; [done|look|done].
Qed.

(** A signal or the death of the thread ends its wait, without setting it running. *)
Definition signalled (x : thread T) : thread T :=
  x <| t_state ::= fun st => clr st (Z.lor TH_UNINT TH_WAIT) |> <| t_wait_result := THREAD_INTERRUPTED |>.
Definition dying (x : thread T) : thread T :=
  x <| t_state ::= fun st => Z.lor (clr st (Z.lor TH_UNINT TH_WAIT)) TH_TERMINATE |> <| t_wait_result := THREAD_INTERRUPTED |>.
Lemma has_bit z n : 0 <= n -> has z (2 ^ n) = Z.testbit z n.
Proof.
  intros Hn. unfold has. destruct (Z.testbit z n) eqn:E.
  - apply negb_true_iff, Z.eqb_neq. intros E0. apply (f_equal (fun z => Z.testbit z n)) in E0. by rewrite Z.land_spec, Z.pow2_bits_true, E, Z.bits_0 in E0 by done.
  - apply negb_false_iff, Z.eqb_eq, Z.bits_inj'. intros k Hk. rewrite Z.land_spec, Z.pow2_bits_eqb, Z.bits_0 by done.
    destruct (Z.eqb_spec n k) as [-> |]; [by rewrite E|apply andb_false_r].
Qed.
Lemma cleared_nowait t x r s :
  threads s !! t = Some x -> has (t_state x) TH_UNINT = false -> has (t_state x) TH_WAIT = false -> cleared t r s = (KERN_NOT_WAITING, unqueued t s).
Proof.
  intros Ex Hu Hw. unfold cleared. rewrite Ex, Hu, andb_false_r. destruct (Z.eqb_spec (Z.land (t_state x) (Z.lor TH_WAIT TH_TERMINATE)) TH_WAIT) as [E|]; [|done].
  apply (f_equal (fun z => Z.testbit z 0)) in E. rewrite Z.land_spec in E. change TH_WAIT with (2 ^ 0) in Hw. rewrite has_bit in Hw by done. by rewrite Hw in E.
Qed.
Lemma state_bits st : let u := Z.lor TH_UNINT TH_WAIT in
  has (clr st u) TH_UNINT = false /\ has (clr st u) TH_WAIT = false /\
  has (Z.lor (clr st u) TH_TERMINATE) TH_UNINT = false /\ has (Z.lor (clr st u) TH_TERMINATE) TH_WAIT = false.
Proof.
  cbv zeta. change TH_UNINT with (2 ^ 3). change TH_WAIT with (2 ^ 0). rewrite !has_bit by done. unfold clr. rewrite !Z.lor_spec, !Z.ldiff_spec.
  change (Z.testbit (Z.lor (2 ^ 3) (2 ^ 0)) 3) with true. change (Z.testbit (Z.lor (2 ^ 3) (2 ^ 0)) 0) with true.
  change (Z.testbit TH_TERMINATE 3) with false. change (Z.testbit TH_TERMINATE 0) with false. by rewrite !andb_false_r.
Qed.
Lemma wp_sigexc_enter t x s (Q : unit -> st -> Prop) :
  wf ∅ ∅ s -> threads s !! t = Some x -> (let s' := unqueued t (on_threads {[t]} signalled s) in wf ∅ ∅ s' -> Q tt s') -> wp (dtape_thread_sigexc_enter t) Q s.
Proof.
  intros W Ex HQ. unfold dtape_thread_sigexc_enter. eapply wp_lock_self; [done..|]. apply wp_bind. eapply wp_thread_mod; [look|]. wq_gather.
  eapply (wp_clear_changed t x signalled); [done..|]. destruct (state_bits (t_state x)) as (H1 & H2 & _).
  assert (E : threads (on_threads {[t]} signalled s) !! t = Some (signalled x)) by look. rewrite (cleared_nowait _ _ _ _ E) by done. exact HQ.
Qed.
Lemma wp_dying t x s (Q : unit -> st -> Prop) :
  wf ∅ ∅ s -> threads s !! t = Some x -> (let s' := unqueued t (on_threads {[t]} dying s) in wf ∅ ∅ s' -> Q tt s') -> wp (dtape_thread_dying t) Q s.
Proof.
  intros W Ex HQ. unfold dtape_thread_dying. eapply wp_lock_self; [done..|]. apply wp_bind. eapply wp_thread_mod; [look|]. wq_gather.
  eapply (wp_clear_changed t x dying); [done..|]. destruct (state_bits (t_state x)) as (_ & _ & H1 & H2).
  assert (E : threads (on_threads {[t]} dying s) !! t = Some (dying x)) by look. rewrite (cleared_nowait _ _ _ _ E) by done. exact HQ.
Qed.

(** ** Blocking and running *)
Definition stopped (x : thread T) : thread T :=
  if t_running x then x <| t_state ::= fun st => clr st TH_RUN |> <| t_running := false |> else x.
Definition suspended (cont : bool) (x : thread T) : thread T := stopped (x <| t_continuation := cont |> <| t_suspended := true |>).
Definition entered (x : thread T) : thread T :=
  x <| t_running := true |> <| t_state ::= fun st => Z.lor (clr st (Z.lor TH_WAIT TH_UNINT)) TH_RUN |> <| t_block_hint := kThreadWaitNone |>.
Definition awake (x : thread T) : thread T := (entered x) <| t_suspended := false |> <| t_continuation := false |>.
Definition work_is (l : list nat) (s : st) : st := s <| workq := l |>.

Lemma stopped_inner x : waits_for (stopped x) = waits_for x /\ (forall b, stopped (tlock b x) = tlock b (stopped x)) /\ t_suspended (stopped x) = t_suspended x.
Proof. unfold stopped. change (t_running (tlock ?b x)) with (t_running x). by destruct (t_running x). Qed.
Lemma inner_suspended cont : inner (suspended cont).
Proof. intros x. unfold suspended. destruct (stopped_inner (x <| t_continuation := cont |> <| t_suspended := true |>)) as (-> & Hl & _). done. Qed.
Lemma wp_doneWorking t x s (Q : unit -> st -> Prop) : threads s !! t = Some x -> Q tt (on_threads {[t]} stopped s) -> wp (doneWorking t) Q s.
Proof.
  intros Ex HQ. unfold doneWorking. wq_go. destruct (t_running x) eqn:Er; unfold dtape_thread_exiting; wq_go; wq_gather.
  - by_state HQ. same_thread Ex. unfold stopped. by rewrite Er.
  - rewrite on_threads_id in HQ; [done|]. intros u y ->%elem_of_singleton. rewrite Ex. intros [= <-]. unfold stopped. by rewrite Er.
Qed.
Lemma relocked t f s : on_threads {[t]} (fun y => tlock false (f (tlock true y))) s = on_threads {[t]} (tlock false) (on_threads {[t]} (fun y => f (tlock true y)) s).
Proof. by rewrite on_threads_twice. Qed.
Lemma inner_relocked t f s : inner f -> wf ∅ ∅ s -> on_threads {[t]} (fun y => tlock false (f (tlock true y))) s = on_threads {[t]} f s.
Proof.
  intros Hf W. rewrite relocked, inner_locked by done. apply unlock_locked. intros y. apply unlocked_threads with (Lq := ∅). by apply wf_inner.
Qed.
Lemma wp_thread_block t x cont s (Q : option Z -> st -> Prop) :
  wf ∅ ∅ s -> threads s !! t = Some x ->
  (if has (t_state x) TH_WAIT then let s' := on_threads {[t]} (suspended cont) s in wf ∅ ∅ s' -> Q None s'
   else let s' := on_threads {[t]} (fun x => x <| t_continuation := cont |>) s in wf ∅ ∅ s' -> Q (Some (t_wait_result x)) s') ->
  wp (thread_block_parameter t cont) Q s.
Proof.
  intros W Ex HQ. unfold thread_block_parameter, block_prepare. apply wp_bind. eapply wp_lock_self; [done..|]. wq_go. wq_gather.
  eapply wp_thread_unlock; [look|done|]. wq_go. wq_gather. rewrite inner_relocked by done.
  change (t_state ((tlock true x) <| t_continuation := cont |>)) with (t_state x). destruct (has (t_state x) TH_WAIT).
  - unfold Thread_suspend. wq_go. eapply wp_doneWorking; [look|]. wq_go. wq_gather. apply HQ. apply wf_inner; [apply inner_suspended|done].
  - unfold block_result. apply wp_bind. assert (W' : wf ∅ ∅ (on_threads {[t]} (fun x => x <| t_continuation := cont |>) s)) by (by apply wf_inner).
    eapply wp_lock_self; [done|look|]. wq_go. eapply wp_thread_unlock; [look|done|]. wq_go. rewrite unlock_locked by (intros y; by eapply unlocked_threads). by apply HQ.
Qed.
Lemma wf_work_is l s Lq Lt : wf Lq Lt s -> wf Lq Lt (work_is l s).
Proof. intros []. by constructor. Qed.
Lemma wp_wait_result (b : bool) t x s (Q : Z -> st -> Prop) :
  wf ∅ ∅ s -> threads s !! t = Some x -> t_continuation x = b ->
  Q (t_wait_result x) (on_threads {[t]} (fun x => x <| t_continuation := false |>) s) ->
  wp (if b then thread_continuation_callback t else block_result t) Q s.
Proof.
  intros W Ex Hb HQ. destruct b; unfold thread_continuation_callback, block_result; (eapply wp_lock_self; [done..|]); wq_go; wq_gather.
  - eapply wp_thread_unlock; [look|done|]. wq_go. wq_gather. by rewrite inner_relocked.
  - eapply wp_thread_unlock; [look|done|]. wq_go. rewrite unlock_locked by (intros y; by eapply unlocked_threads).
    rewrite on_threads_id in HQ; [done|]. intros u y ->%elem_of_singleton. rewrite Ex. intros [= <-]. destruct x. cbn in *. by subst.
Qed.
Lemma inner_entered : inner entered.
Proof. done. Qed.
(** What a worker does with the first thread of the work queue. *)
Definition served (t : nat) (x : thread T) (s : st) : st :=
  if t_running x then s else on_threads {[t]} (fun x => if t_suspended x then awake x else stopped (entered x)) s.
Lemma wf_served t x s : wf ∅ ∅ s -> wf ∅ ∅ (served t x s).
Proof. intros W. unfold served. destruct (t_running x); [done|]. apply wf_inner; [|done]. intros y. change (t_suspended (tlock ?b y)) with (t_suspended y). by destruct (t_suspended y). Qed.
Lemma wp_resumed t x s (Q : option Z -> st -> Prop) :
  wf ∅ ∅ s -> threads s !! t = Some x ->
  Q (if negb (t_running x) && t_suspended x then Some (t_wait_result x) else None) (served t x s) ->
  wp (resumed t) Q s.
Proof.
  intros W Ex HQ. unfold resumed, doWork. wq_go. unfold served in HQ. destruct (t_running x) eqn:Er; cbn [negb andb] in HQ; [by wq_go|].
  unfold dtape_thread_entering. wq_go. wq_gather. change (on_threads {[t]} _ s) with (on_threads {[t]} entered s). destruct (t_suspended x) eqn:Esu; wq_go.
  - wq_gather. cbn [negb]. wq_go. eapply (wp_wait_result); [by apply wf_inner|look|done|]. wq_go. wq_gather.
    by_state HQ. same_thread Ex. by rewrite Esu.
  - eapply wp_doneWorking; [look|]. wq_go. cbn [negb]. wq_go. wq_gather. by_state HQ. same_thread Ex. by rewrite Esu.
Qed.
Lemma wp_worker t x l s (Q : option (nat * Z) -> st -> Prop) :
  wf ∅ ∅ s -> workq s = t :: l -> threads s !! t = Some x ->
  (let s' := served t x (work_is l s) in wf ∅ ∅ s' -> Q (if negb (t_running x) && t_suspended x then Some (t, t_wait_result x) else None) s') ->
  wp worker Q s.
Proof.
  intros W El Ex HQ. unfold worker. wq_go. rewrite El. wq_go. eapply (wp_resumed t x (work_is l s)); [by apply wf_work_is|done|]. wq_go.
  assert (W' : wf ∅ ∅ (served t x (work_is l s))) by (by apply wf_served, wf_work_is). specialize (HQ W'). by destruct (negb _ && _).
Qed.
End Blocking.
End Blocking.
