(* ===== verification/WaitSpec.v ===== *)
(** * What wait queues promise

    The abstract wait queues, one first-in-first-out list of threads per queue and
    event, and the refinement: the hashed global queues, the filter on event masks
    and the scans of [WaitQ] implement them.  Then the account of threads and
    queues and the fate of suspended threads, over all sequences of operations. *)
From S2P Require Import Prelude WaitQ WaitQProps Blocking.

Module WaitSpec.
Export Blocking.

(** ** The abstract queues *)
Definition waits := nat -> Z -> list nat.
Definition at_event (a : waits) (q : nat) (e : Z) (f : list nat -> list nat) : waits :=
  fun q' e' => if decide (q' = q /\ e' = e) then f (a q' e') else a q' e'.
(** The operations as their callers see them: a thread begins to wait, at the back or
    at the front; the first, all, or one given thread of an event are woken; a
    thread's wait is ended. *)
Inductive wait_op :=
| Join (t q : nat) (e : Z) (back : bool)
| WakeOne (q : nat) (e : Z)
| WakeAll (q : nat) (e : Z)
| WakeThread (q : nat) (e : Z) (t : nat)
| Leave (t : nat).
Definition woken_if (l : list nat) : Z := if decide (l = []) then KERN_NOT_WAITING else KERN_SUCCESS.
Definition apply (o : wait_op) (a : waits) : waits :=
  match o with
  | Join t q e back => at_event a q e (fun l => if back then l ++ [t] else t :: l)
  | WakeOne q e => at_event a q e (@tail nat)
  | WakeAll q e => at_event a q e (fun _ => [])
  | WakeThread q e t => at_event a q e (unlink t)
  | Leave t => fun q e => unlink t (a q e)
  end.
(** The threads an operation sets running, and what it returns. *)
Definition gone (o : wait_op) (a : waits) : list nat :=
  match o with
  | Join _ _ _ _ => []
  | WakeOne q e => take 1 (a q e)
  | WakeAll q e => a q e
  | WakeThread q e t => if decide (t ∈ a q e) then [t] else []
  | Leave t => [t]
  end.
Definition reply (o : wait_op) (a : waits) : Z :=
  match o with Join _ _ _ _ => THREAD_WAITING | _ => woken_if (gone o a) end.

Section WaitSpec.
Context {T : Type} `{TimerCall T} `{Kernel}.
Notation st := (wst T).
Implicit Types s : st.
Implicit Types x : thread T.

Definition implements (a : waits) (s : st) : Prop := forall q e, waiters s q e = a q e.

Lemma filter_all {A} (P : A -> Prop) `{!forall u, Decision (P u)} (l : list A) : (forall u, u ∈ l -> P u) -> filter P l = l.
Proof.
  induction l as [|u l IH]; [done|]. intros HP. rewrite filter_cons, decide_True by (apply HP; left). f_equal. apply IH. intros v Hv. apply HP. by right.
Qed.
Lemma unlink_filter (t : nat) l : NoDup l -> unlink t l = filter (fun u => u <> t) l.
Proof.
  induction 1 as [|u l Hu Hl IH]; [done|]. rewrite filter_cons. cbn. case_decide as Ht; [subst u; rewrite decide_False by tauto|rewrite decide_True by congruence; by rewrite IH].
  symmetry. apply filter_all. intros v Hv ->. done.
Qed.
Lemma unlink_all_filter ts l : NoDup l -> unlink_all ts l = filter (fun u => u ∉ ts) l.
Proof.
  revert l. induction ts as [|t ts IH]; intros l Hl.
  - cbn. symmetry. apply filter_all. intros u _. apply not_elem_of_nil.
  - change (unlink_all (t :: ts) l) with (unlink_all ts (unlink t l)). rewrite IH by by apply NoDup_unlink. rewrite unlink_filter by done.
    rewrite list_filter_filter. apply filter_ext_in. intros u _. rewrite not_elem_of_cons. tauto.
Qed.

(** The waiters of a state in which some queues and some threads changed. *)
Lemma waiters_changed (ts : list nat) (g : nat -> waitq -> waitq) s s' q e :
  (forall p, waitqs s' !! p = g p <$> waitqs s !! p) -> (forall p w, waitq_irq (g p w) = waitq_irq w) ->
  (forall p w, waitqs s !! p = Some w -> filter (matches s' q e) (waitq_queue (g p w)) = filter (fun u => u ∉ ts) (filter (matches s q e) (waitq_queue w))) ->
  waiters s' q e = filter (fun u => u ∉ ts) (waiters s q e).
Proof.
  intros Hq Hi Hf. unfold waiters. rewrite Hq. destruct (waitqs s !! q) as [wq|]; [|done]. cbn. rewrite (safeq_of_irq q (g q wq) wq) by done.
  rewrite Hq. destruct (waitqs s !! _) as [w|] eqn:Ew; [|done]. cbn. by apply Hf.
Qed.
Lemma waiters_woken sq ts m r s q e :
  wf ∅ ∅ s ->
  waiters (woken sq ts m r s) q e = filter (fun u => u ∉ ts) (waiters s q e).
Proof.
  intros W.
  apply (waiters_changed ts (fun p w => if decide (p = sq) then set_mask m (w <| waitq_queue ::= unlink_all ts |>) else w)).
  - intros p. change (waitqs (woken sq ts m r s)) with (waitqs (on_queue sq (fun w => set_mask m (w <| waitq_queue ::= unlink_all ts |>)) s)).
    case_decide as Hp; [subst; apply on_queue_lookup|]. rewrite on_queue_ne by done. by destruct (waitqs s !! p).
  - intros p w. by case_decide.
  - intros p w Ew. assert (Hm : forall u, matches (woken sq ts m r s) q e u <-> matches s q e u /\ u ∉ ts).
    { intros u. unfold matches. change (threads (woken sq ts m r s)) with (threads (on_threads (list_to_set ts) (fun x => result_is r (off x)) s)).
      rewrite on_threads_lookup. destruct (threads s !! u) as [x|] eqn:Ex; cbn; [|tauto]. destruct (decide (u ∈ _)) as [Hu|Hu]; rewrite elem_of_list_to_set in Hu; cbn; [|tauto].
      split; [by intros [? _]|tauto]. }
    transitivity (filter (fun u => u ∉ ts) (filter (matches s q e) (if decide (p = sq) then unlink_all ts (waitq_queue w) else waitq_queue w))).
    { rewrite list_filter_filter. case_decide; (apply filter_ext_in; intros u _; rewrite Hm; tauto). }
    case_decide as Hp; [|done]. rewrite unlink_all_filter by (by eapply wf_nodup). rewrite !list_filter_filter. apply filter_ext_in. intros u _. tauto.
Qed.

Lemma waiters_threads ts f s q e :
  (forall t x, t ∈ ts -> threads s !! t = Some x -> waits_for (f x) = waits_for x) -> waiters (on_threads ts f s) q e = waiters s q e.
Proof.
  intros Hf. unfold waiters. change (waitqs (on_threads ts f s)) with (waitqs s). destruct (waitqs s !! q) as [wq|]; [|done]. destruct (waitqs s !! _) as [w|]; [|done].
  apply filter_ext_in. intros u _. unfold matches. rewrite on_threads_lookup. destruct (threads s !! u) as [x|] eqn:Ex; [|done]. cbn. case_decide as Hu; [|done].
  pose proof (Hf u x Hu Ex) as Hw. unfold waits_for in Hw. injection Hw as -> ->. done.
Qed.
Lemma waiters_work l s q e : waiters (add_work l s) q e = waiters s q e.
Proof. done. Qed.
Lemma waiters_leave t s q e : wf ∅ ∅ s -> waiters (unqueued t s) q e = unlink t (waiters s q e).
Proof.
  intros W. rewrite unlink_filter by (by eapply waiters_nodup).
  assert (Hout : ~ (exists x q', threads s !! t = Some x /\ t_waitq x = Some q') -> unqueued t s = s -> waiters (unqueued t s) q e = filter (fun u => u <> t) (waiters s q e)).
  { intros Hno ->. symmetry. apply filter_all. intros u Hu -> . apply waiters_elem in Hu. unfold matches in Hu. destruct (threads s !! t) as [x|] eqn:Ex; [|done].
    apply Hno. exists x, q. tauto. }
  destruct (threads s !! t) as [x|] eqn:Ex; [|apply Hout; [by intros (? & ? & ? & _)|unfold unqueued; by rewrite Ex]].
  destruct (t_waitq x) as [q0|] eqn:Eq0; [|apply Hout; [intros (? & ? & ? & ?); congruence|by eapply unqueued_idle]].
  destruct (wf_waitq _ _ _ W _ _ _ Ex Eq0) as [w0 E0]. clear Hout. set (sq := safeq_of q0 w0).
  rewrite (filter_ext_in (fun u => u <> t) (fun u => u ∉ [t])) by (intros u _; by rewrite list_elem_of_singleton).
  apply (waiters_changed [t] (fun p w => if decide (p = sq) then leave sq t w else w)).
  - intros p. unfold unqueued. rewrite Ex, Eq0, E0. change (waitqs (on_threads ?ts ?f ?s)) with (waitqs s). fold sq.
    case_decide as Hp; [subst p; apply on_queue_lookup|]. rewrite on_queue_ne by done. by destruct (waitqs s !! p).
  - intros p w. by case_decide.
  - intros p w Ew. assert (Hm : forall u, matches (unqueued t s) q e u <-> matches s q e u /\ u ∉ [t]).
    { intros u. rewrite list_elem_of_singleton. unfold matches, unqueued. rewrite Ex, Eq0, E0. rewrite on_threads_lookup. change (threads (on_queue ?q ?f s)) with (threads s).
      destruct (threads s !! u) as [y|] eqn:Ey; cbn; [|tauto]. destruct (decide (u ∈ {[t]})) as [Hu|Hu]; rewrite elem_of_singleton in Hu; cbn; [|tauto]. split; [by intros [? _]|tauto]. }
    transitivity (filter (fun u => u ∉ [t]) (filter (matches s q e) (if decide (p = sq) then unlink t (waitq_queue w) else waitq_queue w))).
    { rewrite list_filter_filter. case_decide; (apply filter_ext_in; intros u _; rewrite Hm; tauto). }
    case_decide as Hp; [|done]. rewrite unlink_filter by (by eapply wf_nodup). rewrite !list_filter_filter. apply filter_ext_in. intros u _. rewrite list_elem_of_singleton. tauto.
Qed.
Lemma waiters_asserted q wq e d t x s q' e' :
  wf ∅ ∅ s -> threads s !! t = Some x -> t_waitq x = None -> waitqs s !! q = Some wq ->
  waiters (asserted q wq e d t x s) q' e' =
  if decide (q' = q /\ e' = e) then
    if from_option (fun w => waits_fifo w x) true (waitqs s !! safeq_of q wq) then waiters s q' e' ++ [t] else t :: waiters s q' e'
  else waiters s q' e'.
Proof.
  intros W Ex Hx Eq. destruct (wf_safeq _ _ _ _ _ W Eq) as [w Ew]. rewrite Ew. set (sq := safeq_of q wq) in *. cbn [from_option].
  destruct (parked_fields q e d x) as (Hq & He & _). set (s' := asserted q wq e d t x s).
  assert (Hqs : forall p, waitqs s' !! p = (fun v => if decide (p = sq) then joined sq t x (mask_of q wq e) v else v) <$> waitqs s !! p).
  { intros p. change (waitqs s') with (waitqs (on_queue sq (joined sq t x (mask_of q wq e)) s)).
    case_decide as Hp; [subst p; apply on_queue_lookup|]. rewrite on_queue_ne by done. by destruct (waitqs s !! p). }
  assert (Hother : forall u, u <> t -> matches s' q' e' u <-> matches s q' e' u).
  { intros u Hu. unfold matches, s', asserted. rewrite on_threads_out by (by rewrite elem_of_singleton). done. }
  assert (Ht : matches s' q' e' t <-> q' = q /\ e' = e).
  { unfold matches, s', asserted. cbv zeta. rewrite (on_threads_in _ _ (on_queue (safeq_of q wq) (joined (safeq_of q wq) t x (mask_of q wq e)) s) t x Ex) by set_solver. rewrite Hq, He. split; [by intros [[= ->] ->]|by intros [-> ->]]. }
  assert (Hnt : forall p v, waitqs s !! p = Some v -> t ∉ waitq_queue v).
  { intros p v Ev Hin. apply (wf_queue _ _ _ W _ _ _ Ev) in Hin. destruct (waits_at_thread _ _ _ _ Hin Ex) as (? & ? & ? & _). congruence. }
  assert (Hsame : forall p v, waitqs s !! p = Some v -> filter (matches s' q' e') (waitq_queue v) = filter (matches s q' e') (waitq_queue v)).
  { intros p v Ev. apply filter_ext_in. intros u Hu. apply Hother. intros ->. by apply (Hnt p v Ev). }
  unfold waiters. rewrite Hqs. destruct (waitqs s !! q') as [wq'|] eqn:Eq'; cbn; [|case_decide as Hd; [destruct Hd as [-> ->]; congruence|done]].
  replace (safeq_of q' (if decide (q' = sq) then _ else wq')) with (safeq_of q' wq') by (by case_decide). rewrite Hqs.
  destruct (decide (safeq_of q' wq' = sq)) as [Es|Es].
  - rewrite Es, Ew. cbn. rewrite <- (Hsame sq w Ew). destruct (waits_fifo w x); [rewrite filter_app|]; rewrite filter_cons, ?filter_nil; (case_decide as Hd; rewrite Ht in Hd; [by rewrite decide_True|rewrite decide_False by done]; by rewrite ?app_nil_r).
  - rewrite decide_False by (intros [E1 _]; apply Es; unfold sq; congruence). destruct (waitqs s !! safeq_of q' wq') as [v|] eqn:Ev; [|done]. cbn. by eapply Hsame.
Qed.

(** ** Refinement *)
Definition run_op (r interruptible deadline : Z) (o : wait_op) : MW T Z :=
  match o with
  | Join t q e _ => waitq_assert_wait64 t q e interruptible deadline
  | WakeOne q e => waitq_wakeup64_one q e r
  | WakeAll q e => waitq_wakeup64_all q e r
  | WakeThread q e t => waitq_wakeup64_thread q e t r
  | Leave t => clear_wait t r
  end.
(** What the callers owe: the queue exists; a thread that starts to wait is not
    waiting, and waits at the back of an ordinary queue unless it is privileged or
    real-time; a thread is woken by name on an interrupt-safe queue; a thread whose
    wait is ended waits, and not uninterruptibly if it is interrupted. *)
Definition permitted (r : Z) (s : st) (o : wait_op) : Prop :=
  match o with
  | Join t q e back => exists x wq w, threads s !! t = Some x /\ t_waitq x = None /\ waitqs s !! q = Some wq /\
                         waitqs s !! safeq_of q wq = Some w /\ back = waits_fifo w x
  | WakeOne q e | WakeAll q e => is_Some (waitqs s !! q)
  | WakeThread q e t => is_Some (threads s !! t) /\ exists wq, waitqs s !! q = Some wq /\ waitq_irq wq = true
  | Leave t => exists x, threads s !! t = Some x /\ Z.land (t_state x) (Z.lor TH_WAIT TH_TERMINATE) = TH_WAIT /\
                 ~ (r = THREAD_INTERRUPTED /\ has (t_state x) TH_UNINT = true)
  end.
Record refined (r : Z) (o : wait_op) (a : waits) (s : st) (kr : Z) (s' : st) : Prop := {
  rf_wf : wf ∅ ∅ s';
  rf_waits : implements (apply o a) s';
  rf_reply : kr = reply o a;
  rf_work : workq s' = workq s ++ filter (is_suspended s) (gone o a);
  rf_result t x : t ∈ gone o a -> threads s' !! t = Some x -> t_wait_result x = r /\ t_waitq x = None;
}.

(** Threads of one event leave: nobody else's wait changes. *)
Lemma waiters_other a s q e q' e' t : implements a s -> t ∈ a q e -> t ∈ a q' e' -> q' = q /\ e' = e.
Proof.
  intros Ha H1 H2. rewrite <- Ha in H1, H2. apply waiters_elem in H1, H2. unfold matches in *. destruct (threads s !! t); [|done].
  destruct H1 as [H1 <-], H2 as [H2 <-]. split; [congruence|done].
Qed.
Lemma implements_woken sq ts m r a s q e f :
  wf ∅ ∅ s -> implements a s -> (forall t, t ∈ ts -> t ∈ a q e) -> filter (fun u => u ∉ ts) (a q e) = f (a q e) ->
  implements (at_event a q e f) (woken sq ts m r s).
Proof.
  intros W Ha Hin Hf q' e'. rewrite waiters_woken by done. rewrite Ha. unfold at_event. case_decide as Hd; [destruct Hd as [-> ->]; exact Hf|].
  apply filter_all. intros u Hu Hts. apply Hd. eapply waiters_other; [done|by apply Hin|done].
Qed.
Lemma woken_result sq ts m r s t x : t ∈ ts -> threads (woken sq ts m r s) !! t = Some x -> t_wait_result x = r /\ t_waitq x = None.
Proof.
  intros Ht Ex. change (threads (woken sq ts m r s)) with (threads (on_threads (list_to_set ts) (fun x => result_is r (off x)) s)) in Ex.
  rewrite on_threads_lookup in Ex. destruct (threads s !! t) as [y|]; [|done]. cbn in Ex. rewrite decide_True in Ex by set_solver. by injection Ex as <-.
Qed.
Lemma at_event_id a q e f s : implements a s -> f (a q e) = a q e -> implements (at_event a q e f) s.
Proof. intros Ha Hf q' e'. unfold at_event. case_decide as Hd; [|done]. destruct Hd as [-> ->]. by rewrite Hf. Qed.
Lemma filter_notin_self (l : list nat) : filter (fun u => u ∉ l) l = [].
Proof. apply elem_of_nil_inv. by intros u [Hn Hi]%list_elem_of_filter. Qed.
Lemma filter_not_first (l : list nat) : NoDup l -> filter (fun u => u ∉ take 1 l) l = tail l.
Proof.
  intros Hl. destruct l as [|t l]; [done|]. cbn [tail]. rewrite <- (unlink_head t l) at 2. rewrite unlink_filter by done.
  apply filter_ext_in. intros u _. cbn. by rewrite take_0, list_elem_of_singleton.
Qed.
Lemma implements_nodup a s q e : wf ∅ ∅ s -> implements a s -> NoDup (a q e).
Proof. intros W Ha. rewrite <- Ha. by eapply waiters_nodup. Qed.

(** C19: whatever the hash of the queues, their event masks and the order of their
    entries, the operations on wait queues act as on one list of threads per queue
    and event: a thread joins the list of its event, waking takes the first, all or
    the given thread off it, and a thread whose wait is ended leaves it.  Every
    operation returns, with the code its callers expect, sets exactly the threads
    that left running, with the given result, and keeps the account of threads and
    queues. *)
Theorem waitq_refines_lists r interruptible deadline o a s :
  wf ∅ ∅ s -> implements a s -> permitted r s o ->
  wp (run_op r interruptible deadline o) (refined r o a s) s.
Proof.
  intros W Ha Hok. destruct o as [t q e back|q e|q e|q e t|t]; cbn in Hok |- *.
  - destruct Hok as (x & wq & w & Ex & Hx & Eq & Ew & ->). unfold waitq_assert_wait64. eapply wp_valid; [done..|].
    eapply wp_assert_wait; [done..|]. intros s' W'. constructor; [done| |done|symmetry; apply app_nil_r|by intros ? ? ?%elem_of_nil].
    intros q' e'. unfold s'. rewrite waiters_asserted by done. rewrite Ew. cbn [apply from_option]. unfold at_event. rewrite !Ha. done.
  - destruct Hok as [wq Eq]. eapply wp_wakeup_one; [done..|]. intros m. cbv zeta. rewrite Ha. intros W'.
    constructor; [done| |done|done|by apply woken_result]. apply implements_woken; [done|done| |by apply filter_not_first, (implements_nodup a s)].
    intros t Ht. eapply elem_of_submseteq; [exact Ht|apply sublist_submseteq, sublist_take].
  - destruct Hok as [wq Eq]. eapply wp_wakeup_all; [done..|]. intros m. cbv zeta. rewrite Ha. intros W'.
    constructor; [done| |done|done|by apply woken_result]. apply implements_woken; [done|done|done|apply filter_notin_self].
  - destruct Hok as ([x Ex] & wq & Eq & Ei). eapply wp_wakeup_thread; [done..| |].
    + intros m s' Hm W'. assert (t ∈ a q e) as Hin.
      { rewrite <- Ha. unfold waiters. rewrite Eq. unfold safeq_of. rewrite Ei, Eq. apply list_elem_of_filter. split; [done|].
        unfold matches in Hm. rewrite Ex in Hm. rewrite (wf_queue _ _ _ W _ _ t Eq). exists x, q, wq. split_and!; [done|tauto|done|]. unfold safeq_of. by rewrite Ei. }
      unfold s' in *. constructor; cbn [apply reply gone]; rewrite ?decide_True by done; [done| |done|done|by apply woken_result].
      apply implements_woken; [done|done|by intros u ->%list_elem_of_singleton|]. rewrite unlink_filter by (by apply (implements_nodup a s)).
      apply filter_ext_in. intros u _. by rewrite list_elem_of_singleton.
    + intros Hm. assert (t ∉ a q e) as Hin by (rewrite <- Ha; intros Hin; by apply waiters_elem in Hin).
      constructor; cbn [apply reply gone]; rewrite ?decide_False by done; [done| |done|symmetry; apply app_nil_r|by intros ? ? ?%elem_of_nil].
      apply at_event_id; [done|by apply unlink_notin].
  - destruct Hok as (x & Ex & Hst & Hun). eapply wp_clear_wait; [done..|]. unfold cleared. rewrite Ex.
    destruct (_ && _) eqn:Eu; [exfalso; apply Hun; by apply andb_true_iff in Eu as [?%Z.eqb_eq ?]|]. rewrite Hst. change (TH_WAIT =? TH_WAIT) with true. cbv iota. cbn [fst snd]. intros W'.
    constructor; [done| |done| |].
    + intros q e. rewrite waiters_work, waiters_threads by done. rewrite waiters_leave by done. by rewrite Ha.
    + cbn [gone]. change (workq (add_work ?l ?s)) with (workq s ++ l). f_equal. by rewrite <- (unqueued_workq t s).
    + intros u y ->%list_elem_of_singleton. change (threads (add_work ?l ?s)) with (threads s). rewrite on_threads_lookup.
      destruct (unqueued_thread t x s t Ex) as [E|[_ E]]; rewrite E; cbn; rewrite decide_True by set_solver; intros [= <-]; [|done].
      split; [done|]. cbn. destruct (t_waitq x) as [q|] eqn:Eq; [|done]. exfalso. destruct (wf_waitq _ _ _ W _ _ _ Ex Eq) as [wq Ewq].
      unfold unqueued in E. rewrite Ex, Eq, Ewq in E. rewrite on_threads_lookup in E. change (threads (on_queue ?q ?f s)) with (threads s) in E. rewrite Ex in E. cbn in E.
      rewrite decide_True in E by set_solver. apply (f_equal (fmap t_waitq)) in E. cbn in E. congruence.
Qed.

(** ** The end of a thread *)

(** The thread after its wait timer is cancelled, and after it is marked as terminating. *)
Definition cancelled (x : thread T) : thread T :=
  if t_wait_timer_is_set x then
    let '(was, tc) := timer_call_cancel (t_wait_timer x) in
    x <| t_wait_timer_is_set := false |> <| t_wait_timer := tc |> <| t_wait_timer_active ::= fun n => if was then u16 (n - 1) else n |>
  else x.
Definition terminated (x : thread T) : thread T := (cancelled x) <| t_state ::= fun st => clr (Z.lor st TH_TERMINATE) TH_UNINT |>.
Lemma cancelled_inner : inner cancelled.
Proof.
  intros x. unfold cancelled. change (t_wait_timer_is_set (tlock ?b x)) with (t_wait_timer_is_set x). change (t_wait_timer (tlock ?b x)) with (t_wait_timer x).
  destruct (t_wait_timer_is_set x); [|done]. by destruct (timer_call_cancel _).
Qed.
Lemma terminated_state x : has (t_state (terminated x)) TH_UNINT = false /\ has (t_state (terminated x)) TH_TERMINATE = true.
Proof.
  change (t_state (terminated x)) with (clr (Z.lor (t_state (cancelled x)) TH_TERMINATE) TH_UNINT). generalize (t_state (cancelled x)). intros z. change TH_UNINT with (2 ^ 3). change TH_TERMINATE with (2 ^ 4). rewrite !has_bit by done. unfold clr.
  rewrite !Z.ldiff_spec, !Z.lor_spec. change (Z.testbit (2 ^ 3) 3) with true. change (Z.testbit (2 ^ 4) 4) with true. change (Z.testbit (2 ^ 3) 4) with false. by rewrite !andb_false_r, orb_true_r.
Qed.
Lemma terminated_cleared t x s : threads s !! t = Some (terminated x) -> cleared t THREAD_INTERRUPTED s = (KERN_NOT_WAITING, unqueued t s).
Proof.
  intros Ex. destruct (terminated_state x) as [Hu Ht]. unfold cleared. rewrite Ex, Hu, andb_false_r.
  destruct (Z.eqb_spec (Z.land (t_state (terminated x)) (Z.lor TH_WAIT TH_TERMINATE)) TH_WAIT) as [E|]; [|done].
  apply (f_equal (fun z => Z.testbit z 4)) in E. rewrite Z.land_spec in E. change TH_TERMINATE with (2 ^ 4) in Ht. rewrite has_bit in Ht by done. by rewrite Ht in E.
Qed.
Lemma wp_cancel t x s (Q : unit -> st -> Prop) :
  threads s !! t = Some x -> Q tt (on_threads {[t]} cancelled s) ->
  wp (when (t_wait_timer_is_set x)
        (thread_mod t (fun x => x <| t_wait_timer_is_set := false |>) ;;;
         let '(was, tc) := timer_call_cancel (t_wait_timer x) in
         thread_mod t (fun x => x <| t_wait_timer := tc |>) ;;;
         when was (thread_mod t (fun x => x <| t_wait_timer_active ::= fun n => u16 (n - 1) |>)))) Q s.
Proof.
  intros Ex HQ. assert (Hc : on_threads {[t]} cancelled s = on_threads {[t]} (fun _ => cancelled x) s) by (by same_thread Ex). rewrite Hc in HQ. unfold cancelled in HQ.
  destruct (t_wait_timer_is_set x); wq_go.
  - destruct (timer_call_cancel (t_wait_timer x)) as [was tc]. wq_go. destruct was; wq_go; wq_gather; by_state HQ; by same_thread Ex.
  - rewrite on_threads_id in HQ; [done|]. intros u y ->%elem_of_singleton. congruence.
Qed.

Lemma terminated_inner : inner terminated.
Proof. intros x. unfold terminated. destruct (cancelled_inner x) as [Hw Hl]. split; [exact Hw|]. intros b. by rewrite Hl. Qed.
Lemma bind_ret {A B} (m : MW T A) (k : A -> MW T B) s a s' : m s = Ret a s' -> bind m k s = k a s'.
Proof. unfold bind. by intros ->. Qed.
Lemma run_to {A} (m : MW T A) s a s' : wp m (fun b s2 => b = a /\ s2 = s') s -> m s = Ret a s'.
Proof. unfold wp. destruct (m s); [by intros [-> ->]|done..]. Qed.
(** ** Sequences of operations *)

(** Everything that happens to waits: the operations above, the two halves of going to
    sleep and both at once, the same for the events that hash to a global queue, the wait
    timer, signals, the death and the end of a thread, new queues, and a worker that takes
    a thread from the work queue. *)
Inductive act :=
| Op (r interruptible deadline : Z) (o : wait_op)
| Block (t : nat) (cont : bool)
| Sleep (t q : nat) (e interruptible deadline : Z) (cont : bool)
| Fire (t : nat)
| Signal (t : nat)
| Die (t : nat)
| Init (q : nat) (policy : Z)
| Work
| AssertWait (t : nat) (e interruptible : Z)
| AssertWaitDeadline (t : nat) (e interruptible deadline : Z)
| Wakeup (e : Z) (one : bool) (r : Z)
| WakeupThread (e : Z) (t : nat)
| Destroy (t : nat).
Definition perform (a : act) : MW T unit :=
  match a with
  | Op r i d o => run_op r i d o ;;; ret tt
  | Block t cont => thread_block_parameter t cont ;;; ret tt
  | Sleep t q e i d cont => waitq_assert_wait64 t q e i d ;;; thread_block_parameter t cont ;;; ret tt
  | Fire t => timer_fires t
  | Signal t => dtape_thread_sigexc_enter t
  | Die t => dtape_thread_dying t
  | Init q policy => waitq_init q policy ;;; ret tt
  | Work => worker ;;; ret tt
  | AssertWait t e i => assert_wait t e i ;;; ret tt
  | AssertWaitDeadline t e i d => assert_wait_deadline t e i d ;;; ret tt
  | Wakeup e one r => thread_wakeup_prim e one r ;;; ret tt
  | WakeupThread e t => thread_wakeup_thread e (Some t) ;;; ret tt
  | Destroy t => destroy_waits t
  end.
(** What they need: that their thread and their queue exist, that a thread that starts
    to wait is not waiting, that the event is not [NO_EVENT], that a new queue is none of
    the old ones, that a thread is woken by name only on an interrupt-safe queue (see
    [named_wakeup_keeps_lock]), and that no timer call of a thread is under way when the
    thread is destroyed (see [destroy_waits_runs]). *)
Definition enabled (s : st) (a : act) : Prop :=
  match a with
  | Op _ _ _ (Join t q _ _) | Sleep t q _ _ _ _ => (exists x, threads s !! t = Some x /\ t_waitq x = None) /\ is_Some (waitqs s !! q)
  | Op _ _ _ (WakeThread q _ t) => is_Some (threads s !! t) /\ exists wq, waitqs s !! q = Some wq /\ waitq_irq wq = true
  | Op _ _ _ (WakeOne q _) | Op _ _ _ (WakeAll q _) => is_Some (waitqs s !! q)
  | Op _ _ _ (Leave t) | Block t _ | Fire t | Signal t | Die t => is_Some (threads s !! t)
  | Init q _ => waitqs s !! q = None
  | Work => True
  | AssertWait t e _ | AssertWaitDeadline t e _ _ => e <> NO_EVENT /\ exists x, threads s !! t = Some x /\ t_waitq x = None
  | Wakeup e _ _ => e <> NO_EVENT
  | WakeupThread e t => e <> NO_EVENT /\ is_Some (threads s !! t)
  | Destroy t => exists x, threads s !! t = Some x /\ t_wait_timer_active (cancelled x) <= 0
  end.
(** The account: threads and queues agree, no lock is left held, and the work queue
    has only threads. *)
Record kept (s : st) : Prop := {
  kept_wf : wf ∅ ∅ s;
  kept_work t : t ∈ workq s -> t ∈ dom (threads s);
}.

Lemma dom_on_threads ts f s : dom (threads (on_threads ts f s)) = dom (threads s).
Proof. apply set_eq. intros u. rewrite !elem_of_dom, on_threads_lookup. by rewrite fmap_is_Some. Qed.
Lemma dom_unqueued t s : dom (threads (unqueued t s)) = dom (threads s).
Proof. unfold unqueued. destruct (threads s !! t) as [x|]; [|done]. destruct (t_waitq x) as [q|]; [|done]. destruct (waitqs s !! q); [|done]. by rewrite dom_on_threads. Qed.
Lemma suspended_dom s (ts : list nat) t : t ∈ filter (is_suspended s) ts -> t ∈ dom (threads s).
Proof. intros [Ht _]%list_elem_of_filter. unfold is_suspended in Ht. rewrite elem_of_dom. by destruct (threads s !! t). Qed.
Lemma kept_same (l : list nat) s s' : kept s -> wf ∅ ∅ s' -> dom (threads s') = dom (threads s) -> (forall t, t ∈ workq s' -> t ∈ workq s \/ t ∈ filter (is_suspended s) l) -> kept s'.
Proof. intros [_ Hw] W Hd Hq. split; [done|]. intros t [Ht|Ht]%Hq; rewrite Hd; [by apply Hw|by eapply suspended_dom]. Qed.
Lemma kept_quiet s s' : kept s -> wf ∅ ∅ s' -> dom (threads s') = dom (threads s) -> workq s' = workq s -> kept s'.
Proof. intros K W Hd Hq. eapply (kept_same []); [done..|]. intros t. rewrite Hq. by left. Qed.
Lemma kept_woken sq ts m r s : kept s -> wf ∅ ∅ (woken sq ts m r s) -> kept (woken sq ts m r s).
Proof. intros K W. eapply (kept_same ts); [done..|exact (dom_on_threads _ _ s)|]. intros t. change (workq (woken sq ts m r s)) with (workq s ++ filter (is_suspended s) ts). by rewrite elem_of_app. Qed.
Lemma cleared_work t r s : exists l : list nat, workq (snd (cleared t r s)) = workq s ++ filter (is_suspended s) l.
Proof.
  unfold cleared. destruct (threads s !! t) as [x|]; [|exists []; by rewrite app_nil_r]. destruct (_ && _); [exists []; by rewrite app_nil_r|].
  destruct (_ =? TH_WAIT); cbn [snd]; [|exists []; by rewrite unqueued_workq, app_nil_r]. exists [t].
  change (workq (add_work ?l ?s)) with (workq s ++ l). by rewrite <- (unqueued_workq t s).
Qed.
Lemma cleared_dom t r s : dom (threads (snd (cleared t r s))) = dom (threads s).
Proof.
  unfold cleared. destruct (threads s !! t) as [x|]; [|done]. destruct (_ && _); [done|]. destruct (_ =? TH_WAIT); cbn [snd]; [|apply dom_unqueued].
  change (threads (add_work ?l ?s)) with (threads s). by rewrite dom_on_threads, dom_unqueued.
Qed.
Lemma kept_cleared t r s : kept s -> kept (snd (cleared t r s)).
Proof.
  intros K. destruct (cleared_work t r s) as [l Hl]. eapply (kept_same l); [done|apply wf_cleared, K|apply cleared_dom|]. intros u. by rewrite Hl, elem_of_app.
Qed.
Lemma kept_on_thread t f s : inner f -> kept s -> kept (on_threads {[t]} f s).
Proof. intros Hf K. eapply kept_quiet; [done|by apply wf_inner, K|apply dom_on_threads|done]. Qed.
Lemma kept_expired t s : kept s -> kept (expired t s).
Proof.
  intros K. unfold expired. destruct (threads s !! t) as [x|]; [|done]. destruct (expires x); [apply kept_cleared|]; by apply kept_on_thread.
Qed.
Lemma kept_unqueued t s : kept s -> kept (unqueued t s).
Proof. intros K. eapply kept_quiet; [done|by apply wf_unqueued, K|apply dom_unqueued|apply unqueued_workq]. Qed.
Lemma kept_served t x l s : kept s -> workq s = t :: l -> kept (served t x (work_is l s)).
Proof.
  intros K El. assert (K' : kept (work_is l s)).
  { split; [apply wf_work_is, K|]. intros u Hu. apply (kept_work _ K). rewrite El. by right. }
  unfold served. destruct (t_running x); [done|]. apply kept_on_thread; [|done]. intros y. change (t_suspended (tlock ?b y)) with (t_suspended y). by destruct (t_suspended y).
Qed.
(** A new queue. *)
Lemma wf_new_queue q wq s : wf ∅ ∅ s -> waitqs s !! q = None -> waitq_isvalid wq = true -> waitq_queue wq = [] -> waitq_locked wq = false -> wf ∅ ∅ (s <| waitqs ::= <[q := wq]> |>).
Proof.
  intros W Eq Hv Hq Hl. set (s' := s <| waitqs ::= _ |>).
  assert (Hne : forall p w, waitqs s !! p = Some w -> waitqs s' !! p = Some w).
  { intros p w E. cbn. rewrite lookup_insert_ne; [done|congruence]. }
  assert (Hinv : forall p w, waitqs s' !! p = Some w -> (p = q /\ w = wq) \/ (p <> q /\ waitqs s !! p = Some w)).
  { intros p w. cbn. intros [[<- <-]|[? ?]]%lookup_insert_Some; [by left|right]. split; [congruence|done]. }
  assert (Hat : forall t sq, waits_at s' t sq <-> waits_at s t sq).
  { intros t sq. split; intros (x & p & w & Ex & Ep & Ew & Es); exists x, p, w; (split_and!; [done|done| |done]).
    - destruct (wf_waitq _ _ _ W _ _ _ Ex Ep) as [w0 E0]. destruct (Hinv _ _ Ew) as [[-> _]|[_ ?]]; [congruence|done].
    - by apply Hne. }
  assert (Hbits : forall t, bits s' t = bits s t).
  { intros t. unfold bits. change (threads s') with (threads s). destruct (threads s !! t) as [x|] eqn:Ex; [|done]. destruct (t_waitq x) as [p|] eqn:Ep; [|done].
    destruct (wf_waitq _ _ _ W _ _ _ Ex Ep) as [w0 E0]. by rewrite (Hne _ _ E0), E0. }
  assert (Hno : forall t, ~ waits_at s t q).
  { intros t (x & p & w & Ex & Ep & Ew & Es). destruct (wf_safeq _ _ _ _ _ W Ew) as [v Ev]. congruence. }
  destruct W. constructor; try done.
  - intros p Hp. destruct (wf_global0 p Hp) as (w & E & ?). exists w. split; [by apply Hne|done].
  - intros p w [[-> ->]|[_ E]]%Hinv; eauto.
  - intros sq w t [[-> ->]|[_ E]]%Hinv; rewrite Hat; [|by apply wf_queue0]. rewrite Hq. split; [by intros ?%elem_of_nil|]. intros Ha. by destruct (Hno t).
  - intros sq w [[-> ->]|[_ E]]%Hinv; [rewrite Hq; constructor|eauto].
  - intros t x p Ex Ep. destruct (wf_waitq0 t x p Ex Ep) as [w E]. exists w. by apply Hne.
  - intros sq w t Hg [[-> ->]|[_ E]]%Hinv; [rewrite Hq; by intros ?%elem_of_nil|]. rewrite Hbits. eauto.
  - intros p w [[-> ->]|[_ E]]%Hinv; [by rewrite Hl|eauto].
Qed.

(** The end of a thread's waits: it spins, holding the lock that the function of the wait
    timer needs, if that function is still to run. *)
Lemma destroy_waits_runs t x s :
  kept s -> threads s !! t = Some x ->
  if 0 <? t_wait_timer_active (cancelled x) then destroy_waits t s = Hang
  else destroy_waits t s = (clear_wait_internal t THREAD_INTERRUPTED ;;; thread_unlock t) (on_threads {[t]} (fun x => terminated (tlock true x)) s).
Proof.
  intros K Ex. pose proof (unlocked_threads _ _ _ _ (kept_wf _ K) Ex) as Hl. set (s1 := on_threads {[t]} (tlock true) s). set (s2 := on_threads {[t]} cancelled s1).
  assert (E1 : threads s1 !! t = Some (tlock true x)) by (unfold s1; look). assert (E2 : threads s2 !! t = Some (cancelled (tlock true x))) by (unfold s2; look).
  unfold destroy_waits. rewrite (bind_ret _ _ _ tt s1) by (apply run_to; by eapply wp_thread_lock).
  rewrite (bind_ret _ _ _ (tlock true x) s1) by (apply run_to; by eapply wp_thread_deref). cbv beta.
  rewrite (bind_ret _ _ _ tt s2) by (apply run_to; by apply (wp_cancel t (tlock true x))).
  rewrite (bind_ret _ _ _ (cancelled (tlock true x)) s2) by (apply run_to; by eapply wp_thread_deref). cbv beta.
  destruct (cancelled_inner x) as [_ Hc]. rewrite Hc in E2 |- *. change (t_wait_timer_active (tlock true (cancelled x))) with (t_wait_timer_active (cancelled x)).
  destruct (0 <? _); [done|]. rewrite (bind_ret _ _ _ tt (on_threads {[t]} (fun x => terminated (tlock true x)) s)); [done|].
  apply run_to. eapply wp_thread_mod; [exact E2|]. split; [done|]. unfold s2, s1. by wq_gather.
Qed.

Lemma kept_init q policy s : kept s -> waitqs s !! q = None -> wp (waitq_init q policy) (fun _ => kept) s.
Proof.
  intros K Eq. unfold waitq_init. destruct (has policy SYNC_POLICY_FIXED_PRIORITY); wq_go; [done|].
  eapply kept_quiet; [done| |done|done]. by apply wf_new_queue; [apply K|..].
Qed.
Lemma kept_assert t x q wq e i d s :
  kept s -> threads s !! t = Some x -> t_waitq x = None -> waitqs s !! q = Some wq ->
  wp (waitq_assert_wait64 t q e i d) (fun _ s' => kept s' /\ s' = asserted q wq e d t x s) s.
Proof.
  intros K Ex Hx Eq. unfold waitq_assert_wait64. eapply wp_valid; [apply K|done|]. eapply wp_assert_wait; [apply K|done..|]. intros s' W'.
  split; [|done]. eapply kept_quiet; [done|done|exact (dom_on_threads _ _ s)|done].
Qed.
Lemma kept_block t x cont s : kept s -> threads s !! t = Some x -> wp (thread_block_parameter t cont) (fun _ => kept) s.
Proof.
  intros K Ex. eapply wp_thread_block; [apply K|done|]. destruct (has _ _); intros s' W'; (eapply kept_quiet; [done|done|exact (dom_on_threads _ _ s)|done]).
Qed.
Lemma kept_op r i d o s : kept s -> enabled s (Op r i d o) -> wp (run_op r i d o) (fun _ => kept) s.
Proof.
  intros K Hok. pose proof (kept_wf _ K) as W. destruct o as [t q e back|q e|q e|q e t|t]; cbn in Hok |- *.
  - destruct Hok as [(x & Ex & Hx) [wq Eq]]. eapply wp_mono; [by eapply kept_assert|]. by intros ? ? [? _].
  - destruct Hok as [wq Eq]. eapply wp_wakeup_one; [done..|]. intros m ts s' W'. by apply kept_woken.
  - destruct Hok as [wq Eq]. eapply wp_wakeup_all; [done..|]. intros m ts s' W'. by apply kept_woken.
  - destruct Hok as ([x Ex] & wq & Eq & Ei). eapply wp_wakeup_thread; [done..| |done]. intros m s' _ W'. by apply kept_woken.
  - destruct Hok as [x Ex]. eapply wp_clear_wait; [done..|]. intros _. by apply kept_cleared.
Qed.
(** Events wait on the global queues, which are interrupt-safe. *)
Lemma eventq_ok e s : wf ∅ ∅ s -> exists wq, waitqs s !! global_eventq e = Some wq /\ waitq_irq wq = true.
Proof. intros W. apply (wf_global _ _ _ W), eventq_global. Qed.
Lemma wp_event {A} e (m : MW T A) s Q : e <> NO_EVENT -> wp m Q s -> wp (not_no_event e ;;; m) Q s.
Proof. intros He Hm. unfold not_no_event. wq_go. apply wp_ensure; [by apply negb_true_iff, Z.eqb_neq|done]. Qed.
Lemma kept_assert_event t x e i d s :
  kept s -> e <> NO_EVENT -> threads s !! t = Some x -> t_waitq x = None ->
  wp (assert_wait t e i) (fun _ => kept) s /\ wp (assert_wait_deadline t e i d) (fun _ => kept) s.
Proof.
  intros K He Ex Hx. destruct (eventq_ok e s (kept_wf _ K)) as (wq & Eq & _). split.
  - apply wp_event; [done|]. eapply wp_mono; [by eapply kept_assert|]. by intros ? ? [? _].
  - apply wp_event; [done|]. cbv zeta. eapply wp_assert_wait; [apply K|done..|]. intros s' W'. eapply kept_quiet; [done|done|exact (dom_on_threads _ _ s)|done].
Qed.
(** A wake-up for an event, by what it does to the threads that wait. *)
Lemma wp_wakeup_event e one r s (Q : st -> Prop) :
  wf ∅ ∅ s -> e <> NO_EVENT -> (forall sq ts m, wf ∅ ∅ (woken sq ts m r s) -> Q (woken sq ts m r s)) -> wp (thread_wakeup_prim e one r) (fun _ => Q) s.
Proof.
  intros W He HQ. destruct (eventq_ok e s W) as (wq & Eq & _). apply wp_event; [done|]. cbv zeta.
  destruct one; [eapply wp_wakeup_one|eapply wp_wakeup_all]; [done|done| |done|done|]; intros; by apply HQ.
Qed.
Lemma wp_wakeup_thread_event e t x s (Q : st -> Prop) :
  wf ∅ ∅ s -> e <> NO_EVENT -> threads s !! t = Some x -> Q s ->
  (forall sq ts m, wf ∅ ∅ (woken sq ts m THREAD_AWAKENED s) -> Q (woken sq ts m THREAD_AWAKENED s)) -> wp (thread_wakeup_thread e (Some t)) (fun _ => Q) s.
Proof.
  intros W He Ex Hs HQ. destruct (eventq_ok e s W) as (wq & Eq & Ei). apply wp_event; [done|]. eapply wp_wakeup_thread; [done..| |done]. intros m s' _ W'. by apply HQ.
Qed.
Lemma kept_destroy t x s : kept s -> threads s !! t = Some x -> t_wait_timer_active (cancelled x) <= 0 -> wp (destroy_waits t) (fun _ => kept) s.
Proof.
  intros K Ex Ha. pose proof (destroy_waits_runs t x s K Ex) as Hrun. destruct (Z.ltb_spec 0 (t_wait_timer_active (cancelled x))); [lia|].
  unfold wp at 1. rewrite Hrun. fold (wp (clear_wait_internal t THREAD_INTERRUPTED ;;; thread_unlock t) (fun _ => kept) (on_threads {[t]} (fun x => terminated (tlock true x)) s)).
  eapply (wp_clear_changed t x terminated); [apply K|done|apply terminated_inner|]. intros s' _. apply kept_cleared, kept_on_thread; [apply terminated_inner|done].
Qed.
Lemma kept_act a s : kept s -> enabled s a -> wp (perform a) (fun _ => kept) s.
Proof.
  intros K Hok. pose proof (kept_wf _ K) as W. destruct a as [r i d o|t cont|t q e i d cont|t|t|t|q policy| |t e i|t e i d|e one r|e t|t]; cbn [perform].
  - wq_go. eapply wp_mono; [by apply kept_op|done].
  - destruct Hok as [x Ex]. wq_go. eapply wp_mono; [by eapply kept_block|done].
  - destruct Hok as [(x & Ex & Hx) [wq Eq]]. wq_go. eapply wp_mono; [by eapply kept_assert|]. cbv beta. intros _ s1 [K1 ->]. wq_go.
    eapply wp_mono; [eapply kept_block; [done|]|done]. unfold asserted. cbv zeta. look.
  - destruct Hok as [x Ex]. eapply wp_timer_fires; [done..|]. intros s' _. unfold s'. destruct (tc_queued _); [|done]. apply kept_expired. by apply kept_on_thread.
  - destruct Hok as [x Ex]. eapply wp_sigexc_enter; [done..|]. intros s' _. apply kept_unqueued. by apply kept_on_thread.
  - destruct Hok as [x Ex]. eapply wp_dying; [done..|]. intros s' _. apply kept_unqueued. by apply kept_on_thread.
  - wq_go. eapply wp_mono; [by apply kept_init|done].
  - wq_go. destruct (workq s) as [|t l] eqn:El; [unfold worker; wq_go; rewrite El; by wq_go|].
    assert (exists x, threads s !! t = Some x) as [x Ex] by (apply elem_of_dom, (kept_work _ K); rewrite El; left).
    eapply wp_worker; [done..|]. intros s' _. wq_go. by apply kept_served.
  - destruct Hok as (He & x & Ex & Hx). wq_go. eapply wp_mono; [by eapply (kept_assert_event t x e i 0)|done].
  - destruct Hok as (He & x & Ex & Hx). wq_go. eapply wp_mono; [by eapply (kept_assert_event t x e i d)|done].
  - wq_go. eapply wp_mono; [apply (wp_wakeup_event e one r s kept); [done..|]; intros; by apply kept_woken|done].
  - destruct Hok as [He [x Ex]]. wq_go. eapply wp_mono; [eapply (wp_wakeup_thread_event e t x s kept); [done..|]; intros; by apply kept_woken|done].
  - destruct Hok as (x & Ex & Ha). by eapply kept_destroy.
Qed.

(** The states that acts lead to; [ok] says which acts may happen in a state. *)
Inductive reach (ok : st -> act -> Prop) (s : st) : st -> Prop :=
| reach_start : reach ok s s
| reach_act s1 a s2 : reach ok s s1 -> ok s1 a -> perform a s1 = Ret tt s2 -> reach ok s s2.
(** What holds of a state and is kept by every act that may happen holds of every state
    that is reached, and there every such act returns. *)
Lemma reach_keeps (ok : st -> act -> Prop) (P : st -> Prop) :
  (forall a s, P s -> ok s a -> wp (perform a) (fun _ => P) s) ->
  forall s s', P s -> reach ok s s' -> P s' /\ forall a, ok s' a -> exists s'', perform a s' = Ret tt s''.
Proof.
  intros Hstep s s' Ps Hr. assert (P s') as Ps'.
  { induction Hr as [|s1 a s2 Hr IH Hok Ha]; [done|]. specialize (Hstep a s1 IH Hok). unfold wp in Hstep. by rewrite Ha in Hstep. }
  split; [done|]. intros a Hok. specialize (Hstep a s' Ps' Hok). unfold wp in Hstep. destruct (perform a s') as [[] s''| |]; [eauto|done..].
Qed.

(** C20: over every sequence of waits, wake-ups, interruptions, time-outs, signals,
    deaths, ends of threads, new queues and worker runs, threads and queues agree: a
    thread is on a queue exactly if it waits there, once, its event's bits are in the mask
    of a global queue, and no lock is left held.  In every state so reached, each
    operation returns: none deadlocks or panics.  The operations are those whose thread
    and queue exist, in which only a thread that is not waiting starts to wait, no event
    is [NO_EVENT], a thread is woken by name only on an interrupt-safe queue (on an
    ordinary one the code leaves the global queue locked, [named_wakeup_keeps_lock]), and
    a thread is destroyed only when no call of its wait timer is under way (or else
    [dtape_thread_destroy] spins). *)
Theorem waits_account_kept s s' :
  kept s -> reach enabled s s' -> kept s' /\ forall a, enabled s' a -> exists s'', perform a s' = Ret tt s''.
Proof. apply reach_keeps. intros a s0. apply kept_act. Qed.

(** ** The fate of suspended threads *)

(** A suspended thread is off the processor and is either on the work queue or waits on
    a queue, marked as waiting. *)
Definition cared_for (s : st) (t : nat) (x : thread T) : Prop :=
  t_suspended x = true -> t_running x = false /\ (t ∈ workq s \/ (is_Some (t_waitq x) /\ t_state x = TH_WAIT)).
Record settled (s : st) : Prop := {
  settled_kept : kept s;
  settled_fate t x : threads s !! t = Some x -> cared_for s t x;
}.
(** Acts in a server where a thread that has asserted a wait goes to sleep before
    anything else happens, and signals and deaths leave the thread to be resumed by
    their callers. *)
Definition calm (s : st) (a : act) : Prop :=
  enabled s a /\ match a with
    | Op _ _ _ (Join _ _ _ _) | AssertWait _ _ _ | AssertWaitDeadline _ _ _ _ | Block _ _ | Signal _ | Die _ | Destroy _ => False
    | _ => True
    end.

(** A thread that is as suspended as it was, and either scheduled or still waiting. *)
Definition tended (s s' : st) (t : nat) (x y : thread T) : Prop :=
  t_suspended y = true -> t_suspended x = true /\ t_running y = t_running x /\
  (t ∈ workq s' \/ ((t ∈ workq s -> t ∈ workq s') /\ t_waitq y = t_waitq x /\ t_state y = t_state x)).
Lemma tended_same s s' t x : (t ∈ workq s -> t ∈ workq s') -> tended s s' t x x.
Proof. intros Hq Hx. split_and!; auto. Qed.
Lemma settled_step s s' :
  settled s -> kept s' -> (forall t y, threads s' !! t = Some y -> exists x, threads s !! t = Some x /\ tended s s' t x y) -> settled s'.
Proof.
  intros [_ Hf] K' Hs. split; [done|]. intros t y Ey Hy. destruct (Hs t y Ey) as (x & Ex & Ht). destruct (Ht Hy) as (Hx & -> & Hcase).
  destruct (Hf t x Ex Hx) as [-> Hw]. split; [done|]. destruct Hcase as [?|(Hq & -> & ->)]; [by left|]. destruct Hw; auto.
Qed.
Lemma settled_on_thread f t s : inner f -> (forall x, t_suspended (f x) = t_suspended x /\ t_running (f x) = t_running x /\ t_state (f x) = t_state x) -> settled s -> settled (on_threads {[t]} f s).
Proof.
  intros Hi Hf S. eapply settled_step; [done|by apply kept_on_thread, S|]. intros u y. rewrite on_threads_lookup. destruct (threads s !! u) as [x|]; [|done].
  intros [= <-]. exists x. split; [done|]. intros Hy. destruct (Hf x) as (H1 & H2 & H3), (Hi x) as [Hw _]. injection Hw as Hw _. case_decide; [split_and!; [congruence|done|right; auto]|split_and!; auto].
Qed.
Lemma settled_woken sq ts m r s : settled s -> wf ∅ ∅ (woken sq ts m r s) -> settled (woken sq ts m r s).
Proof.
  intros S W. eapply settled_step; [done|by apply kept_woken; [apply S|]|]. intros u y.
  change (threads (woken sq ts m r s)) with (threads (on_threads (list_to_set ts) (fun x => result_is r (off x)) s)). rewrite on_threads_lookup.
  destruct (threads s !! u) as [x|] eqn:Ex; [|done]. intros [= <-]. exists x. split; [done|]. unfold tended.
  change (workq (woken sq ts m r s)) with (workq s ++ filter (is_suspended s) ts). rewrite elem_of_app. case_decide as Hu; intros Hy; split_and!; try done; auto.
  left. right. apply list_elem_of_filter. split; [|by rewrite elem_of_list_to_set in Hu]. unfold is_suspended. by rewrite Ex.
Qed.
Lemma unqueued_back t s u y : threads (unqueued t s) !! u = Some y -> exists x, threads s !! u = Some x /\ (y = x \/ (u = t /\ y = off x)).
Proof.
  intros Ey. assert (u ∈ dom (threads s)) as [x Ex]%elem_of_dom by (rewrite <- (dom_unqueued t s); by apply elem_of_dom).
  exists x. split; [done|]. destruct (unqueued_thread t x s u Ex) as [E|[-> E]]; [left|right]; [congruence|]. split; [done|congruence].
Qed.
Lemma settled_cleared t r s : settled s -> settled (snd (cleared t r s)).
Proof.
  intros S. eapply settled_step; [done|apply kept_cleared, S|]. intros u y. unfold cleared.
  assert (Hid : threads s !! u = Some y -> exists x, threads s !! u = Some x /\ tended s s u x y) by (intros Ey; exists y; split; [done|by apply tended_same]).
  destruct (threads s !! t) as [x|] eqn:Ex; [|done]. destruct (_ && _); [done|].
  destruct (Z.eqb_spec (Z.land (t_state x) (Z.lor TH_WAIT TH_TERMINATE)) TH_WAIT) as [Hw|Hw]; cbn [snd].
  - set (s' := add_work _ _). assert (Hwk : workq s' = workq s ++ filter (is_suspended s) [t]) by (rewrite <- (unqueued_workq t s); done).
    change (threads s') with (threads (on_threads {[t]} (result_is r) (unqueued t s))).
    rewrite on_threads_lookup. destruct (threads (unqueued t s) !! u) as [z|] eqn:Ez; [|done]. intros [= <-].
    destruct (unqueued_back t s u z Ez) as (v & Ev & Hz). exists v. split; [done|]. case_decide as Hu; [apply elem_of_singleton in Hu as ->; intros Hy|].
    + assert (t_suspended v = true /\ t_running z = t_running v) as [Hv Hr] by (by destruct Hz as [->|[_ ->]]). split_and!; [done|done|]. left. rewrite Hwk, elem_of_app. right.
      apply list_elem_of_filter. split; [|by apply list_elem_of_singleton]. unfold is_suspended. by rewrite Ev.
    + destruct Hz as [->|[-> _]]; [|set_solver]. apply tended_same. rewrite Hwk, elem_of_app. by left.
  - intros Ez. destruct (unqueued_back t s u y Ez) as (v & Ev & Hz). exists v. split; [done|].
    destruct Hz as [->|[-> ->]]; [apply tended_same; by rewrite unqueued_workq|]. intros Hy. split_and!; [done..|]. rewrite unqueued_workq. left. destruct (settled_fate _ S _ _ Ev Hy) as [_ [?|[_ Hs]]]; [done|].
    assert (v = x) as -> by congruence. by rewrite Hs in Hw.
Qed.
Lemma settled_expired t s : settled s -> settled (expired t s).
Proof.
  intros S. unfold expired. destruct (threads s !! t) as [x|]; [|done]. destruct (expires x); [apply settled_cleared|]; by apply settled_on_thread.
Qed.
Lemma settled_sleep t x q wq e d cont s :
  settled s -> kept (on_threads {[t]} (suspended cont) (asserted q wq e d t x s)) -> settled (on_threads {[t]} (suspended cont) (asserted q wq e d t x s)).
Proof.
  intros S K. split; [done|]. intros u y. rewrite on_threads_lookup. unfold asserted. cbv zeta. rewrite on_threads_lookup. change (threads (on_queue ?q ?f s)) with (threads s).
  destruct (threads s !! u) as [v|] eqn:Ev; [|done]. cbn. intros [= <-]. case_decide as Hu; [|exact (settled_fate _ S _ _ Ev)].
  intros _. destruct (parked_fields q e d v) as (Hq & _ & _ & Hs & _). unfold suspended, stopped. cbn.
  destruct (t_running (parked_at q e d v)) eqn:Hr; cbn; rewrite ?Hq, ?Hs; (split; [done|right; split; [eauto|done]]).
Qed.
Lemma settled_served t x l s : settled s -> workq s = t :: l -> threads s !! t = Some x -> settled (served t x (work_is l s)).
Proof.
  intros S El Ex. split; [by apply kept_served; [apply S|]|]. intros u y.
  assert (Hrest : forall v, threads s !! u = Some v -> u <> t \/ t_suspended v = false -> cared_for (work_is l s) u v).
  { intros v Ev Hut Hv. destruct (settled_fate _ S _ _ Ev Hv) as [Hr Hw]. split; [done|]. destruct Hw as [Hw|?]; [|by right]. left.
    rewrite El in Hw. apply elem_of_cons in Hw as [->|?]; [|done]. destruct Hut; congruence. }
  unfold served. destruct (t_running x) eqn:Er.
  - intros Ey. change (threads (work_is l s)) with (threads s) in Ey. apply Hrest; [done|]. destruct (decide (u = t)) as [->|]; [right|by left]. assert (y = x) as -> by congruence.
    destruct (t_suspended x) eqn:Hs; [|done]. destruct (settled_fate _ S _ _ Ex Hs). congruence.
  - rewrite on_threads_lookup. change (threads (work_is l s)) with (threads s). destruct (threads s !! u) as [v|] eqn:Ev; [|done]. cbn. intros [= <-].
    case_decide as Hu; [|intros Hs; destruct (Hrest v eq_refl ltac:(left; set_solver) Hs); done]. destruct (t_suspended v) eqn:Hv; [done|].
    intros Hs. unfold stopped in Hs. cbn in Hs. congruence.
Qed.

(** C21: where a thread that asserts a wait goes to sleep before anything else happens,
    and but for signals, deaths and the destruction of threads (which take a sleeper off
    its queue and leave it to their callers to run it), no sequence of sleeps, wake-ups,
    interruptions, time-outs and worker runs forgets a suspended thread: each one is on
    the work queue, or on a wait queue and marked as waiting, so that its next wake-up
    will schedule it. *)
Theorem no_thread_forgotten s s' :
  settled s -> reach calm s s' -> settled s' /\ forall a, calm s' a -> exists s'', perform a s' = Ret tt s''.
Proof.
  apply reach_keeps. clear s s'. intros a s S [Hok Hcalm]. pose proof (settled_kept _ S) as K. pose proof (kept_wf _ K) as W.
  destruct a as [r i d o|t cont|t q e i d cont|t|t|t|q policy| |t e i|t e i d|e one r|e t|t]; cbn [perform]; try done.
  - wq_go. destruct o as [t q e back|q e|q e|q e t|t]; cbn in Hok |- *; [done|..].
    + destruct Hok as [wq Eq]. eapply wp_wakeup_one; [done..|]. intros m ts s' W'. by apply settled_woken.
    + destruct Hok as [wq Eq]. eapply wp_wakeup_all; [done..|]. intros m ts s' W'. by apply settled_woken.
    + destruct Hok as ([x Ex] & wq & Eq & Ei). eapply wp_wakeup_thread; [done..| |done]. intros m s' _ W'. by apply settled_woken.
    + destruct Hok as [x Ex]. eapply wp_clear_wait; [done..|]. intros _. by apply settled_cleared.
  - destruct Hok as [(x & Ex & Hx) [wq Eq]]. wq_go. eapply wp_mono; [by eapply kept_assert|]. cbv beta. intros _ s1 [K1 ->]. wq_go.
    assert (Ey : threads (asserted q wq e d t x s) !! t = Some (parked_at q e d x)) by (unfold asserted; cbv zeta; look).
    eapply wp_thread_block; [apply K1|exact Ey|]. destruct (parked_fields q e d x) as (_ & _ & _ & -> & _). change (has TH_WAIT TH_WAIT) with true. cbv iota. intros s' W'. wq_go.
    apply settled_sleep; [done|]. eapply kept_quiet; [exact K1|done|apply dom_on_threads|done].
  - destruct Hok as [x Ex]. eapply wp_timer_fires; [done..|]. intros s' _. unfold s'. destruct (tc_queued _); [|done]. apply settled_expired. by apply settled_on_thread.
  - wq_go. pose proof (kept_init q policy s K Hok) as Hk. unfold waitq_init in *. destruct (has policy _); wq_go; [done|]. split; [exact Hk|]. apply S.
  - wq_go. destruct (workq s) as [|t l] eqn:El; [unfold worker; wq_go; rewrite El; by wq_go|].
    assert (exists x, threads s !! t = Some x) as [x Ex] by (apply elem_of_dom, (kept_work _ K); rewrite El; left).
    eapply wp_worker; [done..|]. intros s' _. wq_go. by apply settled_served.
  - wq_go. eapply wp_mono; [apply (wp_wakeup_event e one r s settled); [done..|]; intros; by apply settled_woken|done].
  - destruct Hok as [He [x Ex]]. wq_go. eapply wp_mono; [eapply (wp_wakeup_thread_event e t x s settled); [done..|]; intros; by apply settled_woken|done].
Qed.
End WaitSpec.
End WaitSpec.
