(* ===== verification/WaitRuns.v ===== *)
(** * Runs of waits

    How the pieces of a wait fit together: a wake-up reaches the thread that sleeps,
    and the orders of the same steps in which a wake-up is lost, overridden by the
    wait timer, or made up by the timer of an earlier wait. *)
From S2P Require Import Prelude WaitQ WaitQProps Blocking WaitSpec.

Module WaitRuns.
Export WaitSpec.
Section WaitRuns.
Context {T : Type} `{TimerCall T} `{!TimerCallLaws T} `{Kernel}.
Notation st := (wst T).
Implicit Types s : st.
Implicit Types x : thread T.

(** Going to sleep: assert the wait, then block. *)
Definition sleep (t q : nat) (e interruptible deadline : Z) (cont : bool) : MW T (option Z) :=
  waitq_assert_wait64 t q e interruptible deadline ;;; thread_block_parameter t cont.
(** The thread asleep, and the state in which it is. *)
Definition asleep (q : nat) (e d : Z) (cont : bool) (x : thread T) : thread T := suspended cont (parked_at q e d x).

Lemma on_queue_some q f s p : is_Some (waitqs s !! p) -> is_Some (waitqs (on_queue q f s) !! p).
Proof. intros [w E]. destruct (decide (p = q)) as [->|Hp]; [rewrite on_queue_lookup, E; eauto|rewrite on_queue_ne, E by done; eauto]. Qed.
Lemma woken_thread sq ts m r s t x : t ∈ ts -> threads s !! t = Some x -> threads (woken sq ts m r s) !! t = Some (result_is r (off x)).
Proof.
  intros Ht Ex. change (threads (woken sq ts m r s)) with (threads (on_threads (list_to_set ts) (fun x => result_is r (off x)) s)).
  apply (on_threads_in _ (fun x => result_is r (off x))); [done|set_solver].
Qed.
Lemma wp_sleep t x q wq e i d cont s (Q : option Z -> st -> Prop) :
  kept s -> threads s !! t = Some x -> t_waitq x = None -> waitqs s !! q = Some wq ->
  (let s' := on_threads {[t]} (suspended cont) (asserted q wq e d t x s) in kept s' -> threads s' !! t = Some (asleep q e d cont x) -> Q None s') ->
  wp (sleep t q e i d cont) Q s.
Proof.
  intros K Ex Hx Eq HQ. unfold sleep. apply wp_bind. eapply wp_mono; [by eapply kept_assert|]. cbv beta. intros _ s1 [K1 ->].
  assert (Ey : threads (asserted q wq e d t x s) !! t = Some (parked_at q e d x)) by (unfold asserted; cbv zeta; look).
  eapply wp_thread_block; [apply K1|exact Ey|]. destruct (parked_fields q e d x) as (_ & _ & _ & -> & _). change (has TH_WAIT TH_WAIT) with true. cbv iota. intros s' W'.
  apply HQ; [|unfold asleep; look]. eapply kept_quiet; [exact K1|done|apply dom_on_threads|done].
Qed.
Lemma suspended_fields cont x : let y := suspended cont x in
  waits_for y = waits_for x /\ t_suspended y = true /\ t_running y = false /\ t_wait_result y = t_wait_result x /\ t_continuation y = cont /\
  t_wait_timer y = t_wait_timer x /\ t_wait_timer_active y = t_wait_timer_active x /\ t_wait_timer_is_set y = t_wait_timer_is_set x /\
  t_state y = (if t_running x then clr (t_state x) TH_RUN else t_state x).
Proof. cbv zeta. unfold suspended, stopped. cbn. by destruct (t_running x) eqn:E. Qed.
Lemma suspended_waitq cont x : t_waitq (suspended cont x) = t_waitq x.
Proof. unfold suspended, stopped. cbn. by destruct (t_running x). Qed.
Lemma asleep_fields q e d cont x : let y := asleep q e d cont x in
  t_waitq y = Some q /\ t_wait_event y = e /\ t_suspended y = true /\ t_running y = false /\ t_state y = TH_WAIT /\ t_wait_result y = THREAD_WAITING /\ t_continuation y = cont.
Proof.
  cbv zeta. unfold asleep. destruct (suspended_fields cont (parked_at q e d x)) as (Hw & Hs & Hr & Hres & Hc & _ & _ & _ & Hst).
  destruct (parked_fields q e d x) as (Pq & Pe & _ & Ps & Pr & _ & _). injection Hw as Hw He. rewrite Hst, Ps, Hw, He, Hres. split_and!; try done. destruct (t_running (parked_at q e d x)); vm_compute; reflexivity.
Qed.
(** *** The steps of a run, by what they leave *)

Definition same_queues (s s' : st) : Prop := forall p, is_Some (waitqs s !! p) -> is_Some (waitqs s' !! p).
(** Only the waiters of one event change. *)
Definition only_at (q : nat) (e : Z) (l : list nat) (s s' : st) : Prop :=
  forall q' e', waiters s' q' e' = if decide (q' = q /\ e' = e) then l else waiters s q' e'.
Lemma only_at_here q e l s s' : only_at q e l s s' -> waiters s' q e = l.
Proof. intros Ho. by rewrite Ho, decide_True. Qed.
(** A thread that sleeps where nobody else does is the one waiter. *)
Lemma waiters_sleep t x q wq e d cont s :
  kept s -> threads s !! t = Some x -> t_waitq x = None -> waitqs s !! q = Some wq -> waiters s q e = [] ->
  only_at q e [t] s (on_threads {[t]} (suspended cont) (asserted q wq e d t x s)).
Proof.
  intros K Ex Hx Eq Hnone q' e'. rewrite waiters_threads by (intros u y _ _; apply inner_suspended). rewrite waiters_asserted; [|apply K|done..].
  case_decide as Hd; [|done]. destruct Hd as [-> ->]. rewrite Hnone. by destruct (from_option _ _ _).
Qed.
Lemma wp_sleep_alone t x q e i d cont s (Q : option Z -> st -> Prop) :
  kept s -> threads s !! t = Some x -> t_waitq x = None -> is_Some (waitqs s !! q) -> waiters s q e = [] ->
  (forall s', kept s' -> threads s' !! t = Some (asleep q e d cont x) -> workq s' = workq s -> only_at q e [t] s s' -> same_queues s s' -> Q None s') ->
  wp (sleep t q e i d cont) Q s.
Proof.
  intros K Ex Hx [wq Eq] Hnone HQ. eapply wp_sleep; [done..|]. intros s' K' E'. apply HQ; [done|done|done|by apply waiters_sleep|].
  intros p Hp. by apply (on_queue_some _ _ s).
Qed.
Lemma suspended_work t x s : threads s !! t = Some x -> filter (is_suspended s) [t] = if t_suspended x then [t] else [].
Proof.
  intros Ex. rewrite filter_cons, filter_nil. unfold is_suspended. destruct (decide _) as [Hd|Hd]; rewrite Ex in Hd; [by rewrite Hd|]. apply not_true_is_false in Hd. by rewrite Hd.
Qed.
Lemma wp_wake_sleeper t x q e r s (Q : Z -> st -> Prop) :
  kept s -> threads s !! t = Some x -> is_Some (waitqs s !! q) -> waiters s q e = [t] ->
  (forall s', kept s' -> threads s' !! t = Some (result_is r (off x)) -> workq s' = workq s ++ (if t_suspended x then [t] else []) ->
     only_at q e [] s s' -> same_queues s s' -> Q KERN_SUCCESS s') ->
  wp (waitq_wakeup64_one q e r) Q s.
Proof.
  intros K Ex [wq Eq] Hw HQ. eapply wp_wakeup_one; [apply K|done|]. intros m. rewrite Hw. change (take 1 [t]) with [t]. intros ts s' W'.
  apply HQ; [by apply kept_woken|by apply woken_thread; [set_solver|]| | |].
  - change (workq s') with (workq s ++ filter (is_suspended s) [t]). f_equal. by apply suspended_work.
  - intros q' e'. unfold s'. rewrite waiters_woken by apply K. case_decide as Hd; [destruct Hd as [-> ->]; rewrite Hw; apply filter_notin_self|].
    apply filter_all. intros u Hu ->%list_elem_of_singleton. apply Hd. apply (waiters_other (waiters s) s q e q' e' t); [done|rewrite Hw; by left|done].
  - intros p Hp. by apply (on_queue_some _ _ s).
Qed.
Lemma wp_run_sleeper t x l s (Q : option (nat * Z) -> st -> Prop) :
  kept s -> workq s = t :: l -> threads s !! t = Some x -> t_suspended x = true -> t_running x = false ->
  (forall s', kept s' -> threads s' !! t = Some (awake x) -> workq s' = l -> (forall q e, waiters s' q e = waiters s q e) -> same_queues s s' -> Q (Some (t, t_wait_result x)) s') ->
  wp worker Q s.
Proof.
  intros K El Ex Hs Hr HQ. eapply wp_worker; [apply K|done..|]. cbv zeta. rewrite Hr, Hs. cbn [negb andb]. intros _. unfold served. rewrite Hr.
  pose proof (kept_served t x l s K El) as K'. unfold served in K'. rewrite Hr in K'. apply HQ; [done| |done| |by intros p Hp].
  - rewrite (on_threads_in _ _ (work_is l s) t x Ex) by set_solver. by rewrite Hs.
  - intros q e. rewrite waiters_threads; [done|]. intros u z _ _. by destruct (t_suspended z).
Qed.
(** The timer reaches a thread whose timer count is one. *)
Lemma cleared_waiting t x r s :
  wf ∅ ∅ s -> threads s !! t = Some x -> t_state x = TH_WAIT ->
  let s' := snd (cleared t r s) in fst (cleared t r s) = KERN_SUCCESS /\ workq s' = workq s ++ filter (is_suspended s) [t] /\ (forall q e, waiters s' q e = unlink t (waiters s q e)) /\
  exists y, threads s' !! t = Some y /\ t_wait_result y = r /\ t_suspended y = t_suspended x /\ t_running y = t_running x /\ t_waitq y = None.
Proof.
  intros W Ex Hst. unfold cleared. rewrite Ex, Hst. change (has TH_WAIT TH_UNINT) with false. rewrite andb_false_r. change (Z.land TH_WAIT (Z.lor TH_WAIT TH_TERMINATE) =? TH_WAIT) with true. cbv iota. cbn [fst snd].
  split; [done|]. split.
  - change (workq (add_work ?l ?s)) with (workq s ++ l). change (workq (on_threads ?ts ?f ?s)) with (workq s). by rewrite unqueued_workq.
  - split; [intros q e; rewrite waiters_work, waiters_threads by done; by apply waiters_leave|].
    change (threads (add_work ?l ?s)) with (threads s). destruct (t_waitq x) as [q|] eqn:Eq.
    + destruct (wf_waitq _ _ _ W _ _ _ Ex Eq) as [wq Ewq]. unfold unqueued. rewrite Ex, Eq, Ewq. eexists. split; [look|done].
    + rewrite (unqueued_idle t x s Ex Eq). eexists. split; [look|done].
Qed.
Lemma wp_fire_waiting t x s (Q : unit -> st -> Prop) :
  kept s -> threads s !! t = Some x -> tc_queued (t_wait_timer x) = true -> t_wait_timer_active x = 1 -> t_wait_timer_is_set x = true -> t_state x = TH_WAIT ->
  (forall s' y, kept s' -> threads s' !! t = Some y -> t_wait_result y = THREAD_TIMED_OUT -> t_suspended y = t_suspended x -> t_running y = t_running x -> t_waitq y = None ->
     workq s' = workq s ++ (if t_suspended x then [t] else []) -> (forall q e, waiters s' q e = unlink t (waiters s q e)) -> Q tt s') ->
  wp (timer_fires t) Q s.
Proof.
  intros K Ex Hq Ha Hset Hst HQ. eapply wp_timer_fires; [apply K|done|]. rewrite Hq. intros s' _. set (s1 := on_threads {[t]} fired s).
  assert (E1 : threads s1 !! t = Some (fired x)) by (unfold s1; look). assert (K1 : kept s1) by (by apply kept_on_thread).
  assert (Hs' : s' = snd (cleared t THREAD_TIMED_OUT (on_threads {[t]} disarmed s1))).
  { unfold s'. fold s1. unfold expired. rewrite E1. unfold expires. cbn. rewrite Ha, Hset. done. }
  assert (K2 : kept (on_threads {[t]} disarmed s1)) by (by apply kept_on_thread).
  destruct (cleared_waiting t (disarmed (fired x)) THREAD_TIMED_OUT _ (kept_wf _ K2) ltac:(look) Hst) as (_ & Hw & Hwt & y & Ey & Hy & Hsu & Hru & Hnq).
  eapply (HQ s' y); rewrite ?Hs'; [by apply kept_cleared|done|done|done|done|done| |].
  - rewrite Hw, (suspended_work t (disarmed (fired x))) by look. done.
  - intros q e. rewrite Hwt. unfold s1. by rewrite !waiters_threads.
Qed.

(** a thread that sleeps on a queue and is woken by [waitq_wakeup64_one] is run by
    the next worker, and [thread_block] returns the result that the waker gave. *)
Theorem sleeper_is_woken t x q e i d cont r s :
  kept s -> threads s !! t = Some x -> t_waitq x = None -> is_Some (waitqs s !! q) -> waiters s q e = [] -> workq s = [] ->
  wp (sleep t q e i d cont ;;; kr <- waitq_wakeup64_one q e r ;; w <- worker ;; ret (kr, w))
    (fun '(kr, w) s' => kr = KERN_SUCCESS /\ w = Some (t, r) /\ kept s' /\ workq s' = [] /\ waiters s' q e = [] /\
       exists y, threads s' !! t = Some y /\ t_running y = true /\ t_suspended y = false /\ t_waitq y = None) s.
Proof.
  intros K Ex Hx Eq Hnone Hidle. destruct (asleep_fields q e d cont x) as (_ & _ & Hs & Hr & _).
  apply wp_bind. eapply wp_sleep_alone; [done..|]. intros s1 K1 E1 Hq1 Hw1 Hs1.
  apply wp_bind. eapply wp_wake_sleeper; [done|done|by apply Hs1|by eapply only_at_here|]. rewrite Hs, Hq1, Hidle. intros s2 K2 E2 Hq2 Hw2%only_at_here Hs2.
  apply wp_bind. eapply wp_run_sleeper; [done..|]. intros s3 K3 E3 Hq3 Hw3 _. wq_go. split_and!; [done..|by rewrite Hw3|].
  eexists. split; [exact E3|]. done.
Qed.

(** C22: a wake-up that comes between the assertion of a wait and the suspension is
    lost: [thread_go] leaves [TH_WAIT] set and does not schedule a thread that is not
    suspended yet, so the thread then suspends itself, is on no queue and on no work
    queue, and neither another wake-up nor a worker runs it again. *)
Theorem early_wakeup_is_lost t x q e i d cont r s :
  kept s -> threads s !! t = Some x -> t_waitq x = None -> is_Some (waitqs s !! q) -> waiters s q e = [] -> t_suspended x = false -> t ∉ workq s ->
  wp (waitq_assert_wait64 t q e i d ;;; kr <- waitq_wakeup64_one q e r ;; b <- thread_block_parameter t cont ;; ret (kr, b))
    (fun '(kr, b) s' => kr = KERN_SUCCESS /\ b = None /\ kept s' /\ t ∉ workq s' /\ (forall q e, t ∉ waiters s' q e) /\
       exists y, threads s' !! t = Some y /\ t_suspended y = true /\ t_waitq y = None /\ t_wait_result y = r) s.
Proof.
  intros K Ex Hx [wq Eq] Hnone Hs Hidle. apply wp_bind. eapply wp_mono; [by eapply kept_assert|]. cbv beta. intros _ s1 [K1 E1].
  destruct (parked_fields q e d x) as (Pq & Pe & _ & Ps & _ & Pu & _).
  assert (Ey : threads s1 !! t = Some (parked_at q e d x)) by (rewrite E1; unfold asserted; cbv zeta; look).
  assert (Hw1 : waiters s1 q e = [t]) by (rewrite E1, waiters_asserted by (done || apply K); rewrite decide_True, Hnone by done; by destruct (from_option _ _ _)).
  assert (Hi1 : workq s1 = workq s) by (by rewrite E1).
  assert (Hq1 : is_Some (waitqs s1 !! q)) by (rewrite E1; apply (on_queue_some _ _ s); eauto).
  apply wp_bind. eapply wp_wake_sleeper; [done..|]. rewrite Pu, Hs, app_nil_r. intros s2 K2 E2 Hq2 _ _.
  apply wp_bind. eapply wp_thread_block; [apply K2|exact E2|]. change (t_state (result_is r (off ?p))) with (t_state p). rewrite Ps. change (has TH_WAIT TH_WAIT) with true. cbv iota. intros s3 W3. wq_go. cbv beta iota.
  set (z := result_is r (off (parked_at q e d x))) in *. destruct (suspended_fields cont z) as (_ & Hsu & _ & Hr & _). split_and!; unfold s3; try done.
  - eapply kept_quiet; [exact K2|done|apply dom_on_threads|done].
  - change (t ∉ workq s2). by rewrite Hq2, Hi1.
  - intros q' e'. rewrite waiters_threads by (intros u y _ _; apply inner_suspended). intros Hin%waiters_elem. unfold matches in Hin. rewrite E2 in Hin. by destruct Hin.
  - eexists. split; [look|]. split_and!; [done|by rewrite suspended_waitq|by rewrite Hr].
Qed.

Lemma awake_fields r x : let y := awake (result_is r (off x)) in
  t_waitq y = None /\ t_wait_timer y = t_wait_timer x /\ t_wait_timer_active y = t_wait_timer_active x /\ t_wait_timer_is_set y = t_wait_timer_is_set x.
Proof. done. Qed.
(** A wait timer that is not set, and one that is set and pending. *)
Definition timer_idle (x : thread T) : Prop := tc_queued (t_wait_timer x) = false /\ t_wait_timer_active x = 0.
Lemma asleep_timer q e d cont x : d <> 0 -> timer_idle x -> let y := asleep q e d cont x in
  tc_queued (t_wait_timer y) = true /\ t_wait_timer_active y = 1 /\ t_wait_timer_is_set y = true.
Proof.
  intros Hd [Hq Ha]. cbv zeta. unfold asleep. destruct (suspended_fields cont (parked_at q e d x)) as (_ & _ & _ & _ & _ & -> & -> & -> & _).
  unfold parked_at, armed. apply Z.eqb_neq in Hd. rewrite Hd. set (y := _ <| t_waitq := Some q |>). change (t_wait_timer y) with (t_wait_timer x).
  pose proof (tc_enter_was d (t_wait_timer x)) as Hw. pose proof (tc_enter_on d (t_wait_timer x)) as Ho. destruct (timer_call_enter d (t_wait_timer x)) as [act tc].
  cbn in Hw, Ho |- *. rewrite Hw, Hq, Ha. done.
Qed.

(** the wait timer is not cancelled when its wait ends.  If it expires after the
    thread was woken and before the thread runs, the thread's wait result is
    overwritten by the time-out, and the thread is on the work queue twice. *)
Theorem timeout_overrides_wakeup t x q e i d cont r s :
  kept s -> threads s !! t = Some x -> t_waitq x = None -> is_Some (waitqs s !! q) -> waiters s q e = [] -> timer_idle x -> d <> 0 ->
  wp (sleep t q e i d cont ;;; kr <- waitq_wakeup64_one q e r ;; timer_fires t ;;; ret kr)
    (fun kr s' => kr = KERN_SUCCESS /\ kept s' /\ workq s' = workq s ++ [t; t] /\
       exists y, threads s' !! t = Some y /\ t_wait_result y = THREAD_TIMED_OUT) s.
Proof.
  intros K Ex Hx Eq Hnone Hidle Hd. destruct (asleep_fields q e d cont x) as (_ & _ & Hs & Hr & Hst & _).
  destruct (asleep_timer q e d cont x Hd Hidle) as (T1 & T2 & T3).
  apply wp_bind. eapply wp_sleep_alone; [done..|]. intros s1 K1 E1 Hq1 Hw1 Hs1.
  apply wp_bind. eapply wp_wake_sleeper; [done|done|by apply Hs1|by eapply only_at_here|]. rewrite Hs, Hq1. intros s2 K2 E2 Hq2 _ _.
  apply wp_bind. eapply wp_fire_waiting; [done|exact E2|done..|]. intros s3 y K3 E3 Hy _ _ _ Hq3 _. wq_go. split_and!; [done|done| |eauto].
  rewrite Hq3, Hq2. cbn. rewrite Hs. by rewrite <- app_assoc.
Qed.
Lemma asleep_untimed q e cont x : let y := asleep q e 0 cont x in
  t_wait_timer y = t_wait_timer x /\ t_wait_timer_active y = t_wait_timer_active x /\ t_wait_timer_is_set y = t_wait_timer_is_set x.
Proof. cbv zeta. unfold asleep. by destruct (suspended_fields cont (parked_at q e 0 x)) as (_ & _ & _ & _ & _ & -> & -> & -> & _). Qed.
(** the timer of a wait that was woken in time ends the next wait of the thread,
    even though that one has no deadline: the thread is timed out. *)
Theorem stale_timer_ends_next_wait t x q e i d cont r q' e' s :
  kept s -> threads s !! t = Some x -> t_waitq x = None -> is_Some (waitqs s !! q) -> is_Some (waitqs s !! q') ->
  waiters s q e = [] -> waiters s q' e' = [] -> timer_idle x -> d <> 0 -> workq s = [] ->
  wp (sleep t q e i d cont ;;; kr <- waitq_wakeup64_one q e r ;; w <- worker ;; sleep t q' e' i 0 cont ;;; timer_fires t ;;; w' <- worker ;; ret (kr, w, w'))
    (fun '(kr, w, w') _ => kr = KERN_SUCCESS /\ w = Some (t, r) /\ w' = Some (t, THREAD_TIMED_OUT)) s.
Proof.
  intros K Ex Hx Eq Eq' Hnone Hnone' Hidle Hd Hwq. destruct (asleep_fields q e d cont x) as (_ & _ & Hs & Hr & Hst & _).
  destruct (asleep_timer q e d cont x Hd Hidle) as (T1 & T2 & T3).
  apply wp_bind. eapply wp_sleep_alone; [done..|]. set (y1 := asleep q e d cont x) in *. clearbody y1. intros s1 K1 E1 Hq1 Hw1 Hs1.
  apply wp_bind. eapply wp_wake_sleeper; [done|done|by apply Hs1|by eapply only_at_here|]. rewrite Hs, Hq1, Hwq. intros s2 K2 E2 Hq2 Hw2 Hs2.
  apply wp_bind. eapply wp_run_sleeper; [done..|]. intros s3 K3 E3 Hq3 Hw3 Hs3.
  destruct (awake_fields r y1) as (Hx3 & Ht3 & Ha3 & Hi3). set (x3 := awake (result_is r (off y1))) in *. clearbody x3.
  assert (Hn3 : waiters s3 q' e' = []) by (rewrite Hw3, Hw2; case_decide; [done|]; rewrite Hw1; by case_decide).
  destruct (asleep_fields q' e' 0 cont x3) as (_ & _ & Hs4 & Hr4 & Hst4 & _). destruct (asleep_untimed q' e' cont x3) as (Ht4 & Ha4 & Hi4).
  apply wp_bind. eapply wp_sleep_alone; [done|exact E3|done|by apply Hs3, Hs2, Hs1|done|]. set (y4 := asleep q' e' 0 cont x3) in *. clearbody y4. intros s4 K4 E4 Hq4 _ _.
  apply wp_bind. eapply wp_fire_waiting; [done|exact E4|by rewrite Ht4, Ht3|by rewrite Ha4, Ha3|by rewrite Hi4, Hi3|done|].
  rewrite Hs4, Hr4, Hq4, Hq3. intros s5 y K5 E5 Hy Hsy Hry _ Hq5 _.
  apply wp_bind. eapply wp_run_sleeper; [done..|]. intros s6 _ _ _ _ _. wq_go. by rewrite Hy.
Qed.

(** ** A wake-up by name on an ordinary queue *)

(** Taking a lock that is held. *)
Lemma lock_spins {A} q w (k : unit -> MW T A) s : waitqs s !! q = Some w -> waitq_locked w = true -> bind (waitq_lock q) k s = Hang.
Proof. intros Ew Hl. unfold waitq_lock, bind. rewrite (run_to (waitq_deref q) s w s) by (by eapply wp_waitq_deref). by rewrite Hl. Qed.
Lemma select_spins q wq w e n s : waitqs s !! q = Some wq -> waitq_irq wq = false -> waitqs s !! waitq_get_safeq q = Some w -> waitq_locked w = true -> do_waitq_select_n_locked q e n s = Hang.
Proof.
  intros Eq Ei Ew Hl. unfold do_waitq_select_n_locked. rewrite (bind_ret _ _ s wq s) by (apply run_to; by eapply wp_waitq_deref). cbv beta zeta.
  unfold safeq_of. rewrite Ei. by eapply lock_spins.
Qed.
Lemma wakeup_spins q wq w e r s :
  waitqs s !! q = Some wq -> waitq_isvalid wq = true -> waitq_irq wq = false -> waitq_locked wq = false -> q <> waitq_get_safeq q ->
  waitqs s !! waitq_get_safeq q = Some w -> waitq_locked w = true -> waitq_wakeup64_one q e r s = Hang.
Proof.
  intros Eq Hv Ei Hq Hne Ew Hl. unfold waitq_wakeup64_one, waitq_valid.
  rewrite (bind_ret _ _ s tt s) by (apply run_to; wq_go; by apply wp_ensure).
  rewrite (bind_ret _ _ s tt (on_queue q (qlock true) s)) by (apply run_to; by eapply wp_waitq_lock).
  unfold waitq_wakeup64_one_locked, waitq_select_one_locked, bind at 1 2. rewrite (select_spins q (qlock true wq) w); [done|look|done|look|done].
Qed.
(** C23: [waitq_wakeup64_thread] takes a thread off the ordinary queue where it waits and succeeds,
    but leaves the global queue behind that queue locked: the next wake-up on the queue,
    whatever its event, never returns. *)
Theorem named_wakeup_keeps_lock t x q wq e r s :
  kept s -> threads s !! t = Some x -> t_waitq x = Some q -> t_wait_event x = e -> waitqs s !! q = Some wq -> waitq_irq wq = false ->
  exists s', waitq_wakeup64_thread q e t r s = Ret KERN_SUCCESS s' /\ forall e' r', waitq_wakeup64_one q e' r' s' = Hang.
Proof.
  intros K Ex Hx He Eq Ei. pose proof (kept_wf _ K) as W. pose proof (unlocked_threads _ _ _ _ W Ex) as Hl.
  destruct (wf_global _ _ _ W (waitq_get_safeq q) (safeq_global q)) as (w & Ew & Hi). assert (Hne : q <> waitq_get_safeq q) by congruence.
  assert (wp (waitq_wakeup64_thread q e t r) (fun kr s' => kr = KERN_SUCCESS /\ exists v w',
    waitqs s' !! q = Some v /\ (waitq_isvalid v = true /\ waitq_irq v = false /\ waitq_locked v = false) /\ waitqs s' !! waitq_get_safeq q = Some w' /\ waitq_locked w' = true) s) as Hrun.
  { unfold waitq_wakeup64_thread. eapply wp_valid; [done..|]. eapply wp_enter; [done..|]. intros _. unfold waitq_select_thread_locked. wq_go. cbv zeta.
    unfold safeq_of. cbn. rewrite Ei. cbn [negb]. wq_go. eapply wp_waitq_lock; [look|by eapply unlocked_queues|]. wq_go. eapply wp_thread_lock; [look|done|]. wq_go.
    cbn. rewrite Hx, He, bool_decide_true, Z.eqb_refl by done. unfold waitq_thread_remove, thread_clear_waitq_state. cbn [andb]. wq_go.
    destruct (waitq_empty _); wq_go; (eapply wp_waitq_unlock; [look|done|]; change (KERN_SUCCESS =? KERN_SUCCESS) with true; cbv iota; wq_go; eapply wp_thread_go; [look|]; wq_go; eapply wp_thread_unlock; [look|done|]; wq_go; split; [done|]; eexists _, _; split_and!; [look|exact (wf_valid _ _ _ W _ _ Eq)|done|done|look|done]). }
  destruct (proj1 (wp_run _ _ _) Hrun) as (kr & s' & E & -> & v & w' & Ev & (Hv & Hvi & Hvl) & Ew' & Hw'). exists s'. split; [done|]. intros e' r'. by eapply wakeup_spins.
Qed.

(** ** The start: nobody waits *)
Record booted (s : st) : Prop := {
  boot_global q : (q < g_num_waitqs)%nat -> is_Some (waitqs s !! q);
  boot_irq : map_Forall (fun q w => (q < g_num_waitqs)%nat -> waitq_irq w = true) (waitqs s);
  boot_queues : map_Forall (fun _ w => waitq_isvalid w = true /\ waitq_queue w = [] /\ waitq_locked w = false) (waitqs s);
  boot_threads : map_Forall (fun _ x => t_waitq x = None /\ t_locked x = false /\ t_suspended x = false) (threads s);
  boot_work : workq s = [];
}.
Lemma booted_settled s : booted s -> settled s.
Proof.
  intros [Hg Hi Hq Ht Hw].
  assert (Hno : forall t sq, ~ waits_at s t sq) by (intros t sq (x & q & wq & Ex & Eq & _); destruct (Ht t x Ex) as [? _]; congruence).
  split; [|intros t x Ex Hs; destruct (Ht t x Ex) as (_ & _ & ?); congruence]. split; [|intros t; rewrite Hw; by intros ?%elem_of_nil]. constructor.
  - intros q Hq'. destruct (Hg q Hq') as [w E]. exists w. split; [done|by apply (Hi q w E)].
  - intros q w E. by apply (Hq q w E).
  - intros sq w t E. destruct (Hq sq w E) as (_ & -> & _). split; [by intros ?%elem_of_nil|]. intros Ha. by destruct (Hno t sq).
  - intros sq w E. destruct (Hq sq w E) as (_ & -> & _). constructor.
  - intros t x q Ex Eq. destruct (Ht t x Ex) as [? _]. congruence.
  - intros sq w t _ E. destruct (Hq sq w E) as (_ & -> & _). by intros ?%elem_of_nil.
  - intros q w E. by destruct (Hq q w E) as (_ & _ & ->).
  - intros t x Ex. by destruct (Ht t x Ex) as (_ & -> & _).
Qed.
End WaitRuns.

(** ** A small server: two global queues, a semaphore's queue and an ordinary one, two
    threads, and timer calls that are queued or not. *)
Module Demo.
#[global] Instance demo_timer : TimerCall bool :=
  {| tc_setup := false; tc_queued b := b; timer_call_enter _ b := (b, true); timer_call_cancel b := (b, false); timer_call_fire _ := false |}.
#[global] Instance demo_timer_laws : TimerCallLaws bool.
Proof. by constructor. Qed.
#[global] Instance demo_kernel : Kernel :=
  {| g_num_waitqs := 2; hash z := z / 16; addr q := Z.of_nat q * 16; tries := 0; some_waitqs := conj eq_refl eq_refl |}.
Definition new_thread : thread bool := mk_thread None 0 TH_RUN 0 0 31 0 0 false false false 0 false false true.
Definition new_waitq (irq : bool) : waitq := mk_waitq true irq true 0 [] false.
Definition start : wst bool :=
  mk_wst (<[1%nat := new_thread]> (<[2%nat := new_thread]> ∅)) (<[0%nat := new_waitq true]> (<[1%nat := new_waitq true]> (<[5%nat := new_waitq true]> (<[6%nat := new_waitq false]> ∅)))) [].
Lemma start_booted : booted start.
Proof.
  split.
  - intros q Hq. cbn in Hq. destruct q as [|[|q]]; [by vm_compute; eauto..|lia].
  - apply (bool_decide_unpack _). vm_compute. exact I.
  - apply (bool_decide_unpack _). vm_compute. exact I.
  - apply (bool_decide_unpack _). vm_compute. exact I.
  - done.
Qed.
Lemma start_settled : settled start.
Proof. exact (booted_settled _ start_booted). Qed.
Lemma start_kept : kept start.
Proof. apply start_settled. Qed.
Lemma start_empty q e : waiters start q e = [].
Proof.
  destruct (waiters start q e) as [|t l] eqn:E; [done|]. assert (t ∈ waiters start q e) as Ht by (rewrite E; left). apply waiters_elem in Ht.
  unfold matches in Ht. destruct (threads start !! t) as [x|] eqn:Ex; [|done]. destruct (boot_threads _ start_booted t x Ex) as [? _]. destruct Ht. congruence.
Qed.
(** Thread 1 joins an ordinary queue, that is, the global queue its address hashes to. *)
Lemma waitq_refines_lists_witness :
  permitted 0 start (Join 1 6 7 true) /\ wp (run_op 0 THREAD_UNINT 0 (Join 1 6 7 true)) (refined 0 (Join 1 6 7 true) (waiters start) start) start.
Proof.
  assert (permitted 0 start (Join 1 6 7 true)) as Hp.
  { exists new_thread, (new_waitq false), (new_waitq true). split; [reflexivity|]. split; [reflexivity|]. split; [reflexivity|]. split; [vm_compute; reflexivity|reflexivity]. }
  split; [exact Hp|]. apply (waitq_refines_lists 0 THREAD_UNINT 0 (Join 1 6 7 true) (waiters start) start).
  - apply start_kept.
  - intros q e. reflexivity.
  - exact Hp.
Defined.
(** Thread 1 sleeps on the semaphore's queue. *)
Definition demo_sleep : act := Sleep 1 5 7 0 0 false.
Lemma demo_enabled : enabled start demo_sleep.
Proof. split; [by exists new_thread|by exists (new_waitq true)]. Qed.
Lemma demo_sleep_runs (ok : wst bool -> act -> Prop) : ok start demo_sleep -> exists s, reach ok start s.
Proof.
  intros Hok. destruct (proj1 (wp_run _ _ _) (kept_act demo_sleep start start_kept demo_enabled)) as ([] & s & E & _).
  exists s. by eapply reach_act; [apply reach_start|..].
Qed.
Lemma waits_account_kept_witness : exists s, reach enabled start s /\ kept s.
Proof.
  destruct (demo_sleep_runs enabled demo_enabled) as [s Hs]. exists s. split; [exact Hs|].
  apply (proj1 (waits_account_kept start s start_kept Hs)).
Defined.
Lemma no_thread_forgotten_witness : exists s, reach calm start s /\ settled s.
Proof.
  destruct (demo_sleep_runs calm (conj demo_enabled I)) as [s Hs]. exists s. split; [exact Hs|].
  apply (proj1 (no_thread_forgotten start s start_settled Hs)).
Defined.
Lemma sleeper_is_woken_witness :
  wp (sleep 1 5 7 0 0 true ;;; kr <- waitq_wakeup64_one 5 7 3 ;; w <- worker ;; ret (kr, w)) (fun '(kr, w) _ => w = Some (1%nat, 3)) start.
Proof.
  eapply wp_mono; [apply (sleeper_is_woken 1 new_thread 5 7 0 0 true 3 start start_kept)|].
  - reflexivity.
  - reflexivity.
  - exists (new_waitq true). reflexivity.
  - apply start_empty.
  - reflexivity.
  - intros [kr w] s (_ & Hw & _). exact Hw.
Defined.
Lemma early_wakeup_is_lost_witness :
  wp (waitq_assert_wait64 1 5 7 0 0 ;;; kr <- waitq_wakeup64_one 5 7 0 ;; b <- thread_block_parameter 1 false ;; ret (kr, b))
    (fun '(kr, b) s => kr = KERN_SUCCESS /\ b = None /\ (1%nat ∉ workq s)) start.
Proof.
  eapply wp_mono; [apply (early_wakeup_is_lost 1 new_thread 5 7 0 0 false 0 start start_kept)|].
  - reflexivity.
  - reflexivity.
  - exists (new_waitq true). reflexivity.
  - apply start_empty.
  - reflexivity.
  - apply not_elem_of_nil.
  - intros [kr b] s (Hk & Hb & _ & Hn & _). exact (conj Hk (conj Hb Hn)).
Defined.
Lemma timeout_overrides_wakeup_witness :
  wp (sleep 1 5 7 0 100 false ;;; kr <- waitq_wakeup64_one 5 7 0 ;; timer_fires 1 ;;; ret kr)
    (fun kr s => kr = KERN_SUCCESS /\ workq s = [1; 1]%nat) start.
Proof.
  eapply wp_mono; [apply (timeout_overrides_wakeup 1 new_thread 5 7 0 100 false 0 start start_kept)|].
  - reflexivity.
  - reflexivity.
  - exists (new_waitq true). reflexivity.
  - apply start_empty.
  - split; reflexivity.
  - discriminate.
  - intros kr s (Hk & _ & Hw & _). exact (conj Hk Hw).
Defined.
Lemma stale_timer_ends_next_wait_witness :
  wp (sleep 1 5 7 0 100 false ;;; kr <- waitq_wakeup64_one 5 7 0 ;; w <- worker ;; sleep 1 0 9 0 0 false ;;; timer_fires 1 ;;; w' <- worker ;; ret (kr, w, w'))
    (fun '(_, w, w') _ => w = Some (1%nat, THREAD_AWAKENED) /\ w' = Some (1%nat, THREAD_TIMED_OUT)) start.
Proof.
  eapply wp_mono; [apply (stale_timer_ends_next_wait 1 new_thread 5 7 0 100 false 0 0 9 start start_kept)|].
  - reflexivity.
  - reflexivity.
  - exists (new_waitq true). reflexivity.
  - exists (new_waitq true). reflexivity.
  - apply start_empty.
  - apply start_empty.
  - split; reflexivity.
  - discriminate.
  - reflexivity.
  - intros [[kr w] w'] s (_ & Hw & Hw'). exact (conj Hw Hw').
Defined.
(** Thread 1 waits on the ordinary queue 6. *)
Definition waiting : wst bool := asserted 6 (new_waitq false) 7 0 1 new_thread start.
Lemma waiting_kept : waitq_assert_wait64 1 6 7 0 0 start = Ret THREAD_WAITING waiting /\ kept waiting.
Proof.
  split; [apply run_to; eapply wp_valid; [apply start_kept|reflexivity|]; by eapply wp_assert_wait; [apply start_kept|reflexivity..|]|].
  destruct (proj1 (wp_run _ _ _) (kept_assert 1 new_thread 6 (new_waitq false) 7 0 0 start start_kept eq_refl eq_refl eq_refl)) as (r & s & E & K & ->). exact K.
Qed.
Lemma named_wakeup_keeps_lock_witness :
  exists s', waitq_wakeup64_thread 6 7 1 0 waiting = Ret KERN_SUCCESS s' /\ waitq_wakeup64_one 6 7 0 s' = Hang.
Proof.
  destruct (named_wakeup_keeps_lock 1 (parked_at 6 7 0 new_thread) 6 (new_waitq false) 7 0 waiting (proj2 waiting_kept)) as (s' & E & Hh).
  - reflexivity.
  - reflexivity.
  - reflexivity.
  - reflexivity.
  - reflexivity.
  - exists s'. exact (conj E (Hh 7 0)).
Defined.
End Demo.
End WaitRuns.
