(* ===== verification/Sema.v ===== *)
(** * Semaphores

    Mach semaphores ([xnu/osfmk/kern/sync_sema.c]) over the wait queues of [WaitQ],
    and the duct tape's wrapper of them ([src/duct-tape/src/semaphore.c]).

    A semaphore contains its wait queue, so that both have one number, and the
    queue's lock is the semaphore's.  [count] is the number of units while it is not
    negative; -1 says that there may be waiters, whose number is not kept.  A task
    has the list of the semaphores it owns.  The functions that look a semaphore up
    by its port name are not modelled, nor is the port beyond its number. *)
From S2P Require Import Prelude WaitQ WaitQProps Blocking WaitSpec.

Definition KERN_ABORTED : Z := 14.
Definition KERN_INVALID_VALUE : Z := 18.
Definition KERN_OPERATION_TIMED_OUT : Z := 49.
Definition KERN_ALREADY_WAITING : Z := 31.
Definition SYNC_POLICY_MAX : Z := 7.
Definition SEMAPHORE_OPTION_NONE : Z := 0.
Definition SEMAPHORE_SIGNAL_ALL : Z := 32.
Definition SEMAPHORE_SIGNAL_PREPOST : Z := 128.
Definition SEMAPHORE_TIMEOUT_NOBLOCK : Z := 1048576.
Definition SEMAPHORE_THREAD_HANDOFF : Z := 67108864.
Definition NSEC_PER_SEC : Z := 1000000000.
Definition OS_REFCNT_MAX_COUNT : Z := 268435455.

(** The allocator of semaphores, which is given the numbers in use; the address that
    semaphore waits are on; and the clock. *)
Class SemaEnv := {
  zalloc : gset nat -> option nat;
  zalloc_fresh X n : zalloc X = Some n -> n ∉ X;
  SEMAPHORE_EVENT : Z;
  mach_absolute_time : Z;
}.

Module Sema.
Export WaitSpec.
Section Sema.
Context {T : Type} `{TimerCall T} `{Kernel} `{SemaEnv}.

(** ** Data *)

(** [struct semaphore], without the wait queue. *)
Record semaphore := mk_semaphore {
  sem_owner : option nat;
  sem_port : option nat;
  sem_ref_count : Z;
  sem_count : Z;
  sem_active : bool;
}.
#[global] Instance semaphore_rebuild : Rebuild semaphore :=
  fun r => mk_semaphore (sem_owner r) (sem_port r) (sem_ref_count r) (sem_count r) (sem_active r).
(** The parts of [struct task] that semaphores use. *)
Record stask := mk_stask {
  tk_active : bool;
  tk_semaphore_list : list nat;
  tk_semaphores_owned : Z;
  tk_locked : bool;
}.
#[global] Instance stask_rebuild : Rebuild stask :=
  fun r => mk_stask (tk_active r) (tk_semaphore_list r) (tk_semaphores_owned r) (tk_locked r).
(** The waits, the semaphores, the tasks, the semaphores that a thread blocked with a
    continuation holds references of ([sth_waitsemaphore], [sth_signalsemaphore]), and
    the ports that were deallocated. *)
Record sst := mk_sst {
  ws : wst T;
  semas : gmap nat semaphore;
  stasks : gmap nat stask;
  sth : gmap nat (nat * option nat);
  dead_ports : list nat;
}.
#[global] Instance sst_rebuild : Rebuild sst := fun r => mk_sst (ws r) (semas r) (stasks r) (sth r) (dead_ports r).
Definition MS := M sst.

(** Running the wait queues' code. *)
Definition waitq_do {A} (m : MW T A) : MS A := fun s =>
  match m (ws s) with
  | Ret a w => Ret a (s <| ws := w |>)
  | Panic why => Panic why
  | Hang => Hang
  end.
Definition sema_deref (n : nat) : MS semaphore := fun s =>
  match semas s !! n with Some x => Ret x s | None => Panic "no such semaphore" end.
Definition stask_deref (k : nat) : MS stask := fun s =>
  match stasks s !! k with Some x => Ret x s | None => Panic "no such task" end.
Definition sema_mod (n : nat) (f : semaphore -> semaphore) : MS unit :=
  x <- sema_deref n ;; modify (fun s => s <| semas := <[n := f x]> (semas s) |>).
Definition stask_mod (k : nat) (f : stask -> stask) : MS unit :=
  x <- stask_deref k ;; modify (fun s => s <| stasks := <[k := f x]> (stasks s) |>).

(** Locks: taking a lock that is held never returns. *)
Definition semaphore_lock (n : nat) : MS unit := waitq_do (waitq_lock n).
Definition semaphore_unlock (n : nat) : MS unit := waitq_do (waitq_unlock n).
Definition task_lock (k : nat) : MS unit :=
  x <- stask_deref k ;; if tk_locked x then hang else stask_mod k (fun x => x <| tk_locked := true |>).
Definition task_lock_try (k : nat) : MS bool :=
  x <- stask_deref k ;; if tk_locked x then ret false else stask_mod k (fun x => x <| tk_locked := true |>) ;;; ret true.
Definition task_unlock (k : nat) : MS unit :=
  x <- stask_deref k ;; ensure (tk_locked x) "unlock of a free task" ;;; stask_mod k (fun x => x <| tk_locked := false |>).

(** The memory of a semaphore is given back. *)
Definition zfree (n : nat) : MS unit := modify (fun s => s <| semas ::= delete n |> <| ws ::= fun w => w <| waitqs ::= delete n |> |>).

(** ** Creation and destruction *)

Definition semaphore_create (task : option nat) (policy value : Z) : MS (Z * option nat) :=
  match task with
  | None => ret (KERN_INVALID_ARGUMENT, None)
  | Some k =>
      if (value <? 0) || (SYNC_POLICY_MAX <? policy) || (policy <? 0) then ret (KERN_INVALID_ARGUMENT, None)
      else
        s <- get ;;
        match zalloc (dom (semas s) ∪ dom (waitqs (ws s))) with
        | None => ret (KERN_RESOURCE_SHORTAGE, None)
        | Some n =>
            kret <- waitq_do (waitq_init n (Z.lor policy SYNC_POLICY_DISABLE_IRQ)) ;;
            if negb (kret =? KERN_SUCCESS) then zfree n ;;; ret (kret, None)
            else
              modify (fun s => s <| semas ::= <[n := mk_semaphore (Some k) None 1 value true]> |>) ;;;
              task_lock k ;;;
              x <- stask_deref k ;;
              if negb (tk_active x) then task_unlock k ;;; zfree n ;;; ret (KERN_INVALID_TASK, None)
              else
                stask_mod k (fun x => x <| tk_semaphore_list ::= cons n |> <| tk_semaphores_owned ::= fun c => s32 (c + 1) |>) ;;;
                task_unlock k ;;;
                ret (KERN_SUCCESS, Some n)
        end
  end.

(** The task and the semaphore are locked; the semaphore is unlocked at the end. *)
Definition semaphore_destroy_internal (k n : nat) : MS unit :=
  stask_mod k (fun x => x <| tk_semaphore_list ::= unlink n |>) ;;;
  sema_mod n (fun x => x <| sem_owner := None |>) ;;;
  stask_mod k (fun x => x <| tk_semaphores_owned ::= fun c => s32 (c - 1) |>) ;;;
  sema_mod n (fun x => x <| sem_active := false |>) ;;;
  x <- sema_deref n ;;
  sema_mod n (fun x => x <| sem_count := 0 |>) ;;;
  if sem_count x <? 0 then waitq_do (waitq_wakeup64_all_locked n SEMAPHORE_EVENT THREAD_RESTART true) ;;; ret tt
  else semaphore_unlock n.

(** [os_ref_retain], [os_ref_release] *)
Definition semaphore_reference (n : nat) : MS unit :=
  x <- sema_deref n ;;
  ensure ((1 <=? sem_ref_count x) && (sem_ref_count x <? OS_REFCNT_MAX_COUNT)) "os_refcnt" ;;;
  sema_mod n (fun x => x <| sem_ref_count ::= Z.succ |>).
(** The loop of [semaphore_dereference] that waits for the task's lock; [tries] bounds
    its iterations after the first. *)
Fixpoint dereference_loop (n fuel : nat) : MS unit :=
  match fuel with
  | O => hang
  | S fuel =>
      x <- sema_deref n ;;
      if negb (sem_active x) then semaphore_unlock n
      else match sem_owner x with
           | None => panic "no owner"
           | Some k =>
               ok <- task_lock_try k ;;
               if ok then semaphore_destroy_internal k n ;;; task_unlock k
               else semaphore_unlock n ;;; semaphore_lock n ;;; dereference_loop n fuel
           end
  end.
Definition semaphore_dereference (sem : option nat) : MS unit :=
  match sem with
  | None => ret tt
  | Some n =>
      x <- sema_deref n ;;
      ensure (1 <=? sem_ref_count x) "os_refcnt: underflow" ;;;
      sema_mod n (fun x => x <| sem_ref_count ::= Z.pred |>) ;;;
      if 1 <? sem_ref_count x then ret tt
      else
        match sem_port x with Some p => modify (fun s => s <| dead_ports ::= cons p |>) | None => ret tt end ;;;
        semaphore_lock n ;;;
        dereference_loop n (S tries) ;;;
        zfree n
  end.

Definition semaphore_destroy (task sem : option nat) : MS Z :=
  match sem, task with
  | None, _ => ret KERN_INVALID_ARGUMENT
  | Some n, None => semaphore_dereference sem ;;; ret KERN_INVALID_ARGUMENT
  | Some n, Some k =>
      task_lock k ;;; semaphore_lock n ;;;
      x <- sema_deref n ;;
      if negb (bool_decide (sem_owner x = Some k)) then
        semaphore_unlock n ;;; semaphore_dereference sem ;;; task_unlock k ;;; ret KERN_INVALID_ARGUMENT
      else
        semaphore_destroy_internal k n ;;; task_unlock k ;;; semaphore_dereference sem ;;; ret KERN_SUCCESS
  end.
(** The loop takes the first semaphore off the list each time: [fuel] is the length of
    the list. *)
Fixpoint destroy_all_loop (k fuel : nat) : MS unit :=
  x <- stask_deref k ;;
  match tk_semaphore_list x, fuel with
  | [], _ => ret tt
  | n :: _, O => hang
  | n :: _, S fuel => semaphore_lock n ;;; semaphore_destroy_internal k n ;;; destroy_all_loop k fuel
  end.
Definition semaphore_destroy_all (k : nat) : MS unit :=
  task_lock k ;;; x <- stask_deref k ;; destroy_all_loop k (length (tk_semaphore_list x)) ;;; task_unlock k.

(** ** Signalling *)

Definition semaphore_signal_internal (n : nat) (thread : option nat) (options : Z) : MS Z :=
  semaphore_lock n ;;;
  x <- sema_deref n ;;
  if negb (sem_active x) then semaphore_unlock n ;;; ret KERN_TERMINATED
  else match thread with
  | Some t =>
      if sem_count x <? 0 then waitq_do (waitq_wakeup64_thread_locked n SEMAPHORE_EVENT t THREAD_AWAKENED true)
      else semaphore_unlock n ;;; ret KERN_NOT_WAITING
  | None =>
      if has options SEMAPHORE_SIGNAL_ALL then
        if sem_count x <? 0 then
          sema_mod n (fun x => x <| sem_count := 0 |>) ;;;
          waitq_do (waitq_wakeup64_all_locked n SEMAPHORE_EVENT THREAD_AWAKENED true)
        else
          when (has options SEMAPHORE_SIGNAL_PREPOST) (sema_mod n (fun x => x <| sem_count ::= fun c => s32 (c + 1) |>)) ;;;
          semaphore_unlock n ;;; ret KERN_SUCCESS
      else
        kr <- (if sem_count x <? 0 then
                 kr <- waitq_do (waitq_wakeup64_one_locked n SEMAPHORE_EVENT THREAD_AWAKENED false) ;;
                 when (negb (kr =? KERN_SUCCESS)) (sema_mod n (fun x => x <| sem_count := 0 |>)) ;;;
                 ret kr
               else ret KERN_NOT_WAITING) ;;
        if kr =? KERN_SUCCESS then semaphore_unlock n ;;; ret KERN_SUCCESS
        else
          when (has options SEMAPHORE_SIGNAL_PREPOST) (sema_mod n (fun x => x <| sem_count ::= fun c => s32 (c + 1) |>)) ;;;
          semaphore_unlock n ;;; ret KERN_NOT_WAITING
  end.
Definition semaphore_signal_thread (sem thread : option nat) : MS Z :=
  match sem with None => ret KERN_INVALID_ARGUMENT | Some n => semaphore_signal_internal n thread SEMAPHORE_OPTION_NONE end.
Definition not_waiting_is_success (kr : Z) : Z := if kr =? KERN_NOT_WAITING then KERN_SUCCESS else kr.
Definition semaphore_signal (sem : option nat) : MS Z :=
  match sem with
  | None => ret KERN_INVALID_ARGUMENT
  | Some n => kr <- semaphore_signal_internal n None SEMAPHORE_SIGNAL_PREPOST ;; ret (not_waiting_is_success kr)
  end.
Definition semaphore_signal_all (sem : option nat) : MS Z :=
  match sem with
  | None => ret KERN_INVALID_ARGUMENT
  | Some n => kr <- semaphore_signal_internal n None SEMAPHORE_SIGNAL_ALL ;; ret (not_waiting_is_success kr)
  end.

(** ** Waiting *)

Definition semaphore_convert_wait_result (wait_result : Z) : MS Z :=
  if wait_result =? THREAD_AWAKENED then ret KERN_SUCCESS
  else if wait_result =? THREAD_TIMED_OUT then ret KERN_OPERATION_TIMED_OUT
  else if wait_result =? THREAD_INTERRUPTED then ret KERN_ABORTED
  else if wait_result =? THREAD_RESTART then ret KERN_TERMINATED
  else panic "semaphore_block".

(** What a thread that blocked in [semaphore_wait_internal] does when it runs again:
    without a continuation, the end of that function; with one,
    [semaphore_wait_continue], up to the call of the caller's continuation.  Both
    return the code that the caller gets. *)
Definition semaphore_wait_return (wr : Z) : MS Z := semaphore_convert_wait_result wr.
Definition semaphore_wait_continue (self : nat) (wr : Z) : MS Z :=
  s <- get ;;
  match sth s !! self with
  | None => panic "no semaphore"
  | Some (w, sg) =>
      semaphore_dereference (Some w) ;;;
      semaphore_dereference sg ;;;
      semaphore_convert_wait_result wr
  end.

(** [semaphore_wait_internal] up to where the semaphore is unlocked: the code, which is
    [KERN_ALREADY_WAITING] if a wait was asserted. *)
Definition semaphore_wait_begin (self wait_n : nat) (deadline option : Z) : MS Z :=
  semaphore_lock wait_n ;;;
  x <- sema_deref wait_n ;;
  kr <- (if negb (sem_active x) then ret KERN_TERMINATED
         else if 0 <? sem_count x then sema_mod wait_n (fun x => x <| sem_count ::= fun c => c - 1 |>) ;;; ret KERN_SUCCESS
         else if has option SEMAPHORE_TIMEOUT_NOBLOCK then ret KERN_OPERATION_TIMED_OUT
         else
           sema_mod wait_n (fun x => x <| sem_count := -1 |>) ;;;
           waitq_do (thread_set_pending_block_hint self kThreadWaitSemaphore) ;;;
           waitq_do (waitq_assert_wait64_locked wait_n SEMAPHORE_EVENT THREAD_ABORTSAFE deadline self) ;;;
           ret KERN_ALREADY_WAITING) ;;
  semaphore_unlock wait_n ;;;
  ret kr.
(** Its signal of the other semaphore, if there is one. *)
Definition semaphore_wait_signals (self : nat) (signal_n : option nat) (kr : Z) : MS Z :=
  match signal_n with
  | None => ret kr
  | Some n =>
      let options := if kr =? KERN_ALREADY_WAITING then Z.lor SEMAPHORE_SIGNAL_PREPOST SEMAPHORE_THREAD_HANDOFF else SEMAPHORE_SIGNAL_PREPOST in
      signal_kr <- semaphore_signal_internal n None options ;;
      if signal_kr =? KERN_TERMINATED then
        waitq_do (clear_wait self THREAD_INTERRUPTED) ;;;
        y <- waitq_do (thread_deref self) ;;
        kr <- semaphore_convert_wait_result (t_wait_result y) ;;
        ret (if kr =? KERN_ABORTED then KERN_TERMINATED else kr)
      else ret kr
  end.
(** How the call ends: the thread has blocked, the call returns, or, with a continuation
    and no need to block, the continuation has run and left for the client.  [cont]
    says whether a continuation is given; [handoff_thread] is never set in this
    build. *)
Inductive wait_end := Blocked | Returned (kr : Z) | Left (kr : Z).
Definition semaphore_wait_internal (self wait_n : nat) (signal_n : option nat) (deadline option : Z) (cont : bool) : MS wait_end :=
  kr <- semaphore_wait_begin self wait_n deadline option ;;
  kr <- semaphore_wait_signals self signal_n kr ;;
  if negb (kr =? KERN_ALREADY_WAITING) then ret (Returned kr)
  else
    when cont (modify (fun s => s <| sth ::= <[self := (wait_n, signal_n)]> |>)) ;;;
    r <- waitq_do (thread_block_parameter self cont) ;;
    match r with
    | None => ret Blocked
    | Some wr =>
        if cont then kr <- semaphore_wait_continue self wr ;; ret (Left kr)
        else kr <- semaphore_wait_return wr ;; ret (Returned kr)
    end.
(** The calls from within the server, without a continuation: [None] when the thread has
    blocked. *)
Definition returned (e : wait_end) : option Z := match e with Blocked => None | Returned kr | Left kr => Some kr end.
Definition semaphore_wait_kernel (self wait_n : nat) (signal_n : option nat) (deadline option : Z) : MS (Datatypes.option Z) :=
  e <- semaphore_wait_internal self wait_n signal_n deadline option false ;; ret (returned e).

Definition semaphore_wait (self : nat) (sem : Datatypes.option nat) : MS (Datatypes.option Z) :=
  match sem with None => ret (Some KERN_INVALID_ARGUMENT) | Some n => semaphore_wait_kernel self n None 0 SEMAPHORE_OPTION_NONE end.
Definition semaphore_wait_noblock (self : nat) (sem : Datatypes.option nat) : MS (Datatypes.option Z) :=
  match sem with None => ret (Some KERN_INVALID_ARGUMENT) | Some n => semaphore_wait_kernel self n None 0 SEMAPHORE_TIMEOUT_NOBLOCK end.
Definition semaphore_wait_deadline (self : nat) (sem : Datatypes.option nat) (deadline : Z) : MS (Datatypes.option Z) :=
  match sem with None => ret (Some KERN_INVALID_ARGUMENT) | Some n => semaphore_wait_kernel self n None deadline SEMAPHORE_OPTION_NONE end.
(** [semaphore_deadline]: the time base is nanoseconds, and the sum saturates. *)
Definition semaphore_deadline (sec nsec : Z) : Z := Z.min (mach_absolute_time + u64 (sec * NSEC_PER_SEC + nsec)) (2 ^ 64 - 1).
(** [tv_sec] is unsigned and [tv_nsec] signed; a time-out of zero does not block. *)
Definition semaphore_timedwait_signal (self : nat) (wait_sem signal_sem : Datatypes.option nat) (sec nsec : Z) : MS (Datatypes.option Z) :=
  match wait_sem with
  | None => ret (Some KERN_INVALID_ARGUMENT)
  | Some n =>
      if (nsec <? 0) || (NSEC_PER_SEC <=? nsec) then ret (Some KERN_INVALID_VALUE)
      else if (sec =? 0) && (nsec =? 0) then semaphore_wait_kernel self n signal_sem 0 SEMAPHORE_TIMEOUT_NOBLOCK
      else semaphore_wait_kernel self n signal_sem (semaphore_deadline sec nsec) SEMAPHORE_OPTION_NONE
  end.
Definition semaphore_timedwait (self : nat) (sem : Datatypes.option nat) (sec nsec : Z) : MS (Datatypes.option Z) :=
  semaphore_timedwait_signal self sem None sec nsec.
Definition semaphore_wait_signal (self : nat) (wait_sem signal_sem : Datatypes.option nat) : MS (Datatypes.option Z) :=
  match wait_sem with
  | None => ret (Some KERN_INVALID_ARGUMENT)
  | Some n => semaphore_wait_kernel self n signal_sem 0 SEMAPHORE_OPTION_NONE
  end.

(** ** The duct tape's semaphores *)
Inductive dtape_semaphore_wait_result := wait_result_error | wait_result_ok | wait_result_interrupted.

(** [dtape_semaphore_t] is the owning task and the semaphore; [malloc] succeeds. *)
Definition dtape_semaphore_create (owning_task : nat) (initial_value : Z) : MS (Datatypes.option (nat * nat)) :=
  r <- semaphore_create (Some owning_task) 0 initial_value ;;
  match r with
  | (kr, Some n) => ret (if kr =? KERN_SUCCESS then Some (owning_task, n) else None)
  | (_, None) => ret None
  end.
Definition dtape_semaphore_destroy (sem : nat * nat) : MS unit :=
  kr <- semaphore_destroy (Some (fst sem)) (Some (snd sem)) ;; ensure (kr =? KERN_SUCCESS) "Failed to destroy duct-taped XNU semaphore".
Definition dtape_semaphore_up (sem : nat * nat) : MS unit :=
  kr <- semaphore_signal (Some (snd sem)) ;; ensure (kr =? KERN_SUCCESS) "Failed to raise up-count of duct-taped XNU semaphore".
Definition down_result (kr : Z) : dtape_semaphore_wait_result :=
  if kr =? KERN_SUCCESS then wait_result_ok else if kr =? KERN_ABORTED then wait_result_interrupted else wait_result_error.
(** [None] when the thread has blocked; [semaphore_wait_return] and [down_result] give
    the result when it runs again. *)
Definition dtape_semaphore_down (self : nat) (sem : nat * nat) : MS (Datatypes.option dtape_semaphore_wait_result) :=
  kr <- semaphore_wait self (Some (snd sem)) ;; ret (down_result <$> kr).
Definition down_simple_result (r : dtape_semaphore_wait_result) : MS bool :=
  match r with
  | wait_result_ok => ret true
  | wait_result_interrupted => ret false
  | wait_result_error => panic "Failed to lower up-count of duct-taped XNU semaphore"
  end.
Definition dtape_semaphore_down_simple (self : nat) (sem : nat * nat) : MS (Datatypes.option bool) :=
  r <- dtape_semaphore_down self sem ;;
  match r with None => ret None | Some r => b <- down_simple_result r ;; ret (Some b) end.
End Sema.
Arguments sst : clear implicits.
Arguments MS : clear implicits.
End Sema.
