(* ===== verification/SemaProps.v ===== *)
(** * Semaphores: the account and the operations

    What holds of semaphores, their queues, their tasks and their references at every
    call, and what each operation does. *)
From S2P Require Import Prelude WaitQ WaitQProps Blocking WaitSpec Sema.

Module SemaProps.
Export Sema.
Section SemaProps.
Context {T : Type} `{TimerCall T} `{Kernel} `{SemaEnv}.
Notation st := (sst T).
Implicit Types s : st.
Implicit Types x : semaphore.
Implicit Types k : nat.

Definition on_ws (f : wst T -> wst T) (s : st) : st := s <| ws ::= f |>.
Definition on_sema (n : nat) (f : semaphore -> semaphore) (s : st) : st := s <| semas ::= alter f n |>.
Definition on_task (k : nat) (f : stask -> stask) (s : st) : st := s <| stasks ::= alter f k |>.

Lemma alter_insert {A} (f : A -> A) (m : gmap nat A) n v : m !! n = Some v -> alter f n m = <[n := f v]> m.
Proof.
  intros E. apply map_eq. intros p. destruct (decide (p = n)) as [->|]; [by rewrite lookup_alter_eq, E, lookup_insert_eq|by rewrite lookup_alter_ne, lookup_insert_ne].
Qed.
Lemma alter_twice {A} (f g : A -> A) (m : gmap nat A) n : alter f n (alter g n m) = alter (fun v => f (g v)) n m.
Proof.
  apply map_eq. intros p. destruct (decide (p = n)) as [->|]; [|by rewrite !lookup_alter_ne]. rewrite !lookup_alter_eq. by destruct (m !! n).
Qed.
Lemma alter_same {A} (f g : A -> A) (m : gmap nat A) n : (forall v, m !! n = Some v -> f v = g v) -> alter f n m = alter g n m.
Proof.
  intros Hf. apply map_eq. intros p. destruct (decide (p = n)) as [->|]; [|by rewrite !lookup_alter_ne]. rewrite !lookup_alter_eq.
  destruct (m !! n) eqn:E; [|done]. cbn. f_equal. eauto.
Qed.
Lemma on_ws_twice f g s : on_ws f (on_ws g s) = on_ws (fun w => f (g w)) s.
Proof. done. Qed.
Lemma on_sema_twice n f g s : on_sema n f (on_sema n g s) = on_sema n (fun x => f (g x)) s.
Proof. unfold on_sema, update. cbn. f_equal. apply alter_twice. Qed.
Lemma on_task_twice k f g s : on_task k f (on_task k g s) = on_task k (fun tk => f (g tk)) s.
Proof. unfold on_task, update. cbn. f_equal. apply alter_twice. Qed.
Lemma on_sema_ws n f g s : on_sema n f (on_ws g s) = on_ws g (on_sema n f s).
Proof. done. Qed.
Lemma on_task_ws k f g s : on_task k f (on_ws g s) = on_ws g (on_task k f s).
Proof. done. Qed.
Lemma on_sema_task n f k g s : on_sema n f (on_task k g s) = on_task k g (on_sema n f s).
Proof. done. Qed.

(** ** Rules *)
Lemma wp_waitq_do {A} (m : MW T A) s (Q : A -> st -> Prop) : wp m (fun a w => Q a (on_ws (fun _ => w) s)) (ws s) -> wp (waitq_do m) Q s.
Proof. unfold wp, waitq_do. by destruct (m (ws s)). Qed.
Lemma wp_sema_deref n x s (Q : semaphore -> st -> Prop) : semas s !! n = Some x -> Q x s -> wp (sema_deref n) Q s.
Proof. intros E HQ. unfold wp, sema_deref. by rewrite E. Qed.
Lemma wp_stask_deref k tk s (Q : stask -> st -> Prop) : stasks s !! k = Some tk -> Q tk s -> wp (stask_deref k) Q s.
Proof. intros E HQ. unfold wp, stask_deref. by rewrite E. Qed.
Lemma wp_sema_mod n x f s (Q : unit -> st -> Prop) : semas s !! n = Some x -> Q tt (on_sema n f s) -> wp (sema_mod n f) Q s.
Proof.
  intros E HQ. unfold sema_mod. apply wp_bind. eapply wp_sema_deref; [done|]. apply wp_modify. unfold on_sema in HQ. by_state HQ. unfold update. cbn. f_equal. by apply alter_insert.
Qed.
Lemma wp_stask_mod k tk f s (Q : unit -> st -> Prop) : stasks s !! k = Some tk -> Q tt (on_task k f s) -> wp (stask_mod k f) Q s.
Proof.
  intros E HQ. unfold stask_mod. apply wp_bind. eapply wp_stask_deref; [done|]. apply wp_modify. unfold on_task in HQ. by_state HQ. unfold update. cbn. f_equal. by apply alter_insert.
Qed.
Definition klock (b : bool) (tk : stask) : stask := tk <| tk_locked := b |>.
Lemma wp_task_lock k tk s (Q : unit -> st -> Prop) : stasks s !! k = Some tk -> tk_locked tk = false -> Q tt (on_task k (klock true) s) -> wp (task_lock k) Q s.
Proof. intros E Hl HQ. unfold task_lock. apply wp_bind. eapply wp_stask_deref; [done|]. rewrite Hl. by eapply wp_stask_mod. Qed.
Lemma wp_task_lock_try k tk s (Q : bool -> st -> Prop) : stasks s !! k = Some tk -> tk_locked tk = false -> Q true (on_task k (klock true) s) -> wp (task_lock_try k) Q s.
Proof. intros E Hl HQ. unfold task_lock_try. apply wp_bind. eapply wp_stask_deref; [done|]. rewrite Hl. apply wp_bind. eapply wp_stask_mod; [done|]. by apply wp_ret. Qed.
Lemma wp_task_unlock k tk s (Q : unit -> st -> Prop) : stasks s !! k = Some tk -> tk_locked tk = true -> Q tt (on_task k (klock false) s) -> wp (task_unlock k) Q s.
Proof.
  intros E Hl HQ. unfold task_unlock. apply wp_bind. eapply wp_stask_deref; [done|]. rewrite Hl. apply wp_bind, wp_ensure; [done|]. by eapply wp_stask_mod.
Qed.

(** ** The account *)
Definition sleepers (s : st) (n : nat) : list nat := waiters (ws s) n SEMAPHORE_EVENT.
Definition owned_by (s : st) (n : nat) (x : semaphore) : Prop :=
  exists k tk, sem_owner x = Some k /\ stasks s !! k = Some tk /\ n ∈ tk_semaphore_list tk.

(** [Lk] are the tasks that are locked, [Lq] the semaphores and other queues. *)
Record swf (Lq Lk : gset nat) (s : st) : Prop := {
  sw_kept : wf Lq ∅ (ws s);
  sw_queue n x : semas s !! n = Some x -> (g_num_waitqs <= n)%nat /\ exists wq, waitqs (ws s) !! n = Some wq /\ waitq_irq wq = true;
  sw_event t y n x : threads (ws s) !! t = Some y -> t_waitq y = Some n -> semas s !! n = Some x -> t_wait_event y = SEMAPHORE_EVENT;
  sw_sleepers n x : semas s !! n = Some x -> sleepers s n <> [] -> sem_count x = -1;
  sw_count n x : semas s !! n = Some x -> -1 <= sem_count x < 2 ^ 31;
  sw_ref n x : semas s !! n = Some x -> 1 <= sem_ref_count x;
  sw_active n x : semas s !! n = Some x -> if sem_active x then owned_by s n x else sem_owner x = None /\ sem_count x = 0;
  sw_list k tk n : stasks s !! k = Some tk -> n ∈ tk_semaphore_list tk -> exists x, semas s !! n = Some x /\ sem_active x = true /\ sem_owner x = Some k;
  sw_nodup k tk : stasks s !! k = Some tk -> NoDup (tk_semaphore_list tk);
  sw_owned k tk : stasks s !! k = Some tk -> tk_semaphores_owned tk = s32 (Z.of_nat (length (tk_semaphore_list tk)));
  sw_lock k tk : stasks s !! k = Some tk -> tk_locked tk = bool_decide (k ∈ Lk);
}.

(** What semaphores and tasks have left to say when only the waits change. *)
Lemma swf_waits Lq Lq' Lk s (w : wst T) :
  swf Lq Lk s -> wf Lq' ∅ w ->
  (forall n wq, waitqs (ws s) !! n = Some wq -> exists wq', waitqs w !! n = Some wq' /\ waitq_irq wq' = waitq_irq wq) ->
  (forall t y n x, threads w !! t = Some y -> t_waitq y = Some n -> semas s !! n = Some x -> t_wait_event y = SEMAPHORE_EVENT) ->
  (forall n x, semas s !! n = Some x -> waiters w n SEMAPHORE_EVENT <> [] -> sem_count x = -1) ->
  swf Lq' Lk (on_ws (fun _ => w) s).
Proof.
  intros S W Hq Ht Hs. destruct S. constructor; try done.
  intros n x Ex. destruct (sw_queue0 n x Ex) as (Hn & wq & Eq & Hi). split; [done|]. destruct (Hq n wq Eq) as (wq' & Eq' & Hi'). exists wq'. split; [done|congruence].
Qed.
(** A change of one semaphore that keeps its owner and activity. *)
Lemma swf_on_sema Lq Lk n f s :
  swf Lq Lk s -> (forall x, semas s !! n = Some x -> sem_owner (f x) = sem_owner x /\ sem_active (f x) = sem_active x /\
    -1 <= sem_count (f x) < 2 ^ 31 /\ 1 <= sem_ref_count (f x) /\ (sleepers s n <> [] -> sem_count (f x) = -1) /\ (sem_active x = false -> sem_count (f x) = 0)) ->
  swf Lq Lk (on_sema n f s).
Proof.
  intros S Hf. assert (Hx : forall p y, semas (on_sema n f s) !! p = Some y -> exists x, semas s !! p = Some x /\ y = if decide (p = n) then f x else x).
  { intros p y. cbn. case_decide as Hp; [subst p; rewrite lookup_alter_eq|rewrite lookup_alter_ne by done]; [|eauto]. destruct (semas s !! n) as [x|]; [|done]. intros [= <-]. eauto. }
  destruct S. constructor; try done.
  - intros p y Ey. destruct (Hx p y Ey) as (x & Ex & _). eauto.
  - intros t y p z Et Ew Ez. destruct (Hx p z Ez) as (x & Ex & _). eauto.
  - intros p y Ey Hne. destruct (Hx p y Ey) as (x & Ex & ->). case_decide as Hp; [subst p; by apply Hf|eauto].
  - intros p y Ey. destruct (Hx p y Ey) as (x & Ex & ->). case_decide as Hp; [subst p; by apply Hf|eauto].
  - intros p y Ey. destruct (Hx p y Ey) as (x & Ex & ->). case_decide as Hp; [subst p; by apply Hf|eauto].
  - intros p y Ey. destruct (Hx p y Ey) as (x & Ex & ->). pose proof (sw_active0 p x Ex) as Ha. case_decide as Hp; [subst p|done].
    destruct (Hf x Ex) as (Ho & Hact & _ & _ & _ & Hin). unfold owned_by. rewrite Hact, Ho. destruct (sem_active x); [done|]. split; [tauto|by apply Hin].
  - intros k tk p Ek Hp. destruct (sw_list0 k tk p Ek Hp) as (x & Ex & Hact & Ho). cbn. destruct (decide (p = n)) as [->|Hne].
    + rewrite lookup_alter_eq, Ex. exists (f x). destruct (Hf x Ex) as (-> & -> & _). done.
    + rewrite lookup_alter_ne by done. eauto.
Qed.

(** The tasks that are locked throughout. *)
Context {Lk : gset nat}.
Lemma on_sema_in n f s x : semas s !! n = Some x -> semas (on_sema n f s) !! n = Some (f x).
Proof. intros E. cbn. by rewrite lookup_alter_eq, E. Qed.
Lemma on_sema_out n f s p : p <> n -> semas (on_sema n f s) !! p = semas s !! p.
Proof. intros Hp. cbn. by rewrite lookup_alter_ne. Qed.
Lemma on_task_in k f s tk : stasks s !! k = Some tk -> stasks (on_task k f s) !! k = Some (f tk).
Proof. intros E. cbn. by rewrite lookup_alter_eq, E. Qed.
Lemma on_task_out k f s p : p <> k -> stasks (on_task k f s) !! p = stasks s !! p.
Proof. intros Hp. cbn. by rewrite lookup_alter_ne. Qed.
Lemma on_ws_id s : on_ws (fun w => w) s = s.
Proof. by destruct s. Qed.
Lemma on_sema_id n f s : (forall x, semas s !! n = Some x -> f x = x) -> on_sema n f s = s.
Proof.
  intros Hf. destruct s as [w se tk sh dp]. unfold on_sema, update. cbn in *. f_equal. apply map_eq. intros p.
  destruct (decide (p = n)) as [->|]; [|by rewrite lookup_alter_ne]. rewrite lookup_alter_eq. destruct (se !! n) as [x|] eqn:E; [|done]. cbn. f_equal. eauto.
Qed.

(** ** The lock of a semaphore *)
Definition lock_sema (n : nat) : st -> st := on_ws (on_queue n (qlock true)).
Lemma on_sema_lock n f p s : on_sema n f (lock_sema p s) = lock_sema p (on_sema n f s).
Proof. done. Qed.
Lemma swf_lock n s : swf ∅ Lk s -> swf {[n]} Lk (lock_sema n s).
Proof.
  intros S. pose proof (sw_kept _ _ _ S) as W. apply (swf_waits ∅ {[n]} Lk s (on_queue n (qlock true) (ws s))); [done| | | |].
  - replace {[n]} with ({[n]} ∪ ∅ : gset nat) by set_solver. by apply wf_lock_queue.
  - intros p wq Eq. destruct (decide (p = n)) as [->|Hp]; [exists (qlock true wq); by rewrite on_queue_lookup, Eq|exists wq; by rewrite on_queue_ne].
  - intros t y p x. apply (sw_event _ _ _ S).
  - intros p x Ex. rewrite waiters_locked. by apply (sw_sleepers _ _ _ S).
Qed.
Lemma wp_sema_enter {A} n x (m : MS T A) s Q :
  swf ∅ Lk s -> semas s !! n = Some x -> (swf {[n]} Lk (lock_sema n s) -> wp m Q (lock_sema n s)) -> wp (semaphore_lock n ;;; m) Q s.
Proof.
  intros S Ex Hm. apply wp_bind. unfold semaphore_lock. apply wp_waitq_do. destruct (sw_queue _ _ _ S n x Ex) as (_ & wq & Eq & _).
  eapply wp_waitq_lock; [done|eapply unlocked_queues; [apply S|done]|]. apply Hm. by apply swf_lock.
Qed.
(** Unlocking what another operation left. *)
Lemma wp_sema_unlock n wq s (Q : unit -> st -> Prop) :
  waitqs (ws s) !! n = Some wq -> waitq_locked wq = true -> Q tt (on_ws (on_queue n (qlock false)) s) -> wp (semaphore_unlock n) Q s.
Proof. intros E Hl HQ. unfold semaphore_unlock. apply wp_waitq_do. by eapply wp_waitq_unlock. Qed.
Lemma wp_sema_leave n x s (Q : unit -> st -> Prop) : swf ∅ Lk s -> semas s !! n = Some x -> Q tt s -> wp (semaphore_unlock n) Q (lock_sema n s).
Proof.
  intros S Ex HQ. destruct (sw_queue _ _ _ S n x Ex) as (_ & wq & Eq & _). eapply (wp_sema_unlock n (qlock true wq)); [by apply on_queue_in|done|].
  unfold lock_sema. rewrite on_ws_twice. replace (on_ws _ s) with s; [done|]. destruct s as [w se tk sh dp]. unfold on_ws, update. cbn in *. f_equal. symmetry. by eapply unlock_queue_id, S.
Qed.
Lemma sleepers_sema n f s : sleepers (on_sema n f s) = sleepers s.
Proof. done. Qed.

(** ** Threads woken from a semaphore *)
Lemma woken_nil q wq r (w : wst T) : waitqs w !! q = Some wq -> woken q [] (waitq_eventmask wq) r w = w.
Proof.
  intros E. unfold woken. rewrite filter_nil, add_work_nil. rewrite on_threads_id by set_solver.
  rewrite (on_queue_ext1 q wq _ (set_mask (waitq_eventmask wq))) by (done || by destruct wq). by apply set_mask_id.
Qed.
Lemma woken_none n wq r s : waitqs (ws s) !! n = Some wq -> on_ws (woken n [] (waitq_eventmask wq) r) s = s.
Proof. intros Eq. rewrite <- (on_ws_id s) at 2. unfold on_ws, update. cbn. f_equal. by apply woken_nil. Qed.
Lemma swf_woken n ts m r s : swf ∅ Lk s -> wf ∅ ∅ (woken n ts m r (ws s)) -> swf ∅ Lk (on_ws (woken n ts m r) s).
Proof.
  intros S W. apply (swf_waits ∅ ∅ Lk s (woken n ts m r (ws s))); [done|done| | |].
  - intros p wq Eq. change (waitqs (woken n ts m r (ws s))) with (waitqs (on_queue n (fun w => set_mask m (w <| waitq_queue ::= unlink_all ts |>)) (ws s))).
    destruct (decide (p = n)) as [->|Hp]; [rewrite on_queue_lookup, Eq; cbn; eauto|rewrite on_queue_ne by done; eauto].
  - intros t y p x. change (threads (woken n ts m r (ws s))) with (threads (on_threads (list_to_set ts) (fun y : thread T => result_is r (off y)) (ws s))). rewrite on_threads_lookup.
    destruct (threads (ws s) !! t) as [z|] eqn:Ez; [|done]. cbn. intros [= <-]. case_decide; [done|]. intros Ew Ex. by eapply (sw_event _ _ _ S).
  - intros p x Ex. rewrite waiters_woken by apply S. intros Hne. apply (sw_sleepers _ _ _ S _ _ Ex). unfold sleepers. intros Hn. by rewrite Hn in Hne.
Qed.

(** The units a semaphore has, and a semaphore that a signal found without waiters. *)
Definition units (x : semaphore) : Z := Z.max 0 (sem_count x).
Definition posted (prepost : bool) (x : semaphore) : semaphore := x <| sem_count := units x + (if prepost then 1 else 0) |>.
Lemma swf_posted b n x s : swf ∅ Lk s -> semas s !! n = Some x -> sem_active x = true -> sleepers s n = [] -> units x < 2 ^ 31 - 1 -> swf ∅ Lk (on_sema n (posted b) s).
Proof.
  intros S Ex Ha Hn Hu. apply swf_on_sema; [done|]. intros y Ey. assert (y = x) as -> by congruence. rewrite Hn. unfold units in Hu.
  pose proof (sw_ref _ _ _ S _ _ Ex). cbn. unfold units. split_and!; try done; [destruct b; lia..|congruence].
Qed.

(** ** Signals *)

(** Waking sleepers from within the lock; the last one or all of them are woken with the
    queue unlocked at the end, the first one with the queue kept locked. *)
Lemma lock_woken n ts m r (w : wst T) : woken n ts m r (on_queue n (qlock true) w) = on_queue n (qlock true) (woken n ts m r w).
Proof. unfold woken. wq_gather. by wq_gather. Qed.
Lemma own_queue n wq : waitq_irq wq = true -> safeq_of n wq = n.
Proof. unfold safeq_of. by intros ->. Qed.
Lemma wp_wake_one_keep n x r s (Q : Z -> st -> Prop) :
  swf ∅ Lk s -> semas s !! n = Some x ->
  (forall m, let ts := take 1 (sleepers s n) in let s' := on_ws (woken n ts m r) s in swf ∅ Lk s' -> Q (woken_if ts) (lock_sema n s')) ->
  wp (waitq_do (waitq_wakeup64_one_locked n SEMAPHORE_EVENT r false)) Q (lock_sema n s).
Proof.
  intros S Ex HQ. destruct (sw_queue _ _ _ S n x Ex) as (_ & wq & Eq & Ei). pose proof (sw_kept _ _ _ S) as W.
  apply wp_waitq_do. eapply wp_wakeup_one_locked; [apply (sw_kept _ _ _ (swf_lock n s S))|by apply may_use_locked|set_solver|].
  intros m. cbv zeta. change (ws (lock_sema n s)) with (on_queue n (qlock true) (ws s)). rewrite waiters_locked. unfold unlock_if, unlocked_if. rewrite own_queue, lock_woken by done.
  intros W'. apply (HQ m). apply swf_woken; [done|]. apply (wf_unlock_queue _ _ n) in W'. rewrite <- lock_woken in W'.
  pose proof (around_woken n n (take 1 (sleepers s n)) m r (ws s) W) as Ha. unfold unlock_if in Ha. fold (sleepers s n) in W'. rewrite Ha in W'.
  by replace (({[n]} : gset nat) ∖ {[n]}) with (∅ : gset nat) in W' by set_solver.
Qed.
(** The semaphore itself may have changed meanwhile. *)
Lemma wp_wake_all_unlock n x r s f (Q : Z -> st -> Prop) :
  swf ∅ Lk s -> semas s !! n = Some x -> (forall g, ws (f (on_ws g s)) = g (ws s)) -> (forall g h, on_ws g (f (on_ws h s)) = f (on_ws (fun w => g (h w)) s)) ->
  (forall m, let ts := sleepers s n in swf ∅ Lk (on_ws (woken n ts m r) s) -> Q (woken_if ts) (f (on_ws (woken n ts m r) s))) ->
  wp (waitq_do (waitq_wakeup64_all_locked n SEMAPHORE_EVENT r true)) Q (f (lock_sema n s)).
Proof.
  intros S Ex Hf Hf2 HQ. destruct (sw_queue _ _ _ S n x Ex) as (_ & wq & Eq & Ei). pose proof (sw_kept _ _ _ S) as W.
  apply wp_waitq_do. unfold lock_sema. rewrite Hf. eapply wp_wakeup_all_locked; [apply (sw_kept _ _ _ (swf_lock n s S))|by apply may_use_locked|set_solver|].
  intros m. cbv zeta. rewrite waiters_locked, around_woken, own_queue by done. unfold unlocked_if.
  replace (({[n]} : gset nat) ∖ {[n]}) with (∅ : gset nat) by set_solver. intros W'. rewrite Hf2. apply (HQ m). by apply swf_woken.
Qed.
Lemma wp_wake_thread_unlock n x t y r s (Q : Z -> st -> Prop) :
  swf ∅ Lk s -> semas s !! n = Some x -> threads (ws s) !! t = Some y ->
  (forall m, let ts := if decide (t ∈ sleepers s n) then [t] else [] in let s' := on_ws (woken n ts m r) s in swf ∅ Lk s' -> Q (woken_if ts) s') ->
  wp (waitq_do (waitq_wakeup64_thread_locked n SEMAPHORE_EVENT t r true)) Q (lock_sema n s).
Proof.
  intros S Ex Ey HQ. destruct (sw_queue _ _ _ S n x Ex) as (_ & wq & Eq & Ei). pose proof (sw_kept _ _ _ S) as W.
  assert (Hin : matches (ws s) n SEMAPHORE_EVENT t <-> t ∈ sleepers s n).
  { split; [|apply waiters_elem]. intros Hm. unfold sleepers, waiters. rewrite Eq, own_queue, Eq by done. apply list_elem_of_filter. split; [done|].
    unfold matches in Hm. rewrite Ey in Hm. rewrite (wf_queue _ _ _ W _ _ t Eq). exists y, n, wq. split_and!; [done|tauto|done|by apply own_queue]. }
  assert (He : ({[n]} : gset nat) ∖ {[n]} = ∅) by set_solver.
  apply wp_waitq_do. eapply wp_wakeup_thread_locked; [apply (sw_kept _ _ _ (swf_lock n s S))|by apply on_queue_in|done|set_solver|done|..].
  - intros m s' Hm W'. specialize (HQ m). rewrite (decide_True (P := t ∈ sleepers s n)) in HQ by (by apply Hin). unfold s' in *.
    change (ws (lock_sema n s)) with (on_queue n (qlock true) (ws s)) in W' |- *. rewrite around_woken in W' |- * by done. apply HQ. apply swf_woken; [done|]. unfold unlocked_if in W'. by rewrite He in W'.
  - intros Hm _. specialize (HQ (waitq_eventmask wq)). rewrite (decide_False (P := t ∈ sleepers s n)) in HQ by (by rewrite <- Hin).
    unfold unlock_if. change (ws (lock_sema n s)) with (on_queue n (qlock true) (ws s)). rewrite (unlock_queue_id ∅) by done. cbv zeta in HQ.
    rewrite (woken_none n wq) in HQ by done. change (on_ws (fun _ => ws s) (lock_sema n s)) with (on_ws (fun w => w) s). rewrite on_ws_id. by apply HQ.
Qed.

(** What a signal leaves: the threads it wakes are gone, and if it finds none the units
    are counted anew. *)
Definition signalled_state (n : nat) (prepost : bool) (m : Z) (s : st) : st :=
  on_ws (woken n (take 1 (sleepers s n)) m THREAD_AWAKENED) (if decide (sleepers s n = []) then on_sema n (posted prepost) s else s).
Lemma s32_small z : - 2 ^ 31 <= z < 2 ^ 31 -> s32 z = z.
Proof. apply s32_id. Qed.
Lemma count_of_units n x s : swf ∅ Lk s -> semas s !! n = Some x -> (sem_count x <? 0) = false -> units x = sem_count x.
Proof. intros _ _ Hc%Z.ltb_ge. unfold units. lia. Qed.
Lemma no_sleepers n x s : swf ∅ Lk s -> semas s !! n = Some x -> (sem_count x <? 0) = false -> sleepers s n = [].
Proof.
  intros S Ex Hc%Z.ltb_ge. destruct (sleepers s n) eqn:E; [done|]. assert (sleepers s n <> []) as Hne by (by rewrite E). apply (sw_sleepers _ _ _ S _ _ Ex) in Hne. lia.
Qed.
(** The last steps of a signal that wakes nobody. *)
Lemma wp_signal_none n x (b : bool) f s (Q : Z -> st -> Prop) :
  swf ∅ Lk s -> semas s !! n = Some x -> sem_active x = true -> sleepers s n = [] -> units x < 2 ^ 31 - 1 -> sem_count (f x) = units x -> f x = x <| sem_count := units x |> ->
  (swf ∅ Lk (on_sema n (posted b) s) -> Q KERN_NOT_WAITING (on_sema n (posted b) s)) ->
  wp (when b (sema_mod n (fun x => x <| sem_count ::= fun c => s32 (c + 1) |>)) ;;; semaphore_unlock n ;;; ret KERN_NOT_WAITING) Q (lock_sema n (on_sema n f s)).
Proof.
  intros S Ex Ha Hn Hu Hf Hfx HQ. pose proof (swf_posted b n x s S Ex Ha Hn Hu) as S'.
  assert (Hend : forall s', s' = on_sema n (posted b) s -> wp (semaphore_unlock n ;;; ret KERN_NOT_WAITING) Q (lock_sema n s')).
  { intros s' ->. apply wp_bind. eapply (wp_sema_leave n (posted b x)); [done|by apply on_sema_in|]. by apply wp_ret, HQ. }
  assert (Hsame : forall g, g x = posted b x -> on_sema n g s = on_sema n (posted b) s).
  { intros g Hg. unfold on_sema, update. cbn. f_equal. apply alter_same. intros v Ev. assert (v = x) as -> by congruence. done. }
  pose proof (sw_count _ _ _ S _ _ Ex) as Hc. unfold units in *. destruct b; cbn [when].
  - apply wp_bind. eapply (wp_sema_mod n (f x)); [by apply on_sema_in|]. unfold lock_sema. rewrite on_sema_ws. fold (lock_sema n (on_sema n (fun x => x <| sem_count ::= fun c => s32 (c + 1) |>) (on_sema n f s))).
    apply Hend. rewrite on_sema_twice. apply Hsame. cbn. rewrite Hfx. unfold posted, units, update. cbn. by rewrite s32_small by lia.
  - apply wp_bind, wp_ret. apply Hend. apply Hsame. rewrite Hfx. unfold posted, units, update. cbn. by rewrite Z.add_0_r.
Qed.
Lemma wp_signal_one n x options s (Q : Z -> st -> Prop) :
  swf ∅ Lk s -> semas s !! n = Some x -> sem_active x = true -> has options SEMAPHORE_SIGNAL_ALL = false -> units x < 2 ^ 31 - 1 ->
  (forall m, let s' := signalled_state n (has options SEMAPHORE_SIGNAL_PREPOST) m s in swf ∅ Lk s' -> Q (woken_if (take 1 (sleepers s n))) s') ->
  wp (semaphore_signal_internal n None options) Q s.
Proof.
  intros S Ex Ha Hall Hu HQ. unfold semaphore_signal_internal. eapply wp_sema_enter; [done..|]. intros _. apply wp_bind. eapply wp_sema_deref; [exact Ex|].
  rewrite Ha, Hall. cbn [negb]. set (b := has options SEMAPHORE_SIGNAL_PREPOST) in *. unfold signalled_state in HQ. apply wp_bind.
  destruct (sem_count x <? 0) eqn:Hc.
  - apply wp_bind. eapply wp_wake_one_keep; [done..|]. intros m. cbv zeta. intros S'. specialize (HQ m). cbv zeta in HQ.
    destruct (sleepers s n) as [|t l] eqn:El.
    + change (woken_if (take 1 [])) with KERN_NOT_WAITING in *. change (negb (KERN_NOT_WAITING =? KERN_SUCCESS)) with true. apply wp_bind. cbn [when].
      assert (Ex' : semas (on_ws (woken n (take 1 []) m THREAD_AWAKENED) s) !! n = Some x) by done.
      eapply (wp_sema_mod n x); [done|]. apply wp_ret. change (KERN_NOT_WAITING =? KERN_SUCCESS) with false. cbv iota.
      eapply (wp_signal_none n x b (fun x => x <| sem_count := 0 |>) (on_ws (woken n (take 1 []) m THREAD_AWAKENED) s)); [done|done|done| |done| | |].
      * unfold sleepers. cbn. rewrite waiters_woken by apply S. fold (sleepers s n). by rewrite El.
      * cbn. unfold units. apply Z.ltb_lt in Hc. lia.
      * unfold update. cbn. f_equal. unfold units. apply Z.ltb_lt in Hc. lia.
      * intros S2. rewrite decide_True in HQ by done. by apply HQ.
    + change (woken_if (take 1 (t :: l))) with KERN_SUCCESS in *. change (negb (KERN_SUCCESS =? KERN_SUCCESS)) with false. apply wp_bind, wp_ret, wp_ret. change (KERN_SUCCESS =? KERN_SUCCESS) with true. cbv iota.
      apply wp_bind. eapply wp_sema_leave; [done|exact Ex|]. apply wp_ret. rewrite decide_False in HQ by done. by apply HQ.
  - pose proof (no_sleepers n x s S Ex Hc) as Hn. rewrite Hn in HQ. apply wp_ret. change (KERN_NOT_WAITING =? KERN_SUCCESS) with false. cbv iota.
    destruct (sw_queue _ _ _ S n x Ex) as (_ & wq & Eq & _). specialize (HQ (waitq_eventmask wq)). rewrite decide_True in HQ by done. cbv zeta in HQ. cbn [take] in HQ.
    rewrite (woken_none n wq) in HQ by done. replace (lock_sema n s) with (lock_sema n (on_sema n (fun x => x) s)) by (by rewrite on_sema_id).
    eapply (wp_signal_none n x b (fun x => x)); [done..|symmetry; by eapply count_of_units| |done]. rewrite (count_of_units n x s) by done. by destruct x.
Qed.

Lemma wp_signal_all n x options s (Q : Z -> st -> Prop) :
  swf ∅ Lk s -> semas s !! n = Some x -> sem_active x = true -> has options SEMAPHORE_SIGNAL_ALL = true -> has options SEMAPHORE_SIGNAL_PREPOST = false ->
  (forall m kr, let s' := on_ws (woken n (sleepers s n) m THREAD_AWAKENED) (on_sema n (posted false) s) in
     swf ∅ Lk s' -> kr = KERN_SUCCESS \/ (kr = KERN_NOT_WAITING /\ sleepers s n = []) -> Q kr s') ->
  wp (semaphore_signal_internal n None options) Q s.
Proof.
  intros S Ex Ha Hall Hpre HQ. unfold semaphore_signal_internal. eapply wp_sema_enter; [done..|]. intros _. apply wp_bind. eapply wp_sema_deref; [exact Ex|].
  rewrite Ha, Hall, Hpre. cbn [negb when]. destruct (sem_count x <? 0) eqn:Hc.
  - apply wp_bind. eapply (wp_sema_mod n x); [exact Ex|]. eapply (wp_wake_all_unlock n x THREAD_AWAKENED s (on_sema n _)); [done|done|done|done|].
    intros m. cbv zeta. intros S'. specialize (HQ m (woken_if (sleepers s n))). cbv zeta in HQ.
    assert (Hsame : forall s2, semas s2 = semas s -> on_sema n (fun x => x <| sem_count := 0 |>) s2 = on_sema n (posted false) s2).
    { intros s2 E2. unfold on_sema, update. cbn. f_equal. rewrite E2. apply alter_same. intros v Ev. assert (v = x) as -> by congruence.
      unfold posted, units, update. cbn. f_equal. apply Z.ltb_lt in Hc. lia. }
    rewrite Hsame by done. rewrite on_sema_ws in *. apply HQ.
    + rewrite <- on_sema_ws. apply (swf_posted false n x); [done|exact Ex|done| |unfold units; apply Z.ltb_lt in Hc; lia].
      unfold sleepers. cbn. rewrite waiters_woken by apply S. apply filter_notin_self.
    + unfold woken_if. case_decide; [by right|by left].
  - pose proof (no_sleepers n x s S Ex Hc) as Hn. destruct (sw_queue _ _ _ S n x Ex) as (_ & wq & Eq & _). specialize (HQ (waitq_eventmask wq) KERN_SUCCESS). rewrite Hn in HQ. cbv zeta in HQ.
    rewrite (on_sema_id n (posted false) s) in HQ.
    2:{ intros v Ev. assert (v = x) as -> by congruence. unfold posted. rewrite (count_of_units n x s), Z.add_0_r by done. by destruct x. }
    rewrite (woken_none n wq) in HQ by done. apply wp_bind, wp_ret. apply wp_bind. eapply wp_sema_leave; [done..|]. apply wp_ret. apply HQ; [done|by left].
Qed.
Lemma wp_signal_thread n x t y options s (Q : Z -> st -> Prop) :
  swf ∅ Lk s -> semas s !! n = Some x -> sem_active x = true -> threads (ws s) !! t = Some y ->
  (forall m, let ts := if decide (t ∈ sleepers s n) then [t] else [] in let s' := on_ws (woken n ts m THREAD_AWAKENED) s in swf ∅ Lk s' -> Q (woken_if ts) s') ->
  wp (semaphore_signal_internal n (Some t) options) Q s.
Proof.
  intros S Ex Ha Ey HQ. unfold semaphore_signal_internal. eapply wp_sema_enter; [done..|]. intros _. apply wp_bind. eapply wp_sema_deref; [exact Ex|].
  rewrite Ha. cbn [negb]. destruct (sem_count x <? 0) eqn:Hc; [by eapply wp_wake_thread_unlock|].
  pose proof (no_sleepers n x s S Ex Hc) as Hn. destruct (sw_queue _ _ _ S n x Ex) as (_ & wq & Eq & _). specialize (HQ (waitq_eventmask wq)).
  rewrite decide_False in HQ by (rewrite Hn; apply not_elem_of_nil). cbv zeta in HQ. apply wp_bind. eapply wp_sema_leave; [done..|]. apply wp_ret.
  rewrite (woken_none n wq) in HQ by done. by apply HQ.
Qed.
Lemma wp_signal_dead n x thread options s (Q : Z -> st -> Prop) :
  swf ∅ Lk s -> semas s !! n = Some x -> sem_active x = false -> Q KERN_TERMINATED s -> wp (semaphore_signal_internal n thread options) Q s.
Proof.
  intros S Ex Ha HQ. unfold semaphore_signal_internal. eapply wp_sema_enter; [done..|]. intros _. apply wp_bind. eapply wp_sema_deref; [exact Ex|].
  rewrite Ha. cbn [negb]. apply wp_bind. by eapply wp_sema_leave; [done..|].
Qed.

(** ** Waits *)
Definition hinted (y : thread T) : thread T := y <| t_pending_block_hint := kThreadWaitSemaphore |>.
(** Thread [t] has asserted its wait on the semaphore. *)
Definition enrolled (n : nat) (wq : waitq) (deadline : Z) (t : nat) (y : thread T) (s : st) : st :=
  on_ws (fun w => asserted n wq SEMAPHORE_EVENT deadline t (hinted y) (on_threads {[t]} hinted w)) (on_sema n (fun x => x <| sem_count := -1 |>) s).

Lemma asserted_locked n wq e d t y (w : wst T) :
  waitq_irq wq = true -> asserted n (qlock true wq) e d t y (on_queue n (qlock true) w) = on_queue n (qlock true) (asserted n wq e d t y w).
Proof.
  intros Hi. unfold asserted. cbv zeta. rewrite (own_queue n wq), (own_queue n (qlock true wq)) by done. wq_gather. by wq_gather.
Qed.
Lemma swf_enrolled n x wq d t y s :
  swf ∅ Lk s -> semas s !! n = Some x -> sem_active x = true -> waitqs (ws s) !! n = Some wq -> threads (ws s) !! t = Some y -> t_waitq y = None ->
  swf ∅ Lk (enrolled n wq d t y s).
Proof.
  intros S Ex Ha Eq Ey Hy. pose proof (sw_kept _ _ _ S) as W. destruct (sw_queue _ _ _ S n x Ex) as (_ & wq0 & Eq0 & Hi). assert (wq0 = wq) as -> by congruence.
  set (s1 := on_sema n (fun x => x <| sem_count := -1 |>) s).
  assert (S1 : swf ∅ Lk s1).
  { apply swf_on_sema; [done|]. intros v Ev. assert (v = x) as -> by congruence. pose proof (sw_ref _ _ _ S _ _ Ex). cbn. split_and!; try done; lia || congruence. }
  set (w1 := on_threads {[t]} hinted (ws s)). assert (W1 : wf ∅ ∅ w1) by (by apply wf_inner).
  assert (E1 : threads w1 !! t = Some (hinted y)) by (unfold w1; look).
  set (w2 := asserted n wq SEMAPHORE_EVENT d t (hinted y) w1). assert (W2 : wf ∅ ∅ w2) by (by apply wf_asserted).
  assert (Hth : forall u z, threads w2 !! u = Some z -> (u = t /\ t_waitq z = Some n /\ t_wait_event z = SEMAPHORE_EVENT) \/ (u <> t /\ threads (ws s) !! u = Some z)).
  { intros u z. unfold w2, asserted. cbv zeta. destruct (decide (u = t)) as [->|Hu].
    - rewrite (on_threads_in _ _ (on_queue (safeq_of n wq) (joined (safeq_of n wq) t (hinted y) (mask_of n wq SEMAPHORE_EVENT)) w1) t (hinted y) E1) by set_solver. intros [= <-].
      destruct (parked_fields n SEMAPHORE_EVENT d (hinted y)) as (Hq & He & _). by left.
    - rewrite on_threads_out by set_solver. change (threads (on_queue ?q ?f w1)) with (threads w1). unfold w1. rewrite on_threads_out by set_solver. by right. }
  eapply (swf_waits ∅ ∅ Lk s1 w2); [done|done| | |].
  - intros p v Ev. unfold w2, asserted. cbv zeta. change (waitqs (on_threads ?ts ?f ?w)) with (waitqs w). destruct (decide (p = safeq_of n wq)) as [->|Hp].
    + eexists. split; [by apply on_queue_in|done].
    + exists v. by rewrite on_queue_ne.
  - intros u z p v Ez Hz Ev. destruct (Hth u z Ez) as [(-> & Hn & He)|(Hu & Ez')]; [done|]. by eapply (sw_event _ _ _ S1).
  - intros p v Ev. unfold w2. rewrite waiters_asserted by done. case_decide as Hd.
    + destruct Hd as [-> _]. intros _. unfold s1 in Ev. rewrite (on_sema_in _ _ _ _ Ex) in Ev. by injection Ev as <-.
    + unfold w1. rewrite waiters_threads by done. by apply (sw_sleepers _ _ _ S1).
Qed.
Lemma sleepers_enrolled n x wq d t y s p :
  swf ∅ Lk s -> semas s !! n = Some x -> waitqs (ws s) !! n = Some wq -> threads (ws s) !! t = Some y -> t_waitq y = None ->
  sleepers (enrolled n wq d t y s) p =
  if decide (p = n) then if waits_fifo wq y then sleepers s p ++ [t] else t :: sleepers s p else sleepers s p.
Proof.
  intros S Ex Eq Ey Hy. pose proof (sw_kept _ _ _ S) as W. destruct (sw_queue _ _ _ S n x Ex) as (_ & wq0 & Eq0 & Hi). assert (wq0 = wq) as -> by congruence.
  unfold sleepers, enrolled. cbn. rewrite waiters_asserted; [|by apply wf_inner|look|done|done]. rewrite own_queue by done. change (waitqs (on_threads ?ts ?f ?w)) with (waitqs w). rewrite Eq. cbn [from_option].
  rewrite waiters_threads by done. destruct (decide (p = n)) as [->|Hp]; [by rewrite decide_True|by rewrite decide_False by tauto].
Qed.

Lemma wp_wait_begin n x t y d option s (Q : Z -> st -> Prop) :
  swf ∅ Lk s -> semas s !! n = Some x -> threads (ws s) !! t = Some y -> t_waitq y = None ->
  (sem_active x = false -> Q KERN_TERMINATED s) ->
  (sem_active x = true -> 0 < sem_count x -> let s' := on_sema n (fun x => x <| sem_count ::= fun c => c - 1 |>) s in swf ∅ Lk s' -> Q KERN_SUCCESS s') ->
  (sem_active x = true -> sem_count x <= 0 -> has option SEMAPHORE_TIMEOUT_NOBLOCK = true -> Q KERN_OPERATION_TIMED_OUT s) ->
  (forall wq, sem_active x = true -> sem_count x <= 0 -> has option SEMAPHORE_TIMEOUT_NOBLOCK = false -> waitqs (ws s) !! n = Some wq ->
     let s' := enrolled n wq d t y s in swf ∅ Lk s' -> Q KERN_ALREADY_WAITING s') ->
  wp (semaphore_wait_begin t n d option) Q s.
Proof.
  intros S Ex Ey Hy Hdead Hgot Hno Hwait. unfold semaphore_wait_begin. eapply wp_sema_enter; [done..|]. intros SL. apply wp_bind. eapply wp_sema_deref; [exact Ex|]. apply wp_bind.
  destruct (sem_active x) eqn:Ha; cbn [negb]; [|apply wp_ret, wp_bind; eapply wp_sema_leave; [done..|]; by apply wp_ret, Hdead].
  destruct (Z.ltb_spec 0 (sem_count x)) as [Hc|Hc].
  { apply wp_bind. eapply (wp_sema_mod n x); [exact Ex|]. apply wp_ret, wp_bind. rewrite on_sema_lock.
    assert (S' : swf ∅ Lk (on_sema n (fun x => x <| sem_count ::= fun c => c - 1 |>) s)).
    { apply swf_on_sema; [done|]. intros v Ev. assert (v = x) as -> by congruence. pose proof (sw_count _ _ _ S _ _ Ex). pose proof (sw_ref _ _ _ S _ _ Ex). cbn.
      split_and!; try done; try lia; [|congruence]. intros Hn. pose proof (sw_sleepers _ _ _ S _ _ Ex Hn). lia. }
    eapply (wp_sema_leave n _ (on_sema n _ s)); [done|by apply on_sema_in|]. apply wp_ret. by apply Hgot. }
  destruct (has option SEMAPHORE_TIMEOUT_NOBLOCK) eqn:Hb; [apply wp_ret, wp_bind; eapply wp_sema_leave; [done..|]; by apply wp_ret, Hno|].
  destruct (sw_queue _ _ _ S n x Ex) as (_ & wq & Eq & Hi). pose proof (sw_kept _ _ _ S) as W.
  apply wp_bind. eapply (wp_sema_mod n x); [exact Ex|]. rewrite on_sema_lock. set (s1 := on_sema n _ s). apply wp_bind, wp_waitq_do. unfold thread_set_pending_block_hint.
  change (ws (lock_sema n s1)) with (on_queue n (qlock true) (ws s)). eapply (wp_thread_mod t _ y); [exact Ey|]. apply wp_bind, wp_waitq_do.
  change (ws (on_ws (fun _ => ?w) ?s)) with w. change (fun y0 : thread T => y0 <| t_pending_block_hint := kThreadWaitSemaphore |>) with hinted.
  set (w1 := on_threads {[t]} hinted (ws s)). change (on_threads {[t]} hinted (on_queue n (qlock true) (ws s))) with (on_queue n (qlock true) w1).
  assert (W1 : wf ∅ ∅ w1) by (by apply wf_inner). destruct (may_use_locked n wq w1 W1 Eq) as [Eq' Hirq].
  eapply (wp_assert_wait_locked {[n]} ∅); [|unfold w1; look|done|set_solver|done|done|].
  { replace {[n]} with ({[n]} ∪ ∅ : gset nat) by set_solver. by apply wf_lock_queue. }
  rewrite asserted_locked by done. apply wp_ret, wp_bind. set (w2 := asserted n wq SEMAPHORE_EVENT d t (hinted y) w1).
  pose proof (swf_enrolled n x wq d t y s S Ex Ha Eq Ey Hy) as S2.
  change (on_ws (fun _ => on_queue n (qlock true) w2) _) with (lock_sema n (enrolled n wq d t y s)).
  eapply (wp_sema_leave n); [done|unfold enrolled; by apply on_sema_in|]. apply wp_ret. by apply Hwait.
Qed.

Lemma swf_inner f t s : inner f -> swf ∅ Lk s -> swf ∅ Lk (on_ws (on_threads {[t]} f) s).
Proof.
  intros Hf S. apply (swf_waits ∅ ∅ Lk s (on_threads {[t]} f (ws s))); [done|by apply wf_inner, S|intros n wq Eq; by exists wq| |].
  - intros u z n x Ez Hz Ex. rewrite on_threads_lookup in Ez. destruct (threads (ws s) !! u) as [y|] eqn:Ey; [|done]. cbn in Ez. injection Ez as <-.
    revert Hz. case_decide; intros Hz; [|by eapply (sw_event _ _ _ S)]. destruct (Hf y) as [Hw _]. injection Hw as Hw He. rewrite He. apply (sw_event _ _ _ S u y n x Ey); [congruence|done].
  - intros n x Ex. rewrite waiters_threads by (intros u y _ _; apply Hf). by apply (sw_sleepers _ _ _ S).
Qed.
(** The thread has gone to sleep on the semaphore. *)
Definition parked (n : nat) (wq : waitq) (d : Z) (cont : bool) (t : nat) (y : thread T) (s : st) : st :=
  on_ws (on_threads {[t]} (suspended cont)) (enrolled n wq d t y s).
Lemma enrolled_thread n wq d t y s : threads (ws s) !! t = Some y -> threads (ws (enrolled n wq d t y s)) !! t = Some (parked_at n SEMAPHORE_EVENT d (hinted y)).
Proof. intros Ey. unfold enrolled, asserted. cbn [ws on_ws]. cbv zeta. change (ws (on_ws ?f ?s)) with (f (ws s)). cbv beta. look. Qed.
Lemma wp_wait_none n x t y d option s (Q : Datatypes.option Z -> st -> Prop) :
  swf ∅ Lk s -> semas s !! n = Some x -> threads (ws s) !! t = Some y -> t_waitq y = None ->
  (sem_active x = false -> Q (Some KERN_TERMINATED) s) ->
  (sem_active x = true -> 0 < sem_count x -> let s' := on_sema n (fun x => x <| sem_count ::= fun c => c - 1 |>) s in swf ∅ Lk s' -> Q (Some KERN_SUCCESS) s') ->
  (sem_active x = true -> sem_count x <= 0 -> has option SEMAPHORE_TIMEOUT_NOBLOCK = true -> Q (Some KERN_OPERATION_TIMED_OUT) s) ->
  (forall wq, sem_active x = true -> sem_count x <= 0 -> has option SEMAPHORE_TIMEOUT_NOBLOCK = false -> waitqs (ws s) !! n = Some wq ->
     let s' := parked n wq d false t y s in swf ∅ Lk s' -> Q None s') ->
  wp (semaphore_wait_kernel t n None d option) Q s.
Proof.
  intros S Ex Ey Hy Hdead Hgot Hno Hwait. unfold semaphore_wait_kernel, semaphore_wait_internal. apply wp_bind, wp_bind.
  eapply wp_wait_begin; [done..| | | |]; intros; cbn [semaphore_wait_signals]; apply wp_bind, wp_ret; [by apply wp_ret, Hdead|by apply wp_ret, Hgot|by apply wp_ret, Hno|].
  rename select (swf _ _ s') into S'. change (negb (KERN_ALREADY_WAITING =? KERN_ALREADY_WAITING)) with false. cbn [when]. apply wp_bind, wp_ret, wp_bind, wp_waitq_do.
  eapply wp_thread_block; [apply S'|by apply enrolled_thread|]. destruct (parked_fields n SEMAPHORE_EVENT d (hinted y)) as (_ & _ & _ & -> & _). change (has TH_WAIT TH_WAIT) with true. cbv iota.
  intros w' W'. apply wp_ret. eapply Hwait; [done..|]. apply swf_inner; [apply inner_suspended|done].
Qed.
Lemma sleepers_parked n wq d cont t y s p : sleepers (parked n wq d cont t y s) p = sleepers (enrolled n wq d t y s) p.
Proof. unfold sleepers, parked. change (ws (on_ws ?f ?s)) with (f (ws s)). apply waiters_threads. intros u z _ _. apply inner_suspended. Qed.
Lemma asserted_dom q wq e d t y (w : wst T) : dom (threads (asserted q wq e d t y w)) = dom (threads w).
Proof. unfold asserted. cbv zeta. by rewrite dom_on_threads. Qed.
Lemma enrolled_dom n wq d t y s : dom (threads (ws (enrolled n wq d t y s))) = dom (threads (ws s)).
Proof. etransitivity; [apply (asserted_dom n wq _ d t (hinted y) (on_threads {[t]} hinted (ws s)))|]. apply dom_on_threads. Qed.
Lemma parked_dom n wq d cont t y s : dom (threads (ws (parked n wq d cont t y s))) = dom (threads (ws s)).
Proof. etransitivity; [apply (dom_on_threads {[t]} (suspended cont) (ws (enrolled n wq d t y s)))|]. apply enrolled_dom. Qed.
End SemaProps.
End SemaProps.
