(* ===== verification/SemaSpec.v ===== *)
(** * What semaphores promise

    The abstract semaphore, a number of units and a list of sleepers, its refinement
    by [Sema], conservation of units over all sequences of operations, and the life of
    a semaphore: creation, references, destruction. *)
From S2P Require Import Prelude WaitQ WaitQProps Blocking WaitSpec WaitRuns Sema SemaProps.

Module SemaSpec.
Export WaitRuns SemaProps.

(** ** The abstract semaphore *)
Definition asem : Type := Z * list nat.
(** Up, up for all sleepers, up for one thread; down, and down without blocking; and the
    end of a sleeper's wait by a time-out or an interruption. *)
Inductive sem_op :=
| Up
| UpAll
| UpThread (t : nat)
| Down (t : nat)
| TryDown (t : nat)
| GiveUp (t : nat) (r : Z).
Definition next (o : sem_op) (a : asem) : asem :=
  let '(u, l) := a in
  match o with
  | Up => match l with [] => (u + 1, []) | _ :: l => (u, l) end
  | UpAll => (u, [])
  | UpThread t => (u, unlink t l)
  | Down t => if 0 <? u then (u - 1, l) else (u, l ++ [t])
  | TryDown t => if 0 <? u then (u - 1, l) else (u, l)
  | GiveUp t _ => (u, unlink t l)
  end.
(** Who is set running, and with which result. *)
Definition released (o : sem_op) (a : asem) : list nat :=
  let '(u, l) := a in
  match o with
  | Up => take 1 l
  | UpAll => l
  | UpThread t => if decide (t ∈ l) then [t] else []
  | Down _ | TryDown _ => []
  | GiveUp t _ => [t]
  end.
Definition release_result (o : sem_op) : Z := match o with GiveUp _ r => r | _ => THREAD_AWAKENED end.
(** What the caller gets; [None] if it blocks. *)
Definition answer (o : sem_op) (a : asem) : option Z :=
  let '(u, l) := a in
  match o with
  | Up | UpAll | GiveUp _ _ => Some KERN_SUCCESS
  | UpThread t => Some (if decide (t ∈ l) then KERN_SUCCESS else KERN_NOT_WAITING)
  | Down t => if 0 <? u then Some KERN_SUCCESS else None
  | TryDown t => Some (if 0 <? u then KERN_SUCCESS else KERN_OPERATION_TIMED_OUT)
  end.

Section SemaSpec.
Context {T : Type} `{TimerCall T} `{Kernel} `{SemaEnv}.
Notation st := (sst T).
Implicit Types s : st.
Implicit Types x : semaphore.

Definition view (s : st) (n : nat) : option asem :=
  match semas s !! n with Some x => if sem_active x then Some (units x, sleepers s n) else None | None => None end.
Definition run_sem (n : nat) (o : sem_op) : MS T (option Z) :=
  match o with
  | Up => kr <- semaphore_signal (Some n) ;; ret (Some kr)
  | UpAll => kr <- semaphore_signal_all (Some n) ;; ret (Some kr)
  | UpThread t => kr <- semaphore_signal_thread (Some n) (Some t) ;; ret (Some kr)
  | Down t => semaphore_wait t (Some n)
  | TryDown t => semaphore_wait_noblock t (Some n)
  | GiveUp t r => kr <- waitq_do (clear_wait t r) ;; ret (Some kr)
  end.
(** What the callers owe: there is room for one more unit; the thread that waits is not
    waiting yet, and the semaphore serves it in turn; the thread that gives up sleeps. *)
Definition may_call (s : st) (n : nat) (o : sem_op) : Prop :=
  match o with
  | Up => forall x, semas s !! n = Some x -> units x < 2 ^ 31 - 1
  | UpAll => True
  | UpThread t => is_Some (threads (ws s) !! t)
  | Down t | TryDown t => exists y wq, threads (ws s) !! t = Some y /\ t_waitq y = None /\ waitqs (ws s) !! n = Some wq /\ waits_fifo wq y = true
  | GiveUp t r => exists y, threads (ws s) !! t = Some y /\ t_state y = TH_WAIT /\ t ∈ sleepers s n
  end.
(** The references to a semaphore; a step that drops at most one, of [d], and keeps what
    blocked threads hold. *)
Definition refs (s : st) (n : nat) : Z := from_option sem_ref_count 0 (semas s !! n).
Definition frugal (d : option nat) (s s' : st) : Prop := sth s' = sth s /\ forall p, refs s p - (if decide (d = Some p) then 1 else 0) <= refs s' p.
Record conforms (n : nat) (o : sem_op) (a : asem) (s : st) (r : option Z) (s' : st) : Prop := {
  cf_swf : swf ∅ ∅ s';
  cf_view : view s' n = Some (next o a);
  cf_others p : p <> n -> view s' p = view s p;
  cf_answer : r = answer o a;
  cf_work : workq (ws s') = workq (ws s) ++ filter (is_suspended (ws s)) (released o a);
  cf_dom : dom (threads (ws s')) = dom (threads (ws s));
  cf_frugal : frugal None s s';
  cf_result t y : t ∈ released o a -> threads (ws s') !! t = Some y -> t_wait_result y = release_result o /\ t_waitq y = None;
}.

Lemma view_active s n u l : view s n = Some (u, l) -> exists x, semas s !! n = Some x /\ sem_active x = true /\ units x = u /\ sleepers s n = l.
Proof. unfold view. destruct (semas s !! n) as [x|]; [|done]. destruct (sem_active x) eqn:Ha; [|done]. intros [= <- <-]. by exists x. Qed.
Lemma view_of s n x : semas s !! n = Some x -> sem_active x = true -> view s n = Some (units x, sleepers s n).
Proof. intros E Ha. unfold view. by rewrite E, Ha. Qed.
(** A semaphore that is not touched looks the same. *)
Lemma view_other s s' p : semas s' !! p = semas s !! p -> (is_Some (semas s !! p) -> sleepers s' p = sleepers s p) -> view s' p = view s p.
Proof. intros E Hs. unfold view. rewrite E. destruct (semas s !! p) as [x|]; [|done]. rewrite Hs by eauto. done. Qed.
Lemma sleepers_woken n ts m r s p : swf ∅ ∅ s -> sleepers (on_ws (woken n ts m r) s) p = filter (fun t => t ∉ ts) (sleepers s p).
Proof. intros S. unfold sleepers. cbn. apply waiters_woken, S. Qed.
Lemma sleepers_apart s p n t : t ∈ sleepers s n -> t ∈ sleepers s p -> p = n.
Proof. intros Hn Hp. by destruct (waiters_other (waiters (ws s)) (ws s) n SEMAPHORE_EVENT p SEMAPHORE_EVENT t (fun _ _ => eq_refl) Hn Hp). Qed.
Lemma sleepers_others n ts m r s p : swf ∅ ∅ s -> (forall t, t ∈ ts -> t ∈ sleepers s n) -> p <> n -> sleepers (on_ws (woken n ts m r) s) p = sleepers s p.
Proof. intros S Hts Hp. rewrite sleepers_woken by done. apply filter_all. intros u Hu Hin. apply Hp. eapply sleepers_apart; [by apply Hts|done]. Qed.
Lemma sleepers_nodup s n : swf ∅ ∅ s -> NoDup (sleepers s n).
Proof. intros S. eapply waiters_nodup, S. Qed.

Lemma frugal_same d s s' : semas s' = semas s -> sth s' = sth s -> frugal d s s'.
Proof. intros Es Eh. split; [done|]. intros p. unfold refs. rewrite Es. case_decide; lia. Qed.
Lemma frugal_sema d n f s s' : semas s' = alter f n (semas s) -> sth s' = sth s -> (forall x, semas s !! n = Some x -> sem_ref_count x - (if decide (d = Some n) then 1 else 0) <= sem_ref_count (f x)) -> frugal d s s'.
Proof.
  intros Es Eh Hf. split; [done|]. intros p. unfold refs. rewrite Es. destruct (decide (p = n)) as [->|Hp]; [|rewrite lookup_alter_ne by done; destruct (decide (d = Some p)); lia].
  rewrite lookup_alter_eq. destruct (semas s !! n) as [x|] eqn:Ex; [by apply Hf|]. change (0 - (if decide (d = Some n) then 1 else 0) <= 0). destruct (decide (d = Some n)); lia.
Qed.
Lemma frugal_trans d s1 s2 s3 : frugal None s1 s2 -> frugal d s2 s3 -> frugal d s1 s3.
Proof. intros [E1 F1] [E2 F2]. split; [congruence|]. intros p. specialize (F1 p). specialize (F2 p). rewrite decide_False in F1 by done. lia. Qed.

(** Signals, by what they leave. *)
Lemma conforms_woken n x o a s ts m r f kr :
  swf ∅ ∅ s -> semas s !! n = Some x -> sem_active x = true -> a = (units x, sleepers s n) ->
  swf ∅ ∅ (on_ws (woken n ts m r) (on_sema n f s)) -> sem_active (f x) = true -> sem_ref_count (f x) = sem_ref_count x -> (forall t, t ∈ ts -> t ∈ sleepers s n) ->
  (units (f x), filter (fun t => t ∉ ts) (sleepers s n)) = next o a -> kr = answer o a -> ts = released o a -> r = release_result o ->
  conforms n o a s kr (on_ws (woken n ts m r) (on_sema n f s)).
Proof.
  intros S Ex Ha Hav S' Hfa Hfr Hts Hnext Hkr Hrel Hr. constructor; [done| | |done| |exact (dom_on_threads _ _ (ws s))| |].
  - rewrite (view_of _ n (f x)); [|by apply on_sema_in|done]. rewrite <- Hnext. do 2 f_equal. change (on_ws (woken n ts m r) (on_sema n f s)) with (on_sema n f (on_ws (woken n ts m r) s)).
    rewrite sleepers_sema. by apply sleepers_woken.
  - intros p Hp. apply view_other; [by apply on_sema_out|]. intros _. change (on_ws (woken n ts m r) (on_sema n f s)) with (on_sema n f (on_ws (woken n ts m r) s)).
    rewrite sleepers_sema. by apply sleepers_others.
  - by rewrite <- Hrel.
  - apply (frugal_sema None n f); [done..|]. intros y Ey. assert (y = x) as -> by congruence. rewrite Hfr. destruct (decide _); lia.
  - intros t y. rewrite <- Hrel, <- Hr. apply woken_result.
Qed.

(** The end of a sleeper's wait. *)
Lemma sleepers_cleared t y r s p :
  swf ∅ ∅ s -> threads (ws s) !! t = Some y -> t_state y = TH_WAIT ->
  sleepers (on_ws (fun w => snd (cleared t r w)) s) p = unlink t (sleepers s p).
Proof.
  intros S Ey Hst. unfold sleepers. cbn. unfold cleared. rewrite Ey, Hst. change (has TH_WAIT TH_UNINT) with false. rewrite andb_false_r.
  change (Z.land TH_WAIT (Z.lor TH_WAIT TH_TERMINATE) =? TH_WAIT) with true. cbv iota. cbn [snd]. rewrite waiters_work, waiters_threads by done. apply waiters_leave, S.
Qed.
Lemma cleared_queue t r (w : wst T) n wq : waitqs w !! n = Some wq -> exists wq', waitqs (snd (cleared t r w)) !! n = Some wq' /\ waitq_irq wq' = waitq_irq wq.
Proof.
  intros Eq. assert (Hu : exists wq', waitqs (unqueued t w) !! n = Some wq' /\ waitq_irq wq' = waitq_irq wq).
  { unfold unqueued. destruct (threads w !! t) as [y|]; [|eauto]. destruct (t_waitq y) as [q|]; [|eauto]. destruct (waitqs w !! q) as [v|]; [|eauto].
    change (waitqs (on_threads ?ts ?f ?w)) with (waitqs w). destruct (decide (n = safeq_of q v)) as [->|Hn]; [eexists; split; [by apply on_queue_in|done]|exists wq; by rewrite on_queue_ne]. }
  unfold cleared. destruct (threads w !! t) as [y|]; [|eauto]. destruct (_ && _); [eauto|]. by destruct (_ =? TH_WAIT).
Qed.
Lemma cleared_thread_back t r (w : wst T) u z : threads (snd (cleared t r w)) !! u = Some z -> exists y, threads w !! u = Some y /\ (waits_for z = waits_for y \/ t_waitq z = None).
Proof.
  unfold cleared. destruct (threads w !! t) as [x|] eqn:Ex; [|eauto]. destruct (_ && _); [eauto|].
  assert (Hb : forall z0, threads (unqueued t w) !! u = Some z0 -> exists y, threads w !! u = Some y /\ (waits_for z0 = waits_for y \/ t_waitq z0 = None)).
  { intros z0 Ez. destruct (unqueued_back t w u z0 Ez) as (y & Ey & [->|[_ ->]]); exists y; auto. }
  destruct (_ =? TH_WAIT); cbn [snd]; [|apply Hb]. change (threads (add_work ?l ?w)) with (threads w). rewrite on_threads_lookup.
  destruct (threads (unqueued t w) !! u) as [z0|] eqn:Ez0; [|done]. intros [= <-]. destruct (Hb z0 eq_refl) as (y & Ey & Hc). exists y. split; [done|]. by case_decide.
Qed.
Lemma swf_cleared t y r s : swf ∅ ∅ s -> threads (ws s) !! t = Some y -> t_state y = TH_WAIT -> swf ∅ ∅ (on_ws (fun w => snd (cleared t r w)) s).
Proof.
  intros S Ey Hst. apply (swf_waits ∅ ∅ ∅ s (snd (cleared t r (ws s)))); [done|apply wf_cleared, S| | |].
  - intros n wq. apply cleared_queue.
  - intros u z n x Ez Hz Ex. destruct (cleared_thread_back _ _ _ _ _ Ez) as (v & Ev & [Hw|?]); [|congruence]. injection Hw as Hw He. rewrite He.
    apply (sw_event _ _ _ S u v n x Ev); [congruence|done].
  - intros n x Ex. pose proof (sleepers_cleared t y r s n S Ey Hst) as Hs. unfold sleepers in Hs. cbn in Hs. rewrite Hs. intros Hne. apply (sw_sleepers _ _ _ S _ _ Ex).
    unfold sleepers. intros Hn. by rewrite Hn in Hne.
Qed.
Lemma conforms_giveup n t r a s :
  swf ∅ ∅ s -> view s n = Some a -> may_call s n (GiveUp t r) -> wp (run_sem n (GiveUp t r)) (conforms n (GiveUp t r) a s) s.
Proof.
  intros S Hv (y & Ey & Hst & Hin). destruct a as [u l]. destruct (view_active _ _ _ _ Hv) as (x & Ex & Ha & Hu & Hl). cbn [run_sem].
  apply wp_bind, wp_waitq_do. eapply wp_clear_wait; [apply S|done|]. intros W'. apply wp_ret. set (s' := on_ws _ s).
  assert (Hsl : forall p, sleepers s' p = unlink t (sleepers s p)) by (intros p; by apply (sleepers_cleared t y r s p)).
  destruct (cleared_waiting t y r (ws s)) as (Hkr & Hwk & _ & z & Ez & Hz & _ & _ & Hq); [apply S|done..|].
  constructor.
  - by apply (swf_cleared t y r s).
  - rewrite (view_of s' n x) by done. cbn. by rewrite Hsl, Hl, Hu.
  - intros p Hp. apply view_other; [done|]. intros _. rewrite Hsl. apply unlink_notin. intros Hin'. apply Hp. by eapply sleepers_apart.
  - cbn. by rewrite Hkr.
  - exact Hwk.
  - apply cleared_dom.
  - by apply frugal_same.
  - intros u' v ->%list_elem_of_singleton Ev. change (ws s') with (snd (cleared t r (ws s))) in Ev. rewrite Ez in Ev. injection Ev as <-. done.
Qed.

Lemma units_posted b x : units (posted b x) = units x + (if b then 1 else 0).
Proof. unfold posted, units. cbn. destruct b; lia. Qed.
Lemma woken_out n ts m r (w : wst T) t : t ∉ ts -> threads (woken n ts m r w) !! t = threads w !! t.
Proof.
  intros Ht. change (threads (woken n ts m r w)) with (threads (on_threads (list_to_set ts) (fun y => result_is r (off y)) w)). apply on_threads_out. set_solver.
Qed.
Lemma woken_state n ts m r (w : wst T) t y : threads w !! t = Some y -> exists z, threads (woken n ts m r w) !! t = Some z /\ t_state z = t_state y.
Proof.
  intros Ey. change (threads (woken n ts m r w)) with (threads (on_threads (list_to_set ts) (fun y => result_is r (off y)) w)). rewrite on_threads_lookup, Ey. eexists. split; [done|]. by case_decide.
Qed.
Lemma conforms_signal n options a s :
  swf ∅ ∅ s -> view s n = Some a -> may_call s n Up -> has options SEMAPHORE_SIGNAL_ALL = false -> has options SEMAPHORE_SIGNAL_PREPOST = true ->
  wp (semaphore_signal_internal n None options) (fun kr s' => kr <> KERN_TERMINATED /\ (forall t, t ∉ released Up a -> threads (ws s') !! t = threads (ws s) !! t) /\ (forall t y, threads (ws s) !! t = Some y -> exists z, threads (ws s') !! t = Some z /\ t_state z = t_state y) /\
    conforms n Up a s (Some (not_waiting_is_success kr)) s') s.
Proof.
  intros S Hv Hok Hall Hpre. destruct a as [u l]. destruct (view_active _ _ _ _ Hv) as (x & Ex & Ha & Hu & Hl).
  eapply (wp_signal_one n x); [done..|by apply Hok|]. intros m. cbv zeta. unfold signalled_state. rewrite Hpre, Hl. intros S'. destruct l as [|t l]; (split; [done|]); (split; [intros v Hv'; exact (woken_out n _ m _ (ws s) v Hv')|]); (split; [intros v y; exact (woken_state n _ m _ (ws s) v y)|]).
  - apply (conforms_woken n x Up (u, []) s [] m THREAD_AWAKENED (posted true)); [done|done|done|by rewrite Hu, Hl|done|done|done|by intros ? ?%elem_of_nil| |done|done|done].
    rewrite units_posted, Hu, Hl. done.
  - pose proof (sleepers_nodup s n S) as Hnd. rewrite Hl in Hnd. rewrite decide_False in S' |- * by done. rewrite <- (on_sema_id n (fun x => x) s) in S' |- * at 2 by done.
    apply (conforms_woken n x Up (u, t :: l) s [t] m THREAD_AWAKENED (fun x => x)); [done|done|done|by rewrite Hu, Hl| |done|done| | |done|done|done].
    + by rewrite on_sema_id in S' |- *.
    + intros t' ->%list_elem_of_singleton. rewrite Hl. left.
    + cbn. rewrite Hu, Hl. f_equal. exact (filter_not_first (t :: l) Hnd).
Qed.
Lemma conforms_up n a s : swf ∅ ∅ s -> view s n = Some a -> may_call s n Up -> wp (run_sem n Up) (conforms n Up a s) s.
Proof.
  intros S Hv Hok. cbn [run_sem semaphore_signal]. apply wp_bind, wp_bind. eapply wp_mono; [by apply conforms_signal|]. cbv beta. intros kr s' (_ & _ & _ & C). by apply wp_ret, wp_ret.
Qed.
Lemma conforms_upall n a s : swf ∅ ∅ s -> view s n = Some a -> wp (run_sem n UpAll) (conforms n UpAll a s) s.
Proof.
  intros S Hv. destruct a as [u l]. destruct (view_active _ _ _ _ Hv) as (x & Ex & Ha & Hu & Hl). cbn [run_sem semaphore_signal_all].
  apply wp_bind, wp_bind. eapply (wp_signal_all n x); [done..|]. intros m kr. cbv zeta. intros S' Hkr. apply wp_ret, wp_ret.
  apply (conforms_woken n x UpAll (u, l) s (sleepers s n) m THREAD_AWAKENED (posted false)); [done|done|done|by rewrite Hu, Hl|done|done|done|done| | |done|done].
  - rewrite units_posted, Hu, Z.add_0_r. cbn. f_equal. apply filter_notin_self.
  - cbn. f_equal. unfold not_waiting_is_success. destruct Hkr as [->|[-> _]]; done.
Qed.
Lemma conforms_upthread n t a s : swf ∅ ∅ s -> view s n = Some a -> may_call s n (UpThread t) -> wp (run_sem n (UpThread t)) (conforms n (UpThread t) a s) s.
Proof.
  intros S Hv [y Ey]. destruct a as [u l]. destruct (view_active _ _ _ _ Hv) as (x & Ex & Ha & Hu & Hl). cbn [run_sem semaphore_signal_thread].
  apply wp_bind. eapply (wp_signal_thread n x t y); [done..|]. intros m. cbv zeta. rewrite Hl. intros S'. apply wp_ret.
  pose proof (sleepers_nodup s n S) as Hnd. rewrite Hl in Hnd. rewrite <- (on_sema_id n (fun x => x) s) at 2 by done.
  apply (conforms_woken n x (UpThread t) (u, l) s (if decide (t ∈ l) then [t] else []) m THREAD_AWAKENED (fun x => x)); [done|done|done|by rewrite Hu, Hl| |done|done| | | |done|done].
  - by rewrite on_sema_id.
  - rewrite Hl. intros t'. case_decide; [by intros ->%list_elem_of_singleton|by intros ?%elem_of_nil].
  - cbn. rewrite Hu, Hl. f_equal. case_decide as Hin.
    + rewrite unlink_filter by done. apply filter_ext_in. intros t' _. by rewrite list_elem_of_singleton.
    + rewrite unlink_notin by done. apply filter_all. intros t' _. apply not_elem_of_nil.
  - cbn. f_equal. unfold woken_if. by case_decide.
Qed.
(** A semaphore of which only the count went down. *)
Lemma conforms_taken n x o u l s :
  swf ∅ ∅ s -> semas s !! n = Some x -> sem_active x = true -> units x = u -> sleepers s n = l -> 0 < sem_count x ->
  let s' := on_sema n (fun x => x <| sem_count ::= fun c => c - 1 |>) s in swf ∅ ∅ s' ->
  next o (u, l) = (u - 1, l) -> answer o (u, l) = Some KERN_SUCCESS -> released o (u, l) = [] -> conforms n o (u, l) s (Some KERN_SUCCESS) s'.
Proof.
  intros S Ex Ha Hu Hl Hc s' S' Hnext Hans Hrel. constructor; [done| | |done| |done| |].
  - rewrite Hnext. rewrite (view_of s' n (x <| sem_count ::= fun c => c - 1 |>)); [|by apply (on_sema_in n _ s)|done]. unfold s'. rewrite sleepers_sema, Hl. do 2 f_equal. rewrite <- Hu. unfold units. cbn. lia.
  - intros p Hp. apply view_other; [by apply on_sema_out|done].
  - rewrite Hrel. symmetry. apply app_nil_r.
  - apply (frugal_sema None n (fun x => x <| sem_count ::= fun c => c - 1 |>)); [done..|]. intros y _. cbn [sem_ref_count]. destruct (decide _); cbn; lia.
  - rewrite Hrel. by intros ? ? ?%elem_of_nil.
Qed.
Lemma conforms_same n o a s r : swf ∅ ∅ s -> view s n = Some a -> next o a = a -> r = answer o a -> released o a = [] -> conforms n o a s r s.
Proof.
  intros S Hv Hn Hr Hrel. constructor; [done|by rewrite Hn|done|done|rewrite Hrel; symmetry; apply app_nil_r|done|by apply frugal_same|rewrite Hrel; by intros ? ? ?%elem_of_nil].
Qed.
Lemma conforms_down n t (try : bool) a s :
  let o := if try then TryDown t else Down t in swf ∅ ∅ s -> view s n = Some a -> may_call s n o -> wp (run_sem n o) (conforms n o a s) s.
Proof.
  intros o S Hv Hok. assert (exists y wq, threads (ws s) !! t = Some y /\ t_waitq y = None /\ waitqs (ws s) !! n = Some wq /\ waits_fifo wq y = true) as (y & wq & Ey & Hy & Eq & Hf) by (by destruct try).
  destruct a as [u l]. destruct (view_active _ _ _ _ Hv) as (x & Ex & Ha & Hu & Hl).
  assert (Hrun : run_sem n o = semaphore_wait_kernel t n None 0 (if try then SEMAPHORE_TIMEOUT_NOBLOCK else SEMAPHORE_OPTION_NONE)) by (by destruct try).
  rewrite Hrun. unfold units in Hu. eapply (wp_wait_none n x t y); [done..|congruence| | |].
  - intros _ Hc s' S'. apply (conforms_taken n x); [done|done|done|done|done|done|done|..]; destruct try; cbn; try done; rewrite (proj2 (Z.ltb_lt 0 u)) by lia; done.
  - intros _ Hc Hb. destruct try; [|done]. apply conforms_same; [done|done|..]; cbn; rewrite ?(proj2 (Z.ltb_ge 0 u)) by lia; done.
  - intros wq' _ Hc Hb Eq'. destruct try; [done|]. assert (wq' = wq) as -> by congruence. intros s' S'.
    assert (Hsl : forall p, sleepers s' p = if decide (p = n) then sleepers s p ++ [t] else sleepers s p).
    { intros p. unfold s'. rewrite sleepers_parked. rewrite (sleepers_enrolled n x wq 0 t y s p S Ex Eq Ey Hy), Hf. done. }
    constructor; [done| | |cbn; by rewrite (proj2 (Z.ltb_ge 0 u)) by lia|symmetry; apply app_nil_r| | |by intros ? ? ?%elem_of_nil].
    3: apply parked_dom.
    3: apply (frugal_sema None n (fun x => x <| sem_count := -1 |>)); [done..|]; intros v _; destruct (decide _); cbn; lia.
    + rewrite (view_of s' n (x <| sem_count := -1 |>)); [|unfold s', parked, enrolled; by apply (on_sema_in n _ s)|done]. rewrite Hsl, decide_True, Hl by done. cbn.
      rewrite (proj2 (Z.ltb_ge 0 u)) by lia. unfold units. cbn. do 2 f_equal. lia.
    + intros p Hp. apply view_other; [unfold s', parked, enrolled; by apply (on_sema_out n _ s)|]. intros _. by rewrite Hsl, decide_False.
Qed.

Lemma conforms_op n o a s : swf ∅ ∅ s -> view s n = Some a -> may_call s n o -> wp (run_sem n o) (conforms n o a s) s.
Proof.
  intros S Hv Hok. destruct o as [| |t|t|t|t r].
  - by apply conforms_up.
  - by apply conforms_upall.
  - by apply conforms_upthread.
  - by apply (conforms_down n t false).
  - by apply (conforms_down n t true).
  - by apply conforms_giveup.
Qed.

(** ** Conservation of units *)

(** A thread that has been let go with the result of a wake-up. *)
Definition awakened (s : st) (t : nat) : bool := match threads (ws s) !! t with Some y => t_wait_result y =? THREAD_AWAKENED | None => false end.
(** The units that an operation on [n] brings, by what was called and what it returned:
    one for a signal, one for each sleeper if all are signalled, one for a named thread
    if the call says that it waited. *)
Definition given (n : nat) (o : sem_op) (s : st) (r : option Z) : Z :=
  match o with
  | Up => 1
  | UpAll => Z.of_nat (length (sleepers s n))
  | UpThread _ => if decide (r = Some KERN_SUCCESS) then 1 else 0
  | _ => 0
  end.
(** The threads that pass, by what can be seen: a wait that returned with success, and the
    sleepers that have left the queue as awakened. *)
Definition passed (n : nat) (o : sem_op) (s : st) (r : option Z) (s' : st) : Z :=
  match o with Down _ | TryDown _ => if decide (r = Some KERN_SUCCESS) then 1 else 0 | _ => 0 end +
  Z.of_nat (length (filter (fun t => t ∉ sleepers s' n /\ awakened s' t = true) (sleepers s n))).
(** The wait of a sleeper is given up with another result than that of a wake-up. *)
Definition gives_up (o : sem_op) : Prop := match o with GiveUp _ r => r <> THREAD_AWAKENED | _ => True end.
(** Sequences of operations on one semaphore, with what they brought and let pass. *)
Inductive sem_run (n : nat) (s : st) : list sem_op -> Z -> Z -> st -> Prop :=
| sem_run_start : sem_run n s [] 0 0 s
| sem_run_op ops c g s1 o r s2 :
    sem_run n s ops c g s1 -> may_call s1 n o -> gives_up o -> run_sem n o s1 = Ret r s2 ->
    sem_run n s (ops ++ [o]) (c + given n o s1 r) (g + passed n o s1 r s2) s2.
(** The sleepers that an operation takes off are those it releases. *)
Lemma released_off o u l : NoDup l -> (forall t r, o = GiveUp t r -> t ∈ l) -> (forall t, o = Down t -> t ∉ l) -> filter (fun t => t ∉ snd (next o (u, l))) l = released o (u, l).
Proof.
  intros Hl Hg Hd. assert (Hnone : filter (fun t => t ∉ l) l = []) by apply filter_notin_self.
  assert (Hone : forall v, v ∈ l -> filter (fun t => t ∉ unlink v l) l = [v]).
  { intros v Hv. rewrite unlink_filter by done. rewrite (filter_ext_in _ (fun t => t = v)); [|intros t Ht; rewrite list_elem_of_filter; split; [intros Hn; destruct (decide (t = v)); tauto|intros -> [? _]; done]].
    clear Hnone Hg Hd. induction Hl as [|x l Hx Hl IH]; [by apply elem_of_nil in Hv|]. rewrite filter_cons. apply elem_of_cons in Hv as [->|Hv].
    - rewrite decide_True by done. f_equal. apply elem_of_nil_inv. by intros t [-> ?]%list_elem_of_filter.
    - rewrite decide_False by (intros ->; done). by apply IH. }
  destruct o as [| |t|t|t|t r]; cbn [next released snd fst].
  - destruct l as [|v l]; [done|]. cbn [take]. rewrite take_0. rewrite <- (Hone v) by left. by rewrite unlink_head.
  - apply filter_all. intros t _. apply not_elem_of_nil.
  - case_decide as Ht; [by apply Hone|]. by rewrite unlink_notin.
  - destruct (0 <? u); cbn; [done|]. apply elem_of_nil_inv. intros v [Hv Hin]%list_elem_of_filter. apply Hv. apply elem_of_app. by left.
  - by destruct (0 <? u).
  - by apply Hone, (Hg t r).
Qed.
Lemma passed_released n o u l s r s' :
  swf ∅ ∅ s -> view s n = Some (u, l) -> may_call s n o -> gives_up o -> conforms n o (u, l) s r s' ->
  filter (fun t => t ∉ sleepers s' n /\ awakened s' t = true) (sleepers s n) = match o with GiveUp _ _ => [] | _ => released o (u, l) end.
Proof.
  intros S Hv Hok Hgive C. destruct (view_active _ _ _ _ Hv) as (x & Ex & Ha & Hu & Hl). pose proof (sleepers_nodup s n S) as Hnd. rewrite Hl in Hnd |- *.
  assert (Hs' : sleepers s' n = snd (next o (u, l))).
  { pose proof (cf_view _ _ _ _ _ _ C) as Hn. destruct (next o (u, l)) as [u' l']. by destruct (view_active _ _ _ _ Hn) as (? & _ & _ & _ & ?). }
  assert (Hoff : filter (fun t => t ∉ sleepers s' n) l = released o (u, l)).
  { rewrite Hs'. apply released_off; [done|intros t r' ->; destruct Hok as (y & _ & _ & Hin); by rewrite <- Hl|].
    intros t -> Hin. destruct Hok as (y & wq & Ey & Hy & _). rewrite <- Hl in Hin. apply waiters_elem in Hin. unfold matches in Hin. rewrite Ey in Hin. destruct Hin. congruence. }
  assert (Haw : forall t, t ∈ released o (u, l) -> awakened s' t = (release_result o =? THREAD_AWAKENED)).
  { intros t Ht. assert (t ∈ l) as Hin by (rewrite <- Hoff in Ht; by apply list_elem_of_filter in Ht as [_ Hin]). rewrite <- Hl in Hin. apply waiters_elem in Hin. unfold matches in Hin.
    destruct (threads (ws s) !! t) as [y|] eqn:Ey; [|done]. assert (t ∈ dom (threads (ws s'))) as [z Ez]%elem_of_dom by (rewrite (cf_dom _ _ _ _ _ _ C); by apply elem_of_dom).
    unfold awakened. rewrite Ez. destruct (cf_result _ _ _ _ _ _ C t z Ht Ez) as [-> _]. done. }
  assert (Hsplit : filter (fun t => t ∉ sleepers s' n /\ awakened s' t = true) l = filter (fun t => awakened s' t = true) (released o (u, l))).
  { rewrite <- Hoff, list_filter_filter. apply filter_ext_in. intros t _. tauto. }
  rewrite Hsplit. destruct o as [| |t|t|t|t r']; try (apply filter_all; intros v Hin; rewrite (Haw v Hin); done).
  apply elem_of_nil_inv. intros v [Hv' Hin]%list_elem_of_filter. rewrite (Haw v Hin) in Hv'. by apply Z.eqb_eq in Hv'.
Qed.
Lemma step_conserves n o u l s r s' :
  swf ∅ ∅ s -> view s n = Some (u, l) -> 0 <= u -> may_call s n o -> gives_up o -> conforms n o (u, l) s r s' ->
  0 <= fst (next o (u, l)) /\ fst (next o (u, l)) + passed n o s r s' = u + given n o s r.
Proof.
  intros S Hv Hu Hok Hgive C. unfold passed. rewrite (passed_released n o u l s r s' S Hv Hok Hgive C). destruct (view_active _ _ _ _ Hv) as (x & Ex & Ha & Hux & Hl).
  pose proof (cf_answer _ _ _ _ _ _ C) as Hr. destruct o as [| |t|t|t|t r']; cbn [next answer released given fst] in *; rewrite ?Hl.
  - destruct l; cbn; rewrite ?take_0; cbn; lia.
  - cbn; lia.
  - rewrite Hr. destruct (decide (t ∈ l)); first [rewrite decide_True by done | rewrite decide_False by done]; cbn; lia.
  - rewrite Hr. destruct (Z.ltb_spec 0 u); first [rewrite decide_True by done | rewrite decide_False by done]; cbn; lia.
  - rewrite Hr. destruct (Z.ltb_spec 0 u); first [rewrite decide_True by done | rewrite decide_False by done]; cbn; lia.
  - cbn; lia.
Qed.
(** C25: units are conserved.  Over every sequence of signals (of the first sleeper, of all,
    of a named thread), waits without a deadline, polls, and ends of a sleeper's wait by
    [clear_wait] with another result than that of a wake-up, the units that the semaphore
    has left and the threads that passed it (waits that returned with success, and
    sleepers taken off the queue with the result [THREAD_AWAKENED]) are together the units
    it had at first and those that were signalled.  So no more threads pass than units
    were given, and none is lost.  (Where a wait timer expires for a thread that has been
    woken but has not run yet, a unit is lost: [SemaRuns.lost_signal_stops_server].) *)
Theorem units_conserved n s u l ops c g s' :
  swf ∅ ∅ s -> view s n = Some (u, l) -> 0 <= u -> sem_run n s ops c g s' ->
  swf ∅ ∅ s' /\ exists u' l', view s' n = Some (u', l') /\ 0 <= u' /\ u' + g = u + c.
Proof.
  intros S Hv Hu Hr. induction Hr as [|ops c g s1 o r s2 Hr IH Hok Hgive Hrun].
  - split; [done|]. exists u, l. split_and!; [done|done|lia].
  - destruct IH as (S1 & u1 & l1 & Hv1 & Hu1 & Hc).
    pose proof (conforms_op n o _ s1 S1 Hv1 Hok) as Hw. unfold wp in Hw. rewrite Hrun in Hw. destruct (step_conserves n o u1 l1 s1 r s2 S1 Hv1 Hu1 Hok Hgive Hw) as [Hn He].
    split; [apply Hw|]. exists (fst (next o (u1, l1))), (snd (next o (u1, l1))). split_and!; [by rewrite (cf_view _ _ _ _ _ _ Hw); destruct (next _ _)|done|lia].
Qed.
End SemaSpec.
End SemaSpec.
