(* ===== verification/SemaLife.v ===== *)
(** * The life of a semaphore

    Creation, references, destruction by the owner, by the last reference and with
    the task, and what becomes of the threads that sleep on it. *)
From S2P Require Import Prelude WaitQ WaitQProps Blocking WaitSpec WaitRuns Sema SemaProps SemaSpec.

Module SemaLife.
Export SemaSpec.
(** Semaphores and tasks of a state that was changed. *)
Ltac slook := cbn; rewrite ?lookup_alter_eq; first [eassumption|match goal with E : ?m !! ?i = Some _ |- context [?m !! ?i] => rewrite E; reflexivity end].
Section SemaLife.
Context {T : Type} `{TimerCall T} `{Kernel} `{SemaEnv}.
Notation st := (sst T).
Implicit Types s : st.
Implicit Types x : semaphore.
Implicit Types tk : stask.

(** ** Destruction *)
Definition dead (x : semaphore) : semaphore := x <| sem_owner := None |> <| sem_active := false |> <| sem_count := 0 |>.
Definition disowned (n : nat) (tk : stask) : stask := tk <| tk_semaphore_list ::= unlink n |> <| tk_semaphores_owned ::= fun c => s32 (c - 1) |>.
Definition with_ref (r : Z) (x : semaphore) : semaphore := x <| sem_ref_count := r |>.
(** The semaphore is off its task's list and dead, and its sleepers are to restart. *)
Definition destroyed (k n : nat) (m : Z) (s : st) : st :=
  on_task k (disowned n) (on_sema n dead (on_ws (woken n (sleepers s n) m THREAD_RESTART) s)).

Lemma s32_add z d : s32 (s32 z + d) = s32 (z + d).
Proof.
  unfold s32. f_equal. replace ((z + 2 ^ 31) mod 2 ^ 32 - 2 ^ 31 + d + 2 ^ 31) with ((z + 2 ^ 31) mod 2 ^ 32 + d) by lia. rewrite Zplus_mod_idemp_l. f_equal. lia.
Qed.
Lemma swf_destroyed Lk k n x m s :
  swf ∅ Lk s -> semas s !! n = Some x -> sem_owner x = Some k -> sem_active x = true -> wf ∅ ∅ (woken n (sleepers s n) m THREAD_RESTART (ws s)) -> swf ∅ Lk (destroyed k n m s).
Proof.
  intros S Ex Ho Ha W. pose proof (swf_woken n (sleepers s n) m THREAD_RESTART s S W) as S'. set (s1 := on_ws _ s) in S'.
  assert (Hempty : sleepers s1 n = []) by (unfold s1, sleepers; cbn; rewrite waiters_woken by apply S; apply filter_notin_self).
  assert (Hx : forall p y, semas (destroyed k n m s) !! p = Some y -> (p = n /\ y = dead x) \/ (p <> n /\ semas s1 !! p = Some y)).
  { intros p y. change (semas (destroyed k n m s)) with (alter dead n (semas s)). destruct (decide (p = n)) as [->|Hp].
    - rewrite lookup_alter_eq, Ex. intros [= <-]. by left.
    - rewrite lookup_alter_ne by done. by right. }
  assert (Hk : forall j tk, stasks (destroyed k n m s) !! j = Some tk -> exists tk0, stasks s1 !! j = Some tk0 /\ tk = if decide (j = k) then disowned n tk0 else tk0).
  { intros j tk. change (stasks (destroyed k n m s)) with (alter (disowned n) k (stasks s)). change (stasks s1) with (stasks s). case_decide as Hj; [subst j; rewrite lookup_alter_eq|rewrite lookup_alter_ne by done; eauto].
    destruct (stasks s !! k) as [tk0|]; [|done]. intros [= <-]. eauto. }
  assert (Hlist : forall j tk p, stasks (destroyed k n m s) !! j = Some tk -> p ∈ tk_semaphore_list tk -> p <> n /\ exists tk0, stasks s1 !! j = Some tk0 /\ p ∈ tk_semaphore_list tk0).
  { intros j tk p Ej Hp. destruct (Hk j tk Ej) as (tk0 & E0 & ->). pose proof (sw_nodup _ _ _ S' _ _ E0) as Hnd. revert Hp. case_decide as Hj.
    - cbn. rewrite elem_of_unlink_iff by done. intros [Hp Hne]. split; [done|eauto].
    - intros Hp. split; [|eauto]. intros ->. destruct (sw_list _ _ _ S' _ _ _ E0 Hp) as (y & Ey & _ & Hy). change (semas s1) with (semas s) in Ey. congruence. }
  destruct S'. constructor; try done.
  - intros p y [[-> ->]|[Hp Ey]]%Hx; [by eapply sw_queue0|eauto].
  - intros t z p y Ez Hz [[-> ->]|[Hp Ey]]%Hx; [by eapply sw_event0|eauto].
  - intros p y [[-> ->]|[Hp Ey]]%Hx Hne; [by destruct Hne|eauto].
  - intros p y [[-> ->]|[Hp Ey]]%Hx; [cbn; lia|eauto].
  - intros p y [[-> ->]|[Hp Ey]]%Hx; [by apply (sw_ref0 n x)|eauto].
  - intros p y [[-> ->]|[Hp Ey]]%Hx; [done|]. pose proof (sw_active0 p y Ey) as Hact. destruct (sem_active y); [|done]. destruct Hact as (j & tk & Hj & Ej & Hin).
    exists j. change (stasks (destroyed k n m s)) with (alter (disowned n) k (stasks s)). destruct (decide (j = k)) as [->|Hjk].
    + exists (disowned n tk). rewrite lookup_alter_eq. change (stasks s1) with (stasks s) in Ej. rewrite Ej. split_and!; [done..|]. cbn. by apply elem_of_unlink_ne.
    + exists tk. by rewrite lookup_alter_ne.
  - intros j tk p Ej Hp. destruct (Hlist j tk p Ej Hp) as (Hne & tk0 & E0 & Hin). destruct (sw_list0 j tk0 p E0 Hin) as (y & Ey & Hy).
    exists y. change (semas (destroyed k n m s)) with (alter dead n (semas s)). by rewrite lookup_alter_ne.
  - intros j tk Ej. destruct (Hk j tk Ej) as (tk0 & E0 & ->). case_decide; [cbn; apply NoDup_unlink|]; eauto.
  - intros j tk Ej. destruct (Hk j tk Ej) as (tk0 & E0 & ->). case_decide as Hj; [|eauto]. subst j. cbn. rewrite (sw_owned0 k tk0 E0). unfold Z.sub. rewrite s32_add. f_equal.
    pose proof (sw_active0 n x Ex) as Hact. rewrite Ha in Hact. destruct Hact as (j & tk & Hj & Ek & Hin). assert (j = k) as -> by congruence. assert (tk = tk0) as -> by congruence.
    rewrite (unlink_length n _ Hin). lia.
  - intros j tk Ej. destruct (Hk j tk Ej) as (tk0 & E0 & ->). case_decide; exact (sw_lock0 j tk0 E0).
Qed.

Lemma wp_destroy_internal Lk k n x tk r s (Q : unit -> st -> Prop) :
  swf ∅ Lk s -> semas s !! n = Some x -> sem_owner x = Some k -> sem_active x = true -> stasks s !! k = Some tk ->
  (forall m, swf ∅ Lk (destroyed k n m s) -> Q tt (on_sema n (with_ref r) (destroyed k n m s))) ->
  wp (semaphore_destroy_internal k n) Q (on_sema n (with_ref r) (lock_sema n s)).
Proof.
  intros S Ex Ho Ha Ek HQ. unfold semaphore_destroy_internal.
  set (f := fun s => on_sema n (fun x => with_ref r x <| sem_owner := None |> <| sem_active := false |> <| sem_count := 0 |>) (on_task k (disowned n) s)).
  assert (Hf : forall m, f (on_ws (woken n (sleepers s n) m THREAD_RESTART) s) = on_sema n (with_ref r) (destroyed k n m s)).
  { intros m. unfold f, destroyed. rewrite !on_sema_task, on_sema_twice. done. }
  do 4 (apply wp_bind; first [eapply wp_stask_mod; [slook|]|eapply wp_sema_mod; [slook|]]).
  apply wp_bind. eapply wp_sema_deref; [slook|]. apply wp_bind. eapply wp_sema_mod; [slook|].
  rewrite !on_sema_task, !on_sema_twice, on_task_twice. change (on_task k _ (on_sema n _ (lock_sema n s))) with (f (lock_sema n s)).
  match goal with |- context [sem_count ?y <? 0] => change (sem_count y) with (sem_count x) end. destruct (sem_count x <? 0) eqn:Hc.
  - apply wp_bind. eapply (wp_wake_all_unlock n x THREAD_RESTART s f); [done..|]. intros m. cbv zeta. intros S'. apply wp_ret. rewrite Hf. apply HQ. apply (swf_destroyed Lk k n x); [done..|apply S'].
  - destruct (sw_queue _ _ _ S n x Ex) as (_ & wq & Eq & _). pose proof (no_sleepers n x s S Ex Hc) as Hn.
    assert (Hw : on_ws (woken n (sleepers s n) (waitq_eventmask wq) THREAD_RESTART) s = s) by (rewrite Hn; by apply woken_none).
    specialize (HQ (waitq_eventmask wq)). rewrite <- Hf, Hw in HQ.
    eapply (wp_sema_unlock n (qlock true wq)); [by apply on_queue_in|done|]. change (on_ws ?g (f (lock_sema n s))) with (f (on_ws g (lock_sema n s))).
    replace (on_ws (on_queue n (qlock false)) (lock_sema n s)) with s; [apply HQ; apply (swf_destroyed Lk k n x); [done..|]|].
    + pose proof (f_equal ws Hw) as Hw'. change (ws (on_ws ?g s)) with (g (ws s)) in Hw'. cbn in Hw'. rewrite Hw'. apply S.
    + destruct s as [w se tks sh dp]. unfold lock_sema, on_ws, update. cbn in *. f_equal. symmetry. by eapply unlock_queue_id, S.
Qed.

(** ** References *)

(** The memory of a semaphore is given back, and its port. *)
Definition freed (n : nat) (s : st) : st := s <| semas ::= delete n |> <| ws ::= fun w => w <| waitqs ::= delete n |> |>.
Definition bury (p : option nat) (s : st) : st := match p with Some p => s <| dead_ports ::= cons p |> | None => s end.

Lemma wf_delete_queue q wq (w : wst T) :
  wf ∅ ∅ w -> waitqs w !! q = Some wq -> waitq_irq wq = true -> (g_num_waitqs <= q)%nat -> waitq_queue wq = [] -> wf ∅ ∅ (w <| waitqs ::= delete q |>).
Proof.
  intros W Eq Hi Hg Hq. set (w' := w <| waitqs ::= delete q |>).
  assert (Hnone : forall t y, threads w !! t = Some y -> t_waitq y <> Some q).
  { intros t y Ey Hy. assert (t ∈ waitq_queue wq) as Hin by (rewrite (wf_queue _ _ _ W _ _ t Eq); exists y, q, wq; split_and!; [done..|by apply own_queue]). rewrite Hq in Hin. by apply elem_of_nil in Hin. }
  assert (Hne : forall p v, waitqs w' !! p = Some v <-> p <> q /\ waitqs w !! p = Some v).
  { intros p v. cbn. rewrite lookup_delete_Some. split; intros [? ?]; (split; [congruence|done]). }
  assert (Hat : forall t sq, waits_at w' t sq <-> waits_at w t sq).
  { intros t sq. unfold waits_at. split; intros (y & p & v & Ey & Ep & Ev & Es); exists y, p, v.
    - by apply Hne in Ev as [_ ?].
    - split_and!; [done|done| |done]. apply Hne. split; [|done]. intros ->. by apply (Hnone t y). }
  assert (Hbits : forall t, bits w' t = bits w t).
  { intros t. unfold bits. change (threads w') with (threads w). destruct (threads w !! t) as [y|] eqn:Ey; [|done]. destruct (t_waitq y) as [p|] eqn:Ep; [|done].
    cbn. rewrite lookup_delete_ne; [done|]. intros <-. by apply (Hnone t y). }
  destruct W. constructor; try done.
  - intros p Hp. destruct (wf_global0 p Hp) as (v & Ev & ?). exists v. split; [|done]. apply Hne. split; [lia|done].
  - intros p v [_ Ev]%Hne. eauto.
  - intros sq v t [_ Ev]%Hne. rewrite Hat. by apply wf_queue0.
  - intros sq v [_ Ev]%Hne. eauto.
  - intros t y p Ey Ep. destruct (wf_waitq0 t y p Ey Ep) as [v Ev]. exists v. apply Hne. split; [|done]. intros ->. by apply (Hnone t y).
  - intros sq v t Hsq [_ Ev]%Hne Ht. rewrite Hbits. eauto.
  - intros p v [_ Ev]%Hne. eauto.
Qed.
Lemma queue_of_sleepers Lk n x wq s : swf ∅ Lk s -> semas s !! n = Some x -> waitqs (ws s) !! n = Some wq -> sleepers s n = [] -> waitq_queue wq = [].
Proof.
  intros S Ex Eq Hn. destruct (sw_queue _ _ _ S n x Ex) as (Hg & wq0 & Eq0 & Hi). assert (wq0 = wq) as -> by congruence. pose proof (sw_kept _ _ _ S) as W.
  apply elem_of_nil_inv. intros t Ht. pose proof (proj1 (wf_queue _ _ _ W _ _ t Eq) Ht) as (y & p & v & Ey & Ep & Ev & Es).
  assert (p = n) as ->. { unfold safeq_of in Es. destruct (waitq_irq v); [done|]. pose proof (safeq_global p). lia. }
  cut (t ∈ sleepers s n); [rewrite Hn; by intros ?%elem_of_nil|]. unfold sleepers, waiters. rewrite Eq, own_queue, Eq by done. apply list_elem_of_filter. split; [|done].
  unfold matches. rewrite Ey. split; [done|]. by apply (sw_event _ _ _ S t y n x).
Qed.
Lemma dead_unlisted Lk n x s k tk : swf ∅ Lk s -> semas s !! n = Some x -> sem_active x = false -> stasks s !! k = Some tk -> n ∉ tk_semaphore_list tk.
Proof. intros S Ex Ha Ek Hin. destruct (sw_list _ _ _ S _ _ _ Ek Hin) as (y & Ey & Hy & _). congruence. Qed.
Lemma waiters_deleted q (w : wst T) p e : p <> q -> (g_num_waitqs <= q)%nat -> waiters (w <| waitqs ::= delete q |>) p e = waiters w p e.
Proof.
  intros Hp Hg. unfold waiters. cbn. rewrite lookup_delete_ne by done. destruct (waitqs w !! p) as [v|]; [|done]. rewrite lookup_delete_ne; [done|].
  unfold safeq_of. destruct (waitq_irq v); [done|]. pose proof (safeq_global p). lia.
Qed.
Lemma swf_freed Lk n x s : swf ∅ Lk s -> semas s !! n = Some x -> sem_active x = false -> swf ∅ Lk (freed n s).
Proof.
  intros S Ex Ha. destruct (sw_queue _ _ _ S n x Ex) as (Hg & wq & Eq & Hi). pose proof (sw_active _ _ _ S n x Ex) as Hact. rewrite Ha in Hact. destruct Hact as [_ Hc].
  assert (Hn : sleepers s n = []) by (apply (no_sleepers (Lk := Lk) n x); [done..|by rewrite Hc]).
  assert (W' : wf ∅ ∅ ((ws s) <| waitqs ::= delete n |>)) by (apply (wf_delete_queue n wq); [apply S|done|done|done|by eapply queue_of_sleepers]).
  assert (Hx : forall p y, semas (freed n s) !! p = Some y -> p <> n /\ semas s !! p = Some y).
  { intros p y. cbn. rewrite lookup_delete_Some. intros [? ?]. split; [congruence|done]. }
  destruct S. constructor; try done.
  - intros p y [Hp Ey]%Hx. destruct (sw_queue0 p y Ey) as (Hgp & v & Ev & Hv). split; [done|]. exists v. split; [|done]. cbn. by rewrite lookup_delete_ne.
  - intros t z p y Ez Hz [Hp Ey]%Hx. eauto.
  - intros p y [Hp Ey]%Hx. unfold sleepers. change (ws (freed n s)) with ((ws s) <| waitqs ::= delete n |>). rewrite waiters_deleted by done. by apply sw_sleepers0.
  - intros p y [Hp Ey]%Hx. eauto.
  - intros p y [Hp Ey]%Hx. eauto.
  - intros p y [Hp Ey]%Hx. exact (sw_active0 p y Ey).
  - intros k tk p Ek Hp. destruct (sw_list0 k tk p Ek Hp) as (y & Ey & Hy & Ho). exists y. split; [|done]. cbn. rewrite lookup_delete_ne; [done|]. intros <-. congruence.
Qed.
Lemma freed_sema n f s : freed n (on_sema n f s) = freed n s.
Proof. unfold freed, on_sema, update. cbn. f_equal. by rewrite delete_alter, decide_True. Qed.
Lemma swf_bury Lq Lk p s : swf Lq Lk s -> swf Lq Lk (bury p s).
Proof. destruct p; [|done]. intros []. by constructor. Qed.

(** The lock of a task. *)
Lemma swf_on_task Lq Lk Lk' k f s :
  swf Lq Lk s -> (forall tk, stasks s !! k = Some tk -> tk_semaphore_list (f tk) = tk_semaphore_list tk /\ tk_semaphores_owned (f tk) = tk_semaphores_owned tk /\ tk_locked (f tk) = bool_decide (k ∈ Lk')) ->
  (forall j, j <> k -> j ∈ Lk' <-> j ∈ Lk) -> swf Lq Lk' (on_task k f s).
Proof.
  intros S Hf HL. assert (Hk : forall j tk, stasks (on_task k f s) !! j = Some tk -> exists tk0, stasks s !! j = Some tk0 /\ tk_semaphore_list tk = tk_semaphore_list tk0 /\
    tk_semaphores_owned tk = tk_semaphores_owned tk0 /\ tk_locked tk = bool_decide (j ∈ Lk')).
  { intros j tk. destruct (decide (j = k)) as [->|Hj].
    - cbn. rewrite lookup_alter_eq. destruct (stasks s !! k) as [tk0|] eqn:E0; [|done]. intros [= <-]. exists tk0. split; [done|]. by apply Hf.
    - rewrite on_task_out by done. intros Ej. exists tk. split_and!; [done..|]. rewrite (sw_lock _ _ _ S _ _ Ej). apply bool_decide_ext. by rewrite HL. }
  destruct S. constructor; try done.
  - intros n x Ex. pose proof (sw_active0 n x Ex) as Ha. destruct (sem_active x); [|done]. destruct Ha as (j & tk & Ho & Ej & Hin). exists j. destruct (decide (j = k)) as [->|Hj].
    + exists (f tk). rewrite (on_task_in _ _ _ _ Ej). split_and!; [done..|]. by destruct (Hf tk Ej) as [-> _].
    + exists tk. by rewrite on_task_out.
  - intros j tk n Ej Hn. destruct (Hk j tk Ej) as (tk0 & E0 & Hl & _). rewrite Hl in Hn. eauto.
  - intros j tk Ej. destruct (Hk j tk Ej) as (tk0 & E0 & -> & _). eauto.
  - intros j tk Ej. destruct (Hk j tk Ej) as (tk0 & E0 & -> & -> & _). eauto.
  - intros j tk Ej. by destruct (Hk j tk Ej) as (tk0 & _ & _ & _ & ->).
Qed.
Lemma swf_task_lock Lq Lk k s : swf Lq Lk s -> swf Lq ({[k]} ∪ Lk) (on_task k (klock true) s).
Proof. intros S. eapply swf_on_task; [done| |set_solver]. intros tk _. split_and!; [done..|]. symmetry. apply bool_decide_eq_true. set_solver. Qed.
Lemma swf_task_unlock Lq Lk k s : k ∉ Lk -> swf Lq ({[k]} ∪ Lk) s -> swf Lq Lk (on_task k (klock false) s).
Proof. intros Hk S. eapply swf_on_task; [done| |set_solver]. intros tk _. split_and!; [done..|]. symmetry. by apply bool_decide_eq_false. Qed.
Lemma task_free Lq Lk k tk s : swf Lq Lk s -> stasks s !! k = Some tk -> k ∉ Lk -> tk_locked tk = false.
Proof. intros S Ek Hk. rewrite (sw_lock _ _ _ S _ _ Ek). by apply bool_decide_eq_false. Qed.
Lemma on_task_id k f s : (forall tk, stasks s !! k = Some tk -> f tk = tk) -> on_task k f s = s.
Proof.
  intros Hf. destruct s as [w se tks sh dp]. unfold on_task, update. cbn in *. f_equal. apply map_eq. intros j.
  destruct (decide (j = k)) as [->|]; [|by rewrite lookup_alter_ne]. rewrite lookup_alter_eq. destruct (tks !! k) as [tk|] eqn:E; [|done]. cbn. f_equal. eauto.
Qed.
(** A destruction inside the task's lock. *)
Lemma destroyed_lock Lk k n m s : swf ∅ Lk s -> k ∉ Lk -> on_task k (klock false) (destroyed k n m (on_task k (klock true) s)) = destroyed k n m s.
Proof.
  intros S Hk. set (s1 := on_sema n dead (on_ws (woken n (sleepers s n) m THREAD_RESTART) s)).
  transitivity (on_task k (klock false) (on_task k (disowned n) (on_task k (klock true) s1))); [done|]. rewrite !on_task_twice.
  change (destroyed k n m s) with (on_task k (disowned n) s1). unfold on_task, update. cbn [stasks]. f_equal. apply alter_same. intros tk Ek.
  pose proof (task_free _ _ k tk s S Ek Hk). destruct tk. cbn in *. by subst.
Qed.
(** The end of a semaphore whose last reference is gone. *)
Definition buried (n : nat) (x : semaphore) (m : Z) (s : st) : st :=
  bury (sem_port x) (freed n (match sem_owner x with Some k => destroyed k n m s | None => s end)).
Lemma swf_with_ref Lk n x r s : swf ∅ Lk s -> semas s !! n = Some x -> 1 <= r -> swf ∅ Lk (on_sema n (with_ref r) s).
Proof.
  intros S Ex Hr. apply swf_on_sema; [done|]. intros y Ey. assert (y = x) as -> by congruence. pose proof (sw_count _ _ _ S _ _ Ex). pose proof (sw_active _ _ _ S _ _ Ex) as Ha. cbn.
  split_and!; try done; try lia; [by apply (sw_sleepers _ _ _ S)|]. intros Hx. rewrite Hx in Ha. tauto.
Qed.
Definition ended (n : nat) (x : semaphore) (m : Z) (s : st) : st := match sem_owner x with Some k => destroyed k n m s | None => s end.
Lemma wp_free Lk n y r s (Q : unit -> st -> Prop) :
  swf ∅ Lk s -> semas s !! n = Some y -> sem_active y = false -> (swf ∅ Lk (freed n s) -> Q tt (freed n s)) -> wp (zfree n) Q (on_sema n (with_ref r) s).
Proof.
  intros S Ey Hy HQ. unfold zfree. apply wp_modify. pose proof (swf_freed Lk n y s S Ey Hy) as S'. specialize (HQ S'). rewrite <- (freed_sema n (with_ref r) s) in HQ. exact HQ.
Qed.
Lemma wp_last_reference Lk n x r s (Q : unit -> st -> Prop) :
  swf ∅ Lk s -> semas s !! n = Some x -> (forall k, sem_owner x = Some k -> k ∉ Lk) ->
  (forall m, swf ∅ Lk (freed n (ended n x m s)) -> Q tt (freed n (ended n x m s))) ->
  wp (semaphore_lock n ;;; dereference_loop n (Datatypes.S tries) ;;; zfree n) Q (on_sema n (with_ref r) s).
Proof.
  intros S Ex Hfree HQ. pose proof (sw_active _ _ _ S _ _ Ex) as Hact. destruct (sw_queue _ _ _ S n x Ex) as (_ & wq & Eq & _). unfold ended in HQ.
  apply wp_bind. unfold semaphore_lock. apply wp_waitq_do. eapply wp_waitq_lock; [exact Eq|eapply unlocked_queues; [apply S|done]|].
  change (on_ws (fun _ => on_queue n (qlock true) _) _) with (on_sema n (with_ref r) (lock_sema n s)).
  apply wp_bind. cbn [dereference_loop]. apply wp_bind. eapply wp_sema_deref; [exact (on_sema_in _ _ _ _ Ex)|]. change (sem_active (with_ref r x)) with (sem_active x). change (sem_owner (with_ref r x)) with (sem_owner x).
  destruct (sem_active x) eqn:Ha; cbn [negb].
  - destruct Hact as (k & tk & Ho & Ek & Hin). rewrite Ho in *. specialize (Hfree k eq_refl). pose proof (task_free _ _ k tk s S Ek Hfree) as Hl.
    apply wp_bind. eapply (wp_task_lock_try k tk); [exact Ek|done|]. apply wp_bind. pose proof (swf_task_lock _ _ k _ S) as SL. set (s1 := on_task k (klock true) s) in SL.
    change (on_task k (klock true) (on_sema n (with_ref r) (lock_sema n s))) with (on_sema n (with_ref r) (lock_sema n s1)).
    eapply (wp_destroy_internal ({[k]} ∪ Lk) k n x (klock true tk)); [done|done|done|done|exact (on_task_in _ _ _ _ Ek)|]. intros m SD.
    eapply (wp_task_unlock k (disowned n (klock true tk))); [change (stasks (on_sema ?n ?f ?s)) with (stasks s); unfold destroyed; apply on_task_in; exact (on_task_in _ _ _ _ Ek)|done|].
    rewrite <- on_sema_task. pose proof (swf_task_unlock _ _ k _ Hfree SD) as SU. pose proof (destroyed_lock Lk k n m s S Hfree) as HD. unfold s1 in SU |- *. rewrite HD in SU |- *.
    eapply (wp_free Lk n (dead x)); [done|unfold destroyed; exact (on_sema_in n dead _ x Ex)|done|]. apply HQ.
  - destruct Hact as [Ho _]. rewrite Ho in HQ. eapply (wp_sema_unlock n (qlock true wq)); [by apply on_queue_in|done|].
    change (on_ws (on_queue n (qlock false)) (on_sema n (with_ref r) (lock_sema n s))) with (on_sema n (with_ref r) (on_ws (on_queue n (qlock false)) (lock_sema n s))).
    replace (on_ws (on_queue n (qlock false)) (lock_sema n s)) with s by (destruct s as [w se tks sh dp]; unfold lock_sema, on_ws, update; cbn in *; f_equal; symmetry; by eapply unlock_queue_id, S).
    by eapply (wp_free Lk n x); [..|apply (HQ 0)].
Qed.
Lemma buried_eq n x m s : buried n x m s = freed n (ended n x m (bury (sem_port x) s)).
Proof. unfold buried, ended, bury. destruct (sem_owner x), (sem_port x); done. Qed.
Lemma wp_dereference Lk n x s (Q : unit -> st -> Prop) :
  swf ∅ Lk s -> semas s !! n = Some x -> (forall k, sem_owner x = Some k -> k ∉ Lk) ->
  (1 < sem_ref_count x -> let s' := on_sema n (with_ref (sem_ref_count x - 1)) s in swf ∅ Lk s' -> Q tt s') ->
  (forall m, sem_ref_count x = 1 -> swf ∅ Lk (buried n x m s) -> Q tt (buried n x m s)) ->
  wp (semaphore_dereference (Some n)) Q s.
Proof.
  intros S Ex Hfree HQ1 HQ2. unfold semaphore_dereference. pose proof (sw_ref _ _ _ S _ _ Ex) as Hr.
  apply wp_bind. eapply wp_sema_deref; [done|]. apply wp_bind, wp_ensure; [by apply Z.leb_le|]. apply wp_bind. eapply wp_sema_mod; [done|].
  assert (Hdec : on_sema n (fun x => x <| sem_ref_count ::= Z.pred |>) s = on_sema n (with_ref (sem_ref_count x - 1)) s).
  { unfold on_sema, update. cbn. f_equal. apply alter_same. intros v Ev. assert (v = x) as -> by congruence. unfold with_ref, update. cbn. done. }
  rewrite Hdec. destruct (Z.ltb_spec 1 (sem_ref_count x)) as [Hlt|Hlt]; [apply wp_ret; apply HQ1; [done|]; apply (swf_with_ref Lk n x); [done..|lia]|].
  assert (sem_ref_count x = 1) as Hone by lia. set (r := sem_ref_count x - 1).
  assert (Hlast : wp (semaphore_lock n ;;; dereference_loop n (Datatypes.S tries) ;;; zfree n) Q (on_sema n (with_ref r) (bury (sem_port x) s))).
  { apply (wp_last_reference Lk n x); [by apply swf_bury|by destruct (sem_port x)|done|]. intros m. rewrite <- buried_eq. by apply HQ2. }
  apply wp_bind. destruct (sem_port x); [apply wp_modify|apply wp_ret]; exact Hlast.
Qed.

(** A destruction with the locks of the task and the semaphore taken around it. *)
Lemma destroyed_sema k n m s x : semas s !! n = Some x -> semas (destroyed k n m s) !! n = Some (dead x).
Proof. intros Ex. exact (on_sema_in n dead (on_ws (woken n (sleepers s n) m THREAD_RESTART) s) x Ex). Qed.
Lemma with_ref_id n x s : semas s !! n = Some x -> on_sema n (with_ref (sem_ref_count x)) s = s.
Proof. intros Ex. apply on_sema_id. intros y Ey. assert (y = x) as -> by congruence. by destruct x. Qed.
Lemma wp_destroy_locked Lk k n x tk s (Q : unit -> st -> Prop) :
  swf ∅ Lk s -> semas s !! n = Some x -> sem_owner x = Some k -> sem_active x = true -> stasks s !! k = Some tk ->
  (forall m, swf ∅ Lk (destroyed k n m s) -> Q tt (destroyed k n m s)) -> wp (semaphore_destroy_internal k n) Q (lock_sema n s).
Proof.
  intros S Ex Ho Ha Ek HQ. rewrite <- (with_ref_id n x (lock_sema n s)) by done. eapply (wp_destroy_internal Lk k n x tk); [done..|]. intros m S'.
  replace (on_sema n (with_ref (sem_ref_count x)) (destroyed k n m s)) with (destroyed k n m s); [by apply HQ|]. symmetry. apply (with_ref_id n (dead x)). by apply destroyed_sema.
Qed.
Lemma owner_active Lk n x k s : swf ∅ Lk s -> semas s !! n = Some x -> sem_owner x = Some k -> sem_active x = true /\ exists tk, stasks s !! k = Some tk /\ n ∈ tk_semaphore_list tk.
Proof.
  intros S Ex Ho. pose proof (sw_active _ _ _ S _ _ Ex) as Ha. destruct (sem_active x); [|destruct Ha; congruence]. destruct Ha as (j & tk & Hj & Ej & Hin).
  assert (j = k) as -> by congruence. eauto.
Qed.
(** The semaphore is dead, with its reference of the caller dropped. *)
Definition dropped (n : nat) (x : semaphore) (s : st) : st :=
  if 1 <? sem_ref_count x then on_sema n (with_ref (sem_ref_count x - 1)) s else bury (sem_port x) (freed n s).
(** The same threads, and no strangers on the work queue. *)
Definition tame (s s' : st) : Prop := dom (threads (ws s')) = dom (threads (ws s)) /\ forall t, t ∈ workq (ws s') -> t ∈ workq (ws s) \/ t ∈ dom (threads (ws s)).
Lemma tame_same s s' : ws s' = ws s -> tame s s'.
Proof. intros E. split; rewrite E; auto. Qed.
Lemma tame_trans s1 s2 s3 : tame s1 s2 -> tame s2 s3 -> tame s1 s3.
Proof. intros [Hd1 Hq1] [Hd2 Hq2]. split; [congruence|]. intros t [Ht|Ht]%Hq2; [auto|]. right. by rewrite <- Hd1. Qed.
Lemma tame_woken n ts m r s s' : ws s' = woken n ts m r (ws s) -> tame s s'.
Proof.
  intros E. split; rewrite E; [exact (dom_on_threads _ _ (ws s))|]. intros t. change (workq (woken n ts m r (ws s))) with (workq (ws s) ++ filter (is_suspended (ws s)) ts).
  rewrite elem_of_app. intros [?|?]; [by left|right; by eapply suspended_dom].
Qed.
Lemma tame_buried n x m s : tame s (buried n x m s).
Proof.
  assert (Hf : forall p s0, tame s s0 -> tame s (bury p (freed n s0))) by (by intros [p|] s0 Ht). apply Hf. destruct (sem_owner x) as [k|]; [|by apply tame_same].
  by apply (tame_woken n (sleepers s n) m THREAD_RESTART).
Qed.
Lemma tame_dropped n x k m s : tame s (dropped n x (destroyed k n m s)).
Proof. pose proof (tame_woken n (sleepers s n) m THREAD_RESTART s (destroyed k n m s) eq_refl) as Ht. unfold dropped, bury. destruct (1 <? _); [exact Ht|]. by destruct (sem_port x). Qed.
Lemma frugal_destroyed d k n m s : frugal d s (destroyed k n m s).
Proof. apply (frugal_sema d n dead); [done..|]. intros y _. destruct (decide _); cbn; lia. Qed.
(** The memory of a semaphore whose last reference is dropped. *)
Lemma frugal_freed n x p s s' : semas s !! n = Some x -> sem_ref_count x <= 1 -> frugal (Some n) s s' -> frugal (Some n) s (bury p (freed n s')).
Proof.
  intros Ex Hr [Eh Hf]. split; [by destruct p|]. intros q. specialize (Hf q). unfold refs in *. assert (Hq : semas (bury p (freed n s')) = delete n (semas s')) by (by destruct p). rewrite Hq.
  destruct (decide (q = n)) as [->|Hn]; [|by rewrite lookup_delete_ne]. rewrite lookup_delete_eq, Ex, decide_True by done. cbn. lia.
Qed.
Lemma frugal_buried n x m s : semas s !! n = Some x -> sem_ref_count x = 1 -> frugal (Some n) s (buried n x m s).
Proof. intros Ex Hr. apply (frugal_freed n x); [done|lia|]. destruct (sem_owner x); [apply frugal_destroyed|by apply frugal_same]. Qed.
Lemma frugal_lost n x s : semas s !! n = Some x -> frugal (Some n) s (on_sema n (with_ref (sem_ref_count x - 1)) s).
Proof. intros Ex. apply (frugal_sema _ n (with_ref (sem_ref_count x - 1))); [done..|]. intros y Ey. assert (y = x) as -> by congruence. rewrite decide_True by done. cbn. lia. Qed.
Lemma frugal_dropped n x k m s : semas s !! n = Some x -> frugal (Some n) s (dropped n x (destroyed k n m s)).
Proof.
  intros Ex. unfold dropped. destruct (Z.ltb_spec 1 (sem_ref_count x)) as [Hr|Hr]; [|apply (frugal_freed n x); [done..|apply frugal_destroyed]].
  eapply frugal_trans; [apply frugal_destroyed|]. exact (frugal_lost n (dead x) _ (destroyed_sema k n m s x Ex)).
Qed.
Lemma wp_semaphore_destroy k n x s (Q : Z -> st -> Prop) :
  swf ∅ ∅ s -> semas s !! n = Some x -> sem_owner x = Some k ->
  (forall m, let s' := dropped n x (destroyed k n m s) in swf ∅ ∅ (destroyed k n m s) -> swf ∅ ∅ s' -> Q KERN_SUCCESS s') -> wp (semaphore_destroy (Some k) (Some n)) Q s.
Proof.
  intros S Ex Ho HQ. destruct (owner_active _ _ _ _ _ S Ex Ho) as (Ha & tk & Ek & Hin). unfold semaphore_destroy.
  apply wp_bind. eapply wp_task_lock; [exact Ek|by eapply task_free|]. pose proof (swf_task_lock _ _ k _ S) as SL. set (s1 := on_task k (klock true) s) in *.
  eapply (wp_sema_enter n x); [done..|]. intros _. apply wp_bind. eapply wp_sema_deref; [exact Ex|]. rewrite bool_decide_true by done. cbn [negb].
  apply wp_bind. eapply (wp_destroy_locked _ k n x (klock true tk)); [done|done|done|done|exact (on_task_in _ _ _ _ Ek)|]. intros m SD.
  apply wp_bind. eapply (wp_task_unlock k (disowned n (klock true tk))); [unfold destroyed; apply on_task_in; exact (on_task_in _ _ _ _ Ek)|done|].
  assert (SU : swf ∅ ∅ (on_task k (klock false) (destroyed k n m s1))) by (apply swf_task_unlock; [set_solver|done]).
  unfold s1 in SU |- *. rewrite (destroyed_lock ∅) in SU |- * by (done || set_solver). apply wp_bind. specialize (HQ m). unfold dropped in HQ.
  eapply (wp_dereference ∅ n (dead x)); [done|by apply destroyed_sema|done| |].
  - intros Hr s' S'. apply wp_ret. cbn in Hr. rewrite (proj2 (Z.ltb_lt _ _) Hr) in HQ. by apply HQ.
  - intros m' Hr S'. apply wp_ret. cbn in Hr. rewrite Hr in HQ. by apply HQ.
Qed.
Lemma wp_semaphore_destroy_other k n x tk s (Q : Z -> st -> Prop) :
  swf ∅ ∅ s -> semas s !! n = Some x -> stasks s !! k = Some tk -> sem_owner x <> Some k ->
  (forall s', swf ∅ ∅ s' -> tame s s' -> frugal (Some n) s s' -> Q KERN_INVALID_ARGUMENT s') -> wp (semaphore_destroy (Some k) (Some n)) Q s.
Proof.
  intros S Ex Ek Ho HQ. unfold semaphore_destroy. apply wp_bind. eapply wp_task_lock; [exact Ek|by eapply task_free|]. pose proof (swf_task_lock _ _ k _ S) as SL. set (s1 := on_task k (klock true) s) in *.
  eapply (wp_sema_enter n x); [done..|]. intros _. apply wp_bind. eapply wp_sema_deref; [exact Ex|]. rewrite bool_decide_false by done. cbn [negb]. apply wp_bind. eapply wp_sema_leave; [done..|].
  assert (Hend : forall s2, swf ∅ ({[k]} ∪ ∅) s2 -> is_Some (stasks s2 !! k) -> tame s s2 -> frugal (Some n) s s2 -> wp (task_unlock k ;;; ret KERN_INVALID_ARGUMENT) Q s2).
  { intros s2 S2 [tk2 E2] Ht Hf. apply wp_bind. eapply wp_task_unlock; [exact E2|rewrite (sw_lock _ _ _ S2 _ _ E2); apply bool_decide_eq_true; set_solver|].
    apply wp_ret. apply HQ; [by apply swf_task_unlock; [set_solver|]|exact Ht|exact Hf]. }
  assert (E1 : is_Some (stasks s1 !! k)) by (exists (klock true tk); exact (on_task_in _ _ _ _ Ek)).
  apply wp_bind. eapply (wp_dereference _ n x s1); [done|done|intros j Hj; set_solver| |].
  - intros _ s' S'. apply Hend; [done|done|apply tame_same; done|exact (frugal_lost n x s1 Ex)].
  - intros m H1r S'. apply Hend; [done| |apply (tame_buried n x m s1)|exact (frugal_buried n x m s1 Ex H1r)]. unfold buried, bury. destruct (sem_port x), (sem_owner x) as [j|]; try exact E1; (change (is_Some (alter (disowned n) j (stasks s1) !! k)); destruct E1 as [v E1];
      destruct (decide (j = k)) as [->|Hj]; [rewrite lookup_alter_eq, E1; eauto|rewrite lookup_alter_ne by done; eauto]).
Qed.

(** What a destruction leaves to see. *)
Lemma sleepers_destroyed Lk k n m s p : swf ∅ Lk s -> sleepers (destroyed k n m s) p = if decide (p = n) then [] else sleepers s p.
Proof.
  intros S. unfold sleepers. change (ws (destroyed k n m s)) with (woken n (sleepers s n) m THREAD_RESTART (ws s)). rewrite waiters_woken by apply S. case_decide as Hp.
  - subst p. apply filter_notin_self.
  - apply filter_all. intros t Ht Hin. apply Hp. by eapply sleepers_apart.
Qed.
Lemma view_destroyed Lk k n m s p : swf ∅ Lk s -> p <> n -> view (destroyed k n m s) p = view s p.
Proof.
  intros S Hp. apply view_other; [exact (on_sema_out n dead (on_ws (woken n (sleepers s n) m THREAD_RESTART) s) p Hp)|]. intros _. rewrite (sleepers_destroyed Lk) by done. by rewrite decide_False.
Qed.
Lemma view_dropped Lk n x s p : swf ∅ Lk s -> semas s !! n = Some x -> p <> n -> view (dropped n x s) p = view s p.
Proof.
  intros S Ex Hp. destruct (sw_queue _ _ _ S n x Ex) as (Hg & _). unfold dropped. destruct (1 <? sem_ref_count x); [apply view_other; [by apply on_sema_out|done]|].
  assert (Hb : view (bury (sem_port x) (freed n s)) p = view (freed n s) p) by (by destruct (sem_port x)). rewrite Hb. apply view_other; [cbn; by rewrite lookup_delete_ne|].
  intros _. unfold sleepers. change (ws (freed n s)) with ((ws s) <| waitqs ::= delete n |>). by apply waiters_deleted.
Qed.
Lemma dropped_ws n x s : workq (ws (dropped n x s)) = workq (ws s) /\ threads (ws (dropped n x s)) = threads (ws s) /\ stasks (dropped n x s) = stasks s.
Proof. unfold dropped, bury. destruct (1 <? _), (sem_port x); done. Qed.
Lemma dropped_dead n x s : semas s !! n = Some x -> sem_active x = false -> view (dropped n x s) n = None.
Proof.
  intros Ex Ha. unfold view, dropped. destruct (1 <? _); [rewrite (on_sema_in _ _ _ _ Ex); cbn; by rewrite Ha|].
  replace (semas (bury (sem_port x) (freed n s)) !! n) with (@None semaphore); [done|]. destruct (sem_port x); cbn; by rewrite lookup_delete_eq.
Qed.

(** destroying a semaphore takes it off its task, sends every thread that sleeps on it
    away with [THREAD_RESTART], each scheduled if it is suspended, drops the caller's
    reference, and leaves all other semaphores as they were. *)
Theorem destroy_restarts_sleepers k n x s :
  swf ∅ ∅ s -> semas s !! n = Some x -> sem_owner x = Some k ->
  wp (semaphore_destroy (Some k) (Some n)) (fun kr s' => kr = KERN_SUCCESS /\ swf ∅ ∅ s' /\ view s' n = None /\ (forall p, p <> n -> view s' p = view s p) /\
    (forall tk, stasks s' !! k = Some tk -> n ∉ tk_semaphore_list tk) /\
    workq (ws s') = workq (ws s) ++ filter (is_suspended (ws s)) (sleepers s n) /\
    forall t y, t ∈ sleepers s n -> threads (ws s') !! t = Some y -> t_wait_result y = THREAD_RESTART /\ t_waitq y = None) s.
Proof.
  intros S Ex Ho. eapply wp_semaphore_destroy; [done..|]. intros m s' SD S'. destruct (owner_active _ _ _ _ _ S Ex Ho) as (Ha & tk & Ek & Hin). unfold s' in *. clear s'.
  destruct (dropped_ws n x (destroyed k n m s)) as (Hw & Ht & Hk).
  pose proof (destroyed_sema k n m s x Ex) as Ed. split_and!; [done|done| | | | |].
  - change (dropped n x) with (dropped n (dead x)). by apply dropped_dead.
  - intros p Hp. change (dropped n x) with (dropped n (dead x)). rewrite (view_dropped ∅), (view_destroyed ∅) by done. done.
  - intros tk'. rewrite Hk. by apply (dead_unlisted ∅ n (dead x)).
  - by rewrite Hw.
  - intros t y Hin'. rewrite Ht. by apply woken_result.
Qed.

(** ** All the semaphores of a task *)
Definition belongs (s : st) (k n : nat) : Prop := match semas s !! n with Some x => sem_owner x = Some k | None => False end.
(** What the destruction of all of them leaves of a semaphore, and of a sleeper. *)
Record closed_down (k : nat) (s s' : st) : Prop := {
  cd_swf : swf ∅ {[k]} s';
  cd_tame : tame s s';
  cd_frugal : frugal None s s';
  cd_dead n x : semas s !! n = Some x -> semas s' !! n = Some (if decide (sem_owner x = Some k) then dead x else x);
  cd_others n : ~ belongs s k n -> sleepers s' n = sleepers s n;
  cd_still t : (forall n, belongs s k n -> t ∉ sleepers s n) -> threads (ws s') !! t = threads (ws s) !! t;
  cd_gone n t y : belongs s k n -> t ∈ sleepers s n -> threads (ws s') !! t = Some y -> t_wait_result y = THREAD_RESTART /\ t_waitq y = None;
}.
Lemma wp_destroy_all_loop k : forall l s tk (Q : unit -> st -> Prop),
  swf ∅ {[k]} s -> stasks s !! k = Some tk -> tk_semaphore_list tk = l ->
  (forall s' tk', closed_down k s s' -> stasks s' !! k = Some tk' -> tk_semaphore_list tk' = [] -> Q tt s') ->
  wp (destroy_all_loop k (length l)) Q s.
Proof.
  induction l as [|n l IH]; intros s tk Q S Ek Hl HQ; cbn [destroy_all_loop length]; apply wp_bind; (eapply wp_stask_deref; [exact Ek|]); rewrite Hl.
  - apply wp_ret. eapply HQ; [|done..]. assert (Hno : forall n, ~ belongs s k n).
    { intros n Hb. unfold belongs in Hb. destruct (semas s !! n) as [x|] eqn:Ex; [|done]. destruct (owner_active _ _ _ _ _ S Ex Hb) as (_ & tk' & Ek' & Hin). assert (tk' = tk) as -> by congruence.
      rewrite Hl in Hin. by apply elem_of_nil in Hin. }
    constructor; [done|by apply tame_same|by apply frugal_same| |done|done|intros n t y Hb; by destruct (Hno n)]. intros n x Ex. rewrite decide_False; [done|]. intros Ho. apply (Hno n). unfold belongs. by rewrite Ex.
  - destruct (sw_list _ _ _ S k tk n Ek) as (x & Ex & Ha & Ho); [rewrite Hl; left|]. eapply (wp_sema_enter n x); [done..|]. intros _.
    apply wp_bind. eapply (wp_destroy_locked _ k n x tk); [done..|]. intros m SD. eapply (IH _ (disowned n tk)); [done|exact (on_task_in _ _ _ _ Ek)|cbn; rewrite Hl; apply unlink_head|].
    intros s' tk' C Ek' Hl'. eapply HQ; [|done..].
    assert (Hb' : forall p, belongs (destroyed k n m s) k p <-> belongs s k p /\ p <> n).
    { intros p. unfold belongs. change (semas (destroyed k n m s)) with (alter dead n (semas s)). destruct (decide (p = n)) as [->|Hp]; [|rewrite lookup_alter_ne by done; tauto].
      rewrite lookup_alter_eq, Ex. cbn. split; [done|tauto]. }
    assert (Hsl : forall p, sleepers (destroyed k n m s) p = if decide (p = n) then [] else sleepers s p) by (intros p; by apply (sleepers_destroyed {[k]})).
    assert (Hbn : belongs s k n) by (unfold belongs; by rewrite Ex).
    constructor; [apply C|eapply tame_trans; [by apply (tame_woken n (sleepers s n) m THREAD_RESTART s (destroyed k n m s))|apply C]|eapply frugal_trans; [apply (frugal_destroyed None k n m s)|apply C]| | | |].
    + intros p y Ep. destruct (decide (p = n)) as [->|Hp].
      * assert (y = x) as -> by congruence. rewrite (cd_dead _ _ _ C n (dead x)) by (by apply destroyed_sema). rewrite decide_False by done. by rewrite decide_True.
      * apply (cd_dead _ _ _ C). rewrite <- Ep. exact (on_sema_out n dead (on_ws (woken n (sleepers s n) m THREAD_RESTART) s) p Hp).
    + intros p Hb. rewrite (cd_others _ _ _ C) by (rewrite Hb'; tauto). rewrite Hsl, decide_False; [done|]. by intros ->.
    + intros t Ht. rewrite (cd_still _ _ _ C).
      * apply woken_out. by apply Ht.
      * intros p [Hb Hp]%Hb'. rewrite Hsl, decide_False by done. by apply Ht.
    + intros p t y Hb Ht Ey. destruct (decide (p = n)) as [->|Hp].
      * rewrite (cd_still _ _ _ C) in Ey; [exact (woken_result n (sleepers s n) m THREAD_RESTART (ws s) t y Ht Ey)|]. intros p [_ Hp]%Hb'. rewrite Hsl, decide_False by done. intros Hin. apply Hp. by eapply sleepers_apart.
      * eapply (cd_gone _ _ _ C p); [by apply Hb'|rewrite Hsl; by rewrite decide_False|exact Ey].
Qed.
(** The task after that. *)
Record task_ended (k : nat) (s s' : st) : Prop := {
  te_swf : swf ∅ ∅ s';
  te_tame : tame s s';
  te_frugal : frugal None s s';
  te_task : exists tk, stasks s' !! k = Some tk /\ tk_semaphore_list tk = [];
  te_dead n x : semas s !! n = Some x -> semas s' !! n = Some (if decide (sem_owner x = Some k) then dead x else x);
  te_others n : ~ belongs s k n -> sleepers s' n = sleepers s n;
  te_gone n t y : belongs s k n -> t ∈ sleepers s n -> threads (ws s') !! t = Some y -> t_wait_result y = THREAD_RESTART /\ t_waitq y = None;
}.
Lemma wp_destroy_all k tk s : swf ∅ ∅ s -> stasks s !! k = Some tk -> wp (semaphore_destroy_all k) (fun _ => task_ended k s) s.
Proof.
  intros S Ek. unfold semaphore_destroy_all. apply wp_bind. eapply wp_task_lock; [exact Ek|by eapply task_free|]. pose proof (swf_task_lock _ _ k _ S) as SL.
  replace ({[k]} ∪ ∅ : gset nat) with ({[k]} : gset nat) in SL by set_solver. set (s1 := on_task k (klock true) s) in *. assert (E1 : stasks s1 !! k = Some (klock true tk)) by exact (on_task_in _ _ _ _ Ek).
  apply wp_bind. eapply wp_stask_deref; [exact E1|]. apply wp_bind. eapply wp_destroy_all_loop; [done..|]. intros s' tk' C Ek' Hl'.
  eapply wp_task_unlock; [exact Ek'|rewrite (sw_lock _ _ _ (cd_swf _ _ _ C) _ _ Ek'); apply bool_decide_eq_true; set_solver|].
  destruct C as [SC Ct Cf Cd Co _ Cg]. constructor; [|exact Ct|exact Cf| |exact Cd|exact Co|exact Cg].
  - apply swf_task_unlock; [set_solver|]. by replace ({[k]} ∪ ∅ : gset nat) with ({[k]} : gset nat) by set_solver.
  - exists (klock false tk'). split; [exact (on_task_in _ _ _ _ Ek')|done].
Qed.
(** C26: when a task ends, all its semaphores are dead and off its list, and every thread
    that slept on one of them is sent away with [THREAD_RESTART]; the semaphores of
    other tasks keep their sleepers.  The loop over the list ends. *)
Theorem destroy_all_closes_down k tk s :
  swf ∅ ∅ s -> stasks s !! k = Some tk -> wp (semaphore_destroy_all k) (fun _ => task_ended k s) s.
Proof. apply wp_destroy_all. Qed.
(** a semaphore of the duct tape must be destroyed before its task: once the task has
    ended, [dtape_semaphore_destroy] stops the server. *)
Theorem destroy_after_task_panics k n x tk s :
  swf ∅ ∅ s -> semas s !! n = Some x -> stasks s !! k = Some tk -> sem_owner x = Some k ->
  exists s', semaphore_destroy_all k s = Ret tt s' /\ dtape_semaphore_destroy (k, n) s' = Panic "Failed to destroy duct-taped XNU semaphore".
Proof.
  intros S Ex Ek Ho. destruct (proj1 (wp_run _ _ _) (wp_destroy_all k tk s S Ek)) as ([] & s' & Hrun & C). exists s'. split; [exact Hrun|].
  pose proof (te_dead _ _ _ C n x Ex) as Ed. rewrite decide_True in Ed by done. destruct (te_task _ _ _ C) as (tk' & Ek' & _).
  assert (Hw : wp (semaphore_destroy (Some k) (Some n)) (fun kr _ => kr = KERN_INVALID_ARGUMENT) s') by (by eapply (wp_semaphore_destroy_other k n (dead x) tk'); [apply C|..]).
  destruct (proj1 (wp_run _ _ _) Hw) as (kr & s2 & Hd & ->). unfold dtape_semaphore_destroy. cbn [fst snd]. unfold bind. by rewrite Hd.
Qed.

(** ** Creation *)
Definition new_semaphore (k : nat) (value : Z) : semaphore := mk_semaphore (Some k) None 1 value true.
Definition new_queue (policy : Z) : waitq := mk_waitq (negb (has policy SYNC_POLICY_REVERSED)) (has policy SYNC_POLICY_DISABLE_IRQ) true 0 [] false.
Definition adopted (n : nat) (tk : stask) : stask := tk <| tk_semaphore_list ::= cons n |> <| tk_semaphores_owned ::= fun c => s32 (c + 1) |>.
Definition created (k n : nat) (policy value : Z) (s : st) : st :=
  on_task k (adopted n) (s <| semas ::= <[n := new_semaphore k value]> |> <| ws ::= fun w => w <| waitqs ::= <[n := new_queue (Z.lor policy SYNC_POLICY_DISABLE_IRQ)]> |> |>).
Lemma waiters_new_queue q wq (w : wst T) p e :
  wf ∅ ∅ w -> waitqs w !! q = None -> waitq_irq wq = true -> waitq_queue wq = [] -> waiters (w <| waitqs ::= <[q := wq]> |>) p e = if decide (p = q) then [] else waiters w p e.
Proof.
  intros W Eq Hi Hq. unfold waiters. cbn. case_decide as Hp.
  - subst p. rewrite lookup_insert_eq, own_queue, lookup_insert_eq, Hq by done. done.
  - rewrite lookup_insert_ne by done. destruct (waitqs w !! p) as [v|] eqn:Ev; [|done]. rewrite lookup_insert_ne; [done|]. intros Hs. destruct (wf_safeq _ _ _ _ _ W Ev) as [u Eu]. congruence.
Qed.
Lemma swf_created Lk k n policy value tk s :
  swf ∅ Lk s -> stasks s !! k = Some tk -> n ∉ dom (semas s) ∪ dom (waitqs (ws s)) -> 0 <= value < 2 ^ 31 -> swf ∅ Lk (created k n policy value s).
Proof.
  intros S Ek [Hns Hnq]%not_elem_of_union Hv. apply not_elem_of_dom in Hns, Hnq. pose proof (sw_kept _ _ _ S) as W. set (q := new_queue (Z.lor policy SYNC_POLICY_DISABLE_IRQ)).
  assert (Hi : waitq_irq q = true) by (cbn; by apply has_lor_r).
  assert (Hg : (g_num_waitqs <= n)%nat) by (apply Nat.le_ngt; intros Hlt; destruct (wf_global _ _ _ W n Hlt) as (? & ? & _); congruence).
  assert (W' : wf ∅ ∅ (ws (created k n policy value s))) by (by apply wf_new_queue).
  assert (Hsl : forall p, sleepers (created k n policy value s) p = if decide (p = n) then [] else sleepers s p).
  { intros p. unfold sleepers. change (ws (created k n policy value s)) with ((ws s) <| waitqs ::= <[n := q]> |>). by rewrite (waiters_new_queue n q (ws s) p SEMAPHORE_EVENT). }
  assert (Hx : forall p y, semas (created k n policy value s) !! p = Some y -> (p = n /\ y = new_semaphore k value) \/ (p <> n /\ semas s !! p = Some y)).
  { intros p y. change (semas (created k n policy value s)) with (<[n := new_semaphore k value]> (semas s)). intros [[<- <-]|[? ?]]%lookup_insert_Some; [by left|right]. split; [congruence|done]. }
  assert (Hin : forall p y, semas s !! p = Some y -> semas (created k n policy value s) !! p = Some y).
  { intros p y Ep. change (semas (created k n policy value s)) with (<[n := new_semaphore k value]> (semas s)). rewrite lookup_insert_ne; [done|congruence]. }
  assert (Hk : forall j tk', stasks (created k n policy value s) !! j = Some tk' -> exists tk0, stasks s !! j = Some tk0 /\ tk' = if decide (j = k) then adopted n tk0 else tk0).
  { intros j tk'. change (stasks (created k n policy value s)) with (alter (adopted n) k (stasks s)). case_decide as Hj; [subst j; rewrite lookup_alter_eq, Ek; intros [= <-]; eauto|rewrite lookup_alter_ne by done; eauto]. }
  assert (Hn : semas (created k n policy value s) !! n = Some (new_semaphore k value)) by apply lookup_insert_eq.
  assert (Ek' : stasks (created k n policy value s) !! k = Some (adopted n tk)) by exact (on_task_in _ _ _ _ Ek).
  destruct S. constructor; try done.
  - intros p y [[-> ->]|[Hp Ey]]%Hx; [split; [done|exists q; split; [apply lookup_insert_eq|done]]|]. destruct (sw_queue0 p y Ey) as (Hgp & v & Ev & Hv'). split; [done|]. exists v. split; [|done].
    change (waitqs (ws (created k n policy value s))) with (<[n := q]> (waitqs (ws s))). by rewrite lookup_insert_ne.
  - intros t z p y Ez Hz [[-> ->]|[Hp Ey]]%Hx; [|eauto]. destruct (wf_waitq _ _ _ W t z n Ez Hz). congruence.
  - intros p y [[-> ->]|[Hp Ey]]%Hx; rewrite Hsl; [by rewrite decide_True|]. rewrite decide_False by done. by apply sw_sleepers0.
  - intros p y [[-> ->]|[Hp Ey]]%Hx; [cbn; lia|eauto].
  - intros p y [[-> ->]|[Hp Ey]]%Hx; [done|eauto].
  - intros p y [[-> ->]|[Hp Ey]]%Hx; [exists k, (adopted n tk); split_and!; [done..|left]|]. pose proof (sw_active0 p y Ey) as Ha. destruct (sem_active y); [|done]. destruct Ha as (j & tk0 & Ho & Ej & Hl).
    exists j. destruct (decide (j = k)) as [->|Hj]; [exists (adopted n tk); assert (tk0 = tk) as -> by congruence; split_and!; [done..|by right]|].
    exists tk0. split_and!; [done| |done]. change (stasks (created k n policy value s)) with (alter (adopted n) k (stasks s)). by rewrite lookup_alter_ne.
  - intros j tk' p Ej Hp. destruct (Hk j tk' Ej) as (tk0 & E0 & ->). revert Hp. case_decide as Hj.
    + subst j. intros [->|Hp]%elem_of_cons; [eauto|]. destruct (sw_list0 k tk0 p E0 Hp) as (y & Ey & ?). eauto.
    + intros Hp. destruct (sw_list0 j tk0 p E0 Hp) as (y & Ey & ?). eauto.
  - intros j tk' Ej. destruct (Hk j tk' Ej) as (tk0 & E0 & ->). case_decide as Hj; [|eauto]. cbn. constructor; [|eauto]. intros Hp. destruct (sw_list0 j tk0 n E0 Hp) as (y & Ey & _). congruence.
  - intros j tk' Ej. destruct (Hk j tk' Ej) as (tk0 & E0 & ->). case_decide as Hj; [|eauto]. cbn. rewrite (sw_owned0 j tk0 E0), s32_add. f_equal. lia.
  - intros j tk' Ej. destruct (Hk j tk' Ej) as (tk0 & E0 & ->). case_decide; exact (sw_lock0 j tk0 E0).
Qed.

(** The code of [semaphore_create], given what the allocator answers. *)
Definition create_code (policy value : Z) (alloc : option nat) (tk : stask) : Z :=
  if (value <? 0) || (SYNC_POLICY_MAX <? policy) || (policy <? 0) then KERN_INVALID_ARGUMENT
  else match alloc with
       | None => KERN_RESOURCE_SHORTAGE
       | Some _ => if has policy SYNC_POLICY_FIXED_PRIORITY then KERN_INVALID_ARGUMENT
                   else if tk_active tk then KERN_SUCCESS else KERN_INVALID_TASK
       end.
Lemma policy_fixed policy : has (Z.lor policy SYNC_POLICY_DISABLE_IRQ) SYNC_POLICY_FIXED_PRIORITY = has policy SYNC_POLICY_FIXED_PRIORITY.
Proof. change SYNC_POLICY_FIXED_PRIORITY with (2 ^ 0). rewrite !has_bit, Z.lor_spec by done. by rewrite orb_false_r. Qed.
Lemma freed_new n x q s : semas s !! n = None -> waitqs (ws s) !! n = None ->
  freed n (s <| semas ::= <[n := x]> |> <| ws ::= fun w => w <| waitqs ::= <[n := q]> |> |>) = s.
Proof.
  intros Hs Hq. destruct s as [[ths qs wk] se tks sh dp]. unfold freed, update. cbn in *. f_equal; [f_equal|]; by apply delete_insert_id.
Qed.
Lemma freed_id n s : semas s !! n = None -> waitqs (ws s) !! n = None -> freed n s = s.
Proof. intros Hs Hq. destruct s as [[ths qs wk] se tks sh dp]. unfold freed, update. cbn in *. f_equal; [f_equal|]; by apply delete_id. Qed.
Lemma wp_create k tk policy value s (Q : Z * option nat -> st -> Prop) :
  swf ∅ ∅ s -> stasks s !! k = Some tk -> value < 2 ^ 31 ->
  let alloc := zalloc (dom (semas s) ∪ dom (waitqs (ws s))) in let kr := create_code policy value alloc tk in
  (kr <> KERN_SUCCESS -> Q (kr, None) s) ->
  (forall n, alloc = Some n -> kr = KERN_SUCCESS -> 0 <= value -> swf ∅ ∅ (created k n policy value s) -> Q (KERN_SUCCESS, Some n) (created k n policy value s)) ->
  wp (semaphore_create (Some k) policy value) Q s.
Proof.
  intros S Ek Hv alloc kr Hno Hyes. unfold semaphore_create, create_code in *. destruct ((value <? 0) || _ || _) eqn:Earg; [by apply wp_ret, Hno|].
  apply wp_bind, wp_get. fold alloc. destruct alloc as [n|] eqn:Ealloc; [|by apply wp_ret, Hno]. pose proof (zalloc_fresh _ _ Ealloc) as Hfresh.
  pose proof Hfresh as [Hns Hnq]%not_elem_of_union. apply not_elem_of_dom in Hns, Hnq.
  apply wp_bind, wp_waitq_do. unfold waitq_init. rewrite policy_fixed. destruct (has policy SYNC_POLICY_FIXED_PRIORITY).
  { apply wp_ret. change (negb (KERN_INVALID_ARGUMENT =? KERN_SUCCESS)) with true. cbv iota. apply wp_bind. unfold zfree. apply wp_modify. apply wp_ret.
    change (on_ws (fun _ => ws s) s) with (on_ws (fun w => w) s). rewrite on_ws_id. fold (freed n s). rewrite freed_id by done. by apply Hno. }
  apply wp_bind, wp_modify, wp_ret. change (negb (KERN_SUCCESS =? KERN_SUCCESS)) with false. cbv iota. apply wp_bind, wp_modify.
  set (s1 := s <| semas ::= <[n := new_semaphore k value]> |> <| ws ::= fun w => w <| waitqs ::= <[n := new_queue (Z.lor policy SYNC_POLICY_DISABLE_IRQ)]> |> |>).
  match goal with |- wp _ _ ?s2 => change s2 with s1 end. assert (E1 : stasks s1 !! k = Some tk) by done. pose proof (task_free _ _ k tk s S Ek ltac:(set_solver)) as Hl.
  apply wp_bind. eapply wp_task_lock; [exact E1|done|]. apply wp_bind. eapply wp_stask_deref; [exact (on_task_in _ _ _ _ E1)|]. change (tk_active (klock true tk)) with (tk_active tk).
  destruct (tk_active tk) eqn:Ha; cbn [negb].
  - apply wp_bind. eapply wp_stask_mod; [exact (on_task_in _ _ _ _ E1)|]. apply wp_bind. eapply wp_task_unlock; [exact (on_task_in _ _ _ _ (on_task_in _ _ _ _ E1))|done|]. apply wp_ret.
    rewrite !on_task_twice. assert (Hs : on_task k (fun tk => klock false (adopted n (klock true tk))) s1 = created k n policy value s).
    { unfold created. fold s1. unfold on_task, update. cbn. f_equal. apply alter_same. intros v Ev. assert (v = tk) as -> by congruence. destruct tk. cbn in *. by subst. }
    change (fun tk0 : stask => _) with (fun tk => klock false (adopted n (klock true tk))). rewrite Hs.
    apply orb_false_iff in Earg as [[Hv0%Z.ltb_ge _]%orb_false_iff _]. apply Hyes; [done|done|done|]. eapply swf_created; [done..|lia].
  - apply wp_bind. eapply wp_task_unlock; [exact (on_task_in _ _ _ _ E1)|done|]. rewrite on_task_twice.
    rewrite on_task_id; [|intros v Ev; assert (v = tk) as -> by congruence; destruct tk; cbn in *; by subst].
    apply wp_bind. unfold zfree. apply wp_modify, wp_ret. fold (freed n s1). unfold s1. rewrite freed_new by done. by apply Hno.
Qed.
(** creating a semaphore checks its arguments, allocates, and either gives a new
    semaphore with the value asked for, owned by the task, with one reference and no
    sleepers, or an error and no change at all. *)
Theorem semaphore_create_new k tk policy value s :
  swf ∅ ∅ s -> stasks s !! k = Some tk -> value < 2 ^ 31 ->
  let kr := create_code policy value (zalloc (dom (semas s) ∪ dom (waitqs (ws s)))) tk in
  wp (semaphore_create (Some k) policy value) (fun '(kr', sem) s' => kr' = kr /\
    match sem with
    | None => kr <> KERN_SUCCESS /\ s' = s
    | Some n => kr = KERN_SUCCESS /\ swf ∅ ∅ s' /\ semas s !! n = None /\ semas s' !! n = Some (new_semaphore k value) /\ view s' n = Some (value, []) /\ forall p, p <> n -> view s' p = view s p
    end) s.
Proof.
  intros S Ek Hv kr. eapply wp_create; [done..| |]; [done|]. intros n Ealloc Hkr Hv0 S'. fold kr in Hkr. split; [done|]. pose proof (zalloc_fresh _ _ Ealloc) as [Hns Hnq]%not_elem_of_union.
  apply not_elem_of_dom in Hns, Hnq. assert (En : semas (created k n policy value s) !! n = Some (new_semaphore k value)) by apply lookup_insert_eq.
  assert (Hsl : forall p, sleepers (created k n policy value s) p = if decide (p = n) then [] else sleepers s p).
  { intros p. unfold sleepers. apply (waiters_new_queue n _ (ws s) p SEMAPHORE_EVENT); [apply S|done|cbn; by apply has_lor_r|done]. }
  split_and!; [done..| |].
  - rewrite (view_of _ n _ En) by done. rewrite Hsl, decide_True by done. unfold units. cbn. do 2 f_equal. lia.
  - intros p Hp. apply view_other; [exact (lookup_insert_ne _ _ _ _ (not_eq_sym Hp))|]. intros _. by rewrite Hsl, decide_False.
Qed.

(** ** Changes of the waits that start none *)
Lemma elem_of_waiters (w : wst T) q wq e t : wf ∅ ∅ w -> waitqs w !! q = Some wq -> matches w q e t -> t ∈ waiters w q e.
Proof.
  intros W Eq Hm. unfold waiters. destruct (wf_safeq _ _ _ _ _ W Eq) as [v Ev]. rewrite Eq, Ev. apply list_elem_of_filter. split; [done|].
  unfold matches in Hm. destruct (threads w !! t) as [y|] eqn:Ey; [|done]. rewrite (wf_queue _ _ _ W _ _ t Ev). exists y, q, wq. tauto.
Qed.
(** Every thread waits as it did, or not at all. *)
Definition fewer_waits (w w' : wst T) : Prop := forall u z, threads w' !! u = Some z -> exists y, threads w !! u = Some y /\ (waits_for z = waits_for y \/ t_waitq z = None).
Definition same_kinds (w w' : wst T) : Prop := forall n wq, waitqs w !! n = Some wq -> exists wq', waitqs w' !! n = Some wq' /\ waitq_irq wq' = waitq_irq wq.
Lemma swf_fewer Lk s (w : wst T) : swf ∅ Lk s -> wf ∅ ∅ w -> same_kinds (ws s) w -> fewer_waits (ws s) w -> swf ∅ Lk (on_ws (fun _ => w) s).
Proof.
  intros S W Hk Hf. apply (swf_waits ∅ ∅ Lk s w); [done|done|done| |].
  - intros t z n x Ez Hz Ex. destruct (Hf t z Ez) as (y & Ey & [Hw|?]); [|congruence]. injection Hw as Hw He. rewrite He. apply (sw_event _ _ _ S t y n x Ey); [congruence|done].
  - intros n x Ex Hne. apply (sw_sleepers _ _ _ S _ _ Ex). unfold sleepers. destruct (waiters w n SEMAPHORE_EVENT) as [|t l] eqn:El; [done|].
    assert (t ∈ waiters w n SEMAPHORE_EVENT) as Ht by (rewrite El; left). apply waiters_elem in Ht. unfold matches in Ht. destruct (threads w !! t) as [z|] eqn:Ez; [|done]. destruct Ht as [Hz He].
    destruct (Hf t z Ez) as (y & Ey & [Hw|?]); [|congruence]. injection Hw as Hw He'. destruct (sw_queue _ _ _ S n x Ex) as (_ & wq & Eq & _).
    assert (t ∈ waiters (ws s) n SEMAPHORE_EVENT) as Hin by (apply (elem_of_waiters _ n wq); [apply S|done|]; unfold matches; rewrite Ey; split; congruence).
    intros Hn. rewrite Hn in Hin. by apply elem_of_nil in Hin.
Qed.
Lemma fewer_trans w1 w2 w3 : fewer_waits w1 w2 -> fewer_waits w2 w3 -> fewer_waits w1 w3.
Proof.
  intros F1 F2 u z Ez. destruct (F2 u z Ez) as (y & Ey & Hy). destruct (F1 u y Ey) as (x & Ex & Hx). exists x. split; [done|]. destruct Hy as [Hy|?]; [|by right]. destruct Hx as [Hx|Hx]; [left; congruence|].
  right. injection Hy as Hy _. congruence.
Qed.
Lemma fewer_on_thread f t (w : wst T) : inner f -> fewer_waits w (on_threads {[t]} f w).
Proof. intros Hf u z. rewrite on_threads_lookup. destruct (threads w !! u) as [y|]; [|done]. intros [= <-]. exists y. split; [done|]. left. case_decide; [apply Hf|done]. Qed.
Lemma fewer_cleared t r (w : wst T) : fewer_waits w (snd (cleared t r w)).
Proof. intros u z. apply cleared_thread_back. Qed.
Lemma fewer_unqueued t (w : wst T) : fewer_waits w (unqueued t w).
Proof. intros u z Ez. destruct (unqueued_back t w u z Ez) as (y & Ey & [->|[_ ->]]); exists y; auto. Qed.
Lemma kinds_unqueued t (w : wst T) : same_kinds w (unqueued t w).
Proof.
  intros n wq Eq. unfold unqueued. destruct (threads w !! t) as [y|]; [|eauto]. destruct (t_waitq y) as [q|]; [|eauto]. destruct (waitqs w !! q) as [v|]; [|eauto].
  change (waitqs (on_threads ?ts ?f ?w)) with (waitqs w). destruct (decide (n = safeq_of q v)) as [->|Hn]; [eexists; split; [by apply on_queue_in|done]|exists wq; by rewrite on_queue_ne].
Qed.
(** The account of semaphores and that of the waits. *)
Record whole (s : st) : Prop := {
  whole_swf : swf ∅ ∅ s;
  whole_work t : t ∈ workq (ws s) -> t ∈ dom (threads (ws s));
}.
Lemma whole_kept s : whole s -> kept (ws s).
Proof. intros [S Hw]. split; [apply S|exact Hw]. Qed.
Lemma whole_fewer s (w : wst T) : whole s -> kept w -> same_kinds (ws s) w -> fewer_waits (ws s) w -> whole (on_ws (fun _ => w) s).
Proof. intros H1w K Hk Hf. split; [apply swf_fewer; [apply H1w|apply K|done..]|apply K]. Qed.

Lemma whole_tame s s' : whole s -> swf ∅ ∅ s' -> tame s s' -> whole s'.
Proof. intros [_ Hw] S [Hd Hq]. split; [done|]. intros t [Ht|Ht]%Hq; rewrite Hd; auto. Qed.

(** ** Everything that happens to semaphores *)
Inductive sem_act :=
| SOp (n : nat) (o : sem_op)
| SWait (t n : nat) (deadline option : Z)
| SCreate (k : nat) (policy value : Z)
| SDestroy (k n : nat)
| SDestroyAll (k : nat)
| SReference (n : nat)
| SDereference (n : nat)
| SFire (t : nat)
| SSignal (t : nat)
| SDie (t : nat)
| SWork.
Definition sem_perform (a : sem_act) : MS T unit :=
  match a with
  | SOp n o => run_sem n o ;;; ret tt
  | SWait t n d option => semaphore_wait_kernel t n None d option ;;; ret tt
  | SCreate k policy value => semaphore_create (Some k) policy value ;;; ret tt
  | SDestroy k n => semaphore_destroy (Some k) (Some n) ;;; ret tt
  | SDestroyAll k => semaphore_destroy_all k
  | SReference n => semaphore_reference n
  | SDereference n => semaphore_dereference (Some n)
  | SFire t => waitq_do (timer_fires t)
  | SSignal t => waitq_do (dtape_thread_sigexc_enter t)
  | SDie t => waitq_do (dtape_thread_dying t)
  | SWork => waitq_do worker ;;; ret tt
  end.
(** What they need: that the semaphore, the task and the thread exist, and that a thread
    that waits is not waiting already. *)
Definition sem_enabled (s : st) (a : sem_act) : Prop :=
  match a with
  | SOp n o => is_Some (view s n) /\ may_call s n o
  | SWait t n _ _ => is_Some (semas s !! n) /\ exists y, threads (ws s) !! t = Some y /\ t_waitq y = None
  | SCreate k _ value => is_Some (stasks s !! k) /\ value < 2 ^ 31
  | SDestroy k n => is_Some (stasks s !! k) /\ is_Some (semas s !! n)
  | SDestroyAll k => is_Some (stasks s !! k)
  | SReference n => exists x, semas s !! n = Some x /\ sem_ref_count x < OS_REFCNT_MAX_COUNT
  | SDereference n => is_Some (semas s !! n)
  | SFire t | SSignal t | SDie t => is_Some (threads (ws s) !! t)
  | SWork => True
  end.

(** The semaphore whose reference an action drops. *)
Definition drop_of (a : sem_act) : option nat := match a with SDestroy _ n | SDereference n => Some n | _ => None end.
Definition acted (a : sem_act) (s s' : st) : Prop := whole s' /\ frugal (drop_of a) s s'.
Lemma whole_waits (m : MW T unit) s : whole s -> wp m (fun _ w => kept w /\ same_kinds (ws s) w /\ fewer_waits (ws s) w) (ws s) -> wp (waitq_do m) (fun _ s' => whole s' /\ frugal None s s') s.
Proof. intros Hw Hm. apply wp_waitq_do. eapply wp_mono; [exact Hm|]. cbv beta. intros _ w (K & Hk & Hf). split; [by apply whole_fewer|by apply frugal_same]. Qed.
Lemma kinds_same (w w' : wst T) : waitqs w' = waitqs w -> same_kinds w w'.
Proof. intros E n wq Eq. exists wq. by rewrite E. Qed.
Lemma whole_signalled f t (w : wst T) : kept w -> inner f -> kept (unqueued t (on_threads {[t]} f w)) /\ same_kinds w (unqueued t (on_threads {[t]} f w)) /\ fewer_waits w (unqueued t (on_threads {[t]} f w)).
Proof.
  intros K Hf. split_and!; [by apply kept_unqueued, kept_on_thread|exact (kinds_unqueued t (on_threads {[t]} f w))|].
  eapply fewer_trans; [by apply (fewer_on_thread f t)|apply fewer_unqueued].
Qed.
Lemma whole_fires t y (w : wst T) : kept w -> threads w !! t = Some y -> wp (timer_fires t) (fun _ w' => kept w' /\ same_kinds w w' /\ fewer_waits w w') w.
Proof.
  intros K Ey. eapply wp_timer_fires; [apply K|done|]. intros w' _. unfold w'. clear w'. assert (Hself : fewer_waits w w) by (intros u z Ez; exists z; auto).
  destruct (tc_queued (t_wait_timer y)); [|split_and!; [done|by apply kinds_same|done]]. set (w1 := on_threads {[t]} fired w). assert (K1 : kept w1) by (by apply kept_on_thread).
  assert (F1 : fewer_waits w w1) by (by apply fewer_on_thread). split; [by apply kept_expired|]. unfold expired. destruct (threads w1 !! t) as [y1|]; [|split; [by apply kinds_same|done]].
  destruct (expires y1); [|split; [by apply kinds_same|eapply fewer_trans; [exact F1|by apply fewer_on_thread]]].
  split; [intros n wq Eq; by apply cleared_queue|]. eapply fewer_trans; [exact F1|]. eapply fewer_trans; [by apply (fewer_on_thread disarmed t)|apply fewer_cleared].
Qed.
Lemma whole_works (w : wst T) : kept w -> wp worker (fun _ w' => kept w' /\ same_kinds w w' /\ fewer_waits w w') w.
Proof.
  intros K. assert (Hself : fewer_waits w w) by (intros u z Ez; exists z; auto). destruct (workq w) as [|t l] eqn:El.
  { unfold worker. wq_go. rewrite El. wq_go. split_and!; [done|by apply kinds_same|done]. }
  assert (exists y, threads w !! t = Some y) as [y Ey] by (apply elem_of_dom, (kept_work _ K); rewrite El; left).
  eapply wp_worker; [apply K|done..|]. intros w' _. split; [by apply kept_served|]. unfold w', served. destruct (t_running y); [split; [by apply kinds_same|done]|].
  split; [by apply kinds_same|]. apply (fewer_on_thread _ t (work_is l w)). intros z. change (t_suspended (tlock ?b z)) with (t_suspended z). by destruct (t_suspended z).
Qed.
Lemma whole_conforms n o a s r s' : whole s -> conforms n o a s r s' -> whole s'.
Proof.
  intros Hw C. apply (whole_tame s); [done|apply C|]. split; [apply C|]. intros t. rewrite (cf_work _ _ _ _ _ _ C), elem_of_app. intros [?|?]; [by left|right; by eapply suspended_dom].
Qed.
Lemma whole_op n o a s : whole s -> view s n = Some a -> may_call s n o -> wp (run_sem n o) (fun _ s' => whole s' /\ frugal None s s') s.
Proof. intros Hw Hv Hok. eapply wp_mono; [by apply conforms_op; [apply Hw|..]|]. cbv beta. intros r s' C. split; [by eapply whole_conforms|apply C]. Qed.
Lemma whole_wait t n d option y x s : whole s -> semas s !! n = Some x -> threads (ws s) !! t = Some y -> t_waitq y = None -> wp (semaphore_wait_kernel t n None d option) (fun _ s' => whole s' /\ frugal None s s') s.
Proof.
  intros Hw Ex Ey Hy. assert (Hself : frugal None s s) by (by apply frugal_same). eapply wp_wait_none; [apply Hw|done|done|done| | | |]; try done.
  - intros _ _ s' S'. split; [apply (whole_tame s); [done|done|by apply tame_same]|]. apply (frugal_sema None n (fun x => x <| sem_count ::= fun c => c - 1 |>)); [done..|]. intros v _. destruct (decide _); cbn; lia.
  - intros wq _ _ _ Eq s' S'. split; [apply (whole_tame s); [done|done|]; split; [apply parked_dom|by left]|].
    apply (frugal_sema None n (fun x => x <| sem_count := -1 |>)); [done..|]. intros v _. destruct (decide _); cbn; lia.
Qed.
Lemma frugal_created k n policy value s : semas s !! n = None -> frugal None s (created k n policy value s).
Proof.
  intros En. split; [done|]. intros p. unfold refs. change (semas (created k n policy value s)) with (<[n := new_semaphore k value]> (semas s)).
  destruct (decide (p = n)) as [->|Hp]; [rewrite lookup_insert_eq, En|rewrite lookup_insert_ne by done]; destruct (decide (None = Some _)); cbn; lia.
Qed.
Lemma acted_reference n x s : whole s -> semas s !! n = Some x -> sem_ref_count x < OS_REFCNT_MAX_COUNT ->
  wp (semaphore_reference n) (fun _ s' => s' = on_sema n (with_ref (sem_ref_count x + 1)) s /\ whole s' /\ frugal None s s') s.
Proof.
  intros Hw Ex Hr. pose proof (whole_swf _ Hw) as S. unfold semaphore_reference. apply wp_bind. eapply wp_sema_deref; [done|]. pose proof (sw_ref _ _ _ S _ _ Ex) as H1r.
  apply wp_bind, wp_ensure; [apply andb_true_iff; split; [by apply Z.leb_le|by apply Z.ltb_lt]|]. eapply wp_sema_mod; [done|].
  assert (E : on_sema n (fun x => x <| sem_ref_count ::= Z.succ |>) s = on_sema n (with_ref (sem_ref_count x + 1)) s).
  { unfold on_sema, update. cbn. f_equal. apply alter_same. intros v Ev. by assert (v = x) as -> by congruence. }
  rewrite E. split_and!; [done|apply (whole_tame s); [done|apply (swf_with_ref ∅ n x); [done..|lia]|by apply tame_same]|].
  apply (frugal_sema None n (with_ref (sem_ref_count x + 1))); [done..|]. intros v Ev. assert (v = x) as -> by congruence. destruct (decide _); cbn; lia.
Qed.
Lemma acted_dereference n x s : whole s -> semas s !! n = Some x -> wp (semaphore_dereference (Some n)) (fun _ s' => whole s' /\ frugal (Some n) s s') s.
Proof.
  intros Hw Ex. eapply (wp_dereference ∅ n x); [apply Hw|done|set_solver| |].
  - intros _ s' S'. split; [apply (whole_tame s); [done..|by apply tame_same]|by apply frugal_lost].
  - intros m H1r S'. split; [apply (whole_tame s); [done..|apply tame_buried]|by apply frugal_buried].
Qed.
Lemma whole_act a s : whole s -> sem_enabled s a -> wp (sem_perform a) (fun _ => acted a s) s.
Proof.
  intros Hw Hok. pose proof (whole_swf _ Hw) as S. pose proof (whole_kept _ Hw) as K. destruct a as [n o|t n d opt|k policy value|k n|k|n|n|t|t|t|]; cbn [sem_perform].
  - destruct Hok as [[a Hv] Hok]. apply wp_bind. eapply wp_mono; [by eapply whole_op|done].
  - destruct Hok as [[x Ex] (y & Ey & Hy)]. apply wp_bind. eapply wp_mono; [by eapply whole_wait|done].
  - destruct Hok as [[tk Ek] Hv]. apply wp_bind. eapply wp_create; [done..| |]; [intros _; apply wp_ret; split; [done|by apply frugal_same]|]. intros n Ealloc _ _ S'. apply wp_ret.
    split; [apply (whole_tame s); [done..|]; split; [done|by left]|]. pose proof (zalloc_fresh _ _ Ealloc) as [Hns _]%not_elem_of_union. apply frugal_created. by apply not_elem_of_dom.
  - destruct Hok as [[tk Ek] [x Ex]]. apply wp_bind. destruct (decide (sem_owner x = Some k)) as [Ho|Ho].
    + eapply wp_semaphore_destroy; [done..|]. intros m s' _ S'. apply wp_ret. split; [apply (whole_tame s); [done..|apply tame_dropped]|by apply frugal_dropped].
    + eapply wp_semaphore_destroy_other; [done..|]. intros s' S' Ht Hf. apply wp_ret. split; [by apply (whole_tame s)|done].
  - destruct Hok as [tk Ek]. eapply wp_mono; [by eapply wp_destroy_all|]. cbv beta. intros _ s' C. split; [by apply (whole_tame s); [|apply C..]|apply C].
  - destruct Hok as (x & Ex & Hr). eapply wp_mono; [by eapply acted_reference|]. cbv beta. intros _ s' (_ & ?). done.
  - destruct Hok as [x Ex]. by eapply acted_dereference.
  - destruct Hok as [y Ey]. apply whole_waits; [done|]. by eapply whole_fires.
  - destruct Hok as [y Ey]. apply whole_waits; [done|]. eapply wp_sigexc_enter; [apply K|done|]. intros w' _. by apply whole_signalled.
  - destruct Hok as [y Ey]. apply whole_waits; [done|]. eapply wp_dying; [apply K|done|]. intros w' _. by apply whole_signalled.
  - apply wp_bind, wp_waitq_do. eapply wp_mono; [by apply whole_works|]. cbv beta. intros _ w (K' & Hk & Hf). apply wp_ret. split; [by apply whole_fewer|by apply frugal_same].
Qed.
Inductive sem_reach (s : st) : st -> Prop :=
| sem_reach_start : sem_reach s s
| sem_reach_act s1 a s2 : sem_reach s s1 -> sem_enabled s1 a -> sem_perform a s1 = Ret tt s2 -> sem_reach s s2.
(** C27: over every sequence of creations, waits (with or without a deadline, and without a
    second semaphore to signal), signals, references, destructions, time-outs, signals and
    deaths of threads and worker runs, semaphores, their tasks and their sleepers agree: a
    live semaphore is on its owner's list, once, a dead one has no sleepers, the count
    says -1 while there are sleepers, every semaphore in use has a reference, and no lock
    is left held.  In every state so reached, each of these calls whose semaphore, task
    and thread exist returns or blocks its thread (a semaphore's units and references
    staying below their limits, and only threads that are not waiting starting to wait).
    What a wait does after its thread has blocked and runs again, the conversion of its
    result ([semaphore_wait_return]), is not part of the sequences: it changes nothing, and
    it panics after the time-out of a thread that was already woken
    ([SemaRuns.lost_signal_stops_server]). *)
Theorem semaphores_account_kept s s' :
  whole s -> sem_reach s s' -> whole s' /\ forall a, sem_enabled s' a -> exists s'', sem_perform a s' = Ret tt s''.
Proof.
  intros Hw Hr. assert (whole s') as Hw'.
  { induction Hr as [|s1 a s2 Hr IH Hok Ha]; [done|]. pose proof (whole_act a s1 IH Hok) as Hs. unfold wp in Hs. rewrite Ha in Hs. apply Hs. }
  split; [done|]. intros a Hok. destruct (proj1 (wp_run _ _ _) (whole_act a s' Hw' Hok)) as ([] & s'' & E & _). eauto.
Qed.
End SemaLife.
End SemaLife.
