(* ===== verification/SemaRuns.v ===== *)
(** * Runs of semaphores

    Down and up meet; and the run in which a wait timer that expires between a signal
    and its delivery loses the signal and, at the thread's next wait, stops the
    server. *)
From S2P Require Import Prelude WaitQ WaitQProps Blocking WaitSpec WaitRuns Sema SemaProps SemaSpec SemaLife.

Module SemaRuns.
Export SemaLife.
Section SemaRuns.
Context {T : Type} `{TimerCall T} `{!TimerCallLaws T} `{Kernel} `{SemaEnv}.
Notation st := (sst T).
Implicit Types s : st.

(** *** The steps of a run, by what they leave *)
Definition live (s : st) (n : nat) (u : Z) (l : list nat) : Prop := view s n = Some (u, l).
(** A thread asserts its wait on a semaphore of no units. *)
Lemma wp_begin_wait t y n d l s (Q : Z -> st -> Prop) :
  whole s -> live s n 0 l -> threads (ws s) !! t = Some y -> t_waitq y = None ->
  (forall s' l', whole s' -> live s' n 0 l' -> (l' = l ++ [t] \/ l' = t :: l) -> (forall p, p <> n -> view s' p = view s p) -> (forall p, p <> n -> semas s' !! p = semas s !! p) ->
     threads (ws s') !! t = Some (parked_at n SEMAPHORE_EVENT d (hinted y)) -> workq (ws s') = workq (ws s) -> Q KERN_ALREADY_WAITING s') ->
  wp (semaphore_wait_begin t n d SEMAPHORE_OPTION_NONE) Q s.
Proof.
  intros Hw Hl Ey Hy HQ. destruct (view_active _ _ _ _ Hl) as (x & Ex & Ha & Hu & Hn). unfold units in Hu. pose proof (whole_swf _ Hw) as S.
  eapply (wp_wait_begin n x t y); [done..|congruence|intros _ ?; lia|done|]. intros wq _ Hc _ Eq s' S'.
  assert (Hsl : forall p, sleepers s' p = if decide (p = n) then if waits_fifo wq y then sleepers s p ++ [t] else t :: sleepers s p else sleepers s p) by (intros p; by apply (sleepers_enrolled (Lk := ∅) n x)).
  assert (Hse : forall p, p <> n -> semas s' !! p = semas s !! p) by (intros p Hp; unfold s', enrolled; by apply (on_sema_out n _ s)).
  apply (HQ s' (sleepers s' n)).
  - apply (whole_tame s); [done..|]. split; [apply enrolled_dom|by left].
  - unfold live. by rewrite (view_of s' n (x <| sem_count := -1 |>)); [|unfold s', enrolled; by apply (on_sema_in n _ s)|].
  - rewrite Hsl, decide_True, Hn by done. destruct (waits_fifo wq y); auto.
  - intros p Hp. apply view_other; [by apply Hse|]. intros _. by rewrite Hsl, decide_False.
  - exact Hse.
  - by apply enrolled_thread.
  - done.
Qed.
(** It goes to sleep when nothing has ended the wait. *)
Lemma wp_sleep_after cont t z s (Q : wait_end -> st -> Prop) :
  whole s -> threads (ws s) !! t = Some z -> t_state z = TH_WAIT ->
  (forall s', whole s' -> (forall p, view s' p = view s p) -> semas s' = semas s -> sth s' = sth s -> threads (ws s') !! t = Some (suspended cont z) -> workq (ws s') = workq (ws s) -> Q Blocked s') ->
  wp (r <- waitq_do (thread_block_parameter t cont) ;;
      match r with
      | None => ret Blocked
      | Some wr => if cont then kr <- semaphore_wait_continue t wr ;; ret (Left kr) else kr <- semaphore_wait_return wr ;; ret (Returned kr)
      end) Q s.
Proof.
  intros Hw Ez Hst HQ. apply wp_bind, wp_waitq_do. eapply wp_thread_block; [apply (whole_swf _ Hw)|exact Ez|]. rewrite Hst. change (has TH_WAIT TH_WAIT) with true. cbv iota.
  intros w' W'. apply wp_ret. apply HQ.
  - apply (whole_tame s); [done|exact (swf_inner (suspended cont) t s (inner_suspended cont) (whole_swf _ Hw))|]. split; [apply (dom_on_threads {[t]} (suspended cont) (ws s))|by left].
  - intros p. apply view_other; [done|]. intros _. unfold sleepers. apply waiters_threads. intros u v _ _. apply inner_suspended.
  - done.
  - done.
  - apply (on_threads_in _ _ (ws s) t z Ez). set_solver.
  - done.
Qed.
Lemma wp_down_alone t y n d s (Q : option Z -> st -> Prop) :
  whole s -> live s n 0 [] -> threads (ws s) !! t = Some y -> t_waitq y = None ->
  (forall s', whole s' -> live s' n 0 [t] -> threads (ws s') !! t = Some (asleep n SEMAPHORE_EVENT d false (hinted y)) -> workq (ws s') = workq (ws s) -> Q None s') ->
  wp (semaphore_wait_kernel t n None d SEMAPHORE_OPTION_NONE) Q s.
Proof.
  intros Hw Hl Ey Hy HQ. destruct (view_active _ _ _ _ Hl) as (x & Ex & Ha & Hu & Hn). unfold units in Hu.
  eapply (wp_wait_none n x t y); [apply Hw|done..|congruence|intros _ ?; lia|done|]. intros wq _ Hc _ Eq s' S'. apply HQ.
  - apply (whole_tame s); [done..|]. split; [apply parked_dom|by left].
  - unfold live. rewrite (view_of s' n (x <| sem_count := -1 |>)); [|unfold s', parked, enrolled; by apply (on_sema_in n _ s)|done]. replace (units (x <| sem_count := -1 |>)) with 0 by done. do 2 f_equal.
    unfold s'. rewrite sleepers_parked. rewrite (sleepers_enrolled n x wq d t y s n (whole_swf _ Hw) Ex Eq Ey Hy), decide_True, Hn by done. by destruct (waits_fifo wq y).
  - unfold s', parked, asleep. change (ws (on_ws ?f ?s)) with (f (ws s)). apply on_threads_in; [by apply enrolled_thread|set_solver].
  - done.
Qed.
Lemma wp_up_sleeper t y n s (Q : Z -> st -> Prop) :
  whole s -> live s n 0 [t] -> threads (ws s) !! t = Some y -> t_suspended y = true ->
  (forall s', whole s' -> live s' n 0 [] -> threads (ws s') !! t = Some (result_is THREAD_AWAKENED (off y)) -> workq (ws s') = workq (ws s) ++ [t] -> Q KERN_SUCCESS s') ->
  wp (semaphore_signal (Some n)) Q s.
Proof.
  intros Hw Hl Ey Hs HQ. destruct (view_active _ _ _ _ Hl) as (x & Ex & Ha & Hu & Hn). pose proof (whole_swf _ Hw) as S. cbn [semaphore_signal]. apply wp_bind.
  eapply (wp_signal_one n x); [done..|lia|]. intros m. cbv zeta. unfold signalled_state. rewrite Hn, decide_False by done. change (take 1 [t]) with [t]. intros S'. apply wp_ret. apply HQ.
  - apply (whole_tame s); [done..|by apply (tame_woken n [t] m THREAD_AWAKENED)].
  - unfold live. rewrite (view_of _ n x) by done. rewrite Hu, sleepers_woken, Hn by done. by rewrite filter_notin_self.
  - apply woken_thread; [set_solver|done].
  - change (workq (ws s) ++ filter (is_suspended (ws s)) [t] = workq (ws s) ++ [t]). rewrite (suspended_work t y) by done. by rewrite Hs.
Qed.
Lemma wp_sem_worker t y l n u k s (Q : option (nat * Z) -> st -> Prop) :
  whole s -> live s n u k -> workq (ws s) = t :: l -> threads (ws s) !! t = Some y -> t_suspended y = true -> t_running y = false ->
  (forall s', whole s' -> live s' n u k -> threads (ws s') !! t = Some (awake y) -> workq (ws s') = l -> Q (Some (t, t_wait_result y)) s') ->
  wp (waitq_do worker) Q s.
Proof.
  intros Hw Hl El Ey Hs Hr HQ. apply wp_waitq_do. assert (Hf := whole_works (ws s) (whole_kept _ Hw)).
  assert (Hx : wp worker (fun r w => r = Some (t, t_wait_result y) /\ threads w !! t = Some (awake y) /\ workq w = l /\ forall q e, waiters w q e = waiters (ws s) q e) (ws s)).
  { eapply wp_run_sleeper; [by apply whole_kept|done..|]. intros w K Et Hq Hwt _. done. }
  eapply wp_mono; [exact (wp_and _ _ _ _ Hf Hx)|]. cbv beta. intros r w [(K & Hk & Hfw) (-> & Et & Hq & Hwt)]. apply HQ; [by apply whole_fewer| |done|done].
  unfold live in *. rewrite <- Hl. apply view_other; [done|]. intros _. apply Hwt.
Qed.

(** a thread that takes a semaphore of no units blocks, the next up releases it and
    leaves no unit, and the thread's [dtape_semaphore_down] returns success. *)
Theorem down_meets_up k t y n s :
  whole s -> live s n 0 [] -> threads (ws s) !! t = Some y -> t_waitq y = None -> workq (ws s) = [] ->
  wp (r <- dtape_semaphore_down t (k, n) ;; dtape_semaphore_up (k, n) ;;; w <- waitq_do worker ;; ret (r, w))
    (fun '(r, w) s' => r = None /\ w = Some (t, THREAD_AWAKENED) /\ whole s' /\ live s' n 0 [] /\
       wp (semaphore_wait_return THREAD_AWAKENED) (fun kr s'' => down_result kr = wait_result_ok /\ s'' = s') s') s.
Proof.
  intros Hw Hl Ey Hy Hidle. destruct (asleep_fields n SEMAPHORE_EVENT 0 false (hinted y)) as (_ & _ & Hs & Hr & _).
  apply wp_bind. apply (wp_bind (semaphore_wait_kernel t n None 0 SEMAPHORE_OPTION_NONE)). eapply wp_down_alone; [done..|].
  revert Hs Hr. generalize (asleep n SEMAPHORE_EVENT 0 false (hinted y)). intros y1 Hs Hr s1 W1 L1 E1 Q1. apply wp_ret.
  apply wp_bind. apply (wp_bind (semaphore_signal (Some n))). eapply wp_up_sleeper; [done..|]. rewrite Q1, Hidle. intros s2 W2 L2 E2 Q2. apply wp_ensure; [done|].
  apply wp_bind. eapply (wp_sem_worker t _ [] n); [done..|]. intros s3 W3 L3 _ _. apply wp_ret. done.
Qed.


(** ** Waiting on one semaphore and signalling another *)
Definition handoff : Z := Z.lor SEMAPHORE_SIGNAL_PREPOST SEMAPHORE_THREAD_HANDOFF.

(** [semaphore_wait_signal] on two live semaphores puts the thread to sleep on the
    first and is an up of the second. *)
Theorem wait_signal_hands_over t y n p a l s :
  whole s -> live s n 0 l -> view s p = Some a -> p <> n -> may_call s p Up -> threads (ws s) !! t = Some y -> t_waitq y = None ->
  wp (semaphore_wait_signal t (Some n) (Some p))
    (fun r s' => r = None /\ whole s' /\ view s' p = Some (next Up a) /\ (live s' n 0 (l ++ [t]) \/ live s' n 0 (t :: l)) /\
       exists z, threads (ws s') !! t = Some z /\ t_suspended z = true /\ t_waitq z = Some n) s.
Proof.
  intros Hw Hl Hp Hpn Hok Ey Hy. cbn [semaphore_wait_signal]. unfold semaphore_wait_kernel, semaphore_wait_internal. apply wp_bind, wp_bind.
  eapply wp_begin_wait; [done..|]. intros s1 l' W1 L1 Hl' V1 M1 E1 _. cbn [semaphore_wait_signals]. change (KERN_ALREADY_WAITING =? KERN_ALREADY_WAITING) with true. cbv iota. apply wp_bind.
  destruct (parked_fields n SEMAPHORE_EVENT 0 (hinted y)) as (Pq & _ & _ & Ps & _). revert Pq Ps E1. generalize (parked_at n SEMAPHORE_EVENT 0 (hinted y)). intros y1 Pq Ps E1.
  apply wp_bind. assert (Hp1 : view s1 p = Some a) by (by rewrite V1). assert (Hok1 : may_call s1 p Up) by (intros x Ex; apply Hok; by rewrite <- M1).
  eapply wp_mono; [by apply (conforms_signal p handoff a s1); [apply W1|..]|]. cbv beta. intros kr s2 (Hkr%Z.eqb_neq & Hsame & _ & C). rewrite Hkr. apply wp_ret. cbn [negb when]. apply wp_bind, wp_ret.
  pose proof (whole_conforms _ _ _ _ _ _ W1 C) as W2. assert (Hout : t ∉ released Up a).
  { intros Hin. destruct a as [u k]. destruct (view_active _ _ _ _ Hp1) as (x & Ex & _ & _ & Hk). assert (t ∈ sleepers s1 p) as Ht by (rewrite Hk; by destruct k; [|apply list_elem_of_singleton in Hin as ->; left]).
    apply waiters_elem in Ht. unfold matches in Ht. rewrite E1 in Ht. destruct Ht. congruence. }
  assert (E2 : threads (ws s2) !! t = Some y1) by (by rewrite Hsame).
  eapply (wp_sleep_after false); [exact W2|exact E2|exact Ps|]. intros s3 W3 V3 _ _ E3 _. apply wp_ret. split_and!; [done..|by rewrite V3, (cf_view _ _ _ _ _ _ C)| |].
  - unfold live in *. rewrite !V3, !(cf_others _ _ _ _ _ _ C) by done. rewrite L1. destruct Hl' as [-> | ->]; auto.
  - eexists. split; [exact E3|]. destruct (suspended_fields false y1) as (_ & Hs & _). split; [done|by rewrite suspended_waitq].
Qed.
Lemma unlink_last (t : nat) l : t ∉ l -> unlink t (l ++ [t]) = l.
Proof. induction l as [|u l IH]; cbn; intros Hn; [by rewrite decide_True|]. rewrite decide_False by set_solver. by rewrite IH by set_solver. Qed.
(** if the semaphore to be signalled is dead, the wait is undone: the call reports it
    at once, and the thread is not among the sleepers. *)
Theorem wait_signal_dead_undone t y n p x l s :
  whole s -> live s n 0 l -> semas s !! p = Some x -> sem_active x = false -> threads (ws s) !! t = Some y -> t_waitq y = None -> t_suspended y = false ->
  wp (semaphore_wait_signal t (Some n) (Some p))
    (fun r s' => r = Some KERN_TERMINATED /\ whole s' /\ live s' n 0 l /\ workq (ws s') = workq (ws s) /\ exists z, threads (ws s') !! t = Some z /\ t_waitq z = None /\ t_suspended z = false) s.
Proof.
  intros Hw Hl Ep Hdead Ey Hy Hs. assert (Hpn : p <> n) by (intros ->; destruct (view_active _ _ _ _ Hl) as (x' & Ex' & Ha & _); congruence).
  assert (Hnew : t ∉ l) by (destruct (view_active _ _ _ _ Hl) as (_ & _ & _ & _ & <-); intros Hin%waiters_elem; unfold matches in Hin; rewrite Ey in Hin; destruct Hin; congruence).
  cbn [semaphore_wait_signal]. unfold semaphore_wait_kernel, semaphore_wait_internal. apply wp_bind, wp_bind.
  eapply wp_begin_wait; [done..|]. intros s1 l' W1 L1 Hl' V1 M1 E1 Q1. cbn [semaphore_wait_signals]. change (KERN_ALREADY_WAITING =? KERN_ALREADY_WAITING) with true. cbv iota.
  destruct (parked_fields n SEMAPHORE_EVENT 0 (hinted y)) as (_ & _ & _ & Ps & _ & Pu & _). change (t_suspended (hinted y)) with (t_suspended y) in Pu. rewrite Hs in Pu.
  revert Ps Pu E1. generalize (parked_at n SEMAPHORE_EVENT 0 (hinted y)). intros y1 Ps Pu E1.
  apply wp_bind, wp_bind. eapply (wp_signal_dead p x); [apply W1|by rewrite M1|done|]. change (KERN_TERMINATED =? KERN_TERMINATED) with true. cbv iota.
  pose proof (sleepers_cleared t y1 THREAD_INTERRUPTED s1) as Hsl. pose proof (swf_cleared t y1 THREAD_INTERRUPTED s1 (whole_swf _ W1) E1 Ps) as S2.
  destruct (cleared_waiting t y1 THREAD_INTERRUPTED (ws s1) (sw_kept _ _ _ (whole_swf _ W1)) E1 Ps) as (_ & Hwk & _ & z & Ez & Hz & Hsz & _ & Hqz).
  apply wp_bind, wp_waitq_do. eapply wp_clear_wait; [apply W1|exact E1|]. intros W'. set (s2 := on_ws _ s1).
  apply wp_bind, wp_waitq_do. eapply wp_thread_deref; [exact Ez|]. change (on_ws _ s2) with s2. rewrite Hz.
  apply wp_bind. apply wp_ret, wp_ret. apply wp_ret. rewrite (suspended_work t y1), Pu, app_nil_r in Hwk by done. split_and!; [done| | |exact (eq_trans Hwk Q1)|].
  - apply (whole_tame s1); [done|exact S2|]. split; [apply cleared_dom|]. intros u Hu. left. change (u ∈ workq (snd (cleared t THREAD_INTERRUPTED (ws s1)))) in Hu. by rewrite Hwk in Hu.
  - destruct (view_active _ _ _ _ L1) as (v & Ev & Hv & Hu & Hn1). unfold live. rewrite (view_of s2 n v) by done. rewrite Hu. do 2 f_equal. transitivity (unlink t l'); [rewrite <- Hn1; exact (Hsl n (whole_swf _ W1) E1 Ps)|].
    destruct Hl' as [-> | ->]; [|apply unlink_head]. by apply unlink_last.
  - exists z. split_and!; [exact Ez|done|by rewrite Hsz].
Qed.

(** a thread that waits on the semaphore it signals takes its own signal before it
    sleeps: the up is consumed by a wake-up that does not reach it, and it sleeps on no
    queue, out of reach of any later up. *)
Theorem wait_signal_self_lost t y n s :
  whole s -> live s n 0 [] -> threads (ws s) !! t = Some y -> t_waitq y = None -> t_suspended y = false -> t ∉ workq (ws s) ->
  wp (semaphore_wait_signal t (Some n) (Some n))
    (fun r s' => r = None /\ whole s' /\ live s' n 0 [] /\ t ∉ workq (ws s') /\ (forall q e, t ∉ waiters (ws s') q e) /\
       exists z, threads (ws s') !! t = Some z /\ t_suspended z = true /\ t_waitq z = None /\ t_wait_result z = THREAD_AWAKENED) s.
Proof.
  intros Hw Hl Ey Hy Hs Hidle. cbn [semaphore_wait_signal]. unfold semaphore_wait_kernel, semaphore_wait_internal. apply wp_bind, wp_bind.
  eapply wp_begin_wait; [done..|]. intros s1 l' W1 L1 Hl' _ _ E1 Q1. assert (l' = [t]) as -> by (by destruct Hl').
  cbn [semaphore_wait_signals]. change (KERN_ALREADY_WAITING =? KERN_ALREADY_WAITING) with true. cbv iota.
  destruct (parked_fields n SEMAPHORE_EVENT 0 (hinted y)) as (_ & _ & _ & Ps & _ & Pu & _). change (t_suspended (hinted y)) with (t_suspended y) in Pu. rewrite Hs in Pu.
  revert Ps Pu E1. generalize (parked_at n SEMAPHORE_EVENT 0 (hinted y)). intros y1 Ps Pu E1.
  destruct (view_active _ _ _ _ L1) as (x & Ex & Ha & Hu & Hn). apply wp_bind, wp_bind. eapply (wp_signal_one n x); [apply W1|done..|lia|]. intros m. cbv zeta. unfold signalled_state.
  rewrite Hn, decide_False by done. change (take 1 [t]) with [t]. intros S2. set (s2 := on_ws _ s1) in *. change (woken_if [t] =? KERN_TERMINATED) with false. apply wp_ret. cbn [negb when]. apply wp_bind, wp_ret.
  assert (W2 : whole s2) by (apply (whole_tame s1); [done..|by apply (tame_woken n [t] m THREAD_AWAKENED)]).
  assert (E2 : threads (ws s2) !! t = Some (result_is THREAD_AWAKENED (off y1))) by (apply woken_thread; [set_solver|done]).
  eapply (wp_sleep_after false); [exact W2|exact E2|exact Ps|]. intros s3 W3 V3 _ _ E3 Q3. apply wp_ret. split_and!; [done..| | | |].
  - unfold live. rewrite V3, (view_of _ n x) by done. unfold s2. rewrite Hu, sleepers_woken, Hn by apply W1. by rewrite filter_notin_self.
  - rewrite Q3. change (workq (ws s2)) with (workq (ws s1) ++ filter (is_suspended (ws s1)) [t]). by rewrite (suspended_work t y1), Pu, app_nil_r, Q1 by done.
  - intros q e Hin%waiters_elem. unfold matches in Hin. rewrite E3 in Hin. destruct Hin as [Hin _]. by rewrite suspended_waitq in Hin.
  - eexists. split; [exact E3|]. destruct (suspended_fields false (result_is THREAD_AWAKENED (off y1))) as (_ & Hsu & _ & Hr & _). split_and!; [done|by rewrite suspended_waitq|by rewrite Hr].
Qed.

(** ** The start: nobody waits *)
Definition in_order (s : st) (n : nat) (x : semaphore) : bool :=
  bool_decide (g_num_waitqs <= n)%nat && bool_decide (waitq_irq <$> waitqs (ws s) !! n = Some true) && (-1 <=? sem_count x) && (sem_count x <? 2 ^ 31) && (1 <=? sem_ref_count x) &&
  (if sem_active x then from_option (fun k => from_option (fun tk => bool_decide (n ∈ tk_semaphore_list tk)) false (stasks s !! k)) false (sem_owner x)
   else bool_decide (sem_owner x = None) && (sem_count x =? 0)).
Definition task_in_order (s : st) (k : nat) (tk : stask) : bool :=
  forallb (fun n => from_option (fun x => sem_active x && bool_decide (sem_owner x = Some k)) false (semas s !! n)) (tk_semaphore_list tk) &&
  bool_decide (NoDup (tk_semaphore_list tk)) && (tk_semaphores_owned tk =? s32 (Z.of_nat (length (tk_semaphore_list tk)))) && negb (tk_locked tk).
Record opened (s : st) : Prop := {
  open_waits : booted (ws s);
  open_semas : map_Forall (in_order s) (semas s);
  open_tasks : map_Forall (task_in_order s) (stasks s);
}.
Lemma opened_empty s n : opened s -> sleepers s n = [].
Proof.
  intros O. unfold sleepers. destruct (waiters (ws s) n SEMAPHORE_EVENT) as [|t l] eqn:E; [done|]. assert (t ∈ waiters (ws s) n SEMAPHORE_EVENT) as Ht by (rewrite E; left). apply waiters_elem in Ht.
  unfold matches in Ht. destruct (threads (ws s) !! t) as [y|] eqn:Ey; [|done]. destruct (boot_threads _ (open_waits _ O) t y Ey) as [? _]. destruct Ht. congruence.
Qed.
Lemma opened_whole s : opened s -> whole s.
Proof.
  intros O. pose proof O as [B Hs Hk]. split; [|intros t; rewrite (boot_work _ B); by intros ?%elem_of_nil].
  assert (Hx : forall n x, semas s !! n = Some x -> (g_num_waitqs <= n)%nat /\ waitq_irq <$> waitqs (ws s) !! n = Some true /\ (-1 <= sem_count x < 2 ^ 31) /\ 1 <= sem_ref_count x /\
    (if sem_active x then from_option (fun k => from_option (fun tk => bool_decide (n ∈ tk_semaphore_list tk)) false (stasks s !! k)) false (sem_owner x) = true else sem_owner x = None /\ sem_count x = 0)).
  { intros n x Ex. specialize (Hs n x Ex). unfold in_order in Hs. rewrite !Is_true_true, !andb_true_iff, !bool_decide_eq_true in Hs. destruct Hs as (((((? & ?) & ?%Z.leb_le) & ?%Z.ltb_lt) & ?%Z.leb_le) & Ha).
    split_and!; try done. destruct (sem_active x); [done|]. rewrite andb_true_iff, bool_decide_eq_true in Ha. destruct Ha as [? ?%Z.eqb_eq]. done. }
  assert (Ht : forall k tk, stasks s !! k = Some tk -> (forall n, n ∈ tk_semaphore_list tk -> from_option (fun x => sem_active x && bool_decide (sem_owner x = Some k)) false (semas s !! n) = true) /\
    NoDup (tk_semaphore_list tk) /\ tk_semaphores_owned tk = s32 (Z.of_nat (length (tk_semaphore_list tk))) /\ tk_locked tk = false).
  { intros k tk Ek. specialize (Hk k tk Ek). unfold task_in_order in Hk. rewrite Is_true_true, !andb_true_iff, bool_decide_eq_true, forallb_forall, negb_true_iff in Hk. destruct Hk as (((Hl & ?) & ?%Z.eqb_eq) & ?).
    split_and!; try done. intros n Hn. by apply Hl, list_elem_of_In. }
  constructor.
  - apply booted_settled in B. apply B.
  - intros n x Ex. destruct (Hx n x Ex) as (? & Hq & _). split; [done|]. destruct (waitqs (ws s) !! n) as [wq|]; [|done]. injection Hq as ?. eauto.
  - intros t y n x Ey Hy. destruct (boot_threads _ B t y Ey) as [? _]. congruence.
  - intros n x _ Hne. by rewrite (opened_empty s n O) in Hne.
  - intros n x Ex. by destruct (Hx n x Ex) as (_ & _ & ? & _).
  - intros n x Ex. by destruct (Hx n x Ex) as (_ & _ & _ & ? & _).
  - intros n x Ex. destruct (Hx n x Ex) as (_ & _ & _ & _ & Ha). destruct (sem_active x); [|done]. destruct (sem_owner x) as [k|] eqn:Eo; [|done]. cbn in Ha.
    destruct (stasks s !! k) as [tk|] eqn:Ek; [|done]. apply bool_decide_eq_true in Ha. by exists k, tk.
  - intros k tk n Ek Hn. destruct (Ht k tk Ek) as (Hl & _). specialize (Hl n Hn). destruct (semas s !! n) as [x|]; [|done]. apply andb_true_iff in Hl as [? ?%bool_decide_eq_true]. eauto.
  - intros k tk Ek. by destruct (Ht k tk Ek) as (_ & ? & _).
  - intros k tk Ek. by destruct (Ht k tk Ek) as (_ & _ & ? & _).
  - intros k tk Ek. destruct (Ht k tk Ek) as (_ & _ & _ & ->). done.
Qed.
Lemma opened_view s n x : opened s -> semas s !! n = Some x -> sem_active x = true -> view s n = Some (units x, []).
Proof. intros O Ex Ha. by rewrite (view_of s n x), (opened_empty s n O). Qed.
End SemaRuns.

(** ** A small server: task 1 owns semaphore 5 of no units and semaphore 6 of two, and
    semaphore 4 is dead but referenced. *)
Module SemaDemo.
Export Demo.
Lemma zalloc_next (X : gset nat) n : Some (fresh X) = Some n -> n ∉ X.
Proof. intros [= <-]. apply is_fresh. Qed.
#[global] Instance demo_env : SemaEnv := {| zalloc X := Some (fresh X); zalloc_fresh := zalloc_next; SEMAPHORE_EVENT := 7; mach_absolute_time := 1000 |}.
(** Thread 2 has never waited. *)
Definition unwaited_thread : thread bool := new_thread <| t_wait_result := THREAD_WAITING |>.
Definition idle_waits : wst bool :=
  mk_wst (<[1%nat := new_thread]> (<[2%nat := unwaited_thread]> ∅))
    (<[0%nat := new_waitq true]> (<[1%nat := new_waitq true]> (<[4%nat := new_waitq true]> (<[5%nat := new_waitq true]> (<[6%nat := new_waitq true]> ∅))))) [].
Definition no_units : semaphore := mk_semaphore (Some 1%nat) None 1 0 true.
Definition two_units : semaphore := mk_semaphore (Some 1%nat) None 1 2 true.
Definition defunct : semaphore := mk_semaphore None None 1 0 false.
Definition owner : stask := mk_stask true [5; 6]%nat 2 false.
Definition opening : sst bool := mk_sst idle_waits (<[4%nat := defunct]> (<[5%nat := no_units]> (<[6%nat := two_units]> ∅))) (<[1%nat := owner]> ∅) ∅ [].
Lemma idle_booted : booted idle_waits.
Proof.
  split.
  - intros q Hq. cbn in Hq. destruct q as [|[|q]]; [by vm_compute; eauto..|lia].
  - apply (bool_decide_unpack _). vm_compute. exact I.
  - apply (bool_decide_unpack _). vm_compute. exact I.
  - apply (bool_decide_unpack _). vm_compute. exact I.
  - done.
Qed.
Lemma opening_opened : opened opening.
Proof. split; [exact idle_booted|apply (bool_decide_unpack _); vm_compute; exact I..]. Qed.
Lemma opening_whole : whole opening.
Proof. exact (opened_whole _ opening_opened). Qed.
Lemma opening_swf : swf ∅ ∅ opening.
Proof. exact (whole_swf _ opening_whole). Qed.
Lemma opening_view n x : semas opening !! n = Some x -> sem_active x = true -> view opening n = Some (units x, []).
Proof. exact (opened_view opening n x opening_opened). Qed.
Lemma up_fits : may_call opening 6 Up.
Proof. intros x E. assert (x = two_units) as -> by (assert (semas opening !! 6%nat = Some two_units) as E' by reflexivity; congruence). done. Qed.

(** Thread 1 sleeps, and a signal lets it pass. *)
Lemma down_up_runs : exists g s, sem_run 5 opening [Down 1; Up] 1 g s /\ view s 5 = Some (0, []).
Proof.
  assert (view opening 5 = Some (0, [])) as Hv by exact (opening_view 5 no_units eq_refl eq_refl).
  assert (may_call opening 5 (Down 1)) as Hd by (exists new_thread, (new_waitq true); by split_and!).
  destruct (proj1 (wp_run _ _ _) (conforms_op 5 (Down 1) (0, []) opening opening_swf Hv Hd)) as (r1 & s1 & E1 & C1). pose proof (cf_view _ _ _ _ _ _ C1) as Hv1. cbn in Hv1.
  assert (may_call s1 5 Up) as Hu by (intros x Ex; destruct (view_active _ _ _ _ Hv1) as (y & Ey & _ & Hy & _); replace x with y by congruence; rewrite Hy; done).
  destruct (proj1 (wp_run _ _ _) (conforms_op 5 Up _ s1 (cf_swf _ _ _ _ _ _ C1) Hv1 Hu)) as (r2 & s2 & E2 & C2). exists (0 + passed 5 (Down 1) opening r1 s1 + passed 5 Up s1 r2 s2), s2.
  split; [|exact (cf_view _ _ _ _ _ _ C2)].
  exact (sem_run_op 5 opening [Down 1] 0 _ s1 Up r2 s2 (sem_run_op 5 opening [] 0 0 opening (Down 1) r1 s1 (sem_run_start 5 opening) Hd I E1) Hu I E2).
Qed.
Lemma units_conserved_witness : exists (g : Z) (s : sst bool), sem_run 5 opening [Down 1; Up] 1 g s /\ g = 1.
Proof.
  destruct down_up_runs as (g & s & Hr & Hv). exists g, s. split; [exact Hr|].
  destruct (units_conserved 5 opening 0 [] [Down 1; Up] 1 g s opening_swf (opening_view 5 no_units eq_refl eq_refl) (Z.le_refl 0) Hr) as (_ & u & l & Hv' & _ & Hu).
  assert (Some (u, l) = Some (0, [])) as [= -> ->] by (etransitivity; [symmetry; exact Hv'|exact Hv]). lia.
Defined.
Lemma destroy_restarts_sleepers_witness : wp (semaphore_destroy (Some 1%nat) (Some 5%nat)) (fun kr s => kr = KERN_SUCCESS /\ view s 5 = None /\ view s 6 = Some (2, [])) opening.
Proof.
  eapply wp_mono; [apply (destroy_restarts_sleepers 1 5 no_units opening opening_swf)|].
  - reflexivity.
  - reflexivity.
  - intros kr s (Hk & _ & Hn & Ho & _). split; [exact Hk|]. split; [exact Hn|]. rewrite (Ho 6%nat ltac:(lia)). exact (opening_view 6 two_units eq_refl eq_refl).
Defined.
Lemma destroy_all_closes_down_witness : wp (semaphore_destroy_all 1) (fun _ => task_ended 1 opening) opening.
Proof. apply (destroy_all_closes_down 1 owner opening opening_swf). reflexivity. Defined.
Lemma destroy_after_task_panics_witness :
  exists s, semaphore_destroy_all 1 opening = Ret tt s /\ dtape_semaphore_destroy (1, 5)%nat s = Panic "Failed to destroy duct-taped XNU semaphore".
Proof. apply (destroy_after_task_panics 1 5 no_units owner opening opening_swf); reflexivity. Defined.
Lemma semaphore_create_new_witness : wp (semaphore_create (Some 1%nat) 0 3) (fun '(kr, sem) s => kr = KERN_SUCCESS /\ exists n, sem = Some n /\ view s n = Some (3, [])) opening.
Proof.
  eapply wp_mono; [apply (semaphore_create_new 1 owner 0 3 opening opening_swf)|].
  - reflexivity.
  - lia.
  - intros [kr [n|]] s.
    + intros (Hk & _ & _ & _ & _ & Hv & _). split; [exact Hk|]. exists n. exact (conj eq_refl Hv).
    + intros (_ & Hn & _). exfalso. apply Hn. reflexivity.
Defined.
Lemma reach_up : exists s, sem_reach opening s.
Proof.
  assert (sem_enabled opening (SOp 6 Up)) as Hok by (split; [exists (2, []); exact (opening_view 6 two_units eq_refl eq_refl)|exact up_fits]).
  destruct (proj1 (wp_run _ _ _) (whole_act _ opening opening_whole Hok)) as ([] & s & E & _). exists s. eapply sem_reach_act; [apply sem_reach_start|exact Hok|exact E].
Qed.
Lemma semaphores_account_kept_witness : exists s, sem_reach opening s /\ whole s.
Proof. destruct reach_up as [s Hs]. exists s. split; [exact Hs|]. apply (proj1 (semaphores_account_kept opening s opening_whole Hs)). Defined.
Lemma down_meets_up_witness :
  wp (r <- dtape_semaphore_down 1 (1, 5)%nat ;; dtape_semaphore_up (1, 5)%nat ;;; w <- waitq_do worker ;; ret (r, w)) (fun '(r, w) s => r = None /\ w = Some (1%nat, THREAD_AWAKENED)) opening.
Proof.
  eapply wp_mono; [apply (down_meets_up 1 1 new_thread 5 opening opening_whole)|].
  - exact (opening_view 5 no_units eq_refl eq_refl).
  - reflexivity.
  - reflexivity.
  - reflexivity.
  - intros [r w] s (Hr & Hw & _). exact (conj Hr Hw).
Defined.
Lemma wait_signal_hands_over_witness : wp (semaphore_wait_signal 1 (Some 5%nat) (Some 6%nat)) (fun r s => r = None /\ view s 6 = Some (3, [])) opening.
Proof.
  eapply wp_mono; [apply (wait_signal_hands_over 1 new_thread 5 6 (2, []) [] opening opening_whole)|].
  - exact (opening_view 5 no_units eq_refl eq_refl).
  - exact (opening_view 6 two_units eq_refl eq_refl).
  - lia.
  - exact up_fits.
  - reflexivity.
  - reflexivity.
  - intros r s (Hr & _ & Hv & _). exact (conj Hr Hv).
Defined.
Lemma wait_signal_dead_undone_witness : wp (semaphore_wait_signal 1 (Some 5%nat) (Some 4%nat)) (fun r s => r = Some KERN_TERMINATED /\ view s 5 = Some (0, [])) opening.
Proof.
  eapply wp_mono; [apply (wait_signal_dead_undone 1 new_thread 5 4 defunct [] opening opening_whole)|].
  - exact (opening_view 5 no_units eq_refl eq_refl).
  - reflexivity.
  - reflexivity.
  - reflexivity.
  - reflexivity.
  - reflexivity.
  - intros r s (Hr & _ & Hv & _). exact (conj Hr Hv).
Defined.
Lemma wait_signal_self_lost_witness : wp (semaphore_wait_signal 1 (Some 5%nat) (Some 5%nat)) (fun r s => r = None /\ view s 5 = Some (0, [])) opening.
Proof.
  eapply wp_mono; [apply (wait_signal_self_lost 1 new_thread 5 opening opening_whole)|].
  - exact (opening_view 5 no_units eq_refl eq_refl).
  - reflexivity.
  - reflexivity.
  - reflexivity.
  - apply not_elem_of_nil.
  - intros r s (Hr & _ & Hv & _). exact (conj Hr Hv).
Defined.
End SemaDemo.
End SemaRuns.
