(* ===== verification/SemaTraps.v ===== *)
(** * Semaphore traps

    The entry points of clients, which name semaphores by Mach ports
    ([xnu/osfmk/kern/sync_sema.c], [ipc_sync.c]).  A trap takes a reference of each
    semaphore it names; if it blocks, the references pass to the continuation.  The
    theorem is that no reference is lost or given back twice: a thread that is
    blocked in a trap finds its semaphores when it runs again. *)
From S2P Require Import Prelude WaitQ WaitQProps Blocking WaitSpec WaitRuns Sema SemaProps SemaSpec SemaLife SemaRuns.

Definition KERN_INVALID_NAME : Z := 15.
Definition KERN_INVALID_CAPABILITY : Z := 20.
Definition MACH_PORT_NULL : Z := 0.
Definition MACH_PORT_DEAD : Z := 2 ^ 32 - 1.

(** The port names of the client: the port that a send right names or an error, the
    semaphore that a port stands for, and the thread that a name stands for. *)
Class Ports := {
  ipc_port_translate_send : Z -> Z + nat;
  translate_fails name kr : ipc_port_translate_send name = inl kr -> kr <> 0;
  ip_get_semaphore : nat -> option nat;
  port_name_to_thread : Z -> option nat;
}.

Module SemaTraps.
Export SemaRuns.
Section SemaTraps.
Context {T : Type} `{TimerCall T} `{!TimerCallLaws T} `{Kernel} `{SemaEnv} `{Ports}.
Notation st := (sst T).
Implicit Types s : st.
Implicit Types x : semaphore.

(** ** The traps *)
Definition MACH_PORT_VALID (name : Z) : bool := negb (name =? MACH_PORT_NULL) && negb (name =? MACH_PORT_DEAD).
Definition convert_port_to_semaphore (port : nat) : MS T (option nat) :=
  match ip_get_semaphore port with
  | Some n => semaphore_reference n ;;; ret (Some n)
  | None => ret None
  end.
Definition port_name_to_semaphore (name : Z) : MS T (Z * option nat) :=
  if negb (MACH_PORT_VALID name) then ret (KERN_INVALID_NAME, None)
  else
    match ipc_port_translate_send name with
    | inl kr => ret (kr, None)
    | inr port =>
        sem <- convert_port_to_semaphore port ;;
        ret (match sem with None => KERN_INVALID_CAPABILITY | Some _ => KERN_SUCCESS end, sem)
    end.

(** The reference of the thread that [port_name_to_thread] gives is not modelled. *)
Definition semaphore_signal_thread_trap (sema_name thread_name : Z) : MS T Z :=
  let signal thread :=
    r <- port_name_to_semaphore sema_name ;;
    match r with
    | (_, Some n) => kr <- semaphore_signal_internal n thread SEMAPHORE_OPTION_NONE ;; semaphore_dereference (Some n) ;;; ret kr
    | (kr, None) => ret kr
    end in
  if thread_name =? MACH_PORT_NULL then signal None
  else match port_name_to_thread thread_name with None => ret KERN_INVALID_ARGUMENT | Some t => signal (Some t) end.
Definition signal_trap (options name : Z) : MS T Z :=
  r <- port_name_to_semaphore name ;;
  match r with
  | (_, Some n) => kr <- semaphore_signal_internal n None options ;; semaphore_dereference (Some n) ;;; ret (not_waiting_is_success kr)
  | (kr, None) => ret kr
  end.
Definition semaphore_signal_internal_trap (name : Z) : MS T Z := signal_trap SEMAPHORE_SIGNAL_PREPOST name.
Definition semaphore_signal_trap (name : Z) : MS T Z := semaphore_signal_internal_trap name.
Definition semaphore_signal_all_trap (name : Z) : MS T Z := signal_trap SEMAPHORE_SIGNAL_ALL name.

(** What follows [semaphore_wait_internal] in a trap: the references are given back only
    if it returns.  [None] when the thread has blocked, otherwise the client's code. *)
Definition wait_ends (e : wait_end) (sems : list nat) : MS T (option Z) :=
  match e with
  | Returned kr => foldr (fun n m => semaphore_dereference (Some n) ;;; m) (ret tt) sems ;;; ret (Some kr)
  | _ => ret (returned e)
  end.
Definition semaphore_wait_trap_internal (self : nat) (name : Z) : MS T (option Z) :=
  r <- port_name_to_semaphore name ;;
  match r with
  | (_, Some n) => e <- semaphore_wait_internal self n None 0 SEMAPHORE_OPTION_NONE true ;; wait_ends e [n]
  | (kr, None) => ret (Some kr)
  end.
Definition semaphore_wait_trap (self : nat) (name : Z) : MS T (option Z) := semaphore_wait_trap_internal self name.
Definition BAD_MACH_TIMESPEC (nsec : Z) : bool := (nsec <? 0) || (NSEC_PER_SEC <=? nsec).
Definition timed (sec nsec : Z) : Z * Z :=
  if (sec =? 0) && (nsec =? 0) then (0, SEMAPHORE_TIMEOUT_NOBLOCK) else (semaphore_deadline sec nsec, SEMAPHORE_OPTION_NONE).
Definition semaphore_timedwait_trap_internal (self : nat) (name sec nsec : Z) : MS T (option Z) :=
  if BAD_MACH_TIMESPEC nsec then ret (Some KERN_INVALID_VALUE)
  else
    r <- port_name_to_semaphore name ;;
    match r with
    | (_, Some n) => let '(deadline, option) := timed sec nsec in e <- semaphore_wait_internal self n None deadline option true ;; wait_ends e [n]
    | (kr, None) => ret (Some kr)
    end.
Definition semaphore_timedwait_trap (self : nat) (name sec nsec : Z) : MS T (option Z) := semaphore_timedwait_trap_internal self name sec nsec.
Definition wait_signal_named (self : nat) (wait_name signal_name deadline option : Z) : MS T (Datatypes.option Z) :=
  r <- port_name_to_semaphore signal_name ;;
  match r with
  | (_, Some p) =>
      r <- port_name_to_semaphore wait_name ;;
      match r with
      | (_, Some n) => e <- semaphore_wait_internal self n (Some p) deadline option true ;; wait_ends e [n; p]
      | (kr, None) => semaphore_dereference (Some p) ;;; ret (Some kr)
      end
  | (kr, None) => ret (Some kr)
  end.
Definition semaphore_wait_signal_trap_internal (self : nat) (wait_name signal_name : Z) : MS T (option Z) :=
  wait_signal_named self wait_name signal_name 0 SEMAPHORE_OPTION_NONE.
Definition semaphore_wait_signal_trap (self : nat) (wait_name signal_name : Z) : MS T (option Z) := semaphore_wait_signal_trap_internal self wait_name signal_name.
Definition semaphore_timedwait_signal_trap_internal (self : nat) (wait_name signal_name sec nsec : Z) : MS T (option Z) :=
  if BAD_MACH_TIMESPEC nsec then ret (Some KERN_INVALID_VALUE)
  else let '(deadline, option) := timed sec nsec in wait_signal_named self wait_name signal_name deadline option.
Definition semaphore_timedwait_signal_trap (self : nat) (wait_name signal_name sec nsec : Z) : MS T (option Z) :=
  semaphore_timedwait_signal_trap_internal self wait_name signal_name sec nsec.

(** ** The references of one call *)

(** [l] are the references that the call has taken since [s]. *)
Definition times (p : nat) (l : list nat) : Z := Z.of_nat (length (filter (fun m => m = p) l)).
Definition borrows (l : list nat) (s s' : st) : Prop := whole s' /\ sth s' = sth s /\ forall p, refs s p + times p l <= refs s' p.
Lemma times_cons p n l : times p (n :: l) = times p l + (if decide (n = p) then 1 else 0).
Proof. unfold times. destruct (decide (n = p)) as [E|E]; [rewrite filter_cons_True by done; cbn [length]; lia|rewrite filter_cons_False by done; lia]. Qed.
Lemma times_nonneg p l : 0 <= times p l.
Proof. unfold times. lia. Qed.
Lemma borrows_none s : whole s -> borrows [] s s.
Proof. intros Hw. split_and!; [done..|]. intros p. unfold times. cbn. lia. Qed.
Lemma borrows_frugal l s s1 s2 : borrows l s s1 -> whole s2 -> frugal None s1 s2 -> borrows l s s2.
Proof. intros (_ & E1 & B) Hw [E2 F]. split_and!; [done|congruence|]. intros p. specialize (B p). specialize (F p). rewrite decide_False in F by done. lia. Qed.
(** A semaphore of which the call has a reference is there. *)
Lemma refs_nonneg s p : whole s -> 0 <= refs s p.
Proof. intros Hw. unfold refs. destruct (semas s !! p) as [x|] eqn:Ex; cbn; [|lia]. pose proof (sw_ref _ _ _ (whole_swf _ Hw) _ _ Ex). lia. Qed.
Lemma refs_there s p : 0 < refs s p -> exists x, semas s !! p = Some x /\ refs s p = sem_ref_count x.
Proof. unfold refs. destruct (semas s !! p) as [x|]; cbn; [eauto|lia]. Qed.
Lemma borrows_there l s s' n : whole s -> borrows l s s' -> n ∈ l -> exists x, semas s' !! n = Some x.
Proof.
  intros Hw (_ & _ & B) Hin. specialize (B n). pose proof (refs_nonneg s n Hw). assert (1 <= times n l).
  { unfold times. assert (n ∈ filter (fun m => m = n) l) by (by apply list_elem_of_filter). destruct (filter _ l) as [|? ?] eqn:E; [set_solver|]. cbn. lia. }
  destruct (refs_there s' n) as (x & Ex & _); [lia|eauto].
Qed.
Lemma wp_give_back n l s s1 (Q : unit -> st -> Prop) :
  whole s -> borrows (n :: l) s s1 -> (forall s2, borrows l s s2 -> Q tt s2) -> wp (semaphore_dereference (Some n)) Q s1.
Proof.
  intros Hw B HQ. destruct (borrows_there _ _ _ n Hw B) as [x Ex]; [by left|]. destruct B as (W1 & E1 & B). eapply wp_mono; [by eapply acted_dereference|]. cbv beta. intros [] s2 (W2 & E2 & F).
  apply HQ. split_and!; [done|congruence|]. intros p. specialize (B p). specialize (F p). rewrite times_cons in B. destruct (decide (n = p)) as [->|Hp].
  - rewrite decide_True in F by done. lia.
  - rewrite decide_False in F by congruence. lia.
Qed.
Lemma wp_give_back_all l : forall s s1 (Q : unit -> st -> Prop),
  whole s -> borrows l s s1 -> (forall s2, borrows [] s s2 -> Q tt s2) -> wp (foldr (fun n m => semaphore_dereference (Some n) ;;; m) (ret tt) l) Q s1.
Proof.
  induction l as [|n l IH]; intros s s1 Q Hw B HQ; cbn [foldr]; [by apply wp_ret, HQ|]. apply wp_bind. eapply wp_give_back; [done..|]. intros s2 B2. by eapply IH.
Qed.
Lemma trap_take n l s s1 (Q : unit -> st -> Prop) :
  whole s -> borrows l s s1 -> (exists x, semas s1 !! n = Some x /\ sem_ref_count x < OS_REFCNT_MAX_COUNT) ->
  (forall s2, borrows (n :: l) s s2 -> semas s2 = alter (with_ref (refs s1 n + 1)) n (semas s1) -> ws s2 = ws s1 -> Q tt s2) -> wp (semaphore_reference n) Q s1.
Proof.
  intros Hw (W1 & E1 & B) (x & Ex & Hr) HQ. assert (Hx : refs s1 n = sem_ref_count x) by (unfold refs; by rewrite Ex).
  eapply wp_mono; [by eapply acted_reference|]. cbv beta. intros [] s2 (-> & W2 & E2 & _). apply HQ; [|by rewrite Hx|done].
  split_and!; [done|congruence|]. intros p. specialize (B p). rewrite times_cons. destruct (decide (n = p)) as [<-|Hp].
  - unfold refs at 2. rewrite (on_sema_in n _ s1 x) by done. cbn. lia.
  - unfold refs at 2. rewrite on_sema_out by done. fold (refs s1 p). lia.
Qed.

(** The semaphore that a name stands for. *)
Definition named (name : Z) : option nat :=
  if MACH_PORT_VALID name then match ipc_port_translate_send name with inl _ => None | inr port => ip_get_semaphore port end else None.
Lemma wp_name name l s s1 (Q : Z * option nat -> st -> Prop) :
  whole s -> borrows l s s1 -> (forall n, named name = Some n -> exists x, semas s1 !! n = Some x /\ sem_ref_count x < OS_REFCNT_MAX_COUNT) ->
  (forall kr, named name = None -> kr <> KERN_SUCCESS -> Q (kr, None) s1) ->
  (forall n s2, named name = Some n -> borrows (n :: l) s s2 -> semas s2 = alter (with_ref (refs s1 n + 1)) n (semas s1) -> ws s2 = ws s1 -> Q (KERN_SUCCESS, Some n) s2) ->
  wp (port_name_to_semaphore name) Q s1.
Proof.
  intros Hw B Hin Hno Hyes. unfold port_name_to_semaphore. unfold named in *. destruct (MACH_PORT_VALID name); cbn [negb]; [|by apply wp_ret, Hno].
  destruct (ipc_port_translate_send name) as [kr|port] eqn:Et; [apply wp_ret, Hno; [done|by eapply translate_fails]|]. apply wp_bind. unfold convert_port_to_semaphore.
  destruct (ip_get_semaphore port) as [n|]; [|by apply wp_ret, wp_ret, Hno]. apply wp_bind. eapply trap_take; [done|done|by apply Hin|]. intros s2 B2 E2 W2. apply wp_ret, wp_ret. by apply Hyes.
Qed.

(** ** Waits with a signal *)

(** A thread whose last wait has a result. *)
Definition answered (y : thread T) : Prop := t_wait_result y ∈ [THREAD_AWAKENED; THREAD_TIMED_OUT; THREAD_INTERRUPTED; THREAD_RESTART].
Definition no_richer (s s' : st) : Prop := forall p x', semas s' !! p = Some x' -> exists x, semas s !! p = Some x /\ units x' <= units x.
Lemma no_richer_alter n f s s' : semas s' = alter f n (semas s) -> (forall x, semas s !! n = Some x -> units (f x) <= units x) -> no_richer s s'.
Proof.
  intros E Hf p x'. rewrite E. destruct (decide (p = n)) as [->|Hp]; [|rewrite lookup_alter_ne by done; intros Ex; exists x'; split; [done|lia]].
  rewrite lookup_alter_eq. destruct (semas s !! n) as [x|]; [|done]. cbn. intros [= <-]. exists x. eauto.
Qed.
Lemma whole_begin t y n x d option s :
  whole s -> semas s !! n = Some x -> threads (ws s) !! t = Some y -> t_waitq y = None ->
  wp (semaphore_wait_begin t n d option) (fun kr s' => whole s' /\ frugal None s s' /\ no_richer s s' /\
    exists z, threads (ws s') !! t = Some z /\ ((kr = KERN_ALREADY_WAITING /\ t_state z = TH_WAIT) \/ (kr <> KERN_ALREADY_WAITING /\ z = y))) s.
Proof.
  intros Hw Ex Ey Hy. assert (Hself : no_richer s s) by (intros p v Ev; exists v; split; [done|lia]). assert (Hsame : frugal None s s) by (by apply frugal_same).
  eapply (wp_wait_begin n x t y); [apply Hw|done|done|done| | | |].
  - intros _. split_and!; [done..|]. exists y. split; [done|by right].
  - intros _ Hc s' S'. split_and!; [apply (whole_tame s); [done|done|by apply tame_same]| | |exists y; split; [done|by right]].
    + apply (frugal_sema None n (fun x => x <| sem_count ::= fun c => c - 1 |>)); [done..|]. intros v _. destruct (decide _); cbn; lia.
    + apply (no_richer_alter n (fun x => x <| sem_count ::= fun c => c - 1 |>)); [done|]. intros v _. unfold units. cbn. lia.
  - intros _ _ _. split_and!; [done..|]. exists y. split; [done|by right].
  - intros wq _ Hc _ Eq s' S'. split_and!.
    + apply (whole_tame s); [done..|]. split; [apply enrolled_dom|by left].
    + apply (frugal_sema None n (fun x => x <| sem_count := -1 |>)); [done..|]. intros v _. destruct (decide _); cbn; lia.
    + apply (no_richer_alter n (fun x => x <| sem_count := -1 |>)); [done|]. intros v _. unfold units. cbn. lia.
    + destruct (parked_fields n SEMAPHORE_EVENT d (hinted y)) as (_ & _ & _ & Ps & _). eexists. split; [by apply enrolled_thread|]. left. done.
Qed.
Lemma convert_answered r s (Q : Z -> st -> Prop) :
  r ∈ [THREAD_AWAKENED; THREAD_TIMED_OUT; THREAD_INTERRUPTED; THREAD_RESTART] -> (forall kr, kr <> KERN_ALREADY_WAITING -> Q kr s) -> wp (semaphore_convert_wait_result r) Q s.
Proof. rewrite !elem_of_cons. intros [->|[->|[->|[->|Hin]]]] HQ; [apply wp_ret; by apply HQ..|by apply elem_of_nil in Hin]. Qed.
Lemma cleared_answered t y (w : wst T) z :
  threads w !! t = Some y -> t_state y = TH_WAIT \/ answered y -> threads (snd (cleared t THREAD_INTERRUPTED w)) !! t = Some z -> wf ∅ ∅ w -> answered z.
Proof.
  intros Ey Hy Ez W. destruct (decide (t_state y = TH_WAIT)) as [Hst|Hst].
  { destruct (cleared_waiting t y THREAD_INTERRUPTED w W Ey Hst) as (_ & _ & _ & z' & Ez' & Hz & _). assert (z' = z) as -> by congruence. unfold answered. rewrite Hz. set_solver. }
  destruct Hy as [?|Hy]; [done|]. unfold cleared in Ez. rewrite Ey in Ez. destruct (_ && _); [cbn in Ez; by assert (z = y) as -> by congruence|].
  destruct (unqueued_thread t y w t Ey) as [E|[_ E]]; (destruct (_ =? TH_WAIT); cbn [snd] in Ez; [change (threads (add_work ?l ?w)) with (threads w) in Ez; rewrite on_threads_lookup, E in Ez; cbn in Ez; injection Ez as <-; case_decide; [unfold answered; set_solver|exact Hy]|rewrite E in Ez; injection Ez as <-; exact Hy]).
Qed.
Lemma whole_signals t y sg kr s :
  whole s -> threads (ws s) !! t = Some y -> (forall p, sg = Some p -> exists x, semas s !! p = Some x /\ units x < 2 ^ 31 - 1) ->
  (kr = KERN_ALREADY_WAITING /\ t_state y = TH_WAIT) \/ (kr <> KERN_ALREADY_WAITING /\ answered y) ->
  wp (semaphore_wait_signals t sg kr) (fun kr' s' => whole s' /\ frugal None s s' /\ (kr' = KERN_ALREADY_WAITING -> exists z, threads (ws s') !! t = Some z /\ t_state z = TH_WAIT)) s.
Proof.
  intros Hw Ey Hsg Hy. assert (Hself : kr = KERN_ALREADY_WAITING -> exists z, threads (ws s) !! t = Some z /\ t_state z = TH_WAIT) by (intros ->; destruct Hy as [[_ ?]|[? _]]; [eauto|done]).
  destruct sg as [p|]; [|apply wp_ret; split_and!; [done|by apply frugal_same|done]]. destruct (Hsg p eq_refl) as (x & Ex & Hu). cbn [semaphore_wait_signals].
  remember (if kr =? KERN_ALREADY_WAITING then Z.lor SEMAPHORE_SIGNAL_PREPOST SEMAPHORE_THREAD_HANDOFF else SEMAPHORE_SIGNAL_PREPOST) as options eqn:Ho.
  assert (has options SEMAPHORE_SIGNAL_ALL = false /\ has options SEMAPHORE_SIGNAL_PREPOST = true) as [Hall Hpre] by (rewrite Ho; by destruct (kr =? _)). clear Ho.
  apply wp_bind. destruct (sem_active x) eqn:Ha.
  - eapply wp_mono; [apply (conforms_signal p options (units x, sleepers s p) s); [apply Hw|by apply view_of|intros v Ev; by assert (v = x) as -> by congruence|done..]|].
    cbv beta. intros kr' s' (Hk%Z.eqb_neq & _ & Hst & C). rewrite Hk. apply wp_ret. split_and!; [by eapply whole_conforms|apply C|]. intros Hk'. destruct (Hself Hk') as (z & Ez & Hz).
    destruct (Hst t z Ez) as (z' & Ez' & Hz'). exists z'. split; [done|congruence].
  - eapply (wp_signal_dead p x); [apply Hw|done..|]. change (KERN_TERMINATED =? KERN_TERMINATED) with true. cbv iota. apply wp_bind, wp_waitq_do. eapply wp_clear_wait; [apply Hw|exact Ey|]. intros W'.
    destruct (cleared_thread t THREAD_INTERRUPTED (ws s) y Ey) as [z Ez]. apply wp_bind, wp_waitq_do. eapply wp_thread_deref; [exact Ez|]. apply wp_bind.
    assert (Hz : answered z) by (eapply (cleared_answered t y (ws s)); [done|by destruct Hy as [[_ ?]|[_ ?]]; [left|right]|done|apply Hw]).
    apply convert_answered; [exact Hz|]. intros kr' Hk'. apply wp_ret. split_and!.
    + apply (whole_fewer s (snd (cleared t THREAD_INTERRUPTED (ws s)))); [done|by apply kept_cleared, whole_kept|intros m wq Em; by apply cleared_queue|apply fewer_cleared].
    + by apply frugal_same.
    + destruct (kr' =? KERN_ABORTED); [done|]. by intros ->.
Qed.
(** A wait in a trap: it returns, or it blocks and leaves its semaphores to the
    continuation. *)
Lemma whole_wait_internal t y n x sg d option s :
  whole s -> semas s !! n = Some x -> threads (ws s) !! t = Some y -> t_waitq y = None -> answered y -> (forall p, sg = Some p -> exists x, semas s !! p = Some x /\ units x < 2 ^ 31 - 1) ->
  wp (semaphore_wait_internal t n sg d option true) (fun e s' => whole s' /\ (forall p, refs s p <= refs s' p) /\
    match e with Returned _ => sth s' = sth s | Blocked => sth s' = <[t := (n, sg)]> (sth s) | Left _ => False end) s.
Proof.
  intros Hw Ex Ey Hy Hans Hsg. assert (Hmore : forall s1 s2, frugal None s1 s2 -> sth s2 = sth s1 /\ forall p, refs s1 p <= refs s2 p).
  { intros s1 s2 [E F]. split; [done|]. intros p. specialize (F p). rewrite decide_False in F by done. lia. }
  unfold semaphore_wait_internal. apply wp_bind. eapply wp_mono; [by eapply whole_begin|]. cbv beta. intros kr s1 (W1 & F1 & P1 & z & Ez & Hz). destruct (Hmore _ _ F1) as [E1 R1].
  apply wp_bind. eapply wp_mono; [apply (whole_signals t z sg kr s1); [done|done| |destruct Hz as [?|[? ->]]; auto]|].
  { intros p Hp. destruct (Hsg p Hp) as (v & Ev & Hu). pose proof (refs_nonneg s p Hw) as Hr. pose proof (sw_ref _ _ _ (whole_swf _ Hw) _ _ Ev) as Hv. specialize (R1 p). destruct (refs_there s1 p) as (v' & Ev' & _); [unfold refs at 1 in R1; rewrite Ev in R1; cbn in R1; lia|].
    exists v'. split; [done|]. destruct (P1 p v' Ev') as (v0 & Ev0 & Hle). assert (v0 = v) as -> by congruence. lia. }
  cbv beta. intros kr2 s2 (W2 & F2 & Hk). destruct (Hmore _ _ F2) as [E2 R2]. assert (R : forall p, refs s p <= refs s2 p) by (intros p; specialize (R1 p); specialize (R2 p); lia).
  destruct (Z.eqb_spec kr2 KERN_ALREADY_WAITING) as [->|Hne]; cbn [negb]; [|apply wp_ret; split_and!; [done|done|congruence]].
  destruct (Hk eq_refl) as (z2 & Ez2 & Hz2). cbn [when]. apply wp_bind, wp_modify. set (s3 := s2 <| sth ::= <[t := (n, sg)]> |>).
  assert (W3 : whole s3) by (apply (whole_tame s2); [done|destruct (whole_swf _ W2); by constructor|by apply tame_same]).
  eapply (wp_sleep_after true); [exact W3|exact Ez2|exact Hz2|]. intros s4 W4 _ E4 H4 _ _. split_and!; [done| |].
  - intros p. unfold refs at 2. rewrite E4. apply R.
  - rewrite H4. cbn. by rewrite E2, E1.
Qed.

Lemma whole_signal n x thread options s :
  whole s -> semas s !! n = Some x -> units x < 2 ^ 31 - 1 -> (forall t, thread = Some t -> is_Some (threads (ws s) !! t)) -> has options SEMAPHORE_SIGNAL_ALL && has options SEMAPHORE_SIGNAL_PREPOST = false ->
  wp (semaphore_signal_internal n thread options) (fun _ s' => whole s' /\ frugal None s s') s.
Proof.
  intros Hw Ex Hu Ht Ho. pose proof (whole_swf _ Hw) as S. assert (Hp : forall b s2, semas s2 = alter (posted b) n (semas s) -> sth s2 = sth s -> frugal None s s2).
  { intros b s2 E Eh. apply (frugal_sema None n (posted b)); [done..|]. intros v _. destruct (decide _); cbn; lia. }
  destruct (sem_active x) eqn:Ha; [|eapply (wp_signal_dead n x); [done..|]; split; [done|by apply frugal_same]].
  destruct thread as [t|]; [destruct (Ht t eq_refl) as [y Ey]; eapply (wp_signal_thread n x t y); [done..|]|destruct (has options SEMAPHORE_SIGNAL_ALL) eqn:Hall; [eapply (wp_signal_all n x); [done..|]|eapply (wp_signal_one n x); [done..|]]].
  - intros m. cbv zeta. intros S'. split; [apply (whole_tame s); [done..|by eapply tame_woken]|by apply frugal_same].
  - intros m kr. cbv zeta. intros S' _. split; [apply (whole_tame s); [done..|by eapply tame_woken]|by apply (Hp false)].
  - intros m. cbv zeta. unfold signalled_state. case_decide; intros S'; (split; [apply (whole_tame s); [done..|by eapply tame_woken]|]); [by apply (Hp (has options SEMAPHORE_SIGNAL_PREPOST))|by apply frugal_same].
Qed.

(** ** The traps, by the references they leave *)
Inductive trap :=
| TSignal (name : Z)
| TSignalAll (name : Z)
| TSignalThread (name thread_name : Z)
| TWait (t : nat) (name : Z)
| TTimedwait (t : nat) (name sec nsec : Z)
| TWaitSignal (t : nat) (wait_name signal_name : Z)
| TTimedwaitSignal (t : nat) (wait_name signal_name sec nsec : Z).
Definition run_trap (tr : trap) : MS T (option Z) :=
  match tr with
  | TSignal name => kr <- semaphore_signal_trap name ;; ret (Some kr)
  | TSignalAll name => kr <- semaphore_signal_all_trap name ;; ret (Some kr)
  | TSignalThread name thread_name => kr <- semaphore_signal_thread_trap name thread_name ;; ret (Some kr)
  | TWait t name => semaphore_wait_trap t name
  | TTimedwait t name sec nsec => semaphore_timedwait_trap t name sec nsec
  | TWaitSignal t wait_name signal_name => semaphore_wait_signal_trap t wait_name signal_name
  | TTimedwaitSignal t wait_name signal_name sec nsec => semaphore_timedwait_signal_trap t wait_name signal_name sec nsec
  end.
Definition names_of (tr : trap) : list Z :=
  match tr with TSignal n | TSignalAll n | TSignalThread n _ | TWait _ n | TTimedwait _ n _ _ => [n] | TWaitSignal _ w g | TTimedwaitSignal _ w g _ _ => [w; g] end.
Definition waits_in (tr : trap) : option nat := match tr with TWait t _ | TTimedwait t _ _ _ | TWaitSignal t _ _ | TTimedwaitSignal t _ _ _ _ => Some t | _ => None end.
(** What a caller of a trap can rely on: what a name stands for exists, with room for two
    more references and one more unit; a thread that is signalled exists; the thread
    that waits is running, and has waited before. *)
Definition trap_ok (s : st) (tr : trap) : Prop :=
  (forall name n, name ∈ names_of tr -> named name = Some n -> exists x, semas s !! n = Some x /\ sem_ref_count x + 1 < OS_REFCNT_MAX_COUNT /\ units x < 2 ^ 31 - 1) /\
  (forall name thread_name t, tr = TSignalThread name thread_name -> port_name_to_thread thread_name = Some t -> is_Some (threads (ws s) !! t)) /\
  (forall t, waits_in tr = Some t -> exists y, threads (ws s) !! t = Some y /\ t_waitq y = None /\ answered y).

(** What a blocked thread holds. *)
Definition holds (e : nat * option nat) : list nat := fst e :: option_list (snd e).
Definition trapped (s : st) (caller : option nat) (r : option Z) (s' : st) : Prop :=
  match r with
  | Some _ => borrows [] s s'
  | None => exists t e, caller = Some t /\ whole s' /\ sth s' = <[t := e]> (sth s) /\ forall p, refs s p + times p (holds e) <= refs s' p
  end.
Lemma wp_named_signal thread options k name s (Q : Z -> st -> Prop) :
  whole s -> (forall n, named name = Some n -> exists x, semas s !! n = Some x /\ sem_ref_count x + 1 < OS_REFCNT_MAX_COUNT /\ units x < 2 ^ 31 - 1) ->
  (forall t, thread = Some t -> is_Some (threads (ws s) !! t)) -> has options SEMAPHORE_SIGNAL_ALL && has options SEMAPHORE_SIGNAL_PREPOST = false -> (forall kr s', borrows [] s s' -> Q kr s') ->
  wp (r <- port_name_to_semaphore name ;;
      match r with
      | (_, Some n) => kr <- semaphore_signal_internal n thread options ;; semaphore_dereference (Some n) ;;; ret (k kr)
      | (kr, None) => ret kr
      end) Q s.
Proof.
  intros Hw Hn Ht Ho HQ. apply wp_bind. pose proof (borrows_none s Hw) as B0. eapply (wp_name name [] s); [done..| | |].
  - intros n Hnm. destruct (Hn n Hnm) as (x & Ex & Hr & _). exists x. split; [done|lia].
  - intros kr _ _. by apply wp_ret, HQ.
  - intros n s1 Hnm B1 E1 W1. destruct (Hn n Hnm) as (x & Ex & _ & Hu). apply wp_bind.
    assert (E1n : semas s1 !! n = Some (with_ref (refs s n + 1) x)) by (rewrite E1, lookup_alter_eq, Ex; done).
    eapply wp_mono; [apply (whole_signal n (with_ref (refs s n + 1) x) thread options s1); [apply B1|done|done|by rewrite W1|done]|]. cbv beta. intros kr s2 [W2 F2].
    apply wp_bind. eapply (wp_give_back n [] s); [done|by eapply borrows_frugal|]. intros s3 B3. by apply wp_ret, HQ.
Qed.
Lemma wp_wait_then t y n sg d option l s s1 :
  whole s -> borrows l s s1 -> l = n :: option_list sg -> threads (ws s1) !! t = Some y -> t_waitq y = None -> answered y -> (forall p, sg = Some p -> exists x, semas s1 !! p = Some x /\ units x < 2 ^ 31 - 1) ->
  wp (e <- semaphore_wait_internal t n sg d option true ;; wait_ends e l) (trapped s (Some t)) s1.
Proof.
  intros Hw B El Ey Hy Ha Hsg. destruct (borrows_there l s s1 n Hw B) as [x Ex]; [rewrite El; by left|]. apply wp_bind.
  eapply wp_mono; [apply (whole_wait_internal t y n x sg d option s1); [apply B|done..]|]. cbv beta. intros e s2 (W2 & R2 & He). destruct B as (_ & E1 & B).
  destruct e as [|kr|kr]; [| |done]; cbn [wait_ends returned].
  - apply wp_ret. exists t, (n, sg). split_and!; [done|done|congruence|]. intros p. specialize (B p). specialize (R2 p). rewrite El in B. unfold holds. cbn [fst snd]. lia.
  - apply wp_bind. eapply (wp_give_back_all l s); [done|split_and!; [done|congruence|intros p; specialize (B p); specialize (R2 p); lia]|]. intros s3 B3. by apply wp_ret.
Qed.
Definition roomy (s : st) (name : Z) : Prop := forall n, named name = Some n -> exists x, semas s !! n = Some x /\ sem_ref_count x + 1 < OS_REFCNT_MAX_COUNT /\ units x < 2 ^ 31 - 1.
Lemma wp_named_wait t y name d option s :
  whole s -> roomy s name -> threads (ws s) !! t = Some y -> t_waitq y = None -> answered y ->
  wp (r <- port_name_to_semaphore name ;;
      match r with
      | (_, Some n) => e <- semaphore_wait_internal t n None d option true ;; wait_ends e [n]
      | (kr, None) => ret (Some kr)
      end) (trapped s (Some t)) s.
Proof.
  intros Hw Hn Ey Hy Ha. apply wp_bind. pose proof (borrows_none s Hw) as B0. eapply (wp_name name [] s); [done..| | |].
  - intros n Hnm. destruct (Hn n Hnm) as (x & Ex & Hr & _). exists x. split; [done|lia].
  - intros kr _ _. by apply wp_ret.
  - intros n s1 Hnm B1 E1 W1. eapply (wp_wait_then t y n None); [done|done|done|by rewrite W1|done..].
Qed.
Lemma wp_named_wait_signal t y wait_name signal_name d option s :
  whole s -> roomy s wait_name -> roomy s signal_name -> threads (ws s) !! t = Some y -> t_waitq y = None -> answered y ->
  wp (wait_signal_named t wait_name signal_name d option) (trapped s (Some t)) s.
Proof.
  intros Hw Hn Hp Ey Hy Ha. unfold wait_signal_named. apply wp_bind. pose proof (borrows_none s Hw) as B0. eapply (wp_name signal_name [] s); [done..| | |].
  { intros n Hnm. destruct (Hp n Hnm) as (x & Ex & Hr & _). exists x. split; [done|lia]. }
  { intros kr _ _. by apply wp_ret. }
  intros p s1 Hpn B1 E1 W1. destruct (Hp p Hpn) as (v & Ev & Hrv & Huv).
  assert (Hsem : forall n x, semas s !! n = Some x -> exists x', semas s1 !! n = Some x' /\ sem_ref_count x' <= sem_ref_count x + 1 /\ units x' = units x).
  { intros n x Ex. rewrite E1. destruct (decide (n = p)) as [->|Hne]; [|exists x; rewrite lookup_alter_ne by done; split_and!; [done|lia|done]].
    assert (x = v) as -> by congruence. rewrite lookup_alter_eq, Ev. eexists. split; [done|]. unfold refs. rewrite Ev. cbn. split; [lia|done]. }
  apply wp_bind. eapply (wp_name wait_name [p] s s1); [done|done| | |].
  - intros n Hnm. destruct (Hn n Hnm) as (x & Ex & Hr & _). destruct (Hsem n x Ex) as (x' & Ex' & Hr' & _). exists x'. split; [done|lia].
  - intros kr _ _. apply wp_bind. eapply (wp_give_back p [] s); [done..|]. intros s2 B2. by apply wp_ret.
  - intros n s2 Hnm B2 E2 W2. eapply (wp_wait_then t y n (Some p)); [done|done|done|by rewrite W2, W1|done|done|]. intros q [= <-].
    destruct (Hsem p v Ev) as (v' & Ev' & _ & Hu'). rewrite E2. destruct (decide (p = n)) as [->|Hne]; [rewrite lookup_alter_eq, Ev'|rewrite lookup_alter_ne, Ev' by done]; (eexists; split; [done|]); [change (units v' < 2 ^ 31 - 1); lia|lia].
Qed.
Lemma wp_trap tr s : whole s -> trap_ok s tr -> wp (run_trap tr) (trapped s (waits_in tr)) s.
Proof.
  intros Hw (Hn & Ht & Hc). assert (Hr : forall name, name ∈ names_of tr -> roomy s name) by (intros name Hin n; by apply Hn).
  destruct tr as [name|name|name th|t name|t name sec nsec|t w g|t w g sec nsec]; cbn [run_trap waits_in names_of] in *.
  - apply wp_bind. apply (wp_named_signal None SEMAPHORE_SIGNAL_PREPOST not_waiting_is_success); [done|apply Hr; left|done|done|]. intros kr s' B. by apply wp_ret.
  - apply wp_bind. apply (wp_named_signal None SEMAPHORE_SIGNAL_ALL not_waiting_is_success); [done|apply Hr; left|done|done|]. intros kr s' B. by apply wp_ret.
  - apply wp_bind. assert (Hs : forall th', (forall t, th' = Some t -> is_Some (threads (ws s) !! t)) -> wp (r <- port_name_to_semaphore name ;;
      match r with (_, Some n) => kr <- semaphore_signal_internal n th' SEMAPHORE_OPTION_NONE ;; semaphore_dereference (Some n) ;;; ret kr | (kr, None) => ret kr end)
      (fun kr => wp (ret (Some kr)) (trapped s None)) s).
    { intros th' Hth. apply (wp_named_signal th' SEMAPHORE_OPTION_NONE (fun kr => kr)); [done|apply Hr; left|done|done|]. intros kr s' B. by apply wp_ret. }
    unfold semaphore_signal_thread_trap. destruct (th =? MACH_PORT_NULL); [by apply Hs|]. destruct (port_name_to_thread th) as [t|] eqn:Eth; [|apply wp_ret, wp_ret; by apply borrows_none].
    apply Hs. intros t' [= <-]. by eapply Ht.
  - destruct (Hc t eq_refl) as (y & Ey & Hy & Ha). eapply wp_named_wait; [done|apply Hr; left|done..].
  - destruct (Hc t eq_refl) as (y & Ey & Hy & Ha). unfold semaphore_timedwait_trap, semaphore_timedwait_trap_internal. destruct (BAD_MACH_TIMESPEC nsec); [apply wp_ret; by apply borrows_none|].
    destruct (timed sec nsec) as [d option]. eapply wp_named_wait; [done|apply Hr; left|done..].
  - destruct (Hc t eq_refl) as (y & Ey & Hy & Ha). eapply wp_named_wait_signal; [done|apply Hr; left|apply Hr; right; left|done..].
  - destruct (Hc t eq_refl) as (y & Ey & Hy & Ha). unfold semaphore_timedwait_signal_trap, semaphore_timedwait_signal_trap_internal. destruct (BAD_MACH_TIMESPEC nsec); [apply wp_ret; by apply borrows_none|].
    destruct (timed sec nsec) as [d option]. eapply wp_named_wait_signal; [done|apply Hr; left|apply Hr; right; left|done..].
Qed.

(** ** The account of references

    [pend] are the threads that are blocked in a trap, with what they hold. *)
Definition holders (pend : gmap nat (nat * option nat)) (p : nat) : Z := map_fold (fun _ e acc => times p (holds e) + acc) 0 pend.
Record held (pend : gmap nat (nat * option nat)) (s : st) : Prop := {
  held_whole : whole s;
  held_refs p : holders pend p <= refs s p;
  held_sth t e : pend !! t = Some e -> sth s !! t = Some e;
}.
Lemma holders_insert pend t e p : pend !! t = None -> holders (<[t := e]> pend) p = times p (holds e) + holders pend p.
Proof. intros Et. unfold holders. rewrite map_fold_insert_L; [done| |done]. intros; lia. Qed.
Lemma holders_delete pend t e p : pend !! t = Some e -> holders pend p = times p (holds e) + holders (delete t pend) p.
Proof. intros Et. rewrite <- (holders_insert (delete t pend) t e p) by apply lookup_delete_eq. by rewrite insert_delete_id. Qed.
Lemma holders_nonneg pend p : 0 <= holders pend p.
Proof.
  unfold holders. apply (map_fold_weak_ind (fun acc _ => 0 <= acc)); [done|]. intros t e m acc _ Hacc. pose proof (times_nonneg p (holds e)). lia.
Qed.
(** The continuation of a thread that was blocked in a trap gives back what it holds. *)
Lemma wp_continue pend t e wr s :
  held pend s -> pend !! t = Some e -> wr ∈ [THREAD_AWAKENED; THREAD_TIMED_OUT; THREAD_INTERRUPTED; THREAD_RESTART] -> wp (semaphore_wait_continue t wr) (fun _ => held (delete t pend)) s.
Proof.
  intros [Hw Hr Hs] Et Hwr. pose proof (Hs t e Et) as Est. destruct e as [w sg]. unfold semaphore_wait_continue. apply wp_bind, wp_get. rewrite Est.
  assert (Hd : forall p, holders pend p = times p (holds (w, sg)) + holders (delete t pend) p) by (intros p; by apply holders_delete).
  assert (Hpos : forall p, 0 <= holders (delete t pend) p) by (intros p; apply holders_nonneg).
  assert (Hpay : forall n l s1, whole s1 -> sth s1 = sth s -> (forall p, holders (delete t pend) p + times p (n :: l) <= refs s1 p) ->
    wp (semaphore_dereference (Some n)) (fun _ s2 => whole s2 /\ sth s2 = sth s /\ forall p, holders (delete t pend) p + times p l <= refs s2 p) s1).
  { intros n l s1 W1 E1 B1. destruct (refs_there s1 n) as (x & Ex & _). { specialize (B1 n). specialize (Hpos n). rewrite times_cons, decide_True in B1 by done. pose proof (times_nonneg n l). lia. }
    eapply wp_mono; [by eapply acted_dereference|]. cbv beta. intros [] s2 (W2 & E2 & F). split_and!; [done|congruence|]. intros p. specialize (B1 p). specialize (F p). rewrite times_cons in B1.
    destruct (decide (n = p)) as [->|Hp]; [rewrite decide_True in F by done; lia|rewrite decide_False in F by congruence; lia]. }
  assert (Hend : forall s1, whole s1 -> sth s1 = sth s -> (forall p, holders (delete t pend) p <= refs s1 p) -> wp (semaphore_convert_wait_result wr) (fun _ => held (delete t pend)) s1).
  { intros s1 W1 E1 B1. apply convert_answered; [done|]. intros kr _. constructor; [done|done|]. intros u f Eu. rewrite E1. apply Hs. by apply lookup_delete_Some in Eu as [_ ?]. }
  apply wp_bind. eapply wp_mono; [apply (Hpay w (option_list sg) s); [done|done|intros p; specialize (Hr p); specialize (Hd p); unfold holds in Hd; cbn [fst snd] in Hd; lia]|].
  cbv beta. intros [] s1 (W1 & E1 & B1). apply wp_bind. destruct sg as [p|]; [|apply wp_ret; apply Hend; [done|done|intros q; specialize (B1 q); unfold times in B1; cbn in B1; lia]].
  eapply wp_mono; [apply (Hpay p [] s1); done|]. cbv beta. intros [] s2 (W2 & E2 & B2). apply Hend; [done|done|]. intros q. specialize (B2 q). unfold times in B2. cbn in B2. lia.
Qed.

(** Everything that happens: the actions of [SemaLife], where a caller drops only a
    reference of its own; traps that return; traps that block; and continuations,
    whenever they run. *)
Inductive trap_step (pend : gmap nat (nat * option nat)) (s : st) : gmap nat (nat * option nat) -> st -> Prop :=
| step_act a s' :
    sem_enabled s a -> (forall n, drop_of a = Some n -> holders pend n < refs s n) -> sem_perform a s = Ret tt s' -> trap_step pend s pend s'
| step_trap tr kr s' :
    trap_ok s tr -> run_trap tr s = Ret (Some kr) s' -> trap_step pend s pend s'
| step_block tr t e s' :
    trap_ok s tr -> waits_in tr = Some t -> pend !! t = None -> run_trap tr s = Ret None s' -> sth s' !! t = Some e -> trap_step pend s (<[t := e]> pend) s'
| step_continue t e wr kr s' :
    pend !! t = Some e -> wr ∈ [THREAD_AWAKENED; THREAD_TIMED_OUT; THREAD_INTERRUPTED; THREAD_RESTART] -> semaphore_wait_continue t wr s = Ret kr s' -> trap_step pend s (delete t pend) s'.
Inductive trap_reach (pend : gmap nat (nat * option nat)) (s : st) : gmap nat (nat * option nat) -> st -> Prop :=
| trap_reach_start : trap_reach pend s pend s
| trap_reach_step pend1 s1 pend2 s2 : trap_reach pend s pend1 s1 -> trap_step pend1 s1 pend2 s2 -> trap_reach pend s pend2 s2.
Lemma held_step pend s pend' s' : held pend s -> trap_step pend s pend' s' -> held pend' s'.
Proof.
  intros Hh Hst. pose proof Hh as [Hw Hr Hs]. destruct Hst as [a s' Hok Hdrop Hrun|tr kr s' Hok Hrun|tr t e s' Hok Hc Hn Hrun He|t e wr kr s' Et Hwr Hrun].
  - pose proof (whole_act a s Hw Hok) as Ha. unfold wp in Ha. rewrite Hrun in Ha. destruct Ha as (W' & E' & F). constructor; [done| |intros t e Et; rewrite E'; by apply Hs].
    intros p. specialize (F p). specialize (Hr p). destruct (decide (drop_of a = Some p)) as [Hd|Hd]; [|lia]. specialize (Hdrop p Hd). lia.
  - pose proof (wp_trap tr s Hw Hok) as Ht. unfold wp in Ht. rewrite Hrun in Ht. destruct Ht as (W' & E' & B). constructor; [done| |intros t e Et; rewrite E'; by apply Hs].
    intros p. specialize (B p). specialize (Hr p). pose proof (times_nonneg p []). lia.
  - pose proof (wp_trap tr s Hw Hok) as Ht. unfold wp in Ht. rewrite Hrun in Ht. destruct Ht as (t' & e' & Hc' & W' & E' & B). assert (t' = t) as -> by congruence.
    assert (e' = e) as -> by (rewrite E', lookup_insert_eq in He; congruence). constructor; [done| |].
    + intros p. rewrite holders_insert by done. specialize (B p). specialize (Hr p). lia.
    + intros u f. rewrite E'. destruct (decide (u = t)) as [->|Hu]; [by rewrite !lookup_insert_eq|]. rewrite !lookup_insert_ne by done. apply Hs.
  - pose proof (wp_continue pend t e wr s Hh Et Hwr) as Hk. unfold wp in Hk. by rewrite Hrun in Hk.
Qed.
(** C29: over every sequence of traps and other calls in which each caller drops only
    references of its own, a semaphore has at least the references that blocked
    threads hold of it, one for each thread that waits on it and one for each that
    signalled it; so it is not freed under them: every trap, up to where it blocks its
    thread, and the continuation of every blocked thread find their semaphores and return.
    The conditions: a thread that waits in a trap is not waiting and has the result of an
    earlier wait (a thread that never waited can make the server panic,
    [unwaited_signal_stops_server]); semaphores have room for the references and units of
    the trap; and a continuation runs with one of the four results of a wait that has
    ended, awakened, timed out, interrupted or restarted (thread.c:1652 can resume a
    thread with [THREAD_WAITING], for which it panics,
    [SemaRuns.lost_signal_stops_server]). *)
Theorem traps_hold_references pend s pend' s' :
  held pend s -> trap_reach pend s pend' s' ->
  held pend' s' /\ (forall tr, trap_ok s' tr -> exists r s'', run_trap tr s' = Ret r s'') /\
  forall t e wr, pend' !! t = Some e -> wr ∈ [THREAD_AWAKENED; THREAD_TIMED_OUT; THREAD_INTERRUPTED; THREAD_RESTART] -> exists kr s'', semaphore_wait_continue t wr s' = Ret kr s''.
Proof.
  intros Hh Hr. assert (Hh' : held pend' s') by (induction Hr as [|? ? ? ? Hr IH Hst]; [done|by eapply held_step]). split_and!; [done| |].
  - intros tr Hok. destruct (proj1 (wp_run _ _ _) (wp_trap tr s' (held_whole _ _ Hh') Hok)) as (r & s'' & E & _). eauto.
  - intros t e wr Et Hwr. destruct (proj1 (wp_run _ _ _) (wp_continue pend' t e wr s' Hh' Et Hwr)) as (kr & s'' & E & _). eauto.
Qed.

Lemma bind_run {A B} (m : MS T A) (k : A -> MS T B) s a s' : m s = Ret a s' -> bind m k s = k a s'.
Proof. unfold bind. by intros ->. Qed.
(** a thread that has never waited, whose wait result is [THREAD_WAITING] from its
    creation on, stops the server by a [semaphore_wait_signal] that takes a unit of
    one semaphore and signals a dead one: the wait result is read although there was
    no wait. *)
Theorem unwaited_signal_stops_server t y n p x u l s :
  whole s -> view s n = Some (u, l) -> 0 < u -> semas s !! p = Some x -> sem_active x = false ->
  threads (ws s) !! t = Some y -> t_waitq y = None -> t_state y = TH_RUN -> t_wait_result y = THREAD_WAITING ->
  semaphore_wait_signal t (Some n) (Some p) s = Panic "semaphore_block".
Proof.
  intros Hw Hv Hu Ep Hdead Ey Hy Hst Hr. destruct (view_active _ _ _ _ Hv) as (v & Ev & Ha & Hu' & Hl). unfold units in Hu'. pose proof (whole_swf _ Hw) as S.
  assert (Hpn : p <> n) by (intros ->; congruence). set (s1 := on_sema n (fun x => x <| sem_count ::= fun c => c - 1 |>) s).
  assert (G1 : wp (semaphore_wait_begin t n 0 SEMAPHORE_OPTION_NONE) (fun kr s' => kr = KERN_SUCCESS /\ s' = s1 /\ swf ∅ ∅ s1) s).
  { eapply (wp_wait_begin n v t y); [done..|congruence| |intros _ ?; lia|intros wq _ ?; lia]. intros _ _ s' S'. done. }
  destruct (proj1 (wp_run _ _ _) G1) as (kr & s1' & E1 & -> & -> & S1).
  assert (E2 : semaphore_signal_internal p None SEMAPHORE_SIGNAL_PREPOST s1 = Ret KERN_TERMINATED s1).
  { assert (G2 : wp (semaphore_signal_internal p None SEMAPHORE_SIGNAL_PREPOST) (fun kr s' => kr = KERN_TERMINATED /\ s' = s1) s1).
    { eapply (wp_signal_dead p x); [exact S1|unfold s1; by rewrite on_sema_out|done|done]. }
    destruct (proj1 (wp_run _ _ _) G2) as (kr & s2 & E & -> & ->). exact E. }
  assert (E3 : waitq_do (clear_wait t THREAD_INTERRUPTED) s1 = Ret KERN_NOT_WAITING s1).
  { assert (G3 : wp (clear_wait t THREAD_INTERRUPTED) (fun kr w => kr = KERN_NOT_WAITING /\ w = ws s1) (ws s1)).
    { eapply wp_clear_wait; [apply S1|exact Ey|]. intros _. unfold cleared. change (threads (ws s1)) with (threads (ws s)). rewrite Ey, Hst. change (has TH_RUN TH_UNINT) with false. rewrite andb_false_r.
      change (Z.land TH_RUN (Z.lor TH_WAIT TH_TERMINATE) =? TH_WAIT) with false. cbv iota. cbn [fst snd]. split; [done|]. by apply (unqueued_idle t y). }
    destruct (proj1 (wp_run _ _ _) G3) as (kr & w & E & -> & ->). unfold waitq_do. rewrite E. unfold update. by destruct s1. }
  assert (E4 : semaphore_wait_signals t (Some p) KERN_SUCCESS s1 = Panic "semaphore_block").
  { cbn [semaphore_wait_signals]. change (KERN_SUCCESS =? KERN_ALREADY_WAITING) with false. cbv iota zeta. rewrite (bind_run _ _ _ _ _ E2). change (KERN_TERMINATED =? KERN_TERMINATED) with true. cbv iota.
    rewrite (bind_run _ _ _ _ _ E3). rewrite (bind_run _ _ s1 y s1) by (unfold waitq_do, thread_deref; change (threads (ws s1)) with (threads (ws s)); rewrite Ey; by destruct s1). by rewrite Hr. }
  cbn [semaphore_wait_signal]. unfold semaphore_wait_kernel, semaphore_wait_internal, bind at 1. rewrite (bind_run _ _ _ _ _ E1). unfold bind at 1. by rewrite E4.
Qed.
End SemaTraps.

(** ** The small server of [SemaRuns]: names, ports and semaphores have the same number. *)
Module TrapDemo.
Export SemaDemo.
Definition demo_translate (name : Z) : Z + nat := if (4 <=? name) && (name <=? 6) then inr (Z.to_nat name) else inl KERN_INVALID_NAME.
Lemma demo_translate_fails name kr : demo_translate name = inl kr -> kr <> 0.
Proof. unfold demo_translate. destruct (_ && _); [done|]. by intros [= <-]. Qed.
#[global] Instance demo_ports : Ports :=
  {| ipc_port_translate_send := demo_translate; translate_fails := demo_translate_fails; ip_get_semaphore port := Some port; port_name_to_thread name := Some (Z.to_nat name) |}.
Lemma demo_wait_ok : trap_ok opening (TWait 1 5).
Proof.
  split; [|split].
  - intros name n ->%list_elem_of_singleton [= <-]. exists no_units. split; [reflexivity|]. split; reflexivity.
  - done.
  - intros t [= <-]. exists new_thread. split; [reflexivity|]. split; [reflexivity|]. unfold answered. left.
Qed.
Lemma demo_wait_blocks : exists s, run_trap (TWait 1 5) opening = Ret None s /\ sth s !! 1%nat = Some (5%nat, None).
Proof.
  assert (match run_trap (TWait 1 5) opening with Ret None s => bool_decide (sth s !! 1%nat = Some (5%nat, None)) | _ => false end = true) as Hb by (vm_compute; reflexivity).
  destruct (run_trap (TWait 1 5) opening) as [[kr|] s|why|]; try done. exists s. split; [done|]. by apply bool_decide_eq_true in Hb.
Qed.
Lemma opening_held : held ∅ opening.
Proof. constructor; [exact opening_whole| |intros t e Et; by rewrite lookup_empty in Et]. intros p. unfold holders. rewrite map_fold_empty. apply refs_nonneg, opening_whole. Qed.
(** Thread 1 blocks on semaphore 5, and its continuation returns. *)
Lemma traps_hold_references_witness :
  exists s, run_trap (TWait 1 5) opening = Ret None s /\ exists kr s', semaphore_wait_continue 1 THREAD_AWAKENED s = Ret kr s'.
Proof.
  destruct demo_wait_blocks as (s & E & Es). exists s. split; [exact E|].
  destruct (traps_hold_references ∅ opening (<[1%nat := (5%nat, None)]> ∅) s opening_held) as (_ & _ & Hc).
  - eapply trap_reach_step; [apply trap_reach_start|]. eapply (step_block _ _ (TWait 1 5)); [exact demo_wait_ok|reflexivity|apply lookup_empty|exact E|exact Es].
  - apply (Hc 1%nat (5%nat, None)); [apply lookup_insert_eq|left].
Defined.
Lemma unwaited_signal_stops_server_witness : semaphore_wait_signal 2 (Some 6%nat) (Some 4%nat) opening = Panic "semaphore_block".
Proof.
  apply (unwaited_signal_stops_server 2 unwaited_thread 6 4 defunct 2 [] opening opening_whole).
  - exact (opening_view 6 two_units eq_refl eq_refl).
  - lia.
  - reflexivity.
  - reflexivity.
  - reflexivity.
  - reflexivity.
  - reflexivity.
  - reflexivity.
Defined.
End TrapDemo.
End SemaTraps.
