(* ===== verification/PQueue.v ===== *)
(** * Priority queues

    The pairing heap of the vendored kernel ([xnu/libkern/c++/priority_queue.cpp],
    [xnu/osfmk/kern/priority_queue.h]) in its instance for deadlines, on which the
    timer queue rests.  An entry is a number and its key, the deadline, is in the
    entry, that is, in the function [key].  The child, next and previous links of the
    code are the structure of a tree of lists of children. *)
From S2P Require Import Prelude.

Module PQueue.

Inductive heap := Node (e : nat) (children : list heap).
Definition root (h : heap) : nat := match h with Node e _ => e end.
Definition child (h : heap) : list heap := match h with Node _ cs => cs end.
(** The entries of a heap. *)
Fixpoint entries (h : heap) : list nat := match h with Node e cs => e :: concat (map entries cs) end.

Section PQueue.
Variable key : nat -> Z.

(** The comparison says 1 if the first key is less and -1 otherwise; the second subtree
    becomes the parent if it says less than 0, so also at equal keys. *)
Definition compare (a b : nat) : Z := if key a <? key b then 1 else -1.
Definition merge_parent_is_subtree_b (a b : heap) : bool := compare (root a) (root b) <? 0.
Definition merge_pair (a b : heap) : heap :=
  if merge_parent_is_subtree_b a b then Node (root b) (a :: child b) else Node (root a) (b :: child a).
Definition merge_null (a : option heap) (b : heap) : heap := match a with None => b | Some a => merge_pair a b end.

(** The pairs of [meld_pair] in reverse order. *)
Fixpoint meld_pairs (l pair_list : list heap) : list heap :=
  match l with
  | [] => pair_list
  | [a] => a :: pair_list
  | a :: b :: l => meld_pairs l (merge_pair a b :: pair_list)
  end.
Definition meld_pair (l : list heap) : option heap := foldl (fun result h => Some (merge_null result h)) None (meld_pairs l []).

(** Taking the entry [e] with its subtree off the list it is on; it is not the root.
    [list_remove] does so below each of the children [cs] of [r]. *)
Definition remove_below (list_remove : heap -> option (heap * heap)) (e r : nat) : list heap -> list heap -> option (heap * heap) :=
  fix go before cs :=
    match cs with
    | [] => None
    | c :: cs =>
        if decide (root c = e) then Some (Node r (before ++ cs), c)
        else match list_remove c with
             | Some (c', sub) => Some (Node r (before ++ c' :: cs), sub)
             | None => go (before ++ [c]) cs
             end
    end.
Fixpoint list_remove (e : nat) (h : heap) : option (heap * heap) :=
  match h with Node r cs => remove_below (list_remove e) e r [] cs end.

Definition insert (q : option heap) (sub : heap) : option heap := Some (merge_null q sub).
Definition remove_root (h : heap) : option heap := meld_pair (child h).
Definition remove_non_root (h : heap) (e : nat) : option heap :=
  match list_remove e h with
  | None => Some h
  | Some (h', sub) => match meld_pair (child sub) with None => Some h' | Some m => Some (merge_pair h' m) end
  end.
Definition priority_queue_min (q : option heap) : option nat := root <$> q.
Definition priority_queue_insert (q : option heap) (e : nat) : option heap := insert q (Node e []).
Definition priority_queue_remove (q : option heap) (e : nat) : option heap :=
  match q with None => None | Some h => if decide (root h = e) then remove_root h else remove_non_root h e end.
Definition sift_down (q : option heap) (e : nat) : option heap := priority_queue_insert (priority_queue_remove q e) e.
Definition sift_up (q : option heap) (e : nat) : option heap :=
  match q with
  | None => None
  | Some h => if decide (root h = e) then q else match list_remove e h with None => q | Some (h', sub) => insert (Some h') sub end
  end.
Definition priority_queue_entry_increased (q : option heap) (e : nat) : option heap := sift_down q e.
Definition priority_queue_entry_decreased (q : option heap) (e : nat) : option heap := sift_up q e.
End PQueue.

(** ** Order *)

Definition pq_entries (q : option heap) : list nat := from_option entries [] q.
(** No entry is before its parent. *)
Fixpoint ordered (key : nat -> Z) (h : heap) : Prop :=
  match h with Node e cs => (fix go cs := match cs with [] => True | c :: cs => key e <= key (root c) /\ ordered key c /\ go cs end) cs end.

Section Induction.
Variable P : heap -> Prop.
Hypothesis node : forall e cs, Forall P cs -> P (Node e cs).
Fixpoint heap_ind' (h : heap) : P h :=
  match h with
  | Node e cs => node e cs ((fix go cs : Forall P cs := match cs with [] => Forall_nil_2 P | c :: cs => Forall_cons_2 P c cs (heap_ind' c) (go cs) end) cs)
  end.
End Induction.

Lemma ordered_node key e cs : ordered key (Node e cs) <-> Forall (fun c => key e <= key (root c) /\ ordered key c) cs.
Proof.
  induction cs as [|c cs IH]; [split; [constructor|done]|]. rewrite Forall_cons, <- IH. cbn. tauto.
Qed.
Lemma entries_node e cs : entries (Node e cs) = e :: concat (map entries cs).
Proof. done. Qed.
Lemma root_entries h : root h ∈ entries h.
Proof. destruct h. left. Qed.
Lemma elem_of_children e cs : e ∈ concat (map entries cs) <-> exists c, c ∈ cs /\ e ∈ entries c.
Proof.
  induction cs as [|c cs IH]; cbn; [split; [by intros ?%elem_of_nil|by intros (c & ?%elem_of_nil & _)]|]. rewrite elem_of_app, IH. split.
  - intros [?|(d & ? & ?)]; [exists c; split; [left|done]|exists d; split; [by right|done]].
  - intros (d & [->|?]%elem_of_cons & ?); [by left|right; eauto].
Qed.
(** The root is first. *)
Lemma ordered_least key h : ordered key h -> forall e, e ∈ entries h -> key (root h) <= key e.
Proof.
  induction h as [r cs IH] using heap_ind'. rewrite ordered_node. intros Ho e. rewrite entries_node, elem_of_cons. cbn [root]. intros [->|He]; [lia|].
  apply elem_of_children in He as (c & Hc & Hl). rewrite Forall_forall in IH, Ho. destruct (Ho c Hc) as [Hk Hoc]. pose proof (IH c Hc Hoc e Hl). lia.
Qed.
(** Only the keys of the entries matter. *)
Lemma ordered_ext key key' h : (forall e, e ∈ entries h -> key e = key' e) -> ordered key h -> ordered key' h.
Proof.
  induction h as [r cs IH] using heap_ind'. rewrite !ordered_node. intros Hk Ho. rewrite Forall_forall in IH, Ho |- *. intros c Hc. destruct (Ho c Hc) as [Hr Hoc].
  assert (Hin : forall e, e ∈ entries c -> e ∈ entries (Node r cs)).
  { intros e He. rewrite entries_node, elem_of_cons. right. apply elem_of_children. eauto. }
  split; [rewrite <- !Hk; [done|apply Hin, root_entries|left]|]. apply IH; [done|auto|done].
Qed.
Lemma merge_entries key a b : entries (merge_pair key a b) ≡ₚ entries a ++ entries b.
Proof.
  unfold merge_pair. destruct (merge_parent_is_subtree_b key a b).
  - destruct b as [y cb]. change (y :: entries a ++ concat (map entries cb) ≡ₚ entries a ++ y :: concat (map entries cb)). by rewrite Permutation_middle.
  - destruct a as [x ca]. change (x :: entries b ++ concat (map entries ca) ≡ₚ x :: concat (map entries ca) ++ entries b). by rewrite (Permutation_app_comm (entries b)).
Qed.
Lemma merge_ordered key a b : ordered key a -> ordered key b -> ordered key (merge_pair key a b).
Proof.
  intros Ha Hb. unfold merge_pair, merge_parent_is_subtree_b, compare. destruct a as [x ca], b as [y cb]. cbn [root child]. destruct (Z.ltb_spec (key x) (key y)); cbn [Z.ltb Z.compare];
    rewrite ordered_node in *; constructor; try done; cbn [root]; (split; [lia|]); by rewrite ordered_node.
Qed.
(** Any number of them. *)
Definition all_entries (l : list heap) : list nat := concat (map entries l).
Definition all_ordered (key : nat -> Z) (l : list heap) : Prop := Forall (ordered key) l.
Lemma meld_pairs_spec key : forall n l acc, (length l <= n)%nat ->
  all_entries (meld_pairs key l acc) ≡ₚ all_entries l ++ all_entries acc /\ (all_ordered key l -> all_ordered key acc -> all_ordered key (meld_pairs key l acc)).
Proof.
  induction n as [|n IH]; intros l acc Hn; [destruct l; [done|cbn in Hn; lia]|]. destruct l as [|a [|b l]]; cbn [meld_pairs]; [done|split; [unfold all_entries; cbn; by rewrite app_nil_r|]; unfold all_ordered; intros Ha Hacc; inversion_clear Ha; by constructor|].
  destruct (IH l (merge_pair key a b :: acc)) as [Hp Ho]; [cbn in Hn; lia|]. split.
  - rewrite Hp. unfold all_entries. cbn. rewrite merge_entries. solve_Permutation.
  - unfold all_ordered in *. intros Hl Hacc. inversion_clear Hl as [|? ? Ha Hl']. inversion_clear Hl' as [|? ? Hb Hl]. apply Ho; [done|]. constructor; [by apply merge_ordered|done].
Qed.
Definition pq_ordered (key : nat -> Z) (q : option heap) : Prop := from_option (ordered key) True q.
Lemma merge_null_spec key q h : entries (merge_null key q h) ≡ₚ pq_entries q ++ entries h /\ (pq_ordered key q -> ordered key h -> ordered key (merge_null key q h)).
Proof. destruct q as [a|]; cbn; [split; [apply merge_entries|apply merge_ordered]|done]. Qed.
Lemma meld_spec key l : pq_entries (meld_pair key l) ≡ₚ all_entries l /\ (all_ordered key l -> pq_ordered key (meld_pair key l)).
Proof.
  assert (Hf : forall k q, pq_entries (foldl (fun result h => Some (merge_null key result h)) q k) ≡ₚ pq_entries q ++ all_entries k /\
    (pq_ordered key q -> all_ordered key k -> pq_ordered key (foldl (fun result h => Some (merge_null key result h)) q k))).
  { induction k as [|h k IH]; intros q; cbn [foldl]; [split; [change (all_entries []) with (@nil nat); by rewrite app_nil_r|done]|]. destruct (merge_null_spec key q h) as [Hp Ho]. destruct (IH (Some (merge_null key q h))) as [Hp' Ho']. split.
    - rewrite Hp'. unfold all_entries. cbn. rewrite Hp. by rewrite app_assoc.
    - intros Hq Hl. inversion_clear Hl. apply Ho'; [by apply Ho|done]. }
  destruct (meld_pairs_spec key (length l) l [] (le_n _)) as [Hp Ho]. destruct (Hf (meld_pairs key l []) None) as [Hp' Ho']. unfold meld_pair. split.
  - rewrite Hp'. cbn. rewrite Hp. unfold all_entries. cbn. by rewrite app_nil_r.
  - intros Hl. apply Ho'; [done|]. apply Ho; [done|constructor].
Qed.
(** What is left when a subtree is taken off. *)
Record split_off (e : nat) (h h' sub : heap) : Prop := {
  split_root : root h' = root h;
  split_sub : root sub = e;
  split_entries : entries h ≡ₚ entries h' ++ entries sub;
  split_ordered key : ordered key h -> ordered key h' /\ ordered key sub;
}.
Lemma all_entries_app l k : all_entries (l ++ k) = all_entries l ++ all_entries k.
Proof. unfold all_entries. by rewrite map_app, concat_app. Qed.
Lemma remove_below_spec rm e r cs : forall before h' sub,
  Forall (fun c => forall c' sub, rm c = Some (c', sub) -> split_off e c c' sub) cs ->
  remove_below rm e r before cs = Some (h', sub) -> split_off e (Node r (before ++ cs)) h' sub.
Proof.
  induction cs as [|c cs IH]; intros before h' sub Hc; cbn [remove_below]; [done|]. inversion_clear Hc as [|? ? Hr Hcs]. case_decide as He; [|destruct (rm c) as [[c' sub']|] eqn:Em].
  - intros [= <- <-]. constructor; [done|done| |].
    + cbn. change (concat (map entries ?l)) with (all_entries l). rewrite !all_entries_app. change (all_entries (c :: cs)) with (entries c ++ all_entries cs). solve_Permutation.
    + intros key. rewrite !ordered_node, !Forall_app, Forall_cons. tauto.
  - intros [= <- <-]. destruct (Hr c' sub' eq_refl) as [Hroot Hsub Hent Hord]. constructor; [done|done| |].
    + cbn. change (concat (map entries ?l)) with (all_entries l). rewrite !all_entries_app. change (all_entries (?x :: cs)) with (entries x ++ all_entries cs). rewrite Hent. solve_Permutation.
    + intros key. rewrite !ordered_node, !Forall_app, !Forall_cons, Hroot. intros (Hb & (Hk & Ho) & Hl). destruct (Hord key Ho). tauto.
  - intros Hgo. replace (before ++ c :: cs) with ((before ++ [c]) ++ cs) by (by rewrite <- app_assoc). by eapply IH.
Qed.
Lemma list_remove_spec e h : forall h' sub, list_remove e h = Some (h', sub) -> split_off e h h' sub.
Proof. induction h as [r cs IH] using heap_ind'. intros h' sub. cbn [list_remove]. intros Hr. exact (remove_below_spec _ _ _ cs [] h' sub IH Hr). Qed.
Lemma remove_below_none rm e r cs : forall before, remove_below rm e r before cs = None -> Forall (fun c => root c <> e /\ rm c = None) cs.
Proof.
  induction cs as [|c cs IH]; intros before; cbn [remove_below]; [constructor|]. case_decide; [done|]. destruct (rm c) as [[c' sub]|] eqn:Em; [done|]. intros Hgo. constructor; [done|by eapply IH].
Qed.
(** It is found unless it is the root. *)
Lemma list_remove_none e h : list_remove e h = None -> e ∈ entries h -> e = root h.
Proof.
  induction h as [r cs IH] using heap_ind'. cbn [list_remove]. intros Hn%remove_below_none. rewrite entries_node, elem_of_cons. intros [->|(c & Hc & He)%elem_of_children]; [done|].
  rewrite Forall_forall in IH, Hn. destruct (Hn c Hc) as [Hr Hnone]. by destruct Hr; symmetry; apply IH.
Qed.

(** ** Operations *)
Lemma insert_entries key q e : pq_entries (priority_queue_insert key q e) ≡ₚ e :: pq_entries q.
Proof. destruct (merge_null_spec key q (Node e [])) as [Hp _]. cbn. rewrite Hp. cbn. symmetry. apply Permutation_cons_append. Qed.
Lemma insert_ordered key q e : pq_ordered key q -> pq_ordered key (priority_queue_insert key q e).
Proof. intros Hq. apply (merge_null_spec key q (Node e [])); [done|]. apply ordered_node. constructor. Qed.
Lemma child_entries h : entries h = root h :: all_entries (child h).
Proof. by destruct h. Qed.
Lemma child_ordered key h : ordered key h -> all_ordered key (child h).
Proof. destruct h. rewrite ordered_node. intros Ho. eapply Forall_impl; [exact Ho|]. by intros c []. Qed.
Lemma all_ordered_ext key key' l : (forall e, e ∈ all_entries l -> key e = key' e) -> all_ordered key l -> all_ordered key' l.
Proof.
  intros Hk Hl. unfold all_ordered in *. rewrite Forall_forall in Hl |- *. intros h Hh. eapply ordered_ext; [|by apply Hl]. intros e He. apply Hk. apply elem_of_children. eauto.
Qed.
Lemma remove_entries key q e : e ∈ pq_entries q -> e :: pq_entries (priority_queue_remove key q e) ≡ₚ pq_entries q.
Proof.
  destruct q as [h|]; [|by intros ?%elem_of_nil]. change (pq_entries (Some h)) with (entries h). cbn [priority_queue_remove]. intros He. case_decide as Hr.
  - unfold remove_root. destruct (meld_spec key (child h)) as [Hp _]. rewrite Hp, child_entries. by subst e.
  - unfold remove_non_root. destruct (list_remove e h) as [[h' sub]|] eqn:El; [|destruct Hr; symmetry; by eapply list_remove_none]. destruct (list_remove_spec _ _ _ _ El) as [_ Hsub Hent _].
    rewrite Hent, (child_entries sub), Hsub. destruct (meld_spec key (child sub)) as [Hp _]. destruct (meld_pair key (child sub)) as [m|].
    + change (pq_entries (Some (merge_pair key h' m))) with (entries (merge_pair key h' m)). rewrite merge_entries. change (pq_entries (Some m)) with (entries m) in Hp. rewrite Hp. solve_Permutation.
    + change (pq_entries (Some h')) with (entries h'). change (pq_entries None) with (@nil nat) in Hp. rewrite <- Hp. apply Permutation_cons_append.
Qed.
(** The key of the removed entry does not matter. *)
Lemma remove_ordered key0 key q e :
  pq_ordered key0 q -> NoDup (pq_entries q) -> (forall a, a <> e -> key0 a = key a) -> pq_ordered key (priority_queue_remove key q e).
Proof.
  destruct q as [h|]; [|done]. change (pq_entries (Some h)) with (entries h). change (pq_ordered key0 (Some h)) with (ordered key0 h). cbn [priority_queue_remove]. intros Ho Hnd Hk. case_decide as Hr.
  - apply meld_spec. eapply all_ordered_ext; [|by apply child_ordered]. intros a Ha. apply Hk. intros ->.  rewrite child_entries, Hr in Hnd. by apply NoDup_cons in Hnd as [? _].
  - unfold remove_non_root. destruct (list_remove e h) as [[h' sub]|] eqn:El.
    + destruct (list_remove_spec _ _ _ _ El) as [_ Hsub Hent Hord]. destruct (Hord key0 Ho) as [Ho' Hos].  rewrite Hent, (child_entries sub), Hsub in Hnd. apply NoDup_app in Hnd as (_ & Hdis & Hnd).
      assert (ordered key h') by (eapply ordered_ext; [|exact Ho']; intros a Ha; apply Hk; intros ->; apply (Hdis e Ha); left).
      assert (Hm : pq_ordered key (meld_pair key (child sub))).
      { apply meld_spec. eapply all_ordered_ext; [|by apply child_ordered]. intros a Ha. apply Hk. intros ->. by apply NoDup_cons in Hnd as [? _]. }
      destruct (meld_pair key (child sub)); [by apply merge_ordered|done].
    + eapply ordered_ext; [|exact Ho]. intros a Ha. apply Hk. intros ->. apply Hr. symmetry. by eapply list_remove_none.
Qed.
(** An entry whose key went down may stay above its children. *)
Lemma ordered_lower key0 key h : ordered key0 h -> NoDup (entries h) -> key (root h) <= key0 (root h) -> (forall a, a <> root h -> key0 a = key a) -> ordered key h.
Proof.
  destruct h as [r cs]. rewrite !ordered_node. cbn [root]. intros Ho Hnd Hle Hk. rewrite entries_node in Hnd. apply NoDup_cons in Hnd as [Hr _]. rewrite Forall_forall in Ho |- *. intros c Hc. destruct (Ho c Hc) as [Hkc Hoc].
  assert (Hin : forall a, a ∈ entries c -> a <> r) by (intros a Ha ->; apply Hr, elem_of_children; eauto). split; [rewrite <- (Hk (root c)) by (apply Hin, root_entries); lia|].
  eapply ordered_ext; [|exact Hoc]. intros a Ha. apply Hk. by apply Hin.
Qed.
Lemma sift_up_spec key0 key q e :
  pq_ordered key0 q -> NoDup (pq_entries q) -> key e <= key0 e -> (forall a, a <> e -> key0 a = key a) -> pq_entries (sift_up key q e) ≡ₚ pq_entries q /\ pq_ordered key (sift_up key q e).
Proof.
  destruct q as [h|]; [|done]. change (pq_entries (Some h)) with (entries h). change (pq_ordered key0 (Some h)) with (ordered key0 h). cbn [sift_up]. intros Ho Hnd Hle Hk. case_decide as Hr.
  - split; [done|]. subst e. by eapply ordered_lower.
  - destruct (list_remove e h) as [[h' sub]|] eqn:El.
    + destruct (list_remove_spec _ _ _ _ El) as [_ Hsub Hent Hord]. destruct (Hord key0 Ho) as [Ho' Hos].  pose proof Hnd as Hnd'. rewrite Hent in Hnd'. apply NoDup_app in Hnd' as (_ & Hdis & Hnd').
      split; [change (entries (merge_pair key h' sub) ≡ₚ entries h); by rewrite merge_entries, Hent|]. apply merge_ordered.
      * eapply ordered_ext; [|exact Ho']. intros a Ha. apply Hk. intros ->. apply (Hdis e Ha). rewrite <- Hsub. apply root_entries.
      * eapply ordered_lower; [exact Hos|done|by rewrite Hsub|by rewrite Hsub].
    + split; [done|]. eapply ordered_ext; [|exact Ho]. intros a Ha. apply Hk. intros ->. apply Hr. symmetry. by eapply list_remove_none.
Qed.

(** ** The queue as a set with keys *)
Inductive pq_op := PInsert (e : nat) | PRemove (e : nat) | PChange (e : nat) (z : Z).
Definition run_pq (o : pq_op) (key : nat -> Z) (q : option heap) : (nat -> Z) * option heap :=
  match o with
  | PInsert e => (key, priority_queue_insert key q e)
  | PRemove e => (key, priority_queue_remove key q e)
  | PChange e z =>
      let key' := <[e := z]> key in (key', if key e <? z then priority_queue_entry_increased key' q e else priority_queue_entry_decreased key' q e)
  end.
Definition pq_may (o : pq_op) (l : list nat) : Prop := match o with PInsert e => e ∉ l | PRemove e | PChange e _ => e ∈ l end.
Definition pq_next (o : pq_op) (l : list nat) : list nat := match o with PInsert e => e :: l | PRemove e => unlink e l | PChange _ _ => l end.
Record holds_set (key : nat -> Z) (q : option heap) (l : list nat) : Prop := {
  hs_entries : pq_entries q ≡ₚ l;
  hs_nodup : NoDup l;
  hs_ordered : pq_ordered key q;
}.
Definition first_of (key : nat -> Z) (q : option heap) (l : list nat) : Prop :=
  match priority_queue_min q with None => l = [] | Some m => m ∈ l /\ forall a, a ∈ l -> key m <= key a end.
Lemma holds_first key q l : holds_set key q l -> first_of key q l.
Proof.
  intros [Hp _ Ho]. unfold first_of. destruct q as [h|]; cbn in *; [|by apply Permutation_nil_l in Hp]. setoid_rewrite <- Hp. split; [apply root_entries|]. intros a. by apply ordered_least.
Qed.
Lemma unlink_perm (e : nat) l : e ∈ l -> e :: unlink e l ≡ₚ l.
Proof.
  induction l as [|a l IH]; [by intros ?%elem_of_nil|]. cbn. case_decide as Ha; [by intros _; subst|]. rewrite elem_of_cons. intros [->|He]; [done|]. rewrite Permutation_swap. by rewrite IH.
Qed.
(** Only the keys of the entries matter, and not their order. *)
Lemma holds_ext key key' q l l' : holds_set key q l -> l ≡ₚ l' -> (forall a, a ∈ l -> key a = key' a) -> holds_set key' q l'.
Proof.
  intros [Hp Hnd Ho] Hl Hk. constructor; [by rewrite Hp|by rewrite <- Hl|]. destruct q as [h|]; [|done]. eapply ordered_ext; [|exact Ho]. intros a Ha. apply Hk. by rewrite <- Hp.
Qed.
Lemma holds_insert key q l e : holds_set key q l -> e ∉ l -> holds_set key (priority_queue_insert key q e) (e :: l).
Proof. intros [Hp Hnd Ho] He. constructor; [by rewrite insert_entries, Hp|by apply NoDup_cons|by apply insert_ordered]. Qed.
Lemma holds_remove key q l e : holds_set key q l -> e ∈ l -> holds_set key (priority_queue_remove key q e) (unlink e l).
Proof.
  intros [Hp Hnd Ho] He. constructor.
  - apply (Permutation_cons_inv (a := e)). rewrite remove_entries by (by rewrite Hp). by rewrite unlink_perm.
  - by apply NoDup_unlink.
  - eapply remove_ordered; [exact Ho|by rewrite Hp|done].
Qed.
Lemma holds_change key0 key q l e :
  holds_set key0 q l -> e ∈ l -> (forall a, a <> e -> key0 a = key a) ->
  holds_set key (if key0 e <? key e then priority_queue_entry_increased key q e else priority_queue_entry_decreased key q e) l.
Proof.
  intros [Hp Hnd Ho] He Hk. assert (Hnq : NoDup (pq_entries q)) by (by rewrite Hp). assert (Hq : e ∈ pq_entries q) by (by rewrite Hp). destruct (Z.ltb_spec (key0 e) (key e)) as [Hlt|Hge].
  - constructor; [|done|]; unfold priority_queue_entry_increased, sift_down; [by rewrite insert_entries, remove_entries|]. apply insert_ordered. by eapply remove_ordered.
  - destruct (sift_up_spec key0 key q e) as [Hp' Ho']; [done..|]. constructor; [by rewrite Hp'|done|done].
Qed.
Lemma pq_step o key q l : holds_set key q l -> pq_may o l -> holds_set (fst (run_pq o key q)) (snd (run_pq o key q)) (pq_next o l).
Proof.
  intros Hq Hok. destruct o as [e|e|e z]; cbn [run_pq fst snd pq_next pq_may] in *; [by apply holds_insert|by apply holds_remove|].
  pose proof (holds_change key (<[e:=z]> key) q l e Hq Hok) as Hc. rewrite fn_lookup_insert in Hc. apply Hc. intros a Ha. by rewrite fn_lookup_insert_ne.
Qed.
(** C30: the pairing heap is a set of entries with keys: inserting, removing and changing
    the key of an entry do just that, and the minimum is an entry with the least key,
    or none if the set is empty. *)
Theorem pqueue_refines_set o key q l :
  holds_set key q l -> pq_may o l ->
  let '(key', q') := run_pq o key q in holds_set key' q' (pq_next o l) /\ first_of key' q' (pq_next o l).
Proof. intros Hq Hok. pose proof (pq_step o key q l Hq Hok) as Hs. destruct (run_pq o key q) as [key' q']. split; [done|by apply holds_first]. Qed.
End PQueue.
