(* ===== verification/Timers.v ===== *)
(** * Timer calls

    The timer calls of the vendored kernel ([xnu/osfmk/kern/timer_call.c]) on the one
    queue of the duct tape ([duct-tape/src/timer.c]), down to the host's timer
    ([dtape_hook_timer_arm] of [server.cpp]).  Entering, cancelling and expiring are
    programs of threads that run concurrently: a thread's [frame] says where it is in
    the code, [step] is its next piece of code between two points at which another
    thread can interfere, that is, acquiring or releasing a lock or looking at the
    clock or the host's timer.  Long term timers are off ([serverperfmode]), so a call is on
    [timer_queue] or on none; tracing and statistics are left out. *)
From S2P Require Import Prelude PQueue.

Definition UINT64_MAX : Z := 2 ^ 64 - 1.

(** What the timer calls take from elsewhere: the priority and mode that the scheduler
    keeps for a thread, the idle level, and 10 microseconds in the unit of the clock. *)
Class Timebase := {
  sched_pri : nat -> Z;
  sched_mode : nat -> Z;
  timer_user_idle_level : Z;
  past_deadline_timer_adjustment : Z;
}.

Module Timers.
Import PQueue.

(** ** Slop *)

Definition TIMER_CALL_SYS_CRITICAL : Z := 0x01.
Definition TIMER_CALL_SYS_BACKGROUND : Z := 0x02.
Definition TIMER_CALL_USER_MASK : Z := 0x10.
Definition TIMER_CALL_USER_CRITICAL : Z := 0x11.
Definition TIMER_CALL_USER_BACKGROUND : Z := 0x12.
Definition TIMER_CALL_URGENCY_MASK : Z := 0x13.
Definition TIMER_CALL_LEEWAY : Z := 0x20.
Definition TIMER_CALL_LOCAL : Z := 0x40.
Definition TIMER_CALL_RATELIMITED : Z := 0x80.
Definition BASEPRI_RTQUEUES : Z := 97.
Definition MINPRI_KERNEL : Z := 80.
Definition TH_MODE_FIXED : Z := 2.
Definition TH_MODE_TIMESHARE : Z := 3.

(** A shift and a maximum for each class of urgency, and for the tiers of quality of service
    also whether they are limited in rate. *)
Record timer_coalescing_priority_params := {
  timer_coalesce_rt : Z * Z;
  timer_coalesce_bg : Z * Z;
  timer_coalesce_kt : Z * Z;
  timer_coalesce_fp : Z * Z;
  timer_coalesce_ts : Z * Z;
  latency_qos : list (Z * Z * bool);
}.
Definition timer_call_get_priority_params : timer_coalescing_priority_params := {|
  timer_coalesce_rt := (0, 0); timer_coalesce_bg := (0, 0); timer_coalesce_kt := (0, 0);
  timer_coalesce_fp := (0, 0); timer_coalesce_ts := (0, 0); latency_qos := replicate 6 (0, 0, false) |}.
Definition tcoal_prio_params := timer_call_get_priority_params.

Definition TASK_POLICY_DARWIN_BG : Z := 0x21.
Definition TASK_POLICY_LATENCY_QOS : Z := 0x2F.
Definition proc_get_effective_thread_policy (flavor : Z) : Z := if flavor =? TASK_POLICY_LATENCY_QOS then 0 else -1.
Definition tcoal_qos_adjust : option (Z * Z * bool) :=
  let qos := proc_get_effective_thread_policy TASK_POLICY_LATENCY_QOS in
  if qos =? 0 then None else latency_qos tcoal_prio_params !! Z.to_nat (qos - 1).

Section Slop.
Context `{Timebase}.

(** The shift, the maximum and whether the call is limited in rate. *)
Definition timer_compute_leeway (t : nat) (urgency : Z) : Z * Z * bool :=
  let p := tcoal_prio_params in
  if has urgency TIMER_CALL_USER_MASK then
    if (BASEPRI_RTQUEUES <=? sched_pri t) || (urgency =? TIMER_CALL_USER_CRITICAL) then (timer_coalesce_rt p, false)
    else if negb (proc_get_effective_thread_policy TASK_POLICY_DARWIN_BG =? 0) || (urgency =? TIMER_CALL_USER_BACKGROUND) then
      match tcoal_qos_adjust with
      | Some (shift, max, limited) => if snd (timer_coalesce_bg p) <? max then (shift, max, limited) else (timer_coalesce_bg p, false)
      | None => (timer_coalesce_bg p, false)
      end
    else if MINPRI_KERNEL <=? sched_pri t then (timer_coalesce_kt p, false)
    else if sched_mode t =? TH_MODE_FIXED then (timer_coalesce_fp p, false)
    else match tcoal_qos_adjust with
         | Some adjusted => adjusted
         | None => if sched_mode t =? TH_MODE_TIMESHARE then (timer_coalesce_ts p, false) else (0, 0, false)
         end
  else if urgency =? TIMER_CALL_SYS_BACKGROUND then (timer_coalesce_bg p, false)
  else (timer_coalesce_kt p, false).

Definition timer_call_slop (deadline now flags : Z) (t : nat) : Z * bool :=
  let urgency := Z.land flags TIMER_CALL_URGENCY_MASK in
  if (now <? deadline) && negb (urgency =? TIMER_CALL_SYS_CRITICAL) then
    let '(shift, max, limited) := timer_compute_leeway t urgency in
    let adjval := if 0 <=? shift then Z.min (Z.shiftr (deadline - now) shift) max else Z.min (u64 (Z.shiftl (deadline - now) (- shift))) max in
    (u64 (adjval + Z.shiftr (u64 (adjval * timer_user_idle_level)) 7), limited)
  else (0, false).

(** What a call is set to when it is entered. *)
Record setting := { s_deadline : Z; s_soft : Z; s_ttd : Z; s_param1 : Z; s_flags : Z }.

Definition timer_call_past_deadline_timer_handle (ctime : Z) : Z := u64 (ctime + past_deadline_timer_adjustment).

(** The computation at the start of [timer_call_enter_internal]. *)
Definition timer_call_setting (t : nat) (ctime param1 deadline leeway flags : Z) (ratelimited : bool) : setting :=
  let urgency := Z.land flags TIMER_CALL_URGENCY_MASK in
  let '(slop, slop_ratelimited) := timer_call_slop deadline ctime urgency t in
  let slop := if has flags TIMER_CALL_LEEWAY && (slop <? leeway) then leeway else slop in
  let late := if UINT64_MAX - deadline <=? slop then UINT64_MAX else deadline + slop in
  let '(final, soft) := if late <? ctime then (timer_call_past_deadline_timer_handle ctime, timer_call_past_deadline_timer_handle ctime) else (late, deadline) in
  let flags := if ratelimited || slop_ratelimited then Z.lor flags TIMER_CALL_RATELIMITED else clr flags TIMER_CALL_RATELIMITED in
  {| s_deadline := final; s_soft := soft; s_ttd := u64 (soft - ctime); s_param1 := param1; s_flags := flags |}.

(** The guard of [timer_longterm_enqueue_unlocked]: [true] if it does nothing. *)
Definition serverperfmode : bool := true.
Definition TIMER_LONGTERM_NONE : Z := UINT64_MAX.
Definition timer_longterm_interval : Z := if serverperfmode then TIMER_LONGTERM_NONE else 1000000000.
Definition timer_longterm_declines (flags now deadline : Z) : bool :=
  has flags TIMER_CALL_LOCAL || (timer_longterm_interval =? TIMER_LONGTERM_NONE) || (deadline <=? u64 (now + timer_longterm_interval)).
End Slop.

(** ** Data *)

(** [tc_queue] says whether the pointer is to the queue or [NULL]; [tc_lock] is the
    thread that holds the lock of the call. *)
Record timer_call := {
  tc_soft_deadline : Z;
  tc_lock : option nat;
  tc_pqlink_deadline : Z;
  tc_queue : bool;
  tc_param1 : Z;
  tc_ttd : Z;
  tc_flags : Z;
  tc_async_dequeue : bool;
}.
#[export] Instance rebuild_timer_call : Rebuild timer_call := fun r =>
  Build_timer_call (tc_soft_deadline r) (tc_lock r) (tc_pqlink_deadline r) (tc_queue r) (tc_param1 r) (tc_ttd r) (tc_flags r) (tc_async_dequeue r).
Definition timer_call_setup : timer_call := {|
  tc_soft_deadline := 0; tc_lock := None; tc_pqlink_deadline := 0; tc_queue := false;
  tc_param1 := 0; tc_ttd := 0; tc_flags := 0; tc_async_dequeue := false |}.

Record mpqueue_head := {
  head : list nat;
  mpq_pqhead : option heap;
  earliest_soft_deadline : Z;
  count : Z;
  lock_data : option nat;
}.
#[export] Instance rebuild_mpqueue_head : Rebuild mpqueue_head := fun r =>
  Build_mpqueue_head (head r) (mpq_pqhead r) (earliest_soft_deadline r) (count r) (lock_data r).
Definition mpqueue_init : mpqueue_head := {| head := []; mpq_pqhead := None; earliest_soft_deadline := UINT64_MAX; count := 0; lock_data := None |}.

(** Where a thread is. *)
Inductive frame :=
| EnterStart (c : nat) (param1 deadline leeway flags : Z) (ratelimited : bool)  (* [timer_call_enter_internal] *)
| EnterAssign (c : nat) (x : setting)               (* [timer_queue_assign] *)
| EnterLock (c : nat) (x : setting)                 (* [simple_lock] of the call *)
| EnterQueue (c : nat) (x : setting) (old : bool)   (* lock of the queue, with the call's old queue *)
| EnterLocked (c : nat) (x : setting) (old : bool)
| EnterUnlock (c : nat) (old : bool)                (* [simple_unlock] of the call *)
| CancelLock (c : nat)                              (* [timer_call_dequeue_unlocked] *)
| CancelQueue (c : nat)
| CancelLocked (c : nat)
| CancelUnlock (c : nat) (old : bool)
| CancelNext (c : nat)                              (* the rest of [timer_call_cancel] *)
| CancelArm (c : nat)
| FiredStart                                        (* [dtape_timer_fired] *)
| FiredLock (cur : Z) (again : bool)                (* [timer_queue_expire]: lock of the queue *)
| FiredLoop (cur : Z) (again : bool)                (* the loop *)
| Callout (c : nat) (cur : Z)                       (* the call of [func] *)
| FiredArm (next : Z).
(** What has happened, with the value that the calls return. *)
Inductive event :=
| Entered (c : nat) (soft : Z) (was_queued : bool)
| Cancelled (c : nat) (was_queued : bool)
| Fired (c : nat) (time : Z)
| Skipped (c : nat).

(** [w_armed] is [_currentTimerDeadline] of the server, [w_timerfd] the time for which its
    timer is set; [w_log] has the last event first. *)
Record world := {
  w_calls : nat -> timer_call;
  timer_queue : mpqueue_head;
  w_clock : Z;
  w_armed : Z;
  w_timerfd : option Z;
  w_frames : nat -> list frame;
  w_log : list event;
}.
#[export] Instance rebuild_world : Rebuild world := fun r =>
  Build_world (w_calls r) (timer_queue r) (w_clock r) (w_armed r) (w_timerfd r) (w_frames r) (w_log r).
Definition dtape_timer_init (calls : nat -> timer_call) (clock : Z) : world := {|
  w_calls := calls; timer_queue := mpqueue_init; w_clock := clock; w_armed := 0; w_timerfd := None; w_frames := fun _ => []; w_log := [] |}.

Definition call_mod (c : nat) (f : timer_call -> timer_call) (w : world) : world := w <| w_calls ::= fun l => upd l c (f (l c)) |>.
Definition queue_mod (f : mpqueue_head -> mpqueue_head) (w : world) : world := w <| timer_queue ::= f |>.
Definition frames_to (t : nat) (fs : list frame) (w : world) : world := w <| w_frames ::= fun l => upd l t fs |>.
Definition log (e : event) (w : world) : world := w <| w_log ::= cons e |>.
Definition keys (w : world) : nat -> Z := fun c => tc_pqlink_deadline (w_calls w c).

(** ** The host's timer *)

Definition timer_arm (deadline_ns : Z) (override : bool) (w : world) : world :=
  let deadline_ns := if deadline_ns =? UINT64_MAX then 0 else deadline_ns in
  if negb override && negb (w_armed w =? 0) && (w_armed w <=? deadline_ns) then w
  else w <| w_armed := deadline_ns |> <| w_timerfd := if deadline_ns =? 0 then None else Some deadline_ns |>.
Definition timer_queue_assign (deadline : Z) (w : world) : world := timer_arm deadline false w.
Definition timer_queue_cancel (new_deadline : Z) (w : world) : world := timer_arm new_deadline true w.

(** ** Entries of the queue *)

Definition timer_call_entry_dequeue (c : nat) (w : world) : world :=
  let w := queue_mod (fun q => q <| mpq_pqhead := priority_queue_remove (keys w) (mpq_pqhead q) c |> <| head ::= unlink c |> <| count ::= fun n => u64 (n - 1) |>) w in
  call_mod c (fun x => x <| tc_queue := false |>) w.

(** The earliest soft deadline of a queue that starts with [c]. *)
Definition soft_deadline_of (c : nat) (w : world) : Z :=
  if has (tc_flags (w_calls w c)) TIMER_CALL_RATELIMITED then tc_pqlink_deadline (w_calls w c) else tc_soft_deadline (w_calls w c).

(** The entry is put in its place, anew or because its deadline has changed. *)
Definition place (c : nat) (deadline : Z) (w : world) : world :=
  if tc_queue (w_calls w c) then
    let old_deadline := tc_pqlink_deadline (w_calls w c) in
    let w := call_mod c (fun x => x <| tc_pqlink_deadline := deadline |>) w in
    queue_mod (fun q => q <| mpq_pqhead ::= fun p => if old_deadline <? deadline then priority_queue_entry_increased (keys w) p c else priority_queue_entry_decreased (keys w) p c |>) w
  else
    let w := queue_mod (fun q => q <| head ::= fun l => l ++ [c] |>) w in
    let w := call_mod c (fun x => x <| tc_queue := true |> <| tc_pqlink_deadline := deadline |>) w in
    queue_mod (fun q => q <| mpq_pqhead ::= fun p => priority_queue_insert (keys w) p c |>) w.
Definition timer_call_entry_enqueue_deadline (c : nat) (deadline : Z) (w : world) : world :=
  let old := tc_queue (w_calls w c) in
  let w := place c deadline w in
  let w := queue_mod (fun q => q <| earliest_soft_deadline ::= fun d => from_option (fun thead => soft_deadline_of thead w) d (priority_queue_min (mpq_pqhead q)) |>) w in
  let w := if old then queue_mod (fun q => q <| count ::= fun n => u64 (n - 1) |>) w else w in
  queue_mod (fun q => q <| count ::= fun n => u64 (n + 1) |>) w.

(** The call keeps its queue pointer; the flag says that it is not on the queue. *)
Definition timer_call_entry_dequeue_async (c : nat) (w : world) : world :=
  if tc_queue (w_calls w c) then
    let w := queue_mod (fun q => q <| count ::= fun n => u64 (n - 1) |> <| mpq_pqhead := priority_queue_remove (keys w) (mpq_pqhead q) c |> <| head ::= unlink c |>) w in
    call_mod c (fun x => x <| tc_async_dequeue := true |>) w
  else w.

(** ** Locks *)
Definition queue_lock (t : nat) (w : world) : option world :=
  match lock_data (timer_queue w) with Some _ => None | None => Some (queue_mod (fun q => q <| lock_data := Some t |>) w) end.
Definition queue_unlock (w : world) : world := queue_mod (fun q => q <| lock_data := None |>) w.
Definition call_lock (t c : nat) (w : world) : option world :=
  match tc_lock (w_calls w c) with Some _ => None | None => Some (call_mod c (fun x => x <| tc_lock := Some t |>) w) end.
Definition call_unlock (c : nat) (w : world) : world := call_mod c (fun x => x <| tc_lock := None |>) w.

(** ** Enter *)

Section Enter.
Context `{Timebase}.

(** [timer_call_enqueue_deadline_unlocked] with both locks held. *)
Definition enqueue_locked (c : nat) (x : setting) (old : bool) (w : world) : world :=
  let w := if old && tc_async_dequeue (w_calls w c) then call_mod c (fun y => y <| tc_async_dequeue := false |> <| tc_queue := false |>) w else w in
  let w := call_mod c (fun y => y <| tc_soft_deadline := s_soft x |> <| tc_flags := s_flags x |> <| tc_param1 := s_param1 x |> <| tc_ttd := s_ttd x |>) w in
  let w := timer_call_entry_enqueue_deadline c (s_deadline x) w in
  log (Entered c (s_soft x) old) (queue_unlock w).
Definition timer_call_enter_internal (t : nat) (f : frame) (rest : list frame) (w : world) : option world :=
  match f with
  | EnterStart c param1 deadline leeway flags ratelimited =>
      let x := timer_call_setting t (w_clock w) param1 deadline leeway flags ratelimited in
      let limited := has (s_flags x) TIMER_CALL_RATELIMITED in
      if limited || timer_longterm_declines (s_flags x) (w_clock w) (s_deadline x) then Some (frames_to t (EnterAssign c x :: rest) w) else None
  | EnterAssign c x => Some (frames_to t (EnterLock c x :: rest) (timer_queue_assign (s_deadline x) w))
  | EnterLock c x => frames_to t (EnterQueue c x (tc_queue (w_calls w c)) :: rest) <$> call_lock t c w
  | EnterQueue c x old => frames_to t (EnterLocked c x old :: rest) <$> queue_lock t w
  | EnterLocked c x old => Some (frames_to t (EnterUnlock c old :: rest) (enqueue_locked c x old w))
  | EnterUnlock c old => Some (frames_to t rest (call_unlock c w))
  | _ => None
  end.

End Enter.

(** ** Cancel *)

(** [timer_call_dequeue_unlocked] with both locks held. *)
Definition dequeue_locked (c : nat) (w : world) : world :=
  let w := if tc_async_dequeue (w_calls w c) then call_mod c (fun y => y <| tc_async_dequeue := false |> <| tc_queue := false |>) w else timer_call_entry_dequeue c w in
  log (Cancelled c true) (queue_unlock w).
(** The first deadline of the queue. *)
Definition next_deadline (w : world) : Z :=
  match priority_queue_min (mpq_pqhead (timer_queue w)) with Some c => tc_pqlink_deadline (w_calls w c) | None => UINT64_MAX end.
Definition next_soft_deadline (w : world) : Z :=
  match priority_queue_min (mpq_pqhead (timer_queue w)) with Some c => soft_deadline_of c w | None => UINT64_MAX end.
Definition arm_next (w : world) : world :=
  let w := timer_queue_cancel (next_deadline w) w in
  queue_unlock (queue_mod (fun q => q <| earliest_soft_deadline := next_soft_deadline w |>) w).
Definition timer_call_cancel (t : nat) (f : frame) (rest : list frame) (w : world) : option world :=
  match f with
  | CancelLock c => frames_to t (CancelQueue c :: rest) <$> call_lock t c w
  | CancelQueue c =>
      if tc_queue (w_calls w c) then frames_to t (CancelLocked c :: rest) <$> queue_lock t w
      else Some (frames_to t (CancelUnlock c false :: rest) (log (Cancelled c false) w))
  | CancelLocked c => Some (frames_to t (CancelUnlock c true :: rest) (dequeue_locked c w))
  | CancelUnlock c old => Some (frames_to t (if old then CancelNext c :: rest else rest) (call_unlock c w))
  | CancelNext c => frames_to t (CancelArm c :: rest) <$> queue_lock t w
  | CancelArm c => Some (frames_to t rest (arm_next w))
  | _ => None
  end.

(** ** Expiry *)

(** The end of [timer_queue_expire_with_options]. *)
Definition expire_end (t : nat) (rest : list frame) (w : world) : world :=
  frames_to t (FiredArm (next_deadline w) :: rest) (queue_unlock (queue_mod (fun q => q <| earliest_soft_deadline := next_soft_deadline w |>) w)).
(** An iteration of its loop, with [rescan] false. *)
Definition expire_iteration (t : nat) (cur : Z) (rest : list frame) (w : world) : option world :=
  match head (timer_queue w) with
  | [] => Some (expire_end t rest w)
  | _ =>
      match priority_queue_min (mpq_pqhead (timer_queue w)) with
      | None => None
      | Some c =>
          let x := w_calls w c in
          if cur <? tc_soft_deadline x then Some (expire_end t rest w)
          else if has (tc_flags x) TIMER_CALL_RATELIMITED && (cur <? tc_pqlink_deadline x) then Some (expire_end t rest w)
          else match tc_lock x with
               | Some _ => Some (frames_to t (FiredLoop cur true :: rest) (log (Skipped c) (timer_call_entry_dequeue_async c w)))
               | None => Some (frames_to t (Callout c cur :: rest) (log (Fired c (w_clock w)) (queue_unlock (timer_call_entry_dequeue c w))))
               end
      end
  end.
Definition dtape_timer_fired (t : nat) (f : frame) (rest : list frame) (w : world) : option world :=
  match f with
  | FiredStart => Some (frames_to t (FiredLock (w_clock w) false :: rest) w)
  | FiredLock cur again => frames_to t (FiredLoop cur again :: rest) <$> queue_lock t w
  | FiredLoop cur again => expire_iteration t (if again then w_clock w else cur) rest w
  | Callout c cur => Some (frames_to t (FiredLock cur true :: rest) w)
  | FiredArm next => Some (frames_to t rest (timer_arm next true w))
  | _ => None
  end.

(** ** Runs *)

Section Runs.
Context `{Timebase}.
Definition step (t : nat) (w : world) : option world :=
  match w_frames w t with
  | [] => None
  | f :: rest =>
      match f with
      | EnterStart _ _ _ _ _ _ | EnterAssign _ _ | EnterLock _ _ | EnterQueue _ _ _ | EnterLocked _ _ _ | EnterUnlock _ _ => timer_call_enter_internal t f rest w
      | CancelLock _ | CancelQueue _ | CancelLocked _ | CancelUnlock _ _ | CancelNext _ | CancelArm _ => timer_call_cancel t f rest w
      | _ => dtape_timer_fired t f rest w
      end
  end.
(** A thread that is not in the timer code, or in a callout of it, may enter and
    cancel calls. *)
Definition may_start (fs : list frame) : bool := match fs with [] | Callout _ _ :: _ => true | _ => false end.
Definition start (t : nat) (f : frame) (w : world) : option world :=
  if may_start (w_frames w t) then Some (frames_to t (f :: w_frames w t) w) else None.
Definition timer_call_enter_with_leeway (t c : nat) (param1 deadline leeway flags : Z) (ratelimited : bool) (w : world) : option world :=
  start t (EnterStart c param1 deadline leeway flags ratelimited) w.
Definition timer_call_enter1 (t c : nat) (param1 deadline flags : Z) (w : world) : option world := start t (EnterStart c param1 deadline 0 flags false) w.
Definition timer_call_enter (t c : nat) (deadline flags : Z) (w : world) : option world := start t (EnterStart c 0 deadline 0 flags false) w.
(** The server reads the expired timer and runs [dtape_timer_fired] in a new thread. *)
Definition timer_expired (t : nat) (w : world) : option world :=
  match w_frames w t, w_timerfd w with
  | [], Some d => if d <=? w_clock w then Some (frames_to t [FiredStart] (w <| w_timerfd := None |>)) else None
  | _, _ => None
  end.

Inductive action :=
| AEnter (t c : nat) (param1 deadline leeway flags : Z) (ratelimited : bool)
| ACancel (t c : nat)
| AExpired (t : nat)
| AStep (t : nat)
| ATick (d : Z).
Definition exec (a : action) (w : world) : option world :=
  match a with
  | AEnter t c param1 deadline leeway flags ratelimited => timer_call_enter_with_leeway t c param1 deadline leeway flags ratelimited w
  | ACancel t c => start t (CancelLock c) w
  | AExpired t => timer_expired t w
  | AStep t => step t w
  | ATick d => if 0 <=? d then Some (w <| w_clock ::= Z.add d |>) else None
  end.
Definition run (l : list action) (w : world) : option world := foldl (fun m a => m ≫= exec a) (Some w) l.
End Runs.
End Timers.
