(* ===== verification/TimersProps.v ===== *)
(** * Correctness of timer calls

    The queue, its priority queue and the calls agree, the locks are held by the
    threads that are in their sections, and the history of every call is one of the
    specification. *)
From S2P Require Import Prelude PQueue Timers.

Module TimersProps.
Import PQueue Timers.

(** ** Specification *)

(** A call is not entered, entered with a time before which it does not fire, or lost:
    entered, and not to be fired. *)
Inductive tstate := Off | On (soft : Z) | Lost.
Definition entered (a : tstate) : bool := match a with Off => false | _ => true end.
Definition spec_step (c : nat) (e : event) (a : tstate) : option tstate :=
  match e with
  | Entered c' soft was => if decide (c' = c) then if eqb was (entered a) then Some (On soft) else None else Some a
  | Cancelled c' was => if decide (c' = c) then if eqb was (entered a) then Some Off else None else Some a
  | Fired c' time => if decide (c' = c) then match a with On soft => if soft <=? time then Some Off else None | _ => None end else Some a
  | Skipped c' => if decide (c' = c) then match a with On _ => Some Lost | _ => None end else Some a
  end.
Definition history (c : nat) (l : list event) : option tstate := foldr (fun e m => m ≫= spec_step c e) (Some Off) l.
Definition state_of (x : timer_call) : tstate := if tc_queue x then if tc_async_dequeue x then Lost else On (tc_soft_deadline x) else Off.

(** ** Data *)

Record qdata (w : world) : Prop := {
  qd_heap : holds_set (keys w) (mpq_pqhead (timer_queue w)) (head (timer_queue w));
  qd_on c : c ∈ head (timer_queue w) <-> tc_queue (w_calls w c) = true /\ tc_async_dequeue (w_calls w c) = false;
  qd_async c : tc_async_dequeue (w_calls w c) = true -> tc_queue (w_calls w c) = true;
  qd_count : count (timer_queue w) = u64 (Z.of_nat (length (head (timer_queue w))));
}.
(** What an operation on the entry [c] does: it takes it to the state [a]. *)
Record effect (c : nat) (a : tstate) (w w' : world) : Prop := {
  ef_data : qdata w';
  ef_state : state_of (w_calls w' c) = a;
  ef_others c' : c' <> c -> w_calls w' c' = w_calls w c';
  ef_tc_lock : tc_lock (w_calls w' c) = tc_lock (w_calls w c);
  ef_lock_data : lock_data (timer_queue w') = lock_data (timer_queue w);
  ef_clock : w_clock w' = w_clock w;
  ef_frames : w_frames w' = w_frames w;
  ef_log : w_log w' = w_log w;
}.

Section TimersProps.
Context `{Timebase}.

Lemma u64_minus_one n : u64 (u64 (Z.of_nat (S n)) - 1) = u64 (Z.of_nat n).
Proof. unfold u64. rewrite Zminus_mod_idemp_l. f_equal. lia. Qed.
Lemma u64_plus_one n : u64 (u64 (Z.of_nat n) + 1) = u64 (Z.of_nat (S n)).
Proof. unfold u64. rewrite Zplus_mod_idemp_l. f_equal. lia. Qed.
Lemma calls_upd c f w c' : w_calls (call_mod c f w) c' = if decide (c' = c) then f (w_calls w c) else w_calls w c'.
Proof. reflexivity. Qed.

Lemma frames_upd t fs w : w_frames (frames_to t fs w) = upd (w_frames w) t fs.
Proof. reflexivity. Qed.

Lemma dequeue_effect c w : qdata w -> c ∈ head (timer_queue w) -> effect c Off w (timer_call_entry_dequeue c w).
Proof.
  intros [Hh Hon Has Hc] Hin. pose proof (hs_nodup _ _ _ Hh) as Hnd. unfold timer_call_entry_dequeue. cbv zeta. constructor; try done.
  - constructor.
    + eapply holds_ext; [exact (holds_remove _ _ _ c Hh Hin)|done|]. intros a _. unfold keys. rewrite calls_upd. by case_decide; subst.
    + intros c'. rewrite calls_upd. change (c' ∈ unlink c (head (timer_queue w)) <-> tc_queue (if decide (c' = c) then (w_calls w c) <| tc_queue := false |> else w_calls w c') = true /\ tc_async_dequeue (if decide (c' = c) then (w_calls w c) <| tc_queue := false |> else w_calls w c') = false). rewrite elem_of_unlink_iff by done. case_decide; [subst; cbn; naive_solver|]. change (w_calls (queue_mod _ w) c') with (w_calls w c'). rewrite Hon. naive_solver.
    + intros c'. rewrite calls_upd. case_decide as E; [|apply Has]. subst. cbn. apply Hon in Hin as [_ Hf]. rewrite Hf. done.
    + change (u64 (count (timer_queue w) - 1) = u64 (Z.of_nat (length (unlink c (head (timer_queue w)))))). rewrite Hc, (unlink_length c) by done. apply u64_minus_one.
  - rewrite calls_upd. by case_decide.
  - intros c' Hne. rewrite calls_upd. by case_decide.
  - rewrite calls_upd. by case_decide.
Qed.
Lemma dequeue_async_effect c w : qdata w -> c ∈ head (timer_queue w) -> effect c Lost w (timer_call_entry_dequeue_async c w).
Proof.
  intros [Hh Hon Has Hc] Hin. pose proof (hs_nodup _ _ _ Hh) as Hnd. destruct (proj1 (Hon c) Hin) as [Hq _]. unfold timer_call_entry_dequeue_async. rewrite Hq. cbv zeta. constructor; try done.
  - constructor.
    + eapply holds_ext; [exact (holds_remove _ _ _ c Hh Hin)|done|]. intros a _. unfold keys. rewrite calls_upd. by case_decide; subst.
    + intros c'. rewrite calls_upd. change (c' ∈ unlink c (head (timer_queue w)) <-> tc_queue (if decide (c' = c) then (w_calls w c) <| tc_async_dequeue := true |> else w_calls w c') = true /\ tc_async_dequeue (if decide (c' = c) then (w_calls w c) <| tc_async_dequeue := true |> else w_calls w c') = false).
      rewrite elem_of_unlink_iff by done. case_decide; [subst; cbn; naive_solver|]. rewrite Hon. naive_solver.
    + intros c'. rewrite calls_upd. case_decide as E; [|apply Has]. by subst.
    + change (u64 (count (timer_queue w) - 1) = u64 (Z.of_nat (length (unlink c (head (timer_queue w)))))). rewrite Hc, (unlink_length c) by done. apply u64_minus_one.
  - rewrite calls_upd, decide_True by done. unfold state_of. cbn. by rewrite Hq.
  - intros c' Hne. rewrite calls_upd. by case_decide.
  - rewrite calls_upd. by case_decide.
Qed.
(** A call that was dequeued so forgets its queue. *)
Lemma forget_effect c w : qdata w -> tc_async_dequeue (w_calls w c) = true -> effect c Off w (call_mod c (fun y => y <| tc_async_dequeue := false |> <| tc_queue := false |>) w).
Proof.
  intros [Hh Hon Has Hc] Ha. constructor; try done.
  - constructor; [| | |done].
    + eapply holds_ext; [exact Hh|done|]. intros a _. unfold keys. rewrite calls_upd. by case_decide; subst.
    + intros c'. rewrite calls_upd. change (head _) with (head (timer_queue w)). rewrite Hon. case_decide; [subst; cbn|done]. rewrite Ha. naive_solver.
    + intros c'. rewrite calls_upd. case_decide; [done|apply Has].
  - rewrite calls_upd. by case_decide.
  - intros c' Hne. rewrite calls_upd. by case_decide.
  - rewrite calls_upd. by case_decide.
Qed.
(** Setting the fields of a call other than its deadline. *)
Lemma fields_effect c f w :
  qdata w -> (forall x, tc_queue (f x) = tc_queue x /\ tc_async_dequeue (f x) = tc_async_dequeue x /\ tc_pqlink_deadline (f x) = tc_pqlink_deadline x) ->
  qdata (call_mod c f w).
Proof.
  intros [Hh Hon Has Hc] Hf. destruct (Hf (w_calls w c)) as (Fq & Fa & Fd). constructor; [| | |done].
  - eapply holds_ext; [exact Hh|done|]. intros a _. unfold keys. rewrite calls_upd. by case_decide; subst.
  - intros c'. rewrite calls_upd. change (head _) with (head (timer_queue w)). rewrite Hon. case_decide; [subst|done]. by rewrite Fq, Fa.
  - intros c'. rewrite calls_upd. case_decide; [subst; rewrite Fq, Fa|]; apply Has.
Qed.
(** Changes of the queue that leave its contents alone. *)
Lemma queue_qdata f w :
  qdata w -> (forall q, head (f q) = head q /\ mpq_pqhead (f q) = mpq_pqhead q /\ count (f q) = count q) -> qdata (queue_mod f w).
Proof.
  intros [Hh Hon Has Hc] Hf. destruct (Hf (timer_queue w)) as (Fh & Fp & Fc). constructor; [| |done|].
  - change (holds_set (keys w) (mpq_pqhead (f (timer_queue w))) (head (f (timer_queue w)))). by rewrite Fp, Fh.
  - intros c. change (c ∈ head (f (timer_queue w)) <-> tc_queue (w_calls w c) = true /\ tc_async_dequeue (w_calls w c) = false). by rewrite Fh.
  - change (count (f (timer_queue w)) = u64 (Z.of_nat (length (head (f (timer_queue w)))))). by rewrite Fh, Fc.
Qed.
Lemma place_calls c deadline w c' :
  w_calls (place c deadline w) c' = if decide (c' = c) then (w_calls w c) <| tc_queue := true |> <| tc_pqlink_deadline := deadline |> else w_calls w c'.
Proof.
  unfold place. destruct (tc_queue (w_calls w c)) eqn:Eq; [|done]. cbv zeta. change (w_calls (queue_mod _ ?v) c') with (w_calls v c'). rewrite calls_upd. case_decide; [|done]. destruct (w_calls w c). cbn in *. by subst.
Qed.
Lemma place_head c deadline w : head (timer_queue (place c deadline w)) = if tc_queue (w_calls w c) then head (timer_queue w) else head (timer_queue w) ++ [c].
Proof. unfold place. by destruct (tc_queue (w_calls w c)). Qed.
Lemma place_heap c deadline w :
  qdata w -> tc_async_dequeue (w_calls w c) = false ->
  holds_set (keys (place c deadline w)) (mpq_pqhead (timer_queue (place c deadline w))) (head (timer_queue (place c deadline w))).
Proof.
  intros [Hh Hon Has Hc] Ha. pose proof (Hon c) as Hc'. rewrite place_head. assert (Hk : forall a, a <> c -> keys w a = keys (place c deadline w) a) by (intros a Hne; unfold keys; rewrite place_calls; by case_decide).
  assert (Hkc : keys (place c deadline w) c = deadline) by (unfold keys; rewrite place_calls; by case_decide).
  remember (keys (place c deadline w)) as key eqn:Ek. unfold place in *. destruct (tc_queue (w_calls w c)) eqn:Eq; cbv zeta in *.
  - pose proof (holds_change (keys w) key _ _ c Hh ltac:(naive_solver) Hk) as Hch. rewrite Hkc in Hch. subst key. exact Hch.
  - assert (Hn : c ∉ head (timer_queue w)) by (rewrite Hc'; naive_solver). eapply holds_ext; [|apply Permutation_cons_append|done]. subst key. apply holds_insert; [|done]. eapply holds_ext; [exact Hh|done|]. intros a Hina. apply Hk. by intros ->.
Qed.
Lemma enqueue_calls c deadline w c' : w_calls (timer_call_entry_enqueue_deadline c deadline w) c' = w_calls (place c deadline w) c'.
Proof. unfold timer_call_entry_enqueue_deadline. cbv zeta. by destruct (tc_queue (w_calls w c)). Qed.
Lemma place_same c deadline w : let w' := place c deadline w in
  lock_data (timer_queue w') = lock_data (timer_queue w) /\ count (timer_queue w') = count (timer_queue w) /\ w_clock w' = w_clock w /\ w_frames w' = w_frames w /\ w_log w' = w_log w /\ w_armed w' = w_armed w /\ w_timerfd w' = w_timerfd w.
Proof. unfold place. by destruct (tc_queue (w_calls w c)). Qed.
Lemma enqueue_effect c deadline w :
  qdata w -> tc_async_dequeue (w_calls w c) = false -> effect c (On (tc_soft_deadline (w_calls w c))) w (timer_call_entry_enqueue_deadline c deadline w).
Proof.
  intros D Ha. pose proof (place_heap c deadline w D Ha) as Hp. pose proof (place_calls c deadline w) as Hcalls. pose proof (place_head c deadline w) as Hhead. destruct (place_same c deadline w) as (Sl & Sc & Sk & Sf & Sg & _). destruct D as [Hh Hon Has Hc]. pose proof (Hon c) as Hc'.
  assert (Hst : state_of (w_calls (place c deadline w) c) = On (tc_soft_deadline (w_calls w c))) by (rewrite Hcalls, decide_True by done; unfold state_of; cbn; by rewrite Ha).
  assert (Hlk : tc_lock (w_calls (place c deadline w) c) = tc_lock (w_calls w c)) by (rewrite Hcalls; by case_decide).
  assert (Hoth : forall c', c' <> c -> w_calls (place c deadline w) c' = w_calls w c') by (intros c' Hne; rewrite Hcalls; by case_decide).
  assert (Hon' : forall c', c' ∈ head (timer_queue (place c deadline w)) <-> tc_queue (w_calls (place c deadline w) c') = true /\ tc_async_dequeue (w_calls (place c deadline w) c') = false).
  { intros c'. rewrite Hhead, Hcalls. case_decide as E; [subst; cbn|]; destruct (tc_queue (w_calls w c)) eqn:Eq; rewrite ?elem_of_app, ?list_elem_of_singleton, ?Hon; naive_solver. }
  assert (Has' : forall c', tc_async_dequeue (w_calls (place c deadline w) c') = true -> tc_queue (w_calls (place c deadline w) c') = true) by (intros c'; rewrite Hcalls; case_decide; [done|apply Has]).
  unfold timer_call_entry_enqueue_deadline. cbv zeta. destruct (tc_queue (w_calls w c)) eqn:Eq; (constructor; [constructor; [exact Hp|exact Hon'|exact Has'|]|exact Hst|exact Hoth|exact Hlk|exact Sl|exact Sk|exact Sf|exact Sg]).
  - change (u64 (u64 (count (timer_queue (place c deadline w)) - 1) + 1) = u64 (Z.of_nat (length (head (timer_queue (place c deadline w)))))). rewrite Sc, Hc, Hhead. destruct (head (timer_queue w)) as [|a l]; [exfalso; assert (c ∈ []) by naive_solver; set_solver|]. cbn [length]. by rewrite u64_minus_one, u64_plus_one.
  - change (u64 (count (timer_queue (place c deadline w)) + 1) = u64 (Z.of_nat (length (head (timer_queue (place c deadline w)))))). rewrite Sc, Hc, Hhead, length_app, Nat.add_comm. apply u64_plus_one.
Qed.

Lemma effect_trans c a b w1 w2 w3 : effect c a w1 w2 -> effect c b w2 w3 -> effect c b w1 w3.
Proof.
  intros [E1 E2 E3 E4 E5 E6 E7 E8] [F1 F2 F3 F4 F5 F6 F7 F8]. constructor; try done; try congruence. intros c' Hne. rewrite F3, E3; done.
Qed.
(** Entering and cancelling with both locks held, up to the unlock. *)
Lemma enqueue_locked_effect c x old w :
  qdata w -> old = tc_queue (w_calls w c) -> exists w1, enqueue_locked c x old w = log (Entered c (s_soft x) old) (queue_unlock w1) /\ effect c (On (s_soft x)) w w1 /\ tc_pqlink_deadline (w_calls w1 c) = s_deadline x.
Proof.
  intros D Hold. unfold enqueue_locked. cbv zeta. eexists. split; [reflexivity|].
  set (w0 := if old && tc_async_dequeue (w_calls w c) then _ else w). set (w2 := call_mod c _ w0).
  assert (H0 : exists a, effect c a w w0 /\ tc_async_dequeue (w_calls w0 c) = false).
  { unfold w0. destruct (tc_async_dequeue (w_calls w c)) eqn:Ea.
    - assert (old = true) as -> by (rewrite Hold; by apply (qd_async w D)). exists Off. split; [by apply forget_effect|]. cbn [andb]. rewrite calls_upd. by case_decide.
    - rewrite andb_false_r. exists (state_of (w_calls w c)). by constructor. }
  destruct H0 as (a & E0 & Ha). assert (D2 : qdata w2) by (apply fields_effect; [apply E0|done]).
  assert (E2 : effect c (state_of (w_calls w2 c)) w0 w2) by (constructor; try done; [intros c' Hne; unfold w2; rewrite calls_upd; by case_decide|unfold w2; rewrite calls_upd; by case_decide]).
  assert (Hs : tc_soft_deadline (w_calls w2 c) = s_soft x) by (unfold w2; rewrite calls_upd; by case_decide). assert (Ha2 : tc_async_dequeue (w_calls w2 c) = false) by (unfold w2; rewrite calls_upd; by case_decide).
  split; [|rewrite enqueue_calls, place_calls; by case_decide]. rewrite <- Hs. eapply effect_trans; [exact E0|]. eapply effect_trans; [exact E2|]. by apply enqueue_effect.
Qed.
Lemma dequeue_locked_effect c w :
  qdata w -> tc_queue (w_calls w c) = true -> exists w1, dequeue_locked c w = log (Cancelled c true) (queue_unlock w1) /\ effect c Off w w1.
Proof.
  intros D Hq. unfold dequeue_locked. cbv zeta. eexists. split; [reflexivity|]. destruct (tc_async_dequeue (w_calls w c)) eqn:Ea; [by apply forget_effect|]. apply dequeue_effect; [done|]. by apply (qd_on w D).
Qed.

(** ** Invariant *)

Definition holds_queue (fs : list frame) : bool :=
  match fs with EnterLocked _ _ _ :: _ | CancelLocked _ :: _ | CancelArm _ :: _ | FiredLoop _ _ :: _ => true | _ => false end.
Definition holds_call (fs : list frame) : option nat :=
  match fs with
  | EnterQueue c _ _ :: _ | EnterLocked c _ _ :: _ | EnterUnlock c _ :: _ | CancelQueue c :: _ | CancelLocked c :: _ | CancelUnlock c _ :: _ => Some c
  | _ => None
  end.
(** What a thread relies on: the queue of the call it has locked does not change, and
    time does not go back. *)
Definition frame_ok (w : world) (f : frame) : Prop :=
  match f with
  | EnterQueue c _ old | EnterLocked c _ old => old = tc_queue (w_calls w c)
  | CancelLocked c => tc_queue (w_calls w c) = true
  | FiredLock cur _ | FiredLoop cur _ | Callout _ cur => cur <= w_clock w
  | _ => True
  end.
Definition in_callout (f : frame) : Prop := match f with Callout _ _ => True | _ => False end.

Record inv (w : world) : Prop := {
  i_data : qdata w;
  i_history c : history c (w_log w) = Some (state_of (w_calls w c));
  i_queue t : lock_data (timer_queue w) = Some t <-> holds_queue (w_frames w t) = true;
  i_call t c : tc_lock (w_calls w c) = Some t <-> holds_call (w_frames w t) = Some c;
  i_ok t : Forall (frame_ok w) (w_frames w t);
  i_stack t : Forall in_callout (tail (w_frames w t));
}.

(** A change by the thread [t], which takes it to [fs], of the locks that it may change. *)
Record change_by (t : nat) (fs : list frame) (w w' : world) : Prop := {
  cb_frames : w_frames w' = upd (w_frames w) t fs;
  cb_lock_data : lock_data (timer_queue w') = if holds_queue fs then Some t else if holds_queue (w_frames w t) then None else lock_data (timer_queue w);
  cb_queue_free : holds_queue fs = true -> holds_queue (w_frames w t) = true \/ lock_data (timer_queue w) = None;
  cb_tc_lock c : tc_lock (w_calls w' c) = if decide (holds_call fs = Some c) then Some t else if decide (holds_call (w_frames w t) = Some c) then None else tc_lock (w_calls w c);
  cb_call_free c : holds_call fs = Some c -> holds_call (w_frames w t) = Some c \/ tc_lock (w_calls w c) = None;
  cb_tc_queue c : tc_queue (w_calls w' c) = tc_queue (w_calls w c) \/ tc_lock (w_calls w c) = None \/ tc_lock (w_calls w c) = Some t;
  cb_clock : w_clock w <= w_clock w';
  cb_ok : Forall (frame_ok w') fs;
  cb_stack : Forall in_callout (tail fs);
}.
Lemma inv_change t fs w w' :
  inv w -> change_by t fs w w' -> qdata w' -> (forall c, history c (w_log w') = Some (state_of (w_calls w' c))) -> inv w'.
Proof.
  intros I [Cf Cl Cq Cc Cfree Cqueue Cclock Cok Cstack] D Hh. constructor; [done|done| | | |].
  - intros u. rewrite Cl, Cf. destruct (decide (u = t)) as [->|Hne]; [rewrite upd_eq|rewrite upd_ne by done].
    + destruct (holds_queue fs) eqn:E; [done|]. destruct (holds_queue (w_frames w t)) eqn:E'; [done|]. by rewrite (i_queue w I t), E'.
    + destruct (holds_queue fs) eqn:E.
      * split; [by intros [= ->]|]. intros Hu%(i_queue w I u). destruct (Cq eq_refl) as [Ht%(i_queue w I t)|Ht]; congruence.
      * destruct (holds_queue (w_frames w t)) eqn:E'; [|apply (i_queue w I u)]. split; [done|]. intros Hu%(i_queue w I u). apply (i_queue w I t) in E'. congruence.
  - intros u c. rewrite Cc, Cf. destruct (decide (u = t)) as [->|Hne]; [rewrite upd_eq|rewrite upd_ne by done].
    + destruct (decide (holds_call fs = Some c)) as [E|E]; [done|]. destruct (decide (holds_call (w_frames w t) = Some c)) as [E'|E']; [done|]. rewrite (i_call w I t c). naive_solver.
    + destruct (decide (holds_call fs = Some c)) as [E|E].
      * split; [by intros [= ->]|]. intros Hu%(i_call w I u). destruct (Cfree c E) as [Ht%(i_call w I t)|Ht]; congruence.
      * destruct (decide (holds_call (w_frames w t) = Some c)) as [E'|E']; [|apply (i_call w I u)]. split; [done|]. intros Hu%(i_call w I u). apply (i_call w I t) in E'. congruence.
  - intros u. rewrite Cf. destruct (decide (u = t)) as [->|Hne]; [by rewrite upd_eq|rewrite upd_ne by done]. pose proof (i_ok w I u) as Hok. pose proof (i_stack w I u) as Hst. pose proof (i_call w I u) as Hcall. destruct (w_frames w u) as [|f rest] eqn:Eu; [done|].
    apply Forall_cons in Hok as [Hf Hrest]. constructor.
    + assert (Hkeep : forall c, holds_call (f :: rest) = Some c -> tc_queue (w_calls w' c) = tc_queue (w_calls w c)).
      { intros c Hu%Hcall. destruct (Cqueue c) as [E|[E|E]]; [done|congruence|congruence]. }
      destruct f; cbn in *; try done; try lia; rewrite Hkeep; done.
    + rewrite Forall_forall in Hrest, Hst |- *. intros g Hg. specialize (Hrest g Hg). specialize (Hst g Hg). destruct g; try done. cbn in *. lia.
  - intros u. rewrite Cf. destruct (decide (u = t)) as [->|Hne]; [by rewrite upd_eq|rewrite upd_ne by done]. apply (i_stack w I).
Qed.
Lemma callouts_free rest : Forall in_callout rest -> holds_queue rest = false /\ holds_call rest = None.
Proof. destruct rest as [|f rest]; [done|]. intros Hf%Forall_cons_1. by destruct f; destruct Hf. Qed.
Lemma callouts_ok w w' rest : Forall in_callout rest -> w_clock w <= w_clock w' -> Forall (frame_ok w) rest -> Forall (frame_ok w') rest.
Proof. intros Hc Hle Hok. rewrite Forall_forall in Hc, Hok |- *. intros f Hf. specialize (Hc f Hf). specialize (Hok f Hf). destruct f; try done. cbn in *. lia. Qed.
Lemma callouts_tail rest : Forall in_callout rest -> Forall in_callout (tail rest).
Proof. destruct rest; [done|]. by intros [_ ?]%Forall_cons. Qed.
(** The data is the same. *)
Record same_data (w w' : world) : Prop := {
  sd_fields c : state_of (w_calls w' c) = state_of (w_calls w c) /\ tc_queue (w_calls w' c) = tc_queue (w_calls w c) /\ tc_async_dequeue (w_calls w' c) = tc_async_dequeue (w_calls w c) /\ tc_pqlink_deadline (w_calls w' c) = tc_pqlink_deadline (w_calls w c);
  sd_head : head (timer_queue w') = head (timer_queue w);
  sd_heap : mpq_pqhead (timer_queue w') = mpq_pqhead (timer_queue w);
  sd_count : count (timer_queue w') = count (timer_queue w);
}.
Lemma same_qdata w w' : same_data w w' -> qdata w -> qdata w'.
Proof.
  intros [Sf Sh Sp Sc] [Hh Hon Has Hc]. constructor.
  - rewrite Sp, Sh. eapply holds_ext; [exact Hh|done|]. intros a _. unfold keys. by destruct (Sf a) as (_ & _ & _ & ->).
  - intros c. rewrite Sh, Hon. by destruct (Sf c) as (_ & -> & -> & _).
  - intros c. destruct (Sf c) as (_ & -> & -> & _). apply Has.
  - by rewrite Sh, Sc.
Qed.
Lemma inv_same t fs w w' : inv w -> change_by t fs w w' -> same_data w w' -> w_log w' = w_log w -> inv w'.
Proof.
  intros I C S El. eapply inv_change; [done|done|by eapply same_qdata, i_data|]. intros c. rewrite El. destruct (sd_fields _ _ S c) as (-> & _). by apply i_history.
Qed.
Lemma call_same c f w : (forall x, tc_soft_deadline (f x) = tc_soft_deadline x /\ tc_queue (f x) = tc_queue x /\ tc_async_dequeue (f x) = tc_async_dequeue x /\ tc_pqlink_deadline (f x) = tc_pqlink_deadline x) -> same_data w (call_mod c f w).
Proof.
  intros Hf. constructor; [|done..]. intros c'. rewrite calls_upd. case_decide; [|done]. subst. destruct (Hf (w_calls w c)) as (E1 & E2 & E3 & E4). unfold state_of. by rewrite E1, E2, E3, E4.
Qed.
Lemma same_frames t fs w w' : same_data w w' -> same_data w (frames_to t fs w').
Proof. intros [S1 S2 S3 S4]. by constructor. Qed.

(** *** Steps that do not touch the data *)
Section Steps.
Variables (t : nat) (f : frame) (rest : list frame) (w : world).
Hypothesis I : inv w.
Hypothesis Ef : w_frames w t = f :: rest.

Lemma rest_callouts : Forall in_callout rest.
Proof. pose proof (i_stack w I t) as Hs. by rewrite Ef in Hs. Qed.
Lemma top_ok : frame_ok w f.
Proof. pose proof (i_ok w I t) as Hs. rewrite Ef in Hs. by apply Forall_cons in Hs as [? _]. Qed.
Lemma rest_ok : Forall (frame_ok w) rest.
Proof. pose proof (i_ok w I t) as Hs. rewrite Ef in Hs. by apply Forall_cons in Hs as [_ ?]. Qed.
(** The thread goes on to [g], or is done. *)
Definition next_ok (w' : world) (fs : list frame) : Prop := fs = rest \/ exists g, fs = g :: rest /\ frame_ok w' g.
Lemma next_stack w' fs : w_clock w <= w_clock w' -> next_ok w' fs -> Forall (frame_ok w') fs /\ Forall in_callout (tail fs).
Proof.
  intros Hle [->|(g & -> & Hg)]; (split; [|first [by apply callouts_tail, rest_callouts|by apply rest_callouts]]).
  - eapply callouts_ok; [apply rest_callouts|done|apply rest_ok].
  - constructor; [done|]. eapply callouts_ok; [apply rest_callouts|done|apply rest_ok].
Qed.
Lemma inv_goto w' fs :
  w_frames w' = upd (w_frames w) t fs -> w_calls w' = w_calls w -> same_data w w' -> lock_data (timer_queue w') = lock_data (timer_queue w) -> w_log w' = w_log w -> w_clock w' = w_clock w ->
  holds_queue fs = holds_queue (f :: rest) -> holds_call fs = holds_call (f :: rest) -> next_ok w' fs -> inv w'.
Proof.
  intros E1 E2 S E3 E4 E5 Hq Hc Hn. destruct (next_stack w' fs ltac:(lia) Hn) as [Hok Hst]. eapply (inv_same t fs); [exact I| |done|done].
  pose proof (i_queue w I t) as Iq. pose proof (i_call w I t) as Ic. rewrite Ef in Iq, Ic. constructor; rewrite ?Ef, ?Hq, ?Hc; try done.
  - rewrite E3. destruct (holds_queue (f :: rest)) eqn:Eq; [|done]. by apply Iq.
  - intros ->. by left.
  - intros c. rewrite E2. destruct (decide (holds_call (f :: rest) = Some c)) as [E|E]; [by apply Ic|done].
  - intros c Hc'. by left.
  - intros c. left. by rewrite E2.
  - lia.
Qed.
Lemma inv_queue_lock w1 g :
  queue_lock t w = Some w1 -> holds_queue (f :: rest) = false -> holds_queue [g] = true -> holds_call [g] = holds_call (f :: rest) -> frame_ok w g -> inv (frames_to t (g :: rest) w1).
Proof.
  unfold queue_lock. destruct (lock_data (timer_queue w)) eqn:El; [done|]. intros [= <-] Hq Hg Hc Hok. assert (Hg' : holds_queue (g :: rest) = true /\ holds_call (g :: rest) = holds_call [g]) by (by destruct g). destruct Hg' as [Hg1 Hg2].
  eapply (inv_same t (g :: rest)); [exact I| |by constructor|done]. pose proof (i_call w I t) as Ic. rewrite Ef in Ic.
  destruct (next_stack (frames_to t (g :: rest) (queue_mod (fun q => q <| lock_data := Some t |>) w)) (g :: rest)) as [Hok' Hst]; [done|right; exists g; by destruct g|]. constructor; rewrite ?Ef, ?Hg1, ?Hg2, ?Hc; try done.
  - by right.
  - intros c. destruct (decide (holds_call (f :: rest) = Some c)) as [E|E]; [by apply Ic|done].
  - by left.
  - by left.
Qed.
Lemma inv_call_lock c w1 g :
  call_lock t c w = Some w1 -> holds_queue (f :: rest) = false -> holds_call (f :: rest) = None -> holds_queue [g] = false -> holds_call [g] = Some c -> frame_ok w g -> inv (frames_to t (g :: rest) w1).
Proof.
  unfold call_lock. destruct (tc_lock (w_calls w c)) eqn:El; [done|]. intros [= <-] Hq Hc Hg Hg2 Hok. assert (Hg' : holds_queue (g :: rest) = false /\ holds_call (g :: rest) = Some c) by (by destruct g). destruct Hg' as [Hg1 Hg2'].
  set (w' := frames_to t (g :: rest) (call_mod c (fun x => x <| tc_lock := Some t |>) w)). assert (S : same_data w w') by (by apply same_frames, call_same). eapply (inv_same t (g :: rest)); [exact I| |exact S|done].
  destruct (next_stack w' (g :: rest)) as [Hok' Hst]; [done|right; exists g; split; [done|]|].
  { destruct g; try done; cbn -[w'] in *; by rewrite (proj1 (proj2 (sd_fields _ _ S _))). }
  constructor; rewrite ?Ef, ?Hg1, ?Hg2', ?Hq, ?Hc; try done.
  - intros c'. change (w_calls w') with (w_calls (call_mod c (fun x => x <| tc_lock := Some t |>) w)). rewrite calls_upd. destruct (decide (c' = c)) as [->|Hne]; [by rewrite decide_True|]. rewrite decide_False by congruence. done.
  - intros c' [= <-]. by right.
  - intros c'. left. apply (sd_fields _ _ S c').
Qed.
Lemma inv_call_unlock c fs :
  holds_queue (f :: rest) = false -> holds_call (f :: rest) = Some c -> (fs = rest \/ exists g, fs = g :: rest /\ holds_queue [g] = false /\ holds_call [g] = None /\ frame_ok w g) -> inv (frames_to t fs (call_unlock c w)).
Proof.
  intros Hq Hc Hfs. set (w' := frames_to t fs (call_unlock c w)). assert (S : same_data w w') by (by apply same_frames, call_same). eapply (inv_same t fs); [exact I| |exact S|done].
  assert (Hn : next_ok w' fs).
  { destruct Hfs as [->|(g & -> & H1 & H2 & H3)]; [by left|]. right. exists g. split; [done|]. by destruct g. }
  destruct (next_stack w' fs) as [Hok' Hst]; [done|done|]. assert (Hf : holds_queue fs = false /\ holds_call fs = None).
  { destruct Hfs as [->|(g & -> & H1 & H2 & _)]; [apply callouts_free, rest_callouts|by destruct g]. }
  destruct Hf as [Hf1 Hf2]. constructor; rewrite ?Ef, ?Hf1, ?Hf2, ?Hq, ?Hc; try done.
  - intros c'. change (w_calls w') with (w_calls (call_mod c (fun x => x <| tc_lock := None |>) w)). rewrite calls_upd. destruct (decide (c' = c)) as [->|Hne]; [by rewrite decide_False, decide_True|]. by rewrite !decide_False by congruence.
  - intros c'. left. apply (sd_fields _ _ S c').
Qed.

(** *** Steps that change an entry *)
Lemma inv_effect c a e w1 fs (unlock : bool) :
  effect c a w w1 -> (unlock = true -> holds_queue (f :: rest) = true) -> holds_queue fs = (if unlock then false else holds_queue (f :: rest)) -> holds_call fs = holds_call (f :: rest) ->
  tc_queue (w_calls w1 c) = tc_queue (w_calls w c) \/ tc_lock (w_calls w c) = None \/ tc_lock (w_calls w c) = Some t ->
  spec_step c e (state_of (w_calls w c)) = Some a -> (forall c' b, c' <> c -> spec_step c' e b = Some b) ->
  next_ok w fs -> (forall g, fs = g :: rest -> holds_call [g] = None \/ holds_queue [g] = false /\ frame_ok w1 g) ->
  inv (frames_to t fs (log e (if unlock then queue_unlock w1 else w1))).
Proof.
  intros [Ed Es Eo Etl Eld Ek Efr El] Hq Hq' Hc Htq Hsp Hso Hn Hn'. set (w' := frames_to t fs (log e (if unlock then queue_unlock w1 else w1))).
  assert (Sw : w_calls w' = w_calls w1 /\ w_clock w' = w_clock w /\ w_log w' = e :: w_log w /\ w_frames w' = upd (w_frames w) t fs).
  { unfold w'. destruct unlock; cbn; by rewrite Ek, El, Efr. }
  destruct Sw as (S1 & S2 & S3 & S4).
  assert (Hnx : next_ok w' fs).
  { destruct Hn as [->|(g & -> & Hg)]; [by left|]. right. exists g. split; [done|]. destruct (Hn' g eq_refl) as [Hg'|[Hg1 Hg2]]; destruct g; try done; cbn -[w'] in *; try rewrite S2; try done; by rewrite S1. }
  destruct (next_stack w' fs ltac:(lia) Hnx) as [Hok Hst]. pose proof (i_queue w I t) as Iq. pose proof (i_call w I t) as Ic. rewrite Ef in Iq, Ic. eapply (inv_change t fs); [exact I| | |].
  - constructor; rewrite ?Ef, ?Hq', ?Hc; try done.
    + unfold w'. destruct unlock; [by rewrite Hq|]. change (lock_data (timer_queue w1) = if holds_queue (f :: rest) then Some t else if holds_queue (f :: rest) then None else lock_data (timer_queue w)). rewrite Eld. destruct (holds_queue (f :: rest)); [by apply Iq|done].
    + destruct unlock; [done|]. by left.
    + intros c'. rewrite S1. assert (El' : tc_lock (w_calls w1 c') = tc_lock (w_calls w c')) by (destruct (decide (c' = c)) as [->|Hne]; [done|by rewrite Eo]). rewrite El'. destruct (decide (holds_call (f :: rest) = Some c')) as [E|E]; [by apply Ic|done].
    + by left.
    + intros c'. rewrite S1. destruct (decide (c' = c)) as [->|Hne]; [done|]. left. by rewrite Eo.
    + lia.
  - eapply same_qdata; [|exact Ed]. unfold w'. by destruct unlock; constructor.
  - intros c'. rewrite S1, S3. cbn [history foldr]. change (foldr _ _ (w_log w)) with (history c' (w_log w)). rewrite (i_history w I). cbn. destruct (decide (c' = c)) as [->|Hne]; [by rewrite Hsp, Es|]. by rewrite Hso, Eo.
Qed.

Lemma state_entered x : entered (state_of x) = tc_queue x.
Proof. unfold state_of. destruct (tc_queue x); [by destruct (tc_async_dequeue x)|done]. Qed.
Lemma own_lock c : holds_call (f :: rest) = Some c -> tc_lock (w_calls w c) = Some t.
Proof. rewrite <- Ef. apply (i_call w I). Qed.
Lemma arm_same d b : same_data w (timer_arm d b w) /\ w_calls (timer_arm d b w) = w_calls w /\ timer_queue (timer_arm d b w) = timer_queue w /\ w_frames (timer_arm d b w) = w_frames w /\ w_log (timer_arm d b w) = w_log w /\ w_clock (timer_arm d b w) = w_clock w.
Proof. unfold timer_arm. cbv zeta. destruct (_ && _ && _); by repeat split. Qed.
(** The queue is released with the same data. *)
Lemma inv_queue_unlock w1 fs :
  same_data w w1 -> w_calls w1 = w_calls w -> lock_data (timer_queue w1) = None -> w_frames w1 = w_frames w -> w_log w1 = w_log w -> w_clock w1 = w_clock w ->
  holds_queue (f :: rest) = true -> holds_queue fs = false -> holds_call fs = holds_call (f :: rest) -> next_ok w fs -> (forall g, fs = g :: rest -> holds_call [g] = None) -> inv (frames_to t fs w1).
Proof.
  intros S Sc Sl Sf Sg Sk Hq Hq' Hc Hn Hn'. eapply (inv_same t fs); [exact I| |by apply same_frames|done]. assert (Hnx : next_ok (frames_to t fs w1) fs).
  { destruct Hn as [->|(g & -> & Hg)]; [by left|]. right. exists g. split; [done|]. specialize (Hn' g eq_refl). destruct g; try done; cbn in *; lia. }
  destruct (next_stack (frames_to t fs w1) fs) as [Hok Hst]; [cbn; lia|done|]. pose proof (i_call w I t) as Ic. rewrite Ef in Ic. constructor; rewrite ?Ef, ?Hq', ?Hq, ?Hc; try done.
  - cbn. by rewrite Sf.
  - intros c. change (w_calls (frames_to t fs w1)) with (w_calls w1). rewrite Sc. destruct (decide (holds_call (f :: rest) = Some c)) as [E|E]; [by apply Ic|done].
  - by left.
  - intros c. left. cbn. by rewrite Sc.
  - cbn. lia.
Qed.
End Steps.

(** ** Every step keeps the invariant *)
Lemma enter_inv t f rest w w' : inv w -> w_frames w t = f :: rest -> timer_call_enter_internal t f rest w = Some w' -> inv w'.
Proof.
  intros I Ef. pose proof (top_ok t f rest w I Ef) as Hok. destruct f as [c param1 deadline leeway flags limited|c x|c x|c x old|c x old|c old| | | | | | | | | | |]; cbn [timer_call_enter_internal]; try done.
  - cbv zeta. destruct (_ || _); [|done]. intros [= <-]. eapply (inv_goto t _ rest w I Ef); try done. right. by eexists.
  - intros [= <-]. destruct (arm_same w (s_deadline x) false) as (S & Sc & Sq & Sf & Sl & Sk). unfold timer_queue_assign. eapply (inv_goto t _ rest w I Ef _ (EnterLock c x :: rest)); try done.
    + by rewrite frames_upd, Sf.
    + by apply same_frames.
    + change (lock_data (timer_queue (timer_arm (s_deadline x) false w)) = lock_data (timer_queue w)). by rewrite Sq.
    + right. by eexists.
  - destruct (call_lock t c w) as [w1|] eqn:El; [|done]. intros [= <-]. by eapply (inv_call_lock t _ rest w I Ef).
  - destruct (queue_lock t w) as [w1|] eqn:El; [|done]. intros [= <-]. by eapply (inv_queue_lock t _ rest w I Ef).
  - intros [= <-]. destruct (enqueue_locked_effect c x old w (i_data w I) Hok) as (w1 & -> & E & _). eapply (inv_effect t _ rest w I Ef c _ _ w1 _ true); try done.
    + right; right. by apply (own_lock t _ rest w I Ef).
    + cbn. rewrite decide_True, state_entered by done. cbn in Hok. by rewrite Hok, eqb_reflx.
    + intros c' b Hne. cbn. by rewrite decide_False.
    + right. by eexists.
    + intros g [= <-]. by right.
  - intros [= <-]. eapply (inv_call_unlock t _ rest w I Ef); try done. by left.
Qed.
Lemma cancel_inv t f rest w w' : inv w -> w_frames w t = f :: rest -> timer_call_cancel t f rest w = Some w' -> inv w'.
Proof.
  intros I Ef. pose proof (top_ok t f rest w I Ef) as Hok. destruct f as [| | | | | |c|c|c|c old|c|c| | | | |]; cbn [timer_call_cancel]; try done.
  - destruct (call_lock t c w) as [w1|] eqn:El; [|done]. intros [= <-]. by eapply (inv_call_lock t _ rest w I Ef).
  - destruct (tc_queue (w_calls w c)) eqn:Eq.
    + destruct (queue_lock t w) as [w1|] eqn:El; [|done]. intros [= <-]. by eapply (inv_queue_lock t _ rest w I Ef).
    + intros [= <-]. eapply (inv_effect t _ rest w I Ef c Off _ w _ false); try done.
      * constructor; try done; [apply I|]. unfold state_of. by rewrite Eq.
      * by left.
      * cbn. by rewrite decide_True, state_entered, Eq.
      * intros c' b Hne. cbn. by rewrite decide_False.
      * right. by eexists.
      * intros g [= <-]. by right.
  - intros [= <-]. destruct (dequeue_locked_effect c w (i_data w I) Hok) as (w1 & -> & E). eapply (inv_effect t _ rest w I Ef c _ _ w1 _ true); try done.
    + right; right. by apply (own_lock t _ rest w I Ef).
    + cbn. rewrite decide_True, state_entered by done. cbn in Hok. by rewrite Hok.
    + intros c' b Hne. cbn. by rewrite decide_False.
    + right. by eexists.
    + intros g [= <-]. by right.
  - intros [= <-]. eapply (inv_call_unlock t _ rest w I Ef); try done. destruct old; [right; by eexists|by left].
  - destruct (queue_lock t w) as [w1|] eqn:El; [|done]. intros [= <-]. by eapply (inv_queue_lock t _ rest w I Ef).
  - intros [= <-]. unfold arm_next, timer_queue_cancel. destruct (arm_same w (next_deadline w) true) as (S & Sc & Sq & Sf & Sl & Sk). pose proof (rest_callouts t _ rest w I Ef) as Hr. destruct (callouts_free rest Hr) as [Hr1 Hr2].
    eapply (inv_queue_unlock t _ rest w I Ef); try done; cbv zeta.
    + destruct S as [S1 S2 S3 S4]. by constructor.
    + intros g Hg. apply (f_equal length) in Hg. cbn in Hg. lia.
Qed.
Lemma fired_inv t f rest w w' : inv w -> w_frames w t = f :: rest -> dtape_timer_fired t f rest w = Some w' -> inv w'.
Proof.
  intros I Ef. pose proof (top_ok t f rest w I Ef) as Hok. pose proof (rest_callouts t _ rest w I Ef) as Hr. destruct (callouts_free rest Hr) as [Hr1 Hr2].
  destruct f as [| | | | | | | | | | | | |cur again|cur again|c cur|next]; cbn [dtape_timer_fired]; try done.
  - intros [= <-]. eapply (inv_goto t _ rest w I Ef); try done. right. eexists. split; [done|]. cbn. lia.
  - destruct (queue_lock t w) as [w1|] eqn:El; [|done]. intros [= <-]. by eapply (inv_queue_lock t _ rest w I Ef).
  - cbn in Hok. assert (Hcur : (if again then w_clock w else cur) <= w_clock w) by (destruct again; lia). remember (if again then w_clock w else cur) as now eqn:En. clear En.
    assert (Hend : inv (expire_end t rest w)).
    { unfold expire_end. eapply (inv_queue_unlock t _ rest w I Ef); try done; [right; by eexists|]. by intros g [= <-]. }
    unfold expire_iteration. destruct (Timers.head (timer_queue w)) as [|h l] eqn:Eh; [by intros [= <-]|]. destruct (priority_queue_min (mpq_pqhead (timer_queue w))) as [c|] eqn:Em; [|done]. cbv zeta.
    pose proof (holds_first _ _ _ (qd_heap w (i_data w I))) as Hfirst. unfold first_of in Hfirst. rewrite Em in Hfirst. destruct Hfirst as [Hc _]. destruct (proj1 (qd_on w (i_data w I) c) Hc) as [Hq Ha].
    assert (Hst : state_of (w_calls w c) = On (tc_soft_deadline (w_calls w c))) by (unfold state_of; by rewrite Hq, Ha). destruct (Z.ltb_spec now (tc_soft_deadline (w_calls w c))) as [Hlt|Hge]; [by intros [= <-]|]. destruct (_ && _); [by intros [= <-]|].
    destruct (tc_lock (w_calls w c)) as [u|] eqn:El; intros [= <-].
    + pose proof (dequeue_async_effect c w (i_data w I) Hc) as E. eapply (inv_effect t _ rest w I Ef c _ _ _ _ false); try done.
      * left. rewrite <- !state_entered. rewrite Hst. by rewrite (ef_state _ _ _ _ E).
      * cbn. by rewrite decide_True, Hst.
      * intros c' b Hne. cbn. by rewrite decide_False.
      * right. by eexists.
      * intros g [= <-]. by left.
    + pose proof (dequeue_effect c w (i_data w I) Hc) as E. eapply (inv_effect t _ rest w I Ef c _ _ _ _ true); try done.
      * by right; left.
      * cbn. rewrite decide_True, Hst by done. destruct (Z.leb_spec (tc_soft_deadline (w_calls w c)) (w_clock w)); [done|lia].
      * intros c' b Hne. cbn. by rewrite decide_False.
      * right. by eexists.
      * intros g [= <-]. by left.
  - intros [= <-]. eapply (inv_goto t _ rest w I Ef); try done. right. by eexists.
  - intros [= <-]. destruct (arm_same w next true) as (S & Sc & Sq & Sf & Sl & Sk). eapply (inv_goto t _ rest w I Ef _ rest); try done.
    by left.
Qed.
Lemma step_inv t w w' : inv w -> step t w = Some w' -> inv w'.
Proof.
  intros I. unfold step. destruct (w_frames w t) as [|f rest] eqn:Ef; [done|]. destruct f; first [by eapply enter_inv|by eapply cancel_inv|by eapply fired_inv].
Qed.
(** A thread with no lock gets a frame with none. *)
Lemma start_inv t f w w' : inv w -> holds_queue [f] = false -> holds_call [f] = None -> frame_ok w f -> start t f w = Some w' -> inv w'.
Proof.
  intros I Hq Hc Hok. unfold start. destruct (may_start (w_frames w t)) eqn:Em; [|done]. intros [= <-]. assert (Hcall : Forall in_callout (w_frames w t) /\ holds_queue (w_frames w t) = false /\ holds_call (w_frames w t) = None).
  { pose proof (i_stack w I t) as Hs. destruct (w_frames w t) as [|g rest]; [done|]. destruct g; try done. split; [by constructor|done]. }
  destruct Hcall as (Hcall & Hwq & Hwc). assert (Hf : holds_queue (f :: w_frames w t) = false /\ holds_call (f :: w_frames w t) = None) by (by destruct f). destruct Hf as [Hf1 Hf2].
  eapply (inv_same t (f :: w_frames w t)); [done| |by constructor|done]. constructor; rewrite ?Hf1, ?Hf2, ?Hwq, ?Hwc; try done.
  - by left.
  - constructor; [by destruct f|]. eapply (callouts_ok w); [done|done|apply (i_ok w I)].
Qed.
Lemma expired_inv t w w' : inv w -> timer_expired t w = Some w' -> inv w'.
Proof.
  intros I. unfold timer_expired. destruct (w_frames w t) as [|g rest] eqn:Ef; [|done]. destruct (w_timerfd w) as [d|]; [|done]. destruct (d <=? w_clock w); [|done]. intros [= <-]. eapply (inv_same t [FiredStart]); [done| |by constructor|done].
  constructor; rewrite ?Ef; try done; [by left|by constructor].
Qed.
Lemma tick_inv d w : inv w -> 0 <= d -> inv (w <| w_clock ::= Z.add d |>).
Proof.
  intros I Hd. destruct I as [Id Ih Iq Ic Iok Ist]. constructor; try done; [by destruct Id|]. intros t. specialize (Iok t). eapply Forall_impl; [exact Iok|]. intros f Hf. destruct f; cbn in *; try done; lia.
Qed.
Lemma timers_exec_inv a w w' : inv w -> exec a w = Some w' -> inv w'.
Proof.
  intros I. destruct a as [t c param1 deadline leeway flags limited|t c|t|t|d]; cbn [exec].
  - by apply start_inv.
  - by apply start_inv.
  - by apply expired_inv.
  - by apply step_inv.
  - destruct (Z.leb_spec 0 d); [|done]. intros [= <-]. by apply tick_inv.
Qed.
Lemma run_cons a l w : run (a :: l) w = exec a w ≫= run l.
Proof. unfold run. cbn. destruct (exec a w) as [w1|]; [done|]. cbn. induction l as [|b l IH]; [done|exact IH]. Qed.
Lemma run_inv l : forall w w', inv w -> run l w = Some w' -> inv w'.
Proof.
  induction l as [|a l IH]; intros w w' I; [by intros [= <-]|]. rewrite run_cons. destruct (exec a w) as [w1|] eqn:Ea; [|done]. cbn. apply IH. by eapply timers_exec_inv.
Qed.
Lemma init_inv clock : inv (dtape_timer_init (fun _ => timer_call_setup) clock).
Proof.
  constructor; try done. constructor; try done.
  - constructor; [done|constructor|done].
  - intros c. cbn. split; [by intros ?%elem_of_nil|by intros []].
Qed.
End TimersProps.

(** ** Theorems *)

(** C31: whatever threads enter, cancel and expire timer calls concurrently, also from
    callouts, the history of every call is one of the specification, and ends in the
    state that the call shows: entering and cancelling return whether the call was
    entered; a call fires only if it was entered, once for that, and not before its soft deadline;
    a call that the expiry skipped does not fire. *)
Theorem timers_refine `{Timebase} l clock w c :
  run l (dtape_timer_init (fun _ => timer_call_setup) clock) = Some w -> history c (w_log w) = Some (state_of (w_calls w c)).
Proof. intros Hr. apply i_history. eapply run_inv; [apply init_inv|exact Hr]. Qed.

(** in every world that the timer code reaches, the queue, the priority queue and the calls agree: a call is on the
    queue if its pointer says so and it was not skipped, the counter is the length, the
    first entry of the priority queue has the least deadline of the queue, and at most
    one thread is inside each lock. *)
Theorem timer_queue_kept `{Timebase} l clock w :
  run l (dtape_timer_init (fun _ => timer_call_setup) clock) = Some w ->
  first_of (keys w) (mpq_pqhead (timer_queue w)) (Timers.head (timer_queue w)) /\ NoDup (Timers.head (timer_queue w)) /\
  (forall c, c ∈ Timers.head (timer_queue w) <-> exists soft, state_of (w_calls w c) = On soft) /\
  count (timer_queue w) = u64 (Z.of_nat (length (Timers.head (timer_queue w)))) /\
  (forall t u, holds_queue (w_frames w t) = true -> holds_queue (w_frames w u) = true -> t = u) /\
  (forall t u c, holds_call (w_frames w t) = Some c -> holds_call (w_frames w u) = Some c -> t = u).
Proof.
  intros Hr. assert (I : inv w) by (eapply run_inv; [apply init_inv|exact Hr]). pose proof (i_data w I) as [Hh Hon Has Hc]. split; [by apply holds_first|]. split; [apply Hh|]. split; [|split; [done|split]].
  - intros c. rewrite Hon. unfold state_of. destruct (tc_queue (w_calls w c)), (tc_async_dequeue (w_calls w c)); naive_solver.
  - intros t u Ht%(i_queue w I) Hu%(i_queue w I). congruence.
  - intros t u c Ht%(i_call w I) Hu%(i_call w I). congruence.
Qed.

(** *** Progress *)
Section Progress.
Context `{Timebase}.
(** A thread that does not wait for a lock can go on. *)
Definition waits_queue (fs : list frame) : bool := match fs with EnterQueue _ _ _ :: _ | CancelNext _ :: _ | FiredLock _ _ :: _ => true | _ => false end.
Definition waits_call (fs : list frame) : option nat := match fs with EnterLock c _ :: _ | CancelLock c :: _ => Some c | _ => None end.
Lemma longterm_off flags now deadline : timer_longterm_declines flags now deadline = true.
Proof. unfold timer_longterm_declines. by rewrite orb_true_r. Qed.
Lemma step_goes t w :
  inv w -> w_frames w t <> [] -> (waits_queue (w_frames w t) = true \/ (exists c, holds_call (w_frames w t) = Some c /\ holds_queue (w_frames w t) = false) -> lock_data (timer_queue w) = None) ->
  (forall c, waits_call (w_frames w t) = Some c -> tc_lock (w_calls w c) = None) -> is_Some (step t w).
Proof.
  intros I Hne Hq Hc. unfold step. destruct (w_frames w t) as [|f rest] eqn:Ef; [done|]. destruct f as [c param1 deadline leeway flags limited|c x|c x|c x old|c x old|c old|c|c|c|c old|c|c| |cur again|cur again|c cur|next]; cbn [timer_call_enter_internal timer_call_cancel dtape_timer_fired]; try by eexists.
  - cbv zeta. rewrite longterm_off, orb_true_r. by eexists.
  - unfold call_lock. rewrite Hc by done. by eexists.
  - unfold queue_lock. rewrite Hq by (by left). by eexists.
  - unfold call_lock. rewrite Hc by done. by eexists.
  - destruct (tc_queue (w_calls w c)); [|by eexists]. unfold queue_lock. rewrite Hq by (right; by exists c). by eexists.
  - unfold queue_lock. rewrite Hq by (by left). by eexists.
  - unfold queue_lock. rewrite Hq by (by left). by eexists.
  - unfold expire_iteration. destruct (Timers.head (timer_queue w)) as [|h l] eqn:Eh; [by eexists|]. pose proof (holds_first _ _ _ (qd_heap w (i_data w I))) as Hfirst. unfold first_of in Hfirst. rewrite Eh in Hfirst.
    destruct (priority_queue_min (mpq_pqhead (timer_queue w))) as [c|]; [|done]. cbv zeta. destruct (_ <? _); [by eexists|]. destruct (_ && _); [by eexists|]. destruct (tc_lock (w_calls w c)); by eexists.
Qed.
End Progress.
(** C32: the timer code does not deadlock: whenever a thread is in it, some thread can go on. *)
Theorem timers_progress `{Timebase} l clock w t :
  run l (dtape_timer_init (fun _ => timer_call_setup) clock) = Some w -> w_frames w t <> [] -> exists u, is_Some (step u w).
Proof.
  intros Hr Ht. assert (I : inv w) by (eapply run_inv; [apply init_inv|exact Hr]).
  destruct (lock_data (timer_queue w)) as [h|] eqn:El.
  - exists h. pose proof (proj1 (i_queue w I h) El) as Hh. apply step_goes; [done|by destruct (w_frames w h)| |].
    + intros [Hw|(c & _ & Hw)]; [by destruct (w_frames w h) as [|[]]|congruence].
    + intros c Hw. by destruct (w_frames w h) as [|[]].
  - destruct (waits_call (w_frames w t)) as [c|] eqn:Ew; [destruct (tc_lock (w_calls w c)) as [h|] eqn:Ec|].
    + exists h. pose proof (proj1 (i_call w I h c) Ec) as Hh. apply step_goes; [done|by destruct (w_frames w h)|done|]. intros c' Hw. by destruct (w_frames w h) as [|[]].
    + exists t. apply step_goes; [done..|]. intros c' Hw. congruence.
    + exists t. apply step_goes; [done..|]. intros c' Hw. congruence.
Qed.
End TimersProps.
