(* ===== verification/TimersRuns.v ===== *)
(** * Timers that fire, and timers that are lost

    Operations that do not overlap keep the host's timer set for the first deadline,
    and when it expires, all calls that are due fire in the order of their deadlines.
    Operations that overlap can leave a call that is entered and never fires. *)
From S2P Require Import Prelude PQueue Timers TimersProps.

Module TimersRuns.
Import PQueue Timers TimersProps.

Section Calm.
Context `{Timebase}.

(** ** Settings *)
Definition good (x : setting) : Prop := 0 < s_deadline x < UINT64_MAX /\ s_soft x <= s_deadline x.
(** With the parameters of the duct tape there is no slop. *)
Lemma slop_zero deadline now flags t : timer_call_slop deadline now flags t = (0, false).
Proof.
  unfold timer_call_slop. destruct (Z.ltb_spec now deadline) as [Hlt|Hge]; [|done]. cbn [andb]. cbv zeta. destruct (Z.land flags TIMER_CALL_URGENCY_MASK =? TIMER_CALL_SYS_CRITICAL); [done|]. cbn [negb].
  assert (Hl : timer_compute_leeway t (Z.land flags TIMER_CALL_URGENCY_MASK) = (0, 0, false)).
  { unfold timer_compute_leeway. cbv zeta. repeat case_bool; done. }
  rewrite Hl. cbn [fst snd Z.leb Z.compare]. rewrite Z.shiftr_0_r, Z.min_r by lia. done.
Qed.
(** The clock and the deadline leave room. *)
Definition room (w : world) : Prop := 0 < w_clock w /\ 0 <= past_deadline_timer_adjustment /\ w_clock w + past_deadline_timer_adjustment < UINT64_MAX.
Definition gentle (a : action) : Prop := match a with AEnter _ _ _ deadline leeway _ _ => 0 <= leeway /\ deadline + leeway < UINT64_MAX | _ => True end.
Lemma setting_good t w param1 deadline leeway flags limited :
  room w -> 0 <= leeway -> deadline + leeway < UINT64_MAX ->
  let x := timer_call_setting t (w_clock w) param1 deadline leeway flags limited in good x /\ deadline <= s_soft x.
Proof.
  intros (Hr1 & Hr2 & Hr3) Hl Hd. cbv zeta. unfold timer_call_setting, good. rewrite slop_zero. cbv zeta. set (slop := if _ && _ then leeway else 0). assert (Hs : 0 <= slop <= leeway) by (unfold slop; destruct (_ && _); lia).
  destruct (Z.leb_spec (UINT64_MAX - deadline) slop) as [Hm|Hm]; [lia|]. unfold timer_call_past_deadline_timer_handle.
  destruct (Z.ltb_spec (deadline + slop) (w_clock w)) as [Hp|Hp]; cbn; [|lia]. unfold UINT64_MAX in *. rewrite u64_id by lia. lia.
Qed.

(** ** Operations that do not overlap *)

Definition alone (t : nat) (w : world) : Prop := forall u, u <> t -> w_frames w u = [].
Definition quiet (w : world) : Prop := forall t, w_frames w t = [].
Definition actor (a : action) : option nat := match a with AEnter t _ _ _ _ _ _ | ACancel t _ | AExpired t | AStep t => Some t | ATick _ => None end.
(** At every action all other threads are outside the timer code. *)
Fixpoint calm (l : list action) (w : world) : Prop :=
  room w /\
  match l with
  | [] => True
  | a :: l => (forall t, actor a = Some t -> alone t w) /\ gentle a /\ match exec a w with Some w' => calm l w' | None => False end
  end.

(** The expiry is under way, and will set the timer. *)
Definition is_firing (f : frame) : bool := match f with FiredStart | FiredLock _ _ | FiredLoop _ _ | Callout _ _ | FiredArm _ => true | _ => false end.
Definition firing (fs : list frame) : bool := existsb is_firing fs.
(** The setting that a thread is about to enter, and whether the timer has been armed for it. *)
Definition setting_of (fs : list frame) : option (bool * setting) :=
  match fs with EnterAssign _ x :: _ => Some (false, x) | EnterLock _ x :: _ | EnterQueue _ x _ :: _ | EnterLocked _ x _ :: _ => Some (true, x) | _ => None end.
(** The timer is set for [d] or earlier. *)
Definition set_for (w : world) (d : Z) : Prop := w_armed w <> 0 /\ w_armed w <= d.
Record timer_ok (w : world) : Prop := {
  to_fd : w_timerfd w = if w_armed w =? 0 then None else Some (w_armed w);
  to_set c : c ∈ Timers.head (timer_queue w) -> set_for w (tc_pqlink_deadline (w_calls w c));
}.
Definition call_good (x : timer_call) : Prop := 0 < tc_pqlink_deadline x < UINT64_MAX /\ tc_soft_deadline x <= tc_pqlink_deadline x.
Record cov (t : nat) (w : world) : Prop := {
  cv_inv : inv w;
  cv_alone : alone t w;
  cv_calls c : c ∈ Timers.head (timer_queue w) -> call_good (w_calls w c);
  cv_setting b x : setting_of (w_frames w t) = Some (b, x) -> good x;
  cv_timer : firing (w_frames w t) = false -> timer_ok w /\ forall x, setting_of (w_frames w t) = Some (true, x) -> set_for w (s_deadline x);
  cv_start c param1 deadline leeway flags limited rest : w_frames w t = EnterStart c param1 deadline leeway flags limited :: rest -> 0 <= leeway /\ deadline + leeway < UINT64_MAX;
  cv_next next rest : w_frames w t = FiredArm next :: rest -> next = next_deadline w;
}.
Lemma cov_switch t u w : cov t w -> alone u w -> cov u w.
Proof.
  intros [C1 C2 C3 C4 C5 C6 C7] Hu. destruct (decide (t = u)) as [->|Hne]; [by constructor|]. pose proof (Hu t Hne) as Et. pose proof (C2 u (not_eq_sym Hne)) as Eu. rewrite Et in *. by constructor; rewrite ?Eu.
Qed.

(** What a step of [t] does to the queue: it keeps some of the calls as they are. *)
Definition shrinks (w w' : world) : Prop :=
  forall c, c ∈ Timers.head (timer_queue w') -> c ∈ Timers.head (timer_queue w) /\ tc_pqlink_deadline (w_calls w' c) = tc_pqlink_deadline (w_calls w c) /\ tc_soft_deadline (w_calls w' c) = tc_soft_deadline (w_calls w c).
Lemma effect_head c a w w' c' : qdata w -> effect c a w w' -> c' ∈ Timers.head (timer_queue w') ->
  c' = c /\ (exists soft, a = On soft) \/ c' <> c /\ c' ∈ Timers.head (timer_queue w).
Proof.
  intros D E Hin. destruct (decide (c' = c)) as [->|Hne].
  - left. split; [done|]. rewrite <- (ef_state _ _ _ _ E). unfold state_of. apply (qd_on _ (ef_data _ _ _ _ E)) in Hin as [-> ->]. by eexists.
  - right. split; [done|]. apply (qd_on _ (ef_data _ _ _ _ E)) in Hin. rewrite (ef_others _ _ _ _ E) in Hin by done. by apply (qd_on _ D).
Qed.
Lemma effect_shrinks c a w w1 w' : qdata w -> effect c a w w1 -> a = Off \/ a = Lost -> Timers.head (timer_queue w') = Timers.head (timer_queue w1) -> w_calls w' = w_calls w1 -> shrinks w w'.
Proof.
  intros D E Ha Hh Hc c' Hin. rewrite Hh in Hin. rewrite Hc. destruct (effect_head _ _ _ _ _ D E Hin) as [[_ [soft ->]]|[Hne Hin']]; [by destruct Ha|]. by rewrite (ef_others _ _ _ _ E).
Qed.
Lemma alone_upd t fs w w' : alone t w -> w_frames w' = upd (w_frames w) t fs -> alone t w'.
Proof. intros Ha E u Hne. rewrite E, upd_ne by done. by apply Ha. Qed.

Definition goes_on (w : world) (fs : list frame) : Prop :=
  match fs with EnterStart _ _ _ _ _ _ :: _ => False | FiredArm next :: _ => next = next_deadline w | _ => True end.
Lemma callouts_go_on w rest : Forall in_callout rest -> goes_on w rest.
Proof. destruct rest as [|f rest]; [done|]. intros [Hf _]%Forall_cons. by destruct f. Qed.
Lemma cov_make t fs w w' :
  cov t w -> inv w' -> w_frames w' = upd (w_frames w) t fs -> (forall c, c ∈ Timers.head (timer_queue w') -> call_good (w_calls w' c)) -> (forall b x, setting_of fs = Some (b, x) -> good x) ->
  (firing fs = false -> timer_ok w' /\ forall x, setting_of fs = Some (true, x) -> set_for w' (s_deadline x)) -> goes_on w' fs -> cov t w'.
Proof.
  intros C I E Hc Hs Ht Hg. constructor; [done|by eapply alone_upd, E; apply C|done|by rewrite E, upd_eq|by rewrite E, upd_eq| |].
  - intros c param1 deadline leeway flags limited r. rewrite E, upd_eq. intros ->. destruct Hg.
  - intros next r. rewrite E, upd_eq. by intros ->.
Qed.
(** A step that leaves the timer alone and takes calls off the queue at most. *)
Lemma cov_shrink t f rest fs w w' :
  cov t w -> w_frames w t = f :: rest -> inv w' -> w_frames w' = upd (w_frames w) t fs -> shrinks w w' -> w_armed w' = w_armed w -> w_timerfd w' = w_timerfd w ->
  firing fs = firing (f :: rest) -> (forall b x, setting_of fs = Some (b, x) -> b = false /\ good x \/ setting_of (f :: rest) = Some (b, x)) -> goes_on w' fs -> cov t w'.
Proof.
  intros C Ef I E S Ea Et Hf Hs Hg. pose proof (cv_setting t w C) as Cs. pose proof (cv_timer t w C) as Ct. rewrite Ef in Cs, Ct. eapply (cov_make t fs); [done|done|done| | | |done].
  - intros c Hc. destruct (S c Hc) as (Hin & E1 & E2). unfold call_good. rewrite E1, E2. by apply (cv_calls t w C).
  - intros b x [[_ ?]|Hx]%Hs; [done|by eapply Cs].
  - rewrite Hf. intros Hff. destruct (Ct Hff) as [[Tf Ts] Tx]. split.
    + constructor; [by rewrite Ea, Et|]. intros c Hc. destruct (S c Hc) as (Hin & E1 & _). unfold set_for. rewrite Ea, E1. by apply Ts.
    + intros x. unfold set_for. rewrite Ea. intros [[? _]|Hx]%Hs; [done|by apply Tx].
Qed.
Lemma same_shrinks w w' : Timers.head (timer_queue w') = Timers.head (timer_queue w) -> (forall c, tc_pqlink_deadline (w_calls w' c) = tc_pqlink_deadline (w_calls w c) /\ tc_soft_deadline (w_calls w' c) = tc_soft_deadline (w_calls w c)) -> shrinks w w'.
Proof. intros Eh Ec c Hc. rewrite Eh in Hc. destruct (Ec c). done. Qed.
(** Arming for the first deadline. *)
Lemma arm_next_ok w w' : qdata w -> (forall c, c ∈ Timers.head (timer_queue w) -> call_good (w_calls w c)) ->
  w' = timer_arm (next_deadline w) true w -> timer_ok w'.
Proof.
  intros D Hg ->. pose proof (holds_first _ _ _ (qd_heap w D)) as Hf. unfold first_of in Hf. unfold next_deadline. destruct (priority_queue_min (mpq_pqhead (timer_queue w))) as [m|].
  - destruct Hf as [Hm Hmin]. destruct (Hg m Hm) as [Hd _]. unfold timer_arm. cbv zeta. cbn [negb andb]. destruct (Z.eqb_spec (tc_pqlink_deadline (w_calls w m)) UINT64_MAX); [lia|]. constructor; cbn; [done|]. intros c Hc. split; cbn; [lia|]. by apply Hmin.
  - constructor; cbn; [done|]. rewrite Hf. by intros c ?%elem_of_nil.
Qed.

(** Steps that the timer is not part of. *)
Lemma lock_shrinks t c w w1 w' : call_lock t c w = Some w1 -> Timers.head (timer_queue w') = Timers.head (timer_queue w1) -> w_calls w' = w_calls w1 -> shrinks w w'.
Proof. unfold call_lock. destruct (tc_lock (w_calls w c)); [done|]. intros [= <-] Eh Ec. apply same_shrinks; [done|]. intros c'. rewrite Ec, calls_upd. by case_decide; subst. Qed.
Lemma unlock_shrinks c w w' : Timers.head (timer_queue w') = Timers.head (timer_queue w) -> w_calls w' = w_calls (call_unlock c w) -> shrinks w w'.
Proof. intros Eh Ec. apply same_shrinks; [done|]. intros c'. rewrite Ec. unfold call_unlock. rewrite calls_upd. by case_decide; subst. Qed.
Lemma queue_lock_same t w w1 : queue_lock t w = Some w1 -> w1 = queue_mod (fun q => q <| lock_data := Some t |>) w.
Proof. unfold queue_lock. destruct (lock_data (timer_queue w)); [done|]. by intros [= <-]. Qed.
Lemma call_lock_same t c w w1 : call_lock t c w = Some w1 -> w_frames w1 = w_frames w /\ w_armed w1 = w_armed w /\ w_timerfd w1 = w_timerfd w.
Proof. unfold call_lock. destruct (tc_lock (w_calls w c)); [done|]. by intros [= <-]. Qed.
Lemma callouts_fire rest : Forall in_callout rest -> setting_of rest = None /\ (rest = [] \/ firing rest = true).
Proof. destruct rest as [|f rest]; [by auto|]. intros [Hf _]%Forall_cons. destruct f; try done. by auto. Qed.
Lemma enter_cov t f rest w w' :
  cov t w -> room w -> w_frames w t = f :: rest -> inv w' -> (forall c x, f <> EnterAssign c x) -> (forall c x old, f <> EnterLocked c x old) -> timer_call_enter_internal t f rest w = Some w' -> cov t w'.
Proof.
  intros C Hr Ef I Hna Hnl. pose proof (rest_callouts t f rest w (cv_inv t w C) Ef) as Hcall. destruct (callouts_fire rest Hcall) as [Hrs Hrf].
  destruct f as [c param1 deadline leeway flags limited|c x|c x|c x old|c x old|c old| | | | | | | | | | |]; cbn [timer_call_enter_internal]; try done.
  - destruct (cv_start t w C _ _ _ _ _ _ _ Ef) as [Hl Hd]. destruct (setting_good t w param1 deadline leeway flags limited Hr Hl Hd) as [Hg _]. cbv zeta. destruct (_ || _); [|done]. intros [= <-]. eapply (cov_shrink t _ rest); [exact C|exact Ef|done|done|by apply same_shrinks|done|done|done| |done].
    + intros b x [= <- <-]. by left.
  - by destruct (Hna c x).
  - destruct (call_lock t c w) as [w1|] eqn:El; [|done]. intros [= <-]. destruct (call_lock_same t c w w1 El) as (Sf & Sa & St). eapply (cov_shrink t _ rest); [exact C|exact Ef|done|by rewrite frames_upd, Sf|by eapply lock_shrinks|done|done|done| |done].
    + intros b y [= <- <-]. by right.
  - destruct (queue_lock t w) as [w1|] eqn:El; [|done]. apply queue_lock_same in El as ->. intros [= <-]. eapply (cov_shrink t _ rest); [exact C|exact Ef|done|done|by apply same_shrinks|done|done|done| |done].
    + intros b y [= <- <-]. by right.
  - by destruct (Hnl c x old).
  - intros [= <-]. eapply (cov_shrink t _ rest); [exact C|exact Ef|done|done|by eapply unlock_shrinks|done|done|done| |by apply callouts_go_on]. intros b y. by rewrite Hrs.
Qed.
(** Arming for a deadline leaves the timer set for it and for all it was set for. *)
Lemma arm_set d w : 0 < d < UINT64_MAX -> set_for (timer_arm d false w) d /\ (forall e, set_for w e -> set_for (timer_arm d false w) e) /\ (w_timerfd w = (if w_armed w =? 0 then None else Some (w_armed w)) -> w_timerfd (timer_arm d false w) = if w_armed (timer_arm d false w) =? 0 then None else Some (w_armed (timer_arm d false w))).
Proof.
  intros Hd. unfold timer_arm, set_for. cbv zeta. destruct (Z.eqb_spec d UINT64_MAX); [lia|]. destruct (Z.eqb_spec (w_armed w) 0) as [E|E], (Z.leb_spec (w_armed w) d) as [Hl|Hl]; cbn; (split; [lia|split; [intros e ?; lia|]]); first [done|destruct (Z.eqb_spec (w_armed w) 0); [lia|done]].
Qed.
Lemma assign_cov t c x rest w : cov t w -> w_frames w t = EnterAssign c x :: rest -> inv (frames_to t (EnterLock c x :: rest) (timer_queue_assign (s_deadline x) w)) -> cov t (frames_to t (EnterLock c x :: rest) (timer_queue_assign (s_deadline x) w)).
Proof.
  intros C Ef I. pose proof (cv_setting t w C) as Cs. pose proof (cv_timer t w C) as Ct. rewrite Ef in Cs, Ct. pose proof (Cs false x eq_refl) as Hg. destruct (arm_set (s_deadline x) w (proj1 Hg)) as (A1 & A2 & A3).
  unfold timer_queue_assign in *. destruct (arm_same w (s_deadline x) false) as (_ & Sc & Sq & Sf & _). eapply (cov_make t (EnterLock c x :: rest)); [done|done|by rewrite frames_upd, Sf| | | |done].
  - cbn. rewrite Sq, Sc. apply (cv_calls t w C).
  - by intros b y [= <- <-].
  - intros Hf. destruct (Ct Hf) as [[Tf Ts] _]. split; [|by intros y [= <-]]. constructor; [by apply A3|]. cbn. rewrite Sq, Sc. intros c' Hc'. by apply A2, Ts.
Qed.
Lemma enqueue_same c x old w : w_armed (enqueue_locked c x old w) = w_armed w /\ w_timerfd (enqueue_locked c x old w) = w_timerfd w.
Proof. unfold enqueue_locked, timer_call_entry_enqueue_deadline, place. cbv zeta. repeat case_match; done. Qed.
Lemma enqueue_cov t c x old rest w : cov t w -> w_frames w t = EnterLocked c x old :: rest -> inv (frames_to t (EnterUnlock c old :: rest) (enqueue_locked c x old w)) -> cov t (frames_to t (EnterUnlock c old :: rest) (enqueue_locked c x old w)).
Proof.
  intros C Ef. pose proof (cv_inv t w C) as I0. pose proof (top_ok t _ rest w I0 Ef) as Hok. pose proof (cv_setting t w C) as Cs. pose proof (cv_timer t w C) as Ct. rewrite Ef in Cs, Ct. pose proof (Cs true x eq_refl) as Hg.
  destruct (enqueue_locked_effect c x old w (i_data w I0) Hok) as (w1 & E & Eff & Ed). assert (Hsame : w_armed (enqueue_locked c x old w) = w_armed w /\ w_timerfd (enqueue_locked c x old w) = w_timerfd w) by (by apply enqueue_same). destruct Hsame as [Sa St]. rewrite E in *. intros I.
  assert (Hsoft : tc_soft_deadline (w_calls w1 c) = s_soft x).
  { pose proof (ef_state _ _ _ _ Eff) as Es. unfold state_of in Es. destruct (tc_queue _); [|done]. destruct (tc_async_dequeue _); [done|]. by injection Es. }
  assert (Hq : forall c', c' ∈ Timers.head (timer_queue w1) -> c' = c \/ c' <> c /\ c' ∈ Timers.head (timer_queue w) /\ w_calls w1 c' = w_calls w c').
  { intros c' Hin. destruct (effect_head _ _ _ _ _ (i_data w I0) Eff Hin) as [[-> _]|[Hne Hin']]; [by left|right]. by rewrite (ef_others _ _ _ _ Eff). }
  eapply (cov_make t (EnterUnlock c old :: rest)); [done|done|by rewrite frames_upd; cbn; rewrite (ef_frames _ _ _ _ Eff)| |done| |done]; cbn.
  - intros c' [->|(Hne & Hin & ->)]%Hq; [|by apply (cv_calls t w C)]. unfold call_good. rewrite Ed, Hsoft. exact Hg.
  - intros Hf. destruct (Ct Hf) as [[Tf Ts] Tx]. split; [|done]. cbn in Sa, St. constructor; cbn; [by rewrite Sa, St|]. unfold set_for. cbn. rewrite Sa. intros c' [->|(Hne & Hin & ->)]%Hq; [|by apply Ts]. rewrite Ed. by apply Tx.
Qed.
Lemma dequeue_same c w : w_armed (timer_call_entry_dequeue c w) = w_armed w /\ w_timerfd (timer_call_entry_dequeue c w) = w_timerfd w /\ w_frames (timer_call_entry_dequeue c w) = w_frames w.
Proof. done. Qed.
Lemma cancel_cov t f rest w w' : cov t w -> w_frames w t = f :: rest -> inv w' -> timer_call_cancel t f rest w = Some w' -> cov t w'.
Proof.
  intros C Ef I. pose proof (cv_inv t w C) as I0. pose proof (top_ok t f rest w I0 Ef) as Hok. pose proof (rest_callouts t f rest w I0 Ef) as Hcall. destruct (callouts_fire rest Hcall) as [Hrs Hrf].
  assert (Hrest : forall b x, setting_of rest = Some (b, x) -> b = false /\ good x \/ setting_of (f :: rest) = Some (b, x)) by (by rewrite Hrs).
  destruct f as [| | | | | |c|c|c|c old|c|c| | | | |]; cbn [timer_call_cancel]; try done.
  - destruct (call_lock t c w) as [w1|] eqn:El; [|done]. intros [= <-]. destruct (call_lock_same t c w w1 El) as (Sf & Sa & St). by eapply (cov_shrink t _ rest); [exact C|exact Ef|done|by rewrite frames_upd, Sf|by eapply lock_shrinks|..].
  - destruct (tc_queue (w_calls w c)).
    + destruct (queue_lock t w) as [w1|] eqn:El; [|done]. apply queue_lock_same in El as ->. intros [= <-]. by eapply (cov_shrink t _ rest); [exact C|exact Ef|done|done|by apply same_shrinks|..].
    + intros [= <-]. by eapply (cov_shrink t _ rest); [exact C|exact Ef|done|done|by apply same_shrinks|..].
  - intros [= <-]. destruct (dequeue_locked_effect c w (i_data w I0) Hok) as (w1 & E & Eff). assert (Hs : w_armed (dequeue_locked c w) = w_armed w /\ w_timerfd (dequeue_locked c w) = w_timerfd w) by (unfold dequeue_locked; cbv zeta; by destruct (tc_async_dequeue _)). destruct Hs as [Sa St].
    rewrite E in I, Sa, St |- *. eapply (cov_shrink t _ rest _ w); [exact C|exact Ef|done|by rewrite frames_upd; cbn; rewrite (ef_frames _ _ _ _ Eff)| |done..]. eapply effect_shrinks; [apply I0|exact Eff|by left|done|done].
  - intros [= <-]. eapply (cov_shrink t _ rest); [exact C|exact Ef|done|done|by eapply unlock_shrinks|done|done|by destruct old|by destruct old|destruct old; [done|by apply callouts_go_on]].
  - destruct (queue_lock t w) as [w1|] eqn:El; [|done]. apply queue_lock_same in El as ->. intros [= <-]. by eapply (cov_shrink t _ rest); [exact C|exact Ef|done|done|by apply same_shrinks|..].
  - intros [= <-]. destruct (arm_same w (next_deadline w) true) as (_ & Sc & Sq & Sf & _). destruct (arm_next_ok w _ (i_data w I0) (cv_calls t w C) eq_refl) as [Tf Ts]. eapply (cov_make t rest); [exact C|done|done| |by rewrite Hrs| |by apply callouts_go_on].
    + apply (cv_calls t w C).
    + intros _. split; [by constructor|by rewrite Hrs].
Qed.
Lemma fired_cov t f rest w w' : cov t w -> w_frames w t = f :: rest -> inv w' -> dtape_timer_fired t f rest w = Some w' -> cov t w'.
Proof.
  intros C Ef I. pose proof (cv_inv t w C) as I0. pose proof (rest_callouts t f rest w I0 Ef) as Hcall. destruct (callouts_fire rest Hcall) as [Hrs Hrf].
  destruct f as [| | | | | | | | | | | | |cur again|cur again|c cur|next]; cbn [dtape_timer_fired]; try done.
  - intros [= <-]. by eapply (cov_shrink t _ rest); [exact C|exact Ef|done|done|by apply same_shrinks|..].
  - destruct (queue_lock t w) as [w1|] eqn:El; [|done]. apply queue_lock_same in El as ->. intros [= <-]. by eapply (cov_shrink t _ rest); [exact C|exact Ef|done|done|by apply same_shrinks|..].
  - remember (if again then w_clock w else cur) as now eqn:En. clear En. assert (Hend : w' = expire_end t rest w -> cov t w').
    { intros ->. by eapply (cov_shrink t _ rest); [exact C|exact Ef|done|done|by apply same_shrinks|..]. }
    pose proof (holds_first _ _ _ (qd_heap w (i_data w I0))) as Hfirst. unfold first_of in Hfirst. unfold expire_iteration. destruct (Timers.head (timer_queue w)) as [|h l] eqn:Eh; [by intros [= <-]; apply Hend|].
    destruct (priority_queue_min (mpq_pqhead (timer_queue w))) as [c|]; [|done]. destruct Hfirst as [Hc _]. rewrite <- Eh in Hc. cbv zeta. destruct (_ <? _); [by intros [= <-]; apply Hend|]. destruct (_ && _); [by intros [= <-]; apply Hend|].
    destruct (tc_lock (w_calls w c)); intros [= <-].
    + pose proof (dequeue_async_effect c w (i_data w I0) Hc) as Eff. assert (Hs : w_armed (timer_call_entry_dequeue_async c w) = w_armed w /\ w_timerfd (timer_call_entry_dequeue_async c w) = w_timerfd w) by (unfold timer_call_entry_dequeue_async; by destruct (tc_queue _)). destruct Hs as [Sa St].
      eapply (cov_shrink t _ rest _ w); [exact C|exact Ef|done|by rewrite frames_upd; cbn; rewrite (ef_frames _ _ _ _ Eff)| |done..]. eapply effect_shrinks; [apply I0|exact Eff|by right|done|done].
    + pose proof (dequeue_effect c w (i_data w I0) Hc) as Eff. eapply (cov_shrink t _ rest _ w); [exact C|exact Ef|done|done| |done..]. eapply effect_shrinks; [apply I0|exact Eff|by left|done|done].
  - intros [= <-]. by eapply (cov_shrink t _ rest); [exact C|exact Ef|done|done|by apply same_shrinks|..].
  - intros [= <-]. rewrite (cv_next t w C _ _ Ef) in *. destruct (arm_next_ok w _ (i_data w I0) (cv_calls t w C) eq_refl) as [Tf Ts]. eapply (cov_make t rest); [exact C|done|done|apply (cv_calls t w C)|by rewrite Hrs| |by apply callouts_go_on]. intros _. split; [by constructor|by rewrite Hrs].
Qed.
Lemma step_cov t w w' : cov t w -> room w -> step t w = Some w' -> cov t w'.
Proof.
  intros C Hr Hs. pose proof (step_inv t w w' (cv_inv t w C) Hs) as I. unfold step in Hs. destruct (w_frames w t) as [|f rest] eqn:Ef; [done|].
  destruct f; try (by eapply enter_cov); try (by eapply cancel_cov); try (by eapply fired_cov).
  - injection Hs as <-. by eapply assign_cov.
  - injection Hs as <-. by eapply enqueue_cov.
Qed.
Lemma start_cov t f w w' :
  cov t w -> inv w' -> is_firing f = false -> setting_of [f] = None -> (forall c param1 deadline leeway flags limited, f = EnterStart c param1 deadline leeway flags limited -> 0 <= leeway /\ deadline + leeway < UINT64_MAX) ->
  start t f w = Some w' -> cov t w'.
Proof.
  intros C I Hf Hs Hg. unfold start. destruct (may_start _); [|done]. intros [= <-]. pose proof (cv_timer t w C) as Ct. assert (Es : setting_of (f :: w_frames w t) = None) by (by destruct f).
  constructor; [done|by eapply alone_upd; [apply C|]|apply (cv_calls t w C)|..]; rewrite ?frames_upd, ?upd_eq, ?Es; try done.
  - cbn [firing existsb]. rewrite Hf. intros Hff. destruct (Ct Hff) as [[Tf Ts] _]. split; [by constructor|done].
  - intros c param1 deadline leeway flags limited rest [= Ef _]. by eapply Hg.
  - intros next rest [= Ef _]. by rewrite Ef in Hf.
Qed.
Lemma exec_cov t a w w' : cov t w -> room w -> gentle a -> (forall u, actor a = Some u -> alone u w) -> exec a w = Some w' -> exists u, cov u w'.
Proof.
  intros C Hr Hg Ha He. pose proof (timers_exec_inv a w w' (cv_inv t w C) He) as I. destruct a as [u c param1 deadline leeway flags limited|u c|u|u|d]; cbn [exec] in He.
  - exists u. eapply (start_cov u (EnterStart c param1 deadline leeway flags limited)); [eapply cov_switch; [exact C|by apply Ha]|done|done|done| |exact He]. intros ? ? ? ? ? ? [= <- <- <- <- <- <-]. exact Hg.
  - exists u. by eapply (start_cov u (CancelLock c)); [eapply cov_switch; [exact C|by apply Ha]|done|done|done| |exact He].
  - exists u. pose proof (cov_switch t u w C (Ha u eq_refl)) as Cu. unfold timer_expired in He. destruct (w_frames w u) as [|] eqn:Ef; [|done]. destruct (w_timerfd w) as [d|]; [|done]. destruct (_ <=? _); [|done]. injection He as <-.
    by eapply (cov_make u [FiredStart]); [exact Cu|done|done|apply (cv_calls u w Cu)|..].
  - exists u. eapply step_cov; [eapply cov_switch; [exact C|by apply Ha]|done|done].
  - exists t. destruct (0 <=? d); [|done]. injection He as <-. destruct C as [C1 C2 C3 C4 C5 C6 C7]. constructor; try done. intros Hf. destruct (C5 Hf) as [[Tf Ts] Tx]. split; [by constructor|done].
Qed.
Lemma calm_cov l : forall w w', (exists t, cov t w) -> calm l w -> run l w = Some w' -> (exists t, cov t w') /\ room w'.
Proof.
  induction l as [|a l IH]; intros w w' [t C]; cbn [calm]; [by intros [Hr _] [= <-]; split; [exists t|]|]. intros (Hr & Ha & Hg & Hl). rewrite run_cons. destruct (exec a w) as [w1|] eqn:E; [|done]. apply IH; [by eapply exec_cov|done].
Qed.
Lemma init_cov clock : cov 0 (dtape_timer_init (fun _ => timer_call_setup) clock).
Proof.
  constructor; try done; [apply init_inv|by intros c ?%elem_of_nil|]. intros _. split; [|done]. constructor; [done|]. by intros c ?%elem_of_nil.
Qed.

(** ** Expiry of the host's timer *)

(** All calls [l] that were on the queue of [w] are fired now, in the order of [fired], or still on the queue of [w']. *)
Record expiry (deadline soft : nat -> Z) (l fired : list nat) (w w' : world) : Prop := {
  ex_calls : l ≡ₚ fired ++ Timers.head (timer_queue w');
  ex_order : StronglySorted (fun a b => deadline a <= deadline b) fired;
  ex_due c : c ∈ fired -> soft c <= w_clock w;
  ex_left c : c ∈ Timers.head (timer_queue w') -> w_clock w < deadline c;
  ex_clock : w_clock w' = w_clock w;
  ex_log : w_log w' = reverse (map (fun c => Fired c (w_clock w)) fired) ++ w_log w;
}.
Definition keyed (deadline soft : nat -> Z) (w : world) : Prop :=
  forall c, c ∈ Timers.head (timer_queue w) -> tc_pqlink_deadline (w_calls w c) = deadline c /\ tc_soft_deadline (w_calls w c) = soft c.
Lemma steps_more t k m w w1 w2 : run (replicate k (AStep t)) w = Some w1 -> run (replicate m (AStep t)) w1 = Some w2 -> run (replicate (k + m) (AStep t)) w = Some w2.
Proof. intros H1 H2. rewrite replicate_add. unfold run in *. by rewrite foldl_app, H1. Qed.
(** An iteration that fires [m]. *)
Lemma fire_one t cur again w m :
  cov t w -> w_frames w t = [FiredLoop cur again] -> priority_queue_min (mpq_pqhead (timer_queue w)) = Some m -> m ∈ Timers.head (timer_queue w) ->
  (again = true \/ cur = w_clock w) -> tc_soft_deadline (w_calls w m) <= w_clock w -> has (tc_flags (w_calls w m)) TIMER_CALL_RATELIMITED && (w_clock w <? tc_pqlink_deadline (w_calls w m)) = false ->
  exists w1, run (replicate 3 (AStep t)) w = Some w1 /\ w_frames w1 t = [FiredLoop (w_clock w) true] /\ Timers.head (timer_queue w1) = unlink m (Timers.head (timer_queue w)) /\
    (forall c, c <> m -> w_calls w1 c = w_calls w c) /\ w_clock w1 = w_clock w /\ w_log w1 = Fired m (w_clock w) :: w_log w.
Proof.
  intros C Ef Em Hin Hcur Hs Hlim. assert (Enow : (if again then w_clock w else cur) = w_clock w) by (destruct again; [done|by destruct Hcur]).
  assert (Hl : tc_lock (w_calls w m) = None).
  { destruct (tc_lock (w_calls w m)) as [u|] eqn:El; [|done]. apply (i_call w (cv_inv t w C)) in El. destruct (decide (u = t)) as [->|Hne]; [by rewrite Ef in El|]. by rewrite (cv_alone t w C u Hne) in El. }
  set (w1 := frames_to t [Callout m (w_clock w)] (log (Fired m (w_clock w)) (queue_unlock (timer_call_entry_dequeue m w)))).
  assert (S1 : step t w = Some w1).
  { unfold step. rewrite Ef. cbn [dtape_timer_fired]. rewrite Enow. unfold expire_iteration. destruct (Timers.head (timer_queue w)) as [|h l]; [by apply elem_of_nil in Hin|]. rewrite Em. cbv zeta. destruct (Z.ltb_spec (w_clock w) (tc_soft_deadline (w_calls w m))); [lia|]. by rewrite Hlim, Hl. }
  set (w2 := frames_to t [FiredLock (w_clock w) true] w1). assert (S2 : step t w1 = Some w2) by (unfold step, w1 at 1; by rewrite frames_upd, upd_eq).
  set (w3 := frames_to t [FiredLoop (w_clock w) true] (queue_mod (fun q => q <| lock_data := Some t |>) w2)). assert (S3 : step t w2 = Some w3) by (unfold step, w2 at 1; by rewrite frames_upd, upd_eq).
  exists w3. split; [by cbn; rewrite S1; cbn; rewrite S2; cbn; rewrite S3|]. split; [unfold w3; by rewrite frames_upd, upd_eq|]. split; [done|]. split; [|done].
  intros c Hne. exact (ef_others _ _ _ _ (dequeue_effect m w (i_data w (cv_inv t w C)) Hin) c Hne).
Qed.
(** A step changes its own frames only, and takes no time. *)
Definition own_step (t : nat) (w w' : world) : Prop := w_clock w' = w_clock w /\ exists fs, w_frames w' = upd (w_frames w) t fs.
Lemma own_frames t fs w w1 : w_clock w1 = w_clock w -> w_frames w1 = w_frames w -> own_step t w (frames_to t fs w1).
Proof. intros Hc Hf. split; [exact Hc|]. exists fs. by rewrite frames_upd, Hf. Qed.
Lemma step_own t w w' : step t w = Some w' -> own_step t w w'.
Proof.
  unfold step. destruct (w_frames w t) as [|f rest]; [done|].
  assert (Hq : forall fs w1, frames_to t fs <$> queue_lock t w = Some w1 -> own_step t w w1).
  { intros fs w1. destruct (queue_lock t w) as [w2|] eqn:E; [|done]. apply queue_lock_same in E as ->. intros [= <-]. by apply own_frames. }
  assert (Hc : forall c fs w1, frames_to t fs <$> call_lock t c w = Some w1 -> own_step t w w1).
  { intros c fs w1. unfold call_lock. destruct (tc_lock _); [done|]. intros [= <-]. by apply own_frames. }
  assert (Ha : forall d b fs, own_step t w (frames_to t fs (timer_arm d b w))) by (intros d b fs; destruct (arm_same w d b) as (_ & _ & _ & Sf & _ & Sk); by apply own_frames).
  destruct f; cbn [timer_call_enter_internal timer_call_cancel dtape_timer_fired]; cbv zeta; try (by apply Hq); try (by apply Hc); try (by intros [= <-]; apply own_frames).
  - destruct (_ || _); [|done]. intros [= <-]. by apply own_frames.
  - intros [= <-]. apply Ha.
  - intros [= <-]. apply own_frames; unfold enqueue_locked, timer_call_entry_enqueue_deadline, place; cbv zeta; repeat case_match; done.
  - destruct (tc_queue _); [by apply Hq|]. intros [= <-]. by apply own_frames.
  - intros [= <-]. apply own_frames; unfold dequeue_locked; cbv zeta; by destruct (tc_async_dequeue _).
  - unfold expire_iteration. repeat case_match; try done; intros [= <-]; apply own_frames; try done; unfold timer_call_entry_dequeue_async; by destruct (tc_queue _).
Qed.
Lemma step_clock t w w' : step t w = Some w' -> w_clock w' = w_clock w.
Proof. by intros [? _]%step_own. Qed.
Lemma steps_cov t k : forall w w', cov t w -> room w -> run (replicate k (AStep t)) w = Some w' -> cov t w' /\ room w'.
Proof.
  induction k as [|k IH]; intros w w' C Hr; [by intros [= <-]|]. cbn [replicate]. rewrite run_cons. cbn [exec]. destruct (step t w) as [w1|] eqn:E; [|done]. cbn. apply IH; [by eapply step_cov|]. unfold room. by rewrite (step_clock t w w1 E).
Qed.
(** The loop fires what is due, in order, and ends. *)
Lemma expire_loop deadline soft t n : forall w cur again,
  length (Timers.head (timer_queue w)) = n -> cov t w -> room w -> keyed deadline soft w -> w_frames w t = [FiredLoop cur again] -> (again = true \/ cur = w_clock w) ->
  exists k w' fired next, (k <= 3 * n + 1)%nat /\ run (replicate k (AStep t)) w = Some w' /\ w_frames w' t = [FiredArm next] /\ expiry deadline soft (Timers.head (timer_queue w)) fired w w'.
Proof.
  induction n as [n IH] using lt_wf_ind. intros w cur again Hn C Hr Hk Ef Hcur. pose proof (cv_inv t w C) as I. pose proof (holds_first _ _ _ (qd_heap w (i_data w I))) as Hfirst. unfold first_of in Hfirst.
  assert (Enow : (if again then w_clock w else cur) = w_clock w) by (destruct again; [done|by destruct Hcur]).
  (* the loop ends *)
  assert (Hend : step t w = Some (expire_end t [] w) -> (forall c, c ∈ Timers.head (timer_queue w) -> w_clock w < deadline c) ->
    exists k w' fired next, (k <= 3 * n + 1)%nat /\ run (replicate k (AStep t)) w = Some w' /\ w_frames w' t = [FiredArm next] /\ expiry deadline soft (Timers.head (timer_queue w)) fired w w').
  { intros Hs Hl. exists 1%nat, (expire_end t [] w), [], (next_deadline w). split; [lia|]. split; [cbn; by rewrite Hs|]. split; [unfold expire_end; by rewrite frames_upd, upd_eq|]. constructor; try done; [constructor|]. by intros c ?%elem_of_nil. }
  destruct (priority_queue_min (mpq_pqhead (timer_queue w))) as [m|] eqn:Em.
  2: { apply Hend; [unfold step; rewrite Ef; cbn [dtape_timer_fired]; unfold expire_iteration; by rewrite Hfirst|]. rewrite Hfirst. by intros c ?%elem_of_nil. }
  destruct Hfirst as [Hin Hmin]. destruct (Hk m Hin) as [Kd Ks]. destruct (cv_calls t w C m Hin) as [_ Hsoft].
  destruct ((tc_soft_deadline (w_calls w m) <=? w_clock w) && negb (has (tc_flags (w_calls w m)) TIMER_CALL_RATELIMITED && (w_clock w <? tc_pqlink_deadline (w_calls w m)))) eqn:Edue.
  - apply andb_true_iff in Edue as [Hdue%Z.leb_le Hlim%negb_true_iff]. destruct (fire_one t cur again w m C Ef Em Hin Hcur Hdue Hlim) as (w1 & R1 & F1 & H1 & C1 & K1 & L1). destruct (steps_cov t 3 w w1 C Hr R1) as [C' Hr']. assert (Hlen : (length (Timers.head (timer_queue w1)) < n)%nat) by (rewrite H1; rewrite (unlink_length m) in Hn by done; lia).
    pose proof (hs_nodup _ _ _ (qd_heap w (i_data w I))) as Hnd. assert (Hk' : keyed deadline soft w1).
    { intros c Hc. rewrite H1 in Hc. apply elem_of_unlink_iff in Hc as [Hne Hc]; [|done]. rewrite C1 by done. by apply Hk. }
    destruct (IH _ Hlen w1 (w_clock w) true eq_refl C' Hr' Hk' F1 (or_introl eq_refl)) as (k & w' & fired & next & Hkn & R2 & F2 & [X1 X2 X3 X4 X5 X6]). rewrite K1 in *.
    exists (3 + k)%nat, w', (m :: fired), next. split; [lia|]. split; [by eapply steps_more|]. split; [done|]. constructor.
    + cbn. rewrite <- X1, H1. symmetry. by apply unlink_perm.
    + constructor; [done|]. apply Forall_forall. intros c Hc. assert (Hc' : c ∈ Timers.head (timer_queue w)) by (apply (elem_of_unlink m); rewrite <- H1, X1; apply elem_of_app; by left). destruct (Hk c Hc') as [<- _]. rewrite <- Kd. by apply Hmin.
    + intros c [->|Hc]%elem_of_cons; [lia|by apply X3].
    + done.
    + done.
    + rewrite X6, L1. cbn [map]. rewrite reverse_cons, <- app_assoc. done.
  - assert (Hlate : w_clock w < tc_pqlink_deadline (w_calls w m)).
    { destruct (Z.leb_spec (tc_soft_deadline (w_calls w m)) (w_clock w)), (Z.ltb_spec (w_clock w) (tc_pqlink_deadline (w_calls w m))); try lia; by rewrite andb_false_r in Edue. }
    apply Hend; [|intros c Hc; destruct (Hk c Hc) as [<- _]; pose proof (Hmin c Hc) as Hm; unfold keys in Hm; lia]. unfold step. rewrite Ef. cbn [dtape_timer_fired]. rewrite Enow. unfold expire_iteration. destruct (Timers.head (timer_queue w)); [done|]. rewrite Em. cbv zeta.
    destruct (Z.ltb_spec (w_clock w) (tc_soft_deadline (w_calls w m))); [done|]. destruct (Z.leb_spec (tc_soft_deadline (w_calls w m)) (w_clock w)); [|lia]. cbn [andb] in Edue. apply negb_false_iff in Edue. by rewrite Edue.
Qed.
End Calm.

(** if the operations do not overlap, and deadline and leeway stay below the end of time, the host's timer
    is set whenever a call is on the queue and no operation is under way, for the deadline of the call or earlier. *)
Theorem calm_timers_covered `{Timebase} l clock w c :
  calm l (dtape_timer_init (fun _ => timer_call_setup) clock) -> run l (dtape_timer_init (fun _ => timer_call_setup) clock) = Some w -> quiet w ->
  c ∈ Timers.head (timer_queue w) -> exists d, w_timerfd w = Some d /\ d <= tc_pqlink_deadline (w_calls w c).
Proof.
  intros Hc Hr Hq Hin. destruct (calm_cov l _ _ (ex_intro _ 0%nat (init_cov clock)) Hc Hr) as [[t C] _]. destruct (cv_timer t w C) as [[Tf Ts] _]; [by rewrite Hq|]. destruct (Ts c Hin) as [Ha Hd]. exists (w_armed w). split; [|done]. rewrite Tf. by destruct (Z.eqb_spec (w_armed w) 0).
Qed.

(** C33: from the start of the timers on, let operations be run one after the other, each to its end before the next begins, let no call be
    entered with a deadline that together with its leeway reaches [UINT64_MAX] (such a call turns the timer off for all others, see
    [timers_can_be_lost]), and let the clock be positive and, with the adjustment for deadlines in the past, below [UINT64_MAX].  If then a call on
    the queue is due, the host's timer is set for its deadline or earlier, so that it expires, and [dtape_timer_fired], where the callouts leave
    the timers alone and the clock does not advance meanwhile, ends after a number of steps that is linear in the length of the queue: it fires
    the calls that are due, the earliest deadline first, none before its soft deadline, and leaves on the queue only calls whose
    deadline is in the future, with the timer set for the first of them. *)
Theorem due_calls_fire `{Timebase} l clock w t c :
  calm l (dtape_timer_init (fun _ => timer_call_setup) clock) -> run l (dtape_timer_init (fun _ => timer_call_setup) clock) = Some w -> quiet w ->
  c ∈ Timers.head (timer_queue w) -> tc_pqlink_deadline (w_calls w c) <= w_clock w ->
  exists k w' fired, (k <= 3 * length (Timers.head (timer_queue w)) + 4)%nat /\ run (AExpired t :: replicate k (AStep t)) w = Some w' /\ quiet w' /\ c ∈ fired /\
    expiry (keys w) (fun c => tc_soft_deadline (w_calls w c)) (Timers.head (timer_queue w)) fired w w' /\
    (forall a, a ∈ Timers.head (timer_queue w') -> exists d, w_timerfd w' = Some d /\ d <= tc_pqlink_deadline (w_calls w' a)).
Proof.
  intros Hc Hr Hq Hin Hdue. destruct (calm_cov l _ _ (ex_intro _ 0%nat (init_cov clock)) Hc Hr) as [[u C] Hroom]. assert (Ct : cov t w) by (eapply cov_switch; [exact C|]; intros v _; apply Hq). clear C u.
  destruct (cv_timer t w Ct) as [[Tf Ts] _]; [by rewrite Hq|]. destruct (Ts c Hin) as [Ha Hd]. set (w1 := frames_to t [FiredStart] (w <| w_timerfd := None |>)).
  assert (R1 : exec (AExpired t) w = Some w1).
  { cbn [exec]. unfold timer_expired. rewrite Hq, Tf. destruct (Z.eqb_spec (w_armed w) 0); [done|]. destruct (Z.leb_spec (w_armed w) (w_clock w)); [done|lia]. }
  assert (C1 : exists u, cov u w1) by (eapply (exec_cov t (AExpired t)); [done|done|done| |exact R1]; intros v _ x _; apply Hq). destruct C1 as [u C1].
  assert (Ct1 : cov t w1) by (eapply cov_switch; [exact C1|]; eapply alone_upd; [apply Ct|done]). clear C1 u.
  set (w2 := frames_to t [FiredLock (w_clock w) false] w1). assert (S2 : step t w1 = Some w2) by (unfold step, w1 at 1; by rewrite frames_upd, upd_eq).
  assert (Hlock : lock_data (timer_queue w) = None) by (destruct (lock_data (timer_queue w)) as [v|] eqn:El; [apply (i_queue w (cv_inv t w Ct)) in El; by rewrite Hq in El|done]).
  set (w3 := frames_to t [FiredLoop (w_clock w) false] (queue_mod (fun q => q <| lock_data := Some t |>) w2)).
  assert (S3 : step t w2 = Some w3) by (unfold step, w2 at 1; rewrite frames_upd, upd_eq; cbn [dtape_timer_fired]; unfold queue_lock; change (timer_queue w2) with (timer_queue w); by rewrite Hlock).
  assert (R3 : run (replicate 2 (AStep t)) w1 = Some w3) by (by cbn; rewrite S2; cbn; rewrite S3). destruct (steps_cov t 2 w1 w3 Ct1 Hroom R3) as [C3 Hroom3].
  destruct (expire_loop (keys w) (fun c => tc_soft_deadline (w_calls w c)) t _ w3 (w_clock w) false eq_refl C3 Hroom3) as (k & w4 & fired & next & Hk & R4 & F4 & X); [done|unfold w3; by rewrite frames_upd, upd_eq|by right|].
  destruct (steps_cov t k w3 w4 C3 Hroom3 R4) as [C4 Hroom4]. set (w5 := frames_to t [] (timer_arm next true w4)). assert (S5 : step t w4 = Some w5) by (unfold step; by rewrite F4).
  pose proof (step_cov t w4 w5 C4 Hroom4 S5) as C5. destruct X as [X1 X2 X3 X4 X5 X6]. exists (2 + (k + 1))%nat, w5, fired. split; [cbn in Hk; lia|]. split; [|split; [|split; [|split]]].
  - rewrite run_cons, R1. cbn [mbind option_bind]. eapply steps_more; [exact R3|]. eapply steps_more; [exact R4|]. cbn. by rewrite S5.
  - intros v. unfold w5. rewrite frames_upd. destruct (decide (v = t)) as [->|Hne]; [by rewrite upd_eq|]. rewrite upd_ne by done. apply (cv_alone t w4 C4 v Hne).
  - assert (Hc' : c ∈ fired ++ Timers.head (timer_queue w4)) by (by rewrite <- X1). apply elem_of_app in Hc' as [?|Hc']; [done|]. apply X4 in Hc'. unfold keys in Hc'. cbn in Hc'. lia.
  - by constructor.
  - destruct (cv_timer t w5 C5) as [[Tf5 Ts5] _]; [unfold w5; by rewrite frames_upd, upd_eq|]. intros a Hain. destruct (Ts5 a Hain) as [Ha5 Hd5]. exists (w_armed w5). split; [|done]. rewrite Tf5. by destruct (Z.eqb_spec (w_armed w5) 0).
Qed.

(** ** Lost timers *)

Section Lost.
Context `{Timebase}.
(** Actions of the server and the clock only: no thread enters or cancels a call, except to end what it has begun. *)
Definition unattended (l : list action) : Prop := Forall (fun a => match a with AEnter _ _ _ _ _ _ _ | ACancel _ _ => False | _ => True end) l.
Lemma dead_world l : forall w w', quiet w -> w_timerfd w = None -> unattended l -> run l w = Some w' -> w_log w' = w_log w.
Proof.
  induction l as [|a l IH]; intros w w' Hq Ht Hu; [by intros [= <-]|]. rewrite run_cons. apply Forall_cons in Hu as [Ha Hu]. destruct a as [| |t|t|d]; cbn [exec]; try done.
  - unfold timer_expired. by rewrite Hq, Ht.
  - unfold step. by rewrite Hq.
  - destruct (0 <=? d); [|done]. remember (w <| w_clock ::= Z.add d |>) as w1 eqn:E1. intros Hr. rewrite (IH w1 w'); by subst.
Qed.
Definition steps (t n : nat) : list action := replicate n (AStep t).
Definition enters (t c : nat) (deadline : Z) : action := AEnter t c 0 deadline 0 TIMER_CALL_SYS_CRITICAL false.
(** Thread 1 enters the call 8: it has armed the timer, and not yet taken the locks, when thread 0 cancels the only
    other call. *)
Definition race_with_cancel : list action :=
  enters 0 7 2000000 :: steps 0 6 ++ enters 1 8 3000000 :: steps 1 2 ++ ACancel 0 7 :: steps 0 6 ++ steps 1 4.
(** Thread 1 has put the call 8 on the queue, and not yet released its lock, when the deadline passes. *)
Definition race_with_expiry : list action :=
  enters 1 8 3000000 :: steps 1 5 ++ ATick 2500000 :: AExpired 2 :: steps 2 5 ++ steps 1 1.
(** Nothing overlaps; the call 7 has the deadline [UINT64_MAX]. *)
Definition race_with_eternity : list action := enters 0 8 3000000 :: steps 0 6 ++ enters 1 7 UINT64_MAX :: steps 1 6.
Definition booted : world := dtape_timer_init (fun _ => timer_call_setup) 1000000.
Lemma lost_runs l : l ∈ [race_with_cancel; race_with_expiry; race_with_eternity] ->
  (forall t, (fun w => w_frames w t) <$> run l booted = Some []) /\ w_timerfd <$> run l booted = Some None /\
  (fun w => entered (state_of (w_calls w 8%nat))) <$> run l booted = Some true /\ (fun w => forallb (fun e => match e with Fired 8%nat _ => false | _ => true end) (w_log w)) <$> run l booted = Some true.
Proof.
  rewrite !elem_of_cons. intros [->|[->|[->|[]%elem_of_nil]]]; (split; [intros t; do 3 (destruct t as [|t]; [vm_compute; reflexivity|]); vm_compute; reflexivity|split; [|split]; vm_compute; reflexivity]).
Qed.
End Lost.
(** a timer call can be entered, and then never fire unless some call is entered or cancelled
    later: if another thread cancels the only other call, or the timer expires, in the middle of
    [timer_call_enter], or if a call is entered with the deadline [UINT64_MAX]. *)
Theorem timers_can_be_lost `{Timebase} l : l ∈ [race_with_cancel; race_with_expiry; race_with_eternity] ->
  exists w, run l booted = Some w /\ quiet w /\ entered (state_of (w_calls w 8%nat)) = true /\
    forall later w' time, unattended later -> run later w = Some w' -> Fired 8 time ∉ w_log w'.
Proof.
  intros Hl. destruct (lost_runs l Hl) as (Hq & Ht & He & Hf). destruct (run l booted) as [w|]; [|done]. exists w. split; [done|]. assert (Hq' : quiet w) by (intros t; by injection (Hq t)). split; [done|]. split; [by injection He|].
  intros later w' time Hu Hw'. injection Ht as Ht. rewrite (dead_world later w w' Hq' Ht Hu Hw'). injection Hf as Hf. intros Hin%list_elem_of_In. by specialize (proj1 (forallb_forall _ _) Hf _ Hin).
Qed.

(** ** Examples *)
#[local] Instance demo_timebase : Timebase := {| sched_pri := fun _ => 31; sched_mode := fun _ => TH_MODE_TIMESHARE; timer_user_idle_level := 0; past_deadline_timer_adjustment := 10000 |}.
(** Two calls are entered, the second with an earlier deadline, and time passes. *)
Definition demo : list action := enters 0 7 2000000 :: steps 0 6 ++ enters 1 8 1500000 :: steps 1 6 ++ [ATick 600000].
Definition demo_world : world := default booted (run demo booted).
Lemma demo_runs : run demo booted = Some demo_world.
Proof. by vm_compute. Qed.
Lemma demo_quiet : quiet demo_world.
Proof. intros t. do 2 (destruct t as [|t]; [by vm_compute|]). by vm_compute. Qed.
(** Operations one after the other: each runs to its end before the next one starts. *)
Lemma exec_frames a w w' u : exec a w = Some w' -> actor a <> Some u -> w_frames w' u = w_frames w u.
Proof.
  intros He Ha. destruct a as [t c param1 deadline leeway flags limited|t c|t|t|d]; cbn [exec] in He.
  - unfold timer_call_enter_with_leeway, start in He. destruct (may_start _); [|done]. injection He as <-. rewrite frames_upd. apply upd_ne. by intros ->.
  - unfold start in He. destruct (may_start _); [|done]. injection He as <-. rewrite frames_upd. apply upd_ne. by intros ->.
  - unfold timer_expired in He. repeat case_match; try done. injection He as <-. rewrite frames_upd. apply upd_ne. by intros ->.
  - apply step_own in He as [_ [fs ->]]. apply upd_ne. by intros ->.
  - destruct (0 <=? d); [|done]. by injection He as <-.
Qed.
Lemma exec_clock a w w' t : exec a w = Some w' -> actor a = Some t -> w_clock w' = w_clock w.
Proof.
  intros He Ha. destruct a; try done; cbn [exec] in He.
  - unfold timer_call_enter_with_leeway, start in He. destruct (may_start _); [|done]. by injection He as <-.
  - unfold start in He. destruct (may_start _); [|done]. by injection He as <-.
  - unfold timer_expired in He. repeat case_match; try done. by injection He as <-.
  - by eapply step_clock.
Qed.
Lemma calm_one t n l : forall a w w', alone t w -> gentle a -> actor a = Some t -> room w -> run (a :: steps t n) w = Some w' -> calm l w' -> calm (a :: steps t n ++ l) w.
Proof.
  induction n as [|n IH]; intros a w w' Hal Hg Ha Hroom; rewrite run_cons; cbn [app calm]; (destruct (exec a w) as [w1|] eqn:E; [|done]); cbn [mbind option_bind]; intros Hr Hc; (split; [done|]); (split; [intros u; rewrite Ha; by intros [= <-]|]).
  - by injection Hr as <-.
  - split; [done|]. eapply (IH (AStep t)); [|done|done| |exact Hr|exact Hc].
    + intros u Hne. rewrite (exec_frames a w w1 u E) by congruence. by apply Hal.
    + unfold room. by rewrite (exec_clock a w w1 t E Ha).
Qed.
Definition demo_half : world := default booted (run (enters 0 7 2000000 :: steps 0 6) booted).
Lemma demo_half_runs : run (enters 0 7 2000000 :: steps 0 6) booted = Some demo_half /\ run (enters 1 8 1500000 :: steps 1 6) demo_half = Some (default booted (run (enters 1 8 1500000 :: steps 1 6) demo_half)) /\ w_clock demo_half = 1000000 /\ w_clock (default booted (run (enters 1 8 1500000 :: steps 1 6) demo_half)) = 1000000.
Proof. split; [|split; [|split]]; vm_compute; reflexivity. Qed.
Lemma demo_half_quiet : quiet demo_half.
Proof. intros t. do 2 (destruct t as [|t]; [vm_compute; reflexivity|]). vm_compute. reflexivity. Qed.
Lemma demo_gentle t c d : d < UINT64_MAX -> gentle (enters t c d).
Proof. cbn. lia. Qed.
Lemma demo_room w : w_clock w = 1000000 -> room w /\ room (w <| w_clock ::= Z.add 600000 |>).
Proof. intros Hc. unfold room. change (w_clock (w <| w_clock ::= Z.add 600000 |>)) with (600000 + w_clock w). rewrite Hc. done. Qed.
Lemma calm_tick w : w_clock w = 1000000 -> calm [ATick 600000] w.
Proof. intros [R1 R2]%demo_room. cbn [calm]. split; [exact R1|]. split; [done|]. split; [done|]. exact (conj R2 I). Qed.
Lemma demo_calm : calm demo booted.
Proof.
  destruct demo_half_runs as (R1 & R2 & K1 & K2). refine (calm_one 0 6 _ (enters 0 7 2000000) booted demo_half _ (demo_gentle 0 7 2000000 eq_refl) eq_refl (proj1 (demo_room booted eq_refl)) R1 _); [intros u _; reflexivity|].
  refine (calm_one 1 6 _ (enters 1 8 1500000) demo_half _ _ (demo_gentle 1 8 1500000 eq_refl) eq_refl (proj1 (demo_room demo_half K1)) R2 _); [intros t _; apply demo_half_quiet|]. exact (calm_tick _ K2).
Qed.

Lemma timers_refine_witness : history 8 (w_log demo_world) = Some (state_of (w_calls demo_world 8%nat)).
Proof. apply (timers_refine demo 1000000 demo_world 8). exact demo_runs. Defined.
Lemma timer_queue_kept_witness : NoDup (Timers.head (timer_queue demo_world)).
Proof. destruct (timer_queue_kept demo 1000000 demo_world demo_runs) as (_ & Hnd & _). exact Hnd. Defined.
Definition inside_world : world := default booted (run (enters 0 7 2000000 :: steps 0 3) booted).
Lemma inside_runs : run (enters 0 7 2000000 :: steps 0 3) booted = Some inside_world /\ bool_decide (length (w_frames inside_world 0%nat) = 1%nat) = true.
Proof. split; vm_compute; reflexivity. Qed.
Lemma timers_progress_witness : exists u, is_Some (step u inside_world).
Proof. destruct inside_runs as [Hr Hl]. apply (timers_progress (enters 0 7 2000000 :: steps 0 3) 1000000 inside_world 0 Hr). intros He. rewrite He in Hl. discriminate Hl. Defined.
Lemma demo_queued : bool_decide (8%nat ∈ Timers.head (timer_queue demo_world)) = true /\ tc_pqlink_deadline (w_calls demo_world 8%nat) <=? w_clock demo_world = true.
Proof. split; vm_compute; reflexivity. Qed.
Lemma calm_timers_covered_witness : exists d, w_timerfd demo_world = Some d /\ d <= tc_pqlink_deadline (w_calls demo_world 8%nat).
Proof. apply (calm_timers_covered demo 1000000 demo_world 8 demo_calm demo_runs demo_quiet). exact (bool_decide_eq_true_1 _ (proj1 demo_queued)). Defined.
Lemma due_calls_fire_witness : exists w' fired, w_log w' = reverse (map (fun c => Fired c (w_clock demo_world)) fired) ++ w_log demo_world /\ 8%nat ∈ fired.
Proof.
  destruct (due_calls_fire demo 1000000 demo_world 2 8 demo_calm demo_runs demo_quiet) as (k & w' & fired & _ & _ & _ & Hin & X & _).
  - exact (bool_decide_eq_true_1 _ (proj1 demo_queued)).
  - exact (proj1 (Z.leb_le _ _) (proj2 demo_queued)).
  - exists w', fired. exact (conj (ex_log _ _ _ _ _ _ X) Hin).
Defined.
Lemma timers_can_be_lost_witness : exists w, run race_with_expiry booted = Some w /\ quiet w.
Proof. destruct (timers_can_be_lost race_with_expiry) as (w & Hr & Hq & _); [right; left|]. exact (ex_intro _ w (conj Hr Hq)). Defined.
Lemma pqueue_refines_set_witness : let key n := Z.of_nat n in holds_set key (priority_queue_insert key (Some (Node 3 [])) 2) [2; 3]%nat.
Proof.
  intros key. destruct (pqueue_refines_set (PInsert 2) key (Some (Node 3 [])) [3%nat]) as [Hs _].
  - constructor; [done|repeat constructor; by intros ?%elem_of_nil|done].
  - cbn. rewrite list_elem_of_singleton. discriminate.
  - exact Hs.
Defined.
End TimersRuns.
