(* ===== verification/Exceptions.v ===== *)
(** * Exceptions and signals

    The exception ports of threads, tasks and the host ([xnu/osfmk/kern/ipc_tt.c],
    [ipc_host.c]), the delivery of exceptions to them ([exception.c], [ux_handler.c]), and
    the signals of client processes, which the duct tape turns into exceptions and back
    ([dtape_thread_process_signal], [handle_ux_exception] and [ux_exception] of
    [duct-tape/src/thread.c], [Thread::processSignal] of [src/thread.cpp]).  Ports are
    modelled as far as send rights go ([xnu/osfmk/ipc/ipc_port.c]).  Behaviours are unsigned
    words.  The calls run one at a time, but an exception server may change the state while
    it handles a message.  This file has the ports and the calls on them; [Signals.v] has
    the delivery. *)
From S2P Require Import Prelude.

Definition KERN_INVALID_RIGHT : Z := 17.
Definition MACH_RCV_PORT_DIED : Z := 0x10004009.

Module Exceptions.

(** ** Constants *)
Definition FIRST_EXCEPTION : nat := 1.
Definition EXC_TYPES_COUNT : nat := 14.
(** The exceptions 1 to 13. *)
Definition EXC_MASK_VALID : Z := 0x3FFE.
Definition EXCEPTION_DEFAULT : Z := 1.
Definition EXCEPTION_STATE : Z := 2.
Definition EXCEPTION_STATE_IDENTITY : Z := 3.
Definition MACH_EXCEPTION_CODES : Z := 0x80000000.
Definition MACH_EXCEPTION_MASK : Z := 0xC0000000.
Definition VALID_THREAD_STATE_FLAVOR (x : Z) : bool := bool_decide (x ∈ [1; 2; 3; 10; 4; 23; 5; 6; 11; 7; 8; 9; 12; 16; 17; 18; 19; 20; 21; 22; 24; 25; 13]).

(** ** Data *)

(** [ipc_port_t]; [IP_VALID] says that it is a port. *)
Inductive ipc_port_t := IP_NULL | IP_DEAD | IP (p : nat).
#[export] Instance ipc_port_eq : EqDecision ipc_port_t.
Proof. solve_decision. Defined.
Definition IP_VALID (p : ipc_port_t) : bool := match p with IP _ => true | _ => false end.
(** What a kernel object port stands for. *)
Inductive kobject := IKOT_NONE | IKOT_THREAD_CONTROL (t : nat) | IKOT_TASK_CONTROL (k : nat).
(** A port.  Its counters, of 32 bits in the source, are taken not to overflow. *)
Record ipc_port := mk_port {
  ip_active : bool;
  ip_references : Z;
  ip_srights : Z;
  ip_mscount : Z;
  ip_nsrequest : bool;
  ip_immovable : bool;            (* [ip_immovable_receive] or [ip_immovable_send] *)
  ip_receiver : option nat;       (* the task whose space has the receive right *)
  ip_kobject : kobject;
}.
#[export] Instance ipc_port_rebuild : Rebuild ipc_port := fun r =>
  mk_port (ip_active r) (ip_references r) (ip_srights r) (ip_mscount r) (ip_nsrequest r) (ip_immovable r) (ip_receiver r) (ip_kobject r).
Record exception_action := mk_action { port : ipc_port_t; flavor : Z; behavior : Z; privileged : bool }.
Definition no_action : exception_action := mk_action IP_NULL 0 0 false.
Definition no_actions : list exception_action := replicate EXC_TYPES_COUNT no_action.
(** Who has exception actions. *)
Inductive holder := HThread (t : nat) | HTask (k : nat) | HHost.
#[export] Instance holder_eq : EqDecision holder.
Proof. solve_decision. Defined.
#[export] Instance holder_countable : Countable holder.
Proof.
  refine (inj_countable' (fun h => match h with HThread t => inl (inl t) | HTask k => inl (inr k) | HHost => inr tt end)
    (fun x => match x with inl (inl t) => HThread t | inl (inr k) => HTask k | inr tt => HHost end) _). by intros [].
Defined.
(** [x_interrupts] has the pending signals of the server's stack of interrupts, the top first. *)
Record xthread := mk_xthread {
  x_active : bool; x_ipc_active : bool; x_inspection : bool; x_task : nat;
  x_kport : ipc_port_t;           (* [ith_thread_ports[THREAD_FLAVOR_CONTROL]] *)
  x_processing_signal : bool; x_interrupts : list Z;
  x_suspend_count : Z; x_waiting_suspended : bool; x_wait_result : Z }.
#[export] Instance xthread_rebuild : Rebuild xthread := fun r =>
  mk_xthread (x_active r) (x_ipc_active r) (x_inspection r) (x_task r) (x_kport r) (x_processing_signal r) (x_interrupts r)
    (x_suspend_count r) (x_waiting_suspended r) (x_wait_result r).
Record xtask := mk_xtask {
  k_ipc_active : bool; k_has_sigexc : bool;
  k_kport : ipc_port_t;           (* [itk_task_ports[TASK_FLAVOR_CONTROL]] *)
  k_root : bool }.                (* [sec_token.val[0] == 0] *)
(** A holder that is not in [actions] is a thread whose [exc_actions] is [NULL], or a task
    or the host with no action.  [clients] and [pins] count the send rights and the other
    references that are outside this code: in the spaces of tasks, in messages, in the
    objects that own the ports. *)
Record xst := mk_xst {
  ports : nat -> ipc_port;
  actions : gmap holder (list exception_action);
  xthreads : nat -> xthread;
  xtasks : nat -> xtask;
  ux_handler_port : ipc_port_t;
  clients : nat -> Z;
  pins : nat -> Z;
  no_senders : list (nat * Z);    (* the notifications sent *)
}.
#[export] Instance xst_rebuild : Rebuild xst := fun r =>
  mk_xst (ports r) (actions r) (xthreads r) (xtasks r) (ux_handler_port r) (clients r) (pins r) (no_senders r).
Abbreviation MX := (M xst).

Definition port_mod (p : nat) (f : ipc_port -> ipc_port) : MX unit := modify (fun s => s <| ports ::= fun l => upd l p (f (l p)) |>).
Definition xthread_mod (t : nat) (f : xthread -> xthread) : MX unit := modify (fun s => s <| xthreads ::= fun l => upd l t (f (l t)) |>).
Definition the_port (p : nat) : MX ipc_port := gets (fun s => ports s p).
Definition the_thread (t : nat) : MX xthread := gets (fun s => xthreads s t).
Definition the_task (k : nat) : MX xtask := gets (fun s => xtasks s k).

(** ** Send rights *)

(** One more right, or one less, with its reference. *)
Definition right_add (x : ipc_port) : ipc_port := x <| ip_srights ::= Z.add 1 |> <| ip_references ::= Z.add 1 |>.
Definition ipc_port_make_send (p : ipc_port_t) : MX ipc_port_t :=
  match p with
  | IP n =>
      x <- the_port n ;;
      if ip_active x then port_mod n (fun x => (right_add x) <| ip_mscount ::= Z.add 1 |>) ;;; ret (IP n)
      else ret IP_DEAD
  | _ => ret p
  end.
Definition ipc_port_copy_send (p : ipc_port_t) : MX ipc_port_t :=
  match p with
  | IP n => x <- the_port n ;; if ip_active x then port_mod n right_add ;;; ret (IP n) else ret IP_DEAD
  | _ => ret p
  end.
Definition ipc_port_release_send (p : ipc_port_t) : MX unit :=
  match p with
  | IP n =>
      x <- the_port n ;;
      if ip_srights x =? 0 then panic "over-release of a send right"
      else
        port_mod n (fun x => x <| ip_srights ::= fun r => r - 1 |>) ;;;
        x <- the_port n ;;
        if negb (ip_active x) then port_mod n (fun x => x <| ip_references ::= fun r => r - 1 |>)
        else if (ip_srights x =? 0) && ip_nsrequest x then
          port_mod n (fun x => x <| ip_nsrequest := false |>) ;;;
          port_mod n (fun x => x <| ip_references ::= fun r => r - 1 |>) ;;;
          modify (fun s => s <| no_senders ::= cons (n, ip_mscount x) |>)
        else port_mod n (fun x => x <| ip_references ::= fun r => r - 1 |>)
  | _ => ret tt
  end.
Fixpoint release_all (l : list ipc_port_t) : MX unit :=
  match l with [] => ret tt | p :: l => ipc_port_release_send p ;;; release_all l end.
(** A port that the kernel puts in a message with [MACH_MSG_TYPE_COPY_SEND]. *)
Definition ipc_object_copyin_from_kernel (p : ipc_port_t) : MX unit := match p with IP n => port_mod n right_add | _ => ret tt end.

(** ** Kernel objects *)

Definition kernel_task : nat := 0.
Definition task_conversion_eval (caller victim : nat) : bool := (caller =? kernel_task)%nat || (caller =? victim)%nat || negb (victim =? kernel_task)%nat.
(** [cur] is the current task; without [eval] no right of it is looked at. *)
Definition thread_of_port (eval : bool) (cur : nat) (p : ipc_port_t) (s : xst) : option nat :=
  match p with
  | IP n =>
      match ip_active (ports s n), ip_kobject (ports s n) with
      | true, IKOT_THREAD_CONTROL t => if negb eval || task_conversion_eval cur (x_task (xthreads s t)) then Some t else None
      | _, _ => None
      end
  | _ => None
  end.
Definition task_of_port (eval : bool) (cur : nat) (p : ipc_port_t) (s : xst) : option nat :=
  match p with
  | IP n =>
      match ip_active (ports s n), ip_kobject (ports s n) with
      | true, IKOT_TASK_CONTROL k => if negb eval || task_conversion_eval cur k then Some k else None
      | _, _ => None
      end
  | _ => None
  end.
Definition convert_port_to_thread (eval : bool) (cur : nat) (p : ipc_port_t) : MX (option nat) := gets (thread_of_port eval cur p).
Definition convert_port_to_task (eval : bool) (cur : nat) (p : ipc_port_t) : MX (option nat) := gets (task_of_port eval cur p).
Definition convert_thread_to_port (t : nat) : MX ipc_port_t :=
  x <- the_thread t ;; if negb (x_ipc_active x) then ret IP_NULL else ipc_port_make_send (x_kport x).
Definition convert_task_to_port (k : nat) : MX ipc_port_t :=
  x <- the_task k ;; if negb (k_ipc_active x) then ret IP_NULL else ipc_port_make_send (k_kport x).

(** ** Exception ports *)

Definition actions_at (s : xst) (h : holder) : list exception_action := default no_actions (actions s !! h).
(** [exc_actions]; [None] is [NULL]. *)
Definition the_actions (h : holder) : MX (option (list exception_action)) :=
  gets (fun s => match h with HThread _ => actions s !! h | _ => Some (actions_at s h) end).
Definition action_of (l : list exception_action) (i : nat) : exception_action := default no_action (l !! i).
Definition the_action (h : holder) (i : nat) : MX exception_action := gets (fun s => action_of (actions_at s h) i).
Definition action_set (h : holder) (i : nat) (a : exception_action) : MX unit :=
  modify (fun s => s <| actions ::= <[h := <[i := a]> (actions_at s h)]> |>).
Definition ipc_thread_init_exc_actions (t : nat) : MX unit := modify (fun s => s <| actions ::= <[HThread t := no_actions]> |>).
Definition in_mask (mask : Z) (i : nat) : bool := Z.testbit mask (Z.of_nat i).
Definition exceptions : list nat := seq FIRST_EXCEPTION (EXC_TYPES_COUNT - FIRST_EXCEPTION).
Definition bit (i : nat) : Z := Z.shiftl 1 (Z.of_nat i).

(** The checks of the arguments; [Some kr] if they fail.  [movable] is false in the host's
    calls, which do not look at immovable ports. *)
Definition behavior_ok (b : Z) : bool := bool_decide (b ∈ [EXCEPTION_DEFAULT; EXCEPTION_STATE; EXCEPTION_STATE_IDENTITY]).
Definition check_arguments (mask : Z) (new_port : ipc_port_t) (switched new_flavor : Z) (movable : bool) : MX (option Z) :=
  if negb (clr mask EXC_MASK_VALID =? 0) then ret (Some KERN_INVALID_ARGUMENT)
  else if IP_VALID new_port && negb (behavior_ok switched) then ret (Some KERN_INVALID_ARGUMENT)
  else
    immovable <- match new_port with IP n => x <- the_port n ;; ret (movable && ip_immovable x) | _ => ret false end ;;
    if (immovable : bool) then ret (Some KERN_INVALID_RIGHT)
    else if negb (new_flavor =? 0) && negb (VALID_THREAD_STATE_FLAVOR new_flavor) then ret (Some KERN_INVALID_ARGUMENT)
    else ret None.

(** What the calls put in an action.  The host's calls leave [privileged] alone. *)
Record new_action := mk_new { n_port : ipc_port_t; n_behavior : Z; n_flavor : Z; n_priv : option bool }.
(** One new action; the old port is returned. *)
Definition replace_action (h : holder) (i : nat) (new : new_action) : MX ipc_port_t :=
  old <- the_action h i ;;
  copy <- ipc_port_copy_send (n_port new) ;;
  action_set h i (mk_action copy (n_flavor new) (n_behavior new) (default (privileged old) (n_priv new))) ;;;
  ret (port old).
(** The loop of the [set] calls over the exceptions [todo]; the old ports are returned. *)
Fixpoint set_actions (h : holder) (mask : Z) (new : new_action) (todo : list nat) : MX (list ipc_port_t) :=
  match todo with
  | [] => ret []
  | i :: todo =>
      if in_mask mask i then old <- replace_action h i new ;; rest <- set_actions h mask new todo ;; ret (old :: rest)
      else set_actions h mask new todo
  end.
(** ... with the release of the rights that were replaced, and of the caller's. *)
Definition set_and_release (h : holder) (mask : Z) (new : new_action) : MX Z :=
  old_port <- set_actions h mask new exceptions ;;
  release_all old_port ;;;
  ipc_port_release_send (n_port new) ;;;
  ret KERN_SUCCESS.

(** The actions of a thread are made when they are first set. *)
Definition thread_actions (t : nat) : MX unit :=
  l <- the_actions (HThread t) ;; match l with None => ipc_thread_init_exc_actions t | Some _ => ret tt end.
(** The checks that the thread and the task calls share with the host's: the arguments,
    then that the object is alive ([None] is a null object). *)
Definition checked {A} (fail : Z -> MX A) (mask : Z) (new : new_action) (movable : bool) (alive : MX bool) (go : MX A) : MX A :=
  bad <- check_arguments mask (n_port new) (clr (n_behavior new) MACH_EXCEPTION_MASK) (n_flavor new) movable ;;
  match bad with
  | Some kr => fail kr
  | None => ok <- alive ;; if (ok : bool) then go else fail KERN_FAILURE
  end.
(** [cur] is the current task, whose token makes an action privileged. *)
Definition thread_set_exception_ports (cur : nat) (thread : option nat) (mask : Z) (new_port : ipc_port_t) (new_behavior new_flavor : Z) : MX Z :=
  match thread with
  | None => ret KERN_INVALID_ARGUMENT
  | Some t =>
      k <- the_task cur ;;
      let new := mk_new new_port new_behavior new_flavor (Some (k_root k)) in
      checked ret mask new true (gets (fun s => x_active (xthreads s t)))
        (thread_actions t ;;; set_and_release (HThread t) mask new)
  end.
Definition task_set_exception_ports (cur : nat) (task : option nat) (mask : Z) (new_port : ipc_port_t) (new_behavior new_flavor : Z) : MX Z :=
  match task with
  | None => ret KERN_INVALID_ARGUMENT
  | Some k =>
      c <- the_task cur ;;
      let new := mk_new new_port new_behavior new_flavor (Some (k_root c)) in
      checked ret mask new true (gets (fun s => k_ipc_active (xtasks s k))) (set_and_release (HTask k) mask new)
  end.
Definition host_set_exception_ports (host_priv : bool) (mask : Z) (new_port : ipc_port_t) (new_behavior new_flavor : Z) : MX Z :=
  if negb host_priv then ret KERN_INVALID_ARGUMENT
  else
    let new := mk_new new_port new_behavior new_flavor None in
    checked ret mask new false (ret true) (set_and_release HHost mask new).

(** An element of the arrays [masks], [ports], [behaviors] and [flavors]; [e_ptr] is the
    port that was copied ([port_ptrs]). *)
Record entry := mk_entry { e_mask : Z; e_ptr : ipc_port_t; e_port : ipc_port_t; e_behavior : Z; e_flavor : Z }.
(** The entry that is identical to an action.  The thread's and the task's [get] compare
    the ports that were copied, the others the copies. *)
Definition same_entry (by_ptr : bool) (a : exception_action) (e : entry) : bool :=
  bool_decide (port a = (if by_ptr then e_ptr e else e_port e)) && (behavior a =? e_behavior e) && (flavor a =? e_flavor e).
Fixpoint add_to_entry (by_ptr : bool) (a : exception_action) (i : nat) (l : list entry) : option (list entry) :=
  match l with
  | [] => None
  | e :: l =>
      if same_entry by_ptr a e then Some (mk_entry (Z.lor (e_mask e) (bit i)) (e_ptr e) (e_port e) (e_behavior e) (e_flavor e) :: l)
      else option_map (cons e) (add_to_entry by_ptr a i l)
  end.
Definition record_action (by_ptr : bool) (CountCnt : nat) (a : exception_action) (i : nat) (l : list entry) : MX (list entry) :=
  match add_to_entry by_ptr a i l with
  | Some l => ret l
  | None =>
      if (length l <? CountCnt)%nat then
        copy <- ipc_port_copy_send (port a) ;; ret (l ++ [mk_entry (bit i) (port a) copy (behavior a) (flavor a)])
      else ret l
  end.

(** The loop of the [swap] calls: it ends when the arrays are full. *)
Fixpoint swap_actions (h : holder) (mask : Z) (new : new_action) (CountCnt : nat) (todo : list nat) (l : list entry) : MX (list entry * list ipc_port_t) :=
  match todo with
  | [] => ret (l, [])
  | i :: todo =>
      if negb (length l <? CountCnt)%nat then ret (l, [])
      else if in_mask mask i then
        a <- the_action h i ;;
        l <- record_action false CountCnt a i l ;;
        old <- replace_action h i new ;;
        r <- swap_actions h mask new CountCnt todo l ;;
        ret (fst r, old :: snd r)
      else swap_actions h mask new CountCnt todo l
  end.
Definition swap_and_release (h : holder) (mask : Z) (new : new_action) (CountCnt : nat) : MX (Z * list entry) :=
  r <- swap_actions h mask new CountCnt exceptions [] ;;
  release_all (rev (snd r)) ;;;
  ipc_port_release_send (n_port new) ;;;
  ret (KERN_SUCCESS, fst r).
Definition no_entries (kr : Z) : MX (Z * list entry) := ret (kr, []).
Definition thread_swap_exception_ports (cur : nat) (thread : option nat) (mask : Z) (new_port : ipc_port_t) (new_behavior new_flavor : Z) (CountCnt : nat) : MX (Z * list entry) :=
  match thread with
  | None => no_entries KERN_INVALID_ARGUMENT
  | Some t =>
      k <- the_task cur ;;
      let new := mk_new new_port new_behavior new_flavor (Some (k_root k)) in
      checked no_entries mask new true (gets (fun s => x_active (xthreads s t)))
        (thread_actions t ;;; swap_and_release (HThread t) mask new CountCnt)
  end.
Definition task_swap_exception_ports (cur : nat) (task : option nat) (mask : Z) (new_port : ipc_port_t) (new_behavior new_flavor : Z) (CountCnt : nat) : MX (Z * list entry) :=
  match task with
  | None => no_entries KERN_INVALID_ARGUMENT
  | Some k =>
      c <- the_task cur ;;
      let new := mk_new new_port new_behavior new_flavor (Some (k_root c)) in
      checked no_entries mask new true (gets (fun s => k_ipc_active (xtasks s k))) (swap_and_release (HTask k) mask new CountCnt)
  end.
(** The behaviour is switched on with its flags. *)
Definition host_swap_exception_ports (host_priv : bool) (mask : Z) (new_port : ipc_port_t) (new_behavior new_flavor : Z) (CountCnt : nat) : MX (Z * list entry) :=
  if negb host_priv then no_entries KERN_INVALID_ARGUMENT
  else
    bad <- check_arguments mask new_port new_behavior new_flavor false ;;
    match bad with
    | Some kr => no_entries kr
    | None => swap_and_release HHost mask (mk_new new_port new_behavior new_flavor None) CountCnt
    end.

(** The loop of the [get] calls. *)
Fixpoint get_actions (by_ptr : bool) (h : holder) (mask : Z) (CountCnt : nat) (todo : list nat) (l : list entry) : MX (list entry) :=
  match todo with
  | [] => ret l
  | i :: todo =>
      if in_mask mask i then a <- the_action h i ;; l <- record_action by_ptr CountCnt a i l ;; get_actions by_ptr h mask CountCnt todo l
      else get_actions by_ptr h mask CountCnt todo l
  end.
Definition get_all (by_ptr : bool) (h : holder) (mask : Z) (CountCnt : nat) : MX (Z * list entry) :=
  l <- get_actions by_ptr h mask CountCnt exceptions [] ;; ret (KERN_SUCCESS, l).
Definition thread_get_exception_ports (thread : option nat) (mask : Z) (CountCnt : nat) : MX (Z * list entry) :=
  match thread with
  | None => no_entries KERN_INVALID_ARGUMENT
  | Some t =>
      if negb (clr mask EXC_MASK_VALID =? 0) then no_entries KERN_INVALID_ARGUMENT
      else
        x <- the_thread t ;;
        if negb (x_active x) then no_entries KERN_FAILURE
        else
          l <- the_actions (HThread t) ;;
          match l with None => no_entries KERN_SUCCESS | Some _ => get_all true (HThread t) mask CountCnt end
  end.
Definition task_get_exception_ports (task : option nat) (mask : Z) (CountCnt : nat) : MX (Z * list entry) :=
  match task with
  | None => no_entries KERN_INVALID_ARGUMENT
  | Some k =>
      if negb (clr mask EXC_MASK_VALID =? 0) then no_entries KERN_INVALID_ARGUMENT
      else x <- the_task k ;; if negb (k_ipc_active x) then no_entries KERN_FAILURE else get_all true (HTask k) mask CountCnt
  end.
Definition host_get_exception_ports (host_priv : bool) (mask : Z) (CountCnt : nat) : MX (Z * list entry) :=
  if negb host_priv then no_entries KERN_INVALID_ARGUMENT
  else if negb (clr mask EXC_MASK_VALID =? 0) then no_entries KERN_INVALID_ARGUMENT
  else get_all false HHost mask CountCnt.
Definition thread_get_exception_ports_from_user (cur : nat) (p : ipc_port_t) (mask : Z) (CountCnt : nat) : MX (Z * list entry) :=
  thread <- convert_port_to_thread false cur p ;;
  match thread with None => no_entries KERN_INVALID_ARGUMENT | Some t => thread_get_exception_ports (Some t) mask CountCnt end.
Definition task_get_exception_ports_from_user (cur : nat) (p : ipc_port_t) (mask : Z) (CountCnt : nat) : MX (Z * list entry) :=
  task <- convert_port_to_task false cur p ;;
  match task with None => no_entries KERN_INVALID_ARGUMENT | Some k => task_get_exception_ports (Some k) mask CountCnt end.
(** [EXC_MASK_ALL & ~EXC_MASK_RPC_ALERT], sent to the port that turns exceptions into signals. *)
Definition EXC_MASK_ALL : Z := 0x1BFE.
Definition EXC_MASK_RPC_ALERT : Z := 0x200.
Definition ux_handler_setup : MX unit :=
  ux <- gets ux_handler_port ;;
  right <- ipc_port_make_send ux ;;
  if negb (IP_VALID right) then panic "Couldn't allocate send right for ux_handler_port!"
  else
    kr <- host_set_exception_ports true (clr EXC_MASK_ALL EXC_MASK_RPC_ALERT) right (Z.lor EXCEPTION_DEFAULT MACH_EXCEPTION_CODES) 0 ;;
    if kr =? KERN_SUCCESS then ret tt else panic "host_set_exception_ports failed to set ux_handler!".
End Exceptions.
