(* ===== verification/ExceptionsProps.v ===== *)
(** * Exception ports: the account of send rights

    Every send right to a port is held by an exception action, by the code that is
    running, or outside; the calls on exception ports keep that account, and give back
    what they took. *)
From S2P Require Import Prelude Exceptions.
Export Exceptions.

Module ExceptionsProps.

(** ** Rights *)

Definition right (n : nat) (p : ipc_port_t) : Z := if decide (p = IP n) then 1 else 0.
Fixpoint rights (n : nat) (l : list ipc_port_t) : Z := match l with [] => 0 | p :: l => right n p + rights n l end.
Definition held_in (m : gmap holder (list exception_action)) : list ipc_port_t := map_to_list m ≫= fun hl => port <$> snd hl.
Definition held (s : xst) : list ipc_port_t := held_in (actions s).

Lemma rights_app n l l' : rights n (l ++ l') = rights n l + rights n l'.
Proof. induction l as [|p l IH]; cbn; [done|]. rewrite IH. lia. Qed.
Lemma rights_perm n l l' : l ≡ₚ l' -> rights n l = rights n l'.
Proof. induction 1; cbn; lia. Qed.
Lemma right_nonneg n p : 0 <= right n p.
Proof. unfold right. case_decide; lia. Qed.
Lemma rights_nonneg n l : 0 <= rights n l.
Proof. induction l as [|p l IH]; cbn; [done|]. pose proof (right_nonneg n p). lia. Qed.
Lemma rights_invalid n p : IP_VALID p = false -> right n p = 0.
Proof. unfold right. case_decide; [|done]. by subst. Qed.
Lemma rights_replicate n k a : IP_VALID (port a) = false -> rights n (port <$> replicate k a) = 0.
Proof. intros Hp. induction k as [|k IH]; cbn; [done|]. rewrite (rights_invalid _ _ Hp). done. Qed.
Lemma rights_bind n (L L' : list (holder * list exception_action)) :
  L ≡ₚ L' -> rights n (L ≫= fun hl => port <$> snd hl) = rights n (L' ≫= fun hl => port <$> snd hl).
Proof. intros HL. apply rights_perm. by rewrite HL. Qed.

(** The rights of a holder, and those of the others. *)
Lemma held_split n m h :
  rights n (held_in m) = rights n (port <$> default no_actions (m !! h)) + rights n (held_in (delete h m)).
Proof.
  unfold held_in. destruct (m !! h) as [l|] eqn:E; cbn [default].
  - rewrite <- (insert_delete_id m h l E) at 1.
    rewrite (rights_bind n _ _ (map_to_list_insert _ _ _ (lookup_delete_eq m h))). cbn. by rewrite rights_app.
  - rewrite delete_id by done. unfold no_actions. by rewrite rights_replicate.
Qed.
Lemma rights_insert n (l : list exception_action) i a :
  (i < length l)%nat -> rights n (port <$> <[i := a]> l) + right n (port (action_of l i)) = rights n (port <$> l) + right n (port a).
Proof.
  unfold action_of. revert i. induction l as [|b l IH]; intros [|i] Hi; cbn in Hi; [lia | lia | |].
  - cbn. lia.
  - specialize (IH i ltac:(lia)). cbn. rewrite <- !Z.add_assoc. f_equal. exact IH.
Qed.

(** ** The invariant

    The account, with [own] the rights in the hands of the running code, and the shape of
    the actions; [B] says which behaviours they may have. *)
Record Inv (B : Z -> Prop) (own : list ipc_port_t) (s : xst) : Prop := mk_Inv {
  inv_rights : forall n, ip_srights (ports s n) = rights n (held s) + rights n own + clients s n;
  inv_refs : forall n, ip_references (ports s n) = ip_srights (ports s n) + pins s n;
  inv_outside : forall n, 0 <= clients s n /\ 0 <= pins s n;
  inv_shape : forall h l, actions s !! h = Some l -> length l = EXC_TYPES_COUNT;
  inv_behavior : forall h i, let a := action_of (actions_at s h) i in
    (IP_VALID (port a) = true -> B (clr (behavior a) MACH_EXCEPTION_MASK)) /\ (flavor a = 0 \/ VALID_THREAD_STATE_FLAVOR (flavor a) = true);
  inv_kobject : forall t n t', x_kport (xthreads s t) = IP n -> ip_kobject (ports s n) = IKOT_THREAD_CONTROL t' -> t' = t;
  inv_signal : forall t, x_processing_signal (xthreads s t) = true -> x_interrupts (xthreads s t) <> [];
}.
(** What the calls on ports leave alone. *)
Definition same_port (x y : ipc_port) : Prop :=
  ip_active x = ip_active y /\ ip_immovable x = ip_immovable y /\ ip_receiver x = ip_receiver y /\ ip_kobject x = ip_kobject y.
Definition same_ports (s s' : xst) : Prop :=
  (forall n, same_port (ports s' n) (ports s n)) /\ xthreads s' = xthreads s /\ xtasks s' = xtasks s /\ ux_handler_port s' = ux_handler_port s /\
  clients s' = clients s /\ pins s' = pins s.
(** ... and those that do not touch actions. *)
Definition rights_only (s s' : xst) : Prop := same_ports s s' /\ actions s' = actions s.

Lemma same_ports_refl s : same_ports s s.
Proof. repeat split. Qed.
Lemma same_ports_trans s1 s2 s3 : same_ports s1 s2 -> same_ports s2 s3 -> same_ports s1 s3.
Proof.
  intros (H1 & H2) (H3 & H4). split; [|naive_solver congruence].
  intros n. destruct (H1 n) as (?&?&?&?), (H3 n) as (?&?&?&?). repeat split; congruence.
Qed.
Lemma same_ports_sym s s' : same_ports s s' -> same_ports s' s.
Proof. intros (Hp & ? & ? & ? & ? & ?). split; [|done]. intros n. by destruct (Hp n) as (? & ? & ? & ?). Qed.
Lemma rights_only_refl s : rights_only s s.
Proof. split; [apply same_ports_refl|done]. Qed.
Lemma rights_only_trans s1 s2 s3 : rights_only s1 s2 -> rights_only s2 s3 -> rights_only s1 s3.
Proof. intros [? ?] [? ?]. split; [eapply same_ports_trans; eauto|congruence]. Qed.
Hint Resolve same_ports_refl rights_only_refl : dt.

(** The fields of a port that change are its counters. *)
Ltac rights_only_tac := split; [split; [intros m; cbn; unfold upd; repeat case_decide; subst; repeat split | done] | done].

Section Inv.
Context (B : Z -> Prop).

Lemma Inv_perm own own' s : Inv B own s -> (forall n, rights n own = rights n own') -> Inv B own' s.
Proof. intros [] Ho. split; try done. intros n. rewrite <- Ho. done. Qed.

(** A change of the ports' counters. *)
Lemma Inv_ports own own' s s' :
  Inv B own s -> rights_only s s' ->
  (forall m, ip_references (ports s' m) - ip_srights (ports s' m) = ip_references (ports s m) - ip_srights (ports s m)) ->
  (forall m, ip_srights (ports s' m) - ip_srights (ports s m) = rights m own' - rights m own) ->
  Inv B own' s' /\ rights_only s s'.
Proof.
  intros [] Hs Hr Ho. split; [|done]. destruct Hs as [(Hp & Ht & Hk & Hu & Hc & Hi) Ha]. split; unfold held, actions_at; rewrite ?Ht, ?Hc, ?Hi, ?Ha; try done.
  - intros n. specialize (inv_rights0 n). unfold held in inv_rights0. specialize (Ho n). lia.
  - intros n. specialize (inv_refs0 n). specialize (Hr n). lia.
  - intros t n t' Hx. destruct (Hp n) as (_ & _ & _ & ->). by apply inv_kobject0.
Qed.
(** ** Send rights *)

Definition copy_of (s : xst) (p : ipc_port_t) : ipc_port_t := match p with IP n => if ip_active (ports s n) then IP n else IP_DEAD | _ => p end.
Lemma rights_cons_add n p own m : p = IP n -> rights m (p :: own) = rights m own + (if decide (m = n) then 1 else 0).
Proof. intros ->. cbn. unfold right. repeat case_decide; try congruence; lia. Qed.

Lemma wp_right_add own s n : Inv B own s -> wp (port_mod n right_add) (fun _ s' => Inv B (IP n :: own) s' /\ rights_only s s') s.
Proof.
  intros Hs. apply wp_modify. apply (Inv_ports own); [done | rights_only_tac | |]; intros m; rewrite ?(rights_cons_add n) by done.
  all: cbn; unfold upd; case_decide; subst; cbn; lia.
Qed.
Lemma wp_ipc_port_copy_send own s p :
  Inv B own s -> wp (ipc_port_copy_send p) (fun q s' => Inv B (q :: own) s' /\ rights_only s s' /\ q = copy_of s p) s.
Proof.
  intros Hs. destruct p as [| |n]; cbn [ipc_port_copy_send].
  1,2: apply wp_ret; split_and!; [by eapply Inv_perm | auto with dt | done].
  unfold the_port. wp_go. unfold copy_of. destruct (ip_active (ports s n)) eqn:Ha.
  - wp_go. eapply wp_mono; [exact (wp_right_add own s n Hs)|]. intros [] s' [? ?]. by apply wp_ret.
  - apply wp_ret. split_and!; [by eapply Inv_perm | auto with dt | done].
Qed.
Lemma wp_ipc_port_make_send own s p :
  Inv B own s -> wp (ipc_port_make_send p) (fun q s' => Inv B (q :: own) s' /\ rights_only s s' /\ q = copy_of s p) s.
Proof.
  intros Hs. destruct p as [| |n]; cbn [ipc_port_make_send].
  1,2: apply wp_ret; split_and!; [by eapply Inv_perm | auto with dt | done].
  unfold the_port. wp_go. unfold copy_of. destruct (ip_active (ports s n)) eqn:Ha.
  - unfold port_mod. wp_go. apply and_assoc. split; [|done].
    apply (Inv_ports own); [done | rights_only_tac | |]; intros m; rewrite ?(rights_cons_add n) by done.
    all: cbn; unfold upd; case_decide; subst; cbn; lia.
  - apply wp_ret. split_and!; [by eapply Inv_perm | auto with dt | done].
Qed.
Lemma wp_ipc_object_copyin own s p :
  Inv B own s -> wp (ipc_object_copyin_from_kernel p) (fun _ s' => Inv B (p :: own) s' /\ rights_only s s') s.
Proof.
  intros Hs. destruct p as [| |n]; cbn [ipc_object_copyin_from_kernel]; [| |by apply wp_right_add].
  all: apply wp_ret; split; [by eapply Inv_perm | auto with dt].
Qed.
(** Who owns a right finds one to release. *)
Lemma owned_right own s n : Inv B (IP n :: own) s -> 0 < ip_srights (ports s n).
Proof.
  intros Hs. rewrite (inv_rights B _ s Hs n). cbn. pose proof (rights_nonneg n (held s)). pose proof (rights_nonneg n own).
  pose proof (inv_outside B _ s Hs n). unfold right. case_decide; [lia|done].
Qed.
Lemma wp_ipc_port_release_send own s p :
  Inv B (p :: own) s -> wp (ipc_port_release_send p) (fun _ s' => Inv B own s' /\ rights_only s s') s.
Proof.
  intros Hs. destruct p as [| |n]; cbn [ipc_port_release_send].
  1,2: apply wp_ret; split; [by eapply Inv_perm | auto with dt].
  pose proof (owned_right own s n Hs). unfold the_port, port_mod. wp_go. destruct (Z.eqb_spec (ip_srights (ports s n)) 0); [lia|]. wp_go.
  assert (Hf : forall s', rights_only s s' -> ip_srights (ports s' n) = ip_srights (ports s n) - 1 ->
    ip_references (ports s' n) = ip_references (ports s n) - 1 -> (forall m, m <> n -> ports s' m = ports s m) -> Inv B own s' /\ rights_only s s').
  { intros s' ? Hr Hr' Hm. apply (Inv_ports (IP n :: own)); try done; intros m; rewrite ?(rights_cons_add n) by done.
    all: destruct (decide (m = n)) as [->|]; [lia|]. all: rewrite Hm by done; lia. }
  repeat case_bool; wp_go; (apply Hf; [rights_only_tac | ..]).
  all: try (cbn; by rewrite !upd_eq); intros m Hne; cbn; by rewrite !upd_ne.
Qed.
Lemma wp_release_all own s l : Inv B (l ++ own) s -> wp (release_all l) (fun _ s' => Inv B own s' /\ rights_only s s') s.
Proof.
  revert s. induction l as [|p l IH]; intros s Hs; cbn [release_all].
  - apply wp_ret. auto with dt.
  - apply wp_bind. eapply wp_mono; [exact (wp_ipc_port_release_send _ s p Hs)|]. intros [] s1 [H1 ?].
    eapply wp_mono; [exact (IH s1 H1)|]. intros [] s2 [? ?]. split; [done|]. by eapply rights_only_trans.
Qed.

(** ** Actions *)

Lemma actions_length own s h : Inv B own s -> length (actions_at s h) = EXC_TYPES_COUNT.
Proof. intros Hs. unfold actions_at. destruct (actions s !! h) eqn:E; [by eapply inv_shape | done]. Qed.
Definition with_action (s : xst) (h : holder) (i : nat) (a : exception_action) : xst :=
  s <| actions ::= <[h := <[i := a]> (actions_at s h)]> |>.
Lemma actions_at_with s h i a h' :
  actions_at (with_action s h i a) h' = if decide (h' = h) then <[i := a]> (actions_at s h) else actions_at s h'.
Proof.
  unfold actions_at, with_action. cbn. case_decide; [subst; by rewrite lookup_insert_eq | by rewrite lookup_insert_ne].
Qed.
Lemma action_of_with own s h i a h' j :
  Inv B own s -> (i < EXC_TYPES_COUNT)%nat ->
  action_of (actions_at (with_action s h i a) h') j = if decide (h' = h /\ j = i) then a else action_of (actions_at s h') j.
Proof.
  intros Hs Hi. rewrite actions_at_with. unfold action_of. destruct (decide (h' = h)) as [->|]; [|case_decide; naive_solver].
  destruct (decide (j = i)) as [->|]; case_decide; try naive_solver.
  - rewrite list_lookup_insert_eq; [done|]. by rewrite (actions_length own s h Hs).
  - by rewrite list_lookup_insert_ne.
Qed.
(** An action that the calls may set. *)
Definition good_action (a : exception_action) : Prop :=
  (IP_VALID (port a) = true -> B (clr (behavior a) MACH_EXCEPTION_MASK)) /\ (flavor a = 0 \/ VALID_THREAD_STATE_FLAVOR (flavor a) = true).
(** The right of the action that goes is handed over for that of the one that comes. *)
Lemma Inv_action own s h i a :
  Inv B (port a :: own) s -> (i < EXC_TYPES_COUNT)%nat -> good_action a ->
  Inv B (port (action_of (actions_at s h) i) :: own) (with_action s h i a).
Proof.
  intros Hs Hi Ha. pose proof (actions_length _ s h Hs) as Hl. split; try by destruct Hs.
  - intros n. change (ports (with_action s h i a)) with (ports s). change (clients (with_action s h i a)) with (clients s).
    rewrite (inv_rights B _ s Hs n). unfold held, with_action. cbn [actions]. cbn.
    rewrite (held_split n (<[h:=_]> (actions s)) h), (held_split n (actions s) h), lookup_insert_eq, delete_insert_eq. cbn [default].
    fold (actions_at s h). pose proof (rights_insert n (actions_at s h) i a ltac:(by rewrite Hl)). cbn in *. lia.
  - intros h' l. unfold with_action. cbn. intros [[-> <-] | [? ?]]%lookup_insert_Some; [by rewrite length_insert | by eapply inv_shape].
  - intros h' j. cbv zeta. rewrite (action_of_with _ s h i a h' j Hs Hi). case_decide; [done | by apply (inv_behavior B _ s Hs)].
Qed.

Definition made (s : xst) (new : new_action) (old : exception_action) : exception_action :=
  mk_action (copy_of s (n_port new)) (n_flavor new) (n_behavior new) (default (privileged old) (n_priv new)).
Definition good_new (new : new_action) : Prop :=
  (IP_VALID (n_port new) = true -> B (clr (n_behavior new) MACH_EXCEPTION_MASK)) /\ (n_flavor new = 0 \/ VALID_THREAD_STATE_FLAVOR (n_flavor new) = true).
Lemma copy_of_same s s' p : same_ports s s' -> copy_of s' p = copy_of s p.
Proof. intros [Hp _]. destruct p; cbn; try done. by destruct (Hp p) as (-> & _). Qed.
Lemma made_good s new old : good_new new -> good_action (made s new old).
Proof. intros [Hb Hf]. split; [|done]. cbn. destruct (n_port new); cbn in *; try done. destruct (ip_active _); naive_solver. Qed.
(** The effect of a loop over the exceptions [todo] on the actions. *)
Definition replaced (s : xst) (h : holder) (mask : Z) (new : new_action) (todo : list nat) (s' : xst) : Prop :=
  (forall h' j, action_of (actions_at s' h') j =
     if decide (h' = h /\ j ∈ todo /\ in_mask mask j = true) then made s new (action_of (actions_at s h') j) else action_of (actions_at s h') j) /\
  delete h (actions s') = delete h (actions s).
Lemma replaced_none s h mask new : replaced s h mask new [] s.
Proof. split; [|done]. intros h' j. case_decide; [|done]. set_solver. Qed.
Lemma replaced_skip s h mask new i todo s' : in_mask mask i = false -> replaced s h mask new todo s' -> replaced s h mask new (i :: todo) s'.
Proof.
  intros Hi [Hr Hd]. split; [|done]. intros h' j. rewrite Hr.
  repeat case_decide; try done; exfalso; set_unfold; naive_solver congruence.
Qed.
Lemma replaced_step s s1 s' h mask new i todo :
  i ∉ todo -> in_mask mask i = true -> same_ports s s1 ->
  (forall h' j, action_of (actions_at s1 h') j = if decide (h' = h /\ j = i) then made s new (action_of (actions_at s h') j) else action_of (actions_at s h') j) ->
  delete h (actions s1) = delete h (actions s) ->
  replaced s1 h mask new todo s' -> replaced s h mask new (i :: todo) s'.
Proof.
  intros Hi Hm Hs H1 Hd1 [Hr Hd]. split; [|congruence]. intros h' j. rewrite Hr, H1. unfold made. rewrite (copy_of_same s s1) by done.
  repeat case_decide; try done; exfalso; set_unfold; naive_solver.
Qed.

Lemma wp_replace_action own s h i new :
  Inv B own s -> (i < EXC_TYPES_COUNT)%nat -> good_new new ->
  wp (replace_action h i new) (fun old s' => old = port (action_of (actions_at s h) i) /\ Inv B (old :: own) s' /\ same_ports s s' /\
    (forall h' j, action_of (actions_at s' h') j = if decide (h' = h /\ j = i) then made s new (action_of (actions_at s h') j) else action_of (actions_at s h') j) /\
    delete h (actions s') = delete h (actions s)) s.
Proof.
  intros Hs Hi Hn. unfold replace_action, the_action. wp_go.
  eapply wp_mono; [exact (wp_ipc_port_copy_send own s _ Hs)|]. intros q s1 (H1 & [Hp1 Ha1] & ->). unfold action_set. wp_go.
  set (a := mk_action _ _ _ _).
  assert (Hat : forall h, actions_at s1 h = actions_at s h) by (intros; unfold actions_at; by rewrite Ha1).
  rewrite <- Hat. split_and!.
  - done.
  - apply (Inv_action own s1 h i a); [done | done | by apply (made_good s new (action_of (actions_at s h) i))].
  - exact Hp1.
  - intros h' j. fold (with_action s1 h i a). rewrite (action_of_with _ s1 h i a h' j H1 Hi), Hat.
    case_decide as Hc; [|done]. destruct Hc as [-> ->]. done.
  - cbn. by rewrite delete_insert_eq, Ha1.
Qed.
Lemma wp_set_actions own s h mask new todo :
  Inv B own s -> NoDup todo -> Forall (fun i => (i < EXC_TYPES_COUNT)%nat) todo -> good_new new ->
  wp (set_actions h mask new todo) (fun olds s' => Inv B (olds ++ own) s' /\ same_ports s s' /\ replaced s h mask new todo s') s.
Proof.
  intros Hs Hd Hi Hn. revert own s Hs. induction todo as [|i todo IH]; intros own s Hs; cbn [set_actions].
  - apply wp_ret. split_and!; [done | auto with dt | apply replaced_none].
  - apply NoDup_cons in Hd as [Hnew Hd]. apply Forall_cons in Hi as [Hi0 Hi]. destruct (in_mask mask i) eqn:Hm.
    + apply wp_bind. eapply wp_mono; [by apply (wp_replace_action own s h i new)|]. intros old s1 (_ & H1 & Hp1 & Ha1 & Hd1).
      apply wp_bind. eapply wp_mono; [by apply (IH Hd Hi (old :: own) s1)|]. intros rest s2 (H2 & Hp2 & Hr2). apply wp_ret. split_and!.
      * eapply Inv_perm; [exact H2|]. intros n. cbn. rewrite !rights_app. cbn. lia.
      * by eapply same_ports_trans.
      * by eapply replaced_step.
    + eapply wp_mono; [by apply (IH Hd Hi own s)|]. intros rest s2 (? & ? & ?). split_and!; [done | done | by apply replaced_skip].
Qed.
Lemma exceptions_nodup : NoDup exceptions.
Proof. apply NoDup_seq. Qed.
Lemma exceptions_bound : Forall (fun i => (i < EXC_TYPES_COUNT)%nat) exceptions.
Proof. apply Forall_seq. unfold FIRST_EXCEPTION, EXC_TYPES_COUNT. lia. Qed.
Lemma replaced_after s h mask new todo s1 s2 : replaced s h mask new todo s1 -> actions s2 = actions s1 -> replaced s h mask new todo s2.
Proof. unfold replaced, actions_at. by intros ? ->. Qed.
(** The release of the old rights and of the caller's does not change the actions. *)
Lemma wp_release_olds own s s1 h mask new todo olds :
  Inv B (olds ++ n_port new :: own) s1 -> same_ports s s1 -> replaced s h mask new todo s1 ->
  wp (release_all olds ;;; ipc_port_release_send (n_port new)) (fun _ s' => Inv B own s' /\ same_ports s s' /\ replaced s h mask new todo s') s1.
Proof.
  intros H1 Hp1 Hr1. apply wp_bind. eapply wp_mono; [exact (wp_release_all _ s1 olds H1)|]. intros _ s2 (H2 & Hp2 & Ha2).
  eapply wp_mono; [exact (wp_ipc_port_release_send _ s2 _ H2)|]. intros _ s3 (H3 & Hp3 & Ha3). split_and!; [done| |].
  - eapply same_ports_trans; [done|]. by eapply same_ports_trans.
  - eapply replaced_after; [done|congruence].
Qed.
Lemma wp_set_and_release own s h mask new :
  Inv B (n_port new :: own) s -> good_new new ->
  wp (set_and_release h mask new) (fun kr s' => kr = KERN_SUCCESS /\ Inv B own s' /\ same_ports s s' /\ replaced s h mask new exceptions s') s.
Proof.
  intros Hs Hn. unfold set_and_release. apply wp_bind.
  eapply wp_mono; [apply (wp_set_actions _ s h mask new exceptions Hs exceptions_nodup exceptions_bound Hn)|].
  intros olds s1 (H1 & Hp1 & Hr1). pose proof (wp_release_olds own s s1 h mask new exceptions olds H1 Hp1 Hr1) as Hw.
  apply wp_bind_inv in Hw. apply wp_bind. eapply wp_mono; [exact Hw|]. intros ? s2 Hw2. apply wp_bind. eapply wp_mono; [exact Hw2|].
  intros ? s3 Hw3. by apply wp_ret.
Qed.

(** ** The arrays that [get] and [swap] return *)

(** An entry tells what an action was; the port in it is the copy. *)
Definition matches (s : xst) (a : exception_action) (e : entry) : Prop := e_port e = copy_of s (port a) /\ e_behavior e = behavior a /\ e_flavor e = flavor a.
Definition covers (e : entry) (i : nat) : Prop := Z.testbit (e_mask e) (Z.of_nat i) = true.
(** The entries [l] tell the actions of the exceptions in [D], each in one entry, and of no other. *)
Record describes (s : xst) (acts : nat -> exception_action) (D : nat -> Prop) (l : list entry) : Prop := mk_describes {
  d_all : forall i, D i -> exists e, e ∈ l /\ covers e i;
  d_only : forall e z, e ∈ l -> Z.testbit (e_mask e) z = true -> exists i, z = Z.of_nat i /\ D i /\ matches s (acts i) e;
  d_once : forall j1 j2 e1 e2 i, l !! j1 = Some e1 -> l !! j2 = Some e2 -> covers e1 i -> covers e2 i -> j1 = j2;
  d_copy : forall e, e ∈ l -> e_port e = copy_of s (e_ptr e);
  d_some : forall e, e ∈ l -> exists i, covers e i;
}.
Lemma copy_of_idem s p : copy_of s (copy_of s p) = copy_of s p.
Proof. destruct p; cbn; try done. destruct (ip_active (ports s p)) eqn:E; cbn; [by rewrite E | done]. Qed.
Definition with_bit (e : entry) (i : nat) : entry := mk_entry (Z.lor (e_mask e) (bit i)) (e_ptr e) (e_port e) (e_behavior e) (e_flavor e).
Lemma add_to_entry_split by_ptr a i l l' :
  add_to_entry by_ptr a i l = Some l' -> exists j e, l !! j = Some e /\ l' = <[j := with_bit e i]> l /\ same_entry by_ptr a e = true.
Proof.
  revert l'. induction l as [|e l IH]; intros l'; cbn; [done|]. destruct (same_entry by_ptr a e) eqn:E.
  - intros [= <-]. by exists 0%nat, e.
  - destruct (add_to_entry by_ptr a i l) as [l0|]; [|done]. cbn. intros [= <-]. destruct (IH l0 eq_refl) as (j & e1 & ? & -> & ?).
    by exists (S j), e1.
Qed.
Lemma testbit_bit i z : Z.testbit (bit i) z = true <-> z = Z.of_nat i.
Proof.
  unfold bit. rewrite Z.shiftl_1_l. split; [|intros ->; apply Z.pow2_bits_true; lia].
  intros Hz. destruct (decide (z = Z.of_nat i)); [done|]. by rewrite Z.pow2_bits_false in Hz by lia.
Qed.
Lemma covers_with_bit e i j : covers (with_bit e i) j <-> covers e j \/ j = i.
Proof. unfold covers, with_bit. cbn. rewrite Z.lor_spec, orb_true_iff, testbit_bit. split; (intros [|]; [by left | right; lia]). Qed.
Lemma same_entry_matches s by_ptr a e : same_entry by_ptr a e = true -> e_port e = copy_of s (e_ptr e) -> matches s a e.
Proof.
  unfold same_entry, matches. intros Hs Hc. destruct by_ptr; apply andb_prop in Hs as [[Hp%bool_decide_eq_true Hb%Z.eqb_eq]%andb_prop Hf%Z.eqb_eq].
  - by rewrite Hp.
  - split; [|done]. rewrite Hp, Hc. by rewrite copy_of_idem.
Qed.
Lemma uncovered s acts D l e i : describes s acts D l -> ~ D i -> e ∈ l -> ~ covers e i.
Proof. intros Hd Hi He Hc. destruct (d_only s acts D l Hd e _ He Hc) as (j & Hj & ? & _). assert (j = i) as -> by lia. done. Qed.
Lemma describes_add s acts D l j e i :
  describes s acts D l -> ~ D i -> l !! j = Some e -> matches s (acts i) e -> describes s acts (fun j => D j \/ j = i) (<[j := with_bit e i]> l).
Proof.
  intros Hd Hi Hj Hm. pose proof (lookup_lt_Some _ _ _ Hj) as Hlt. pose proof (list_elem_of_lookup_2 _ _ _ Hj) as He.
  assert (Hat : forall k e', <[j := with_bit e i]> l !! k = Some e' -> (k = j /\ e' = with_bit e i) \/ (k <> j /\ l !! k = Some e')).
  { intros k e' [(-> & -> & _) | [? ?]]%list_lookup_insert_Some; auto. }
  split.
  - intros k [Hk | ->].
    + destruct (d_all _ _ _ _ Hd k Hk) as (e' & He' & Hc). apply list_elem_of_lookup in He' as (m & Hm'). destruct (decide (m = j)) as [->|].
      * exists (with_bit e i). split; [apply list_elem_of_lookup; exists j; by apply list_lookup_insert_eq | apply covers_with_bit; left; congruence].
      * exists e'. split; [|done]. apply list_elem_of_lookup. exists m. by rewrite list_lookup_insert_ne.
    + exists (with_bit e i). split; [apply list_elem_of_lookup; exists j; by apply list_lookup_insert_eq | apply covers_with_bit; by right].
  - intros e' z (k & [[-> ->] | [? Hk]]%Hat)%list_elem_of_lookup Hz.
    + cbn in Hz. rewrite Z.lor_spec, orb_true_iff, testbit_bit in Hz. destruct Hz as [Hz | ->]; [|exists i; auto].
      destruct (d_only _ _ _ _ Hd e z He Hz) as (m & ? & ? & ?). exists m. auto.
    + destruct (d_only _ _ _ _ Hd e' z (list_elem_of_lookup_2 _ _ _ Hk) Hz) as (m & ? & ? & ?). exists m. auto.
  - intros j1 j2 e1 e2 k [[-> ->] | [Hn1 H1]]%Hat [[-> ->] | [Hn2 H2]]%Hat Hc1 Hc2; [done | | | by eapply (d_once _ _ _ _ Hd)].
    + apply covers_with_bit in Hc1 as [Hc1 | ->]; [by apply (d_once _ _ _ _ Hd j j2 e e2 k)|].
      by destruct (uncovered _ _ _ _ e2 i Hd Hi (list_elem_of_lookup_2 _ _ _ H2)).
    + apply covers_with_bit in Hc2 as [Hc2 | ->]; [by apply (d_once _ _ _ _ Hd j1 j e1 e k)|].
      by destruct (uncovered _ _ _ _ e1 i Hd Hi (list_elem_of_lookup_2 _ _ _ H1)).
  - intros e' (k & [[-> ->] | [? Hk]]%Hat)%list_elem_of_lookup; [by apply (d_copy _ _ _ _ Hd e)|].
    by apply (d_copy _ _ _ _ Hd), list_elem_of_lookup_2 with k.
  - intros e' (k & [[-> ->] | [? Hk]]%Hat)%list_elem_of_lookup; [exists i; apply covers_with_bit; by right|].
    by apply (d_some _ _ _ _ Hd), list_elem_of_lookup_2 with k.
Qed.
Lemma describes_new s acts D l i :
  describes s acts D l -> ~ D i -> describes s acts (fun j => D j \/ j = i) (l ++ [mk_entry (bit i) (port (acts i)) (copy_of s (port (acts i))) (behavior (acts i)) (flavor (acts i))]).
Proof.
  intros Hd Hi. set (e := mk_entry _ _ _ _ _).
  assert (Hc : forall k, covers e k <-> k = i) by (intros k; unfold covers; cbn; rewrite testbit_bit; lia).
  split.
  - intros k [Hk | ->]; [destruct (d_all _ _ _ _ Hd k Hk) as (e' & ? & ?); exists e' | exists e; rewrite Hc]; set_solver.
  - intros e' z [He' | ->%list_elem_of_singleton]%elem_of_app Hz.
    + destruct (d_only _ _ _ _ Hd e' z He' Hz) as (m & ? & ? & ?). exists m. auto.
    + cbn in Hz. apply testbit_bit in Hz as ->. exists i. repeat split; auto.
  - intros j1 j2 e1 e2 k H1 H2 Hc1 Hc2.
    assert (Hold : forall j e', l !! j = Some e' -> covers e' i -> False).
    { intros j e' Hj. by apply (uncovered _ _ _ _ e' i Hd Hi), list_elem_of_lookup_2 with j. }
    apply lookup_app_Some in H1 as [H1 | [? H1]], H2 as [H2 | [? H2]]; [by eapply (d_once _ _ _ _ Hd) | | |].
    all: try apply list_lookup_singleton_Some in H1 as [? <-]; try apply list_lookup_singleton_Some in H2 as [? <-].
    + apply Hc in Hc2 as ->. by destruct (Hold j1 e1).
    + apply Hc in Hc1 as ->. by destruct (Hold j2 e2).
    + lia.
  - intros e' [He' | ->%list_elem_of_singleton]%elem_of_app; [by apply (d_copy _ _ _ _ Hd) | done].
  - intros e' [He' | ->%list_elem_of_singleton]%elem_of_app; [by apply (d_some _ _ _ _ Hd) | exists i; by apply Hc].
Qed.
Lemma describes_nil s acts (D : nat -> Prop) : (forall i, ~ D i) -> describes s acts D [].
Proof. intros HD. split; set_solver. Qed.
Lemma describes_iff s acts (D D' : nat -> Prop) l : describes s acts D l -> (forall i, D i <-> D' i) -> describes s acts D' l.
Proof. intros [] HD. split; try done; [intros i; rewrite <- HD; auto|]. intros e z He Hz. destruct (d_only0 e z He Hz) as (i & ? & ?%HD & ?). eauto. Qed.
Lemma describes_same s s' acts D l : same_ports s s' -> describes s acts D l -> describes s' acts D l.
Proof.
  intros Hs []. split; try done.
  - intros e z He Hz. destruct (d_only0 e z He Hz) as (i & ? & ? & ? & ?). exists i. unfold matches. by rewrite (copy_of_same s s').
  - intros e He. by rewrite (copy_of_same s s') by done; apply d_copy0.
Qed.

(** ** Recording actions *)

Lemma entry_ports (l : list entry) (j : nat) e i : l !! j = Some e -> e_port <$> <[j := with_bit e i]> l = e_port <$> l.
Proof. intros Hj. rewrite list_fmap_insert. apply list_insert_id. by rewrite list_lookup_fmap, Hj. Qed.
Lemma wp_record_account own s by_ptr CountCnt a i l :
  Inv B ((e_port <$> l) ++ own) s ->
  wp (record_action by_ptr CountCnt a i l) (fun l' s' => Inv B ((e_port <$> l') ++ own) s' /\ rights_only s s') s.
Proof.
  intros Hs. unfold record_action. destruct (add_to_entry by_ptr a i l) as [l'|] eqn:E; [|case_bool].
  - destruct (add_to_entry_split _ _ _ _ _ E) as (j & e & Hj & -> & _). apply wp_ret. rewrite entry_ports; [auto with dt | done].
  - apply wp_bind. eapply wp_mono; [exact (wp_ipc_port_copy_send _ s _ Hs)|]. intros q s1 (H1 & Hr1 & ->). apply wp_ret. split; [|done].
    eapply Inv_perm; [exact H1|]. intros n. rewrite fmap_app. cbn. rewrite !rights_app. cbn. lia.
  - apply wp_ret. auto with dt.
Qed.
Lemma wp_record_action own s by_ptr CountCnt acts D i l :
  Inv B ((e_port <$> l) ++ own) s -> describes s acts D l -> ~ D i -> (length l < CountCnt)%nat ->
  wp (record_action by_ptr CountCnt (acts i) i l) (fun l' s' => Inv B ((e_port <$> l') ++ own) s' /\ rights_only s s' /\
    describes s acts (fun j => D j \/ j = i) l' /\ (length l' <= S (length l))%nat) s.
Proof.
  intros Hs Hd Hi Hlt. pose proof (wp_record_account own s by_ptr CountCnt (acts i) i l Hs) as Hacc.
  enough (Hw : wp (record_action by_ptr CountCnt (acts i) i l) (fun l' _ => describes s acts (fun j => D j \/ j = i) l' /\ (length l' <= S (length l))%nat) s).
  { eapply wp_mono; [exact (wp_and _ _ _ _ Hacc Hw)|]. intros l' s' [[? ?] [? ?]]. done. }
  unfold record_action. destruct (add_to_entry by_ptr (acts i) i l) as [l'|] eqn:E.
  - destruct (add_to_entry_split _ _ _ _ _ E) as (j & e & Hj & -> & Hsame). apply wp_ret. split; [|rewrite length_insert; lia].
    apply describes_add; try done. eapply same_entry_matches; [done|]. by eapply (d_copy _ _ _ _ Hd), list_elem_of_lookup_2.
  - rewrite (proj2 (Nat.ltb_lt _ _) Hlt). apply wp_bind. eapply wp_mono; [exact (wp_ipc_port_copy_send _ s _ Hs)|].
    intros q s1 (_ & _ & ->). apply wp_ret. split; [by apply describes_new | rewrite length_app; cbn; lia].
Qed.
Definition done_in (mask : Z) (done : list nat) (i : nat) : Prop := i ∈ done /\ in_mask mask i = true.
Lemma describes_skip s acts mask done i l :
  in_mask mask i = false -> describes s acts (done_in mask done) l -> describes s acts (done_in mask (done ++ [i])) l.
Proof. intros Hi Hd. eapply describes_iff; [done|]. intros j. unfold done_in. set_unfold. naive_solver congruence. Qed.
Lemma describes_take s acts mask done i l :
  in_mask mask i = true -> describes s acts (fun j => done_in mask done j \/ j = i) l -> describes s acts (done_in mask (done ++ [i])) l.
Proof. intros Hi Hd. eapply describes_iff; [done|]. intros j. unfold done_in. set_unfold. naive_solver. Qed.
(** [get]: with arrays that are long enough, the entries tell the actions. *)
Lemma wp_get_actions own s by_ptr h mask CountCnt done todo l :
  Inv B ((e_port <$> l) ++ own) s -> NoDup (done ++ todo) -> describes s (action_of (actions_at s h)) (done_in mask done) l ->
  (length l + length todo <= CountCnt)%nat ->
  wp (get_actions by_ptr h mask CountCnt todo l) (fun l' s' => Inv B ((e_port <$> l') ++ own) s' /\ rights_only s s' /\
    describes s (action_of (actions_at s h)) (done_in mask (done ++ todo)) l') s.
Proof.
  revert done s l. induction todo as [|i todo IH]; intros done s l Hs Hnd Hd Hlen; cbn [get_actions].
  - apply wp_ret. rewrite app_nil_r. auto with dt.
  - rewrite cons_middle, app_assoc in Hnd. cbn in Hlen. destruct (in_mask mask i) eqn:Hi.
    + unfold the_action. wp_go. assert (~ done_in mask done i).
      { intros [Hin _]. apply NoDup_app in Hnd as (Hnd & _). apply NoDup_app in Hnd as (_ & Hx & _). apply (Hx i Hin). set_solver. }
      eapply wp_mono; [apply (wp_record_action own s by_ptr CountCnt (action_of (actions_at s h)) _ i l Hs Hd); [done|lia]|].
      intros l1 s1 (H1 & [Hp1 Ha1] & Hd1 & Hl1). apply (describes_take _ _ _ _ _ _ Hi) in Hd1.
      assert (Hat : actions_at s1 h = actions_at s h) by (unfold actions_at; by rewrite Ha1).
      eapply wp_mono; [apply (IH (done ++ [i]) s1 l1 H1 Hnd); [rewrite Hat; by eapply describes_same | lia]|].
      intros l2 s2 (? & ? & Hd2). rewrite Hat, <- app_assoc in Hd2. split_and!; [done | by eapply rights_only_trans|].
      eapply describes_same; [by apply same_ports_sym | exact Hd2].
    + eapply wp_mono; [apply (IH (done ++ [i]) s l Hs Hnd); [by apply describes_skip | lia]|].
      intros l2 s2 (? & ? & Hd2). by rewrite <- app_assoc in Hd2.
Qed.
Lemma wp_get_account own s by_ptr h mask CountCnt todo l :
  Inv B ((e_port <$> l) ++ own) s ->
  wp (get_actions by_ptr h mask CountCnt todo l) (fun l' s' => Inv B ((e_port <$> l') ++ own) s' /\ rights_only s s') s.
Proof.
  revert s l. induction todo as [|i todo IH]; intros s l Hs; cbn [get_actions]; [apply wp_ret; auto with dt|].
  case_bool; [|by apply IH]. unfold the_action. wp_go. eapply wp_mono; [by apply wp_record_account|]. intros l1 s1 [H1 ?].
  eapply wp_mono; [by apply IH|]. intros l2 s2 [? ?]. split; [done | by eapply rights_only_trans].
Qed.
(** [swap]: every action that was replaced is told, whatever the size of the arrays; the
    loop goes on while they have room. *)
Lemma wp_swap_actions own s h mask new CountCnt acts done todo l :
  Inv B ((e_port <$> l) ++ own) s -> NoDup (done ++ todo) -> Forall (fun i => (i < EXC_TYPES_COUNT)%nat) todo -> good_new new ->
  describes s acts (done_in mask done) l -> (length l <= CountCnt)%nat -> (forall j, j ∈ todo -> action_of (actions_at s h) j = acts j) ->
  wp (swap_actions h mask new CountCnt todo l) (fun r s' => exists pre post, todo = pre ++ post /\ (post = [] \/ length (fst r) = CountCnt) /\ (length (fst r) <= length l + length pre)%nat /\
    Inv B (snd r ++ (e_port <$> fst r) ++ own) s' /\ same_ports s s' /\ replaced s h mask new pre s' /\
    describes s acts (done_in mask (done ++ pre)) (fst r)) s.
Proof.
  intros Hs Hnd Hb Hn. revert own done s l Hs Hnd Hb. induction todo as [|i todo IH]; intros own done s l Hs Hnd Hb Hd Hlen Hact; cbn [swap_actions].
  { apply wp_ret. exists [], []. rewrite (app_nil_r done). split_and!; auto using replaced_none with dt; cbn; lia. }
  destruct (Nat.ltb_spec (length l) CountCnt) as [Hlt|Hfull]; cbn [negb].
  2:{ apply wp_ret. exists [], (i :: todo). rewrite (app_nil_r done). split_and!; auto using replaced_none with dt; cbn; lia. }
  pose proof Hnd as Hnd'. rewrite cons_middle, app_assoc in Hnd'. apply Forall_cons in Hb as [Hb0 Hb]. destruct (in_mask mask i) eqn:Hi.
  - assert (~ done_in mask done i). { intros [Hin _]. apply NoDup_app in Hnd as (_ & Hx & _). apply (Hx i Hin). set_solver. }
    assert (Hnin : i ∉ todo). { apply NoDup_app in Hnd as (_ & _ & Hx). by apply NoDup_cons in Hx as [? _]. }
    unfold the_action. wp_go. rewrite (Hact i) by set_solver.
    eapply wp_mono; [apply (wp_record_action own s false CountCnt acts _ i l Hs Hd); [done|lia]|].
    intros l1 s1 (H1 & [Hp1 Ha1] & Hd1 & Hl1). apply (describes_take _ _ _ _ _ _ Hi) in Hd1. apply wp_bind.
    assert (Hat1 : forall h, actions_at s1 h = actions_at s h) by (intros; unfold actions_at; by rewrite Ha1).
    eapply wp_mono; [by apply (wp_replace_action _ s1 h i new H1)|]. intros old s2 (_ & H2 & Hp2 & Ha2 & Hd2). apply wp_bind.
    assert (Hp02 : same_ports s s2) by by eapply same_ports_trans.
    eapply wp_mono; [apply (IH (old :: own) (done ++ [i]) s2 l1)|].
    + eapply Inv_perm; [exact H2|]. intros n. cbn. rewrite !rights_app. cbn. lia.
    + done.
    + done.
    + by eapply describes_same.
    + lia.
    + intros j Hj. rewrite Ha2, Hat1. case_decide as Hc; [destruct Hc as [_ ->]; done | apply Hact; set_solver].
    + intros r s3 (pre & post & -> & Hpost & Hl3 & H3 & Hp3 & Hr3 & Hd3). apply wp_ret. exists (i :: pre), post. cbn [fst snd]. split_and!; try done.
      * cbn. lia.
      * eapply Inv_perm; [exact H3|]. intros n. cbn. rewrite !rights_app. cbn. lia.
      * by eapply same_ports_trans.
      * eapply (replaced_step s s2); try done; [set_solver| |congruence]. intros h' j. rewrite Ha2, Hat1. unfold made. by rewrite (copy_of_same s s1).
      * rewrite <- app_assoc in Hd3. eapply describes_same; [by apply same_ports_sym | exact Hd3].
  - eapply wp_mono; [apply (IH own (done ++ [i]) s l Hs Hnd' Hb); [by apply describes_skip | lia | set_solver]|].
    intros r s3 (pre & post & -> & Hpost & Hl3 & H3 & Hp3 & Hr3 & Hd3). exists (i :: pre), post. rewrite <- app_assoc in Hd3.
    split_and!; try done; [cbn; lia | by apply replaced_skip].
Qed.
Lemma wp_swap_and_release own s h mask new CountCnt :
  Inv B (n_port new :: own) s -> good_new new ->
  wp (swap_and_release h mask new CountCnt) (fun r s' => fst r = KERN_SUCCESS /\ Inv B ((e_port <$> snd r) ++ own) s' /\ same_ports s s' /\
    exists pre post, exceptions = pre ++ post /\ (post = [] \/ length (snd r) = CountCnt) /\ (length (snd r) <= length pre)%nat /\
    replaced s h mask new pre s' /\ describes s (action_of (actions_at s h)) (done_in mask pre) (snd r)) s.
Proof.
  intros Hs Hn. unfold swap_and_release. apply wp_bind.
  eapply wp_mono; [apply (wp_swap_actions (n_port new :: own) s h mask new CountCnt (action_of (actions_at s h)) [] exceptions [] Hs exceptions_nodup exceptions_bound Hn)|].
  - apply describes_nil. intros i [Hx _]. set_solver.
  - cbn. lia.
  - done.
  - intros r s1 (pre & post & Hpp & Hpost & Hlen & H1 & Hp1 & Hr1 & Hd1).
    assert (H1' : Inv B (rev (snd r) ++ n_port new :: (e_port <$> fst r) ++ own) s1).
    { eapply Inv_perm; [exact H1|]. intros n. rewrite !rights_app, (rights_perm n (rev (snd r)) (snd r)) by (symmetry; apply Permutation_rev).
      cbn. rewrite !rights_app. cbn. lia. }
    pose proof (wp_release_olds ((e_port <$> fst r) ++ own) s s1 h mask new pre (rev (snd r)) H1' Hp1 Hr1) as Hw.
    apply wp_bind_inv in Hw. apply wp_bind. eapply wp_mono; [exact Hw|]. intros ? s2 Hw2. apply wp_bind. eapply wp_mono; [exact Hw2|].
    intros ? s3 (? & ? & ?). apply wp_ret. split_and!; [done | done | done |]. by exists pre, post.
Qed.
End Inv.
End ExceptionsProps.
