(* ===== verification/ExceptionsCalls.v ===== *)
(** * The calls on exception ports

    The account of send rights over all the calls of clients, and the round trip of
    [task_swap_exception_ports] and [task_set_exception_ports]. *)
From S2P Require Import Prelude Exceptions ExceptionsProps.
Export Exceptions ExceptionsProps.

Module ExceptionsCalls.

(** The behaviours that the calls accept. *)
Definition accepted (b : Z) : Prop := behavior_ok b = true.
Abbreviation I := (Inv accepted).

(** ** Arguments *)

Definition good_flavor (f : Z) : Prop := f = 0 \/ VALID_THREAD_STATE_FLAVOR f = true.
Lemma wp_check_arguments mask p b f movable s :
  wp (check_arguments mask p b f movable) (fun bad s' => s' = s /\ (bad = None -> (IP_VALID p = true -> accepted b) /\ good_flavor f) /\ bad <> Some KERN_SUCCESS) s.
Proof.
  unfold check_arguments, the_port. case_bool; [by apply wp_ret|]. case_bool; [by apply wp_ret|]. apply wp_bind.
  apply (wp_mono _ (fun _ s' => s' = s)); [destruct p; wp_go; done|]. intros [] s' ->; [by apply wp_ret|].
  case_bool; [by apply wp_ret|]. apply wp_ret. split; [done|]. split; [|done]. intros _. unfold accepted, good_flavor. split.
  - destruct (behavior_ok b); [done|]. intros Hp. by rewrite Hp in E0.
  - destruct (Z.eqb_spec f 0); [by left|]. destruct (VALID_THREAD_STATE_FLAVOR f); [by right | done].
Qed.
Lemma wp_checked {A} (fail : Z -> MX A) mask new movable alive go Q s :
  wp alive (fun _ s' => s' = s) s ->
  (forall kr, kr <> KERN_SUCCESS -> wp (fail kr) Q s) -> (good_new accepted new -> wp go Q s) -> wp (checked fail mask new movable alive go) Q s.
Proof.
  intros Ha Hf Hg. unfold checked. apply wp_bind. eapply wp_mono; [apply wp_check_arguments|]. intros [kr|] s' (-> & Hok & Hne); [apply Hf; congruence|].
  apply wp_bind. eapply wp_mono; [exact Ha|]. intros [] s' ->; [|by apply Hf]. apply Hg. by apply Hok.
Qed.
Lemma wp_thread_actions own s t :
  I own s -> wp (thread_actions t) (fun _ s' => I own s' /\ same_ports s s' /\ forall h, actions_at s' h = actions_at s h) s.
Proof.
  intros Hs. unfold thread_actions, the_actions. wp_go. destruct (actions s !! HThread t) eqn:E; [apply wp_ret; split_and!; auto with dt|].
  unfold ipc_thread_init_exc_actions. wp_go. set (s' := s <| actions ::= _ |>).
  assert (Hat : forall h, actions_at s' h = actions_at s h).
  { intros h. unfold actions_at, s'. cbn. destruct (decide (h = HThread t)) as [->|]; [by rewrite lookup_insert_eq, E | by rewrite lookup_insert_ne]. }
  split_and!; [ | done | done]. split; try by destruct Hs.
  - intros n. rewrite (inv_rights _ _ s Hs n : ip_srights (ports s' n) = _). f_equal. f_equal. unfold held, s'. cbn.
    rewrite (held_split n (<[_:=_]> _) (HThread t)), (held_split n (actions s) (HThread t)), lookup_insert_eq, delete_insert_eq, E. done.
  - intros h l. unfold s'. cbn. intros [[<- <-] | [_ Hl]]%lookup_insert_Some; [done | by eapply (inv_shape _ _ s Hs)].
  - intros h i. cbv zeta. rewrite Hat. apply (inv_behavior _ _ s Hs).
Qed.

(** ** Every call *)

Inductive xcall :=
| SetThread (cur : nat) (t : option nat) (mask : Z) (p : ipc_port_t) (b f : Z)
| SetTask (cur : nat) (k : option nat) (mask : Z) (p : ipc_port_t) (b f : Z)
| SetHost (priv : bool) (mask : Z) (p : ipc_port_t) (b f : Z)
| SwapThread (cur : nat) (t : option nat) (mask : Z) (p : ipc_port_t) (b f : Z) (CountCnt : nat)
| SwapTask (cur : nat) (k : option nat) (mask : Z) (p : ipc_port_t) (b f : Z) (CountCnt : nat)
| SwapHost (priv : bool) (mask : Z) (p : ipc_port_t) (b f : Z) (CountCnt : nat)
| GetThread (cur : nat) (p : ipc_port_t) (mask : Z) (CountCnt : nat)
| GetTask (cur : nat) (p : ipc_port_t) (mask : Z) (CountCnt : nat)
| GetHost (priv : bool) (mask : Z) (CountCnt : nat).
Definition set_result (m : MX Z) : MX (Z * list entry) := kr <- m ;; ret (kr, []).
Definition xrun (c : xcall) : MX (Z * list entry) :=
  match c with
  | SetThread cur t mask p b f => set_result (thread_set_exception_ports cur t mask p b f)
  | SetTask cur k mask p b f => set_result (task_set_exception_ports cur k mask p b f)
  | SetHost priv mask p b f => set_result (host_set_exception_ports priv mask p b f)
  | SwapThread cur t mask p b f n => thread_swap_exception_ports cur t mask p b f n
  | SwapTask cur k mask p b f n => task_swap_exception_ports cur k mask p b f n
  | SwapHost priv mask p b f n => host_swap_exception_ports priv mask p b f n
  | GetThread cur p mask n => thread_get_exception_ports_from_user cur p mask n
  | GetTask cur p mask n => task_get_exception_ports_from_user cur p mask n
  | GetHost priv mask n => host_get_exception_ports priv mask n
  end.
(** The right that a call is given. *)
Definition given (c : xcall) : list ipc_port_t :=
  match c with
  | SetThread _ _ _ p _ _ | SetTask _ _ _ p _ _ | SetHost _ _ p _ _ => [p]
  | SwapThread _ _ _ p _ _ _ | SwapTask _ _ _ p _ _ _ | SwapHost _ _ p _ _ _ => [p]
  | GetThread _ _ _ _ | GetTask _ _ _ _ | GetHost _ _ _ => []
  end.
(** What is left of it, with the rights that come back. *)
Definition kept (c : xcall) (r : Z * list entry) : list ipc_port_t := (if fst r =? KERN_SUCCESS then [] else given c) ++ (e_port <$> snd r).
Definition account (c : xcall) (own : list ipc_port_t) (r : Z * list entry) (s s' : xst) : Prop := I (kept c r ++ own) s' /\ same_ports s s'.

Section Calls.
Context (own : list ipc_port_t) (s : xst) (c : xcall) (Hs : I (given c ++ own) s).

Lemma account_failed kr : kr <> KERN_SUCCESS -> wp (no_entries kr) (fun r s' => account c own r s s') s.
Proof.
  intros Hk. apply wp_ret. split; [|auto with dt]. unfold kept. cbn [fst snd]. destruct (Z.eqb_spec kr KERN_SUCCESS); [done|].
  eapply Inv_perm; [exact Hs|]. intros m. rewrite !rights_app. cbn. lia.
Qed.
Lemma account_set h mask new s1 :
  given c = [n_port new] -> good_new accepted new -> I (given c ++ own) s1 -> same_ports s s1 ->
  wp (set_and_release h mask new) (fun kr s' => account c own (kr, []) s s') s1.
Proof.
  intros Hg Hn H1 Hp. rewrite Hg in H1. eapply wp_mono; [by apply (wp_set_and_release accepted own s1 h mask new)|].
  intros kr s2 (-> & ? & ? & _). split; [done | by eapply same_ports_trans].
Qed.
Lemma account_swap h mask new n s1 :
  given c = [n_port new] -> good_new accepted new -> I (given c ++ own) s1 -> same_ports s s1 ->
  wp (swap_and_release h mask new n) (fun r s' => account c own r s s') s1.
Proof.
  intros Hg Hn H1 Hp. rewrite Hg in H1. eapply wp_mono; [by apply (wp_swap_and_release accepted own s1 h mask new n)|].
  intros [kr l] s2 (Hkr & ? & ? & _). cbn in Hkr. subst. split; [done | by eapply same_ports_trans].
Qed.
Lemma account_get by_ptr h mask n : given c = [] -> wp (get_all by_ptr h mask n) (fun r s' => account c own r s s') s.
Proof.
  intros Hg. rewrite Hg in Hs. unfold get_all. apply wp_bind. eapply wp_mono; [by apply (wp_get_account accepted own s by_ptr h mask n exceptions [])|].
  intros l s1 [? [? _]]. by apply wp_ret.
Qed.
End Calls.

Lemma accepted_plain b : accepted b -> accepted (clr b MACH_EXCEPTION_MASK).
Proof.
  unfold accepted, behavior_ok. intros Hb%bool_decide_eq_true. apply bool_decide_eq_true.
  repeat (apply elem_of_cons in Hb as [-> | Hb]; [vm_compute; set_solver|]). set_solver.
Qed.
(** C34: Any call, on any arguments, returns and keeps the account of send rights: the caller's
    right to the new port is used up if and only if the call succeeds, the rights that were
    replaced are given up, and each entry that comes back carries one. *)
Theorem exception_calls_account c own s : I (given c ++ own) s -> wp (xrun c) (fun r s' => account c own r s s') s.
Proof.
  intros Hs.
  assert (Hfail : forall kr, kr <> KERN_SUCCESS -> wp (no_entries kr) (fun r s' => account c own r s s') s) by (intros; by apply account_failed).
  pose proof (account_set own s c) as Hset. pose proof (account_swap own s c) as Hswap. pose proof (account_get own s c Hs) as Hget.
  destruct c; cbn [xrun].
  - unfold set_result. apply wp_bind. destruct t as [t|]; cbn [thread_set_exception_ports]; [|by apply wp_ret, Hfail].
    unfold the_task. wp_go. apply wp_checked; [by wp_go | intros; by apply wp_ret, Hfail | intros Hn].
    apply wp_bind. eapply wp_mono; [by apply (wp_thread_actions _ s t Hs)|]. intros _ s1 (? & ? & _). eapply wp_mono; [by apply Hset | intros kr s2 Ha; by apply wp_ret].
  - unfold set_result. apply wp_bind. destruct k as [k|]; cbn [task_set_exception_ports]; [|by apply wp_ret, Hfail].
    unfold the_task. wp_go. apply wp_checked; [by wp_go | intros; by apply wp_ret, Hfail | intros Hn]. eapply wp_mono; [apply Hset; auto with dt | intros kr s2 Ha; by apply wp_ret].
  - unfold set_result. apply wp_bind. unfold host_set_exception_ports. case_bool; [by apply wp_ret, Hfail|].
    apply wp_checked; [by wp_go | intros; by apply wp_ret, Hfail | intros Hn]. eapply wp_mono; [apply Hset; auto with dt | intros kr s2 Ha; by apply wp_ret].
  - destruct t as [t|]; cbn [thread_swap_exception_ports]; [|by apply Hfail].
    unfold the_task. wp_go. apply wp_checked; [by wp_go | done | intros Hn].
    apply wp_bind. eapply wp_mono; [by apply (wp_thread_actions _ s t Hs)|]. intros _ s1 (? & ? & _). by apply Hswap.
  - destruct k as [k|]; cbn [task_swap_exception_ports]; [|by apply Hfail].
    unfold the_task. wp_go. apply wp_checked; [by wp_go | done | intros Hn]. apply Hswap; auto with dt.
  - unfold host_swap_exception_ports. case_bool; [by apply Hfail|]. apply wp_bind. eapply wp_mono; [apply wp_check_arguments|].
    intros [kr|] s' (-> & Hok & Hne); [apply Hfail; congruence|]. apply Hswap; auto with dt.
    destruct (Hok eq_refl). split; [|done]. cbn. eauto using accepted_plain.
  - unfold thread_get_exception_ports_from_user, convert_port_to_thread. wp_go. destruct (thread_of_port false cur p s) as [t|]; [|by apply Hfail].
    cbn [thread_get_exception_ports]. case_bool; [by apply Hfail|]. unfold the_thread, the_actions. wp_go. case_bool; [by apply Hfail|]. wp_go.
    destruct (actions s !! HThread t); [by apply Hget|]. apply wp_ret. split; [done|auto with dt].
  - unfold task_get_exception_ports_from_user, convert_port_to_task. wp_go. destruct (task_of_port false cur p s) as [k|]; [|by apply Hfail].
    cbn [task_get_exception_ports]. case_bool; [by apply Hfail|]. unfold the_task. wp_go. case_bool; [by apply Hfail | by apply Hget].
  - unfold host_get_exception_ports. do 2 (case_bool; [by apply Hfail|]). by apply Hget.
Qed.

(** ** Swapping and restoring *)

(** Arguments that pass the checks, in a state. *)
Definition valid_arguments (s : xst) (mask : Z) (p : ipc_port_t) (b f : Z) : Prop :=
  clr mask EXC_MASK_VALID = 0 /\ (IP_VALID p = true -> accepted (clr b MACH_EXCEPTION_MASK)) /\ (forall n, p = IP n -> ip_immovable (ports s n) = false) /\ good_flavor f.
Lemma wp_checked_valid {A} (fail : Z -> MX A) mask p b f priv movable alive go Q s :
  valid_arguments s mask p b f -> wp alive (fun ok s' => ok = true /\ s' = s) s -> wp go Q s ->
  wp (checked fail mask (mk_new p b f priv) movable alive go) Q s.
Proof.
  intros (Hm & Hb & Hi & Hf) Ha Hg. unfold checked, check_arguments. cbn [n_port n_behavior n_flavor]. rewrite Hm. cbn [Z.eqb negb].
  apply wp_bind. assert (Hnb : IP_VALID p && negb (behavior_ok (clr b MACH_EXCEPTION_MASK)) = false).
  { destruct (IP_VALID p); [|done]. by rewrite (Hb eq_refl). }
  rewrite Hnb. apply wp_bind. apply (wp_mono _ (fun x s' => x = false /\ s' = s)).
  { destruct p as [| |n]; [by apply wp_ret | by apply wp_ret|]. unfold the_port. wp_go. rewrite (Hi n eq_refl). by rewrite andb_false_r. }
  intros x s' [-> ->]. assert (Hnf : negb (f =? 0) && negb (VALID_THREAD_STATE_FLAVOR f) = false).
  { destruct Hf as [-> | ->]; [done | by rewrite andb_false_r]. }
  rewrite Hnf. apply wp_ret. apply wp_bind. eapply wp_mono; [exact Ha|]. by intros ok s' [-> ->].
Qed.
Lemma valid_good s mask p b f priv : valid_arguments s mask p b f -> good_new accepted (mk_new p b f priv).
Proof. intros (_ & ? & _ & ?). done. Qed.
Lemma wp_task_set_ports own s cur k mask p b f :
  I (p :: own) s -> k_ipc_active (xtasks s k) = true -> valid_arguments s mask p b f ->
  wp (task_set_exception_ports cur (Some k) mask p b f) (fun kr s' => kr = KERN_SUCCESS /\ I own s' /\ same_ports s s' /\
    replaced s (HTask k) mask (mk_new p b f (Some (k_root (xtasks s cur)))) exceptions s') s.
Proof.
  intros Hs Hk Hv. unfold task_set_exception_ports, the_task. wp_go. apply wp_checked_valid; [done | wp_go; done |].
  apply (wp_set_and_release accepted own); [done | by eapply valid_good].
Qed.
Lemma wp_task_swap_ports own s cur k mask p b f CountCnt :
  I (p :: own) s -> k_ipc_active (xtasks s k) = true -> valid_arguments s mask p b f -> (length exceptions <= CountCnt)%nat ->
  wp (task_swap_exception_ports cur (Some k) mask p b f CountCnt) (fun r s' => fst r = KERN_SUCCESS /\ I ((e_port <$> snd r) ++ own) s' /\ same_ports s s' /\
    replaced s (HTask k) mask (mk_new p b f (Some (k_root (xtasks s cur)))) exceptions s' /\
    describes s (action_of (actions_at s (HTask k))) (done_in mask exceptions) (snd r)) s.
Proof.
  intros Hs Hk Hv Hc. unfold task_swap_exception_ports, the_task. wp_go. apply wp_checked_valid; [done | wp_go; done |].
  eapply wp_mono; [apply (wp_swap_and_release accepted own); [done | by eapply valid_good]|].
  intros r s' (? & ? & ? & pre & post & Hpp & Hpost & Hlen & Hr & Hd). assert (post = []) as ->.
  { destruct Hpost as [|Hpost]; [done|]. rewrite Hpp, length_app in Hc. apply length_zero_iff_nil. lia. }
  rewrite app_nil_r in Hpp. by rewrite Hpp.
Qed.
(** What a caller of [swap] does to put the old handlers back. *)
Fixpoint restore (cur k : nat) (l : list entry) : MX unit :=
  match l with
  | [] => ret tt
  | e :: l => task_set_exception_ports cur (Some k) (e_mask e) (e_port e) (e_behavior e) (e_flavor e) ;;; restore cur k l
  end.
Definition same_handler (a a' : exception_action) : Prop := port a = port a' /\ behavior a = behavior a' /\ flavor a = flavor a'.
(** What [swap] and [set] write beside the handler: the exceptions in the mask get the
    privilege of the caller, the others keep theirs. *)
Definition privilege_after (s : xst) (cur k : nat) (mask : Z) (i : nat) : bool :=
  if decide (i ∈ exceptions /\ in_mask mask i = true) then k_root (xtasks s cur) else privileged (action_of (actions_at s (HTask k)) i).
(** The handlers of a task are alive and may be set. *)
Definition live_handlers (s : xst) (k : nat) : Prop :=
  forall i n, port (action_of (actions_at s (HTask k)) i) = IP n -> ip_active (ports s n) = true /\ ip_immovable (ports s n) = false.

Lemma live_copy s k i : live_handlers s k -> copy_of s (port (action_of (actions_at s (HTask k)) i)) = port (action_of (actions_at s (HTask k)) i).
Proof. intros Hl. destruct (port (action_of (actions_at s (HTask k)) i)) as [| |n] eqn:E; try done. cbn. by destruct (Hl i n E) as [-> _]. Qed.
Lemma mask_within e : (forall z, Z.testbit (e_mask e) z = true -> exists i, z = Z.of_nat i /\ i ∈ exceptions) -> clr (e_mask e) EXC_MASK_VALID = 0.
Proof.
  intros Hb. apply Z.bits_inj. intros z. unfold clr. rewrite Z.ldiff_spec, Z.testbit_0_l.
  destruct (Z.testbit (e_mask e) z) eqn:E; [|done]. destruct (Hb z E) as (i & -> & Hi). clear Hb E.
  unfold exceptions in Hi. apply elem_of_seq in Hi. unfold FIRST_EXCEPTION, EXC_TYPES_COUNT in Hi.
  do 14 (destruct i as [|i]; [try lia; reflexivity|]). lia.
Qed.

Section Restore.
Context (s : xst) (cur k : nat) (mask : Z) (Hlive : live_handlers s k) (Hact : k_ipc_active (xtasks s k) = true) (own0 : list ipc_port_t) (HI : I own0 s).
Notation acts := (action_of (actions_at s (HTask k))).
(** The entries that are left are of the old handlers, and tell those that are not back yet. *)
Definition to_restore (s1 : xst) (l : list entry) : Prop :=
  same_ports s s1 /\ delete (HTask k) (actions s1) = delete (HTask k) (actions s) /\
  (forall e, e ∈ l -> (exists i, covers e i) /\ forall z, Z.testbit (e_mask e) z = true -> exists i, z = Z.of_nat i /\ (i ∈ exceptions /\ in_mask mask i = true) /\ matches s (acts i) e) /\
  (forall i, privileged (action_of (actions_at s1 (HTask k)) i) = privilege_after s cur k mask i) /\
  (forall i, same_handler (action_of (actions_at s1 (HTask k)) i) (acts i) \/ exists e, e ∈ l /\ covers e i).
Lemma entry_valid s1 e l : to_restore s1 (e :: l) -> valid_arguments s1 (e_mask e) (e_port e) (e_behavior e) (e_flavor e).
Proof.
  intros ((Hp & _) & _ & He & _ & _). destruct (He e ltac:(set_solver)) as ((i & Hi) & Hz). destruct (Hz _ Hi) as (j & _ & _ & Hmp & Hmb & Hmf).
  rewrite live_copy in Hmp by done. pose proof (inv_behavior _ _ s HI (HTask k) j) as [Hb Hf].
  unfold valid_arguments. rewrite Hmp, Hmb, Hmf. split_and!; [ | done | | done].
  - apply mask_within. intros z Hzb. destruct (Hz z Hzb) as (m & ? & [? _] & _). eauto.
  - intros n Hn. destruct (Hp n) as (_ & -> & _). by apply (Hlive j n).
Qed.
Lemma restore_step s1 s2 e l :
  to_restore s1 (e :: l) -> same_ports s1 s2 ->
  replaced s1 (HTask k) (e_mask e) (mk_new (e_port e) (e_behavior e) (e_flavor e) (Some (k_root (xtasks s1 cur)))) exceptions s2 -> to_restore s2 l.
Proof.
  intros (Hp & Hd & He & Hpriv & Hall) Hp2 [Hr Hd2]. split_and!; [by eapply same_ports_trans | congruence | set_solver | |].
  { intros i. rewrite Hr. case_decide as Hc; [|done]. destruct Hc as (_ & Hin & Hcov). destruct (He e ltac:(set_solver)) as (_ & Hz). destruct (Hz _ Hcov) as (j & Hj & Hjm & _).
    assert (j = i) as -> by lia. unfold privilege_after. rewrite decide_True by done. cbn. by destruct Hp as (_ & _ & -> & _). }
  intros i. rewrite Hr. case_decide as Hc.
  - destruct Hc as (_ & Hin & Hcov). left. destruct (He e ltac:(set_solver)) as (_ & Hz). destruct (Hz _ Hcov) as (j & Hj & _ & Hmp & Hmb & Hmf).
    assert (j = i) as -> by lia. unfold same_handler, made. cbn. rewrite (copy_of_same s s1 _ Hp), Hmp, copy_of_idem, (live_copy s k i Hlive). done.
  - destruct (Hall i) as [|(e' & He' & Hcov)]; [by left|]. apply elem_of_cons in He' as [-> | He']; [|right; eauto].
    exfalso. apply Hc. destruct (He e ltac:(set_solver)) as (_ & Hz). destruct (Hz _ Hcov) as (j & Hj & [Hin _] & _). assert (j = i) as -> by lia. done.
Qed.
Lemma wp_restore own s1 l :
  I ((e_port <$> l) ++ own) s1 -> to_restore s1 l ->
  wp (restore cur k l) (fun _ s' => I own s' /\ to_restore s' []) s1.
Proof.
  revert s1. induction l as [|e l IH]; intros s1 Hs Hr; cbn [restore]; [by apply wp_ret|]. apply wp_bind.
  eapply wp_mono; [apply (wp_task_set_ports ((e_port <$> l) ++ own)); [exact Hs | | by eapply entry_valid]|].
  - destruct Hr as ((_ & _ & -> & _) & _). done.
  - intros kr s2 (-> & H2 & Hp2 & Hr2). apply IH; [done|]. by eapply restore_step.
Qed.
(** The handlers being the same, so are the rights that they hold. *)
Lemma restored_rights s' own n : I own s' -> to_restore s' [] -> rights n (held s') = rights n (held s).
Proof.
  intros Hs' (_ & Hd & _ & _ & Hall). unfold held. rewrite (held_split n (actions s') (HTask k)), (held_split n (actions s) (HTask k)), Hd. f_equal. f_equal.
  change (port <$> actions_at s' (HTask k) = port <$> actions_at s (HTask k)).
  pose proof (actions_length _ _ s' (HTask k) Hs') as Hl'. pose proof (actions_length _ _ s (HTask k) HI) as Hl.
  apply list_eq. intros i. rewrite !list_lookup_fmap. destruct (Hall i) as [(Hi & _)|(e & He & _)]; [|set_solver]. revert Hi. unfold action_of.
  destruct (actions_at s' (HTask k) !! i) eqn:E', (actions_at s (HTask k) !! i) eqn:E; cbn; try congruence; intros Hi.
  - apply lookup_lt_Some in E'. apply lookup_ge_None in E. lia.
  - apply lookup_lt_Some in E. apply lookup_ge_None in E'. lia.
Qed.
End Restore.

(** C35: The idiom of a debugger: swapping in its own handler for some exceptions of a task and
    setting back what [swap] returned, entry by entry, gives every exception of the task its
    port, behavior and flavor back, and leaves every port with the send rights that it had,
    but the one to the new handler that was handed in.  The exceptions of the mask do not
    get their privilege back: it is that of the caller, which both calls write.  Conditions:
    the old handlers' ports are alive and movable (a dead one comes back as [IP_DEAD]), the
    task is active, the arguments are valid, and the arrays have room for all exceptions. *)
Theorem task_swap_restores own s cur k mask p b f CountCnt :
  I (p :: own) s -> k_ipc_active (xtasks s k) = true -> live_handlers s k -> valid_arguments s mask p b f -> (length exceptions <= CountCnt)%nat ->
  wp (r <- task_swap_exception_ports cur (Some k) mask p b f CountCnt ;; restore cur k (snd r)) (fun _ s' =>
    (forall i, let a := action_of (actions_at s' (HTask k)) i in
       same_handler a (action_of (actions_at s (HTask k)) i) /\ privileged a = privilege_after s cur k mask i) /\
    (forall n, ip_srights (ports s' n) = ip_srights (ports s n) - right n p) /\ I own s') s.
Proof.
  intros Hs Hk Hlive Hv Hc. apply wp_bind. eapply wp_mono; [by apply (wp_task_swap_ports own)|].
  intros r s1 (_ & H1 & Hp1 & [Hr1 Hd1] & Hdesc). eapply wp_mono; [apply (wp_restore s cur k mask Hlive Hk (p :: own) Hs own s1 (snd r) H1)|].
  - split_and!; [done | done | | |].
    + intros e He. split; [by apply (d_some _ _ _ _ Hdesc)|]. intros z Hz. destruct (d_only _ _ _ _ Hdesc e z He Hz) as (i & ? & [? ?] & ?). eauto 6.
    + intros i. rewrite Hr1. unfold privilege_after. repeat case_decide; try done; tauto.
    + intros i. rewrite Hr1. case_decide as Hx; [right | left; done]. destruct Hx as (_ & ? & ?). by apply (d_all _ _ _ _ Hdesc).
  - intros _ s2 [H2 Hr2]. split_and!; [|  | done].
    + intros i a. destruct Hr2 as (_ & _ & _ & Hpriv & Hall). split; [|apply Hpriv]. destruct (Hall i) as [|(e & He & _)]; [done | set_solver].
    + intros n. rewrite (inv_rights _ _ s2 H2 n), (inv_rights _ _ s Hs n), (restored_rights s cur k mask Hlive Hk (p :: own) Hs s2 own n H2 Hr2).
      destruct Hr2 as ((_ & _ & _ & _ & -> & _) & _). cbn. lia.
Qed.

(** ** Where [swap] differs from [set] *)

(** The host's [swap] refuses the handlers with 64-bit codes that [set] takes. *)
Lemma host_swap_refuses_codes s n mask f CountCnt :
  clr mask EXC_MASK_VALID = 0 -> host_swap_exception_ports true mask (IP n) (Z.lor EXCEPTION_DEFAULT MACH_EXCEPTION_CODES) f CountCnt s = Ret (KERN_INVALID_ARGUMENT, []) s.
Proof. intros Hm. unfold host_swap_exception_ports, check_arguments. by rewrite Hm. Qed.
(** Arrays without room: the call succeeds and uses up the right, but sets nothing. *)
Lemma task_swap_without_room own s cur k mask p b f :
  I (p :: own) s -> k_ipc_active (xtasks s k) = true -> valid_arguments s mask p b f ->
  wp (task_swap_exception_ports cur (Some k) mask p b f 0) (fun r s' => r = (KERN_SUCCESS, []) /\ I own s' /\ actions s' = actions s) s.
Proof.
  intros Hs Hk Hv. unfold task_swap_exception_ports, the_task. wp_go. apply wp_checked_valid; [done | wp_go; done |].
  unfold swap_and_release. cbn [exceptions swap_actions seq Nat.sub FIRST_EXCEPTION EXC_TYPES_COUNT]. cbn [length Nat.ltb Nat.leb negb]. wp_go. cbn [snd rev release_all]. wp_go.
  eapply wp_mono; [exact (wp_ipc_port_release_send accepted own s p Hs)|]. intros _ s1 (H1 & _ & Ha). by apply wp_ret.
Qed.

(** ** An example *)

(** Thread 1 of task 5, with ports 1 and 2; port 3 is the kernel's handler, and 4 a
    debugger's, to which there is one right, outside if [out] is 1 and in the caller's
    hands if it is 0. *)
Definition demo_port (n : nat) : ipc_port :=
  mk_port true (if decide (n = 4)%nat then 2 else 1) (if decide (n = 4)%nat then 1 else 0) 0 false false None
    (match n with 1%nat => IKOT_THREAD_CONTROL 1 | 2%nat => IKOT_TASK_CONTROL 5 | _ => IKOT_NONE end).
Definition demo (sigexc : bool) (out : Z) : xst :=
  mk_xst demo_port ∅ (fun t => mk_xthread true true false 5 (if decide (t = 1)%nat then IP 1 else IP_NULL) false [0] 0 false 0)
    (fun k => mk_xtask true sigexc (if decide (k = 5)%nat then IP 2 else IP_NULL) false) (IP 3)
    (fun n => if decide (n = 4)%nat then out else 0) (fun _ => 1) [].
Lemma demo_inv B own sigexc out : 0 <= out -> (forall n, rights n own + (if decide (n = 4)%nat then out else 0) = if decide (n = 4)%nat then 1 else 0) -> Inv B own (demo sigexc out).
Proof.
  intros Hout Hown. split.
  - intros n. change (held (demo sigexc out)) with (@nil ipc_port_t). cbn. rewrite <- Hown. done.
  - intros n. cbn. case_decide; done.
  - intros n. cbn. case_decide; lia.
  - intros h l Hl. by apply (lookup_empty_Some h l) in Hl.
  - intros h i. cbv zeta. change (actions_at (demo sigexc out) h) with no_actions. unfold no_actions, action_of.
    destruct (replicate EXC_TYPES_COUNT no_action !! i) as [a|] eqn:E; [apply lookup_replicate in E as [-> _] |]; (split; [done | by left]).
  - intros t n t'. cbn. case_decide; [|done]. intros [= <-]. cbn. congruence.
  - done.
Qed.
Lemma demo_held B sigexc : Inv B [IP 4] (demo sigexc 0).
Proof. apply demo_inv; [done|]. intros n. cbn. unfold right. repeat case_decide; congruence || lia. Qed.
Lemma demo_live sigexc out : live_handlers (demo sigexc out) 5.
Proof.
  intros i n. change (actions_at (demo sigexc out) (HTask 5)) with no_actions. unfold no_actions, action_of.
  destruct (replicate EXC_TYPES_COUNT no_action !! i) as [a|] eqn:E; cbn; [apply lookup_replicate in E as [-> _] | ]; done.
Qed.
Lemma demo_valid sigexc out b : accepted (clr b MACH_EXCEPTION_MASK) -> valid_arguments (demo sigexc out) 0x42 (IP 4) b 0.
Proof. intros Hb. split_and!; [done | done | by intros n [= <-] | by left]. Qed.
(** Setting a handler of two exceptions of the task. *)
Lemma exception_calls_account_witness :
  wp (xrun (SetTask 5 (Some 5%nat) 0x42 (IP 4) 1 0)) (fun r s' => account (SetTask 5 (Some 5%nat) 0x42 (IP 4) 1 0) [] r (demo false 0) s') (demo false 0).
Proof. apply (exception_calls_account (SetTask 5 (Some 5%nat) 0x42 (IP 4) 1 0) [] (demo false 0)). apply demo_held. Defined.
(** Swapping it in and restoring. *)
Lemma task_swap_restores_witness :
  wp (r <- task_swap_exception_ports 5 (Some 5%nat) 0x42 (IP 4) 1 0 13 ;; restore 5 5 (snd r)) (fun _ s' =>
    (forall i, let a := action_of (actions_at s' (HTask 5)) i in
       same_handler a (action_of (actions_at (demo false 0) (HTask 5)) i) /\ privileged a = privilege_after (demo false 0) 5 5 0x42 i) /\
    (forall n, ip_srights (ports s' n) = ip_srights (ports (demo false 0) n) - right n (IP 4)) /\ I [] s') (demo false 0).
Proof.
  apply (task_swap_restores [] (demo false 0) 5 5 0x42 (IP 4) 1 0 13);
    [apply demo_held | reflexivity | apply demo_live | by apply demo_valid | cbn; lia].
Defined.
End ExceptionsCalls.
