(* ===== verification/Signals.v ===== *)
(** * The delivery of exceptions and signals

    [exception_deliver], [exception_triage_thread] and [bsd_exception] of [exception.c],
    the kernel's own server [ux_handler.c], and the way of a signal of a client process
    through them: [Sigprocess] and [PtraceThupdate] of [src/call.cpp], [Thread::processSignal]
    of [src/thread.cpp], [dtape_thread_process_signal], [handle_ux_exception] and
    [ux_exception] of [duct-tape/src/thread.c].  The messages to exception servers outside
    the kernel, and what other threads do while a thread is suspended, are an instance of
    [World]. *)
From S2P Require Import Prelude Exceptions.
Export Exceptions.

Module Signals.

(** ** Constants *)
Definition EXC_BAD_ACCESS : nat := 1.
Definition EXC_BAD_INSTRUCTION : nat := 2.
Definition EXC_ARITHMETIC : nat := 3.
Definition EXC_SOFTWARE : nat := 5.
Definition EXC_BREAKPOINT : nat := 6.
Definition EXC_CRASH : nat := 10.
Definition EXC_UNIX_BAD_SYSCALL : Z := 0x10000.
Definition EXC_UNIX_BAD_PIPE : Z := 0x10001.
Definition EXC_UNIX_ABORT : Z := 0x10002.
Definition EXC_SOFT_SIGNAL : Z := 0x10003.
Definition EXC_I386_INVOP : Z := 1.
Definition EXC_I386_SGL : Z := 1.
Definition EXC_I386_BPT : Z := 2.
Definition EXC_I386_ALIGNFLT : Z := 17.
Definition LINUX_SI_USER : Z := 0.
Definition LINUX_SI_KERNEL : Z := 0x80.
Definition LINUX_SIGILL : Z := 4.
Definition LINUX_SIGTRAP : Z := 5.
Definition LINUX_SIGBUS : Z := 7.
Definition LINUX_SIGFPE : Z := 8.
Definition LINUX_SIGSEGV : Z := 11.
Definition SIGILL : Z := 4.
Definition SIGTRAP : Z := 5.
Definition SIGABRT : Z := 6.
Definition SIGFPE : Z := 8.
Definition SIGKILL : Z := 9.
Definition SIGBUS : Z := 10.
Definition SIGSEGV : Z := 11.
Definition SIGSYS : Z := 12.
Definition SIGPIPE : Z := 13.
Definition ESRCH : Z := 3.
Definition THREAD_WAITING : Z := -1.
Definition THREAD_INTERRUPTED : Z := 2.

(** ** Pending signals *)

Definition pendingSignal (t : nat) : MX Z := gets (fun s => default 0 (head (x_interrupts (xthreads s t)))).
(** Nothing catches the exception that is thrown when there is no interrupt. *)
Definition setPendingSignal (t : nat) (signal : Z) : MX Z :=
  x <- the_thread t ;;
  match x_interrupts x with
  | [] => panic "Can't set pending signal with no active interrupts"
  | old :: rest => xthread_mod t (fun x => x <| x_interrupts := signal :: rest |>) ;;; ret old
  end.

(** ** The kernel's exception server *)

Definition ux_exception (exception : nat) (code : Z) : Z :=
  if decide (exception = EXC_BAD_ACCESS) then (if code =? KERN_INVALID_ADDRESS then SIGSEGV else SIGBUS)
  else if decide (exception = EXC_BAD_INSTRUCTION) then SIGILL
  else if decide (exception = EXC_ARITHMETIC) then SIGFPE
  else if decide (exception = EXC_SOFTWARE) then
    if code =? EXC_UNIX_BAD_SYSCALL then SIGSYS
    else if code =? EXC_UNIX_BAD_PIPE then SIGPIPE
    else if code =? EXC_UNIX_ABORT then SIGABRT
    else if code =? EXC_SOFT_SIGNAL then SIGKILL
    else 0
  else if decide (exception = EXC_BREAKPOINT) then SIGTRAP
  else 0.
Definition handle_ux_exception (t : nat) (exception : nat) (code : Z) : MX Z :=
  let ux_signal := ux_exception exception code in
  x <- the_thread t ;;
  if x_processing_signal x then setPendingSignal t ux_signal ;;; ret KERN_SUCCESS
  else panic "handle_ux_exception(): TODO: introduce signal into thread".
(** [cur] is the current task; the references to the thread and the task are not modelled. *)
Definition catch_mach_exception_raise (cur : nat) (exception_port thread_port task_port : ipc_port_t) (exception : nat) (code : Z * Z) : MX Z :=
  ux <- gets ux_handler_port ;;
  if bool_decide (exception_port <> ux) then ret KERN_FAILURE
  else
    target_thread <- convert_port_to_thread true cur thread_port ;;
    kr <- match target_thread with
          | None => ret KERN_INVALID_ARGUMENT
          | Some t =>
              target_task <- convert_port_to_task true cur task_port ;;
              match target_task with None => ret KERN_INVALID_ARGUMENT | Some _ => handle_ux_exception t exception (fst code) end
          end ;;
    if kr =? KERN_SUCCESS then ipc_port_release_send thread_port ;;; ipc_port_release_send task_port ;;; ret kr
    else ret kr.
(** The codes that come with a message of 32-bit codes are widened. *)
Definition catch_exception_raise (cur : nat) (exception_port thread_port task_port : ipc_port_t) (exception : nat) (code : Z * Z) : MX Z :=
  ux <- gets ux_handler_port ;;
  if bool_decide (exception_port <> ux) then ret KERN_FAILURE
  else catch_mach_exception_raise cur exception_port thread_port task_port exception code.

(** ** Raising exceptions *)

(** What is outside this code: the server behind a port, told whether the codes are
    64-bit ones, and what the other threads do while a thread is suspended, until it is
    resumed; [None] if nobody resumes it any more. *)
Class World := {
  serve : nat -> bool -> ipc_port_t -> ipc_port_t -> nat -> Z * Z -> xst -> Z * xst;
  while_asleep : nat -> xst -> option xst;
}.

Section WithWorld.
Context `{World}.

(** [mach_exception_raise] and [exception_raise].  The kernel serves a message to its own
    port itself ([ipc_kobject_server]): the rights are copied into the message, the one to
    the port that it is sent to is released after the call, and if that fails, those to the
    thread and the task are destroyed with the request. *)
Definition exception_raise (code64 : bool) (cur exc_port : nat) (thread_port task_port : ipc_port_t) (exception : nat) (code : Z * Z) : MX Z :=
  ux <- gets ux_handler_port ;;
  if bool_decide (IP exc_port = ux) then
    ipc_object_copyin_from_kernel (IP exc_port) ;;;
    ipc_object_copyin_from_kernel thread_port ;;;
    ipc_object_copyin_from_kernel task_port ;;;
    kr <- (if code64 then catch_mach_exception_raise else catch_exception_raise) cur (IP exc_port) thread_port task_port exception code ;;
    ipc_port_release_send (IP exc_port) ;;;
    (if kr =? KERN_SUCCESS then ret tt else ipc_port_release_send thread_port ;;; ipc_port_release_send task_port) ;;;
    ret kr
  else fun s => let r := serve exc_port code64 thread_port task_port exception code s in Ret (fst r) (snd r).

(** [dtape_stub_unsafe()]: the server is aborted, so no message with a state is ever sent. *)
Definition thread_getstatus_to_user (t : nat) (flavor : Z) : MX Z := panic "thread_getstatus_to_user".
(** [cur] is the current task. *)
Definition exception_deliver (cur t : nat) (exception : nat) (code : Z * Z) (h : holder) : MX Z :=
  x <- the_thread t ;;
  if negb (x_active x) && negb (x_inspection x) then ret KERN_SUCCESS
  else
    excp <- the_actions h ;;
    match excp with
    | None => ret KERN_FAILURE
    | Some excp =>
        if (EXC_TYPES_COUNT <=? exception)%nat then ret KERN_FAILURE
        else
          let a := action_of excp exception in
          match port a with
          | IP exc_port =>
              p <- the_port exc_port ;;
              if negb (ip_active p) then ret KERN_FAILURE
              else
                port_mod exc_port right_add ;;;
                let code64 := has (behavior a) MACH_EXCEPTION_CODES in
                let b := clr (behavior a) MACH_EXCEPTION_MASK in
                let small_code := (s32 (fst code), s32 (snd code)) in
                task_port <- (if b =? EXCEPTION_STATE then ret IP_NULL else convert_task_to_port (x_task x)) ;;
                thread_port <- (if b =? EXCEPTION_STATE then ret IP_NULL else convert_thread_to_port t) ;;
                kr <- (if (b =? EXCEPTION_STATE) || (b =? EXCEPTION_STATE_IDENTITY) then thread_getstatus_to_user t (flavor a)
                       else if b =? EXCEPTION_DEFAULT then
                         exception_raise code64 cur exc_port thread_port task_port exception (if code64 then code else small_code)
                       else panic "bad exception behavior!") ;;
                ipc_port_release_send task_port ;;;
                ipc_port_release_send thread_port ;;;
                ipc_port_release_send (IP exc_port) ;;;
                ret kr
          | _ => ret KERN_FAILURE
          end
    end.
(** The port that would get an [EXC_CRASH] is not one of the current task's. *)
Definition check_exc_receiver_dependency (cur : nat) (exception : nat) (h : holder) : MX bool :=
  excp <- the_actions h ;;
  match excp with
  | None => ret true
  | Some excp =>
      if decide (exception = EXC_CRASH) then
        gets (fun s => match port (action_of excp exception) with
          | IP n => negb (ip_active (ports s n) && bool_decide (ip_receiver (ports s n) = Some cur))
          | _ => true
          end)
      else ret true
  end.
(** The levels that are left, and the result so far. *)
Fixpoint triage_levels (cur t : nat) (exception : nat) (code : Z * Z) (levels : list holder) (kr : Z) : MX Z :=
  match levels with
  | [] => ret kr
  | h :: levels =>
      ok <- check_exc_receiver_dependency cur exception h ;;
      if (ok : bool) then
        kr <- exception_deliver cur t exception code h ;;
        if (kr =? KERN_SUCCESS) || (kr =? MACH_RCV_PORT_DIED) then ret kr
        else triage_levels cur t exception code levels kr
      else triage_levels cur t exception code levels kr
  end.
(** [panic_on_exception_triage] is off. *)
Definition exception_triage_thread (cur : nat) (exception : nat) (code : Z * Z) (t : nat) : MX Z :=
  x <- the_thread t ;; triage_levels cur t exception code [HThread t; HTask (x_task x); HHost] KERN_FAILURE.
(** [self] is the current thread. *)
Definition bsd_exception (self : nat) (exception : nat) (code : Z * Z) : MX Z :=
  x <- the_thread self ;;
  kr <- exception_deliver (x_task x) self exception code (HTask (x_task x)) ;;
  ret (if (kr =? KERN_SUCCESS) || (kr =? MACH_RCV_PORT_DIED) then KERN_SUCCESS else KERN_FAILURE).

(** ** Signals of a process *)

(** A signal that is not an exception of the processor. *)
Definition process_soft_signal (t : nat) (bsd_signal_number : Z) : MX unit :=
  x <- the_thread t ;;
  k <- the_task (x_task x) ;;
  if k_has_sigexc k then bsd_exception t EXC_SOFTWARE (EXC_SOFT_SIGNAL, bsd_signal_number) ;;; ret tt
  else setPendingSignal t bsd_signal_number ;;; ret tt.
(** The exception of a processor's signal and its codes. *)
Definition mach_exception_of (linux_signal_number code signal_address : Z) : option (nat * (Z * Z)) :=
  if linux_signal_number =? LINUX_SIGSEGV then Some (EXC_BAD_ACCESS, (KERN_INVALID_ADDRESS, signal_address))
  else if linux_signal_number =? LINUX_SIGBUS then Some (EXC_BAD_ACCESS, (EXC_I386_ALIGNFLT, 0))
  else if linux_signal_number =? LINUX_SIGILL then Some (EXC_BAD_INSTRUCTION, (EXC_I386_INVOP, 0))
  else if linux_signal_number =? LINUX_SIGFPE then Some (EXC_ARITHMETIC, (code, 0))
  else if linux_signal_number =? LINUX_SIGTRAP then Some (EXC_BREAKPOINT, (if code =? LINUX_SI_KERNEL then EXC_I386_BPT else EXC_I386_SGL, 0))
  else None.
(** The thread is the current one. *)
Definition raise_signal (t : nat) (bsd_signal_number linux_signal_number code signal_address : Z) : MX unit :=
  if code =? LINUX_SI_USER then process_soft_signal t bsd_signal_number
  else match mach_exception_of linux_signal_number code signal_address with
       | Some (mach_exception, codes) =>
           x <- the_thread t ;; exception_triage_thread (x_task x) mach_exception codes t ;;; ret tt
       | None => process_soft_signal t bsd_signal_number
       end.
Definition dtape_thread_process_signal (t : nat) (bsd_signal_number linux_signal_number code signal_address : Z) : MX unit :=
  xthread_mod t (fun x => x <| x_processing_signal := true |>) ;;;
  raise_signal t bsd_signal_number linux_signal_number code signal_address ;;;
  xthread_mod t (fun x => x <| x_processing_signal := false |>).
(** The hook [thread_suspend]. *)
Definition thread_suspend (t : nat) : MX unit := fun s => match while_asleep t s with Some s' => Ret tt s' | None => Hang end.
(** [dtape_thread_wait_while_user_suspended], for the current thread.  [waiting_suspended]
    is written under a mutex and announced by a condition variable, which [Locks] covers. *)
Fixpoint dtape_thread_wait_while_user_suspended (fuel t : nat) : MX unit :=
  match fuel with
  | O => hang
  | S fuel =>
      x <- the_thread t ;;
      if x_suspend_count x >? 0 then
        xthread_mod t (fun x => x <| x_waiting_suspended := true |>) ;;;
        xthread_mod t (fun x => x <| x_wait_result := THREAD_WAITING |>) ;;;
        thread_suspend t ;;;
        xthread_mod t (fun x => x <| x_waiting_suspended := false |>) ;;;
        x <- the_thread t ;;
        if x_wait_result x =? THREAD_INTERRUPTED then ret tt else dtape_thread_wait_while_user_suspended fuel t
      else ret tt
  end.
(** [processSignal] after the registers are read, until the signal is dealt with. *)
Definition signal_raised (t : nat) (bsdSignalNumber linuxSignalNumber code signalAddress : Z) : MX unit :=
  x <- the_thread t ;;
  match x_interrupts x with
  | [] => panic "top of an empty stack"
  | _ :: rest =>
      xthread_mod t (fun x => x <| x_interrupts := 0 :: rest |>) ;;;
      dtape_thread_process_signal t bsdSignalNumber linuxSignalNumber code signalAddress
  end.
(** [load] and [save] are the results of copying the thread's registers; [Some e] is the
    error thrown. *)
Definition processSignal (fuel t : nat) (bsdSignalNumber linuxSignalNumber code signalAddress load save : Z) : MX (option Z) :=
  if negb (load =? 0) then ret (Some (- load))
  else
    signal_raised t bsdSignalNumber linuxSignalNumber code signalAddress ;;;
    dtape_thread_wait_while_user_suspended fuel t ;;;
    ret (if save =? 0 then None else Some (- save)).
(** The reply's code and the signal the client goes on with. *)
Definition Sigprocess (fuel : nat) (thread : option nat) (bsd_signal_number linux_signal_number code signal_address load save : Z) : MX (Z * Z) :=
  match thread with
  | None => ret (- ESRCH, 0)
  | Some t =>
      e <- processSignal fuel t bsd_signal_number linux_signal_number code signal_address load save ;;
      match e with
      | Some e => ret (- e, 0)
      | None => newBSDSignal <- pendingSignal t ;; ret (0, newBSDSignal)
      end
  end.
Definition PtraceThupdate (target : option nat) (signum : Z) : MX Z :=
  match target with None => ret ESRCH | Some t => setPendingSignal t signum ;;; ret 0 end.
Definition dtape_task_set_sigexc_enabled (k : nat) (enabled : bool) : MX unit :=
  modify (fun s => s <| xtasks ::= fun l => upd l k (mk_xtask (k_ipc_active (l k)) enabled (k_kport (l k)) (k_root (l k))) |>).
End WithWorld.
End Signals.
