(* ===== verification/SignalsProps.v ===== *)
(** * Signals and exceptions: what is kept, and which signal comes back *)
From S2P Require Import Prelude Exceptions ExceptionsProps Signals.
Export Exceptions ExceptionsProps Signals.

Module SignalsProps.

(** Handlers that take no state: the others stop the server. *)
Definition plain (b : Z) : Prop := b = EXCEPTION_DEFAULT.
Abbreviation J := (Inv plain).

(** ** States in which only rights and one thread's pending signal change *)
Definition quiet (s s' : xst) (T : nat -> xthread) : Prop :=
  (forall n, same_port (ports s' n) (ports s n)) /\ xthreads s' = T /\ xtasks s' = xtasks s /\ ux_handler_port s' = ux_handler_port s /\ actions s' = actions s.
Lemma quiet_rights s s' : rights_only s s' -> quiet s s' (xthreads s).
Proof. intros ((? & ? & ? & ? & _) & ?). done. Qed.
Lemma quiet_refl s : quiet s s (xthreads s).
Proof. apply quiet_rights, rights_only_refl. Qed.
Lemma same_port_trans x y z : same_port x y -> same_port y z -> same_port x z.
Proof. intros (?&?&?&?) (?&?&?&?). repeat split; congruence. Qed.
Lemma quiet_trans s s1 s2 T1 T2 : quiet s s1 T1 -> quiet s1 s2 T2 -> quiet s s2 T2.
Proof.
  intros (Hp & _ & ? & ? & ?) (Hp2 & ? & ? & ? & ?). split_and!; try congruence. intros n. eapply same_port_trans; [apply Hp2 | apply Hp].
Qed.
Lemma quiet_after s s1 s2 T : quiet s s1 T -> rights_only s1 s2 -> quiet s s2 T.
Proof. intros H1 H2. assert (xthreads s1 = T) as <- by apply H1. eapply quiet_trans; [exact H1 | by apply quiet_rights]. Qed.
Lemma quiet_thread_port s s' eval cur p : quiet s s' (xthreads s) -> thread_of_port eval cur p s' = thread_of_port eval cur p s.
Proof. intros (Hp & Ht & _). destruct p as [| |n]; try done. cbn. by destruct (Hp n) as (-> & _ & _ & ->); rewrite Ht. Qed.
Lemma quiet_task_port s s' eval cur p : quiet s s' (xthreads s) -> task_of_port eval cur p s' = task_of_port eval cur p s.
Proof. intros (Hp & _). destruct p as [| |n]; try done. cbn. by destruct (Hp n) as (-> & _ & _ & ->). Qed.

(** ** The pending signal *)

Definition with_signal (x : xthread) (signal : Z) : xthread := x <| x_interrupts := signal :: tail (x_interrupts x) |>.
Lemma wp_setPendingSignal own s t signal :
  J own s -> x_interrupts (xthreads s t) <> [] ->
  wp (setPendingSignal t signal) (fun _ s' => J own s' /\ quiet s s' (upd (xthreads s) t (with_signal (xthreads s t) signal))) s.
Proof.
  intros Hs Ht. unfold setPendingSignal, the_thread, xthread_mod. wp_go. destruct (x_interrupts (xthreads s t)) as [|old rest] eqn:E; [done|]. wp_go. split.
  - destruct Hs. split; try done; cbn.
    + intros t' n t2. unfold upd. case_decide; [subst; apply inv_kobject0 | apply inv_kobject0].
    + intros t'. unfold upd. case_decide; [done | apply inv_signal0].
  - split_and!; try done. cbn. unfold with_signal. by rewrite E.
Qed.

(** ** The kernel's server *)

(** The message reaches a thread and a task. *)
Definition converts (s : xst) (cur : nat) (tp kp : ipc_port_t) (t : nat) : bool :=
  bool_decide (thread_of_port true cur tp s = Some t) && match task_of_port true cur kp s with Some _ => true | None => false end.
(** A thread's port stands for it. *)
Definition port_of_thread (s : xst) (t : nat) (tp : ipc_port_t) : Prop := forall n, tp = IP n -> x_kport (xthreads s t) = IP n.
Lemma port_of_thread_self own s t tp eval cur t' : J own s -> port_of_thread s t tp -> thread_of_port eval cur tp s = Some t' -> t' = t.
Proof.
  intros Hs Hp. destruct tp as [| |n]; cbn; try done. destruct (ip_active (ports s n)), (ip_kobject (ports s n)) eqn:Ek; try done.
  case_bool; [|done]. intros [= <-]. by eapply (inv_kobject _ _ s Hs t n), Ek; apply Hp.
Qed.
Definition threads_after (s : xst) (done : bool) (t exception : nat) (code : Z * Z) : nat -> xthread :=
  if done then upd (xthreads s) t (with_signal (xthreads s t) (ux_exception exception (fst code))) else xthreads s.
Lemma wp_catch own s cur exc tp kp t exception code :
  J (tp :: kp :: own) s -> ux_handler_port s = exc -> port_of_thread s t tp -> x_processing_signal (xthreads s t) = true ->
  wp (catch_mach_exception_raise cur exc tp kp exception code) (fun kr s' =>
    kr = (if converts s cur tp kp t then KERN_SUCCESS else KERN_INVALID_ARGUMENT) /\
    J ((if converts s cur tp kp t then [] else [tp; kp]) ++ own) s' /\
    quiet s s' (threads_after s (converts s cur tp kp t) t exception code)) s.
Proof.
  intros Hs Hu Ht Hproc. unfold catch_mach_exception_raise, convert_port_to_thread, convert_port_to_task. wp_go.
  rewrite Hu, bool_decide_eq_false_2 by (intros Hn; by apply Hn). wp_go. unfold converts.
  destruct (thread_of_port true cur tp s) as [t'|] eqn:Et.
  2:{ rewrite bool_decide_eq_false_2 by done. cbn. wp_go. split_and!; [done | done | apply quiet_refl]. }
  assert (t' = t) as -> by by eapply port_of_thread_self. rewrite bool_decide_eq_true_2 by done. wp_go.
  destruct (task_of_port true cur kp s) as [k'|]; cbn [andb].
  2:{ wp_go. split_and!; [done | done | apply quiet_refl]. }
  unfold handle_ux_exception, the_thread. wp_go. rewrite Hproc. apply wp_bind.
  eapply wp_mono; [apply (wp_setPendingSignal _ s t _ Hs); by apply (inv_signal _ _ s Hs)|]. intros _ s1 (H1 & Hq1). wp_go. cbn [Z.eqb KERN_SUCCESS]. apply wp_bind.
  eapply wp_mono; [exact (wp_ipc_port_release_send plain _ s1 tp H1)|]. intros _ s2 (H2 & Hr2). wp_go.
  eapply wp_mono; [exact (wp_ipc_port_release_send plain _ s2 kp H2)|]. intros _ s3 (H3 & Hr3). wp_go. split_and!; [done | done |].
  eapply quiet_after; [|exact Hr3]. by eapply quiet_after.
Qed.

(** ** Delivery *)

Definition thread_port_of (s : xst) (t : nat) : ipc_port_t := if x_ipc_active (xthreads s t) then copy_of s (x_kport (xthreads s t)) else IP_NULL.
Definition task_port_of (s : xst) (k : nat) : ipc_port_t := if k_ipc_active (xtasks s k) then copy_of s (k_kport (xtasks s k)) else IP_NULL.
Lemma wp_convert_thread_to_port own s t : J own s -> wp (convert_thread_to_port t) (fun p s' => J (p :: own) s' /\ rights_only s s' /\ p = thread_port_of s t) s.
Proof.
  intros Hs. unfold convert_thread_to_port, thread_port_of, the_thread. wp_go. destruct (x_ipc_active (xthreads s t)); [by apply wp_ipc_port_make_send|].
  apply wp_ret. split_and!; [by eapply Inv_perm | auto with dt | done].
Qed.
Lemma wp_convert_task_to_port own s k : J own s -> wp (convert_task_to_port k) (fun p s' => J (p :: own) s' /\ rights_only s s' /\ p = task_port_of s k) s.
Proof.
  intros Hs. unfold convert_task_to_port, task_port_of, the_task. wp_go. destruct (k_ipc_active (xtasks s k)); [by apply wp_ipc_port_make_send|].
  apply wp_ret. split_and!; [by eapply Inv_perm | auto with dt | done].
Qed.
Lemma rights_same_ports s s' : rights_only s s' -> same_ports s s'.
Proof. by intros [? _]. Qed.
Lemma thread_port_same s s' t : rights_only s s' -> thread_port_of s' t = thread_port_of s t.
Proof. intros Hr. unfold thread_port_of. pose proof (copy_of_same s s' (x_kport (xthreads s t)) (rights_same_ports _ _ Hr)). destruct Hr as [(_ & -> & _) _]. by destruct (x_ipc_active _). Qed.
Lemma thread_port_is s t : port_of_thread s t (thread_port_of s t).
Proof. intros n. unfold thread_port_of. destruct (x_ipc_active _); [|done]. destruct (x_kport (xthreads s t)); cbn; try done. by destruct (ip_active _). Qed.

Section Delivery.
Context `{W : World}.

(** The rights that are taken for the message are given back, whatever the server says. *)
Lemma wp_deliver own s cur t exception code h n b Q :
  J own s -> x_active (xthreads s t) || x_inspection (xthreads s t) = true -> (exception < EXC_TYPES_COUNT)%nat ->
  (forall t', h = HThread t' -> actions s !! h <> None) ->
  port (action_of (actions_at s h) exception) = IP n -> ip_active (ports s n) = true -> behavior (action_of (actions_at s h) exception) = b ->
  (forall s1, let tp := thread_port_of s t in let kp := task_port_of s (x_task (xthreads s t)) in
    J (tp :: kp :: IP n :: own) s1 -> rights_only s s1 ->
    let code64 := has b MACH_EXCEPTION_CODES in
    wp (exception_raise code64 cur n tp kp exception (if code64 then code else (s32 (fst code), s32 (snd code))))
      (fun kr s2 => J (tp :: kp :: IP n :: own) s2 /\ forall s3, rights_only s2 s3 -> J own s3 -> Q kr s3) s1) ->
  wp (exception_deliver cur t exception code h) Q s.
Proof.
  intros Hs Ha He Hh Hp Hn Hb HQ. unfold exception_deliver, the_thread, the_actions, the_port. wp_go. rewrite <- negb_orb, Ha. cbn [negb]. wp_go.
  assert (Hact : (match h with HThread _ => actions s !! h | _ => Some (actions_at s h) end) = Some (actions_at s h)).
  { destruct h as [t'| |]; try done. unfold actions_at. specialize (Hh t' eq_refl). by destruct (actions s !! HThread t'). }
  rewrite Hact. apply Nat.leb_gt in He. rewrite He, Hp, Hb. wp_go. rewrite Hn. cbn [negb].
  assert (clr b MACH_EXCEPTION_MASK = EXCEPTION_DEFAULT) as ->.
  { rewrite <- Hb. apply (inv_behavior _ _ s Hs h exception). by rewrite Hp. }
  change (EXCEPTION_DEFAULT =? EXCEPTION_STATE) with false. change (EXCEPTION_DEFAULT =? EXCEPTION_STATE_IDENTITY) with false. cbn [orb Z.eqb EXCEPTION_DEFAULT Pos.eqb].
  apply wp_bind. eapply wp_mono; [exact (wp_right_add plain own s n Hs)|]. intros _ s1 (H1 & Hr1).
  apply wp_bind. eapply wp_mono; [exact (wp_convert_task_to_port _ s1 _ H1)|]. intros kp s2 (H2 & Hr2 & Hkp).
  apply wp_bind. eapply wp_mono; [exact (wp_convert_thread_to_port _ s2 t H2)|]. intros tp s3 (H3 & Hr3 & Htp).
  assert (Hr12 : rights_only s s2) by by eapply rights_only_trans. rewrite (thread_port_same s s2 t Hr12) in Htp.
  assert (Hkp' : kp = task_port_of s (x_task (xthreads s t))).
  { rewrite Hkp. unfold task_port_of. rewrite (copy_of_same s s1 _ (rights_same_ports _ _ Hr1)). by destruct Hr1 as [(_ & _ & -> & _) _]. }
  subst tp. rewrite Hkp' in H3 |- *. apply wp_bind. eapply wp_mono; [apply (HQ s3 H3); by eapply rights_only_trans|]. clear HQ.
  intros kr s4 (H4 & HQ). cbv zeta. apply wp_bind. eapply wp_mono; [apply (wp_ipc_port_release_send plain (thread_port_of s t :: IP n :: own)); eapply Inv_perm; [exact H4|]; intros m; cbn; lia|].
  intros _ s5 (H5 & Hr5). apply wp_bind. eapply wp_mono; [exact (wp_ipc_port_release_send plain _ s5 _ H5)|].
  intros _ s6 (H6 & Hr6). apply wp_bind. eapply wp_mono; [exact (wp_ipc_port_release_send plain _ s6 _ H6)|].
  intros _ s7 (H7 & Hr7). apply wp_ret. apply HQ; [|done]. eapply rights_only_trans; [exact Hr5|]. by eapply rights_only_trans.
Qed.

(** ... and the kernel's own server takes nothing. *)
Lemma wp_ux_raise own s cur code64 n tp kp t exception code :
  J own s -> ux_handler_port s = IP n -> port_of_thread s t tp -> x_processing_signal (xthreads s t) = true ->
  wp (exception_raise code64 cur n tp kp exception code) (fun kr s' =>
    kr = (if converts s cur tp kp t then KERN_SUCCESS else KERN_INVALID_ARGUMENT) /\ J own s' /\
    quiet s s' (threads_after s (converts s cur tp kp t) t exception code)) s.
Proof.
  intros Hs Hu Ht Hproc. unfold exception_raise. wp_go. rewrite bool_decide_eq_true_2 by done. apply wp_bind.
  eapply wp_mono; [exact (wp_ipc_object_copyin plain own s _ Hs)|]. intros _ s1 (H1 & Hr1). apply wp_bind.
  eapply wp_mono; [exact (wp_ipc_object_copyin plain _ s1 tp H1)|]. intros _ s2 (H2 & Hr2). apply wp_bind.
  eapply wp_mono; [exact (wp_ipc_object_copyin plain _ s2 kp H2)|]. intros _ s3 (H3 & Hr3).
  assert (Hr : rights_only s s3) by (eapply rights_only_trans; [exact Hr1|]; by eapply rights_only_trans).
  assert (Hx : xthreads s3 = xthreads s) by apply Hr. assert (Hu3 : ux_handler_port s3 = IP n) by (rewrite <- Hu; apply Hr).
  assert (Hc : converts s3 cur tp kp t = converts s cur tp kp t).
  { unfold converts. by rewrite (quiet_thread_port s s3), (quiet_task_port s s3) by by apply quiet_rights. }
  assert (H3' : J (tp :: kp :: IP n :: own) s3) by (eapply Inv_perm; [exact H3|]; intros m; cbn; lia).
  apply wp_bind. assert (Hw : wp ((if code64 then catch_mach_exception_raise else catch_exception_raise) cur (IP n) tp kp exception code) (fun kr s' =>
    kr = (if converts s cur tp kp t then KERN_SUCCESS else KERN_INVALID_ARGUMENT) /\ J ((if converts s cur tp kp t then [] else [tp; kp]) ++ IP n :: own) s' /\
    quiet s3 s' (threads_after s (converts s cur tp kp t) t exception code)) s3).
  { pose proof (wp_catch (IP n :: own) s3 cur (IP n) tp kp t exception code H3' Hu3) as Hw. unfold port_of_thread, threads_after in *. rewrite Hx, Hc in Hw.
    specialize (Hw Ht Hproc). destruct code64; [done|]. unfold catch_exception_raise. wp_go. rewrite Hu3, bool_decide_eq_false_2 by (intros Hn; by apply Hn). done. }
  eapply wp_mono; [exact Hw|]. intros kr s4 (-> & H4 & Hq4). apply wp_bind.
  assert (Hq : quiet s s4 (threads_after s (converts s cur tp kp t) t exception code)) by (eapply quiet_trans; [by apply quiet_rights | exact Hq4]).
  eapply wp_mono; [apply (wp_ipc_port_release_send plain ((if converts s cur tp kp t then [] else [tp; kp]) ++ own)); eapply Inv_perm; [exact H4|]|].
  { intros m. cbn. rewrite !rights_app. cbn. lia. }
  intros _ s5 (H5 & Hr5). apply wp_bind. apply (wp_mono _ (fun _ s' => J own s' /\ rights_only s5 s')).
  - destruct (converts s cur tp kp t); cbn [Z.eqb KERN_SUCCESS KERN_INVALID_ARGUMENT]; [apply wp_ret; auto with dt|]. apply wp_bind.
    eapply wp_mono; [exact (wp_ipc_port_release_send plain _ s5 tp H5)|]. intros _ s6 (H6 & Hr6).
    eapply wp_mono; [exact (wp_ipc_port_release_send plain _ s6 kp H6)|]. intros _ s7 (? & ?). split; [done | by eapply rights_only_trans].
  - intros _ s6 (H6 & Hr6). apply wp_ret. split_and!; [done | done|]. eapply quiet_after; [by eapply quiet_after | done].
Qed.
End Delivery.

(** ** Every signal is processed to the end *)

(** What the world outside promises: the servers and the other threads take and give back
    rights through the account, and the servers leave the threads that process a signal to
    it. *)
Class WorldLaws `{World} : Prop := {
  serve_keeps own s n code64 tp kp exception code : J own s -> J own (snd (serve n code64 tp kp exception code s));
  serve_processing s n code64 tp kp exception code t :
    x_processing_signal (xthreads (snd (serve n code64 tp kp exception code s)) t) = x_processing_signal (xthreads s t);
  asleep_keeps own s t s' : J own s -> while_asleep t s = Some s' -> J own s';
}.

Section Keeps.
Context `{W : WorldLaws}.

(** The thread [t] is processing a signal. *)
Definition K (t : nat) (own : list ipc_port_t) (s : xst) : Prop := J own s /\ x_processing_signal (xthreads s t) = true.
Lemma K_rights t own own' s s' : K t own s -> J own' s' -> rights_only s s' -> K t own' s'.
Proof. intros [_ Hp] ? [(_ & Ht & _) _]. split; [done | by rewrite Ht]. Qed.
Lemma wp_exception_raise t own s cur code64 n tp kp exception code :
  K t own s -> port_of_thread s t tp -> wp (exception_raise code64 cur n tp kp exception code) (fun _ s' => K t own s') s.
Proof.
  intros [Hs Hp] Ht. destruct (decide (IP n = ux_handler_port s)) as [Hu|Hu].
  - eapply wp_mono; [by apply (wp_ux_raise own s cur code64 n tp kp t exception code)|]. intros kr s' (_ & ? & _ & Hx & _). split; [done|].
    rewrite Hx. unfold threads_after. destruct (converts _ _ _ _ _); [|done]. by rewrite upd_eq.
  - unfold exception_raise. wp_go. rewrite bool_decide_eq_false_2 by done. unfold wp. split; [by apply serve_keeps | by rewrite serve_processing].
Qed.
(** Where there is nobody to deliver to, nothing happens. *)
Definition undeliverable (s : xst) (exception : nat) (h : holder) : Prop :=
  (exists t, h = HThread t /\ actions s !! h = None) \/ (EXC_TYPES_COUNT <= exception)%nat \/
  match port (action_of (actions_at s h) exception) with IP n => ip_active (ports s n) = false | _ => True end.
Lemma deliver_nowhere s cur t exception code h :
  x_active (xthreads s t) || x_inspection (xthreads s t) = true -> undeliverable s exception h -> exception_deliver cur t exception code h s = Ret KERN_FAILURE s.
Proof.
  intros Ha Hu. unfold exception_deliver, the_thread, the_actions, the_port, bind, gets. rewrite <- negb_orb, Ha. cbn [negb].
  destruct (match h with HThread _ => actions s !! h | _ => Some (actions_at s h) end) as [l|] eqn:El; [|done].
  assert (Hl : actions_at s h = l). { destruct h; try (by injection El). unfold actions_at. by rewrite El. }
  destruct (Nat.leb_spec EXC_TYPES_COUNT exception); [done|]. destruct Hu as [(t' & -> & Hn) | [|Hu]]; [congruence | lia|]. rewrite Hl in Hu.
  destruct (port (action_of l exception)); try done. by rewrite Hu.
Qed.
Lemma wp_exception_deliver t own s cur exception code h :
  K t own s -> wp (exception_deliver cur t exception code h) (fun _ s' => K t own s') s.
Proof.
  intros Hs. destruct (x_active (xthreads s t) || x_inspection (xthreads s t)) eqn:Ha.
  2:{ apply orb_false_iff in Ha as [Ha Hi]. unfold exception_deliver, the_thread. wp_go. rewrite Ha, Hi. by apply wp_ret. }
  assert (Hdec : undeliverable s exception h \/ ((forall t', h = HThread t' -> actions s !! h <> None) /\ (exception < EXC_TYPES_COUNT)%nat /\
    exists n, port (action_of (actions_at s h) exception) = IP n /\ ip_active (ports s n) = true)).
  { unfold undeliverable. destruct (decide (EXC_TYPES_COUNT <= exception)%nat) as [|Hlt]; [by auto|].
    destruct (port (action_of (actions_at s h) exception)) as [| |n] eqn:Ep; [by auto | by auto|]. destruct (ip_active (ports s n)) eqn:En; [|by auto].
    destruct h as [t'| |]; [destruct (actions s !! HThread t') eqn:Et; [|by eauto] | |]; right; (split_and!; [congruence | lia | by eauto]). }
  destruct Hdec as [Hu | (Hh & He & n & Hp & Hn)]; [unfold wp; by rewrite (deliver_nowhere s cur t exception code h Ha Hu)|].
  eapply (wp_deliver own s cur t exception code h n); try done; [apply Hs|]. intros s1 tp kp H1 Hr1 code64.
  eapply wp_mono; [apply (wp_exception_raise t (tp :: kp :: IP n :: own) s1); [exact (K_rights t own _ s s1 Hs H1 Hr1)|]|].
  - unfold tp. rewrite <- (thread_port_same s s1 t Hr1). apply thread_port_is.
  - intros kr s2 Hs2. split; [apply Hs2|]. intros s3 Hr3 H3. exact (K_rights t _ own s2 s3 Hs2 H3 Hr3).
Qed.
Lemma wp_triage_levels t own s cur exception code levels kr :
  K t own s -> wp (triage_levels cur t exception code levels kr) (fun _ s' => K t own s') s.
Proof.
  revert s kr. induction levels as [|h levels IH]; intros s kr Hs; cbn [triage_levels]; [by apply wp_ret|]. apply wp_bind.
  apply (wp_mono _ (fun _ s' => s' = s)).
  - unfold check_exc_receiver_dependency, the_actions. wp_go. destruct (match h with HThread _ => _ | _ => _ end); [|by apply wp_ret].
    destruct (decide _); [by wp_go | by apply wp_ret].
  - intros [] s' ->; [|by apply IH]. apply wp_bind. eapply wp_mono; [by apply wp_exception_deliver|]. intros kr1 s1 H1.
    case_bool; [by apply wp_ret | by apply IH].
Qed.
Lemma wp_process_soft_signal t own s bsd : K t own s -> wp (process_soft_signal t bsd) (fun _ s' => K t own s') s.
Proof.
  intros Hs. unfold process_soft_signal, the_thread, the_task. wp_go. case_bool; apply wp_bind.
  - unfold bsd_exception, the_thread. wp_go. eapply wp_mono; [by apply wp_exception_deliver|]. intros kr s1 H1. wp_go. done.
  - destruct Hs as [Hs Hp]. eapply wp_mono; [apply (wp_setPendingSignal own s t bsd Hs); by apply (inv_signal _ _ s Hs)|].
    intros _ s1 (? & _ & Hx & _). apply wp_ret. split; [done|]. by rewrite Hx, upd_eq.
Qed.
Lemma J_processing own s t b : J own s -> (b = true -> x_interrupts (xthreads s t) <> []) ->
  J own (s <| xthreads ::= fun l => upd l t ((l t) <| x_processing_signal := b |>) |>).
Proof.
  intros [] Hb. split; try done; cbn; [intros t' n t2 | intros t']; unfold upd; case_decide; subst; try done; [apply inv_kobject0 | apply inv_kobject0 | apply inv_signal0].
Qed.
Lemma wp_dtape_thread_process_signal own s t bsd linux code addr :
  J own s -> x_interrupts (xthreads s t) <> [] -> wp (dtape_thread_process_signal t bsd linux code addr) (fun _ s' => J own s') s.
Proof.
  intros Hs Ht. unfold dtape_thread_process_signal, xthread_mod. wp_go. set (s1 := s <| xthreads ::= _ |>).
  assert (H1 : K t own s1) by (split; [by apply J_processing | unfold s1; cbn; by rewrite upd_eq]).
  apply (wp_mono _ (fun _ s' => K t own s')).
  - unfold raise_signal. case_bool; [by apply wp_process_soft_signal|]. destruct (mach_exception_of linux code addr) as [[e codes]|]; [|by apply wp_process_soft_signal].
    unfold the_thread, exception_triage_thread, the_thread. wp_go. eapply wp_mono; [by apply wp_triage_levels|]. intros kr s2 H2. by apply wp_ret.
  - intros _ s2 [H2 _]. wp_go. by apply J_processing.
Qed.
(** ** Waiting to be resumed *)

Definition falls_asleep (t : nat) (s : xst) : xst :=
  s <| xthreads ::= fun l => upd l t ((l t) <| x_waiting_suspended := true |>) |> <| xthreads ::= fun l => upd l t ((l t) <| x_wait_result := THREAD_WAITING |>) |>.
Definition wakes (t : nat) (s : xst) : xst := s <| xthreads ::= fun l => upd l t ((l t) <| x_waiting_suspended := false |>) |>.
(** A thread that is suspended by a user sleeps until it is interrupted, or resumed as often
    as it was suspended; [s'] is the state when it goes on. *)
Inductive resumed (t : nat) : xst -> xst -> Prop :=
| resumed_now s : x_suspend_count (xthreads s t) <= 0 -> resumed t s s
| resumed_interrupted s s1 :
    0 < x_suspend_count (xthreads s t) -> while_asleep t (falls_asleep t s) = Some s1 -> x_wait_result (xthreads s1 t) = THREAD_INTERRUPTED -> resumed t s (wakes t s1)
| resumed_again s s1 s' :
    0 < x_suspend_count (xthreads s t) -> while_asleep t (falls_asleep t s) = Some s1 -> x_wait_result (xthreads s1 t) <> THREAD_INTERRUPTED ->
    resumed t (wakes t s1) s' -> resumed t s s'.
(** One turn of the loop. *)
Lemma wait_turn fuel t s :
  dtape_thread_wait_while_user_suspended (S fuel) t s =
  if x_suspend_count (xthreads s t) >? 0 then
    match while_asleep t (falls_asleep t s) with
    | Some s1 => if x_wait_result (xthreads s1 t) =? THREAD_INTERRUPTED then Ret tt (wakes t s1) else dtape_thread_wait_while_user_suspended fuel t (wakes t s1)
    | None => Hang
    end
  else Ret tt s.
Proof.
  cbn [dtape_thread_wait_while_user_suspended]. unfold the_thread, thread_suspend, xthread_mod, gets, modify, bind, ret. destruct (_ >? 0); [|done].
  fold (falls_asleep t s).
  destruct (while_asleep _ _) as [s1|]; [|done]. fold (wakes t s1). replace (x_wait_result (xthreads (wakes t s1) t)) with (x_wait_result (xthreads s1 t)) by (cbn; by rewrite upd_eq).
  by destruct (_ =? _).
Qed.
Lemma wait_returns t s s' : resumed t s s' <-> exists fuel, dtape_thread_wait_while_user_suspended fuel t s = Ret tt s'.
Proof.
  split.
  - induction 1 as [s Hc|s s1 Hc Hs Hr|s s1 s' Hc Hs Hr Hn [fuel IH]].
    + exists 1%nat. rewrite wait_turn. destruct (Z.gtb_spec (x_suspend_count (xthreads s t)) 0); [lia|done].
    + exists 1%nat. rewrite wait_turn, Hs, Hr. destruct (Z.gtb_spec (x_suspend_count (xthreads s t)) 0); [done|lia].
    + exists (S fuel). rewrite wait_turn, Hs. apply Z.eqb_neq in Hr. rewrite Hr. destruct (Z.gtb_spec (x_suspend_count (xthreads s t)) 0); [done|lia].
  - intros [fuel Hf]. revert s Hf. induction fuel as [|fuel IH]; intros s; [done|]. rewrite wait_turn.
    destruct (Z.gtb_spec (x_suspend_count (xthreads s t)) 0); [|intros [= <-]; apply resumed_now; lia].
    destruct (while_asleep t (falls_asleep t s)) as [s1|] eqn:Es; [|done]. destruct (Z.eqb_spec (x_wait_result (xthreads s1 t)) THREAD_INTERRUPTED) as [Hr|Hr].
    + intros [= <-]. by apply resumed_interrupted.
    + intros Hf. eapply resumed_again; [lia|done|done|by apply IH].
Qed.
(** The marks of a thread that waits are no part of the account. *)
Lemma J_thread own s t f :
  J own s -> (forall x, x_kport (f x) = x_kport x /\ x_processing_signal (f x) = x_processing_signal x /\ x_interrupts (f x) = x_interrupts x) ->
  J own (s <| xthreads ::= fun l => upd l t (f (l t)) |>).
Proof.
  intros [] Hf. destruct (Hf (xthreads s t)) as (Hk & Hp & Hi). split; try done; cbn; [intros t' n t2 | intros t']; unfold upd; (case_decide; [subst t'|]).
  - rewrite Hk. apply inv_kobject0.
  - apply inv_kobject0.
  - rewrite Hp, Hi. apply inv_signal0.
  - apply inv_signal0.
Qed.
Lemma resumed_keeps own t s s' : resumed t s s' -> J own s -> J own s'.
Proof.
  assert (Hasleep : forall s s1, J own s -> while_asleep t (falls_asleep t s) = Some s1 -> J own (wakes t s1)).
  { intros s0 s1 H0 H1. apply (J_thread own s1 t (fun x => x <| x_waiting_suspended := false |>)); [|done]. eapply (asleep_keeps own); [|exact H1]. by do 2 (apply J_thread; [|done]). }
  induction 1 as [s Hc|s s1 Hc Hs Hr|s s1 s' Hc Hs Hr Hn IH]; intros HJ; [done|by eapply Hasleep|]. apply IH. by eapply Hasleep.
Qed.
Lemma wp_signal_raised own s t bsd linux code addr :
  J own s -> x_interrupts (xthreads s t) <> [] -> wp (signal_raised t bsd linux code addr) (fun _ s' => J own s') s.
Proof.
  intros Hs Ht. unfold signal_raised, the_thread, xthread_mod. wp_go. destruct (x_interrupts (xthreads s t)) as [|old rest] eqn:Ei; [done|]. wp_go.
  set (s1 := s <| xthreads ::= _ |>). assert (H1 : J own s1).
  { destruct Hs. split; try done; unfold s1; cbn; [intros t' n t2 | intros t']; unfold upd; case_decide; subst; try done; [apply inv_kobject0 | apply inv_kobject0 | apply inv_signal0]. }
  apply (wp_dtape_thread_process_signal own s1 t); [done | unfold s1; cbn; by rewrite upd_eq].
Qed.
(** The call, by its two parts. *)
Lemma Sigprocess_parts fuel s t bsd linux code addr save s1 :
  signal_raised t bsd linux code addr s = Ret tt s1 ->
  Sigprocess fuel (Some t) bsd linux code addr 0 save s =
  match dtape_thread_wait_while_user_suspended fuel t s1 with
  | Ret _ s2 => Ret (if save =? 0 then (0, default 0 (head (x_interrupts (xthreads s2 t)))) else (save, 0)) s2
  | Panic why => Panic why
  | Hang => Hang
  end.
Proof.
  intros Hr. cbn [Sigprocess]. unfold processSignal, pendingSignal, gets. change (negb (0 =? 0)) with false. cbv iota. unfold bind, ret. rewrite Hr.
  destruct (dtape_thread_wait_while_user_suspended fuel t s1) as [[] s2|why|]; [|done|done]. destruct (save =? 0); [done|]. by rewrite Z.opp_involutive.
Qed.
(** C36: A client's thread that has entered a signal calls [Sigprocess].  Whatever the signal,
    the handlers (of the kind that takes no state of the thread) and what they answer, the
    signal is dealt with to the end: the thread's signal is raised as an exception and the
    account of send rights is kept, by servers and other threads that keep it themselves and
    leave the processing of the signal alone ([WorldLaws]).  From then on the call returns exactly if the thread,
    as often as a user has suspended it, is resumed or interrupted after it went to sleep
    ([dtape_thread_wait_while_user_suspended], whose own comment warns that a resumption just
    before the sleep is lost), and keeps the account.  A call for an unknown thread, or whose
    registers cannot be read, returns its error at once. *)
Theorem signals_processed own s thread bsd linux code addr load save :
  J own s -> (forall t, thread = Some t -> x_interrupts (xthreads s t) <> []) ->
  match thread with
  | None => forall fuel, Sigprocess fuel thread bsd linux code addr load save s = Ret (- ESRCH, 0) s
  | Some t =>
      if load =? 0 then
        exists s1, signal_raised t bsd linux code addr s = Ret tt s1 /\ J own s1 /\
          forall s2, (resumed t s1 s2 <-> exists fuel r, Sigprocess fuel thread bsd linux code addr load save s = Ret r s2) /\ (resumed t s1 s2 -> J own s2)
      else forall fuel, Sigprocess fuel thread bsd linux code addr load save s = Ret (load, 0) s
  end.
Proof.
  intros Hs Ht. destruct thread as [t|]; [|done]. destruct (Z.eqb_spec load 0) as [->|Hl].
  - destruct (proj1 (wp_run _ _ _) (wp_signal_raised own s t bsd linux code addr Hs (Ht t eq_refl))) as ([] & s1 & E & H1). exists s1. split_and!; [done..|]. intros s2.
    split; [|intros Hr; by eapply resumed_keeps]. rewrite wait_returns. split.
    + intros [fuel Hf]. eexists fuel, _. by rewrite (Sigprocess_parts _ _ _ _ _ _ _ _ s1 E), Hf.
    + intros (fuel & r & Hf). exists fuel. rewrite (Sigprocess_parts _ _ _ _ _ _ _ _ s1 E) in Hf. destruct (dtape_thread_wait_while_user_suspended fuel t s1) as [[] s3|why|]; [|done|done]. by injection Hf as _ <-.
  - intros fuel. cbn [Sigprocess]. unfold processSignal, bind, ret. rewrite (proj2 (Z.eqb_neq load 0) Hl). cbn [negb]. by rewrite Z.opp_involutive.
Qed.
End Keeps.
End SignalsProps.
