(* ===== verification/SignalsRuns.v ===== *)
(** * Signals: what the client gets back

    A signal that nobody handles comes back as the same signal; when a debugger asked for
    the signals but has no port for them, they get lost; a handler that asks for the state
    of a thread stops the server. *)
From S2P Require Import Prelude Exceptions ExceptionsProps ExceptionsCalls Signals SignalsProps.
Export Exceptions ExceptionsProps ExceptionsCalls Signals SignalsProps.

Module SignalsRuns.

Section Runs.
Context `{W : World}.

(** ** The kernel's handler *)

(** What [ux_handler_setup] leaves: the host's handler of the exceptions of [ux_mask] is the
    kernel's own port. *)
Definition ux_mask : Z := clr EXC_MASK_ALL EXC_MASK_RPC_ALERT.
Definition ux_installed (s : xst) : Prop :=
  exists u, ux_handler_port s = IP u /\ ip_active (ports s u) = true /\
  forall i, i ∈ exceptions -> in_mask ux_mask i = true ->
    port (action_of (actions_at s HHost) i) = IP u /\ behavior (action_of (actions_at s HHost) i) = Z.lor EXCEPTION_DEFAULT MACH_EXCEPTION_CODES.
Lemma ux_handler_setup_installs own s u :
  Inv plain own s -> ux_handler_port s = IP u -> ip_active (ports s u) = true -> wp ux_handler_setup (fun _ s' => Inv plain own s' /\ ux_installed s') s.
Proof.
  intros Hs Hu Ha. unfold ux_handler_setup. wp_go. rewrite Hu. eapply wp_mono; [exact (wp_ipc_port_make_send plain own s (IP u) Hs)|].
  intros q s1 (H1 & (Hp1 & Ha1) & ->). cbn [copy_of] in *. rewrite Ha in *. cbn [IP_VALID negb]. apply wp_bind.
  set (new := mk_new (IP u) (Z.lor EXCEPTION_DEFAULT MACH_EXCEPTION_CODES) 0 None).
  apply (wp_mono _ (fun kr s' => kr = KERN_SUCCESS /\ Inv plain own s' /\ same_ports s1 s' /\ replaced s1 HHost ux_mask new exceptions s')).
  - unfold host_set_exception_ports, checked, check_arguments. cbn [negb]. fold new. wp_go. cbn. wp_go.
    apply (wp_set_and_release plain own s1 HHost _ new H1). split; [done | by left].
  - intros kr s2 (-> & H2 & Hp2 & Hr2 & _). cbn. apply wp_ret. split; [done|]. exists u. pose proof (same_ports_trans _ _ _ Hp1 Hp2) as Hp. split_and!.
    + rewrite <- Hu. apply Hp.
    + rewrite <- Ha. by destruct Hp as [Hq _]; destruct (Hq u) as (-> & _).
    + intros i Hi Hm. rewrite Hr2. rewrite decide_True by done. cbn. split; [|done].
      assert (ip_active (ports s1 u) = true) as -> by (rewrite <- Ha; destruct Hp1 as [Hq _]; by destruct (Hq u) as (-> & _)). done.
Qed.

(** A running thread, which the kernel can find by its ports. *)
Record running (s : xst) (t : nat) : Prop := mk_running {
  r_active : x_active (xthreads s t) = true;
  r_thread : exists n, x_ipc_active (xthreads s t) = true /\ x_kport (xthreads s t) = IP n /\ ip_active (ports s n) = true /\ ip_kobject (ports s n) = IKOT_THREAD_CONTROL t;
  r_task : let k := x_task (xthreads s t) in
    exists n, k_ipc_active (xtasks s k) = true /\ k_kport (xtasks s k) = IP n /\ ip_active (ports s n) = true /\ ip_kobject (ports s n) = IKOT_TASK_CONTROL k;
}.
Lemma running_converts s t s1 : running s t -> rights_only s s1 -> converts s1 (x_task (xthreads s t)) (thread_port_of s t) (task_port_of s (x_task (xthreads s t))) t = true.
Proof.
  intros [_ (nt & Hi & Hk & Ha & Ho) (nk & Hi' & Hk' & Ha' & Ho')] Hr. unfold converts. pose proof (quiet_rights _ _ Hr) as Hq.
  rewrite (quiet_thread_port s s1), (quiet_task_port s s1) by done. unfold thread_port_of, task_port_of. rewrite Hi, Hi', Hk, Hk'. cbn. rewrite Ha, Ha'. cbn. rewrite Ha, Ha', Ho, Ho'. cbn.
  unfold task_conversion_eval. rewrite !Nat.eqb_refl, !orb_true_r. cbn. by rewrite bool_decide_eq_true_2.
Qed.
(** The kernel's handler turns an exception into a signal of the thread. *)
Lemma wp_deliver_ux own s t exception code :
  J own s -> running s t -> ux_installed s -> x_processing_signal (xthreads s t) = true -> exception ∈ exceptions -> in_mask ux_mask exception = true ->
  wp (exception_deliver (x_task (xthreads s t)) t exception code HHost) (fun kr s' =>
    kr = KERN_SUCCESS /\ xthreads s' t = with_signal (xthreads s t) (ux_exception exception (fst code))) s.
Proof.
  intros Hs Hrun (u & Hu & Hua & Hact) Hp He Hm. destruct (Hact exception He Hm) as [Hport Hbeh].
  eapply (wp_deliver own s _ t exception code HHost u); try done.
  - by rewrite (r_active _ _ Hrun).
  - exact (proj1 (Forall_forall _ _) exceptions_bound exception He).
  - intros s1 tp kp H1 Hr1 code64. assert (Hx : xthreads s1 = xthreads s) by apply Hr1.
    eapply wp_mono; [apply (wp_ux_raise (tp :: kp :: IP u :: own) s1 (x_task (xthreads s t)) code64 u tp kp t exception); [done | | |]|].
    + rewrite <- Hu. apply Hr1.
    + unfold tp. rewrite <- (thread_port_same s s1 t Hr1). apply thread_port_is.
    + by rewrite Hx.
    + intros kr s2 (Hkr & H2 & Hq2). split; [done|]. intros s3 Hr3 _. unfold tp, kp in Hkr, Hq2. rewrite (running_converts s t s1 Hrun Hr1) in Hkr, Hq2.
      split; [done|]. assert (xthreads s3 = xthreads s2) as -> by apply Hr3. destruct Hq2 as (_ & -> & _). cbn [threads_after]. rewrite upd_eq, Hx. reflexivity.
Qed.

(** ** Signals that nobody handles *)

(** Nobody but the kernel handles the exceptions of a thread. *)
Definition unhandled (s : xst) (t : nat) : Prop :=
  forall e, undeliverable s e (HThread t) /\ undeliverable s e (HTask (x_task (xthreads s t))).
Lemma deliver_declined s cur t e code h levels kr Q :
  x_active (xthreads s t) = true -> undeliverable s e h -> e <> EXC_CRASH ->
  wp (triage_levels cur t e code levels KERN_FAILURE) Q s -> wp (triage_levels cur t e code (h :: levels) kr) Q s.
Proof.
  intros Ha Hu He Hw. cbn [triage_levels]. apply wp_bind. unfold check_exc_receiver_dependency, the_actions. wp_go.
  assert (Hd : wp (exception_deliver cur t e code h) (fun kr s' => kr = KERN_FAILURE /\ s' = s) s).
  { unfold wp. rewrite (deliver_nowhere s cur t e code h); [done | by rewrite Ha | done]. }
  destruct (match h with HThread _ => actions s !! h | _ => Some (actions_at s h) end); [rewrite decide_False by done|]; wp_go.
  all: eapply wp_mono; [exact Hd|]; intros k s' [-> ->]; exact Hw.
Qed.
Lemma wp_triage_ux own s t e code :
  J own s -> running s t -> ux_installed s -> unhandled s t -> x_processing_signal (xthreads s t) = true ->
  e ∈ exceptions -> in_mask ux_mask e = true -> e <> EXC_CRASH ->
  wp (exception_triage_thread (x_task (xthreads s t)) e code t) (fun _ s' => xthreads s' t = with_signal (xthreads s t) (ux_exception e (fst code))) s.
Proof.
  intros Hs Hr Hux Hun Hp Hin Hm He. destruct (Hun e) as [Hu1 Hu2]. pose proof (r_active _ _ Hr) as Ha.
  unfold exception_triage_thread, the_thread. wp_go. do 2 (apply deliver_declined; [done | done | done|]). cbn [triage_levels]. apply wp_bind.
  unfold check_exc_receiver_dependency, the_actions. wp_go. rewrite decide_False by done. wp_go.
  eapply wp_mono; [by apply (wp_deliver_ux own s t e code)|]. intros kr s' [-> Hx]. by apply wp_ret.
Qed.
(** The signal of BSD that a processor's signal of Linux is. *)
Definition bsd_of (linux : Z) : option Z :=
  if linux =? LINUX_SIGSEGV then Some SIGSEGV
  else if linux =? LINUX_SIGBUS then Some SIGBUS
  else if linux =? LINUX_SIGILL then Some SIGILL
  else if linux =? LINUX_SIGFPE then Some SIGFPE
  else if linux =? LINUX_SIGTRAP then Some SIGTRAP
  else None.
(** The numbers that a client gives agree; they are only looked at together for a signal of the processor. *)
Definition agree (bsd linux : Z) : Prop := forall n, bsd_of linux = Some n -> bsd = n.
Lemma exception_and_back linux code addr bsd e codes :
  agree bsd linux -> mach_exception_of linux code addr = Some (e, codes) ->
  ux_exception e (fst codes) = bsd /\ e ∈ exceptions /\ in_mask ux_mask e = true /\ e <> EXC_CRASH.
Proof.
  intros Hb. unfold agree, bsd_of in Hb. unfold mach_exception_of.
  repeat (case_bool; [rewrite (Hb _ eq_refl); intros [= <- <-]; split_and!; [reflexivity | vm_compute; set_solver | reflexivity | done]|]). done.
Qed.
(** A thread in the middle of the call, with the processing flag on. *)
Definition entered (s : xst) (t : nat) (rest : list Z) : xst :=
  s <| xthreads ::= fun l => upd l t ((l t) <| x_interrupts := 0 :: rest |>) |> <| xthreads ::= fun l => upd l t ((l t) <| x_processing_signal := true |>) |>.
Lemma entered_at s t rest : xthreads (entered s t rest) t = (xthreads s t) <| x_interrupts := 0 :: rest |> <| x_processing_signal := true |>.
Proof. unfold entered. cbn. by rewrite !upd_eq. Qed.
Lemma J_entered own s t rest : J own s -> J own (entered s t rest).
Proof.
  intros []. split; try done; unfold entered; cbn; [intros t' n t2 | intros t']; unfold upd; repeat case_decide; subst; try done;
    first [apply inv_kobject0 | apply inv_signal0].
Qed.
Lemma running_entered s t rest : running s t -> running (entered s t rest) t.
Proof. intros [Ha Ht Hk]. split; rewrite ?entered_at; cbn [x_active x_task x_ipc_active x_kport]; done. Qed.
Lemma unhandled_entered s t rest : unhandled s t -> unhandled (entered s t rest) t.
Proof. intros Hu e. rewrite entered_at. exact (Hu e). Qed.
(** The reply has the signal that is pending when the exception was handled; a thread that
    is not suspended does not wait. *)
Lemma wp_Sigprocess fuel s t bsd linux code addr old rest signal more :
  x_interrupts (xthreads s t) = old :: rest ->
  wp (raise_signal t bsd linux code addr) (fun _ s' => x_interrupts (xthreads s' t) = signal :: more /\ x_suspend_count (xthreads s' t) <= 0) (entered s t rest) ->
  wp (Sigprocess (S fuel) (Some t) bsd linux code addr 0 0) (fun r _ => r = (0, signal)) s.
Proof.
  intros Hi Hw. assert (Hraise : wp (signal_raised t bsd linux code addr) (fun _ s' => x_interrupts (xthreads s' t) = signal :: more /\ x_suspend_count (xthreads s' t) <= 0) s).
  { unfold signal_raised, the_thread, xthread_mod, dtape_thread_process_signal, xthread_mod. wp_go. rewrite Hi. wp_go. eapply wp_mono; [exact Hw|]. intros ? s1 H1. wp_go. cbn. by rewrite upd_eq. }
  destruct (proj1 (wp_run _ _ _) Hraise) as ([] & s1 & E & Hs & Hc). unfold wp. rewrite (Sigprocess_parts _ _ _ _ _ _ _ _ s1 E), wait_turn.
  destruct (Z.gtb_spec (x_suspend_count (xthreads s1 t)) 0); [lia|]. cbn. by rewrite Hs.
Qed.
(** C37: Where the task's signals are not passed to a debugger ([k_has_sigexc] off), and neither
    the thread nor its task has a live handler of exceptions, a client gets back the signal
    that it received, whichever it is: a signal that the processor raised goes as an
    exception to the kernel's own handler on the host port, which turns it back into the
    signal, and any other signal (sent by a process, or not an exception) is set as the
    pending one without an exception.  The thread runs, is in a signal and is not suspended,
    its and its task's ports are alive, the kernel's handler is installed, the numbers of the
    signal agree, and the registers can be read and written. *)
Theorem signals_come_back own fuel s t bsd linux code addr old rest :
  J own s -> running s t -> ux_installed s -> unhandled s t -> k_has_sigexc (xtasks s (x_task (xthreads s t))) = false ->
  x_interrupts (xthreads s t) = old :: rest -> x_suspend_count (xthreads s t) <= 0 -> agree bsd linux ->
  wp (Sigprocess (S fuel) (Some t) bsd linux code addr 0 0) (fun r _ => r = (0, bsd)) s.
Proof.
  intros Hs Hr Hux Hun Hsig Hi Hrun Hagree. apply (wp_Sigprocess fuel s t bsd linux code addr old rest bsd rest Hi).
  pose proof (J_entered own s t rest Hs) as H1. pose proof (entered_at s t rest) as Hat.
  assert (Hsoft : wp (process_soft_signal t bsd) (fun _ s' => x_interrupts (xthreads s' t) = bsd :: rest /\ x_suspend_count (xthreads s' t) <= 0) (entered s t rest)).
  { unfold process_soft_signal, the_thread, the_task. wp_go. rewrite Hat. cbn [x_task]. change (xtasks (entered s t rest)) with (xtasks s). cbn. rewrite Hsig. apply wp_bind.
    eapply wp_mono; [apply (wp_setPendingSignal own _ t bsd H1); by rewrite Hat|]. intros ? s1 (_ & _ & Hx & _). apply wp_ret. by rewrite Hx, upd_eq, Hat. }
  unfold raise_signal. case_bool; [done|]. destruct (mach_exception_of linux code addr) as [[e codes]|] eqn:Em; [|done].
  destruct (exception_and_back _ _ _ _ _ _ Hagree Em) as (Hback & Hin & Hm & Hne). unfold the_thread. wp_go.
  eapply wp_mono; [apply (wp_triage_ux own (entered s t rest) t e codes H1); try done|].
  - by apply running_entered.
  - by apply unhandled_entered.
  - by rewrite Hat.
  - intros ? s1 Hx. apply wp_ret. rewrite Hx, Hat, Hback. by split.
Qed.
(** A debugger asked for the signals of a task, and its port is gone: the exception that
    tells it of a signal cannot be delivered, and the client is told to go on with no signal. *)
Theorem sigexc_signals_lost fuel s t bsd linux code addr old rest :
  x_active (xthreads s t) = true -> k_has_sigexc (xtasks s (x_task (xthreads s t))) = true ->
  undeliverable s EXC_SOFTWARE (HTask (x_task (xthreads s t))) ->
  code = LINUX_SI_USER \/ bsd_of linux = None -> x_interrupts (xthreads s t) = old :: rest -> x_suspend_count (xthreads s t) <= 0 ->
  wp (Sigprocess (S fuel) (Some t) bsd linux code addr 0 0) (fun r _ => r = (0, 0)) s.
Proof.
  intros Ha Hsig Hu Hsoft Hi Hrun. apply (wp_Sigprocess fuel s t bsd linux code addr old rest 0 rest Hi). pose proof (entered_at s t rest) as Hat.
  assert (Hw : wp (process_soft_signal t bsd) (fun _ s' => x_interrupts (xthreads s' t) = 0 :: rest /\ x_suspend_count (xthreads s' t) <= 0) (entered s t rest)).
  { assert (Htask : x_task (xthreads (entered s t rest) t) = x_task (xthreads s t)) by by rewrite Hat.
    unfold process_soft_signal, the_thread, the_task, bsd_exception, the_thread. wp_go. rewrite Htask. change (xtasks (entered s t rest)) with (xtasks s). rewrite Hsig. wp_go. rewrite Htask.
    unfold wp. rewrite deliver_nowhere; [|by rewrite Hat; cbn; rewrite Ha | exact Hu]. unfold ret. by rewrite Hat. }
  unfold raise_signal. case_bool; [done|]. destruct Hsoft as [-> | Hb]; [done|]. replace (mach_exception_of linux code addr) with (@None (nat * (Z * Z))); [done|].
  revert Hb. unfold bsd_of, mach_exception_of. by repeat case_bool.
Qed.
(** The call by which a debugger changes the signal of a thread stops the server when the
    thread is not in a signal. *)
Lemma thupdate_stops_server s t signum : x_interrupts (xthreads s t) = [] -> exists why, PtraceThupdate (Some t) signum s = Panic why.
Proof. intros Hi. unfold PtraceThupdate, setPendingSignal, the_thread, bind, gets. rewrite Hi. eauto. Qed.

(** ** Handlers that ask for the state of a thread *)

Lemma make_send_returns p s : exists q s', ipc_port_make_send p s = Ret q s'.
Proof. destruct p; cbn; unfold ret; eauto. unfold bind, the_port, gets. destruct (ip_active _); cbn; eauto. Qed.
Lemma convert_thread_returns t s : exists q s', convert_thread_to_port t s = Ret q s'.
Proof. unfold convert_thread_to_port, bind, the_thread, gets. destruct (x_ipc_active _); cbn [negb]; [apply make_send_returns | unfold ret; eauto]. Qed.
Lemma convert_task_returns k s : exists q s', convert_task_to_port k s = Ret q s'.
Proof. unfold convert_task_to_port, bind, the_task, gets. destruct (k_ipc_active _); cbn [negb]; [apply make_send_returns | unfold ret; eauto]. Qed.
Definition wants_state (b : Z) : Prop := clr b MACH_EXCEPTION_MASK = EXCEPTION_STATE \/ clr b MACH_EXCEPTION_MASK = EXCEPTION_STATE_IDENTITY.
Lemma deliver_state_stops s cur t e code k n :
  x_active (xthreads s t) = true -> (e < EXC_TYPES_COUNT)%nat -> port (action_of (actions_at s (HTask k)) e) = IP n -> ip_active (ports s n) = true ->
  wants_state (behavior (action_of (actions_at s (HTask k)) e)) -> exists why, exception_deliver cur t e code (HTask k) s = Panic why.
Proof.
  intros Ha He Hp Hn Hb. unfold exception_deliver. unfold bind at 1. unfold the_thread, gets. rewrite Ha. cbn [negb andb]. unfold bind at 1. unfold the_actions, gets.
  apply Nat.leb_gt in He. rewrite He, Hp. unfold bind at 1. unfold the_port, gets. rewrite Hn. cbn [negb]. unfold bind at 1. unfold port_mod at 1, modify.
  destruct Hb as [-> | ->].
  - change (EXCEPTION_STATE =? EXCEPTION_STATE) with true. cbn. eauto.
  - change (EXCEPTION_STATE_IDENTITY =? EXCEPTION_STATE) with false. change (EXCEPTION_STATE_IDENTITY =? EXCEPTION_STATE_IDENTITY) with true. cbn [orb].
    unfold bind at 1. edestruct convert_task_returns as (kp & s1 & ->). unfold bind at 1. edestruct convert_thread_returns as (tp & s2 & ->). cbn. eauto.
Qed.
(** C38: [task_set_exception_ports] accepts a handler that wants the state of the thread with
    the exception; the first exception of a thread of the task then stops the server. *)
Theorem state_handlers_stop_server own s cur k t mask n b f e code :
  I (IP n :: own) s -> k_ipc_active (xtasks s k) = true -> valid_arguments s mask (IP n) b f -> ip_active (ports s n) = true -> wants_state b ->
  x_active (xthreads s t) = true -> x_task (xthreads s t) = k -> actions s !! HThread t = None ->
  e ∈ exceptions -> in_mask mask e = true -> e <> EXC_CRASH ->
  wp (task_set_exception_ports cur (Some k) mask (IP n) b f) (fun kr s1 => kr = KERN_SUCCESS /\ exists why, exception_triage_thread k e code t s1 = Panic why) s.
Proof.
  intros Hs Hk Hv Hn Hb Ha Ht Hnone He Hm Hne. eapply wp_mono; [by apply (wp_task_set_ports own s cur k mask (IP n) b f)|].
  intros kr s1 (-> & H1 & Hp1 & [Hr1 Hd1]). split; [done|]. assert (Hx : xthreads s1 = xthreads s) by apply Hp1.
  unfold exception_triage_thread. unfold bind at 1. unfold the_thread, gets. rewrite Hx, Ht. cbn [triage_levels]. unfold bind at 1.
  assert (Hn1 : actions s1 !! HThread t = None). { rewrite <- Hnone, <- (lookup_delete_ne (actions s1) (HTask k)), Hd1 by done. by apply lookup_delete_ne. }
  unfold check_exc_receiver_dependency, bind at 1. unfold the_actions, gets. rewrite Hn1. unfold ret at 1. unfold bind at 1.
  rewrite deliver_nowhere; [|by rewrite Hx, Ha | left; by exists t]. cbn. unfold bind at 1. cbn. rewrite decide_False by done. unfold bind, ret.
  assert (Hact : action_of (actions_at s1 (HTask k)) e = made s (mk_new (IP n) b f (Some (k_root (xtasks s cur)))) (action_of (actions_at s (HTask k)) e)).
  { rewrite Hr1. by rewrite decide_True. }
  destruct (deliver_state_stops s1 k t e code k n) as [why Hw].
  - by rewrite Hx.
  - exact (proj1 (Forall_forall _ _) exceptions_bound e He).
  - rewrite Hact. cbn. by rewrite Hn.
  - rewrite <- Hn. by destruct Hp1 as [Hq _]; destruct (Hq n) as (-> & _).
  - by rewrite Hact.
  - rewrite Hw. eauto.
Qed.
End Runs.

(** ** An example *)

(** Servers that refuse every exception, and a debugger that resumes a thread that waits. *)
Definition refusing : World :=
  {| serve := fun _ _ _ _ _ _ s => (KERN_FAILURE, s);
     while_asleep := fun t s => Some (s <| xthreads ::= fun l => upd l t ((l t) <| x_suspend_count ::= Z.pred |>) |>) |}.
Lemma refusing_laws : @WorldLaws refusing.
Proof. split; [done | done|]. intros own s t s' Hs [= <-]. by apply J_thread. Qed.
Lemma demo_out sigexc : J [] (demo sigexc 1).
Proof. apply demo_inv; [done|]. intros n. cbn. case_decide; lia. Qed.
(** A thread that was suspended once receives a signal: it sleeps until it is resumed. *)
Definition stopped : xst := (demo false 1) <| xthreads ::= fun l => upd l 1%nat ((l 1%nat) <| x_suspend_count := 1 |>) |>.
Lemma stopped_ok : J [] stopped.
Proof. apply J_thread; [apply demo_out | done]. Qed.
Lemma signals_processed_witness :
  exists s1 s2, @signal_raised refusing 1 15 15 0 0 stopped = Ret tt s1 /\ @resumed refusing 1 s1 s2 /\ 0 < x_suspend_count (xthreads s1 1) /\
    exists fuel r, @Sigprocess refusing fuel (Some 1%nat) 15 15 0 0 0 0 stopped = Ret r s2.
Proof.
  destruct (@signals_processed refusing refusing_laws [] stopped (Some 1%nat) 15 15 0 0 0 0 stopped_ok) as (s1 & E & H1 & Hall); [by intros t [= <-]|].
  assert (x_suspend_count (xthreads s1 1) = 1) as Hc by (vm_compute in E; injection E as <-; reflexivity).
  eexists s1, _. split; [exact E|]. assert (@resumed refusing 1 s1 (wakes 1 ((falls_asleep 1 s1) <| xthreads ::= fun l => upd l 1%nat ((l 1%nat) <| x_suspend_count ::= Z.pred |>) |>))) as Hr.
  { eapply (@resumed_again refusing 1); [lia | reflexivity | by vm_compute | apply (@resumed_now refusing)]. change (Z.pred (x_suspend_count (xthreads s1 1)) <= 0). rewrite Hc. done. }
  split; [exact Hr|]. split; [lia|]. exact (proj1 (proj1 (Hall _)) Hr).
Defined.

(** The server, started. *)
Definition state_after {A} (m : MX A) (s : xst) : xst := match m s with Ret _ s' => s' | _ => s end.
Lemma wp_state_after {A} (m : MX A) (Q : xst -> Prop) s : wp m (fun _ s' => Q s') s -> Q (state_after m s).
Proof. unfold wp, state_after. by destruct (m s). Qed.
Definition started : xst := state_after ux_handler_setup (demo false 1).
Lemma started_ok : J [] started /\ ux_installed started.
Proof.
  apply (wp_state_after ux_handler_setup (fun s => J [] s /\ ux_installed s)).
  exact (ux_handler_setup_installs [] (demo false 1) 3 (demo_out false) eq_refl eq_refl).
Qed.
Lemma started_running : running started 1.
Proof. split; [vm_compute; reflexivity | exists 1%nat; vm_compute; auto | exists 2%nat; vm_compute; auto]. Qed.
Lemma no_actions_port i : port (action_of no_actions i) = IP_NULL.
Proof. unfold no_actions, action_of. destruct (replicate _ _ !! i) as [a|] eqn:E; [apply lookup_replicate in E as [-> _] |]; done. Qed.
Lemma started_unhandled : unhandled started 1.
Proof.
  intros e. split; [left; exists 1%nat; split; [done | vm_compute; reflexivity]|]. right. right.
  assert (actions_at started (HTask (x_task (xthreads started 1))) = no_actions) as -> by (vm_compute; reflexivity). by rewrite no_actions_port.
Qed.
(** A segmentation fault comes back as one. *)
Lemma signals_come_back_witness : wp (@Sigprocess refusing 1 (Some 1%nat) 11 11 1 0x1234 0 0) (fun r _ => r = (0, 11)) started.
Proof.
  apply (@signals_come_back refusing [] 0 started 1 11 11 1 0x1234 0 []);
    [exact (proj1 started_ok) | exact started_running | exact (proj2 started_ok) | exact started_unhandled | vm_compute; reflexivity
    | vm_compute; reflexivity | by vm_compute | intros n [= <-]; reflexivity].
Defined.
(** A termination signal that the debugger does not take. *)
Lemma sigexc_signals_lost_witness : wp (@Sigprocess refusing 1 (Some 1%nat) 15 15 0 0 0 0) (fun r _ => r = (0, 0)) (demo true 1).
Proof.
  apply (@sigexc_signals_lost refusing 0 (demo true 1) 1 15 15 0 0 0 []);
    [reflexivity | reflexivity | right; right; by rewrite no_actions_port | by left | reflexivity | by vm_compute].
Defined.
(** A handler that wants the state of the thread. *)
Lemma state_handlers_stop_server_witness :
  wp (task_set_exception_ports 5 (Some 5%nat) 0x42 (IP 4) EXCEPTION_STATE 0)
    (fun kr s1 => kr = KERN_SUCCESS /\ exists why, @exception_triage_thread refusing 5 EXC_BAD_ACCESS (1, 0x1234) 1 s1 = Panic why) (demo false 0).
Proof.
  apply (@state_handlers_stop_server refusing [] (demo false 0) 5 5 1 0x42 4 EXCEPTION_STATE 0 EXC_BAD_ACCESS (1, 0x1234));
    [apply demo_held | reflexivity | by apply demo_valid | reflexivity | by left | reflexivity | reflexivity | reflexivity | by apply elem_of_seq; vm_compute; lia | reflexivity | done].
Defined.
End SignalsRuns.
