(* ===== verification/KqChan.v ===== *)
(** * Kqueue channels on port sets

    A channel to a port set ([duct-tape/src/kqchan.c]) has a thread of its own that waits
    on the set's wait queue and tells the client of messages
    ([kqchan_waitq_waiter_entry]).  When the client closes the channel, the server turns
    its notifications off and, in another thread, detaches it from the set
    ([filt_machportdetach] of [xnu/osfmk/ipc/ipc_pset.c], [knote_unlink_waitq]), which waits for
    the thread to end, and frees it.  The two threads, the senders of messages and the reads
    of the client interleave; each access to the shared channel is a step.  A wake-up that
    finds a thread between its assertion of a wait and its suspension is lost, as [WaitRuns]
    shows; semaphores are numbers of units with at most one sleeper, as [SemaSpec] shows.
    The wait queue is that of a set, on which a message that finds no waiter leaves a
    prepost: while there is one, [waitq_assert_wait64] returns [THREAD_AWAKENED] at once.  The
    thread that ends the channel may be interrupted while it waits for the waiter's death,
    which [knote_unlink_waitq] ignores. *)
From S2P Require Import Prelude.

Module KqChan.

(** ** Data *)

Inductive wait_result := THREAD_AWAKENED | THREAD_INTERRUPTED.
(** Where the waiter is.  [WLost] is a thread that suspended itself after it was woken. *)
Inductive waiter :=
| WTop | WAssert | WBlock | WAsleep | WResult (r : wait_result) | WPeek | WCall
| WDown | WDownBlock | WDownAsleep | WDying | WDone | WLost.
(** Where the end of the channel is. *)
Inductive ender :=
| EIdle | EDetach | EUnlink | EClear | EDown | EDownBlock | EDownAsleep | EFree | EDone | ELost.
#[export] Instance wait_result_eq : EqDecision wait_result.
Proof. solve_decision. Defined.
#[export] Instance waiter_eq : EqDecision waiter.
Proof. solve_decision. Defined.
#[export] Instance ender_eq : EqDecision ender.
Proof. solve_decision. Defined.
(** A semaphore; [None] once it is destroyed. *)
Record sema := mk_sema { units : nat; sleeper : bool }.
#[export] Instance sema_rebuild : Rebuild sema := fun r => mk_sema (units r) (sleeper r).
Record kqchan := mk_kqchan {
  kn_mqueue : bool;               (* not [IMQ_NULL] *)
  callback : bool;                (* not [NULL] *)
  waitq : bool;                   (* not [NULL] *)
  waiter_read_semaphore : option sema;
  waiter_death_semaphore : option sema;
  allocated : bool;
}.
#[export] Instance kqchan_rebuild : Rebuild kqchan := fun r =>
  mk_kqchan (kn_mqueue r) (callback r) (waitq r) (waiter_read_semaphore r) (waiter_death_semaphore r) (allocated r).
(** [w_queued]: the waiter is on the set's wait queue; [w_preposted]: the set has a prepost;
    [w_told]: the calls of the callback. *)
Record world := mk_world { w_chan : kqchan; w_waiter : waiter; w_ender : ender; w_queued : bool; w_preposted : bool; w_messages : nat; w_told : nat }.
#[export] Instance world_rebuild : Rebuild world := fun r =>
  mk_world (w_chan r) (w_waiter r) (w_ender r) (w_queued r) (w_preposted r) (w_messages r) (w_told r).
Inductive crash := NullMqueue | NullCallback | NullSemaphore | UseAfterFree.
Inductive result := Next (w : world) | Crash (c : crash).

(** ** Semaphores *)

(** What an up finds: a sleeper, which it wakes, or none. *)
Definition up (x : sema) : sema * bool := if sleeper x then (x <| sleeper := false |>, true) else (x <| units ::= S |>, false).
Definition waiter_wakes (p : waiter) (r : wait_result) : waiter :=
  match p with
  | WAsleep => WResult r
  | WDownAsleep => match r with THREAD_AWAKENED => WTop | THREAD_INTERRUPTED => WDying end
  | _ => p
  end.

(** ** The waiter *)

Definition goto (p : waiter) (w : world) : result := Next (w <| w_waiter := p |>).
(** Every step of the thread reads the channel, until it has raised the death semaphore. *)
Definition live (w : world) (r : result) : result := if allocated (w_chan w) then r else Crash UseAfterFree.
Definition waiter_step (w : world) : option result :=
  match w_waiter w with
  | WTop => Some (live w (goto (if waitq (w_chan w) then WAssert else WDying) w))
  | WAssert => Some (if w_preposted w then goto (WResult THREAD_AWAKENED) w else goto WBlock (w <| w_queued := true |>))
  | WBlock => Some (goto (if w_queued w then WAsleep else WLost) w)
  | WAsleep => None
  | WResult THREAD_INTERRUPTED => Some (goto WDying w)
  | WResult THREAD_AWAKENED => Some (goto WPeek w)
  | WPeek => Some (live w (if kn_mqueue (w_chan w) then goto (if (0 <? w_messages w)%nat then WCall else WDown) w else Crash NullMqueue))
  | WCall => Some (live w (if callback (w_chan w) then goto WDown (w <| w_told ::= S |>) else Crash NullCallback))
  | WDown => Some (live w (match waiter_read_semaphore (w_chan w) with
      | None => Crash NullSemaphore
      | Some x =>
          if (0 <? units x)%nat then goto WTop (w <| w_chan ::= fun c => c <| waiter_read_semaphore := Some (x <| units ::= pred |>) |> |>)
          else goto WDownBlock (w <| w_chan ::= fun c => c <| waiter_read_semaphore := Some (x <| sleeper := true |>) |> |>)
      end))
  | WDownBlock => Some (goto (if match waiter_read_semaphore (w_chan w) with Some x => sleeper x | None => false end then WDownAsleep else WLost) w)
  | WDownAsleep => None
  | WDying => Some (live w (match waiter_death_semaphore (w_chan w) with
      | None => Crash NullSemaphore
      | Some x =>
          let '(x', woke) := up x in
          let w := w <| w_chan ::= fun c => c <| waiter_death_semaphore := Some x' |> |> in
          goto WDone (if woke : bool then w <| w_ender ::= fun e => match e with EDownAsleep => EFree | _ => e end |> else w)
      end))
  | WDone | WLost => None
  end.

(** ** The end of the channel *)

Definition eto (e : ender) (w : world) : result := Next (w <| w_ender := e |>).
(** [clear_wait] of the waiter: off the queue or out of the semaphore it waits for. *)
Definition waiter_clear_wait (w : world) : world :=
  if w_queued w then w <| w_queued := false |> <| w_waiter ::= fun p => waiter_wakes p THREAD_INTERRUPTED |>
  else match waiter_read_semaphore (w_chan w) with
       | Some x =>
           if sleeper x then w <| w_chan ::= fun c => c <| waiter_read_semaphore := Some (x <| sleeper := false |>) |> |>
                               <| w_waiter ::= fun p => waiter_wakes p THREAD_INTERRUPTED |>
           else w
       | None => w
       end.
Definition ender_step (w : world) : option result :=
  match w_ender w with
  | EIdle => Some (eto EDetach (w <| w_chan ::= fun c => c <| callback := false |> |>))
  | EDetach => Some (eto EUnlink (w <| w_chan ::= fun c => c <| kn_mqueue := false |> |>))
  | EUnlink => Some (eto EClear (w <| w_chan ::= fun c => c <| waitq := false |> |>))
  | EClear => Some (eto EDown (waiter_clear_wait w))
  | EDown => match waiter_death_semaphore (w_chan w) with
      | None => Some (Crash NullSemaphore)
      | Some x =>
          if (0 <? units x)%nat then Some (eto EFree (w <| w_chan ::= fun c => c <| waiter_death_semaphore := Some (x <| units ::= pred |>) |> |>))
          else Some (eto EDownBlock (w <| w_chan ::= fun c => c <| waiter_death_semaphore := Some (x <| sleeper := true |>) |> |>))
      end
  | EDownBlock => Some (eto (if match waiter_death_semaphore (w_chan w) with Some x => sleeper x | None => false end then EDownAsleep else ELost) w)
  | EDownAsleep => None
  | EFree => Some (eto EDone (w <| w_chan ::= fun c => c <| waiter_death_semaphore := None |> <| waiter_read_semaphore := None |> <| allocated := false |> |>))
  | EDone | ELost => None
  end.

(** The wait for the waiter's death is interrupted: [dtape_semaphore_down_simple] returns false,
    and the end of the channel goes on. *)
Definition interrupt (w : world) : option result :=
  match w_ender w, waiter_death_semaphore (w_chan w) with
  | EDownAsleep, Some x => Some (eto EFree (w <| w_chan ::= fun c => c <| waiter_death_semaphore := Some (x <| sleeper := false |>) |> |>))
  | _, _ => None
  end.

(** ** Messages and reads *)

(** A message wakes a waiter that is on the queue, or preposts the set. *)
Definition message (w : world) : world :=
  let w := w <| w_messages ::= S |> in
  if w_queued w then w <| w_queued := false |> <| w_waiter ::= fun p => waiter_wakes p THREAD_AWAKENED |> else w <| w_preposted := true |>.
(** Another thread receives a message from the set. *)
Definition receive (w : world) : world := w <| w_messages ::= pred |>.
(** [dtape_kqchan_mach_port_fill] while the set exists: it receives a message, if the client
    asks for it ([rcv]) and there is one, and raises the read semaphore.  The client's reads
    end before the channel is closed. *)
Definition fill (rcv : bool) (w : world) : option result :=
  match w_ender w, waiter_read_semaphore (w_chan w) with
  | EIdle, Some x =>
      let '(x', woke) := up x in
      let w := (if rcv then receive w else w) <| w_chan ::= fun c => c <| waiter_read_semaphore := Some x' |> |> in
      Some (Next (if woke : bool then w <| w_waiter ::= fun p => waiter_wakes p THREAD_AWAKENED |> else w))
  | _, _ => None
  end.
(** [Prepost]: preposts of the set come and go, as its other waiters and the receivers of
    messages use them up or leave stale ones. *)
Inductive event := Waiter | Ender | Message | Receive | Fill (rcv : bool) | Prepost (there : bool) | Interrupt.
Definition exec (e : event) (w : world) : option result :=
  match e with
  | Waiter => waiter_step w
  | Ender => ender_step w
  | Message => Some (Next (message w))
  | Receive => Some (Next (receive w))
  | Fill rcv => fill rcv w
  | Prepost there => Some (Next (w <| w_preposted := there |>))
  | Interrupt => interrupt w
  end.
(** [knote_link_waitq]: the channel is attached, and the waiter starts. *)
Definition knote_link_waitq (messages : nat) : world :=
  mk_world (mk_kqchan true true true (Some (mk_sema 0 false)) (Some (mk_sema 0 false)) true) WTop EIdle false (0 <? messages)%nat messages 0.
(** The events in turn; [None] if one cannot happen. *)
Fixpoint run (l : list event) (w : world) : option result :=
  match l with
  | [] => Some (Next w)
  | e :: l => match exec e w with Some (Next w') => run l w' | r => match l with [] => r | _ => None end end
  end.

(** ** Safety *)

Definition is_done (p : waiter) : bool := match p with WDone => true | _ => false end.
Definition is_over (e : ender) : bool := match e with EDone => true | _ => false end.
(** Where the two threads can be together: the end of the channel passes the death semaphore
    only after the waiter's last step. *)
Definition legal (p : waiter) (e : ender) : bool :=
  match e with EFree | EDone | ELost => is_done p | EDownAsleep => negb (is_done p) | _ => true end.
(** The death semaphore is raised once and taken once. *)
Definition death_of (p : waiter) (e : ender) : option sema :=
  match e with
  | EDone => None
  | EFree | ELost => Some (mk_sema 0 false)
  | EDownBlock | EDownAsleep => Some (mk_sema 0 (negb (is_done p)))
  | _ => Some (mk_sema (if is_done p then 1 else 0) false)
  end.
Record inv (w : world) : Prop := mk_inv {
  i_legal : legal (w_waiter w) (w_ender w) = true;
  i_death : waiter_death_semaphore (w_chan w) = death_of (w_waiter w) (w_ender w);
  i_alloc : allocated (w_chan w) = negb (is_over (w_ender w));
  i_read : match waiter_read_semaphore (w_chan w) with
           | Some x => is_over (w_ender w) = false /\ (sleeper x = true -> match w_waiter w with WDownBlock | WDownAsleep => True | _ => False end)
           | None => is_over (w_ender w) = true
           end;
  i_queued : w_queued w = true -> match w_waiter w with WBlock | WAsleep => True | _ => False end;
  i_asleep : match w_waiter w with
             | WAsleep => w_queued w = true
             | WDownAsleep => match waiter_read_semaphore (w_chan w) with Some x => sleeper x = true | None => False end
             | _ => True
             end;
  i_open : w_ender w = EIdle -> callback (w_chan w) = true /\ kn_mqueue (w_chan w) = true;
}.
Definition good (r : result) : Prop := match r with Next w => inv w | Crash c => c = NullMqueue \/ c = NullCallback end.
Lemma link_inv m : inv (knote_link_waitq m).
Proof. by split. Qed.
(** The states where both threads are known. *)
Ltac kq_split := split; cbn in *; try done; intuition (done || congruence).
Lemma message_inv w : inv w -> inv (message w).
Proof.
  destruct w as [[? ? ? rs ds ?] p e q pre m n]. intros []. unfold message. cbn in *. destruct q; [|by split].
  specialize (i_queued0 eq_refl). destruct p; try done; destruct rs as [[u []]|], e; try done; kq_split.
Qed.
Lemma receive_inv w : inv w -> inv (receive w).
Proof. destruct w as [[? ? ? rs ds ?] p e q pre m n]. by intros []. Qed.
Lemma fill_good b w r : inv w -> fill b w = Some r -> good r.
Proof.
  destruct w as [[? ? ? [[u sl]|] ds ?] p e q pre m n]; unfold fill; cbn; destruct e; try done. intros [] Hr. destruct sl, b; cbn in *; injection Hr as <-; cbn.
  1,2: destruct i_read0 as [_ Hp]; specialize (Hp eq_refl); destruct p; try done; kq_split.
  all: kq_split.
Qed.
Lemma clear_wait_inv w : w_ender w = EClear -> inv w -> inv (waiter_clear_wait w) /\ w_ender (waiter_clear_wait w) = EClear.
Proof.
  destruct w as [[? ? ? rs ds ?] p e q pre m n]. cbn. intros -> Hw. destruct Hw. unfold waiter_clear_wait. cbn in *. destruct q.
  - split; [|done]. specialize (i_queued0 eq_refl). destruct p; try done; destruct rs as [[u []]|]; try done; kq_split.
  - destruct rs as [[u sl]|]; [|by split]. destruct sl; [|by split]. split; [|done]. destruct i_read0 as [_ Hp]. specialize (Hp eq_refl). destruct p; try done; kq_split.
Qed.
Lemma ender_good w r : inv w -> ender_step w = Some r -> good r.
Proof.
  intros Hw. destruct (decide (w_ender w = EClear)) as [He|He].
  { unfold ender_step. rewrite He. intros [= <-]. destruct (clear_wait_inv w He Hw) as [Hc Hce]. revert Hc Hce. generalize (waiter_clear_wait w).
    intros [[? ? ? rs ds ?] p e q pre m n]. cbn. intros [] ->. cbn in *. kq_split. }
  destruct w as [[? ? ? rs ds ?] p e q pre m n]. unfold ender_step. cbn in *. destruct Hw. cbn in *. subst ds.
  destruct e; try done; cbn; try (intros [= <-]; destruct rs as [[? ?]|]; kq_split).
  - destruct p; cbn; intros [= <-]; kq_split.
  - destruct p; cbn; intros [= <-]; kq_split.
  - destruct p; try done. intros [= <-]. destruct rs as [[? ?]|]; kq_split.
Qed.
Lemma waiter_good w r : inv w -> waiter_step w = Some r -> good r.
Proof.
  destruct w as [[mq cb wq rs ds al] p e q pre m n]. intros []. unfold waiter_step, live. cbn in *. subst ds al.
  destruct p as [| | | |[]| | | | | | | |]; try done; destruct e; try done; cbn; intros [= <-]; try kq_split.
  all: try (destruct wq; kq_split); try (destruct pre; kq_split); try (destruct q; kq_split).
  all: try (destruct mq; [destruct m; kq_split | by left]); try (destruct cb; [kq_split | by right]).
  all: destruct rs as [[[|u] []]|]; cbn in *; first [discriminate | kq_split].
Qed.
Lemma exec_good e w r : inv w -> e <> Interrupt -> exec e w = Some r -> good r.
Proof.
  intros Hw Hi. destruct e; cbn [exec]; [by apply waiter_good | by apply ender_good | | | by apply fill_good | | done]; intros [= <-]; [by apply message_inv | by apply receive_inv | by destruct Hw].
Qed.
Lemma run_good l w r : inv w -> Interrupt ∉ l -> run l w = Some r -> good r.
Proof.
  revert w. induction l as [|e l IH]; intros w Hw Hl; cbn [run]; [by intros [= <-]|]. apply not_elem_of_cons in Hl as [He' Hl].
  destruct (exec e w) as [[w'|c]|] eqn:He; [|destruct l; [|done]; intros [= <-] | destruct l; done]; [|by eapply exec_good].
  apply IH; [exact (exec_good e w _ Hw ltac:(congruence) He) | done].
Qed.
(** The end of a channel does not start over, so before it nobody is interrupted. *)
Lemma exec_idle e w w' : exec e w = Some (Next w') -> w_ender w' = EIdle -> w_ender w = EIdle /\ e <> Interrupt.
Proof.
  destruct w as [[mq cb wq rs ds al] p en q pre m n]. destruct e as [| | | |b|b|]; cbn [exec].
  - intros Hx He. split; [|done]. unfold waiter_step, live, goto in Hx. cbn in Hx. destruct p as [| | | |[]| | | | | | | |]; repeat case_match; simplify_eq/=; try done; by destruct en.
  - intros Hx He. split; [|done]. unfold ender_step, eto in Hx. cbn in Hx. destruct en; repeat case_match; by simplify_eq/=.
  - intros [= <-]. unfold message. cbn. by destruct q.
  - by intros [= <-].
  - unfold fill. cbn. destruct en, rs as [[u []]|], b; cbn; intros Hx; simplify_eq/=; done.
  - by intros [= <-].
  - unfold interrupt, eto. cbn. destruct en, ds; cbn; intros Hx; simplify_eq/=; done.
Qed.
Lemma run_idle l w w' : run l w = Some (Next w') -> w_ender w' = EIdle -> w_ender w = EIdle /\ Interrupt ∉ l.
Proof.
  revert w. induction l as [|e l IH]; intros w; cbn [run]; [intros [= <-]; split; [done | apply not_elem_of_nil]|].
  destruct (exec e w) as [[w1|c]|] eqn:He; [|by destruct l..]. intros Hr Hi. destruct (IH w1 Hr Hi) as [H1 Hl]. destruct (exec_idle e w w1 He H1) as [H0 Hne].
  split; [done|]. apply not_elem_of_cons. split; [congruence | done].
Qed.

(** ** The end of a channel *)

(** A thread that has asserted a wait suspends itself before another goes on. *)
Definition prompt (e : event) (w : world) : bool :=
  match w_waiter w, w_ender w, e with
  | (WBlock | WDownBlock), _, Waiter => true
  | (WBlock | WDownBlock), _, _ => false
  | _, EDownBlock, Ender => true
  | _, EDownBlock, _ => false
  | _, _, _ => true
  end.
(** Whichever thread goes on, within [n] steps the channel is freed. *)
Fixpoint closes (n : nat) (w : world) : Prop :=
  w_ender w = EDone \/
  match n with
  | O => False
  | S n => (exists e r, (e = Waiter \/ e = Ender) /\ prompt e w = true /\ exec e w = Some r) /\
      forall e r, e = Waiter \/ e = Ender -> prompt e w = true -> exec e w = Some r -> exists w', r = Next w' /\ closes n w'
  end.
Lemma closes_done n w : w_ender w = EDone -> closes n w.
Proof. destruct n; by left. Qed.
Lemma closes_step n w :
  (exists e r, (e = Waiter \/ e = Ender) /\ prompt e w = true /\ exec e w = Some r) ->
  (forall e r, e = Waiter \/ e = Ender -> prompt e w = true -> exec e w = Some r -> exists w', r = Next w' /\ closes n w') -> closes (S n) w.
Proof. by right. Qed.
#[local] Arguments closes : simpl never.
(** Every move of the two threads from a state, one after the other. *)
Ltac kq_enabled := first [exists Ender; eexists; split_and!; [by right | reflexivity | reflexivity] | exists Waiter; eexists; split_and!; [by left | reflexivity | reflexivity]].
Ltac kq_close :=
  first [apply closes_done; reflexivity | apply closes_step; [kq_enabled|]; intros e r [-> | ->] Hp Hr; vm_compute in Hp, Hr; try discriminate; clear Hp; injection Hr as <-; eexists; (split; [reflexivity|]); kq_close].
(** C40: A channel whose waiter sleeps, on the queue or until the client reads, is closed within
    ten steps, whichever of the two threads goes on, if no message comes and nobody is woken
    before it sleeps. *)
Theorem kqchan_closes m l w :
  run l (knote_link_waitq m) = Some (Next w) -> w_ender w = EIdle -> w_waiter w = WAsleep \/ w_waiter w = WDownAsleep -> closes 10 w.
Proof.
  intros Hr Hidle. pose proof (run_good l _ _ (link_inv m) (proj2 (run_idle l _ _ Hr Hidle)) Hr) as Hw. clear Hr. revert Hidle. cbn [good] in Hw. destruct w as [[mq cb wq rs ds al] p en q pre k n]. destruct Hw. cbn in *.
  intros -> Hp. destruct (i_open0 eq_refl) as [-> ->]. cbn in *. subst al. destruct rs as [[u sl]|]; [|done]. destruct i_read0 as [_ Hsl].
  destruct Hp as [-> | ->]; cbn in *; subst ds.
  - subst q. destruct sl; [by destruct (Hsl eq_refl)|]. kq_close.
  - subst sl. destruct q; [by destruct (i_queued0 eq_refl)|]. kq_close.
Qed.
(** Closing a channel can hang, and can crash the server: if the waiter has read the pointer
    to the wait queue, the end of the channel finds nobody to wake, the waiter then sleeps on
    the queue and the end waits for its death; the next message makes it look at a queue that
    the knote no longer has.  A message just before makes it call a callback that is gone. *)
Theorem kqchan_can_hang :
  let hang := [Waiter; Ender; Ender; Ender; Ender; Ender; Ender; Waiter; Waiter] in
  (exists w, run hang (knote_link_waitq 0) = Some (Next w) /\ exec Waiter w = None /\ exec Ender w = None /\ w_ender w <> EDone) /\
  run (hang ++ [Message; Waiter; Waiter]) (knote_link_waitq 0) = Some (Crash NullMqueue) /\
  run [Waiter; Waiter; Waiter; Message; Waiter; Waiter; Ender; Waiter] (knote_link_waitq 0) = Some (Crash NullCallback).
Proof. cbv zeta. split_and!; [eexists; split; [vm_compute; reflexivity|]; by split_and! | |]; vm_compute; reflexivity. Qed.

(** ** An example *)

(** A message is told and read, and the waiter sleeps again. *)
Definition one_message : list event := [Waiter; Waiter; Waiter; Message; Waiter; Waiter; Waiter; Waiter; Waiter; Fill true; Waiter; Waiter; Waiter].
Definition after_one : world :=
  mk_world (mk_kqchan true true true (Some (mk_sema 0 false)) (Some (mk_sema 0 false)) true) WAsleep EIdle true false 0 1.
Lemma one_message_runs : run one_message (knote_link_waitq 0) = Some (Next after_one).
Proof. vm_compute. reflexivity. Qed.
(** The set has a message before the channel is attached: the waiter does not sleep, the
    client is told, and the waiter waits for the read. *)
Lemma preposted_runs : exists w, run [Waiter; Waiter; Waiter; Waiter; Waiter; Waiter; Waiter] (knote_link_waitq 1) = Some (Next w) /\ w_told w = 1%nat /\ w_waiter w = WDownAsleep.
Proof. eexists. split; [vm_compute; reflexivity | by split]. Qed.
Lemma kqchan_closes_witness : run one_message (knote_link_waitq 0) = Some (Next after_one) /\ closes 10 after_one.
Proof. exact (conj one_message_runs (kqchan_closes 0 one_message after_one one_message_runs eq_refl (or_introl eq_refl))). Defined.
End KqChan.
